(* ===== verification/_CoqProject ===== *)
-Q . S2P
Prelude.v
Prog.v
RustStr.v
StrFacts.v
Names.v
QuickSession.v
Asset.v
Links.v
Thread.v
Compliance.v
Meta.v
Git.v
CommitOnly.v
Daemon.v
Cards.v
ChannelArchive.v
Users.v
Depart.v
Boards.v
Conflict.v
Recipients.v
GitText.v
Additions.v
Poll.v
Flow.v
FlowMarkdown.v
FlowHandlers.v
FlowRun.v
Timer.v
Reading.v
Onboard.v
Epoch.v
GitRefs.v
GitPlain.v
Rotate.v
SessionHandlers.v
SessionStore.v
Cron.v
CronClock.v
CronRuns.v
FetchCache.v
SyncReplay.v
SyncLoop.v
