(* ===== verification/Prelude.v ===== *)
(** * GitIM: a verification development

    GitIM is a chat system whose store is a git repository: every channel,
    direct message and card is an append-only text file, every record a YAML
    file, and every change a commit that is pushed to a shared remote.  The
    workspace of the sources is a set of crates: [gitim-core] (data formats,
    parsers, validators, state machines), [gitim-daemon] (the process that owns
    one clone and serves requests), [gitim-sync] (git access, conflict
    resolution, epochs of the main branch), [gitim-runtime], [gitim-cli] and
    others on top.  This library models the core and the parts of the daemon and
    of the sync crate that decide what is written.

    ** Files

    - [Prelude]: outcomes of calls ([res] with [Ok], [Err] and [Panicked]), the
      [?] operator, tactics, generic lemmas on lists.
    - [RustStr], [StrFacts]: Rust strings as lists of Unicode scalar values and
      the operations of [core::str] the sources call.  Byte lengths go through
      the UTF-8 encoding.
    - [Names]: handlers, channel names, slugs, labels, ids, DM file names
      ([types/{handler,channel,project,labels,cron}.rs], [dm.rs]).
    - [QuickSession]: the quick-session state machine ([types/quick_session.rs]).
    - [Asset], [Links]: attachment references, mentions and links
      ([types/asset.rs], [mention.rs], [link.rs]).
    - [Thread]: the thread file format ([parser.rs], [formatter.rs]).
    - [Compliance]: the write gate, the audit of a file, membership rules
      ([validator/{compliance,read_check,im_rules}.rs]).
    - [Meta]: records and their validators ([types/{meta,card,config}.rs],
      [validator/mod.rs]).
    - [Daemon]: creating, joining and leaving channels, sending messages, reading
      history ([handlers/{mod,channel,send}.rs], [thread_io.rs]).
    - [Conflict]: what happens to local commits when a push is rejected
      ([gitim-sync/src/{renumber,conflict}.rs]).
    - [Recipients]: who is notified ([recipients.rs]).
    - [Flow], [FlowMarkdown], [FlowRun]: flow templates, their document form,
      and runs ([flow/{types,validator,parser,run}.rs],
      [flow_run_handlers.rs]).
    - [Timer]: one-shot timers ([timer.rs]).
    - [Git]: a clone as three trees (work tree, index, [HEAD]) and the commands
      the handlers run on it ([gitim-sync/src/git.rs] [mv], [add_and_commit_as]).
    - [Cards]: the card handlers ([card_handlers.rs]).
    - [ChannelArchive]: archiving and unarchiving channels with their cards
      ([handlers/channel.rs]).
    - [Users]: registering, updating, archiving and restoring users, archiving
      direct messages, labels and projects ([handlers/user.rs], [dm.rs],
      [labels.rs], [project.rs]); [Depart]: the departure of a user
      ([handlers/depart.rs]).
    - [CommitOnly]: committing one document ([add_and_commit_only_as]); [Boards]: the
      boards of the users ([types/board.rs], [board_handlers.rs]); [FlowHandlers]: the
      requests on flows ([flow_handlers.rs]).
    - [Additions]: what a diff says was appended to a log, for a poll and for the
      replay of a conflict; [Poll]: what a client is told of the changes between two commits, with the
      recipients of each message ([handlers/poll.rs]); [Reading]: reading channels,
      threads of replies, lists and the search ([handlers/read.rs], [search.rs]).
    - [Onboard]: how a clone gets its user: identities, [me.json], the first files, the
      user's record and place ([onboard.rs], [identity.rs], [me_json.rs]).
    - [GitText]: what is read from git's output, before [Poll]: error classification,
      credential redaction, diffs, fetch-cache manifests ([gitim-sync/src/git.rs],
      [url_redact.rs], [remote_slot.rs]).
    - [Epoch]: the epoch file ([epoch.rs]).
    - [GitRefs]: a clone as branches over histories with the refs it tracks of
      [origin], the commands of a rotation and the [GitStorage] methods that run
      them; [GitPlain]: an executable git that meets the laws.
    - [Rotate]: epoch rotation, following a redirect, recovery at boot
      ([gitim-sync/src/rotate.rs], [state.rs], [main.rs]).
    - [SessionHandlers]: the quick session handlers over a clone's three trees
      ([quick_session_handlers.rs]); [SessionStore]: the sessions they store.
    - [Cron]: cron triggers, the engine and the handlers ([types/cron.rs],
      [cron_paths.rs], [cron_engine.rs], [handlers/cron.rs]); [CronClock]: a
      calendar to run them with; [CronRuns]: the engine's loop beside the requests.
    - [Prog]: programs over operations that a world answers, with monitors and a
      weakest precondition; [FetchCache]: the fetch cache the daemons of a
      workspace share ([gitim-sync/src/fetch_cache.rs]).
    - [SyncReplay]: what [sync_with_push] does with local commits that conflict
      with the fetched branch, on trees; [SyncLoop]: the sync cycle, its auth
      circuit and the loop's delays, as programs over the operations they ask of
      git and the network ([gitim-sync/src/sync_loop.rs]).

    ** How the model corresponds to the code

    Definitions keep the names of the sources.  A [Result] is [res]; a panic is
    its own outcome [Panicked], so that "does not panic" is a statement.  Machine
    integers are [Z] or [N] with the wrap-around of a release build written out
    where it can occur.  The repository is a map from paths to contents; a
    handler is a function of the state, the request and what the environment
    answers (clock, entropy, whether a write or a git command succeeds), and
    returns the new state and the response.  A run of the daemon is a sequence of
    handler calls, which [step] relations and reachability describe.  Most handlers
    hold the repository's commit lock while they write, so that their calls do come
    one after the other; creating a channel and creating, updating, archiving and
    restoring a card take no lock (a finding says so), and of them the theorems speak
    only as long as nothing comes in between.  Where a handler reads before it takes
    the lock, the model lets others write in between (flows, sessions, cron triggers).

    Code that is not part of the repository is a class with the laws it
    documents: [Unicode] (character tables), [PercentEncoding], [SerdeJson],
    [Yaml], [FlowYaml], [TimersJson], [Humantime], [Chrono], [Croner], [CronYaml],
    [Lowercase], and the git program, as [Git] (trees) and [GitRefs] (branches).  Each class has an
    instance in the file that uses it in a witness.

    ** What the theorems show

    - Thread files: a body cannot forge an entry; an appended entry parses back to
      itself after the entries before it; rendering and parsing are inverse;
      parsing returns a log, an error, or, on an oversized line number, panics.
    - Write gate: it accepts exactly the appends that keep line numbers
      consecutive and pointers backward; a file that only grew through it passes
      the audit.
    - Daemon: every state reachable through the handlers has valid metadata and
      auditable logs, as long as existing threads can be read; a send adds one message
      and nothing else; joins and leaves change exactly the members they name.
    - Quick sessions: the transitions implement a protocol of one worker and one
      creator and only reach valid sessions, line numbers only move forward, a
      replayed request is reported as a duplicate, only the agent or the creator can
      act.
    - Conflict resolution: renumbered additions extend the remote log without
      gaps, the merge of member lists converges, the quick-session merge never
      invents a state.
    - Flows: the validator accepts exactly the acyclic well-formed templates; a
      run only moves forward and terminates.
    - Timers: a timer is never lost or fired twice.
    - Cards and channel archives: every stored card is a valid record; archiving
      either happens completely, in one commit, or leaves the clone as it was;
      archiving and unarchiving are inverse; all as long as no push meets a conflict,
      whose rebase may stop and leave its markers ([Cards.stopped_rebase_breaks_card]).
    - Users: archiving a user, with his board, is all or nothing and can be undone;
      label and project edits change just what was asked; a departure that reports
      success is complete, and a leave event is written once.
    - Boards and flows: an edit of a section is an update of an ordered list of named
      texts, and what is written is read back; stored boards and flows stay valid,
      whatever fails and however requests interleave; a changed prompt is stored.
    - Poll and reading: a poll tells a user nothing of what is private to others and
      what git's diff adds to what is his, less the lines that start with two plus
      signs, which the diff parser drops; a thread of replies is shown
      whole; a search finds the newest matches; pages and reading on lose nothing.
    - Onboarding: a success settles the clone, and asking again changes [me.json] only,
      keeping what others wrote there.
    - Rotation: nothing a clone holds is lost, whichever command fails; a rotation
      that won published seal and snapshot together, and no two rotations open the
      same epoch differently; following a redirect carries the unpublished commits
      along; the redirect chain is resolved or refused within its bound.
    - Session store: whatever requests fail, metadata, thread and place of every
      stored session agree; a send is exact and a repeated send or create has no
      second effect; work the listing offers can be claimed.
    - Cron triggers: a scan finds exactly what is due and the listing shows what it
      would find; no firing happens twice, in any interleaving with requests; stored
      specifications stay valid; a deletion is complete or undone.
    - Sync: a conflict is resolved so that messages of both sides survive (less such
      lines), with every
      path of the new commit accounted for, or the clone is back at the local commit;
      a cycle pushes only behind an open epoch fence, reports what it published once,
      and its circuit, probes and delays obey their bounds, whatever is answered.
    - Fetch cache: a clone told that it is ready has what the remote has or what a
      recent shared fetch found, whoever dies or fails in between; the daemons
      together ask the remote no more often than one of them would; the state file
      never names a generation the cache does not have.
    - Git output: no classified error shows the password of a URL, but for what
      follows a literal at-sign in it; the diff parser gives the
      added lines, with the exceptions its theorem names.

    ** Fuel

    Loops without a structural measure run with fuel: the reply chain of
    [Recipients] and the depth-first search of [Flow] with one more than the
    number of entries, proved sufficient in their files.  The push loop of [Git] makes the three attempts
    of the source and the redirect walk of [Rotate] its 32 hops.

    ** Not modelled

    Process, socket and HTTP code, subprocess calls to git and their parsing,
    file watching, the agent runtime and its providers, the command line, the
    updater and the WASM bindings: they are I/O around the modelled core.
    In [Git] an empty directory is not represented, and in every file a write that
    fails leaves the file as it was.  In [GitRefs] histories have no merges, commit
    authors are left out, and a git process that does not end well has no effect,
    except that a rebase may stop half way.  Of the sync loop, the inside of
    the epoch fence with the content replay after a conflicting migration is not
    modelled; [SyncLoop] takes it as an operation.  In [FetchCache] the checks of the
    directory layout are left out, commits are compared by a preorder, and the
    branches of the remote only move forward.
*)

From Stdlib Require Export ZifyBool ZifyN.
From stdpp Require Export base tactics option list numbers gmap sorting.
From stdpp Require Import options.

(** ** Results

    The outcome of a Rust call that returns [Result<A, E>].  [Panicked] is the
    third outcome a call can have: an [expect] on a failed invariant. *)
Inductive res (A E : Type) : Type :=
  | Ok (a : A)
  | Err (e : E)
  | Panicked.
Arguments Ok {_ _} _.
Arguments Err {_ _} _.
Arguments Panicked {_ _}.

#[export] Instance res_eq_dec {A E} `{!EqDecision A, !EqDecision E} : EqDecision (res A E).
Proof. solve_decision. Defined.

(** The [?] operator. *)
Definition res_bind {A B E} (r : res A E) (k : A → res B E) : res B E :=
  match r with
  | Ok a => k a
  | Err e => Err e
  | Panicked => Panicked
  end.

(** [Result::map_err]. *)
Definition map_err {A E F} (f : E → F) (r : res A E) : res A F :=
  match r with
  | Ok a => Ok a
  | Err e => Err (f e)
  | Panicked => Panicked
  end.

(** [Option::ok_or]. *)
Definition ok_or {A E} (o : option A) (e : E) : res A E :=
  match o with
  | Some a => Ok a
  | None => Err e
  end.

(** [Result::ok]. *)
Definition res_ok {A E} (r : res A E) : option A :=
  match r with
  | Ok a => Some a
  | _ => None
  end.

Definition is_ok {A E} (r : res A E) : bool :=
  match r with
  | Ok _ => true
  | _ => false
  end.

Definition is_err {A E} (r : res A E) : bool :=
  match r with
  | Err _ => true
  | _ => false
  end.

(** [if cond { return Err(e) }]. *)
Definition guard_err {E} (bad : bool) (e : E) : res unit E :=
  if bad then Err e else Ok tt.

Declare Scope rust_scope.
Delimit Scope rust_scope with rust.
Notation "'let?' x ':=' e 'in' k" := (res_bind e (λ x, k))
  (at level 10, x binder, e at level 100, k at level 200) : rust_scope.
Notation "'try?' e 'then' k" := (res_bind e (λ _, k))
  (at level 10, e at level 100, k at level 200) : rust_scope.
Open Scope rust_scope.

(** [for x in l { body(x)?; }] with no carried state. *)
Fixpoint for_each {A E} (l : list A) (body : A → res unit E) : res unit E :=
  match l with
  | [] => Ok tt
  | x :: l' => try? body x then for_each l' body
  end.

(** [for x in l { acc = body(acc, x)?; }]. *)
Fixpoint for_fold {A S E} (l : list A) (acc : S) (body : S → A → res S E) : res S E :=
  match l with
  | [] => Ok acc
  | x :: l' => let? acc' := body acc x in for_fold l' acc' body
  end.

(** [iter().enumerate()], counting from [i]. *)
Fixpoint enumerate_from {A} (i : N) (l : list A) : list (N * A) :=
  match l with
  | [] => []
  | x :: l' => (i, x) :: enumerate_from (i + 1)%N l'
  end.

(** [sort_by_key], which is stable: equal keys keep their order. *)
Fixpoint insert_by_key {A} (leb : A → A → bool) (x : A) (l : list A) : list A :=
  match l with
  | [] => [x]
  | y :: l' => if leb x y then x :: l else y :: insert_by_key leb x l'
  end.

Definition sort_by_key {A} (leb : A → A → bool) (l : list A) : list A :=
  foldr (insert_by_key leb) [] l.

(** ** Machine integers *)

Definition u64_MAX : N := 2 ^ 64 - 1.
Definition u32_MAX : N := 2 ^ 32 - 1.
Definition u8_MAX : N := 2 ^ 8 - 1.

(** [a + b] on [u64] with overflow checks off, as in a release build. *)
Definition wrapping_add (a b : N) : N := (a + b) mod 2 ^ 64.

Definition checked_add (a b : N) : option N :=
  if (a + b <=? u64_MAX)%N then Some (a + b)%N else None.

(** ** Options *)

(** [Option::is_some_and] and [Option::is_none_or]. *)
Definition is_some_and {A} (o : option A) (p : A → bool) : bool :=
  match o with Some a => p a | None => false end.

Definition is_none_or {A} (o : option A) (p : A → bool) : bool :=
  match o with Some a => p a | None => true end.

Definition is_some {A} (o : option A) : bool :=
  match o with Some _ => true | None => false end.

Definition is_none {A} (o : option A) : bool :=
  match o with Some _ => false | None => true end.

Definition unwrap_or {A} (o : option A) (d : A) : A :=
  match o with Some a => a | None => d end.

(** ** Automation *)

(** Boolean reading of a decidable equality, the [==] of derived [PartialEq]. *)
Notation "x =?? y" := (bool_decide (x = y)) (at level 70, no associativity) : rust_scope.

Create HintDb rust.
Create Rewrite HintDb rust.

(** Case split on the scrutinees of a hypothesis until it is an equation
    between constructors. *)
Ltac case_hyp H :=
  repeat (match type of H with
          | context [match ?x with _ => _ end] =>
              lazymatch x with
              | context [match _ with _ => _ end] => fail
              | _ => let E := fresh "E" in destruct x eqn:E
              end
          end; simplify_eq/=; try done).

Ltac case_goal :=
  repeat (match goal with
          | |- context [match ?x with _ => _ end] =>
              lazymatch x with
              | context [match _ with _ => _ end] => fail
              | _ => let E := fresh "E" in destruct x eqn:E
              end
          end; simplify_eq/=; try done).

(** Record update: the term [eta m] with the occurrence of [proj m] replaced by
    [v], where [eta] rebuilds a record from its projections. *)
Ltac set_field eta proj v m :=
  let b := eval cbv delta [eta] in (eta m) in
  let b := eval cbv beta in b in
  let b' := eval pattern (proj m) in b in
  lazymatch b' with
  | ?f _ => let r := eval cbv beta in (f v) in exact r
  end.

(** ** Lemmas on results *)

Lemma res_bind_Ok {A B E} (r : res A E) (k : A → res B E) b :
  res_bind r k = Ok b ↔ ∃ a, r = Ok a ∧ k a = Ok b.
Proof. destruct r; naive_solver. Qed.

Lemma try_Ok {B E} (r : res unit E) (k : res B E) b :
  (try? r then k) = Ok b ↔ r = Ok tt ∧ k = Ok b.
Proof. destruct r as [[]| |]; naive_solver. Qed.

Lemma res_bind_Err {A B E} (r : res A E) (k : A → res B E) e :
  res_bind r k = Err e ↔ r = Err e ∨ ∃ a, r = Ok a ∧ k a = Err e.
Proof. destruct r; naive_solver. Qed.

Lemma res_bind_assoc {A B C E} (r : res A E) (k : A → res B E) (h : B → res C E) :
  res_bind (res_bind r k) h = res_bind r (λ a, res_bind (k a) h).
Proof. by destruct r. Qed.

Lemma map_err_Ok {A E F} (f : E → F) (r : res A E) a :
  map_err f r = Ok a ↔ r = Ok a.
Proof. destruct r; naive_solver. Qed.

Lemma guard_err_Ok {E} (bad : bool) (e : E) u : guard_err bad e = Ok u ↔ bad = false.
Proof. destruct bad, u; naive_solver. Qed.

Lemma ok_or_Ok {A E} (o : option A) (e : E) a : ok_or o e = Ok a ↔ o = Some a.
Proof. destruct o; naive_solver. Qed.

Lemma is_ok_Ok {A E} (r : res A E) : is_ok r = true ↔ ∃ a, r = Ok a.
Proof. destruct r; naive_solver. Qed.

Lemma for_each_Ok {A E} (l : list A) (body : A → res unit E) :
  for_each l body = Ok tt ↔ Forall (λ x, body x = Ok tt) l.
Proof.
  induction l as [|x l IH]; simpl; [by split|].
  rewrite res_bind_Ok, Forall_cons, <-IH. split.
  - intros ([] & -> & ->). done.
  - intros [-> ->]. by exists tt.
Qed.

Lemma for_each_err_first {A E} (l : list A) (body : A → res unit E) e :
  for_each l body = Err e →
  ∃ l1 x l2, l = l1 ++ x :: l2 ∧ Forall (λ y, body y = Ok tt) l1 ∧ body x = Err e.
Proof.
  induction l as [|x l IH]; simpl; [done|].
  rewrite res_bind_Err. intros [Hx|([] & Hx & Hl)].
  - by exists [], x, l.
  - destruct (IH Hl) as (l1 & y & l2 & -> & Hl1 & Hy).
    exists (x :: l1), y, l2. by repeat constructor.
Qed.

Lemma for_fold_app {A S E} (l1 l2 : list A) (acc : S) (body : S → A → res S E) :
  for_fold (l1 ++ l2) acc body = let? acc' := for_fold l1 acc body in for_fold l2 acc' body.
Proof.
  revert acc. induction l1 as [|x l1 IH]; intros acc; simpl; [done|].
  rewrite res_bind_assoc. destruct (body acc x); simpl; auto.
Qed.

(** Rule for loops: an invariant indexed by the processed prefix. *)
Lemma for_fold_ind {A S E} (body : S → A → res S E) (P : list A → S → Prop) l acc r :
  P [] acc →
  (∀ l1 x l2 a a', l = l1 ++ x :: l2 → P l1 a → body a x = Ok a' → P (l1 ++ [x]) a') →
  for_fold l acc body = Ok r → P l r.
Proof.
  intros H0 Hstep Hr.
  assert (∀ l1 l2, l = l1 ++ l2 → ∀ a, P l1 a → ∀ r', for_fold l2 a body = Ok r' → P l r') as Hgen.
  { intros l1 l2. revert l1. induction l2 as [|x l2 IH]; intros l1 Hl a Ha r'; simpl.
    - intros [= <-]. by rewrite app_nil_r in Hl; subst.
    - rewrite res_bind_Ok. intros (a' & Hb & Hr').
      eapply (IH (l1 ++ [x])); [by rewrite <-app_assoc|by eapply Hstep|done]. }
  by eapply (Hgen [] l).
Qed.

Lemma forallb_Forall {A} (p : A → bool) l : forallb p l = true ↔ Forall (λ x, p x = true) l.
Proof.
  induction l as [|x l IH]; simpl; [by split|].
  by rewrite andb_true_iff, Forall_cons, IH.
Qed.

Lemma existsb_Exists {A} (p : A → bool) l : existsb p l = true ↔ Exists (λ x, p x = true) l.
Proof.
  induction l as [|x l IH]; simpl; [by rewrite Exists_nil|].
  by rewrite orb_true_iff, Exists_cons, IH.
Qed.

Lemma existsb_false {A} (p : A → bool) l : existsb p l = false ↔ Forall (λ x, p x = false) l.
Proof.
  induction l as [|x l IH]; simpl; [by split|].
  by rewrite orb_false_iff, Forall_cons, IH.
Qed.

Lemma enumerate_from_app {A} i (l1 l2 : list A) :
  enumerate_from i (l1 ++ l2) = enumerate_from i l1 ++ enumerate_from (i + N.of_nat (length l1))%N l2.
Proof.
  revert i. induction l1 as [|x l1 IH]; intros i; simpl.
  - by rewrite N.add_0_r.
  - rewrite IH. do 3 f_equal. lia.
Qed.

Lemma insert_by_key_perm {A} leb (x : A) l : insert_by_key leb x l ≡ₚ x :: l.
Proof.
  induction l as [|y l IH]; simpl; [done|]. destruct (leb x y); [done|].
  rewrite IH. by constructor.
Qed.

Lemma sort_by_key_perm {A} leb (l : list A) : sort_by_key leb l ≡ₚ l.
Proof.
  induction l as [|x l IH]; simpl; [done|]. by rewrite insert_by_key_perm, IH.
Qed.

Lemma sort_by_key_sorted {A} (leb : A → A → bool) (l : list A) :
  (∀ x y, leb x y = false → leb y x = true) →
  (∀ x y z, leb x y = true → leb y z = true → leb x z = true) →
  StronglySorted (λ x y, leb x y = true) (sort_by_key leb l).
Proof.
  intros Htot Htrans. induction l as [|x l IH]; simpl; [constructor|].
  induction IH as [|y l' Hl' IH' Hy]; simpl; [by repeat constructor|].
  destruct (leb x y) eqn:E.
  - constructor; [by constructor|]. constructor; [done|].
    eapply Forall_impl; [exact Hy|]. intros z Hz. by eapply Htrans.
  - constructor; [done|]. rewrite insert_by_key_perm. constructor; [by apply Htot|done].
Qed.

Lemma filter_none {A} (P : A → Prop) `{!∀ x, Decision (P x)} (l : list A) :
  Forall (λ x, ¬ P x) l → filter P l = [].
Proof. induction 1 as [|x l Hx _ IH]; [done|]. by rewrite filter_cons_False. Qed.

Lemma size_list_to_set_le {A} `{Countable A} (l : list A) : size (list_to_set l : gset A) ≤ length l.
Proof.
  induction l as [|x l IH]; simpl; [done|]. rewrite size_union_alt, size_singleton.
  pose proof (subseteq_size (list_to_set l ∖ {[x]}) (list_to_set l : gset A) ltac:(set_solver)). lia.
Qed.

Lemma checked_add_Some a b n : checked_add a b = Some n → n = (a + b)%N ∧ (n ≤ u64_MAX)%N.
Proof. unfold checked_add. case_match eqn:E; [|done]. intros [= <-]. by apply N.leb_le in E. Qed.

Lemma wrapping_add_small a b : (a + b < 2 ^ 64)%N → wrapping_add a b = (a + b)%N.
Proof. apply N.mod_small. Qed.

Lemma wrapping_add_le a b : (wrapping_add a b ≤ u64_MAX)%N.
Proof.
  unfold wrapping_add, u64_MAX. pose proof (N.mod_lt (a + b) (2 ^ 64) ltac:(done)). lia.
Qed.

(** ** Calls that cannot panic *)

Definition no_panic {A E} (r : res A E) : Prop := r ≠ Panicked.

Lemma res_bind_no_panic {A B E} (r : res A E) (k : A → res B E) :
  no_panic r → (∀ a, no_panic (k a)) → no_panic (res_bind r k).
Proof. destruct r; simpl; [auto|done|done]. Qed.
Lemma map_err_no_panic {A E F} (f : E → F) (r : res A E) : no_panic r → no_panic (map_err f r).
Proof. by destruct r. Qed.
Lemma guard_err_no_panic {E} (bad : bool) (e : E) : no_panic (guard_err bad e).
Proof. by destruct bad. Qed.
Lemma ok_or_no_panic {A E} (o : option A) (e : E) : no_panic (ok_or o e).
Proof. by destruct o. Qed.
Lemma for_each_no_panic {A E} (l : list A) (body : A → res unit E) :
  (∀ x, no_panic (body x)) → no_panic (for_each l body).
Proof. intros H. induction l; simpl; [done|]. by apply res_bind_no_panic. Qed.
Lemma for_fold_no_panic {A S E} (l : list A) (acc : S) (body : S → A → res S E) :
  (∀ s x, no_panic (body s x)) → no_panic (for_fold l acc body).
Proof. intros H. revert acc. induction l; intros acc; simpl; [done|]. by apply res_bind_no_panic. Qed.
Lemma Ok_no_panic {A E} (a : A) : no_panic (@Ok A E a).
Proof. done. Qed.
Lemma Err_no_panic {A E} (e : E) : no_panic (@Err A E e).
Proof. done. Qed.

Create HintDb no_panic.
#[export] Hint Resolve res_bind_no_panic map_err_no_panic guard_err_no_panic ok_or_no_panic for_each_no_panic
  for_fold_no_panic Ok_no_panic Err_no_panic : no_panic.

(** Discharge [no_panic] goals of a chain of [?] steps. *)
Ltac solve_no_panic :=
  repeat first
    [ progress intros
    | solve [auto with no_panic]
    | apply res_bind_no_panic | apply map_err_no_panic | apply for_each_no_panic | apply for_fold_no_panic
    | case_match ].

#[export] Hint Rewrite @try_Ok @res_bind_Ok @map_err_Ok @guard_err_Ok @ok_or_Ok : rust.

(** Break a successful run of a sequence of [?] steps into its steps. *)
Ltac run_ok H :=
  repeat first
    [ progress autorewrite with rust in H
    | match type of H with _ ∧ _ => let E := fresh "E" in destruct H as [E H]; autorewrite with rust in E end
    | match type of H with
      | ∃ _, _ => let a := fresh "v" in let E := fresh "E" in
                  destruct H as (a & E & H); autorewrite with rust in E
      end ];
  simplify_eq/=.
