(* ===== verification/Prog.v ===== *)
(** * Programs that ask their world

    Code that works through operations whose answers it cannot know, as a tree of
    operations and answers.  A program is run against a world that answers; a monitor
    follows the operations of every run; and where the operations have an effect on a
    modelled state, a program is verified with a weakest precondition that holds after
    every single operation, so also when the process dies in between. *)

From S2P Require Import Prelude.
From stdpp Require Import options.
Open Scope list_scope.

Section programs.
Context {Op : Type → Type}.

Inductive Prog (A : Type) : Type :=
  | Ret (a : A)
  | Do {X : Type} (op : Op X) (k : X → Prog A).
#[global] Arguments Ret {A} a.
#[global] Arguments Do {A X} op k.

Fixpoint bind {A B} (p : Prog A) (f : A → Prog B) : Prog B :=
  match p with
  | Ret a => f a
  | Do op k => Do op (λ x, bind (k x) f)
  end.

(** An operation with its answer, and a world that answers. *)
Inductive Event :=
  | Ev {X : Type} (op : Op X) (x : X).
Definition World (S : Type) : Type := ∀ X, Op X → S → S * X.

Fixpoint run {S A} (world : World S) (p : Prog A) (s : S) : S * list Event * A :=
  match p with
  | Ret a => (s, [], a)
  | Do op k =>
      let '(s1, x) := world _ op s in
      let '(s2, tr, a) := run world (k x) s1 in
      (s2, Ev op x :: tr, a)
  end.

(** ** Monitors

    A monitor follows the events of a run and stops it, with [None], at an event it
    forbids. *)

Section monitor.
Context {St : Type} (step : ∀ X, Op X → X → St → option St).

Definition observe (st : option St) (e : Event) : option St :=
  match st with
  | Some st => match e with @Ev X op x => step X op x st end
  | None => None
  end.

Definition accepts (st : St) (tr : list Event) : option St := fold_left observe tr (Some st).

(** Whatever is answered, the monitor does not stop the program and it ends with [Q]. *)
Fixpoint monitored {A} (p : Prog A) (st : St) (Q : St → A → Prop) : Prop :=
  match p with
  | Ret a => Q st a
  | Do op k => ∀ x, match step _ op x st with
                    | Some st' => monitored (k x) st' Q
                    | None => False
                    end
  end.

Lemma monitored_bind {A B} (p : Prog A) (f : A → Prog B) st Q :
  monitored p st (λ st a, monitored (f a) st Q) → monitored (bind p f) st Q.
Proof.
  revert st. induction p as [a|X op k IH]; intros st H; simpl in *; [done|].
  intros x. specialize (H x). destruct (step X op x st); [by apply IH|done].
Qed.

Lemma monitored_mono {A} (p : Prog A) st (Q Q' : St → A → Prop) :
  (∀ st a, Q st a → Q' st a) → monitored p st Q → monitored p st Q'.
Proof.
  intros HQ. revert st. induction p as [a|X op k IH]; intros st H; simpl in *; [by apply HQ|].
  intros x. specialize (H x). destruct (step X op x st); [by apply IH|done].
Qed.

Lemma accepts_cons st e tr : accepts st (e :: tr) = match observe (Some st) e with Some st' => accepts st' tr | None => None end.
Proof.
  unfold accepts. cbn [fold_left]. destruct (observe (Some st) e) as [st'|]; [done|]. by induction tr.
Qed.

Lemma monitored_run {S A} (world : World S) (p : Prog A) st Q s s' tr a :
  monitored p st Q → run world p s = (s', tr, a) → ∃ st', accepts st tr = Some st' ∧ Q st' a.
Proof.
  revert st s tr. induction p as [b|X op k IH]; intros st s tr H Hrun; simpl in *.
  - injection Hrun as <- <- <-. by exists st.
  - destruct (world X op s) as [s1 x]. destruct (run world (k x) s1) as [[s2 tr2] a2] eqn:E. injection Hrun as <- <- <-.
    specialize (H x). rewrite accepts_cons. simpl. destruct (step X op x st) as [st'|]; [|done].
    by destruct (IH x st' s1 tr2 H E) as (st'' & ? & ?); exists st''.
Qed.

End monitor.

(** ** Programs with effects

    [effect op st x st'] holds where the operation can be answered with [x] in state
    [st] and leaves [st']. *)

Section effects.
Context {St : Type} (effect : ∀ X, Op X → St → X → St → Prop).

(** Whatever is answered, [inv] holds after every operation and [Q] at the end. *)
Fixpoint wp {A} (inv : St → Prop) (p : Prog A) (st : St) (Q : St → A → Prop) : Prop :=
  match p with
  | Ret a => Q st a
  | Do op k => ∀ x st', effect _ op st x st' → inv st' ∧ wp inv (k x) st' Q
  end.

(** The states in which a run can end, with its value, or without one where it dies. *)
Fixpoint ends {A} (p : Prog A) (st : St) (out : option A) (st' : St) : Prop :=
  (out = None ∧ st' = st)
  ∨ match p with
    | Ret a => out = Some a ∧ st' = st
    | Do op k => ∃ x st1, effect _ op st x st1 ∧ ends (k x) st1 out st'
    end.

Lemma wp_bind {A B} inv (p : Prog A) (f : A → Prog B) st Q :
  wp inv p st (λ st a, wp inv (f a) st Q) → wp inv (bind p f) st Q.
Proof.
  revert st. induction p as [a|X op k IH]; intros st H; simpl in *; [done|].
  intros x st' He. destruct (H x st' He) as [Hi Hk]. split; [done|by apply IH].
Qed.

Lemma wp_mono {A} inv (p : Prog A) st (Q Q' : St → A → Prop) :
  (∀ st a, Q st a → Q' st a) → wp inv p st Q → wp inv p st Q'.
Proof.
  intros HQ. revert st. induction p as [a|X op k IH]; intros st H; simpl in *; [by apply HQ|].
  intros x st' He. destruct (H x st' He) as [Hi Hk]. split; [done|by apply IH].
Qed.

Lemma wp_ends {A} inv (p : Prog A) st Q out st' :
  inv st → wp inv p st Q → ends p st out st' →
  (out = None ∧ inv st') ∨ ∃ a, out = Some a ∧ Q st' a.
Proof.
  revert st. induction p as [a|X op k IH]; intros st Hinv H [[-> ->]|He]; simpl in *.
  - by left.
  - destruct He as [-> ->]. right. by exists a.
  - by left.
  - destruct He as (x & st1 & He & Hends). destruct (H x st1 He) as [Hi Hk]. by eapply IH.
Qed.

(** A run against a world that answers within the effect, at least where [ok] checked it. *)
Fixpoint checked {A} (world : World St) (ok : ∀ X, Op X → St → bool) (p : Prog A) (st : St) : bool :=
  match p with
  | Ret _ => true
  | Do op k => let '(st1, x) := world _ op st in ok _ op st && checked world ok (k x) st1
  end.

Lemma run_ends {A} (world : World St) (ok : ∀ X, Op X → St → bool) (p : Prog A) st :
  (∀ X (op : Op X) st, ok X op st = true → effect X op st (world X op st).2 (world X op st).1) →
  checked world ok p st = true → ends p st (Some (run world p st).2) (run world p st).1.1.
Proof.
  intros Hok. revert st. induction p as [a|X op k IH]; intros st Hc; cbn in *; [by right|].
  right. specialize (Hok X op st). destruct (world X op st) as [st1 x]. apply andb_prop in Hc as [Ho Hc].
  exists x, st1. split; [by apply Hok|]. specialize (IH x st1 Hc). by destruct (run world (k x) st1) as [[st2 tr] a].
Qed.

End effects.

Lemma ends_mono {St A} (effect effect' : ∀ X, Op X → St → X → St → Prop) (p : Prog A) st out st' :
  (∀ X (op : Op X) st x st', effect X op st x st' → effect' X op st x st') → ends effect p st out st' → ends effect' p st out st'.
Proof.
  intros Heff. revert st. induction p as [a|X op k IH]; intros st; cbn; [done|].
  intros [H|(x & st1 & He & H)]; [by left|right]. exists x, st1. split; [by apply Heff|by apply IH].
Qed.

End programs.

Arguments Prog Op A : clear implicits.
Arguments Event Op : clear implicits.
Arguments World Op S : clear implicits.

Declare Scope prog_scope.
Delimit Scope prog_scope with prog.
Notation "'ask!' x := op 'in' k" := (Do op (λ x, k)) (at level 10, x name, op at level 100, k at level 200) : prog_scope.
Notation "'tell!' op 'then' k" := (Do op (λ _, k)) (at level 10, op at level 100, k at level 200) : prog_scope.
Notation "'run!' x := p 'in' k" := (bind p (λ x, k)) (at level 10, x name, p at level 100, k at level 200) : prog_scope.
Open Scope prog_scope.
