(* ===== verification/RustStr.v ===== *)
(** * Rust strings

    The part of [core::str] and [alloc::string] that the GitIM sources call,
    on strings as lists of Unicode scalar values.  Byte lengths and byte
    offsets go through [as_bytes], the UTF-8 encoding. *)

From S2P Require Import Prelude.
From Stdlib Require Ascii String.
Export String.StringSyntax.
From stdpp Require Import options.
Open Scope N_scope.
Open Scope list_scope.

Abbreviation char := N (only parsing).
Abbreviation str := (list N).

(** ** Literals

    [lit "..."] is the Rust literal with the same text: the bytes of the Rocq
    string, read as UTF-8. *)
Fixpoint utf8_decode (bs : list N) : str :=
  match bs with
  | [] => []
  | b :: bs1 =>
      if b <? 128 then b :: utf8_decode bs1 else
      match bs1 with
      | [] => []
      | b1 :: bs2 =>
          if b <? 224 then ((b mod 32) * 64 + b1 mod 64) :: utf8_decode bs2 else
          match bs2 with
          | [] => []
          | b2 :: bs3 =>
              if b <? 240 then ((b mod 16) * 4096 + (b1 mod 64) * 64 + b2 mod 64) :: utf8_decode bs3 else
              match bs3 with
              | [] => []
              | b3 :: bs4 =>
                  ((b mod 8) * 262144 + (b1 mod 64) * 4096 + (b2 mod 64) * 64 + b3 mod 64) :: utf8_decode bs4
              end
          end
      end
  end.

Definition utf8_of_string (s : String.string) : str :=
  utf8_decode (map Ascii.N_of_ascii (String.list_ascii_of_string s)).
Arguments utf8_of_string s%_string_scope.

Notation "'lit' s" :=
  (ltac:(let r := eval vm_compute in (utf8_of_string s) in exact r))
  (at level 1, s at level 0, only parsing) : rust_scope.

(** A character literal. *)
Notation "'ch' s" :=
  (ltac:(let r := eval vm_compute in (default 0%N (head (utf8_of_string s))) in exact r))
  (at level 1, s at level 0, only parsing) : rust_scope.

Definition nl : char := 10.
Definition cr : char := 13.

(** ** UTF-8 *)

Definition utf8_encode (c : char) : list N :=
  if c <? 128 then [c]
  else if c <? 2048 then [192 + c / 64; 128 + c mod 64]
  else if c <? 65536 then [224 + c / 4096; 128 + (c / 64) mod 64; 128 + c mod 64]
  else [240 + c / 262144; 128 + (c / 4096) mod 64; 128 + (c / 64) mod 64; 128 + c mod 64].

(** [str::as_bytes], [str::len] and [chars().count()]. *)
Definition as_bytes (s : str) : list N := flat_map utf8_encode s.
Definition len (s : str) : N := N.of_nat (length (as_bytes s)).
Definition chars_count (s : str) : N := N.of_nat (length s).
Definition is_empty {A} (s : list A) : bool := match s with [] => true | _ => false end.

(** ** Character classes *)

Definition in_range (lo hi c : N) : bool := (lo <=? c) && (c <=? hi).
Definition is_ascii_digit (c : N) : bool := in_range 48 57 c.
Definition is_ascii_lowercase (c : N) : bool := in_range 97 122 c.
Definition is_ascii_uppercase (c : N) : bool := in_range 65 90 c.
Definition is_ascii_alphanumeric (c : N) : bool :=
  is_ascii_digit c || is_ascii_lowercase c || is_ascii_uppercase c.
Definition is_ascii_hexdigit (c : N) : bool :=
  is_ascii_digit c || in_range 97 102 c || in_range 65 70 c.

(** [char::to_ascii_lowercase]. *)
Definition ascii_lower (c : char) : char := if is_ascii_uppercase c then c + 32 else c.

(** [char::is_control]: general category Cc. *)
Definition is_control (c : char) : bool := (c <? 32) || in_range 127 159 c.

(** [char::is_whitespace]: the Unicode property White_Space. *)
Definition is_whitespace (c : char) : bool :=
  in_range 9 13 c || (c =? 32) || (c =? 133) || (c =? 160) || (c =? 5760) ||
  in_range 8192 8202 c || (c =? 8232) || (c =? 8233) || (c =? 8239) ||
  (c =? 8287) || (c =? 12288).

(** ** Prefixes, suffixes, search *)

Fixpoint strip_prefix (p s : str) : option str :=
  match p, s with
  | [], _ => Some s
  | a :: p', b :: s' => if a =? b then strip_prefix p' s' else None
  | _ :: _, [] => None
  end.

Definition strip_suffix (p s : str) : option str := reverse <$> strip_prefix (reverse p) (reverse s).
Definition starts_with (s p : str) : bool := is_some (strip_prefix p s).
Definition ends_with (s p : str) : bool := is_some (strip_suffix p s).

(** [s.split_once(p)]; [s.find(p)] is the length of the first component. *)
Fixpoint split_once (p s : str) : option (str * str) :=
  match strip_prefix p s with
  | Some r => Some ([], r)
  | None =>
      match s with
      | [] => None
      | c :: s' => match split_once p s' with
                   | Some (a, b) => Some (c :: a, b)
                   | None => None
                   end
      end
  end.

Definition contains (s p : str) : bool := is_some (split_once p s).

(** ** Splitting *)

(** [s.split(c)] for a character pattern. *)
Fixpoint split_char (c : char) (s : str) : list str :=
  match s with
  | [] => [[]]
  | x :: s' =>
      if x =? c then [] :: split_char c s'
      else match split_char c s' with
           | h :: t => (x :: h) :: t
           | [] => [[x]]
           end
  end.

Fixpoint split_inclusive (c : char) (s : str) : list str :=
  match s with
  | [] => []
  | x :: s' =>
      if x =? c then [x] :: split_inclusive c s'
      else match split_inclusive c s' with
           | h :: t => (x :: h) :: t
           | [] => [[x]]
           end
  end.

(** One item of [str::lines]: drop a final newline and then one final [\r]. *)
Definition line_of_chunk (chunk : str) : str :=
  match strip_suffix [nl] chunk with
  | None => chunk
  | Some l => default l (strip_suffix [cr] l)
  end.

Definition lines (s : str) : list str := map line_of_chunk (split_inclusive nl s).

(** [s.replace("\r\n", "\n")]. *)
Fixpoint replace_crlf (s : str) : str :=
  match s with
  | [] => []
  | c :: s' =>
      match s' with
      | d :: s'' => if (c =? cr) && (d =? nl) then nl :: replace_crlf s'' else c :: replace_crlf s'
      | [] => [c]
      end
  end.

(** [v.join(sep)]. *)
Fixpoint join (sep : str) (v : list str) : str :=
  match v with
  | [] => []
  | [x] => x
  | x :: v' => x ++ sep ++ join sep v'
  end.

(** ** Trimming *)

Fixpoint drop_while (p : char → bool) (s : str) : str :=
  match s with
  | [] => []
  | c :: s' => if p c then drop_while p s' else s
  end.

Definition trim_start (s : str) : str := drop_while is_whitespace s.
Definition trim_end (s : str) : str := reverse (drop_while is_whitespace (reverse s)).
Definition trim (s : str) : str := trim_end (trim_start s).
Definition trim_start_matches (c : char) (s : str) : str := drop_while (N.eqb c) s.
Definition trim_end_matches (c : char) (s : str) : str := reverse (drop_while (N.eqb c) (reverse s)).
Definition trim_matches (c : char) (s : str) : str := trim_end_matches c (trim_start_matches c s).

(** The longest prefix whose characters satisfy [p], and the rest. *)
Fixpoint span (p : char → bool) (s : str) : str * str :=
  match s with
  | [] => ([], [])
  | c :: s' => if p c then let '(a, b) := span p s' in (c :: a, b) else ([], s)
  end.

(** ** Order

    Rust compares strings byte-wise; on UTF-8 that is the order of the scalar
    values. *)
Fixpoint str_compare (a b : str) : comparison :=
  match a, b with
  | [], [] => Eq
  | [], _ :: _ => Lt
  | _ :: _, [] => Gt
  | x :: a', y :: b' => match x ?= y with Eq => str_compare a' b' | o => o end
  end.

Definition str_leb (a b : str) : bool := match str_compare a b with Gt => false | _ => true end.
Definition str_ltb (a b : str) : bool := match str_compare a b with Lt => true | _ => false end.

(** Insertion into a [BTreeSet<String>] listed in order. *)
Fixpoint btree_insert (x : str) (l : list str) : list str :=
  match l with
  | [] => [x]
  | y :: l' => match str_compare x y with
               | Lt => x :: l
               | Eq => l
               | Gt => y :: btree_insert x l'
               end
  end.

(** ** Numbers *)

Fixpoint fmt_N_fuel (fuel : nat) (n : N) (acc : str) : str :=
  match fuel with
  | O => acc
  | S fuel' => let acc' := (48 + n mod 10) :: acc in
               if n <? 10 then acc' else fmt_N_fuel fuel' (n / 10) acc'
  end.

(** [format!("{}", n)]. *)
Definition fmt_N (n : N) : str := fmt_N_fuel (S (N.to_nat (N.log2 n))) n [].

(** [format!("{:0>width$}", n)]. *)
Definition fmt_N_pad (width : nat) (n : N) : str :=
  let d := fmt_N n in replicate (width - length d) 48 ++ d.

Fixpoint digits_value (acc : N) (s : str) : option N :=
  match s with
  | [] => Some acc
  | c :: s' => if is_ascii_digit c then digits_value (10 * acc + (c - 48)) s' else None
  end.

(** [str::parse] for an unsigned type with maximum [max]: an optional [+],
    then one or more ASCII digits, and no overflow. *)
Definition parse_unsigned (max : N) (s : str) : option N :=
  let digits := match s with 43 :: s' => s' | _ => s end in
  match digits with
  | [] => None
  | _ => match digits_value 0 digits with
         | Some n => if n <=? max then Some n else None
         | None => None
         end
  end.

(** ** Byte offsets *)

(** [&s[n..]] and [&s[..n]] for a byte offset [n] on a character boundary. *)
Fixpoint slice_from (n : N) (s : str) : str :=
  match s with
  | [] => []
  | c :: s' => if n =? 0 then s
               else slice_from (n - N.of_nat (length (utf8_encode c))) s'
  end.

Fixpoint slice_to (n : N) (s : str) : str :=
  match s with
  | [] => []
  | c :: s' => if n =? 0 then []
               else c :: slice_to (n - N.of_nat (length (utf8_encode c))) s'
  end.

(** ** Unicode tables

    The tables of the Unicode character database that [regex] (for [\d]) and
    [char::is_alphanumeric] consult.  Their ASCII part is fixed. *)
Class Unicode := {
  is_nd : char → bool;
  is_alphanumeric : char → bool;
  is_nd_ascii : ∀ c, c < 128 → is_nd c = is_ascii_digit c;
  is_alphanumeric_ascii : ∀ c, c < 128 → is_alphanumeric c = is_ascii_alphanumeric c;
}.

(** The smallest tables: nothing outside ASCII. *)
Definition ascii_unicode : Unicode.
Proof.
  refine {| is_nd := λ c, (c <? 128) && is_ascii_digit c;
            is_alphanumeric := λ c, (c <? 128) && is_ascii_alphanumeric c |};
  intros c ->%N.ltb_lt; reflexivity.
Defined.
