(* ===== verification/StrFacts.v ===== *)
(** * Facts about the string operations of [RustStr] *)

From S2P Require Import Prelude RustStr.
From stdpp Require Import options.
Open Scope N_scope.
Open Scope list_scope.

(** ** Prefixes and suffixes *)

Lemma strip_prefix_Some p s r : strip_prefix p s = Some r ↔ s = p ++ r.
Proof.
  revert s. induction p as [|a p IH]; intros [|b s]; simpl; [naive_solver..|].
  destruct (N.eqb_spec a b) as [->|]; [rewrite IH|]; naive_solver.
Qed.

Lemma strip_prefix_app p r : strip_prefix p (p ++ r) = Some r.
Proof. by apply strip_prefix_Some. Qed.

Lemma strip_suffix_Some p s r : strip_suffix p s = Some r ↔ s = r ++ p.
Proof.
  unfold strip_suffix. rewrite fmap_Some. setoid_rewrite strip_prefix_Some. split.
  - intros (r' & Hs & ->). rewrite <-(reverse_involutive s), Hs, reverse_app.
    by rewrite reverse_involutive.
  - intros ->. exists (reverse r). by rewrite reverse_app, reverse_involutive.
Qed.

Lemma is_some_true {A} (o : option A) : is_some o = true ↔ ∃ a, o = Some a.
Proof. destruct o; naive_solver. Qed.

Lemma is_some_false {A} (o : option A) : is_some o = false ↔ o = None.
Proof. destruct o; naive_solver. Qed.

Lemma starts_with_true s p : starts_with s p = true ↔ ∃ r, s = p ++ r.
Proof.
  unfold starts_with. rewrite is_some_true. by setoid_rewrite strip_prefix_Some.
Qed.

Lemma ends_with_true s p : ends_with s p = true ↔ ∃ r, s = r ++ p.
Proof.
  unfold ends_with. rewrite is_some_true. by setoid_rewrite strip_suffix_Some.
Qed.

Lemma is_empty_true {A} (l : list A) : is_empty l = true ↔ l = [].
Proof. destruct l; naive_solver. Qed.

Lemma is_empty_false {A} (l : list A) : is_empty l = false ↔ l ≠ [].
Proof. destruct l; naive_solver. Qed.

(** ** Search *)

Lemma split_once_Some p s a b : split_once p s = Some (a, b) → s = a ++ p ++ b.
Proof.
  revert a b. induction s as [|c s IH]; intros a b; simpl.
  - destruct (strip_prefix p []) as [r|] eqn:E; [|done].
    intros [= <- <-]. by apply strip_prefix_Some in E.
  - destruct (strip_prefix p (c :: s)) as [r|] eqn:E.
    + intros [= <- <-]. by apply strip_prefix_Some in E.
    + destruct (split_once p s) as [[a' b']|] eqn:E'; [|done].
      intros [= <- <-]. simpl. f_equal. by apply IH.
Qed.

Lemma split_once_None p s : split_once p s = None → ∀ a b, s ≠ a ++ p ++ b.
Proof.
  induction s as [|c s IH]; simpl; intros H a b Hs.
  - destruct a, p; simplify_eq/=.
  - destruct (strip_prefix p (c :: s)) as [r|] eqn:E; [done|].
    destruct (split_once p s) as [[a' b']|] eqn:E'; [done|].
    destruct a as [|x a]; simplify_eq/=.
    + rewrite Hs, strip_prefix_app in E. done.
    + by eapply IH.
Qed.

(** The first occurrence is the one found. *)
Lemma split_once_first p s a b :
  split_once p s = Some (a, b) → ∀ a' b', s = a' ++ p ++ b' → (length a ≤ length a')%nat.
Proof.
  revert a b. induction s as [|c s IH]; intros a b Hsp a' b' Hs; simpl in Hsp.
  - destruct (strip_prefix p []); [|done]. simplify_eq/=. lia.
  - destruct (strip_prefix p (c :: s)) as [r|] eqn:E; [simplify_eq/=; lia|].
    destruct (split_once p s) as [[a0 b0]|] eqn:E'; [|done]. simplify_eq/=.
    destruct a' as [|x a']; simplify_eq/=.
    + rewrite Hs, strip_prefix_app in E. done.
    + apply le_n_S. by eapply IH.
Qed.

Lemma split_once_intro p a b :
  (∀ a' b', a ++ p ++ b = a' ++ p ++ b' → (length a ≤ length a')%nat) → split_once p (a ++ p ++ b) = Some (a, b).
Proof.
  intros Hmin. destruct (split_once p (a ++ p ++ b)) as [[a' b']|] eqn:E.
  - pose proof (split_once_Some _ _ _ _ E) as Heq. pose proof (Hmin _ _ Heq).
    pose proof (split_once_first _ _ _ _ E a b eq_refl) as Hle.
    apply app_inj_1 in Heq as [-> Heq]; [|lia]. by apply app_inv_head in Heq as ->.
  - by apply split_once_None with (a := a) (b := b) in E.
Qed.

Lemma split_once_char c a b : c ∉ a → split_once [c] (a ++ c :: b) = Some (a, b).
Proof.
  induction a as [|x a IH]; simpl; intros Hc.
  - by rewrite N.eqb_refl.
  - destruct (N.eqb_spec c x) as [->|]; [set_solver|].
    rewrite IH by set_solver. done.
Qed.

Lemma split_once_char_None c s : split_once [c] s = None ↔ c ∉ s.
Proof.
  split.
  - intros H Hin. apply list_elem_of_split in Hin as (a & b & ->).
    by eapply (split_once_None [c] _ H a b).
  - intros Hc. destruct (split_once [c] s) as [[a b]|] eqn:E; [|done].
    apply split_once_Some in E. set_solver.
Qed.

Lemma contains_true s p : contains s p = true ↔ ∃ a b, s = a ++ p ++ b.
Proof.
  unfold contains. destruct (split_once p s) as [[a b]|] eqn:E; simpl.
  - apply split_once_Some in E. naive_solver.
  - pose proof (split_once_None _ _ E). naive_solver.
Qed.

Lemma contains_char_true s c : contains s [c] = true ↔ c ∈ s.
Proof.
  rewrite contains_true. split.
  - intros (a & b & ->). set_solver.
  - intros (a & b & ->)%list_elem_of_split. by exists a, b.
Qed.

Lemma contains_false s p : contains s p = false ↔ ¬ ∃ a b, s = a ++ p ++ b.
Proof. rewrite <-contains_true. by destruct (contains s p). Qed.

(** ** Splitting *)

Lemma split_char_nosep c a : c ∉ a → split_char c a = [a].
Proof.
  induction a as [|x a IH]; simpl; intros Hc; [done|].
  destruct (N.eqb_spec x c) as [->|]; [set_solver|]. rewrite IH by set_solver. done.
Qed.

Lemma split_char_cons c a b : c ∉ a → split_char c (a ++ c :: b) = a :: split_char c b.
Proof.
  induction a as [|x a IH]; simpl; intros Hc; [by rewrite N.eqb_refl|].
  destruct (N.eqb_spec x c) as [->|]; [set_solver|]. rewrite IH by set_solver. done.
Qed.

Lemma split_inclusive_concat c s : concat (split_inclusive c s) = s.
Proof.
  induction s as [|x s IH]; simpl; [done|].
  destruct (N.eqb_spec x c) as [->|]; simpl; [by rewrite IH|].
  destruct (split_inclusive c s); simpl in *; by subst.
Qed.

Lemma split_inclusive_line c a b :
  c ∉ a → split_inclusive c (a ++ c :: b) = (a ++ [c]) :: split_inclusive c b.
Proof.
  induction a as [|x a IH]; simpl; intros Hc; [by rewrite N.eqb_refl|].
  destruct (N.eqb_spec x c) as [->|]; [set_solver|]. rewrite IH by set_solver. done.
Qed.

Lemma split_inclusive_last c a : c ∉ a → a ≠ [] → split_inclusive c a = [a].
Proof.
  induction a as [|x a IH]; simpl; intros Hc Hne; [done|].
  destruct (N.eqb_spec x c) as [->|]; [set_solver|].
  destruct a as [|y a]; [done|]. rewrite IH by set_solver. done.
Qed.

(** Induction over the lines of a text. *)
Lemma text_ind (P : str → Prop) :
  (∀ a, nl ∉ a → P a) → (∀ a b, nl ∉ a → P b → P (a ++ nl :: b)) → ∀ s, P s.
Proof.
  intros H0 H1 s. remember (length s) as n eqn:Hn. revert s Hn.
  induction (lt_wf n) as [n _ IH]. intros s ->.
  destruct (decide (nl ∈ s)) as [Hin|]; [|by apply H0].
  destruct (split_once [nl] s) as [[a b]|] eqn:E.
  - pose proof (split_once_Some _ _ _ _ E) as ->.
    apply H1.
    + intros (a1 & a2 & ->)%list_elem_of_split.
      pose proof (split_once_first _ _ _ _ E a1 (a2 ++ [nl] ++ b)) as Hle.
      rewrite <-!app_assoc in Hle. simpl in Hle.
      specialize (Hle eq_refl). rewrite length_app in Hle. simpl in Hle. lia.
    + eapply IH; [|done]. rewrite !length_app. simpl. lia.
  - by apply split_once_char_None in E.
Qed.

Lemma line_of_chunk_nl a : cr ∉ a → line_of_chunk (a ++ [nl]) = a.
Proof.
  intros Hcr. unfold line_of_chunk.
  assert (strip_suffix [nl] (a ++ [nl]) = Some a) as -> by by apply strip_suffix_Some.
  destruct (strip_suffix [cr] a) as [r|] eqn:E; [|done].
  apply strip_suffix_Some in E. set_solver.
Qed.

Lemma lines_cons a b : nl ∉ a → cr ∉ a → lines (a ++ nl :: b) = a :: lines b.
Proof.
  intros Hnl Hcr. unfold lines. rewrite split_inclusive_line by done. simpl.
  by rewrite line_of_chunk_nl.
Qed.

Lemma line_of_chunk_no_nl a : nl ∉ a → line_of_chunk a = a.
Proof.
  intros Hnl. unfold line_of_chunk.
  destruct (strip_suffix [nl] a) as [r|] eqn:E; [|done].
  apply strip_suffix_Some in E. set_solver.
Qed.

Lemma lines_nil : lines [] = [].
Proof. done. Qed.

Lemma lines_last a : nl ∉ a → a ≠ [] → lines a = [a].
Proof.
  intros Hnl Hne. unfold lines. rewrite split_inclusive_last by done. simpl.
  by rewrite line_of_chunk_no_nl.
Qed.

(** A text without carriage returns is left alone by [replace_crlf]. *)
Lemma replace_crlf_id s : cr ∉ s → replace_crlf s = s.
Proof.
  induction s as [|c [|d s'] IH]; intros Hcr; [done..|].
  change (replace_crlf (c :: d :: s')) with
    (if (c =? cr) && (d =? nl) then nl :: replace_crlf s' else c :: replace_crlf (d :: s')).
  destruct (N.eqb_spec c cr) as [->|]; [set_solver|]. simpl.
  f_equal. apply IH. set_solver.
Qed.

(** ** Bytes *)

Lemma as_bytes_app a b : as_bytes (a ++ b) = as_bytes a ++ as_bytes b.
Proof. apply flat_map_app. Qed.

Lemma len_app a b : len (a ++ b) = len a + len b.
Proof. unfold len. rewrite as_bytes_app, length_app. lia. Qed.

Lemma utf8_encode_nonempty c : (1 ≤ length (utf8_encode c))%nat.
Proof. unfold utf8_encode. repeat case_match; simpl; lia. Qed.

Lemma len_cons c s : len (c :: s) = N.of_nat (length (utf8_encode c)) + len s.
Proof. unfold len. simpl. rewrite length_app. lia. Qed.

Lemma len_zero s : len s = 0 ↔ s = [].
Proof.
  destruct s as [|c s]; [by split|]. rewrite len_cons.
  pose proof (utf8_encode_nonempty c). split; [lia|done].
Qed.

Lemma as_bytes_ascii s : Forall (λ c, c < 128) s → as_bytes s = s.
Proof.
  induction 1 as [|c s Hc Hs IH]; [done|].
  change (as_bytes (c :: s)) with (utf8_encode c ++ as_bytes s). rewrite IH.
  unfold utf8_encode. by apply N.ltb_lt in Hc as ->.
Qed.

Lemma len_ascii s : Forall (λ c, c < 128) s → len s = N.of_nat (length s).
Proof. intros H. unfold len. by rewrite as_bytes_ascii. Qed.

Lemma slice_to_app a b : slice_to (len a) (a ++ b) = a.
Proof.
  induction a as [|c a IH]; simpl.
  - by destruct b.
  - rewrite len_cons. pose proof (utf8_encode_nonempty c).
    destruct (N.eqb_spec (N.of_nat (length (utf8_encode c)) + len a) 0); [lia|].
    replace (_ + len a - _) with (len a) by lia. by rewrite IH.
Qed.

Lemma slice_from_app a b : slice_from (len a) (a ++ b) = b.
Proof.
  induction a as [|c a IH]; simpl.
  - by destruct b.
  - rewrite len_cons. pose proof (utf8_encode_nonempty c).
    destruct (N.eqb_spec (N.of_nat (length (utf8_encode c)) + len a) 0); [lia|].
    replace (_ + len a - _) with (len a) by lia. by rewrite IH.
Qed.

(** ** Numbers *)

Definition all_digits (s : str) : Prop := Forall (λ c, is_ascii_digit c = true) s.

Lemma digits_value_app acc a b :
  digits_value acc (a ++ b) = digits_value acc a ≫= λ v, digits_value v b.
Proof.
  revert acc. induction a as [|c a IH]; intros acc; simpl; [done|].
  case_match; [apply IH|done].
Qed.

Lemma digits_value_zeros k s : digits_value 0 (replicate k 48 ++ s) = digits_value 0 s.
Proof. induction k as [|k IH]; simpl; [done|]. apply IH. Qed.

Lemma digits_value_total acc s : all_digits s → ∃ v, digits_value acc s = Some v.
Proof.
  intros H. revert acc. induction H as [|c s Hc Hs IH]; intros acc; simpl; [by eexists|].
  rewrite Hc. apply IH.
Qed.

Lemma digits_value_all acc s v : digits_value acc s = Some v → all_digits s.
Proof.
  revert acc. induction s as [|c s IH]; intros acc; simpl; [constructor|].
  case_match; [|done]. intros Hv. constructor; [done|by eapply IH].
Qed.

Lemma is_ascii_digit_mod n : is_ascii_digit (48 + n mod 10) = true.
Proof.
  unfold is_ascii_digit, in_range. pose proof (N.mod_lt n 10 ltac:(done)).
  revert H. generalize (n mod 10). intros m H.
  apply andb_true_iff. rewrite !N.leb_le. lia.
Qed.

Lemma fmt_N_fuel_spec fuel n acc :
  n < 2 ^ N.of_nat fuel → (0 < fuel)%nat →
  ∃ d, fmt_N_fuel fuel n acc = d ++ acc ∧ d ≠ [] ∧ all_digits d ∧ digits_value 0 d = Some n.
Proof.
  revert n acc. induction fuel as [|fuel IH]; intros n acc Hn Hf; [lia|].
  simpl. pose proof (N.mod_lt n 10 ltac:(done)).
  destruct (N.ltb_spec n 10) as [Hlt|Hge].
  - exists [48 + n mod 10]. rewrite N.mod_small in * by lia.
    repeat split; [done| |].
    + constructor; [|done]. rewrite <-(N.mod_small n 10) by lia. apply is_ascii_digit_mod.
    + simpl. pose proof (is_ascii_digit_mod n) as Hd. rewrite N.mod_small in Hd by lia.
      rewrite Hd. f_equal. lia.
  - rewrite Nat2N.inj_succ, N.pow_succ_r' in Hn.
    assert (n / 10 < 2 ^ N.of_nat fuel) as Hn'.
    { apply N.Div0.div_lt_upper_bound. lia. }
    destruct fuel as [|fuel].
    { change (2 ^ N.of_nat 0) with 1 in Hn. lia. }
    destruct (IH (n / 10) ((48 + n mod 10) :: acc) Hn' ltac:(lia)) as (d & Heq & Hne & Hall & Hv).
    exists (d ++ [48 + n mod 10]). rewrite Heq. split; [by rewrite <-app_assoc|].
    split; [by destruct d|]. split.
    + apply Forall_app. split; [done|]. constructor; [|done]. apply is_ascii_digit_mod.
    + rewrite digits_value_app, Hv. simpl. rewrite is_ascii_digit_mod. f_equal.
      pose proof (N.div_mod' n 10) as Hdm. revert Hdm.
      generalize (n / 10) (n mod 10). intros q m ->. lia.
Qed.

Lemma fmt_N_spec n :
  fmt_N n ≠ [] ∧ all_digits (fmt_N n) ∧ digits_value 0 (fmt_N n) = Some n.
Proof.
  unfold fmt_N.
  destruct (fmt_N_fuel_spec (S (N.to_nat (N.log2 n))) n []) as (d & -> & Hne & Hall & Hv).
  - destruct (decide (n = 0)) as [->|Hn]; [reflexivity|].
    rewrite Nat2N.inj_succ, N2Nat.id. apply N.log2_spec. lia.
  - lia.
  - by rewrite app_nil_r.
Qed.

Lemma fmt_N_pad_spec w n :
  fmt_N_pad w n ≠ [] ∧ all_digits (fmt_N_pad w n) ∧ digits_value 0 (fmt_N_pad w n) = Some n
  ∧ (w ≤ length (fmt_N_pad w n))%nat.
Proof.
  destruct (fmt_N_spec n) as (Hne & Hall & Hv). unfold fmt_N_pad.
  repeat split.
  - destruct (replicate _ _), (fmt_N n); done.
  - apply Forall_app. split; [|done]. by apply Forall_replicate.
  - by rewrite digits_value_zeros.
  - rewrite length_app, length_replicate. lia.
Qed.

Lemma all_digits_no c s : all_digits s → is_ascii_digit c = false → c ∉ s.
Proof.
  intros Hs Hc Hin. unfold all_digits in Hs. rewrite Forall_forall in Hs.
  specialize (Hs c Hin). congruence.
Qed.

Lemma parse_unsigned_digits max s v :
  s ≠ [] → digits_value 0 s = Some v → v ≤ max → parse_unsigned max s = Some v.
Proof.
  intros Hne Hv Hle. unfold parse_unsigned.
  assert (match s with 43 :: s' => s' | _ => s end = s) as ->.
  { destruct s as [|c s]; [done|].
    destruct (decide (c = 43)) as [->|Hc]; [done|].
    repeat (case_match; try done). }
  destruct s as [|c s]; [done|]. rewrite Hv. by apply N.leb_le in Hle as ->.
Qed.

Lemma parse_fmt_N_pad max w n : n ≤ max → parse_unsigned max (fmt_N_pad w n) = Some n.
Proof.
  intros Hn. destruct (fmt_N_pad_spec w n) as (Hne & _ & Hv & _).
  by apply parse_unsigned_digits.
Qed.

Lemma parse_fmt_N max n : n ≤ max → parse_unsigned max (fmt_N n) = Some n.
Proof.
  intros Hn. destruct (fmt_N_spec n) as (Hne & _ & Hv). by apply parse_unsigned_digits.
Qed.

Lemma fmt_N_inj n m : fmt_N n = fmt_N m → n = m.
Proof.
  intros H. destruct (fmt_N_spec n) as (_ & _ & Hn), (fmt_N_spec m) as (_ & _ & Hm).
  congruence.
Qed.

(** ** Order *)

Lemma str_compare_refl a : str_compare a a = Eq.
Proof. induction a as [|x a IH]; simpl; [done|]. by rewrite N.compare_refl. Qed.

Lemma str_compare_eq a b : str_compare a b = Eq ↔ a = b.
Proof.
  split; [|intros ->; apply str_compare_refl].
  revert b. induction a as [|x a IH]; intros [|y b]; simpl; try done.
  destruct (N.compare_spec x y) as [->| |]; try done. intros H. f_equal. by apply IH.
Qed.

Lemma str_compare_antisym a b : str_compare b a = CompOpp (str_compare a b).
Proof.
  revert b. induction a as [|x a IH]; intros [|y b]; simpl; try done.
  rewrite (N.compare_antisym x y). by destruct (x ?= y); simpl.
Qed.

Lemma str_compare_lt_trans a b c :
  str_compare a b = Lt → str_compare b c = Lt → str_compare a c = Lt.
Proof.
  revert b c. induction a as [|x a IH]; intros [|y b] [|z c]; simpl; try done.
  destruct (N.compare_spec x y), (N.compare_spec y z), (N.compare_spec x z);
    subst; try done; try lia. by apply IH.
Qed.

Lemma str_leb_spec a b : str_leb a b = true ↔ a = b ∨ str_compare a b = Lt.
Proof.
  unfold str_leb. rewrite <-str_compare_eq. destruct (str_compare a b); naive_solver.
Qed.

Lemma str_leb_total a b : str_leb a b = true ∨ str_leb b a = true.
Proof.
  unfold str_leb. rewrite (str_compare_antisym a b). destruct (str_compare a b); auto.
Qed.

Lemma str_leb_antisym a b : str_leb a b = true → str_leb b a = true → a = b.
Proof.
  unfold str_leb. rewrite (str_compare_antisym a b).
  destruct (str_compare a b) eqn:E; simpl; try done. by intros; apply str_compare_eq.
Qed.

Lemma str_leb_trans a b c : str_leb a b = true → str_leb b c = true → str_leb a c = true.
Proof.
  rewrite !str_leb_spec. intros [->|Hab] [->|Hbc]; auto.
  right. by eapply str_compare_lt_trans.
Qed.

(** Strictly increasing lists: what iterating a [BTreeSet] yields. *)
Definition str_lt (a b : str) : Prop := str_compare a b = Lt.

Lemma btree_insert_elem x y l : x ∈ btree_insert y l ↔ x = y ∨ x ∈ l.
Proof.
  induction l as [|z l IH]; simpl; [set_solver|].
  destruct (str_compare y z) eqn:E; [apply str_compare_eq in E; subst| |]; set_solver.
Qed.

Lemma btree_insert_sorted x l :
  StronglySorted str_lt l → StronglySorted str_lt (btree_insert x l).
Proof.
  induction 1 as [|y l Hl IH Hy]; simpl; [by repeat constructor|].
  destruct (str_compare x y) eqn:E.
  - by constructor.
  - constructor; [by constructor|]. constructor; [done|].
    eapply Forall_impl; [exact Hy|]. intros z Hz. by eapply str_compare_lt_trans.
  - constructor; [done|]. rewrite Forall_forall in *. intros z Hz.
    apply btree_insert_elem in Hz as [->|Hz]; [|by apply Hy].
    unfold str_lt. rewrite str_compare_antisym, E. done.
Qed.

Lemma str_sorted_nodup l : StronglySorted str_lt l → NoDup l.
Proof.
  induction 1 as [|y l Hl IH Hy]; constructor; [|done].
  intros Hin. rewrite Forall_forall in Hy. specialize (Hy y Hin).
  unfold str_lt in Hy. by rewrite str_compare_refl in Hy.
Qed.

(** A strictly increasing listing is determined by its elements. *)
Lemma str_sorted_unique l1 l2 :
  StronglySorted str_lt l1 → StronglySorted str_lt l2 → (∀ x, x ∈ l1 ↔ x ∈ l2) → l1 = l2.
Proof.
  intros H1. revert l2. induction H1 as [|a l1 Hl1 IH Ha]; intros l2 H2 Heq.
  - destruct l2 as [|b l2]; [done|].
    assert (b ∈ []) as []%not_elem_of_nil by (apply Heq; left).
  - destruct H2 as [|b l2 Hl2 Hb].
    { assert (a ∈ []) as []%not_elem_of_nil by (apply Heq; left). }
    rewrite Forall_forall in Ha, Hb.
    assert (a = b) as ->.
    { destruct (decide (a = b)) as [|Hne]; [done|].
      assert (a ∈ b :: l2) as [|Ha2]%elem_of_cons by (apply Heq; left); [done|].
      assert (b ∈ a :: l1) as [|Hb1]%elem_of_cons by (apply Heq; left); [done|].
      pose proof (str_compare_lt_trans _ _ _ (Ha b Hb1) (Hb a Ha2)) as Hc.
      by rewrite str_compare_refl in Hc. }
    f_equal. apply IH; [done|]. intros x. split; intros Hx.
    + assert (x ∈ b :: l2) as [->|]%elem_of_cons by (apply Heq; by right); [|done].
      specialize (Ha b Hx). unfold str_lt in Ha. by rewrite str_compare_refl in Ha.
    + assert (x ∈ b :: l1) as [->|]%elem_of_cons by (apply Heq; by right); [|done].
      specialize (Hb b Hx). unfold str_lt in Hb. by rewrite str_compare_refl in Hb.
Qed.

(** ** Trimming *)

Lemma span_spec p s a b :
  span p s = (a, b) → s = a ++ b ∧ Forall (λ c, p c = true) a ∧ (∀ c r, b = c :: r → p c = false).
Proof.
  revert a b. induction s as [|x s IH]; intros a b; simpl; [intros [= <- <-]; by split_and!|].
  destruct (p x) eqn:E.
  - destruct (span p s) as [a' b'] eqn:Es. intros [= <- <-].
    destruct (IH a' b' eq_refl) as (-> & Ha & Hb). split_and!; [done|by constructor|done].
  - intros [= <- <-]. split_and!; [done|constructor|by intros c r [= <- <-]].
Qed.

Lemma span_app p a b :
  Forall (λ c, p c = true) a → (∀ c r, b = c :: r → p c = false) → span p (a ++ b) = (a, b).
Proof.
  intros Ha Hb. induction Ha as [|x a Hx _ IH]; simpl.
  - destruct b as [|c r]; [done|]. simpl. by rewrite (Hb c r eq_refl).
  - by rewrite Hx, IH.
Qed.

Lemma drop_while_split p s : ∃ a, s = a ++ drop_while p s ∧ Forall (λ c, p c = true) a.
Proof.
  induction s as [|c s IH]; simpl; [by exists []|].
  destruct (p c) eqn:Hc; [|by exists []].
  destruct IH as (a & Hs & Ha). exists (c :: a). split; [by rewrite Hs at 1|by constructor].
Qed.

Lemma drop_while_head p s c r : drop_while p s = c :: r → p c = false.
Proof. induction s as [|x s IH]; simpl; [done|]. case_match; naive_solver. Qed.

Lemma drop_while_id p s : (∀ c r, s = c :: r → p c = false) → drop_while p s = s.
Proof. destruct s as [|c s]; simpl; [done|]. intros H. by rewrite (H c s eq_refl). Qed.

Lemma drop_while_empty p s : drop_while p s = [] ↔ Forall (λ c, p c = true) s.
Proof.
  induction s as [|c s IH]; simpl; [by split|].
  rewrite Forall_cons. destruct (p c); naive_solver.
Qed.

Lemma reverse_nil_iff (s : str) : reverse s = [] ↔ s = [].
Proof.
  split; [|by intros ->]. intros H. rewrite <-(reverse_involutive s), H. done.
Qed.

Lemma trim_empty s : trim s = [] ↔ Forall (λ c, is_whitespace c = true) s.
Proof.
  unfold trim, trim_end. rewrite reverse_nil_iff, drop_while_empty, Forall_reverse.
  unfold trim_start. destruct (drop_while_split is_whitespace s) as (a & Hs & Ha).
  split; intros H.
  - rewrite Hs. by apply Forall_app.
  - rewrite Hs in H. by apply Forall_app in H as [].
Qed.

Lemma trim_end_split s : ∃ b, s = trim_end s ++ b ∧ Forall (λ c, is_whitespace c = true) b.
Proof.
  destruct (drop_while_split is_whitespace (reverse s)) as (b & Hs & Hb).
  exists (reverse b). unfold trim_end. split; [|by apply Forall_reverse].
  rewrite <-reverse_app, <-Hs. by rewrite reverse_involutive.
Qed.

Lemma trim_end_last s a c : trim_end s = a ++ [c] → is_whitespace c = false.
Proof.
  unfold trim_end. intros H. apply (f_equal reverse) in H.
  rewrite reverse_involutive, reverse_snoc in H. by eapply drop_while_head.
Qed.

(** [trim] removes whitespace at both ends and nothing else. *)
Lemma trim_split s :
  ∃ a b, s = a ++ trim s ++ b ∧ Forall (λ c, is_whitespace c = true) a ∧
         Forall (λ c, is_whitespace c = true) b.
Proof.
  destruct (drop_while_split is_whitespace s) as (a & Hs & Ha).
  destruct (trim_end_split (trim_start s)) as (b & Hb & Hbw).
  exists a, b. split; [|done]. unfold trim. rewrite <-Hb. done.
Qed.

Lemma trim_end_id s : (∀ a c, s = a ++ [c] → is_whitespace c = false) → trim_end s = s.
Proof.
  intros H. unfold trim_end. rewrite drop_while_id; [apply reverse_involutive|].
  intros c r Hr. apply (H (reverse r)). rewrite <-(reverse_involutive s), Hr.
  by rewrite reverse_cons.
Qed.

Lemma trim_idem s : trim (trim s) = trim s.
Proof.
  unfold trim at 1. rewrite (trim_end_id (trim_start (trim s))).
  - unfold trim_start. apply drop_while_id. intros c r Hc.
    destruct (trim_end_split (trim_start s)) as (b & Hb & _). fold (trim s) in Hb.
    rewrite Hc in Hb. simpl in Hb. by eapply drop_while_head.
  - intros a c Hc. destruct (drop_while_split is_whitespace (trim s)) as (a' & Hs & _).
    unfold trim_start in Hc. rewrite Hc, app_assoc in Hs. by eapply trim_end_last.
Qed.
