(* ===== verification/Names.v ===== *)
(** * Identifiers

    The validated identifiers of the protocol: user handlers, channel names,
    project and flow slugs, cron names, labels, card ids, quick-session ids,
    flow-run ids and DM file names
    ([gitim-core/src/types/{handler,channel,project,cron,labels,card,quick_session}.rs],
    [gitim-core/src/flow/{types,run,validator}.rs], [gitim-core/src/dm.rs]). *)

From S2P Require Import Prelude RustStr StrFacts.
From stdpp Require Import options.
Open Scope N_scope.
Open Scope list_scope.

(** ** Handlers *)

Inductive HandlerError :=
  | HandlerEmpty
  | HandlerTooLong
  | HandlerInvalidChar (c : char)
  | HandlerHyphenBoundary
  | HandlerConsecutiveHyphens
  | HandlerReserved.

Record Handler := MkHandler { handler_str : str }.

#[export] Instance HandlerError_eq_dec : EqDecision HandlerError.
Proof. solve_decision. Defined.
#[export] Instance Handler_eq_dec : EqDecision Handler.
Proof. solve_decision. Defined.

(** [matches!(ch, 'a'..='z' | '0'..='9' | '-')]. *)
Definition is_slug_char (c : char) : bool :=
  is_ascii_lowercase c || is_ascii_digit c || (c =? ch "-").

Definition Handler_new (s : str) : res Handler HandlerError :=
  try? guard_err (is_empty s) HandlerEmpty then
  try? guard_err (39 <? len s) HandlerTooLong then
  try? guard_err (s =?? lit "system") HandlerReserved then
  try? for_each s (λ c, guard_err (negb (is_slug_char c)) (HandlerInvalidChar c)) then
  try? guard_err (starts_with s (lit "-") || ends_with s (lit "-")) HandlerHyphenBoundary then
  try? guard_err (contains s (lit "--")) HandlerConsecutiveHyphens then
  Ok (MkHandler s).

Definition Handler_system : Handler := MkHandler (lit "system").

(** [Display] of the error, from its [#[error(...)]] attributes. *)
Definition HandlerError_to_string (e : HandlerError) : str :=
  match e with
  | HandlerEmpty => lit "handler is empty"
  | HandlerTooLong => lit "handler exceeds 39 characters"
  | HandlerInvalidChar c => lit "handler contains invalid character: " ++ [c]
  | HandlerHyphenBoundary => lit "handler must not start or end with hyphen"
  | HandlerConsecutiveHyphens => lit "handler must not contain consecutive hyphens"
  | HandlerReserved => lit "handler 'system' is reserved"
  end.

(** ** Channel names *)

Inductive ChannelNameError :=
  | ChannelNameEmpty
  | ChannelNameTooLong
  | ChannelNameInvalidChar (c : char)
  | ChannelNameHyphenBoundary
  | ChannelNameConsecutiveHyphens.

Record ChannelName := MkChannelName { channel_name_str : str }.

Definition ChannelName_new (s : str) : res ChannelName ChannelNameError :=
  try? guard_err (is_empty s) ChannelNameEmpty then
  try? guard_err (32 <? len s) ChannelNameTooLong then
  try? for_each s (λ c, guard_err (negb (is_slug_char c)) (ChannelNameInvalidChar c)) then
  try? guard_err (starts_with s (lit "-") || ends_with s (lit "-")) ChannelNameHyphenBoundary then
  try? guard_err (contains s (lit "--")) ChannelNameConsecutiveHyphens then
  Ok (MkChannelName s).

(** ** Project slugs *)

Inductive ProjectSlugError :=
  | ProjectSlugEmpty
  | ProjectSlugTooLong
  | ProjectSlugInvalidChar (c : char)
  | ProjectSlugHyphenBoundary
  | ProjectSlugConsecutiveHyphens
  | ProjectSlugReserved (s : str).

Record ProjectSlug := MkProjectSlug { project_slug_str : str }.

Definition RESERVED_PROJECT_SLUGS : list str :=
  [lit "archive"; lit "channels"; lit "projects"; lit "users"; lit "dms"; lit "cards";
   lit "flows"; lit "system"].

Definition ProjectSlug_new (s : str) : res ProjectSlug ProjectSlugError :=
  try? guard_err (is_empty s) ProjectSlugEmpty then
  try? guard_err (32 <? len s) ProjectSlugTooLong then
  try? for_each s (λ c, guard_err (negb (is_slug_char c)) (ProjectSlugInvalidChar c)) then
  try? guard_err (starts_with s (lit "-") || ends_with s (lit "-")) ProjectSlugHyphenBoundary then
  try? guard_err (contains s (lit "--")) ProjectSlugConsecutiveHyphens then
  try? guard_err (bool_decide (s ∈ RESERVED_PROJECT_SLUGS)) (ProjectSlugReserved s) then
  Ok (MkProjectSlug s).

(** ** Flow slugs and node ids *)

Inductive FlowSlugError :=
  | FlowSlugEmpty
  | FlowSlugTooLong
  | FlowSlugInvalidChar (c : char)
  | FlowSlugHyphenBoundary
  | FlowSlugConsecutiveHyphens.

Record FlowSlug := MkFlowSlug { flow_slug_str : str }.

Definition FlowSlug_new (s : str) : res FlowSlug FlowSlugError :=
  try? guard_err (is_empty s) FlowSlugEmpty then
  try? guard_err (39 <? len s) FlowSlugTooLong then
  try? for_each s (λ c, guard_err (negb (is_slug_char c)) (FlowSlugInvalidChar c)) then
  try? guard_err (starts_with s (lit "-") || ends_with s (lit "-")) FlowSlugHyphenBoundary then
  try? guard_err (contains s (lit "--")) FlowSlugConsecutiveHyphens then
  Ok (MkFlowSlug s).

(** The reasons are the texts of [validate_node_id]; they carry the length and
    the character the source formats into them. *)
Inductive NodeIdError :=
  | NodeIdEmpty
  | NodeIdTooLong (n : N)
  | NodeIdInvalidChar (c : char)
  | NodeIdHyphenBoundary
  | NodeIdConsecutiveHyphens.

(** [matches!(ch, 'a'..='z' | '0'..='9' | '-' | '_')]. *)
Definition is_label_char (c : char) : bool :=
  is_ascii_lowercase c || is_ascii_digit c || (c =? ch "-") || (c =? ch "_").

Definition validate_node_id (id : str) : res unit NodeIdError :=
  try? guard_err (is_empty id) NodeIdEmpty then
  try? guard_err (39 <? len id) (NodeIdTooLong (len id)) then
  try? for_each id (λ c, guard_err (negb (is_label_char c)) (NodeIdInvalidChar c)) then
  try? guard_err (starts_with id (lit "-") || ends_with id (lit "-")) NodeIdHyphenBoundary then
  guard_err (contains id (lit "--")) NodeIdConsecutiveHyphens.

(** ** Cron names *)

Inductive CronNameError :=
  | CronNameEmpty
  | CronNameTooLong (n : N)
  | CronNameDotPrefix (s : str)
  | CronNameReserved (s : str)
  | CronNameBadFirstChar (s : str)
  | CronNameBadChar (name : str) (c : char).

Definition RESERVED_CRON_NAMES : list str := [lit "archive"; lit "crons"].

Definition validate_cron_name (name : str) : res unit CronNameError :=
  try? guard_err (63 <? len name) (CronNameTooLong (len name)) then
  try? guard_err (starts_with name (lit ".")) (CronNameDotPrefix name) then
  try? guard_err (bool_decide (name ∈ RESERVED_CRON_NAMES)) (CronNameReserved name) then
  match name with
  | [] => Err CronNameEmpty
  | first :: chars =>
      try? guard_err (negb (is_ascii_lowercase first || is_ascii_digit first))
             (CronNameBadFirstChar name) then
      for_each (first :: chars) (λ c, guard_err (negb (is_slug_char c)) (CronNameBadChar name c))
  end.

(** ** Labels *)

Definition MAX_LABEL_LEN : N := 32.
Definition CARD_MAX_LABELS : N := 10.
Definition BOARD_MAX_LABELS : N := 20.
Definition USER_MAX_LABELS : N := 20.
Definition FLOW_NODE_MAX_LABELS : N := 10.

Inductive LabelError :=
  | LabelLengthOutOfRange (n max : N)
  | LabelInvalidChar (c : char)
  | LabelTooMany (n max : N)
  | LabelDuplicate (s : str).

#[export] Instance LabelError_eq_dec : EqDecision LabelError.
Proof. solve_decision. Defined.

Definition validate_label (label : str) : res unit LabelError :=
  try? guard_err (is_empty label || (MAX_LABEL_LEN <? len label))
         (LabelLengthOutOfRange (len label) MAX_LABEL_LEN) then
  for_each label (λ c, guard_err (negb (is_label_char c)) (LabelInvalidChar c)).

Definition validate_labels (labels : list str) (max_count : N) : res unit LabelError :=
  try? guard_err (max_count <? N.of_nat (length labels))
         (LabelTooMany (N.of_nat (length labels)) max_count) then
  try? for_fold labels (∅ : gset str) (λ seen l,
         try? validate_label l then
         if bool_decide (l ∈ seen) then Err (LabelDuplicate l) else Ok ({[l]} ∪ seen)) then
  Ok tt.

(** ** Cards: ids and status *)

Definition MAX_CARD_ID_LEN : N := 20.

(** Where the source stores [e.to_string()] of another error, the error itself. *)
Inductive CardError :=
  | InvalidStatus (s : str)
  | CardIdLengthOutOfRange (n max : N)
  | InvalidCardIdChar (c : char)
  | EmptyTitle
  | InvalidChannel (e : ChannelNameError)
  | InvalidHandler (e : HandlerError)
  | InvalidTimestamp (s : str)
  | CardLabel (e : LabelError).

Definition is_card_id_char (c : char) : bool :=
  is_ascii_digit c || in_range 97 102 c || (c =? ch "-").

Definition validate_card_id (card_id : str) : res unit CardError :=
  try? guard_err (is_empty card_id || (MAX_CARD_ID_LEN <? len card_id))
         (CardIdLengthOutOfRange (len card_id) MAX_CARD_ID_LEN) then
  for_each card_id (λ c, guard_err (negb (is_card_id_char c)) (InvalidCardIdChar c)).

Inductive CardStatus := Todo | Doing | CardDone.

Definition CardStatus_as_str (s : CardStatus) : str :=
  match s with
  | Todo => lit "todo"
  | Doing => lit "doing"
  | CardDone => lit "done"
  end.

Definition CardStatus_parse (s : str) : res CardStatus CardError :=
  if s =?? lit "todo" then Ok Todo
  else if s =?? lit "doing" then Ok Doing
  else if s =?? lit "done" then Ok CardDone
  else Err (InvalidStatus s).

(** ** Quick-session ids *)

Definition QUICK_SESSION_ID_PREFIX : str := lit "qs-".
Definition QUICK_SESSION_ATTEMPT_ID_PREFIX : str := lit "qa-".
Definition OPAQUE_ID_CHARS : N := 26.

(** The Crockford base-32 alphabet. *)
Definition is_opaque_byte (b : N) : bool :=
  is_ascii_digit b || in_range 65 72 b || (b =? ch "J") || (b =? ch "K") || (b =? ch "M") ||
  (b =? ch "N") || in_range 80 84 b || in_range 86 90 b.

Definition validate_opaque_id (id prefix : str) : bool :=
  match strip_prefix prefix id with
  | None => false
  | Some value => (len value =? OPAQUE_ID_CHARS) && forallb is_opaque_byte (as_bytes value)
  end.

(** ** Flow run ids *)

Inductive RunIdError := RunIdEmpty | RunIdFormat.

Record RunId := MkRunId { run_id_str : str }.

Definition run_id_byte_ok (i : nat) (b : N) : bool :=
  if (i <=? 7)%nat then is_ascii_digit b
  else if (i =? 8)%nat then b =? ch "T"
  else if (i <=? 14)%nat then is_ascii_digit b
  else if (i =? 15)%nat then b =? ch "-"
  else if (i <=? 21)%nat then is_ascii_hexdigit b && (is_ascii_digit b || is_ascii_lowercase b)
  else false.

(** [bytes.iter().enumerate().all(f)]. *)
Fixpoint all_from (f : nat → N → bool) (i : nat) (bs : list N) : bool :=
  match bs with
  | [] => true
  | b :: bs' => f i b && all_from f (S i) bs'
  end.

Definition is_valid_run_id (s : str) : bool :=
  if negb (N.of_nat (length (as_bytes s)) =? 22) then false
  else all_from run_id_byte_ok 0 (as_bytes s).

Definition RunId_new (s : str) : res RunId RunIdError :=
  if is_empty s then Err RunIdEmpty
  else if negb (is_valid_run_id s) then Err RunIdFormat
  else Ok (MkRunId s).

(** [RunId::generate] for the clock text [timestamp] ([%Y%m%dT%H%M%S]) and three
    random bytes. *)
Definition hex_digit (n : N) : char := if n <? 10 then 48 + n else 87 + n.
Definition hex_encode (bs : list N) : str := flat_map (λ b, [hex_digit (b / 16); hex_digit (b mod 16)]) bs.
Definition RunId_generate (timestamp : str) (hash_bytes : list N) : RunId :=
  MkRunId (timestamp ++ lit "-" ++ hex_encode hash_bytes).

(** ** DM file names *)

Definition dm_filename (a b : Handler) : str :=
  let '(first, second) :=
    if str_leb (handler_str a) (handler_str b) then (handler_str a, handler_str b)
    else (handler_str b, handler_str a) in
  first ++ lit "--" ++ second.

Definition parse_dm_filename (stem : str) : option (str * str) :=
  match split_once (lit "--") stem with
  | None => None
  | Some (first, second) =>
      if is_empty first || is_empty second then None else Some (first, second)
  end.

(** ** The grammar of slugs

    [[a-z0-9]+(-[a-z0-9]+)*], stated without reference to the checks. *)
Definition is_word_char (c : char) : bool := is_ascii_lowercase c || is_ascii_digit c.

Definition word (w : str) : Prop := w ≠ [] ∧ Forall (λ c, is_word_char c = true) w.

Inductive slug : str → Prop :=
  | slug_word w : word w → slug w
  | slug_cons w s : word w → slug s → slug (w ++ ch "-" :: s).

(** The conjunction of the checks every slug constructor makes. *)
Definition slug_checks (s : str) : Prop :=
  s ≠ [] ∧ Forall (λ c, is_slug_char c = true) s ∧
  starts_with s (lit "-") = false ∧ ends_with s (lit "-") = false ∧
  contains s (lit "--") = false.

(** ** Facts *)

Lemma for_each_chars {E} (ok : char → bool) (err : char → E) (s : str) u :
  for_each s (λ c, guard_err (negb (ok c)) (err c)) = Ok u ↔ Forall (λ c, ok c = true) s.
Proof.
  destruct u. rewrite for_each_Ok. apply Forall_iff. intros c.
  rewrite guard_err_Ok. by destruct (ok c).
Qed.

Lemma is_slug_char_split c : is_slug_char c = true ↔ is_word_char c = true ∨ c = ch "-".
Proof.
  unfold is_slug_char, is_word_char. rewrite !orb_true_iff, N.eqb_eq. tauto.
Qed.

Lemma word_char_not_hyphen c : is_word_char c = true → c ≠ ch "-".
Proof. intros H ->. by vm_compute in H. Qed.

Lemma slug_char_ascii c : is_slug_char c = true → c < 128.
Proof.
  unfold is_slug_char, is_ascii_lowercase, is_ascii_digit, in_range.
  rewrite !orb_true_iff, !andb_true_iff, !N.leb_le, N.eqb_eq.
  intros [[]|Hc]; [lia|lia|]. rewrite Hc. reflexivity.
Qed.

Lemma word_no_hyphen w : word w → ch "-" ∉ w.
Proof.
  intros [_ Hw] Hin. rewrite Forall_forall in Hw.
  by apply (word_char_not_hyphen _ (Hw _ Hin)).
Qed.

Lemma slug_chars s : slug s → Forall (λ c, is_slug_char c = true) s.
Proof.
  assert (∀ w, word w → Forall (λ c, is_slug_char c = true) w) as Hword.
  { intros w [_ Hw]. eapply Forall_impl; [exact Hw|]. intros c Hc.
    apply is_slug_char_split. by left. }
  induction 1 as [w Hw|w s Hw Hs IH]; [by apply Hword|].
  apply Forall_app. split; [by apply Hword|]. by constructor.
Qed.

Lemma slug_nonempty s : slug s → s ≠ [].
Proof. induction 1 as [w [Hw _]|w s Hw Hs IH]; [done|]. by destruct w. Qed.

Lemma slug_first s c r : slug s → s = c :: r → c ≠ ch "-".
Proof.
  destruct 1 as [w Hw|w s' Hw Hs]; intros Heq.
  - destruct Hw as [_ Hw]. subst. apply Forall_cons in Hw as [Hc _].
    by apply word_char_not_hyphen.
  - destruct Hw as [Hne Hw]. destruct w as [|x w]; [done|]. simplify_eq/=.
    apply Forall_cons in Hw as [Hc _]. by apply word_char_not_hyphen.
Qed.

Lemma word_last w a c : word w → w = a ++ [c] → c ≠ ch "-".
Proof.
  intros [_ Hw] ->. apply Forall_app in Hw as [_ Hw]. apply Forall_cons in Hw as [Hc _].
  by apply word_char_not_hyphen.
Qed.

Lemma slug_last s : slug s → ∀ a c, s = a ++ [c] → c ≠ ch "-".
Proof.
  induction 1 as [w Hw|w s Hw Hs IH]; intros a c Heq; [by eapply word_last|].
  destruct (exists_last (slug_nonempty _ Hs)) as (s' & d & ->).
  rewrite app_comm_cons, app_assoc in Heq. apply app_inj_tail in Heq as [_ ->].
  by apply (IH s').
Qed.

(** No two consecutive hyphens, even across the end of a word. *)
Lemma word_app_no_double w r a b :
  word w → w ++ r = a ++ lit "--" ++ b → ∃ a', a = w ++ a' ∧ r = a' ++ lit "--" ++ b.
Proof.
  intros Hw. revert a. destruct Hw as [_ Hw].
  induction Hw as [|x w Hx Hw IH]; intros a Heq; [by exists a|].
  destruct a as [|y a].
  - exfalso. injection Heq as -> _. by vm_compute in Hx.
  - injection Heq as -> Heq. destruct (IH a Heq) as (a' & -> & ->). by exists a'.
Qed.

Lemma slug_no_double s : slug s → ¬ ∃ a b, s = a ++ lit "--" ++ b.
Proof.
  induction 1 as [w Hw|w s Hw Hs IH]; intros (a & b & Heq).
  - destruct (word_app_no_double w [] a b) as (a' & _ & Hnil); [done|by rewrite app_nil_r|].
    by destruct a'.
  - destruct (word_app_no_double w (ch "-" :: s) a b) as (a' & _ & Hr); [done..|].
    destruct a' as [|x a'].
    + injection Hr as Hr. by apply (slug_first s (ch "-") b Hs Hr).
    + injection Hr as _ Hr. apply IH. by exists a', b.
Qed.

Lemma slug_slug_checks s : slug s → slug_checks s.
Proof.
  intros Hs. split; [by apply slug_nonempty|]. split; [by apply slug_chars|]. split_and!.
  - apply not_true_iff_false. rewrite starts_with_true. intros (r & Hr).
    by apply (slug_first s (ch "-") r Hs Hr).
  - apply not_true_iff_false. rewrite ends_with_true. intros (r & Hr).
    by apply (slug_last s Hs r (ch "-") Hr).
  - apply contains_false. by apply slug_no_double.
Qed.

Lemma slug_checks_slug s : slug_checks s → slug s.
Proof.
  remember (length s) as n eqn:Hn. revert s Hn. induction (lt_wf n) as [n _ IH].
  intros s -> (Hne & Hchars & Hst & Hen & Hdd).
  destruct (split_once [ch "-"] s) as [[w r]|] eqn:E.
  - pose proof (split_once_Some _ _ _ _ E) as Hs. simpl in Hs.
    assert (word w) as Hw.
    { split.
      - intros ->. simpl in Hs. subst. by vm_compute in Hst.
      - apply Forall_forall. intros c Hc. rewrite Forall_forall in Hchars.
        destruct (proj1 (is_slug_char_split c)) as [|Hcd]; [apply Hchars; set_solver|done|].
        apply list_elem_of_split in Hc as (w1 & w2 & Hw12). exfalso.
        pose proof (split_once_first _ _ _ _ E w1 (w2 ++ ch "-" :: r)) as Hle.
        rewrite Hs, Hw12, Hcd in Hle. simpl in Hle. rewrite <-app_assoc in Hle.
        specialize (Hle eq_refl). rewrite length_app in Hle. simpl in Hle. lia. }
    rewrite Hs in *. apply slug_cons; [done|].
    apply (IH (length r)); [rewrite length_app; simpl; lia|done|].
    apply Forall_app in Hchars as [_ Hchars]. apply Forall_cons in Hchars as [_ Hchars].
    rewrite contains_false in Hdd. apply not_true_iff_false in Hen. rewrite ends_with_true in Hen.
    split_and!; [|done|..].
    + intros ->. apply Hen. by exists w.
    + apply not_true_iff_false. rewrite starts_with_true. intros (r' & ->).
      apply Hdd. by exists w, r'.
    + apply not_true_iff_false. rewrite ends_with_true. intros (r' & ->).
      apply Hen. exists (w ++ ch "-" :: r'). by rewrite <-app_assoc.
    + apply contains_false. intros (a & b & ->). apply Hdd.
      exists (w ++ ch "-" :: a), b. by rewrite <-app_assoc.
  - apply split_once_char_None in E. apply slug_word. split; [done|].
    rewrite Forall_forall in *. intros c Hc.
    destruct (proj1 (is_slug_char_split c) (Hchars c Hc)) as [| ->]; done.
Qed.

Lemma slug_checks_iff s : slug_checks s ↔ slug s.
Proof. split; [apply slug_checks_slug|apply slug_slug_checks]. Qed.

Lemma slug_ascii s : slug s → Forall (λ c, c < 128) s.
Proof.
  intros Hs. eapply Forall_impl; [by apply slug_chars|]. apply slug_char_ascii.
Qed.

Lemma slug_len s : slug s → len s = N.of_nat (length s).
Proof. intros Hs. by apply len_ascii, slug_ascii. Qed.

#[export] Hint Rewrite @for_each_chars : rust.

Lemma slug_guards s :
  is_empty s = false ∧ Forall (λ c, is_slug_char c = true) s ∧
  starts_with s (lit "-") || ends_with s (lit "-") = false ∧ contains s (lit "--") = false ↔ slug s.
Proof.
  rewrite <-slug_checks_iff. unfold slug_checks. rewrite is_empty_false, orb_false_iff. tauto.
Qed.

Lemma slug_len_le s n : slug s → (n <? len s) = false ↔ N.of_nat (length s) ≤ n.
Proof. intros Hs. by rewrite slug_len, N.ltb_ge. Qed.

(** Turn the checks of a slug constructor into the grammar. *)
Ltac slug_new_tac :=
  rewrite !try_Ok, !guard_err_Ok, for_each_chars, ?bool_decide_eq_false;
  split;
  [ intros (? & ? & ?); destruct_and?; simplify_eq;
    assert (slug _) as Hs by (apply slug_guards; done);
    rewrite slug_len_le in * by done; done
  | intros (-> & Hs & ? & ?); rewrite slug_len_le by done;
    pose proof (proj2 (slug_guards _) Hs); naive_solver ].

Lemma Handler_new_iff s h :
  Handler_new s = Ok h ↔
  h = MkHandler s ∧ slug s ∧ N.of_nat (length s) ≤ 39 ∧ s ≠ lit "system".
Proof. unfold Handler_new. slug_new_tac. Qed.

Lemma ChannelName_new_iff s n :
  ChannelName_new s = Ok n ↔
  n = MkChannelName s ∧ slug s ∧ N.of_nat (length s) ≤ 32 ∧ True.
Proof. unfold ChannelName_new. slug_new_tac. Qed.

Lemma ProjectSlug_new_iff s p :
  ProjectSlug_new s = Ok p ↔
  p = MkProjectSlug s ∧ slug s ∧ N.of_nat (length s) ≤ 32 ∧ s ∉ RESERVED_PROJECT_SLUGS.
Proof. unfold ProjectSlug_new. slug_new_tac. Qed.

Lemma FlowSlug_new_iff s f :
  FlowSlug_new s = Ok f ↔
  f = MkFlowSlug s ∧ slug s ∧ N.of_nat (length s) ≤ 39 ∧ True.
Proof. unfold FlowSlug_new. slug_new_tac. Qed.

(** [Handler_new] returns its input unchanged. *)
Lemma Handler_new_str s h : Handler_new s = Ok h → handler_str h = s.
Proof. intros (-> & _)%Handler_new_iff. done. Qed.

(** The four slug constructors accept one grammar, [[a-z0-9]+(-[a-z0-9]+)*],
    and differ only in the length bound and the reserved words: handlers and flow
    slugs have at most 39 characters, channel names and project slugs at most 32;
    [system] is no handler and the reserved directory names are no project slug. *)
Theorem slug_constructors_accept (s : str) :
  (is_ok (Handler_new s) = true ↔ slug s ∧ N.of_nat (length s) ≤ 39 ∧ s ≠ lit "system") ∧
  (is_ok (ChannelName_new s) = true ↔ slug s ∧ N.of_nat (length s) ≤ 32) ∧
  (is_ok (ProjectSlug_new s) = true ↔
     slug s ∧ N.of_nat (length s) ≤ 32 ∧ s ∉ RESERVED_PROJECT_SLUGS) ∧
  (is_ok (FlowSlug_new s) = true ↔ slug s ∧ N.of_nat (length s) ≤ 39).
Proof.
  rewrite !is_ok_Ok. setoid_rewrite Handler_new_iff. setoid_rewrite ChannelName_new_iff.
  setoid_rewrite ProjectSlug_new_iff. setoid_rewrite FlowSlug_new_iff. naive_solver.
Qed.

(** *** DM file names *)

Lemma split_once_dashes a b :
  slug a → split_once (lit "--") (a ++ lit "--" ++ b) = Some (a, b).
Proof.
  intros Ha.
  destruct (split_once (lit "--") (a ++ lit "--" ++ b)) as [[x y]|] eqn:E.
  - pose proof (split_once_Some _ _ _ _ E) as Hs.
    pose proof (split_once_first _ _ _ _ E a b eq_refl) as Hle.
    assert (x = a) as ->.
    { apply app_eq_inv in Hs as [(k & -> & Hk)|(k & -> & Hk)].
      - destruct k as [|c [|d k]]; [by rewrite app_nil_r| |]; exfalso.
        + injection Hk as <- _. by apply (slug_last _ Ha x (ch "-")).
        + injection Hk as <- <- _. apply (slug_no_double _ Ha). by exists x, k.
      - rewrite length_app in Hle. destruct k; [by rewrite app_nil_r|simpl in Hle; lia]. }
    f_equal. f_equal. by simplify_list_eq.
  - exfalso. by apply (split_once_None _ _ E a b).
Qed.

(** Handlers of the protocol: user handlers and [system]. *)
Definition protocol_handler (h : Handler) : Prop := slug (handler_str h).

Lemma Handler_new_protocol s h : Handler_new s = Ok h → protocol_handler h.
Proof. intros (-> & Hs & _)%Handler_new_iff. done. Qed.

Lemma Handler_system_protocol : protocol_handler Handler_system.
Proof. apply slug_word. split; [done|]. by repeat constructor. Qed.

Lemma parse_dm_filename_app a b :
  slug a → slug b → parse_dm_filename (a ++ lit "--" ++ b) = Some (a, b).
Proof.
  intros Ha Hb. unfold parse_dm_filename. rewrite split_once_dashes by done.
  apply slug_nonempty, is_empty_false in Ha as ->.
  by apply slug_nonempty, is_empty_false in Hb as ->.
Qed.

(** A DM file name determines its pair of handlers: whatever order the two are
    given in, the name is the same, it parses back to the two handlers in order,
    and two pairs with one name are the same pair. *)
Theorem dm_filename_roundtrip (a b : Handler) (Ha : protocol_handler a) (Hb : protocol_handler b) :
  dm_filename a b = dm_filename b a ∧
  (∃ x y, parse_dm_filename (dm_filename a b) = Some (x, y) ∧ str_leb x y = true ∧
          ((x = handler_str a ∧ y = handler_str b) ∨ (x = handler_str b ∧ y = handler_str a))) ∧
  (∀ c d, protocol_handler c → protocol_handler d → dm_filename a b = dm_filename c d →
          (a = c ∧ b = d) ∨ (a = d ∧ b = c)).
Proof.
  destruct a as [a], b as [b]. unfold protocol_handler, dm_filename in *. cbn [handler_str] in *.
  split_and!.
  - destruct (str_leb a b) eqn:Eab, (str_leb b a) eqn:Eba; try done.
    + by rewrite (str_leb_antisym a b).
    + destruct (str_leb_total a b); congruence.
  - destruct (str_leb a b) eqn:Eab; cbv beta iota; rewrite parse_dm_filename_app by done;
      eexists _, _; split; eauto.
    split; [|by right]. destruct (str_leb_total a b); congruence.
  - intros [c] [d] Hc Hd Heq. cbn [handler_str] in *.
    destruct (str_leb a b) eqn:Eab, (str_leb c d) eqn:Ecd;
      apply (f_equal parse_dm_filename) in Heq; cbv beta iota in Heq;
      rewrite !parse_dm_filename_app in Heq by done; simplify_eq; auto.
Qed.

Lemma dm_filename_roundtrip_witness :
  dm_filename (MkHandler (lit "bob")) (MkHandler (lit "alice-2")) = lit "alice-2--bob".
Proof.
  assert (protocol_handler (MkHandler (lit "bob"))) as Hb
    by (eapply (Handler_new_protocol (lit "bob")); reflexivity).
  assert (protocol_handler (MkHandler (lit "alice-2"))) as Ha
    by (eapply (Handler_new_protocol (lit "alice-2")); reflexivity).
  destruct (dm_filename_roundtrip _ _ Hb Ha) as [H _]. rewrite H. reflexivity.
Defined.

(** *** Labels *)

Lemma validate_label_iff l :
  validate_label l = Ok tt ↔ l ≠ [] ∧ len l ≤ 32 ∧ Forall (λ c, is_label_char c = true) l.
Proof.
  unfold validate_label. rewrite try_Ok, guard_err_Ok, for_each_chars.
  rewrite orb_false_iff, is_empty_false, N.ltb_ge. unfold MAX_LABEL_LEN. tauto.
Qed.

Lemma validate_labels_loop (labels : list str) (seen : gset str) :
  (∃ r, for_fold labels seen (λ seen l,
         try? validate_label l then
         if bool_decide (l ∈ seen) then Err (LabelDuplicate l) else Ok ({[l]} ∪ seen)) = Ok r) ↔
  Forall (λ l, validate_label l = Ok tt) labels ∧ NoDup labels ∧ (∀ l, l ∈ labels → l ∉ seen).
Proof.
  revert seen. induction labels as [|l labels IH]; intros seen; simpl.
  { split; [|by eexists]. intros _. split; [done|]. split; [constructor|]. set_solver. }
  rewrite Forall_cons, NoDup_cons. split.
  - intros (r & Hr). apply res_bind_Ok in Hr as (seen' & Hb & Hr).
    apply try_Ok in Hb as [Hl Hs]. case_bool_decide; simplify_eq.
    destruct (proj1 (IH ({[l]} ∪ seen))) as (HF & HN & Hd); [by eexists|].
    split; [done|]. split; [split; [|done]|].
    + intros Hin. specialize (Hd l Hin). set_solver.
    + intros x [->|Hx]%elem_of_cons; [done|]. specialize (Hd x Hx). set_solver.
  - intros ([Hl HF] & [Hnin HN] & Hd).
    destruct (proj2 (IH ({[l]} ∪ seen))) as [r Hr].
    { split; [done|]. split; [done|]. intros x Hx Hu.
      apply elem_of_union in Hu as [->%elem_of_singleton|Hu]; [done|].
      apply (Hd x); [by right|done]. }
    exists r. rewrite Hl. simpl. rewrite bool_decide_eq_false_2; [done|]. apply Hd. left.
Qed.

Lemma validate_labels_iff (labels : list str) max_count :
  validate_labels labels max_count = Ok tt ↔
  N.of_nat (length labels) ≤ max_count ∧ Forall (λ l, validate_label l = Ok tt) labels ∧ NoDup labels.
Proof.
  unfold validate_labels. rewrite try_Ok, guard_err_Ok, N.ltb_ge, res_bind_Ok.
  pose proof (validate_labels_loop labels ∅) as Hloop. split.
  - intros [Hlen (r & Hr & _)]. destruct (proj1 Hloop) as (? & ? & _); [by eexists|]. done.
  - intros (Hlen & HF & HN). split; [done|].
    destruct (proj2 Hloop) as [r Hr]; [|by exists r]. split; [done|]. split; [done|].
    intros l _. apply not_elem_of_empty.
Qed.
