(* ===== verification/QuickSession.v ===== *)
(** * Quick sessions

    The metadata of a quick session and its state machine
    ([gitim-core/src/types/quick_session.rs]).  A session is one agent working
    for one creator; the creator posts messages, the agent claims the newest
    one, names the session, replies or reports an error; the creator archives
    and restores the session. *)

From S2P Require Import Prelude RustStr StrFacts Names.
From stdpp Require Import options.
Open Scope N_scope.
Open Scope list_scope.

Definition QUICK_SESSION_TITLE_MAX_CHARS : N := 80.
Definition QUICK_SESSION_SUMMARY_MAX_CHARS : N := 4000.
Definition QUICK_SESSION_PREVIEW_MAX_CHARS : N := 160.

Inductive QuickSessionError :=
  | InvalidSessionId
  | InvalidAttemptId
  | QsEmptyTitle
  | TitleTooLong
  | EmptySummary
  | SummaryTooLong
  | UnauthorizedActor
  | InvalidState
  | StaleAttempt
  | StaleInputLine
  | InputLineMismatch
  | TitleRequired
  | InvalidLineNumber
  | EmptyError
  | InvalidMeta (message : str).

#[export] Instance QuickSessionError_eq_dec : EqDecision QuickSessionError.
Proof. solve_decision. Defined.

Inductive QuickSessionStatus := NeedsTitle | Running | Active | Error | Archived.

#[export] Instance QuickSessionStatus_eq_dec : EqDecision QuickSessionStatus.
Proof. solve_decision. Defined.

Record QuickSessionMeta := MkQuickSessionMeta {
  qs_id : str;
  qs_title : option str;
  qs_agent_id : str;
  qs_created_by : str;
  qs_status : QuickSessionStatus;
  qs_created_at : str;
  qs_updated_at : str;
  qs_archived_at : option str;
  qs_archived_from : option QuickSessionStatus;
  qs_summary : option str;
  qs_summary_updated_at : option str;
  qs_last_message_preview : str;
  qs_error : option str;
  qs_processing_input_line : option N;
  qs_processing_started_at : option str;
  qs_attempt_id : option str;
  qs_last_completed_attempt_id : option str;
  qs_last_completed_input_line : option N;
  qs_last_completed_line : option N;
  qs_last_failed_attempt_id : option str;
  qs_last_human_request_id : option str;
  qs_last_human_line : option N;
  qs_revision : N;
}.

Definition qs_eta (m : QuickSessionMeta) : QuickSessionMeta :=
  MkQuickSessionMeta
    (qs_id m) (qs_title m) (qs_agent_id m) (qs_created_by m) (qs_status m) (qs_created_at m)
    (qs_updated_at m) (qs_archived_at m) (qs_archived_from m) (qs_summary m) (qs_summary_updated_at m) (qs_last_message_preview m)
    (qs_error m) (qs_processing_input_line m) (qs_processing_started_at m) (qs_attempt_id m) (qs_last_completed_attempt_id m)
    (qs_last_completed_input_line m) (qs_last_completed_line m) (qs_last_failed_attempt_id m) (qs_last_human_request_id m) (qs_last_human_line m) (qs_revision m).

Definition set_title (v : option str) (m : QuickSessionMeta) : QuickSessionMeta :=
  ltac:(set_field qs_eta qs_title v m).
Definition set_status (v : QuickSessionStatus) (m : QuickSessionMeta) : QuickSessionMeta :=
  ltac:(set_field qs_eta qs_status v m).
Definition set_updated_at (v : str) (m : QuickSessionMeta) : QuickSessionMeta :=
  ltac:(set_field qs_eta qs_updated_at v m).
Definition set_archived_at (v : option str) (m : QuickSessionMeta) : QuickSessionMeta :=
  ltac:(set_field qs_eta qs_archived_at v m).
Definition set_archived_from (v : option QuickSessionStatus) (m : QuickSessionMeta) : QuickSessionMeta :=
  ltac:(set_field qs_eta qs_archived_from v m).
Definition set_summary (v : option str) (m : QuickSessionMeta) : QuickSessionMeta :=
  ltac:(set_field qs_eta qs_summary v m).
Definition set_summary_updated_at (v : option str) (m : QuickSessionMeta) : QuickSessionMeta :=
  ltac:(set_field qs_eta qs_summary_updated_at v m).
Definition set_last_message_preview (v : str) (m : QuickSessionMeta) : QuickSessionMeta :=
  ltac:(set_field qs_eta qs_last_message_preview v m).
Definition set_error (v : option str) (m : QuickSessionMeta) : QuickSessionMeta :=
  ltac:(set_field qs_eta qs_error v m).
Definition set_processing_input_line (v : option N) (m : QuickSessionMeta) : QuickSessionMeta :=
  ltac:(set_field qs_eta qs_processing_input_line v m).
Definition set_processing_started_at (v : option str) (m : QuickSessionMeta) : QuickSessionMeta :=
  ltac:(set_field qs_eta qs_processing_started_at v m).
Definition set_attempt_id (v : option str) (m : QuickSessionMeta) : QuickSessionMeta :=
  ltac:(set_field qs_eta qs_attempt_id v m).
Definition set_last_completed_attempt_id (v : option str) (m : QuickSessionMeta) : QuickSessionMeta :=
  ltac:(set_field qs_eta qs_last_completed_attempt_id v m).
Definition set_last_completed_input_line (v : option N) (m : QuickSessionMeta) : QuickSessionMeta :=
  ltac:(set_field qs_eta qs_last_completed_input_line v m).
Definition set_last_completed_line (v : option N) (m : QuickSessionMeta) : QuickSessionMeta :=
  ltac:(set_field qs_eta qs_last_completed_line v m).
Definition set_last_failed_attempt_id (v : option str) (m : QuickSessionMeta) : QuickSessionMeta :=
  ltac:(set_field qs_eta qs_last_failed_attempt_id v m).
Definition set_last_human_request_id (v : option str) (m : QuickSessionMeta) : QuickSessionMeta :=
  ltac:(set_field qs_eta qs_last_human_request_id v m).
Definition set_last_human_line (v : option N) (m : QuickSessionMeta) : QuickSessionMeta :=
  ltac:(set_field qs_eta qs_last_human_line v m).
Definition set_revision (v : N) (m : QuickSessionMeta) : QuickSessionMeta :=
  ltac:(set_field qs_eta qs_revision v m).

Definition default_revision : N := 1.

Definition QuickSessionMeta_new (id agent_id created_by created_at : str) : QuickSessionMeta :=
  {| qs_id := id;
     qs_title := None;
     qs_agent_id := agent_id;
     qs_created_by := created_by;
     qs_status := NeedsTitle;
     qs_created_at := created_at;
     qs_updated_at := created_at;
     qs_archived_at := None;
     qs_archived_from := None;
     qs_summary := None;
     qs_summary_updated_at := None;
     qs_last_message_preview := [];
     qs_error := None;
     qs_processing_input_line := None;
     qs_processing_started_at := None;
     qs_attempt_id := None;
     qs_last_completed_attempt_id := None;
     qs_last_completed_input_line := None;
     qs_last_completed_line := None;
     qs_last_failed_attempt_id := None;
     qs_last_human_request_id := None;
     qs_last_human_line := None;
     qs_revision := default_revision |}.

Definition ref_string (m : QuickSessionMeta) : str := lit "session:" ++ qs_id m.

Inductive QuickSessionTransition :=
  | HumanMessage (actor : str) (line_number : N) (request_id : option str) (preview now : str)
  | Claim (actor : str) (input_line : N) (attempt_id now : str)
  | SetTitle (actor attempt_id title now : str)
  | SetSummary (actor attempt_id summary now : str)
  | AgentReply (actor : str) (input_line : N) (attempt_id : str) (output_line : N) (preview now : str)
  | MarkError (actor attempt_id error now : str)
  | Archive (actor now : str)
  | Unarchive (actor now : str).

Inductive TransitionOutcome :=
  | Applied
  | Duplicate (line_number : option N).

#[export] Instance TransitionOutcome_eq_dec : EqDecision TransitionOutcome.
Proof. solve_decision. Defined.

(** ** Validation *)

Definition validate_quick_session_id (id : str) : res unit QuickSessionError :=
  if validate_opaque_id id QUICK_SESSION_ID_PREFIX then Ok tt else Err InvalidSessionId.

Definition validate_quick_session_attempt_id (id : str) : res unit QuickSessionError :=
  if validate_opaque_id id QUICK_SESSION_ATTEMPT_ID_PREFIX then Ok tt else Err InvalidAttemptId.

Definition validate_text_limit (value : str) (limit : N) (empty too_long : QuickSessionError)
    : res unit QuickSessionError :=
  try? guard_err (is_empty (trim value)) empty then
  guard_err (limit <? chars_count value) too_long.

Definition validate_quick_session_title (title : str) : res unit QuickSessionError :=
  validate_text_limit title QUICK_SESSION_TITLE_MAX_CHARS QsEmptyTitle TitleTooLong.

Definition validate_quick_session_summary (summary : str) : res unit QuickSessionError :=
  validate_text_limit summary QUICK_SESSION_SUMMARY_MAX_CHARS EmptySummary SummaryTooLong.

Definition truncate_quick_session_preview (preview : str) : str :=
  take (N.to_nat QUICK_SESSION_PREVIEW_MAX_CHARS) preview.

Definition invalid_meta (bad : bool) (message : str) : res unit QuickSessionError :=
  guard_err bad (InvalidMeta message).

(** [if let Some(x) = o { f(x)?; }]. *)
Definition if_some {A E} (o : option A) (f : A → res unit E) : res unit E :=
  match o with Some a => f a | None => Ok tt end.

Definition has_complete_claim (meta : QuickSessionMeta) : bool :=
  is_some (qs_processing_input_line meta) && is_some (qs_processing_started_at meta)
  && is_some (qs_attempt_id meta).

Definition has_any_claim (meta : QuickSessionMeta) : bool :=
  is_some (qs_processing_input_line meta) || is_some (qs_processing_started_at meta)
  || is_some (qs_attempt_id meta).

Definition requires_error (meta : QuickSessionMeta) : bool :=
  match qs_status meta, qs_archived_from meta with
  | Error, _ => true
  | Archived, Some Error => true
  | _, _ => false
  end.

(** The checks of [validate_quick_session_meta] in the order of the source,
    grouped as its paragraphs are. *)
Definition validate_identity (meta : QuickSessionMeta) : res unit QuickSessionError :=
  try? validate_quick_session_id (qs_id meta) then
  try? map_err (λ error, InvalidMeta (lit "invalid agent_id: " ++ HandlerError_to_string error))
         (Handler_new (qs_agent_id meta)) then
  try? map_err (λ error, InvalidMeta (lit "invalid created_by: " ++ HandlerError_to_string error))
         (Handler_new (qs_created_by meta)) then
  try? invalid_meta (qs_revision meta =? 0) (lit "revision must be positive") then
  try? if_some (qs_title meta) validate_quick_session_title then
  try? invalid_meta (QUICK_SESSION_PREVIEW_MAX_CHARS <? chars_count (qs_last_message_preview meta))
         (lit "last_message_preview exceeds its limit") then
  match qs_summary meta, qs_summary_updated_at meta with
  | None, None => Ok tt
  | Some summary, Some _ => validate_quick_session_summary summary
  | _, _ => Err (InvalidMeta (lit "summary and summary_updated_at must be set together"))
  end.

Definition validate_claim (meta : QuickSessionMeta) : res unit QuickSessionError :=
  if qs_status meta =?? Running then
    try? invalid_meta (negb (has_complete_claim meta) || (qs_processing_input_line meta =?? Some 0))
           (lit "running status requires a complete claim") then
    if_some (qs_attempt_id meta) validate_quick_session_attempt_id
  else invalid_meta (has_any_claim meta) (lit "only running status may retain a claim").

Definition validate_archive (meta : QuickSessionMeta) : res unit QuickSessionError :=
  if qs_status meta =?? Archived then
    try? invalid_meta (is_none (qs_archived_at meta)) (lit "archived status requires archived_at") then
    match qs_archived_from meta, is_some (qs_title meta) with
    | Some Active, true | Some NeedsTitle, false | Some Error, _ => Ok tt
    | None, _ => Err (InvalidMeta (lit "archived status requires archived_from"))
    | _, _ => Err (InvalidMeta (lit "archived_from does not match the stable title state"))
    end
  else invalid_meta (is_some (qs_archived_at meta) || is_some (qs_archived_from meta))
         (lit "active metadata cannot retain archive fields").

Definition validate_title_and_error (meta : QuickSessionMeta) : res unit QuickSessionError :=
  try? (match qs_status meta with
        | NeedsTitle => invalid_meta (is_some (qs_title meta)) (lit "needs_title status cannot have a title")
        | Active => invalid_meta (is_none (qs_title meta)) (lit "active status requires a title")
        | _ => Ok tt
        end) then
  try? invalid_meta (is_some_and (qs_error meta) (λ error, is_empty (trim error)))
         (lit "error message cannot be empty") then
  try? invalid_meta (requires_error meta && is_none (qs_error meta))
         (lit "error state requires an error message") then
  try? invalid_meta ((qs_status meta =?? Running) && is_some (qs_error meta))
         (lit "running status cannot retain error diagnostics") then
  invalid_meta (is_some (qs_error meta) && negb (requires_error meta)
                && is_none (qs_last_failed_attempt_id meta))
    (lit "actionable error diagnostics require a failed attempt id").

(** [usize::from]. *)
Definition usize_from (b : bool) : N := if b then 1 else 0.

Definition validate_completion (meta : QuickSessionMeta) : res unit QuickSessionError :=
  let completed_count :=
    usize_from (is_some (qs_last_completed_attempt_id meta))
    + usize_from (is_some (qs_last_completed_input_line meta))
    + usize_from (is_some (qs_last_completed_line meta)) in
  try? invalid_meta (negb (completed_count =? 0) && negb (completed_count =? 3))
         (lit "completion fields must be set together") then
  match qs_last_completed_attempt_id meta, qs_last_completed_input_line meta,
        qs_last_completed_line meta with
  | Some attempt_id, Some input_line, Some output_line =>
      try? validate_quick_session_attempt_id attempt_id then
      try? invalid_meta ((input_line =? 0) || (output_line <=? input_line))
             (lit "completion line numbers are invalid") then
      invalid_meta (is_none_or (qs_last_human_line meta) (λ last_human_line, last_human_line <? input_line))
        (lit "completed input must be a known human line")
  | _, _, _ => Ok tt
  end.

Definition validate_lines (meta : QuickSessionMeta) : res unit QuickSessionError :=
  try? invalid_meta (qs_last_human_line meta =?? Some 0) (lit "last_human_line must be positive") then
  try? invalid_meta (is_some (qs_last_human_request_id meta) && is_none (qs_last_human_line meta))
         (lit "human request id requires a line number") then
  try? invalid_meta
         (is_some_and (qs_processing_input_line meta) (λ input_line,
            is_none_or (qs_last_human_line meta) (λ last_human_line, last_human_line <? input_line)))
         (lit "processing input must be a known human line") then
  if_some (qs_last_failed_attempt_id meta) (λ attempt_id,
    try? validate_quick_session_attempt_id attempt_id then
    invalid_meta (is_none (qs_error meta) || (qs_status meta =?? Running))
      (lit "failed attempt id requires retained error diagnostics")).

Definition validate_quick_session_meta (meta : QuickSessionMeta) : res unit QuickSessionError :=
  try? validate_identity meta then
  try? validate_claim meta then
  try? validate_archive meta then
  try? validate_title_and_error meta then
  try? validate_completion meta then
  validate_lines meta.

(** ** Transitions *)

Definition require_creator (meta : QuickSessionMeta) (actor : str) : res unit QuickSessionError :=
  if actor =?? qs_created_by meta then Ok tt else Err UnauthorizedActor.

Definition require_agent (meta : QuickSessionMeta) (actor : str) : res unit QuickSessionError :=
  if actor =?? qs_agent_id meta then Ok tt else Err UnauthorizedActor.

Definition require_attempt (meta : QuickSessionMeta) (attempt_id : str) : res unit QuickSessionError :=
  try? validate_quick_session_attempt_id attempt_id then
  try? guard_err (negb (qs_status meta =?? Running)) InvalidState then
  if qs_attempt_id meta =?? Some attempt_id then Ok tt else Err StaleAttempt.

Definition title_derived_status (meta : QuickSessionMeta) : QuickSessionStatus :=
  if is_some (qs_title meta) then Active else NeedsTitle.

Definition clear_claim (meta : QuickSessionMeta) : QuickSessionMeta :=
  set_attempt_id None (set_processing_started_at None (set_processing_input_line None meta)).

Definition finish (meta : QuickSessionMeta) (now : str) : res QuickSessionMeta QuickSessionError :=
  let meta := set_updated_at now meta in
  let? revision := ok_or (checked_add (qs_revision meta) 1) (InvalidMeta (lit "revision overflow")) in
  Ok (set_revision revision meta).

(** [finish(meta, now)?;] at the end of an arm that falls through to
    [Ok(TransitionOutcome::Applied)]. *)
Definition finish_applied (meta : QuickSessionMeta) (now : str)
    : res (QuickSessionMeta * TransitionOutcome) QuickSessionError :=
  let? meta := finish meta now in Ok (meta, Applied).

Definition human_message (meta : QuickSessionMeta) (actor : str) (line_number : N)
    (request_id : option str) (preview now : str)
    : res (QuickSessionMeta * TransitionOutcome) QuickSessionError :=
  try? require_creator meta actor then
  if is_some_and request_id (λ r, qs_last_human_request_id meta =?? Some r)
  then Ok (meta, Duplicate (qs_last_human_line meta)) else
  try? guard_err (qs_status meta =?? Archived) InvalidState then
  try? guard_err (line_number =? 0) InvalidLineNumber then
  try? guard_err (is_some_and (qs_last_human_line meta) (λ last, line_number <=? last)) StaleInputLine then
  let meta :=
    if qs_status meta =?? Error
    then set_last_failed_attempt_id None (set_error None (set_status (title_derived_status meta) meta))
    else meta in
  finish_applied
    (set_last_message_preview (truncate_quick_session_preview preview)
      (set_last_human_line (Some line_number) (set_last_human_request_id request_id meta))) now.

Definition claim (meta : QuickSessionMeta) (actor : str) (input_line : N) (attempt_id now : str)
    : res (QuickSessionMeta * TransitionOutcome) QuickSessionError :=
  try? require_agent meta actor then
  try? validate_quick_session_attempt_id attempt_id then
  if (qs_status meta =?? Running) && (qs_processing_input_line meta =?? Some input_line)
     && (qs_attempt_id meta =?? Some attempt_id)
  then Ok (meta, Duplicate None) else
  try? guard_err (negb ((qs_status meta =?? NeedsTitle) || (qs_status meta =?? Active))) InvalidState then
  try? guard_err (negb (qs_last_human_line meta =?? Some input_line)) InputLineMismatch then
  try? guard_err ((input_line =? 0)
                  || is_some_and (qs_last_completed_input_line meta) (λ line, input_line <=? line))
         StaleInputLine then
  finish_applied
    (set_last_failed_attempt_id None (set_error None
      (set_attempt_id (Some attempt_id) (set_processing_started_at (Some now)
        (set_processing_input_line (Some input_line) (set_status Running meta)))))) now.

Definition do_set_title (meta : QuickSessionMeta) (actor attempt_id title now : str)
    : res (QuickSessionMeta * TransitionOutcome) QuickSessionError :=
  try? require_agent meta actor then
  try? require_attempt meta attempt_id then
  let title := trim title in
  try? validate_quick_session_title title then
  if qs_title meta =?? Some title then Ok (meta, Duplicate None) else
  finish_applied (set_title (Some title) meta) now.

Definition do_set_summary (meta : QuickSessionMeta) (actor attempt_id summary now : str)
    : res (QuickSessionMeta * TransitionOutcome) QuickSessionError :=
  try? require_agent meta actor then
  try? require_attempt meta attempt_id then
  let summary := trim summary in
  try? validate_quick_session_summary summary then
  if qs_summary meta =?? Some summary then Ok (meta, Duplicate None) else
  finish_applied (set_summary_updated_at (Some now) (set_summary (Some summary) meta)) now.

Definition agent_reply (meta : QuickSessionMeta) (actor : str) (input_line : N) (attempt_id : str)
    (output_line : N) (preview now : str)
    : res (QuickSessionMeta * TransitionOutcome) QuickSessionError :=
  try? require_agent meta actor then
  try? validate_quick_session_attempt_id attempt_id then
  if qs_last_completed_attempt_id meta =?? Some attempt_id
  then Ok (meta, Duplicate (qs_last_completed_line meta)) else
  try? require_attempt meta attempt_id then
  try? guard_err (negb (qs_processing_input_line meta =?? Some input_line)) InputLineMismatch then
  try? guard_err (is_none (qs_title meta)) TitleRequired then
  try? guard_err (output_line <=? input_line) InvalidLineNumber then
  finish_applied
    (clear_claim (set_last_failed_attempt_id None (set_error None
      (set_last_message_preview (truncate_quick_session_preview preview)
        (set_last_completed_line (Some output_line) (set_last_completed_input_line (Some input_line)
          (set_last_completed_attempt_id (Some attempt_id) (set_status Active meta)))))))) now.

Definition mark_error (meta : QuickSessionMeta) (actor attempt_id error now : str)
    : res (QuickSessionMeta * TransitionOutcome) QuickSessionError :=
  try? require_agent meta actor then
  try? validate_quick_session_attempt_id attempt_id then
  if qs_last_failed_attempt_id meta =?? Some attempt_id then Ok (meta, Duplicate None) else
  try? require_attempt meta attempt_id then
  let error := trim error in
  try? guard_err (is_empty error) EmptyError then
  let? claimed_input_line := ok_or (qs_processing_input_line meta) InvalidState in
  let has_queued_input :=
    is_some_and (qs_last_human_line meta) (λ line_number, claimed_input_line <? line_number) in
  finish_applied
    (clear_claim (set_last_failed_attempt_id (Some attempt_id) (set_error (Some error)
      (set_status (if has_queued_input then title_derived_status meta else Error) meta)))) now.

Definition archive (meta : QuickSessionMeta) (actor now : str)
    : res (QuickSessionMeta * TransitionOutcome) QuickSessionError :=
  try? require_creator meta actor then
  try? guard_err (qs_status meta =?? Archived) InvalidState then
  finish_applied
    (clear_claim (set_archived_at (Some now) (set_status Archived
      (set_archived_from
        (Some (if qs_status meta =?? Running then title_derived_status meta else qs_status meta))
        meta)))) now.

Definition unarchive (meta : QuickSessionMeta) (actor now : str)
    : res (QuickSessionMeta * TransitionOutcome) QuickSessionError :=
  try? require_creator meta actor then
  try? guard_err (negb (qs_status meta =?? Archived)) InvalidState then
  let meta := set_status (unwrap_or (qs_archived_from meta) (title_derived_status meta)) meta in
  let meta := if qs_status meta =?? Error then meta
              else set_last_failed_attempt_id None (set_error None meta) in
  finish_applied (clear_claim (set_archived_from None (set_archived_at None meta))) now.

Definition apply_transition (meta : QuickSessionMeta) (transition : QuickSessionTransition)
    : res (QuickSessionMeta * TransitionOutcome) QuickSessionError :=
  match transition with
  | HumanMessage actor line_number request_id preview now =>
      human_message meta actor line_number request_id preview now
  | Claim actor input_line attempt_id now => claim meta actor input_line attempt_id now
  | SetTitle actor attempt_id title now => do_set_title meta actor attempt_id title now
  | SetSummary actor attempt_id summary now => do_set_summary meta actor attempt_id summary now
  | AgentReply actor input_line attempt_id output_line preview now =>
      agent_reply meta actor input_line attempt_id output_line preview now
  | MarkError actor attempt_id error now => mark_error meta actor attempt_id error now
  | Archive actor now => archive meta actor now
  | Unarchive actor now => unarchive meta actor now
  end.

(** The [&mut meta] argument and the returned [Result]. *)
Definition apply_quick_session_transition (meta : QuickSessionMeta)
    (transition : QuickSessionTransition)
    : QuickSessionMeta * res TransitionOutcome QuickSessionError :=
  match validate_quick_session_meta meta with
  | Err e => (meta, Err e)
  | Panicked => (meta, Panicked)
  | Ok _ =>
      match apply_transition meta transition with
      | Err e => (meta, Err e)
      | Panicked => (meta, Panicked)
      | Ok (next, Applied) =>
          match validate_quick_session_meta next with
          | Err e => (meta, Err e)
          | Panicked => (meta, Panicked)
          | Ok _ => (next, Ok Applied)
          end
      | Ok (_, outcome) => (meta, Ok outcome)
      end
  end.

(** ** The invariant

    What a valid session satisfies, stated as facts about its fields. *)

Definition attempt_ok (a : str) : Prop :=
  validate_opaque_id a QUICK_SESSION_ATTEMPT_ID_PREFIX = true.

Definition text_ok (limit : N) (t : str) : Prop := trim t ≠ [] ∧ chars_count t ≤ limit.

Record identity_ok (m : QuickSessionMeta) : Prop := {
  id_ok : validate_opaque_id (qs_id m) QUICK_SESSION_ID_PREFIX = true;
  agent_ok : Handler_new (qs_agent_id m) = Ok (MkHandler (qs_agent_id m));
  creator_ok : Handler_new (qs_created_by m) = Ok (MkHandler (qs_created_by m));
  revision_ok : qs_revision m ≠ 0;
  title_ok : ∀ t, qs_title m = Some t → text_ok 80 t;
  preview_ok : chars_count (qs_last_message_preview m) ≤ 160;
  summary_ok : ∀ t, qs_summary m = Some t → text_ok 4000 t;
  summary_dated : qs_summary m = None ↔ qs_summary_updated_at m = None;
}.

(** A claim is complete while the session runs and absent otherwise. *)
Definition claim_ok (m : QuickSessionMeta) : Prop :=
  match qs_status m with
  | Running => ∃ l s a, qs_processing_input_line m = Some l ∧ qs_processing_started_at m = Some s ∧
                        qs_attempt_id m = Some a ∧ l ≠ 0 ∧ attempt_ok a
  | _ => qs_processing_input_line m = None ∧ qs_processing_started_at m = None ∧
         qs_attempt_id m = None
  end.

Definition archive_ok (m : QuickSessionMeta) : Prop :=
  match qs_status m with
  | Archived => qs_archived_at m ≠ None ∧
                match qs_archived_from m with
                | Some Active => qs_title m ≠ None
                | Some NeedsTitle => qs_title m = None
                | Some Error => True
                | _ => False
                end
  | _ => qs_archived_at m = None ∧ qs_archived_from m = None
  end.

Record error_ok (m : QuickSessionMeta) : Prop := {
  needs_title_ok : qs_status m = NeedsTitle → qs_title m = None;
  active_ok : qs_status m = Active → qs_title m ≠ None;
  error_text_ok : ∀ e, qs_error m = Some e → trim e ≠ [];
  error_state_ok : requires_error m = true → qs_error m ≠ None;
  running_clean : qs_status m = Running → qs_error m = None;
  error_attributed : qs_error m ≠ None → requires_error m = false → qs_last_failed_attempt_id m ≠ None;
}.

(** The last completed turn: its three fields go together, its reply comes after
    its input, and its input is a line the creator wrote. *)
Definition completion_ok (m : QuickSessionMeta) : Prop :=
  match qs_last_completed_attempt_id m, qs_last_completed_input_line m, qs_last_completed_line m with
  | None, None, None => True
  | Some a, Some i, Some o => attempt_ok a ∧ 0 < i ∧ i < o ∧ ∃ h, qs_last_human_line m = Some h ∧ i ≤ h
  | _, _, _ => False
  end.

Record lines_ok (m : QuickSessionMeta) : Prop := {
  human_positive : qs_last_human_line m ≠ Some 0;
  request_has_line : qs_last_human_request_id m ≠ None → qs_last_human_line m ≠ None;
  processing_known : ∀ l, qs_processing_input_line m = Some l → ∃ h, qs_last_human_line m = Some h ∧ l ≤ h;
  failed_ok : ∀ a, qs_last_failed_attempt_id m = Some a →
                   attempt_ok a ∧ qs_error m ≠ None ∧ qs_status m ≠ Running;
}.

Record session_ok (m : QuickSessionMeta) : Prop := {
  s_identity : identity_ok m;
  s_claim : claim_ok m;
  s_archive : archive_ok m;
  s_error : error_ok m;
  s_completion : completion_ok m;
  s_lines : lines_ok m;
}.

(** Case analysis on the optional fields a check reads. *)
Ltac split_opts :=
  repeat match goal with
    | |- context [match ?o with Some _ => _ | None => _ end] => destruct o eqn:?; simpl
    | |- context [is_some ?o] => destruct o eqn:?; simpl
    | |- context [is_none ?o] => destruct o eqn:?; simpl
    | |- context [is_some_and ?o _] => destruct o eqn:?; simpl
    | |- context [is_none_or ?o _] => destruct o eqn:?; simpl
    end.

Lemma attempt_id_Ok a u : validate_quick_session_attempt_id a = Ok u ↔ attempt_ok a.
Proof.
  unfold validate_quick_session_attempt_id, attempt_ok. destruct u. by case_match.
Qed.

Lemma validate_text_limit_Ok v limit e1 e2 u :
  validate_text_limit v limit e1 e2 = Ok u ↔ text_ok limit v.
Proof.
  unfold validate_text_limit, text_ok. destruct u.
  by rewrite try_Ok, !guard_err_Ok, is_empty_false, N.ltb_ge.
Qed.

Lemma invalid_meta_Ok bad msg u : invalid_meta bad msg = Ok u ↔ bad = false.
Proof. apply guard_err_Ok. Qed.

#[export] Hint Rewrite attempt_id_Ok validate_text_limit_Ok invalid_meta_Ok : rust.

Lemma handler_check_Ok {A E} (f : HandlerError → E) s (k : res A E) u :
  (try? map_err f (Handler_new s) then k) = Ok u ↔ Handler_new s = Ok (MkHandler s) ∧ k = Ok u.
Proof.
  rewrite res_bind_Ok. setoid_rewrite map_err_Ok. split.
  - intros (h & Hh & Hk). pose proof (Handler_new_str _ _ Hh). destruct h; simplify_eq/=. done.
  - intros [Hh Hk]. eauto.
Qed.

Lemma if_some_Ok {A E} (o : option A) (f : A → res unit E) :
  if_some o f = Ok tt ↔ ∀ a, o = Some a → f a = Ok tt.
Proof. destruct o; naive_solver. Qed.

Lemma validate_identity_iff m : validate_identity m = Ok tt ↔ identity_ok m.
Proof.
  unfold validate_identity, validate_quick_session_id.
  rewrite try_Ok, !handler_check_Ok, !try_Ok, !invalid_meta_Ok, if_some_Ok, N.eqb_neq, N.ltb_ge.
  setoid_rewrite validate_text_limit_Ok. split.
  - intros (Hid & Ha & Hc & Hr & Ht & Hp & Hs). constructor; try done.
    + by destruct (validate_opaque_id _ _).
    + intros t Hst. rewrite Hst in Hs. case_match; [|done].
      by apply validate_text_limit_Ok in Hs.
    + destruct (qs_summary m), (qs_summary_updated_at m); done.
  - intros [Hid Ha Hc Hr Ht Hp Hs Hd]. rewrite Hid. do 6 (split; [done|]).
    destruct (qs_summary m) as [t|], (qs_summary_updated_at m); try done; try naive_solver.
    apply validate_text_limit_Ok. by apply Hs.
Qed.

Lemma claim_ok_running m :
  qs_status m = Running →
  claim_ok m ↔ ∃ l s a, qs_processing_input_line m = Some l ∧ qs_processing_started_at m = Some s ∧
                        qs_attempt_id m = Some a ∧ l ≠ 0 ∧ attempt_ok a.
Proof. unfold claim_ok. by intros ->. Qed.

Lemma claim_ok_idle m :
  qs_status m ≠ Running →
  claim_ok m ↔ qs_processing_input_line m = None ∧ qs_processing_started_at m = None ∧
               qs_attempt_id m = None.
Proof. unfold claim_ok. by destruct (qs_status m). Qed.

Lemma archive_ok_live m :
  qs_status m ≠ Archived → archive_ok m ↔ qs_archived_at m = None ∧ qs_archived_from m = None.
Proof. unfold archive_ok. by destruct (qs_status m). Qed.

Lemma archive_ok_archived m :
  qs_status m = Archived →
  archive_ok m ↔ qs_archived_at m ≠ None ∧
                 match qs_archived_from m with
                 | Some Active => qs_title m ≠ None
                 | Some NeedsTitle => qs_title m = None
                 | Some Error => True
                 | _ => False
                 end.
Proof. unfold archive_ok. by intros ->. Qed.

Lemma validate_claim_iff m : validate_claim m = Ok tt ↔ claim_ok m.
Proof.
  unfold validate_claim, has_complete_claim, has_any_claim.
  destruct (decide (qs_status m = Running)) as [Hst|Hst].
  - rewrite claim_ok_running by done.
    rewrite (bool_decide_eq_true_2 (qs_status m = Running)) by done. rewrite try_Ok, invalid_meta_Ok, if_some_Ok. setoid_rewrite attempt_id_Ok.
    rewrite orb_false_iff, negb_false_iff, bool_decide_eq_false.
    destruct (qs_processing_input_line m), (qs_processing_started_at m), (qs_attempt_id m);
      naive_solver.
  - rewrite claim_ok_idle by done.
    rewrite (bool_decide_eq_false_2 (qs_status m = Running)) by done. rewrite invalid_meta_Ok.
    destruct (qs_processing_input_line m), (qs_processing_started_at m), (qs_attempt_id m);
      naive_solver.
Qed.

Lemma validate_archive_iff m : validate_archive m = Ok tt ↔ archive_ok m.
Proof.
  unfold validate_archive. destruct (decide (qs_status m = Archived)).
  - rewrite archive_ok_archived, bool_decide_eq_true_2 by done. rewrite try_Ok, invalid_meta_Ok.
    destruct (qs_archived_at m), (qs_archived_from m) as [[]|], (qs_title m); naive_solver.
  - rewrite archive_ok_live, bool_decide_eq_false_2 by done. rewrite invalid_meta_Ok.
    destruct (qs_archived_at m), (qs_archived_from m); naive_solver.
Qed.

Lemma validate_title_and_error_iff m : validate_title_and_error m = Ok tt ↔ error_ok m.
Proof.
  unfold validate_title_and_error. rewrite !try_Ok, !invalid_meta_Ok.
  assert (is_some_and (qs_error m) (λ e, is_empty (trim e)) = false ↔
          ∀ e, qs_error m = Some e → trim e ≠ []) as ->.
  { destruct (qs_error m) as [e|]; simpl; [|naive_solver]. rewrite is_empty_false. naive_solver. }
  rewrite !andb_false_iff, bool_decide_eq_false. split.
  - intros (H1 & H2 & H3 & H4 & H5). constructor; try done.
    + intros Hs. rewrite Hs in H1. apply invalid_meta_Ok in H1. by destruct (qs_title m).
    + intros Hs. rewrite Hs in H1. apply invalid_meta_Ok in H1. by destruct (qs_title m).
    + intros Hr. destruct H3 as [H3|H3]; [congruence|]. by destruct (qs_error m).
    + intros Hr. destruct H4 as [H4|H4]; [congruence|]. by destruct (qs_error m).
    + intros He Hr. destruct H5 as [[H5|H5]|H5].
      * by destruct (qs_error m).
      * by rewrite Hr in H5.
      * by destruct (qs_last_failed_attempt_id m).
  - intros [H1 H2 H3 H4 H5 H6]. split_and!; try done.
    + destruct (qs_status m); try done; apply invalid_meta_Ok.
      * by rewrite H1.
      * by destruct (qs_title m); [|exfalso; apply H2].
    + destruct (requires_error m); [right|by left]. by destruct (qs_error m); [|exfalso; apply H4].
    + destruct (decide (qs_status m = Running)); [right|by left]. by rewrite H5.
    + destruct (qs_error m), (requires_error m), (qs_last_failed_attempt_id m); simpl; auto.
      exfalso. by apply H6.
Qed.

Lemma validate_completion_iff m : validate_completion m = Ok tt ↔ completion_ok m.
Proof.
  unfold validate_completion, completion_ok. rewrite try_Ok, invalid_meta_Ok.
  destruct (qs_last_completed_attempt_id m), (qs_last_completed_input_line m) as [i|],
    (qs_last_completed_line m) as [o|]; simpl; try naive_solver.
  rewrite !try_Ok, !invalid_meta_Ok, attempt_id_Ok, orb_false_iff, N.eqb_neq, N.leb_gt.
  destruct (qs_last_human_line m) as [h|]; simpl; [rewrite N.ltb_ge|]; split; try naive_solver.
  - intros (_ & ? & [? ?] & ?). split; [done|]. split; [lia|]. eauto.
  - intros (? & ? & ? & h' & ? & ?). simplify_eq. split_and!; (done || lia).
Qed.

Lemma validate_lines_iff m : validate_lines m = Ok tt ↔ lines_ok m.
Proof.
  unfold validate_lines. rewrite !try_Ok, !invalid_meta_Ok, if_some_Ok, bool_decide_eq_false.
  setoid_rewrite try_Ok. setoid_rewrite attempt_id_Ok. setoid_rewrite invalid_meta_Ok.
  setoid_rewrite orb_false_iff. setoid_rewrite bool_decide_eq_false. split.
  - intros (H1 & H2 & H3 & H4). constructor; try done.
    + by destruct (qs_last_human_request_id m), (qs_last_human_line m).
    + intros l Hl. rewrite Hl in H3. destruct (qs_last_human_line m) as [h|]; [|done].
      apply N.ltb_ge in H3. eauto.
    + intros a Ha. specialize (H4 a Ha). destruct (qs_error m); naive_solver.
  - intros [H1 H2 H3 H4]. split_and!; try done.
    + by destruct (qs_last_human_request_id m), (qs_last_human_line m); naive_solver.
    + destruct (qs_processing_input_line m) as [l|]; [|done].
      destruct (H3 l eq_refl) as (h & -> & Hle). simpl. by apply N.ltb_ge.
    + intros a Ha. specialize (H4 a Ha). destruct (qs_error m); naive_solver.
Qed.

(** The executable validator decides the invariant. *)
Lemma validate_quick_session_meta_iff m : validate_quick_session_meta m = Ok tt ↔ session_ok m.
Proof.
  unfold validate_quick_session_meta. rewrite !try_Ok, validate_identity_iff, validate_claim_iff,
    validate_archive_iff, validate_title_and_error_iff, validate_completion_iff, validate_lines_iff.
  split; [intros (?&?&?&?&?&?); by constructor|intros []; done].
Qed.

(** ** Guards of the arms *)

Lemma require_creator_Ok m actor u : require_creator m actor = Ok u ↔ actor = qs_created_by m.
Proof. unfold require_creator. destruct u. case_bool_decide; naive_solver. Qed.

Lemma require_agent_Ok m actor u : require_agent m actor = Ok u ↔ actor = qs_agent_id m.
Proof. unfold require_agent. destruct u. case_bool_decide; naive_solver. Qed.

Lemma require_attempt_Ok m a u :
  require_attempt m a = Ok u ↔ attempt_ok a ∧ qs_status m = Running ∧ qs_attempt_id m = Some a.
Proof.
  unfold require_attempt. destruct u.
  rewrite !try_Ok, attempt_id_Ok, guard_err_Ok, negb_false_iff, bool_decide_eq_true.
  case_bool_decide; naive_solver.
Qed.

Lemma finish_applied_Ok m now m' o :
  finish_applied m now = Ok (m', o) ↔
  o = Applied ∧ qs_revision m + 1 ≤ u64_MAX ∧ m' = set_revision (qs_revision m + 1) (set_updated_at now m).
Proof.
  unfold finish_applied, finish. rewrite !res_bind_Ok. setoid_rewrite res_bind_Ok.
  setoid_rewrite ok_or_Ok. split.
  - intros (m1 & (r & [-> Hr]%checked_add_Some & Hm) & ?). simplify_eq/=. done.
  - intros (-> & Hr & ->). eexists. split; [|done]. exists (qs_revision m + 1).
    split; [|done]. unfold checked_add. simpl. by apply N.leb_le in Hr as ->.
Qed.

#[export] Hint Rewrite require_creator_Ok require_agent_Ok require_attempt_Ok finish_applied_Ok
  bool_decide_eq_true bool_decide_eq_false negb_true_iff negb_false_iff orb_false_iff
  andb_true_iff N.eqb_neq N.eqb_eq N.leb_gt N.leb_le N.ltb_ge N.ltb_lt : rust.

Lemma touch_ok m now r :
  session_ok m → r ≠ 0 → session_ok (set_revision r (set_updated_at now m)).
Proof.
  intros [[] Hc Ha [] Hp []] Hr. constructor; try done; constructor; done.
Qed.

Lemma finish_applied_ok m now m' o :
  session_ok m → finish_applied m now = Ok (m', o) → session_ok m'.
Proof. intros Hm (-> & _ & ->)%finish_applied_Ok. apply touch_ok; [done|lia]. Qed.

Lemma preview_bound p : chars_count (truncate_quick_session_preview p) ≤ 160.
Proof.
  unfold chars_count, truncate_quick_session_preview. rewrite length_take.
  change (N.to_nat QUICK_SESSION_PREVIEW_MAX_CHARS) with 160%nat. lia.
Qed.

Lemma title_derived_spec m :
  (title_derived_status m = Active ∧ qs_title m ≠ None) ∨
  (title_derived_status m = NeedsTitle ∧ qs_title m = None).
Proof. unfold title_derived_status. destruct (qs_title m); naive_solver. Qed.

Lemma clear_claim_claim_ok m : qs_status m ≠ Running → claim_ok (clear_claim m).
Proof. intros Hs. by apply claim_ok_idle. Qed.

(** The parts of the invariant that an update leaves alone. *)
Ltac session_split :=
  constructor;
  [ try (constructor; done)
  | try solve [assumption | apply clear_claim_claim_ok; done]
  | try assumption
  | try (constructor; done)
  | try assumption
  | try (constructor; done) ].

(** A new human line keeps every fact about earlier lines. *)
Lemma human_line_ok m l rid p :
  session_ok m → l ≠ 0 → (∀ h, qs_last_human_line m = Some h → h < l) →
  session_ok (set_last_message_preview (truncate_quick_session_preview p)
               (set_last_human_line (Some l) (set_last_human_request_id rid m))).
Proof.
  intros [[] Hc Ha [] Hp [Hh Hr Hk Hf]] Hl Hlt. session_split.
  - constructor; try done. apply preview_bound.
  - unfold completion_ok in *. simpl. repeat (case_match; try done).
    destruct Hp as (? & ? & ? & h & Hh' & ?). specialize (Hlt h Hh').
    split_and!; try done. exists l. split; [done|lia].
  - constructor; try done; simpl; [congruence|].
    intros x Hx. destruct (Hk x Hx) as (h & Hh' & ?). specialize (Hlt h Hh').
    exists l. split; [done|lia].
Qed.

(** Leaving the error state by dropping its diagnostics. *)
Lemma clear_error_ok m :
  session_ok m → qs_status m = Error →
  session_ok (set_last_failed_attempt_id None (set_error None (set_status (title_derived_status m) m))).
Proof.
  intros [[] Hc Ha [] Hp []] Hs.
  pose proof (title_derived_spec m) as Ht.
  session_split.
  - rewrite claim_ok_idle in Hc by congruence. apply claim_ok_idle; [|done].
    simpl. intuition congruence.
  - rewrite archive_ok_live in Ha by congruence. apply archive_ok_live; [|done].
    simpl. intuition congruence.
  - constructor; simpl; try done; try (intuition congruence).
    unfold requires_error. simpl. destruct Ht as [[-> _]|[-> _]]; done.
Qed.

Lemma human_message_ok m actor l rid p now m' :
  session_ok m → human_message m actor l rid p now = Ok (m', Applied) → session_ok m'.
Proof.
  intros Hm. unfold human_message. rewrite try_Ok. intros [_ H].
  case_match; [done|]. rewrite !try_Ok, !guard_err_Ok in H. destruct H as (_ & Hl & Hh & Hf).
  autorewrite with rust in Hl. eapply finish_applied_ok; [|exact Hf]. apply human_line_ok.
  - case_bool_decide; [by apply clear_error_ok|done].
  - done.
  - intros h Hh'. assert (qs_last_human_line m = Some h) as Heq by (by case_bool_decide).
    rewrite Heq in Hh. by apply N.leb_gt in Hh.
Qed.

Lemma claim_step_ok m actor l a now m' :
  session_ok m → claim m actor l a now = Ok (m', Applied) → session_ok m'.
Proof.
  intros [[] Hc Ha [] Hp [Hh Hr Hk Hf]]. unfold claim. rewrite try_Ok. intros [_ H].
  rewrite try_Ok in H. destruct H as [Hatt H]. apply attempt_id_Ok in Hatt.
  case_match; [done|]. rewrite !try_Ok, !guard_err_Ok in H. destruct H as (Hs & Hl & Hz & Hfin).
  autorewrite with rust in Hl, Hz. destruct Hz as [Hz _].
  assert (qs_status m ≠ Archived) by (intros Heq; by rewrite Heq in Hs).
  eapply finish_applied_ok; [|exact Hfin]. session_split.
  - apply claim_ok_running; [done|]. eexists _, _, _. done.
  - rewrite archive_ok_live in Ha by done. by apply archive_ok_live.
  - constructor; simpl; try done. intros x [= <-]. eauto with lia.
Qed.

Lemma set_title_ok m actor a t now m' :
  session_ok m → do_set_title m actor a t now = Ok (m', Applied) → session_ok m'.
Proof.
  intros [[] Hc Ha [] Hp []]. unfold do_set_title. rewrite !try_Ok, require_attempt_Ok.
  intros (_ & (_ & Hs & _) & Ht & H). apply validate_text_limit_Ok in Ht.
  case_match; [done|]. eapply finish_applied_ok; [|exact H]. session_split.
  - constructor; try done. simpl. by intros x [= <-].
  - unfold archive_ok in *. simpl. rewrite Hs in *. done.
  - constructor; try done; simpl; congruence.
Qed.

Lemma set_summary_ok m actor a t now m' :
  session_ok m → do_set_summary m actor a t now = Ok (m', Applied) → session_ok m'.
Proof.
  intros [[] Hc Ha [] Hp []]. unfold do_set_summary. rewrite !try_Ok, require_attempt_Ok.
  intros (_ & (_ & Hs & _) & Ht & H). apply validate_text_limit_Ok in Ht.
  case_match; [done|]. eapply finish_applied_ok; [|exact H]. session_split.
  - constructor; try done; simpl. by intros x [= <-].
Qed.

Lemma agent_reply_ok m actor l a o p now m' :
  session_ok m → agent_reply m actor l a o p now = Ok (m', Applied) → session_ok m'.
Proof.
  intros [[] Hc Ha [] Hp [Hh Hr Hk Hf]]. unfold agent_reply. rewrite !try_Ok.
  intros (_ & _ & H). case_match; [done|]. rewrite !try_Ok, !guard_err_Ok, require_attempt_Ok in H.
  destruct H as ((Hatt & Hs & _) & Hl & Ht & Ho & Hfin). autorewrite with rust in Hl, Ho.
  assert (qs_title m ≠ None) by (intros Heq; by rewrite Heq in Ht).
  rewrite claim_ok_running in Hc by done. destruct Hc as (l' & ? & ? & Hl' & ? & ? & ? & ?).
  simplify_eq. destruct (Hk l' Hl') as (h & Hh' & Hle).
  eapply finish_applied_ok; [|exact Hfin]. session_split.
  - constructor; try done. apply preview_bound.
  - rewrite archive_ok_live in Ha by congruence. by apply archive_ok_live.
  - unfold completion_ok. simpl. split_and!; [done|lia|lia|eauto].
Qed.

Lemma mark_error_ok m actor a e now m' :
  session_ok m → mark_error m actor a e now = Ok (m', Applied) → session_ok m'.
Proof.
  intros [[] Hc Ha [] Hp [Hh Hr Hk Hf]]. unfold mark_error. rewrite !try_Ok.
  intros (_ & _ & H). case_match; [done|].
  rewrite !try_Ok, guard_err_Ok, require_attempt_Ok, is_empty_false, res_bind_Ok in H.
  destruct H as ((Hatt & Hs & _) & He & l & _ & Hfin).
  set (st := if is_some_and _ _ then _ else _) in Hfin.
  assert (st = Error ∨ (st = Active ∧ qs_title m ≠ None) ∨ (st = NeedsTitle ∧ qs_title m = None)) as Hst.
  { unfold st. case_match; [right|by left]. apply title_derived_spec. }
  eapply finish_applied_ok; [|exact Hfin]. session_split.
  - apply clear_claim_claim_ok. simpl. intuition congruence.
  - rewrite archive_ok_live in Ha by congruence. apply archive_ok_live; [|done].
    simpl. intuition congruence.
  - constructor; simpl; try done; try (intuition congruence).
    intros x [= <-]. by rewrite trim_idem.
  - constructor; simpl; try done. intros x [= <-]. split_and!; [done|done|intuition congruence].
Qed.

Lemma archive_step_ok m actor now m' :
  session_ok m → archive m actor now = Ok (m', Applied) → session_ok m'.
Proof.
  intros [[] Hc Ha [Hnt Hact Het Hes Hrun Heat] Hp [Hh Hr Hk Hf]]. unfold archive. rewrite !try_Ok, guard_err_Ok.
  intros (_ & Hs & Hfin). autorewrite with rust in Hs.
  rewrite archive_ok_live in Ha by done. destruct Ha as [_ Hfrom].
  eapply finish_applied_ok; [|exact Hfin]. session_split.
  - apply archive_ok_archived; [done|]. simpl. split; [done|].
    destruct (title_derived_spec m) as [[-> ?]|[-> ?]], (qs_status m); simpl; auto.
  - constructor; simpl; try done.
    + unfold requires_error in *. simpl.
      destruct (title_derived_spec m) as [[-> ?]|[-> ?]], (qs_status m); simpl; auto.
    + unfold requires_error in *. simpl. rewrite Hfrom in *.
      destruct (qs_status m); simpl in *; auto.
  - constructor; simpl; try done. intros x Hx. destruct (Hf x Hx) as (? & ? & ?). done.
Qed.

Lemma restore_error_ok m :
  session_ok m → qs_status m = Archived → qs_archived_from m = Some Error →
  session_ok (clear_claim (set_archived_from None (set_archived_at None (set_status Error m)))).
Proof.
  intros [[] Hc Ha [Hnt Hact Het Hes Hrun Heat] Hp [Hh Hr Hk Hf]] Hs Hfr.
  unfold requires_error in *. rewrite Hs, Hfr in *. session_split.
  - by apply archive_ok_live.
  - constructor; simpl; try done. intros x Hx. by destruct (Hf x Hx) as (? & ? & ?).
Qed.

Lemma restore_stable_ok m st :
  session_ok m → qs_status m = Archived → qs_archived_from m = Some st → st ≠ Error →
  session_ok (clear_claim (set_archived_from None (set_archived_at None
    (set_last_failed_attempt_id None (set_error None (set_status st m)))))).
Proof.
  intros [[] Hc Ha [Hnt Hact Het Hes Hrun Heat] Hp [Hh Hr Hk Hf]] Hs Hfr Hst.
  rewrite archive_ok_archived, Hfr in Ha by done. destruct Ha as [_ Hfrom].
  assert (st = Active ∨ st = NeedsTitle) as Hcase by (destruct st; auto; done).
  session_split.
  - apply clear_claim_claim_ok. simpl. intuition congruence.
  - apply archive_ok_live; [simpl; intuition congruence|done].
  - destruct Hcase as [-> | ->]; constructor; simpl; done.
Qed.

Lemma unarchive_step_ok m actor now m' :
  session_ok m → unarchive m actor now = Ok (m', Applied) → session_ok m'.
Proof.
  intros Hm. unfold unarchive. rewrite !try_Ok, guard_err_Ok, negb_false_iff, bool_decide_eq_true.
  intros (_ & Hs & Hfin). pose proof (s_archive _ Hm) as Ha.
  rewrite archive_ok_archived in Ha by done. destruct Ha as [_ Hfrom].
  destruct (qs_archived_from m) as [st|] eqn:Hfr; [|done].
  change (qs_status (set_status (unwrap_or (Some st) (title_derived_status m)) m)) with st in Hfin.
  change (unwrap_or (Some st) (title_derived_status m)) with st in Hfin.
  eapply finish_applied_ok; [|exact Hfin]. case_bool_decide; subst.
  - by apply restore_error_ok.
  - by apply restore_stable_ok.
Qed.

Lemma apply_transition_ok m t m' :
  session_ok m → apply_transition m t = Ok (m', Applied) → session_ok m'.
Proof.
  intros Hm. destruct t; simpl.
  - by apply human_message_ok.
  - by apply claim_step_ok.
  - by apply set_title_ok.
  - by apply set_summary_ok.
  - by apply agent_reply_ok.
  - by apply mark_error_ok.
  - by apply archive_step_ok.
  - by apply unarchive_step_ok.
Qed.

(** Walk a successful arm to its [finish_applied]. *)
Ltac arm_step H :=
  match type of H with
  | (if ?b then Ok (_, Duplicate _) else _) = _ => destruct b eqn:?; [discriminate H|]
  | res_bind ?r (λ _, ?k) = Ok _ =>
      lazymatch type of r with
      | res unit _ => let E := fresh "G" in apply try_Ok in H as [E H]; autorewrite with rust in E
      end
  | res_bind _ _ = Ok _ => let a := fresh "v" in let E := fresh "G" in
      apply res_bind_Ok in H as (a & E & H); autorewrite with rust in E
  end.

Ltac open_arm H :=
  unfold apply_transition, human_message, claim, do_set_title, do_set_summary, agent_reply,
    mark_error, archive, unarchive in H;
  repeat (cbv zeta in H; arm_step H);
  apply finish_applied_Ok in H as (_ & Hrev & ->).

Lemma apply_transition_frame m t m' :
  apply_transition m t = Ok (m', Applied) →
  qs_id m' = qs_id m ∧ qs_agent_id m' = qs_agent_id m ∧ qs_created_by m' = qs_created_by m ∧
  qs_created_at m' = qs_created_at m ∧ qs_revision m' = qs_revision m + 1 ∧ qs_revision m' ≤ u64_MAX.
Proof.
  intros H. destruct t; open_arm H; revert Hrev; repeat case_match; simpl; done.
Qed.

(** A transition that is not [Applied] leaves the arm's copy alone. *)
Lemma apply_transition_duplicate m t m' l :
  apply_transition m t = Ok (m', Duplicate l) → m' = m.
Proof.
  assert (∀ a n, finish_applied a n ≠ Ok (m', Duplicate l)) as Hf.
  { intros a n (Ho & _)%finish_applied_Ok. done. }
  intros H. destruct t; simpl in H;
    unfold human_message, claim, do_set_title, do_set_summary, agent_reply, mark_error, archive,
      unarchive in H;
    repeat (cbv zeta in H;
            first [ by apply Hf in H
                  | match type of H with
                    | (if ?b then Ok _ else _) = _ => destruct b; [by simplify_eq|]
                    end
                  | apply res_bind_Ok in H as (? & _ & H) ]).
Qed.

(** ** The machine *)

Definition session_step (m m' : QuickSessionMeta) : Prop :=
  ∃ t, apply_quick_session_transition m t = (m', Ok Applied).

Lemma apply_valid m t :
  session_ok m →
  apply_quick_session_transition m t =
  match apply_transition m t with
  | Ok (next, Applied) => (next, Ok Applied)
  | Ok (_, o) => (m, Ok o)
  | Err e => (m, Err e)
  | Panicked => (m, Panicked)
  end.
Proof.
  intros Hm. unfold apply_quick_session_transition.
  rewrite (proj2 (validate_quick_session_meta_iff m) Hm).
  destruct (apply_transition m t) as [[next []]| |] eqn:Ht; try done.
  by rewrite (proj2 (validate_quick_session_meta_iff next) (apply_transition_ok _ _ _ Hm Ht)).
Qed.

Lemma apply_Applied m t m' :
  apply_quick_session_transition m t = (m', Ok Applied) →
  session_ok m ∧ apply_transition m t = Ok (m', Applied).
Proof.
  unfold apply_quick_session_transition. intros H.
  destruct (validate_quick_session_meta m) as [[]| |] eqn:Hv; try done.
  apply validate_quick_session_meta_iff in Hv. split; [done|].
  destruct (apply_transition m t) as [[next []]| |]; try done.
  by destruct (validate_quick_session_meta next); simplify_eq.
Qed.

Lemma session_step_ok m m' : session_step m m' → session_ok m'.
Proof. intros (t & [Hm Ht]%apply_Applied). by eapply apply_transition_ok. Qed.

Lemma new_session_ok id agent creator at_ :
  validate_quick_session_id id = Ok tt → is_ok (Handler_new agent) = true →
  is_ok (Handler_new creator) = true → session_ok (QuickSessionMeta_new id agent creator at_).
Proof.
  intros Hid [ha Ha]%is_ok_Ok [hc Hc]%is_ok_Ok.
  pose proof (Handler_new_str _ _ Ha). pose proof (Handler_new_str _ _ Hc).
  destruct ha, hc; simplify_eq/=. constructor; try done; constructor; try done.
  simpl. unfold validate_quick_session_id in Hid. by case_match.
Qed.

(** Validation after a transition never rejects.  From a valid session the
    outcome of [apply_quick_session_transition] is decided by the guards of the
    transition alone, and the session it leaves behind is valid whatever the
    outcome; a refused or duplicate transition leaves the session as it was. *)
Theorem transitions_preserve_validity (m : QuickSessionMeta) (t : QuickSessionTransition)
    (Hm : validate_quick_session_meta m = Ok tt) :
  apply_quick_session_transition m t =
    match apply_transition m t with
    | Ok (next, Applied) => (next, Ok Applied)
    | Ok (_, outcome) => (m, Ok outcome)
    | Err e => (m, Err e)
    | Panicked => (m, Panicked)
    end ∧
  validate_quick_session_meta (fst (apply_quick_session_transition m t)) = Ok tt.
Proof.
  apply validate_quick_session_meta_iff in Hm. rewrite (apply_valid _ _ Hm). split; [done|].
  apply validate_quick_session_meta_iff.
  destruct (apply_transition m t) as [[next []]| |] eqn:Ht; try done.
  by eapply apply_transition_ok.
Qed.

(** A fresh session and the sessions a scenario passes through, for the witnesses. *)
Definition ex_id : str := lit "qs-01ARZ3NDEKTSV4RRFFQ69G5FAV".
Definition ex_attempt : str := lit "qa-01ARZ3NDEKTSV4RRFFQ69G5FAV".
Definition ex_attempt2 : str := lit "qa-01ARZ3NDEKTSV4RRFFQ69G5FB0".
Definition ex_new : QuickSessionMeta :=
  QuickSessionMeta_new ex_id (lit "agent") (lit "alice") (lit "20260101T000000Z").
Definition ex_run (m : QuickSessionMeta) (ts : list QuickSessionTransition) : QuickSessionMeta :=
  foldl (λ m t, fst (apply_quick_session_transition m t)) m ts.
Definition ex_asked : QuickSessionMeta :=
  ex_run ex_new [HumanMessage (lit "alice") 1 (Some (lit "r1")) (lit "hi") (lit "t1")].
Definition ex_running : QuickSessionMeta :=
  ex_run ex_asked [Claim (lit "agent") 1 ex_attempt (lit "t2")].

Lemma transitions_preserve_validity_witness :
  validate_quick_session_meta
    (fst (apply_quick_session_transition ex_running (SetTitle (lit "agent") ex_attempt (lit " Fix ") (lit "t3"))))
  = Ok tt.
Proof.
  refine (proj2 (transitions_preserve_validity ex_running _ _)). vm_compute. reflexivity.
Defined.

(** *** No input is answered twice *)

(** The claimed line is newer than the last answered one. *)
Definition fresh_claim (m : QuickSessionMeta) : Prop :=
  ∀ l c, qs_processing_input_line m = Some l → qs_last_completed_input_line m = Some c → c < l.

(** An optional line number that stays or grows. *)
Definition stays_or_grows (o o' : option N) : Prop :=
  o' = o ∨ ∃ n, o' = Some n ∧ ∀ k, o = Some k → k < n.

Lemma apply_transition_fresh m t m' :
  fresh_claim m → apply_transition m t = Ok (m', Applied) → fresh_claim m'.
Proof.
  unfold fresh_claim. intros Hf H. destruct t; open_arm H; clear Hrev; simpl; try done.
  - case_match; simpl; done.
  - intros x c [= <-] Hc. destruct G3 as [_ G3]. rewrite Hc in G3. by apply N.leb_gt in G3.
Qed.

Lemma apply_transition_lines m t m' :
  fresh_claim m → apply_transition m t = Ok (m', Applied) →
  stays_or_grows (qs_last_human_line m) (qs_last_human_line m') ∧
  stays_or_grows (qs_last_completed_input_line m) (qs_last_completed_input_line m').
Proof.
  unfold stays_or_grows. intros Hf H. destruct t; open_arm H; clear Hrev; simpl; auto.
  - split.
    + right. eexists. split; [done|]. intros k Hk. rewrite Hk in G2. by apply N.leb_gt in G2.
    + case_match; simpl; auto.
  - split; [auto|]. right. eexists. split; [done|]. intros k Hk. by eapply Hf.
  - case_match; simpl; auto.
Qed.

Lemma reachable_fresh id agent creator at_ m :
  rtc session_step (QuickSessionMeta_new id agent creator at_) m → fresh_claim m.
Proof.
  remember (QuickSessionMeta_new id agent creator at_) as m0 eqn:Hm0.
  assert (fresh_claim m0) as Hf by by subst.
  clear Hm0. induction 1 as [|m0 m1 m2 [t Ht] _ IH]; [done|]. apply IH.
  apply apply_Applied in Ht as [_ Ht]. by eapply apply_transition_fresh.
Qed.

(** In every session reachable from a new one, each applied transition keeps the
    newest human line and the last answered line or moves them strictly forward.
    So no human line is answered twice, and no answer moves the session back to an
    older line. *)
Theorem lines_only_move_forward (id agent creator at_ : str) (m m' : QuickSessionMeta)
    (Hreach : rtc session_step (QuickSessionMeta_new id agent creator at_) m)
    (Hstep : session_step m m') :
  stays_or_grows (qs_last_human_line m) (qs_last_human_line m') ∧
  stays_or_grows (qs_last_completed_input_line m) (qs_last_completed_input_line m').
Proof.
  destruct Hstep as [t [_ Ht]%apply_Applied].
  eapply apply_transition_lines; [by eapply reachable_fresh|done].
Qed.

(** The session of [ex_running] once titled and answered. *)
Definition ex_titled : QuickSessionMeta :=
  ex_run ex_running [SetTitle (lit "agent") ex_attempt (lit "Fix") (lit "t3")].
Definition ex_answered : QuickSessionMeta :=
  ex_run ex_titled [AgentReply (lit "agent") 1 ex_attempt 2 (lit "done") (lit "t4")].

Lemma lines_only_move_forward_witness :
  stays_or_grows (qs_last_completed_input_line ex_titled) (qs_last_completed_input_line ex_answered).
Proof.
  refine (proj2 (lines_only_move_forward ex_id (lit "agent") (lit "alice") (lit "20260101T000000Z")
                   ex_titled ex_answered _ _)).
  - apply (rtc_l _ _ ex_asked).
    { exists (HumanMessage (lit "alice") 1 (Some (lit "r1")) (lit "hi") (lit "t1")). vm_compute. reflexivity. }
    apply (rtc_l _ _ ex_running).
    { exists (Claim (lit "agent") 1 ex_attempt (lit "t2")). vm_compute. reflexivity. }
    apply (rtc_l _ _ ex_titled); [|apply rtc_refl].
    exists (SetTitle (lit "agent") ex_attempt (lit "Fix") (lit "t3")). vm_compute. reflexivity.
  - exists (AgentReply (lit "agent") 1 ex_attempt 2 (lit "done") (lit "t4")). vm_compute. reflexivity.
Defined.

(** *** Replays *)

(** The transitions a client repeats when it did not see the answer: those that
    carry a request or attempt id, or set a text. *)
Definition replayable (t : QuickSessionTransition) : bool :=
  match t with
  | HumanMessage _ _ request_id _ _ => is_some request_id
  | Archive _ _ | Unarchive _ _ => false
  | _ => true
  end.

(** The line a duplicate reports: the one the first attempt wrote. *)
Definition reported_line (t : QuickSessionTransition) : option N :=
  match t with
  | HumanMessage _ line_number _ _ _ => Some line_number
  | AgentReply _ _ _ output_line _ _ => Some output_line
  | _ => None
  end.

Lemma replay_transition m t m' :
  replayable t = true → apply_transition m t = Ok (m', Applied) →
  apply_transition m' t = Ok (m', Duplicate (reported_line t)).
Proof.
  intros Hr H. destruct t as [actor l [rid|] p now| | | | | | |]; try done; clear Hr; open_arm H; clear Hrev;
    simpl; unfold human_message, claim, do_set_title, do_set_summary, agent_reply, mark_error,
      require_creator, require_agent, require_attempt; simpl.
  all: repeat match goal with
    | G : attempt_ok ?a |- context [validate_quick_session_attempt_id ?a] =>
        rewrite (proj2 (attempt_id_Ok a tt) G)
    end; simpl.
  - assert (qs_created_by (if qs_status m =?? Error
       then set_last_failed_attempt_id None (set_error None (set_status (title_derived_status m) m))
       else m) = qs_created_by m) as -> by by case_match.
    rewrite !bool_decide_eq_true_2 by done. done.
  - rewrite !bool_decide_eq_true_2 by done. done.
  - destruct G0 as (G0 & -> & ->). rewrite (proj2 (attempt_id_Ok _ tt) G0). simpl.
    rewrite !bool_decide_eq_true_2 by done. simpl. rewrite G1. simpl. done.
  - destruct G0 as (G0 & -> & ->). rewrite (proj2 (attempt_id_Ok _ tt) G0). simpl.
    rewrite !bool_decide_eq_true_2 by done. simpl. rewrite G1. simpl. done.
  - rewrite !bool_decide_eq_true_2 by done. done.
  - rewrite !bool_decide_eq_true_2 by done. done.
Qed.

(** Repeating a transition that was applied, when it carries a request id or an
    attempt id, changes nothing: it is reported as a duplicate, with the line the
    first attempt wrote. *)
Theorem replays_are_duplicates (m m' : QuickSessionMeta) (t : QuickSessionTransition)
    (Ht : replayable t = true)
    (Hfirst : apply_quick_session_transition m t = (m', Ok Applied)) :
  apply_quick_session_transition m' t = (m', Ok (Duplicate (reported_line t))).
Proof.
  pose proof (session_step_ok _ _ (ex_intro _ t Hfirst)) as Hm'.
  apply apply_Applied in Hfirst as [_ Hfirst].
  by rewrite (apply_valid _ _ Hm'), (replay_transition _ _ _ Ht Hfirst).
Qed.

Lemma replays_are_duplicates_witness :
  apply_quick_session_transition ex_answered (AgentReply (lit "agent") 1 ex_attempt 2 (lit "done") (lit "t4"))
  = (ex_answered, Ok (Duplicate (Some 2))).
Proof.
  apply (replays_are_duplicates ex_titled ex_answered); vm_compute; reflexivity.
Defined.

(** *** Who may do what *)

Definition by_creator (t : QuickSessionTransition) : bool :=
  match t with HumanMessage _ _ _ _ _ | Archive _ _ | Unarchive _ _ => true | _ => false end.

Definition transition_actor (t : QuickSessionTransition) : str :=
  match t with
  | HumanMessage a _ _ _ _ | Claim a _ _ _ | SetTitle a _ _ _ | SetSummary a _ _ _
  | AgentReply a _ _ _ _ _ | MarkError a _ _ _ | Archive a _ | Unarchive a _ => a
  end.

Lemma unauthorized_transition m t :
  transition_actor t ≠ (if by_creator t then qs_created_by m else qs_agent_id m) →
  apply_transition m t = Err UnauthorizedActor.
Proof.
  intros Hne. destruct t; simpl in *;
    unfold human_message, claim, do_set_title, do_set_summary, agent_reply, mark_error, archive,
      unarchive, require_creator, require_agent;
    by rewrite bool_decide_eq_false_2.
Qed.

Lemma busy_claim m actor l a now :
  qs_status m = Running → actor = qs_agent_id m → attempt_ok a → qs_attempt_id m ≠ Some a →
  apply_transition m (Claim actor l a now) = Err InvalidState.
Proof.
  intros Hs -> Ha Hne. simpl. unfold claim, require_agent.
  rewrite bool_decide_eq_true_2 by done. simpl. rewrite (proj2 (attempt_id_Ok a tt) Ha). simpl.
  rewrite (bool_decide_eq_false_2 (qs_attempt_id m = Some a)) by done. rewrite andb_false_r.
  by rewrite Hs.
Qed.

(** A session has one worker.  Whoever is not the session's creator (for messages,
    archive and restore) or its agent (for the rest) is refused with
    [UnauthorizedActor]; and while an attempt runs, a claim by another attempt is
    refused with [InvalidState].  Refusals leave the session unchanged. *)
Theorem exclusive_and_authorized (m : QuickSessionMeta) (t : QuickSessionTransition)
    (Hm : validate_quick_session_meta m = Ok tt) :
  (transition_actor t ≠ (if by_creator t then qs_created_by m else qs_agent_id m) →
   apply_quick_session_transition m t = (m, Err UnauthorizedActor)) ∧
  (∀ l a now, qs_status m = Running →
     validate_quick_session_attempt_id a = Ok tt → qs_attempt_id m ≠ Some a →
     apply_quick_session_transition m (Claim (qs_agent_id m) l a now) = (m, Err InvalidState)).
Proof.
  apply validate_quick_session_meta_iff in Hm. split.
  - intros Hne. by rewrite (apply_valid _ _ Hm), unauthorized_transition.
  - intros l a now Hs Ha%attempt_id_Ok Hne. by rewrite (apply_valid _ _ Hm), busy_claim.
Qed.

Lemma exclusive_and_authorized_witness :
  apply_quick_session_transition ex_running (Claim (lit "agent") 1 ex_attempt2 (lit "t5"))
  = (ex_running, Err InvalidState).
Proof.
  refine (proj2 (exclusive_and_authorized ex_running (Archive [] []) _) 1 ex_attempt2 (lit "t5") _ _ _);
    vm_compute; try reflexivity. discriminate.
Defined.

(** *** Archive and restore *)

(** The status a session returns to: its own, or, if it was running, the one its
    title implies. *)
Definition stable_status (m : QuickSessionMeta) : QuickSessionStatus :=
  if qs_status m =?? Running then title_derived_status m else qs_status m.

(** The archived form of a session. *)
Definition archived_form (m : QuickSessionMeta) (now : str) : QuickSessionMeta :=
  set_revision (qs_revision m + 1) (set_updated_at now
    (clear_claim (set_archived_at (Some now) (set_status Archived
      (set_archived_from (Some (stable_status m)) m))))).

Lemma archive_Applied m now :
  qs_status m ≠ Archived → qs_revision m + 1 ≤ u64_MAX →
  apply_transition m (Archive (qs_created_by m) now) = Ok (archived_form m now, Applied).
Proof.
  intros Hs Hr. simpl. unfold archive, require_creator.
  rewrite bool_decide_eq_true_2 by done. simpl. rewrite bool_decide_eq_false_2 by done. simpl.
  by apply finish_applied_Ok.
Qed.

(** What restoring an archived session yields. *)
Definition restored_form (m : QuickSessionMeta) (st : QuickSessionStatus) (now : str) : QuickSessionMeta :=
  let m1 := set_status st m in
  let m2 := if st =?? Error then m1 else set_last_failed_attempt_id None (set_error None m1) in
  set_revision (qs_revision m + 1) (set_updated_at now
    (clear_claim (set_archived_from None (set_archived_at None m2)))).

Lemma unarchive_Applied m st now :
  qs_status m = Archived → qs_archived_from m = Some st → qs_revision m + 1 ≤ u64_MAX →
  apply_transition m (Unarchive (qs_created_by m) now) = Ok (restored_form m st now, Applied).
Proof.
  intros Hs Hfr Hr. simpl. unfold unarchive, require_creator.
  rewrite bool_decide_eq_true_2 by done. simpl. rewrite bool_decide_eq_true_2 by done. simpl.
  rewrite Hfr. apply finish_applied_Ok. unfold restored_form. simpl.
  by case_bool_decide.
Qed.

(** Archiving a session and restoring it brings back its status (the title-derived
    one if it was running, since the claim is dropped) with its title, summary,
    human lines and completed turn unchanged; error diagnostics survive exactly
    when the session was in the error state. *)
Theorem archive_restore_roundtrip (m : QuickSessionMeta) (now1 now2 : str)
    (Hm : validate_quick_session_meta m = Ok tt)
    (Hs : qs_status m ≠ Archived) (Hr : qs_revision m + 2 ≤ u64_MAX) :
  ∃ m1 m2,
    apply_quick_session_transition m (Archive (qs_created_by m) now1) = (m1, Ok Applied) ∧
    qs_status m1 = Archived ∧
    apply_quick_session_transition m1 (Unarchive (qs_created_by m) now2) = (m2, Ok Applied) ∧
    qs_status m2 = stable_status m ∧ qs_title m2 = qs_title m ∧ qs_summary m2 = qs_summary m ∧
    qs_last_human_line m2 = qs_last_human_line m ∧
    qs_last_human_request_id m2 = qs_last_human_request_id m ∧
    qs_last_completed_line m2 = qs_last_completed_line m ∧
    qs_last_completed_input_line m2 = qs_last_completed_input_line m ∧
    qs_error m2 = (if qs_status m =?? Error then qs_error m else None) ∧
    qs_processing_input_line m2 = None ∧ qs_revision m2 = qs_revision m + 2.
Proof.
  apply validate_quick_session_meta_iff in Hm.
  pose proof (archive_Applied m now1 Hs ltac:(lia)) as Ha.
  pose proof (apply_transition_ok _ _ _ Hm Ha) as Hm1.
  exists (archived_form m now1), (restored_form (archived_form m now1) (stable_status m) now2).
  rewrite (apply_valid _ _ Hm), Ha. split; [done|]. split; [done|].
  rewrite (apply_valid _ _ Hm1).
  change (qs_created_by m) with (qs_created_by (archived_form m now1)).
  rewrite (unarchive_Applied _ (stable_status m)); [|done|done|simpl; lia].
  split; [done|]. unfold restored_form.
  assert (qs_status m = Error ↔ stable_status m = Error) as HE.
  { unfold stable_status. case_bool_decide; [|done].
    destruct (title_derived_spec m) as [[-> _]|[-> _]]; split; congruence. }
  rewrite (bool_decide_ext _ _ HE). case_bool_decide as Hst; simpl; split_and!; auto; lia.
Qed.

Lemma archive_restore_roundtrip_witness :
  ∃ m1 m2,
    apply_quick_session_transition ex_running (Archive (lit "alice") (lit "t5")) = (m1, Ok Applied) ∧
    apply_quick_session_transition m1 (Unarchive (lit "alice") (lit "t6")) = (m2, Ok Applied) ∧
    qs_status m2 = NeedsTitle.
Proof.
  destruct (archive_restore_roundtrip ex_running (lit "t5") (lit "t6"))
    as (m1 & m2 & H1 & _ & H2 & H3 & _).
  - vm_compute. reflexivity.
  - vm_compute. discriminate.
  - vm_compute. discriminate.
  - exists m1, m2. split; [exact H1|]. split; [exact H2|]. rewrite H3. vm_compute. reflexivity.
Defined.

(** ** The protocol

    A session as its two participants see it: the newest line the creator wrote, the
    newest line the agent answered, whether it has a name, and whose turn it is. *)

Inductive Phase :=
  | Idle                                   (** nobody works on it *)
  | Working (line : N) (attempt : str)     (** the agent works on a line *)
  | Failed                                 (** the agent gave up and nothing newer waits *)
  | Shelved (failed : bool).               (** archived, from [Failed] or not *)

Record Protocol := MkProtocol {
  pr_newest : option N;
  pr_answered : option N;
  pr_named : bool;
  pr_phase : Phase;
}.

(** Lines only go forward. *)
Definition later (line : N) (than : option N) : bool :=
  match than with Some t => t <? line | None => 0 <? line end.

(** The moves of the protocol, which knows of no identifiers to repeat, texts or clocks. *)
Definition protocol_step (agent creator : str) (s : Protocol) (t : QuickSessionTransition) : option Protocol :=
  let '(MkProtocol newest answered named phase) := s in
  match t, phase with
  | HumanMessage actor line _ _ _, (Idle | Working _ _ | Failed) =>
      if (actor =?? creator) && later line newest
      then Some (MkProtocol (Some line) answered named match phase with Failed => Idle | _ => phase end) else None
  | Claim actor line attempt _, Idle =>
      if (actor =?? agent) && (newest =?? Some line) && later line answered
      then Some (MkProtocol newest answered named (Working line attempt)) else None
  | SetTitle actor attempt _ _, Working line attempt' =>
      if (actor =?? agent) && (attempt =?? attempt')
      then Some (MkProtocol newest answered true phase) else None
  | SetSummary actor attempt _ _, Working line attempt' =>
      if (actor =?? agent) && (attempt =?? attempt') then Some s else None
  | AgentReply actor line attempt output _ _, Working line' attempt' =>
      if (actor =?? agent) && (line =?? line') && (attempt =?? attempt') && named && (line <? output)
      then Some (MkProtocol newest (Some line) named Idle) else None
  | MarkError actor attempt _ _, Working line attempt' =>
      if (actor =?? agent) && (attempt =?? attempt')
      then Some (MkProtocol newest answered named (if is_some_and newest (λ n, line <? n) then Idle else Failed))
      else None
  | Archive actor _, (Idle | Working _ _ | Failed) =>
      if actor =?? creator
      then Some (MkProtocol newest answered named (Shelved match phase with Failed => true | _ => false end)) else None
  | Unarchive actor _, Shelved failed =>
      if actor =?? creator
      then Some (MkProtocol newest answered named (if failed then Failed else Idle)) else None
  | _, _ => None
  end.

Definition phase_of (m : QuickSessionMeta) : Phase :=
  match qs_status m with
  | NeedsTitle | Active => Idle
  | Running => Working (unwrap_or (qs_processing_input_line m) 0) (unwrap_or (qs_attempt_id m) [])
  | Error => Failed
  | Archived => Shelved (qs_archived_from m =?? Some Error)
  end.

Definition protocol_of (m : QuickSessionMeta) : Protocol :=
  MkProtocol (qs_last_human_line m) (qs_last_completed_input_line m) (is_some (qs_title m)) (phase_of m).

(** The texts and ids a transition carries are in order. *)
Definition transition_ok (t : QuickSessionTransition) : Prop :=
  match t with
  | HumanMessage _ _ _ _ _ | Archive _ _ | Unarchive _ _ => True
  | Claim _ _ a _ | AgentReply _ _ a _ _ _ => attempt_ok a
  | SetTitle _ a title _ => attempt_ok a ∧ text_ok QUICK_SESSION_TITLE_MAX_CHARS (trim title)
  | SetSummary _ a summary _ => attempt_ok a ∧ text_ok QUICK_SESSION_SUMMARY_MAX_CHARS (trim summary)
  | MarkError _ a error _ => attempt_ok a ∧ trim error ≠ []
  end.

Lemma later_spec line than : later line than = true ↔ 0 < line ∧ ∀ t, than = Some t → t < line.
Proof. unfold later. destruct than as [t|]; rewrite N.ltb_lt; [split; [intros; split; [lia|naive_solver]|naive_solver]|naive_solver]. Qed.

Lemma not_after_later line than : line ≠ 0 → is_some_and than (λ l, line <=? l) = false → later line than = true.
Proof. intros H0 H. apply later_spec. split; [lia|]. intros t ->. simpl in H. lia. Qed.
Lemma later_not_after line than : later line than = true → (line =? 0) = false ∧ is_some_and than (λ l, line <=? l) = false.
Proof. intros [H0 H]%later_spec. split; [lia|]. destruct than as [t|]; [|done]. specialize (H t eq_refl). simpl. lia. Qed.

Lemma title_derived_idle m : match title_derived_status m with NeedsTitle | Active => True | _ => False end.
Proof. unfold title_derived_status. by destruct (qs_title m). Qed.

(** What the arms do is a move of the protocol. *)
Lemma arm_is_move m t m' :
  session_ok m → apply_transition m t = Ok (m', Applied) →
  protocol_step (qs_agent_id m) (qs_created_by m) (protocol_of m) t = Some (protocol_of m').
Proof.
  intros Hm H. pose proof (title_derived_idle m) as Htd. pose proof (s_claim _ Hm) as Hc. pose proof (s_archive _ Hm) as Ha.
  unfold claim_ok in Hc. unfold archive_ok in Ha.
  destruct t; open_arm H; clear Hrev; unfold protocol_of, protocol_step, phase_of; cbn [protocol_of pr_phase].
  all: destruct (qs_status m) eqn:Hs; simpl; try done.
  all: repeat match goal with
    | G : attempt_ok _ ∧ _ = Running ∧ qs_attempt_id _ = Some _ |- _ =>
        let Hr := fresh in let Hat := fresh in destruct G as (_ & Hr & Hat); try discriminate Hr; rewrite ?Hat; clear Hr
    | G : qs_processing_input_line _ = Some _ |- _ => rewrite G in *; clear G
    | G : ?a = _ |- context [?a =?? _] => rewrite (bool_decide_eq_true_2 _ G); clear G
    | |- context [?a =?? ?a] => rewrite (bool_decide_eq_true_2 (a = a) eq_refl)
    | G : _ ≠ 0 ∧ is_some_and _ _ = false |- _ => destruct G
    end; rewrite ?Hs; cbn [andb unwrap_or].
  all: try (rewrite not_after_later by done; by destruct (title_derived_status m)).
  all: rewrite ?bool_decide_eq_true_2 by done; cbn [andb].
  all: try (rewrite (proj2 (is_some_true _)) by (destruct (qs_title m); [by eexists|done])).
  all: try (rewrite (proj2 (N.ltb_lt _ _)) by lia).
  all: solve
    [ done
    | by destruct (title_derived_status m)
    | by destruct (is_some_and _ _); destruct (title_derived_status m)
    | destruct Ha as [_ Ha]; by destruct (qs_archived_from m) as [[]|] ].
Qed.

Lemma is_ok_try {A E} (g : res unit E) (k : res A E) : is_ok g = true → is_ok k = true → is_ok (try? g then k) = true.
Proof. by destruct g. Qed.

Lemma is_ok_dup {A E} (b : bool) (x : A) (k : res A E) : is_ok k = true → is_ok (if b then Ok x else k) = true.
Proof. by destruct b. Qed.

Lemma is_ok_guard {E} (b : bool) (e : E) : b = false → is_ok (guard_err b e) = true.
Proof. by intros ->. Qed.

Lemma is_ok_finish m now : qs_revision m + 1 ≤ u64_MAX → is_ok (finish_applied m now) = true.
Proof. intros H. by rewrite (proj2 (finish_applied_Ok m now _ _) (conj eq_refl (conj H eq_refl))). Qed.

Lemma is_ok_attempt a : attempt_ok a → is_ok (validate_quick_session_attempt_id a) = true.
Proof. intros H. by rewrite (proj2 (attempt_id_Ok a tt) H). Qed.

Lemma is_ok_text t limit e1 e2 : text_ok limit t → is_ok (validate_text_limit t limit e1 e2) = true.
Proof. intros H. by rewrite (proj2 (validate_text_limit_Ok t limit e1 e2 tt) H). Qed.

(** Every move of the protocol is accepted, when its texts and ids are in order. *)
Lemma move_is_accepted m t s :
  session_ok m → transition_ok t → qs_revision m + 1 ≤ u64_MAX →
  protocol_step (qs_agent_id m) (qs_created_by m) (protocol_of m) t = Some s →
  is_ok (apply_transition m t) = true.
Proof.
  intros Hm Ht Hrev Hs. pose proof (s_claim _ Hm) as Hc. pose proof (s_error _ Hm) as He. unfold claim_ok in Hc.
  unfold protocol_of, phase_of in Hs.
  destruct t; simpl in Hs, Ht; destruct (qs_status m) eqn:Hst; try done.
  all: match type of Hs with (if ?b then _ else _) = _ => destruct b eqn:Hb; [clear Hs|done] end.
  all: rewrite ?andb_true_iff, ?bool_decide_eq_true in Hb.
  all: unfold apply_transition, human_message, claim, do_set_title, do_set_summary, agent_reply, mark_error, archive,
    unarchive, require_creator, require_agent, require_attempt.
  all: repeat match goal with H : _ ∧ _ |- _ => destruct H end; subst.
  all: try match goal with H : later _ _ = true |- _ => apply later_not_after in H as [? ?] end.
  all: try match goal with H : ∃ _, _ |- _ => destruct H as (l & st & a & Hl & _ & Ha & _) end; rewrite ?Hl, ?Ha, ?Hst in *.
  all: cbn [unwrap_or] in *; repeat match goal with
    | |- context [bool_decide (?a = ?b)] => rewrite (bool_decide_eq_true_2 (a = b)) by done
    end.
  all: repeat first
    [ done | apply is_ok_attempt; done | apply is_ok_text | apply is_ok_finish | apply is_ok_try | apply is_ok_guard
    | apply is_ok_dup ].
  all: try (by apply orb_false_iff).
  - by destruct (qs_title m).
  - by apply N.leb_gt, N.ltb_lt.
  - by apply is_empty_false.
  - by case_match.
Qed.

(** ** The refinement *)

(** One applied transition, by its arm alone. *)
Definition arm_step (t : QuickSessionTransition) (m m' : QuickSessionMeta) : Prop :=
  apply_transition m t = Ok (m', Applied).

Inductive arm_run (m0 : QuickSessionMeta) : list QuickSessionTransition → QuickSessionMeta → Prop :=
  | arm_run_nil : arm_run m0 [] m0
  | arm_run_step ts m t m' : arm_run m0 ts m → arm_step t m m' → arm_run m0 (ts ++ [t]) m'.

Definition protocol_run (agent creator : str) (ts : list QuickSessionTransition) : option Protocol :=
  foldl (λ s t, s ≫= λ s, protocol_step agent creator s t) (Some (MkProtocol None None false Idle)) ts.

Lemma arm_run_inv m0 ts m :
  session_ok m0 → protocol_of m0 = MkProtocol None None false Idle → arm_run m0 ts m →
  session_ok m ∧ protocol_run (qs_agent_id m0) (qs_created_by m0) ts = Some (protocol_of m)
  ∧ qs_revision m = qs_revision m0 + N.of_nat (length ts)
  ∧ qs_id m = qs_id m0 ∧ qs_agent_id m = qs_agent_id m0 ∧ qs_created_by m = qs_created_by m0
  ∧ qs_created_at m = qs_created_at m0.
Proof.
  intros H0 Hp. induction 1 as [|ts m t m' Hrun (Hm & Hpr & Hr & Hi & Ha & Hc & Hd) Ht].
  { split_and!; try done; [by rewrite Hp|simpl; lia]. }
  destruct (apply_transition_frame _ _ _ Ht) as (-> & -> & -> & -> & -> & _).
  split_and!; try done; [by eapply apply_transition_ok| |rewrite length_app; simpl; lia].
  unfold protocol_run in *. rewrite foldl_app, Hpr. simpl. rewrite <-Ha, <-Hc. by apply arm_is_move.
Qed.

(** *** What the protocol promises *)

Definition written_lines : list QuickSessionTransition → list N :=
  omap (λ t, match t with HumanMessage _ line _ _ _ => Some line | _ => None end).
Definition answered_lines : list QuickSessionTransition → list N :=
  omap (λ t, match t with AgentReply _ line _ _ _ _ => Some line | _ => None end).

(** Everything in the list has been passed by the newest. *)
Definition passed (ls : list N) (newest : option N) : Prop := ∀ l, l ∈ ls → ∃ n, newest = Some n ∧ l ≤ n.

Lemma later_passed ls newest l : passed ls newest → later l newest = true → StronglySorted N.lt ls → StronglySorted N.lt (ls ++ [l]).
Proof.
  intros Hp [_ Hl]%later_spec Hs. apply StronglySorted_app. split_and!; [|done|by repeat constructor].
  intros x y Hx ->%list_elem_of_singleton. destruct (Hp x Hx) as (n & Hn & Hle). specialize (Hl n Hn). lia.
Qed.

Lemma passed_snoc ls newest l : passed ls newest → later l newest = true → passed (ls ++ [l]) (Some l).
Proof.
  intros Hp [_ Hl]%later_spec x [Hx| ->%list_elem_of_singleton]%elem_of_app; [|by exists l].
  destruct (Hp x Hx) as (n & Hn & Hle). specialize (Hl n Hn). exists l. split; [done|lia].
Qed.

Record promises (ts : list QuickSessionTransition) (s : Protocol) : Prop := {
  p_written : StronglySorted N.lt (written_lines ts);
  p_newest : passed (written_lines ts) (pr_newest s);
  p_newest_in : ∀ n, pr_newest s = Some n → n ∈ written_lines ts;
  p_answers : StronglySorted N.lt (answered_lines ts);
  p_answered : passed (answered_lines ts) (pr_answered s);
  p_subset : answered_lines ts ⊆ written_lines ts;
  p_working : ∀ l a, pr_phase s = Working l a → later l (pr_answered s) = true ∧ l ∈ written_lines ts;
}.

Lemma protocol_promises agent creator ts s : protocol_run agent creator ts = Some s → promises ts s.
Proof.
  revert s. induction ts as [|t ts IH] using rev_ind; intros s'.
  { intros [= <-]. constructor; try done; first [apply SSorted_nil|by intros ? ?%elem_of_nil]. }
  unfold protocol_run. rewrite foldl_app. simpl. intros (s & Hs & Hstep)%bind_Some.
  destruct (IH s Hs) as [H1 H2 H3 H4 H5 H6 H7]. destruct s as [newest answered named phase]; simpl in *.
  assert (Hw : written_lines (ts ++ [t]) = written_lines ts ++ written_lines [t]) by apply omap_app.
  assert (Ha : answered_lines (ts ++ [t]) = answered_lines ts ++ answered_lines [t]) by apply omap_app.
  assert (Hsub : ∀ l, l ∈ written_lines ts → l ∈ written_lines ts ++ written_lines [t]) by (intros; apply elem_of_app; auto).
  destruct t, phase; try done;
    (match type of Hstep with (if ?b then _ else _) = _ => destruct b eqn:Hb; [injection Hstep as <-|done] end);
    rewrite ?andb_true_iff, ?bool_decide_eq_true in Hb;
    repeat match goal with H : _ ∧ _ |- _ => destruct H end; subst;
    (constructor; rewrite ?Hw, ?Ha; clear Hw Ha; simpl in *; rewrite ?app_nil_r in *).
  all: try done.
  all: try (by eapply later_passed); try (by eapply passed_snoc).
  all: try (intros n Hn; injection Hn as <-; apply elem_of_app; right; by left).
  all: try (intros l' Hl'; apply Hsub, H6, Hl').
  all: try (by intros ? ?; case_match).
  - intros l a [= <- <-]. destruct (H7 line attempt eq_refl). auto.
  - intros l a [= <- <-]. split; [done|]. by apply H3.
  - destruct (H7 line attempt eq_refl) as [Hl _]. by eapply later_passed.
  - destruct (H7 line attempt eq_refl) as [Hl _]. by eapply passed_snoc.
  - destruct (H7 line attempt eq_refl) as [_ Hl]. intros x [Hx| ->%list_elem_of_singleton]%elem_of_app; [by apply H6|done].
Qed.


Definition ex_transitions : list QuickSessionTransition :=
  [HumanMessage (lit "alice") 1 (Some (lit "r1")) (lit "hi") (lit "t1"); Claim (lit "agent") 1 ex_attempt (lit "t2");
   SetTitle (lit "agent") ex_attempt (lit "Fix") (lit "t3");
   HumanMessage (lit "alice") 3 (Some (lit "r2")) (lit "also") (lit "t4");
   MarkError (lit "agent") ex_attempt (lit "lost") (lit "t5")].

(** Transitions that are all applied, one after the other. *)
Fixpoint all_applied (m : QuickSessionMeta) (ts : list QuickSessionTransition) : bool :=
  match ts with
  | [] => true
  | t :: ts => match apply_quick_session_transition m t with (m', Ok Applied) => all_applied m' ts | _ => false end
  end.

Lemma arm_run_of m0 ts : all_applied m0 ts = true → arm_run m0 ts (ex_run m0 ts).
Proof.
  enough (H : ∀ pre m, arm_run m0 pre m → all_applied m ts = true → arm_run m0 (pre ++ ts) (ex_run m ts)).
  { apply (H []). apply arm_run_nil. }
  induction ts as [|t ts IH]; intros pre m Hpre Hall; [by rewrite app_nil_r|]. simpl in Hall.
  destruct (apply_quick_session_transition m t) as [m' [[]| |]] eqn:E; try done.
  change (ex_run m (t :: ts)) with (ex_run (apply_quick_session_transition m t).1 ts). rewrite E.
  change (t :: ts) with ([t] ++ ts). rewrite app_assoc. apply IH; [|done].
  eapply arm_run_step; [exact Hpre|]. by apply apply_Applied in E as [_ E].
Qed.

