(* ===== verification/Asset.v ===== *)
(** * Asset references

    The canonical [<^v1/<runtime>/sha256:<digest>?name=..&type=..&size=..>] form of
    an attachment ([gitim-core/src/types/asset.rs]): its printer, its parser and
    its validity check. *)

From S2P Require Import Prelude RustStr StrFacts.
From stdpp Require Import options.
Open Scope N_scope.
Open Scope list_scope.

Definition ASSET_REF_VERSION : N := 1.
Definition MAX_ASSET_BYTES : N := 50 * 1024 * 1024.
Definition MAX_ASSET_FILENAME_BYTES : N := 255.
Definition MAX_ASSET_MEDIA_TYPE_BYTES : N := 127.
Definition MAX_ASSET_REF_BYTES : N := 1024.

(** [CONTROLS.add(b' ')...]: the ASCII characters that are percent-encoded. *)
Definition ASSET_COMPONENT_ENCODE_SET (c : char) : bool :=
  (c <? 32) || (c =? 127) ||
  bool_decide (c ∈ lit " !#$%&'()*+,/:;<=>?@[\]^`{|}") || (c =? 34).

(** ** The [percent-encoding] crate *)

(** Scalar values, as [char] guarantees. *)
Definition is_scalar (c : N) : bool := (c <? 55296) || in_range 57344 1114111 c.
Definition wf_str (s : str) : Prop := Forall (λ c, is_scalar c = true) s.

(** A text whose every [%] starts an escape [%XX]. *)
Fixpoint escapes_complete (s : str) : bool :=
  match s with
  | [] => true
  | c :: s1 =>
      if c =? ch "%" then
        match s1 with
        | h :: l :: s2 => is_ascii_hexdigit h && is_ascii_hexdigit l && escapes_complete s2
        | _ => false
        end
      else escapes_complete s1
  end.

(** [utf8_percent_encode(_, ASSET_COMPONENT_ENCODE_SET)] and
    [percent_decode_str(_).decode_utf8()], with what their documentation says:
    the output consists of [%] escapes and of ASCII characters outside the set,
    and decoding undoes encoding. *)
Class PercentEncoding := {
  pct_encode : str → str;
  pct_decode_utf8 : str → option str;
  pct_encode_chars : ∀ s c, wf_str s → c ∈ pct_encode s →
    c = ch "%" ∨ (c < 128 ∧ ASSET_COMPONENT_ENCODE_SET c = false);
  pct_encode_escapes : ∀ s, wf_str s → escapes_complete (pct_encode s) = true;
  pct_decode_encode : ∀ s, wf_str s → pct_decode_utf8 (pct_encode s) = Some s;
}.

(** ** The crate's behaviour, concretely

    An executable instance of [PercentEncoding]: escape the bytes that are not
    ASCII or lie in the set; decode escapes and read the bytes as UTF-8. *)
Definition hex_upper (n : N) : N := if n <? 10 then 48 + n else 55 + n.

Definition hex_value (c : N) : N :=
  if is_ascii_digit c then c - 48 else if in_range 97 102 c then c - 87 else c - 55.

Definition pct_escape_byte (b : N) : str :=
  if (b <? 128) && negb (ASSET_COMPONENT_ENCODE_SET b) then [b]
  else [ch "%"; hex_upper (b / 16); hex_upper (b mod 16)].

Fixpoint pct_unescape (bs : list N) : list N :=
  match bs with
  | [] => []
  | b :: bs1 =>
      if b =? ch "%" then
        match bs1 with
        | h :: l :: bs2 =>
            if is_ascii_hexdigit h && is_ascii_hexdigit l
            then hex_value h * 16 + hex_value l :: pct_unescape bs2
            else b :: pct_unescape bs1
        | _ => b :: pct_unescape bs1
        end
      else b :: pct_unescape bs1
  end.

Definition std_pct_encode (s : str) : str := flat_map pct_escape_byte (as_bytes s).

Definition std_pct_decode (s : str) : option str :=
  let bs := pct_unescape (as_bytes s) in
  let r := utf8_decode bs in
  if (as_bytes r =?? bs) && forallb is_scalar r then Some r else None.

Inductive AssetRefError :=
  | InvalidFormat
  | UnsupportedVersion
  | InvalidOriginRuntimeId
  | InvalidSha256
  | InvalidPercentEncoding
  | InvalidUtf8
  | InvalidQuery
  | InvalidSize
  | EmptyFilename
  | FilenameTooLong
  | UnsafeFilename
  | EmptyMediaType
  | MediaTypeTooLong
  | InvalidMediaType
  | AssetTooLarge
  | IncompleteDimensions
  | InvalidDimensions
  | ReferenceTooLong
  | NonCanonical.

Record AssetRef := MkAssetRef {
  ar_version : N;
  ar_origin_runtime_id : str;
  ar_sha256 : str;
  ar_name : str;
  ar_media_type : str;
  ar_size : N;
  ar_width : option N;
  ar_height : option N;
}.

#[export] Instance AssetRef_eq_dec : EqDecision AssetRef.
Proof. solve_decision. Defined.

Section asset.
Context `{PE : !PercentEncoding}.

Definition AssetRef_to_string (a : AssetRef) : str :=
  lit "<^v" ++ fmt_N (ar_version a) ++ lit "/" ++ ar_origin_runtime_id a ++ lit "/sha256:" ++ ar_sha256 a
  ++ lit "?name=" ++ pct_encode (ar_name a) ++ lit "&type=" ++ pct_encode (ar_media_type a)
  ++ lit "&size=" ++ fmt_N (ar_size a)
  ++ match ar_width a with Some w => lit "&width=" ++ fmt_N w | None => [] end
  ++ match ar_height a with Some h => lit "&height=" ++ fmt_N h | None => [] end
  ++ lit ">".

Definition is_lower_hex (b : N) : bool := is_ascii_digit b || in_range 97 102 b.

Fixpoint uuid_bytes (index : nat) (bs : list N) : bool :=
  match bs with
  | [] => true
  | b :: bs' =>
      (if bool_decide (index ∈ [8; 13; 18; 23]%nat) then b =? ch "-" else is_lower_hex b)
      && uuid_bytes (S index) bs'
  end.

Definition is_canonical_uuid (value : str) : bool :=
  if negb (len value =? 36) then false else uuid_bytes 0 (as_bytes value).

Definition validate_filename (n : str) : res unit AssetRefError :=
  try? guard_err (is_empty n) EmptyFilename then
  try? guard_err (MAX_ASSET_FILENAME_BYTES <? len n) FilenameTooLong then
  guard_err (existsb (λ c, is_control c || (c =? ch "/") || (c =? ch "\")) n) UnsafeFilename.

Definition is_media_type_token_byte (b : N) : bool :=
  is_ascii_lowercase b || is_ascii_digit b || bool_decide (b ∈ lit "!#$%&'*+-.^_`|~").

Definition validate_media_type (m : str) : res unit AssetRefError :=
  try? guard_err (is_empty m) EmptyMediaType then
  try? guard_err (MAX_ASSET_MEDIA_TYPE_BYTES <? len m) MediaTypeTooLong then
  match split_once (lit "/") m with
  | None => Err InvalidMediaType
  | Some (type_name, subtype) =>
      guard_err (is_empty type_name || is_empty subtype
                 || negb (forallb is_media_type_token_byte (as_bytes type_name))
                 || negb (forallb is_media_type_token_byte (as_bytes subtype)))
        InvalidMediaType
  end.

Definition AssetRef_validate (a : AssetRef) : res unit AssetRefError :=
  try? guard_err (negb (ar_version a =? ASSET_REF_VERSION)) UnsupportedVersion then
  try? guard_err (negb (is_canonical_uuid (ar_origin_runtime_id a))) InvalidOriginRuntimeId then
  try? guard_err (negb (len (ar_sha256 a) =? 64) || negb (forallb is_lower_hex (as_bytes (ar_sha256 a))))
         InvalidSha256 then
  try? validate_filename (ar_name a) then
  try? validate_media_type (ar_media_type a) then
  try? guard_err (MAX_ASSET_BYTES <? ar_size a) AssetTooLarge then
  try? (match ar_width a, ar_height a with
        | None, None => Ok tt
        | Some w, Some h => if (0 <? w) && (0 <? h) then Ok tt else Err InvalidDimensions
        | _, _ => Err IncompleteDimensions
        end) then
  guard_err (MAX_ASSET_REF_BYTES <? len (AssetRef_to_string a)) ReferenceTooLong.

Definition query_value (field prefix : str) : res str AssetRefError :=
  ok_or (strip_prefix prefix field) InvalidQuery.

(** The byte loop of the source, on its bytes. *)
Fixpoint validate_percent_bytes (fuel : nat) (bs : list N) : res unit AssetRefError :=
  match fuel with
  | O => Ok tt
  | S fuel =>
      match bs with
      | [] => Ok tt
      | b :: bs1 =>
          if b =? ch "%" then
            match bs1 with
            | h :: l :: bs2 =>
                if negb (is_ascii_hexdigit h) || negb (is_ascii_hexdigit l)
                then Err InvalidPercentEncoding
                else validate_percent_bytes fuel bs2
            | _ => Err InvalidPercentEncoding
            end
          else validate_percent_bytes fuel bs1
      end
  end.

Definition validate_percent_encoding (value : str) : res unit AssetRefError :=
  validate_percent_bytes (length (as_bytes value)) (as_bytes value).

Definition decode_component (value : str) : res str AssetRefError :=
  try? validate_percent_encoding value then
  ok_or (pct_decode_utf8 value) InvalidUtf8.

Definition parse_path (path : str) : res (N * str * str) AssetRefError :=
  match split_char (ch "/") path with
  | [] => Err InvalidFormat
  | v :: rest =>
      let? ver := ok_or (parse_unsigned u8_MAX v) InvalidFormat in
      match rest with
      | [] => Err InvalidFormat
      | origin :: rest =>
          match rest with
          | [] => Err InvalidFormat
          | digest :: rest =>
              let? sha := ok_or (strip_prefix (lit "sha256:") digest) InvalidFormat in
              if is_empty rest then Ok (ver, origin, sha) else Err InvalidFormat
          end
      end
  end.

Definition parse_dimensions (fields : list str) : res (option N * option N) AssetRefError :=
  match fields with
  | [w; h] =>
      let? w := query_value w (lit "width=") in
      let? w := ok_or (parse_unsigned u32_MAX w) InvalidDimensions in
      let? h := query_value h (lit "height=") in
      let? h := ok_or (parse_unsigned u32_MAX h) InvalidDimensions in
      Ok (Some w, Some h)
  | _ => Ok (None, None)
  end.

Definition AssetRef_from_str (raw : str) : res AssetRef AssetRefError :=
  try? guard_err (MAX_ASSET_REF_BYTES <? len raw) ReferenceTooLong then
  let? inner := ok_or (strip_prefix (lit "<^v") raw ≫= strip_suffix (lit ">")) InvalidFormat in
  let? pq := ok_or (split_once (lit "?") inner) InvalidFormat in
  let '(path, query) := pq in
  let? vos := parse_path path in
  let '(ver, origin, sha) := vos in
  match split_char (ch "&") query with
  | f0 :: f1 :: f2 :: fs =>
      try? guard_err (negb ((length fs =? 0)%nat || (length fs =? 2)%nat)) InvalidQuery then
      let? encoded_name := query_value f0 (lit "name=") in
      let? encoded_media_type := query_value f1 (lit "type=") in
      let? size_text := query_value f2 (lit "size=") in
      let? sz := ok_or (parse_unsigned u64_MAX size_text) InvalidSize in
      let? wh := parse_dimensions fs in
      let? nm := decode_component encoded_name in
      let? mt := decode_component encoded_media_type in
      let parsed := MkAssetRef ver origin sha nm mt sz wh.1 wh.2 in
      try? AssetRef_validate parsed then
      if AssetRef_to_string parsed =?? raw then Ok parsed else Err NonCanonical
  | _ => Err InvalidQuery
  end.

(** ** Round trip *)

Lemma validate_percent_bytes_ok fuel bs :
  escapes_complete bs = true → (length bs ≤ fuel)%nat → validate_percent_bytes fuel bs = Ok tt.
Proof.
  revert bs. induction fuel as [|fuel IH]; intros [|b bs1] He Hl; simpl in *; try done.
  destruct (b =? 37); [|apply IH; [done|lia]].
  destruct bs1 as [|h [|l bs2]]; try done. simpl in *.
  apply andb_true_iff in He as [[-> ->]%andb_true_iff He]. simpl. apply IH; [done|lia].
Qed.

Lemma pct_encode_ascii s : wf_str s → Forall (λ c, c < 128) (pct_encode s).
Proof.
  intros Hs. apply Forall_forall. intros c [->|[Hc _]]%pct_encode_chars; [lia|done|done].
Qed.

Lemma decode_component_encode s : wf_str s → decode_component (pct_encode s) = Ok s.
Proof.
  intros Hs. unfold decode_component, validate_percent_encoding.
  rewrite as_bytes_ascii by by apply pct_encode_ascii.
  rewrite validate_percent_bytes_ok; [|by apply pct_encode_escapes|done]. simpl.
  by rewrite pct_decode_encode.
Qed.

Lemma pct_encode_no s c :
  wf_str s → ASSET_COMPONENT_ENCODE_SET c = true → c ≠ ch "%" → c ∉ pct_encode s.
Proof. intros Hs Hc Hne [->|[_ Hf]]%pct_encode_chars; [congruence..|done]. Qed.

Lemma fmt_N_no c n : is_ascii_digit c = false → c ∉ fmt_N n.
Proof. apply all_digits_no, fmt_N_spec. Qed.

Lemma as_bytes_lt128 s c : c ∈ s → Forall (λ b, b < 128) (as_bytes s) → c < 128.
Proof.
  intros (a & b & ->)%list_elem_of_split. rewrite as_bytes_app. simpl.
  rewrite !Forall_app. intros (_ & Hc & _).
  revert Hc. unfold utf8_encode. destruct (N.ltb_spec c 128) as [|Hge]; [done|]. intros Hc.
  destruct (c <? 2048), (c <? 65536); apply Forall_cons in Hc as [Hc _]; cbn beta in Hc;
    match type of Hc with context [c `div` ?k] => generalize dependent (c `div` k) end; lia.
Qed.

(** A text whose bytes are all ASCII is its own byte string. *)
Lemma ascii_bytes s (p : N → bool) :
  (∀ b, p b = true → b < 128) → forallb p (as_bytes s) = true →
  Forall (λ c, p c = true) s ∧ as_bytes s = s.
Proof.
  intros Hp H%forallb_Forall. assert (Forall (λ c, c < 128) s) as Ha.
  { apply Forall_forall. intros c Hc. eapply as_bytes_lt128; [done|].
    eapply Forall_impl; [exact H|]. intros b Hb. by apply Hp. }
  by rewrite as_bytes_ascii in H |- *.
Qed.

Lemma is_lower_hex_lt b : is_lower_hex b = true → b < 128.
Proof. unfold is_lower_hex, is_ascii_digit, in_range. lia. Qed.

Lemma uuid_bytes_elem index bs b :
  uuid_bytes index bs = true → b ∈ bs → b = ch "-" ∨ is_lower_hex b = true.
Proof.
  revert index. induction bs as [|x bs IH]; intros index; simpl.
  { intros _ Hin. by apply not_elem_of_nil in Hin. }
  intros [Hx Hbs]%andb_true_iff [->|Hin]%elem_of_cons; [|by eapply IH].
  case_bool_decide; [left; lia|by right].
Qed.

Lemma uuid_no c value :
  is_canonical_uuid value = true → c < 128 → c ≠ ch "-" → is_lower_hex c = false → c ∉ value.
Proof.
  unfold is_canonical_uuid. case_match; [done|]. intros Hu Hc Hne Hh Hin.
  destruct (uuid_bytes_elem 0 (as_bytes value) c) as [|]; [done| |done|congruence].
  apply list_elem_of_split in Hin as (a & b & ->). rewrite as_bytes_app. simpl.
  unfold utf8_encode. rewrite (proj2 (N.ltb_lt c 128) Hc). set_solver.
Qed.

Lemma sha_no c value :
  forallb is_lower_hex (as_bytes value) = true → is_lower_hex c = false → c ∉ value.
Proof.
  intros [H _]%ascii_bytes Hc Hin; [|apply is_lower_hex_lt].
  rewrite Forall_forall in H. apply H in Hin. congruence.
Qed.

(** What the Rust types of the fields guarantee. *)
Definition AssetRef_typed (a : AssetRef) : Prop :=
  wf_str (ar_name a) ∧ wf_str (ar_media_type a) ∧
  (∀ w, ar_width a = Some w → w ≤ u32_MAX) ∧ (∀ h, ar_height a = Some h → h ≤ u32_MAX).

Lemma parse_path_print ver origin sha :
  ver ≤ u8_MAX → ch "/" ∉ origin → ch "/" ∉ sha →
  parse_path (fmt_N ver ++ ch "/" :: origin ++ ch "/" :: lit "sha256:" ++ sha) = Ok (ver, origin, sha).
Proof.
  intros Hv Ho Hs. unfold parse_path.
  rewrite split_char_cons by by apply fmt_N_no.
  rewrite parse_fmt_N by done. simpl res_bind.
  rewrite split_char_cons by done. rewrite split_char_nosep by set_solver. done.
Qed.

Lemma parse_query_print name media size (dims : list str) :
  wf_str name → wf_str media → Forall (λ d, ch "&" ∉ d) dims →
  split_char (ch "&") (lit "name=" ++ pct_encode name ++ ch "&" :: lit "type=" ++ pct_encode media
                       ++ ch "&" :: lit "size=" ++ fmt_N size ++ concat (map (cons (ch "&")) dims))
  = (lit "name=" ++ pct_encode name) :: (lit "type=" ++ pct_encode media)
    :: (lit "size=" ++ fmt_N size) :: dims.
Proof.
  intros Hn Hm Hd.
  assert (∀ s, wf_str s → ch "&" ∉ pct_encode s) as He by (intros s Hws; by apply pct_encode_no).
  assert (ch "&" ∉ lit "size=" ++ fmt_N size) as Hs.
  { rewrite elem_of_app. intros [Hin|Hin]; [set_solver|by apply fmt_N_no in Hin]. }
  assert (∀ a, ch "&" ∉ a → split_char (ch "&") (a ++ concat (map (cons (ch "&")) dims)) = a :: dims) as Htl.
  { induction Hd as [|d dims Hx _ IH]; intros a Ha; simpl.
    - by rewrite app_nil_r, split_char_nosep.
    - by rewrite split_char_cons, IH. }
  rewrite app_assoc, split_char_cons by (rewrite elem_of_app; pose proof (He _ Hn); pose proof (He _ Hm); set_solver).
  rewrite app_assoc, split_char_cons by (rewrite elem_of_app; pose proof (He _ Hn); pose proof (He _ Hm); set_solver).
  by rewrite app_assoc, Htl.
Qed.

(** The dimension fields of the query, as printed. *)
Definition dimension_fields (a : AssetRef) : list str :=
  match ar_width a with Some w => [lit "width=" ++ fmt_N w] | None => [] end
  ++ match ar_height a with Some h => [lit "height=" ++ fmt_N h] | None => [] end.

Lemma AssetRef_to_string_shape a :
  AssetRef_to_string a =
  lit "<^v" ++ ((fmt_N (ar_version a) ++ ch "/" :: ar_origin_runtime_id a ++ ch "/" :: lit "sha256:" ++ ar_sha256 a)
  ++ ch "?" :: (lit "name=" ++ pct_encode (ar_name a) ++ ch "&" :: lit "type=" ++ pct_encode (ar_media_type a)
  ++ ch "&" :: lit "size=" ++ fmt_N (ar_size a) ++ concat (map (cons (ch "&")) (dimension_fields a)))) ++ lit ">".
Proof.
  unfold AssetRef_to_string, dimension_fields.
  destruct (ar_width a), (ar_height a); simpl; repeat (rewrite <-app_assoc; simpl); done.
Qed.

Lemma parse_dimensions_print a :
  AssetRef_typed a →
  (ar_width a = None ↔ ar_height a = None) →
  parse_dimensions (dimension_fields a) = Ok (ar_width a, ar_height a)
  ∧ (length (dimension_fields a) = 0 ∨ length (dimension_fields a) = 2)%nat
  ∧ Forall (λ d, ch "&" ∉ d) (dimension_fields a).
Proof.
  intros (_ & _ & Hw & Hh) Hiff. unfold dimension_fields.
  destruct (ar_width a) as [w|], (ar_height a) as [h|]; try naive_solver.
  simpl. unfold query_value.
  split_and!; [|by right|].
  - simpl. by rewrite !parse_fmt_N by auto.
  - repeat constructor; rewrite ?elem_of_cons; intros Hin;
      repeat (destruct Hin as [Hin|Hin]; [done|]); by apply fmt_N_no in Hin.
Qed.

Lemma AssetRef_validate_parts a :
  AssetRef_validate a = Ok tt →
  ar_version a = 1 ∧ is_canonical_uuid (ar_origin_runtime_id a) = true
  ∧ forallb is_lower_hex (as_bytes (ar_sha256 a)) = true
  ∧ ar_size a ≤ MAX_ASSET_BYTES ∧ (ar_width a = None ↔ ar_height a = None)
  ∧ len (AssetRef_to_string a) ≤ MAX_ASSET_REF_BYTES.
Proof.
  unfold AssetRef_validate. intros H. rewrite !try_Ok, !guard_err_Ok in H.
  destruct H as (Hv & Hu & Hs & _ & _ & Hsz & Hd & Hl).
  split_and!; [unfold ASSET_REF_VERSION in Hv; lia|by destruct (is_canonical_uuid _)| |lia| |lia].
  - apply orb_false_iff in Hs as [_ Hs]. by destruct (forallb _ _).
  - destruct (ar_width a), (ar_height a); naive_solver.
Qed.

Lemma AssetRef_from_str_print a :
  AssetRef_typed a → AssetRef_validate a = Ok tt → AssetRef_from_str (AssetRef_to_string a) = Ok a.
Proof.
  intros Ht Hv. destruct (AssetRef_validate_parts a Hv) as (Hver & Hu & Hs & Hsz & Hd & Hl).
  destruct (parse_dimensions_print a Ht Hd) as (Hpd & Hlen & Hamp).
  unfold AssetRef_from_str.
  rewrite (proj2 (N.ltb_ge _ _)) by done. cbn [guard_err res_bind].
  rewrite (AssetRef_to_string_shape a) at 1. rewrite strip_prefix_app. cbn [mbind option_bind].
  rewrite (proj2 (strip_suffix_Some _ _ _) eq_refl). cbn [ok_or res_bind].
  rewrite split_once_char; last first.
  { rewrite !elem_of_app, !elem_of_cons, !elem_of_app, !elem_of_cons, !elem_of_app.
    intros [Hin|[|[Hin|[|[Hin|Hin]]]]]; try done.
    - by apply fmt_N_no in Hin.
    - revert Hin. by apply uuid_no.
    - set_solver.
    - revert Hin. by apply sha_no. }
  cbn [ok_or res_bind].
  rewrite parse_path_print; [|by rewrite Hver|by apply uuid_no|by apply sha_no].
  destruct Ht as (Hn & Hm & _).
  cbn [res_bind]. rewrite parse_query_print by done.
  replace (negb _) with false by (destruct Hlen as [->| ->]; done). cbn [guard_err res_bind].
  unfold query_value. rewrite !strip_prefix_app. cbn [ok_or res_bind].
  rewrite parse_fmt_N by (unfold MAX_ASSET_BYTES, u64_MAX in *; lia). cbn [ok_or res_bind].
  rewrite Hpd. cbn [res_bind]. rewrite !decode_component_encode by done. cbn [res_bind fst snd].
  replace (MkAssetRef _ _ _ _ _ _ _ _) with a by by destruct a.
  rewrite Hv. cbn [res_bind]. by rewrite bool_decide_eq_true_2.
Qed.

Lemma AssetRef_from_str_sound raw a :
  AssetRef_from_str raw = Ok a → AssetRef_validate a = Ok tt ∧ AssetRef_to_string a = raw.
Proof.
  unfold AssetRef_from_str. intros H.
  rewrite try_Ok, res_bind_Ok in H. destruct H as (_ & inner & _ & H).
  rewrite res_bind_Ok in H. destruct H as ([path query] & _ & H).
  rewrite res_bind_Ok in H. destruct H as ([[ver origin] sha] & _ & H).
  destruct (split_char _ query) as [|f0 [|f1 [|f2 fs]]]; try done.
  rewrite try_Ok in H. destruct H as [_ H].
  do 7 (rewrite res_bind_Ok in H; destruct H as (? & _ & H)).
  rewrite try_Ok in H. destruct H as [Hv H].
  case_bool_decide; [|done]. by injection H as <-.
Qed.

(** The canonical text of an attachment reference determines the reference
    and back.  [AssetRef::from_str] accepts a text with the value [a] exactly
    when [a] passes [validate] and the text is what [Display] prints for [a]. *)
Theorem asset_ref_canonical raw a :
  AssetRef_typed a →
  AssetRef_from_str raw = Ok a ↔ AssetRef_validate a = Ok tt ∧ AssetRef_to_string a = raw.
Proof.
  intros Ht. split; [apply AssetRef_from_str_sound|].
  intros [Hv <-]. by apply AssetRef_from_str_print.
Qed.
End asset.

(** ** The concrete instance meets the laws *)

Lemma hex_upper_spec n : n < 16 →
  is_ascii_hexdigit (hex_upper n) = true ∧ hex_value (hex_upper n) = n ∧ hex_upper n < 128
  ∧ ASSET_COMPONENT_ENCODE_SET (hex_upper n) = false.
Proof.
  intros Hn. assert (n ∈ [0;1;2;3;4;5;6;7;8;9;10;11;12;13;14;15]) as Hin
    by (rewrite !elem_of_cons; lia).
  clear Hn. revert n Hin. apply Forall_forall. repeat constructor.
Qed.

Lemma pct_unescape_escape b rest :
  b < 256 → pct_unescape (pct_escape_byte b ++ rest) = b :: pct_unescape rest.
Proof.
  intros Hb. unfold pct_escape_byte. destruct (_ && _) eqn:E.
  - simpl. destruct (N.eqb_spec b 37) as [->|]; [done|done].
  - destruct (hex_upper_spec (b / 16)) as (H1 & V1 & _); [apply N.Div0.div_lt_upper_bound; lia|].
    destruct (hex_upper_spec (b mod 16)) as (H2 & V2 & _); [by apply N.mod_lt|].
    simpl. rewrite H1, H2, V1, V2. simpl. f_equal.
    rewrite N.mul_comm. symmetry. by apply N.div_mod.
Qed.

Lemma utf8_encode_byte c : is_scalar c = true → Forall (λ b, b < 256) (utf8_encode c).
Proof.
  unfold is_scalar, in_range, utf8_encode. intros Hc.
  assert (∀ n, n mod 64 < 64) by (intros; by apply N.mod_lt).
  assert (c < 1114112) by lia.
  repeat case_match; repeat constructor; cbn beta;
    try (pose proof (N.mod_lt c 64 ltac:(done)); pose proof (N.mod_lt (c/64) 64 ltac:(done));
         pose proof (N.mod_lt (c/4096) 64 ltac:(done)); lia).
Qed.

Lemma add_mod_small b a m : b mod m = 0 → a < m → (b + a) mod m = a.
Proof. intros Hm Ha. rewrite N.Div0.add_mod, Hm, N.add_0_l, N.Div0.mod_mod. by apply N.mod_small. Qed.

Lemma utf8_decode_encode c rest :
  is_scalar c = true → utf8_decode (utf8_encode c ++ rest) = c :: utf8_decode rest.
Proof.
  unfold is_scalar, in_range. intros Hc. assert (c < 1114112) as Hlt by lia.
  pose proof (N.div_mod c 64 ltac:(done)) as D0. pose proof (N.mod_lt c 64 ltac:(done)) as M0.
  pose proof (N.div_mod (c / 64) 64 ltac:(done)) as D1. pose proof (N.mod_lt (c / 64) 64 ltac:(done)) as M1.
  pose proof (N.div_mod (c / 4096) 64 ltac:(done)) as D2. pose proof (N.mod_lt (c / 4096) 64 ltac:(done)) as M2.
  assert (c / 64 / 64 = c / 4096) as E1 by (by rewrite N.Div0.div_div).
  assert (c / 4096 / 64 = c / 262144) as E2 by (by rewrite N.Div0.div_div).
  rewrite E1 in D1. rewrite E2 in D2.
  unfold utf8_encode.
  revert D0 M0 D1 M1 D2 M2. generalize (c mod 64) as r0, ((c / 64) mod 64) as r1, ((c / 4096) mod 64) as r2.
  generalize (c / 64) as q0. generalize (c / 4096) as q1. generalize (c / 262144) as q2.
  intros q2 q1 q0 r0 r1 r2 D0 M0 D1 M1 D2 M2. clear E1 E2 Hc.
  assert (∀ r, r < 64 → (128 + r) mod 64 = r) as Hr by (intros r Hrr; by apply add_mod_small).
  destruct (N.ltb_spec c 128) as [H1|H1]; [|destruct (N.ltb_spec c 2048) as [H2|H2];
    [|destruct (N.ltb_spec c 65536) as [H3|H3]]]; simpl app; cbn [utf8_decode].
  - by rewrite (proj2 (N.ltb_lt _ _) H1).
  - rewrite (proj2 (N.ltb_ge _ _)), (proj2 (N.ltb_lt _ _)) by lia.
    rewrite (add_mod_small _ q0 32), Hr by (done || lia). f_equal. lia.
  - rewrite (proj2 (N.ltb_ge _ 128)), (proj2 (N.ltb_ge _ 224)), (proj2 (N.ltb_lt _ _)) by lia.
    rewrite (add_mod_small _ q1 16), !Hr by (done || lia). f_equal. lia.
  - rewrite (proj2 (N.ltb_ge _ 128)), (proj2 (N.ltb_ge _ 224)), (proj2 (N.ltb_ge _ _)) by lia.
    rewrite (add_mod_small _ q2 8), !Hr by (done || lia). f_equal. lia.
Qed.

Lemma utf8_roundtrip s : wf_str s → utf8_decode (as_bytes s) = s.
Proof.
  induction 1 as [|c s Hc Hs IH]; [done|]. unfold as_bytes. simpl.
  rewrite utf8_decode_encode by done. by f_equal.
Qed.

Lemma pct_escape_byte_chars b c : b < 256 → c ∈ pct_escape_byte b →
  c = ch "%" ∨ (c < 128 ∧ ASSET_COMPONENT_ENCODE_SET c = false).
Proof.
  intros Hb. unfold pct_escape_byte. destruct (_ && _) eqn:E.
  - intros ->%list_elem_of_singleton. right. apply andb_true_iff in E as [E1 E2].
    split; [lia|]. by destruct (ASSET_COMPONENT_ENCODE_SET b).
  - destruct (hex_upper_spec (b / 16)) as (_ & _ & L1 & S1); [apply N.Div0.div_lt_upper_bound; lia|].
    destruct (hex_upper_spec (b mod 16)) as (_ & _ & L2 & S2); [by apply N.mod_lt|].
    rewrite !elem_of_cons. intros [->|[->|[->|Hn]]]; [by left|by right|by right|].
    by apply not_elem_of_nil in Hn.
Qed.

Lemma as_bytes_byte s : wf_str s → Forall (λ b, b < 256) (as_bytes s).
Proof.
  induction 1 as [|c s Hc Hs IH]; [constructor|]. apply Forall_app. split; [|done].
  by apply utf8_encode_byte.
Qed.

Lemma escapes_complete_escape b rest :
  b < 256 → escapes_complete (pct_escape_byte b ++ rest) = escapes_complete rest.
Proof.
  intros Hb. unfold pct_escape_byte. destruct (_ && _) eqn:E; simpl.
  - destruct (N.eqb_spec b 37) as [->|]; done.
  - destruct (hex_upper_spec (b / 16)) as (-> & _); [apply N.Div0.div_lt_upper_bound; lia|].
    by destruct (hex_upper_spec (b mod 16)) as (-> & _); [apply N.mod_lt|].
Qed.

Lemma pct_unescape_bytes bs :
  Forall (λ b, b < 256) bs → pct_unescape (flat_map pct_escape_byte bs) = bs.
Proof.
  induction 1 as [|b bs Hb _ IH]; [done|]. simpl. by rewrite pct_unescape_escape, IH.
Qed.

Lemma std_pct_encode_chars s c : wf_str s → c ∈ std_pct_encode s →
  c = ch "%" ∨ (c < 128 ∧ ASSET_COMPONENT_ENCODE_SET c = false).
Proof.
  intros Hs (b & Hb%list_elem_of_In & Hc%list_elem_of_In)%list_elem_of_In%in_flat_map.
  eapply pct_escape_byte_chars; [|done].
  by apply (proj1 (Forall_forall _ _) (as_bytes_byte s Hs)).
Qed.

Lemma std_pct_encode_ascii s : wf_str s → Forall (λ c, c < 128) (std_pct_encode s).
Proof.
  intros Hs. apply Forall_forall. intros c [->|[? _]]%std_pct_encode_chars; done.
Qed.

Definition std_percent_encoding : PercentEncoding.
Proof.
  refine {| pct_encode := std_pct_encode; pct_decode_utf8 := std_pct_decode |}.
  - exact std_pct_encode_chars.
  - intros s Hs. unfold std_pct_encode.
    induction (as_bytes_byte s Hs) as [|b bs Hb _ IH]; [done|]. simpl. by rewrite escapes_complete_escape.
  - intros s Hs. unfold std_pct_decode.
    rewrite (as_bytes_ascii (std_pct_encode s)) by by apply std_pct_encode_ascii.
    unfold std_pct_encode. rewrite pct_unescape_bytes by by apply as_bytes_byte.
    rewrite utf8_roundtrip by done. rewrite bool_decide_eq_true_2 by done.
    by rewrite (proj2 (forallb_Forall _ _)).
Defined.

(** A reference with a non-ASCII filename and dimensions. *)
Definition sample_asset : AssetRef :=
  MkAssetRef 1 (lit "0f6d2c1e-9a4b-4c3d-8e5f-001122334455")
    (lit "e3b0c44298fc1c149afbf4c8996fb92427ae41e4649b934ca495991b7852b855")
    (lit "a b&ü.png") (lit "image/png") 2048 (Some 640) (Some 480).

Lemma asset_ref_canonical_witness :
  @AssetRef_from_str std_percent_encoding
    (lit "<^v1/0f6d2c1e-9a4b-4c3d-8e5f-001122334455/sha256:e3b0c44298fc1c149afbf4c8996fb92427ae41e4649b934ca495991b7852b855?name=a%20b%26%C3%BC.png&type=image%2Fpng&size=2048&width=640&height=480>")
  = Ok sample_asset.
Proof.
  apply asset_ref_canonical; [|split; vm_compute; reflexivity].
  split_and!; [repeat constructor|repeat constructor|by intros w [= <-]|by intros h [= <-]].
Defined.
