(* ===== verification/Links.v ===== *)
(** * Mentions and links

    What a message body refers to: [<@handler>] mentions and channel, message,
    card, user, soft, asset and quick-session links
    ([gitim-core/src/mention.rs], [gitim-core/src/link.rs],
    [gitim-core/src/types/link.rs]).  Each regular expression is an executable
    matcher at one position; [captures_iter] is the leftmost, non-overlapping
    iteration of [Regex::captures_iter]. *)

From S2P Require Import Prelude RustStr StrFacts Names QuickSession Asset.
From stdpp Require Import options.
Open Scope N_scope.
Open Scope list_scope.

(** ** Matching *)

(** [re.captures_iter(s)] for a matcher [m] that gives, at the start of its
    argument, the captures and the matched text.  Results carry the byte
    offset of the match; [skip] characters belong to the previous match. *)
Fixpoint captures_iter {C} (m : str → option (C * str)) (skip : nat) (off : N) (s : str)
  : list (N * C * str) :=
  match s with
  | [] => []
  | c :: s' =>
      let off' := off + N.of_nat (length (utf8_encode c)) in
      match skip with
      | S k => captures_iter m k off' s'
      | O => match m s with
             | Some (cap, w) => (off, cap, w) :: captures_iter m (length w - 1)%nat off' s'
             | None => captures_iter m 0 off' s'
             end
      end
  end.

(** ** Mentions *)

(** [<@([a-z0-9]([a-z0-9-]*[a-z0-9])?)>] at the start of [s]. *)
Definition MENTION_RE (s : str) : option (str * str) :=
  match strip_prefix (lit "<@") s with
  | None => None
  | Some r =>
      let '(raw, r') := span is_slug_char r in
      match strip_prefix (lit ">") r' with
      | Some _ =>
          if is_some_and (head raw) is_word_char && is_some_and (last raw) is_word_char
          then Some (raw, lit "<@" ++ raw ++ lit ">") else None
      | None => None
      end
  end.

(** The loop of [extract_mentions] over the captured names. *)
Fixpoint collect_mentions (raws : list str) (seen : gset str) : list Handler :=
  match raws with
  | [] => []
  | raw :: raws' =>
      if bool_decide (raw ∈ seen) then collect_mentions raws' seen
      else match Handler_new raw with
           | Ok handler => handler :: collect_mentions raws' ({[raw]} ∪ seen)
           | _ => collect_mentions raws' seen
           end
  end.

Definition extract_mentions (body : str) : list Handler :=
  collect_mentions (map (λ m, m.1.2) (captures_iter MENTION_RE 0 0 body)) ∅.

(** ** Links *)

Inductive LinkKind :=
  | LinkChannel (name : str)
  | LinkMessage (channel : str) (line_number : N)
  | LinkCard (channel card_id : str) (line_number : option N) (label : option str)
  | LinkQuickSession (session_id : str) (line_number : option N)
  | LinkUserProfile (handler : Handler)
  | LinkSoftlink (url : str) (title : option str)
  | LinkAsset (asset : AssetRef).

Record Link := MkLink { link_kind : LinkKind; link_raw : str }.

#[export] Instance LinkKind_eq_dec : EqDecision LinkKind.
Proof. solve_decision. Defined.
#[export] Instance Link_eq_dec : EqDecision Link.
Proof. solve_decision. Defined.

(** The captures of [LINK_RE]: groups 1 and 2, or group 3. *)
Inductive LinkCaptures :=
  | CapPrefixed (prefix : char) (content : str)
  | CapAsset (content : str).

Definition is_link_prefix (c : char) : bool := (c =? ch "#") || (c =? ch "~") || (c =? ch "!").

(** [<([#~!])([^>\n]+)>|<\^([^<>\n]+)>]. *)
Definition LINK_RE (s : str) : option (LinkCaptures * str) :=
  match strip_prefix (lit "<") s with
  | Some (c :: r) =>
      if is_link_prefix c then
        let '(content, r') := span (λ x, negb (x =? ch ">") && negb (x =? nl)) r in
        match content, strip_prefix (lit ">") r' with
        | _ :: _, Some _ => Some (CapPrefixed c content, ch "<" :: c :: content ++ lit ">")
        | _, _ => None
        end
      else if c =? ch "^" then
        let '(content, r') := span (λ x, negb (x =? ch "<") && negb (x =? ch ">") && negb (x =? nl)) r in
        match content, strip_prefix (lit ">") r' with
        | _ :: _, Some _ => Some (CapAsset content, ch "<" :: c :: content ++ lit ">")
        | _, _ => None
        end
      else None
  | _ => None
  end.

(** [session:(qs-[0-9A-HJKMNP-TV-Z]{26})(?::L([0-9]{6,}))?]. *)
Definition QUICK_SESSION_LINK_RE (s : str) : option ((str * option str) * str) :=
  match strip_prefix (lit "session:qs-") s with
  | None => None
  | Some r =>
      let value := take 26 r in
      if ((length value =? 26)%nat && forallb is_opaque_byte value) then
        let id := lit "qs-" ++ value in
        match strip_prefix (lit ":L") (drop 26 r) with
        | Some r2 =>
            let '(digits, _) := span is_ascii_digit r2 in
            if (6 <=? length digits)%nat
            then Some ((id, Some digits), lit "session:" ++ id ++ lit ":L" ++ digits)
            else Some ((id, None), lit "session:" ++ id)
        | None => Some ((id, None), lit "session:" ++ id)
        end
      else None
  end.

Section links.
Context `{UC : !Unicode} `{PE : !PercentEncoding}.

(** [^(.+):L(\d{6,})$] with group 1 over the characters [p]: the digits are the
    longest run of digits that ends the text. *)
Definition line_suffix (p : char → bool) (s : str) : option (str * str) :=
  let '(rdigits, r) := span is_nd (reverse s) in
  match strip_prefix (lit "L:") r with
  | Some r' =>
      if (6 <=? length rdigits)%nat && negb (is_empty r') && forallb p r'
      then Some (reverse r', reverse rdigits) else None
  | None => None
  end.

Definition MSG_LINK_RE (s : str) : option (str * str) := line_suffix (λ c, negb (c =? nl)) s.
Definition CARD_LINE_RE (s : str) : option (str * str) := line_suffix (λ c, negb (c =? ch ":")) s.

Definition split_label (content : str) : str * option str :=
  match split_once (lit "|") content with
  | Some (a, b) => (a, Some b)
  | None => (content, None)
  end.

Definition validate_channel_name (name : str) : bool := is_ok (ChannelName_new name).

Definition parse_card_link (target : str) (label : option str) : option LinkKind :=
  '(channel, card_target) ← split_once (lit "/") target;
  if contains card_target (lit "/") then None else
  if negb (validate_channel_name channel) then None else
  '(card_id, line_number) ←
    match CARD_LINE_RE card_target with
    | Some (card_id, digits) => n ← parse_unsigned u64_MAX digits; Some (card_id, Some n)
    | None => Some (card_target, None)
    end;
  if negb (is_ok (validate_card_id card_id)) then None else
  Some (LinkCard channel card_id line_number label).

Definition parse_channel_or_message (content : str) : option LinkKind :=
  let '(target, label) := split_label content in
  if contains target (lit "/") then parse_card_link target label else
  if is_some label then None else
  match MSG_LINK_RE target with
  | Some (channel, digits) =>
      line_number ← parse_unsigned u64_MAX digits;
      if validate_channel_name channel then Some (LinkMessage channel line_number) else None
  | None => if validate_channel_name target then Some (LinkChannel target) else None
  end.

Definition parse_user_profile (content : str) : option LinkKind :=
  LinkUserProfile <$> res_ok (Handler_new content).

Definition parse_softlink (content : str) : option LinkKind :=
  match split_once (lit "|") content with
  | Some (url, title) => if is_empty url then None else Some (LinkSoftlink url (Some title))
  | None => Some (LinkSoftlink content None)
  end.

Definition parse_asset (raw : str) : option LinkKind :=
  LinkAsset <$> res_ok (AssetRef_from_str raw).

Definition invalid_boundary (c : char) : bool :=
  is_alphanumeric c || (c =? ch "_") || (c =? ch "-") || (c =? ch "/") || (c =? ch "\").

Definition valid_quick_session_ref_boundaries (body : str) (start end_ : N) : bool :=
  if is_some_and (last (slice_to start body)) invalid_boundary
     || is_some_and (head (slice_from end_ body)) invalid_boundary
  then false
  else negb (starts_with (slice_from end_ body) (lit ":L")).

Definition link_of_captures (m : N * LinkCaptures * str) : option (N * Link) :=
  let '(start, caps, raw) := m in
  kind ← match caps with
         | CapPrefixed prefix content =>
             if prefix =? ch "#" then parse_channel_or_message content
             else if prefix =? ch "~" then parse_user_profile content
             else if prefix =? ch "!" then parse_softlink content
             else None
         | CapAsset _ => parse_asset raw
         end;
  Some (start, MkLink kind raw).

Definition quick_session_link (body : str) (m : N * (str * option str) * str) : option (N * Link) :=
  let '(start, (session_id, digits), raw) := m in
  if negb (valid_quick_session_ref_boundaries body start (start + len raw)) then None else
  if negb (is_ok (validate_quick_session_id session_id)) then None else
  line_number ← match digits with
                | Some value => n ← parse_unsigned u64_MAX value; Some (Some n)
                | None => Some None
                end;
  Some (start, MkLink (LinkQuickSession session_id line_number) raw).

Definition extract_links (body : str) : list Link :=
  let result := omap link_of_captures (captures_iter LINK_RE 0 0 body)
                ++ omap (quick_session_link body) (captures_iter QUICK_SESSION_LINK_RE 0 0 body) in
  map snd (sort_by_key (λ a b : N * Link, a.1 <=? b.1) result).

(** ** Facts about matching *)

(** What a matcher returns is a non-empty prefix of its argument. *)
Definition prefix_matcher {C} (m : str → option (C * str)) : Prop :=
  ∀ s c w, m s = Some (c, w) → w ≠ [] ∧ (∃ t, s = w ++ t).

Lemma captures_iter_sound {C} (m : str → option (C * str)) skip off s start c w :
  (start, c, w) ∈ captures_iter m skip off s →
  ∃ pre post, s = pre ++ post ∧ start = off + len pre ∧ (m post = Some (c, w)).
Proof.
  revert skip off. induction s as [|x s IH]; intros skip off; simpl.
  { intros H. by apply not_elem_of_nil in H. }
  assert (∀ k, (start, c, w) ∈ captures_iter m k (off + N.of_nat (length (utf8_encode x))) s →
     ∃ pre post, x :: s = pre ++ post ∧ start = off + len pre ∧ m post = Some (c, w)) as Htl.
  { intros k (pre & post & -> & -> & Hm)%IH. exists (x :: pre), post.
    split_and!; [done| |done]. rewrite len_cons. lia. }
  destruct skip as [|k]; [|apply Htl]. destruct (m (x :: s)) as [[c' w']|] eqn:E; [|apply Htl].
  intros [[= -> -> ->]|Hin]%elem_of_cons; [|by eapply Htl].
  exists [], (x :: s). split_and!; [done|by rewrite N.add_0_r|done].
Qed.

(** A matcher whose matches start with a delimiter they do not repeat misses
    no occurrence: matches cannot overlap. *)
Lemma captures_iter_complete {C} (m : str → option (C * str)) (d : char) :
  (∀ s c w, m s = Some (c, w) → ∃ w' t, w = d :: w' ∧ (d ∉ w') ∧ s = w ++ t) →
  ∀ pre post c w skip off,
    m post = Some (c, w) → d ∉ take skip pre → (skip ≤ length pre)%nat →
    ∃ start, (start, c, w) ∈ captures_iter m skip off (pre ++ post).
Proof.
  intros Hm pre post c w. induction pre as [|x pre IH]; intros skip off Hpost Hskip Hle.
  - simpl in Hle. assert (skip = 0)%nat as -> by lia.
    destruct (Hm _ _ _ Hpost) as (w' & t & -> & Hd & ->). simpl. simpl in Hpost.
    rewrite Hpost. eexists. by left.
  - simpl. destruct skip as [|k].
    + destruct (m (x :: pre ++ post)) as [[c' w']|] eqn:E.
      * destruct (Hm _ _ _ E) as (w'' & t & -> & Hd & Heq). simpl in Heq. injection Heq as -> Heq.
        assert (length w'' ≤ length pre)%nat as Hle'.
        { destruct (decide (length w'' ≤ length pre)%nat) as [|Hgt]; [done|].
          destruct (Hm _ _ _ Hpost) as (w3 & t3 & -> & _ & ->).
          assert (d ∈ w'') as Hin; [|done].
          apply (f_equal (λ l : str, l !! length pre)) in Heq.
          rewrite lookup_app_r in Heq by lia. rewrite Nat.sub_diag in Heq. simpl in Heq.
          rewrite lookup_app_l in Heq by lia.
          eapply list_elem_of_lookup_2. by symmetry. }
        destruct (IH (length (d :: w'') - 1)%nat (off + N.of_nat (length (utf8_encode d)))) as [st Hst];
          [done| |simpl; lia|by exists st; right].
        simpl. rewrite Nat.sub_0_r. intros Hin. apply Hd.
        apply (f_equal (take (length w''))) in Heq.
        rewrite take_app_le, take_app_length in Heq by done. by rewrite <-Heq.
      * apply IH; [done| |lia]. simpl. apply not_elem_of_nil.
    + apply IH; [done| |simpl in Hle; lia]. simpl in Hskip. set_solver.
Qed.

Lemma MENTION_RE_Some s raw w :
  MENTION_RE s = Some (raw, w) →
  w = lit "<@" ++ raw ++ lit ">" ∧ Forall (λ c, is_slug_char c = true) raw ∧ ∃ t, s = w ++ t.
Proof.
  unfold MENTION_RE. destruct (strip_prefix _ s) as [r|] eqn:E; [|done].
  apply strip_prefix_Some in E as ->. destruct (span is_slug_char r) as [a b] eqn:Es.
  apply span_spec in Es as (-> & Ha & _).
  destruct (strip_prefix _ b) as [t|] eqn:Eb; [|done]. apply strip_prefix_Some in Eb as ->.
  case_match; [|done]. intros [= <- <-]. split_and!; [done|done|].
  exists t. by rewrite (app_assoc a).
Qed.

Lemma slug_boundary_words s :
  slug s → is_some_and (head s) is_word_char && is_some_and (last s) is_word_char = true.
Proof.
  intros Hs. assert (∀ c, c ∈ s → c ≠ ch "-" → is_word_char c = true) as Hw.
  { intros c Hc Hne. pose proof (slug_chars s Hs) as Hall. rewrite Forall_forall in Hall.
    apply Hall, is_slug_char_split in Hc as [|]; done. }
  apply andb_true_iff. split.
  - destruct s as [|c r] eqn:E; [by apply slug_nonempty in Hs|]. simpl.
    apply Hw; [by left|by eapply slug_first].
  - destruct (exists_last (slug_nonempty s Hs)) as (a & c & ->). rewrite last_snoc. simpl.
    apply Hw; [set_solver|by eapply slug_last].
Qed.

Lemma MENTION_RE_slug h t :
  slug h → MENTION_RE (lit "<@" ++ h ++ lit ">" ++ t) = Some (h, lit "<@" ++ h ++ lit ">").
Proof.
  intros Hh. unfold MENTION_RE. rewrite strip_prefix_app.
  rewrite span_app; [|by apply slug_chars|by intros c r [= <- <-]].
  rewrite strip_prefix_app. by rewrite slug_boundary_words.
Qed.

Lemma elem_of_collect_mentions h raws seen :
  h ∈ collect_mentions raws seen ↔ ∃ raw, raw ∈ raws ∧ (raw ∉ seen) ∧ Handler_new raw = Ok h.
Proof.
  revert seen. induction raws as [|raw raws IH]; intros seen; simpl; [set_solver|].
  case_bool_decide; [rewrite IH; set_solver|].
  destruct (Handler_new raw) as [h'|e|] eqn:E; rewrite ?elem_of_cons, IH.
  - pose proof (Handler_new_str _ _ E) as Hs. split; [set_solver|].
    intros (raw' & [->|Hin]%elem_of_cons & Hn & Hr); [left; congruence|].
    destruct (decide (raw' = raw)) as [->|]; [left; congruence|]. right. set_solver.
  - split; [set_solver|]. intros (raw' & [->|Hin]%elem_of_cons & Hn & Hr); [congruence|set_solver].
  - split; [set_solver|]. intros (raw' & [->|Hin]%elem_of_cons & Hn & Hr); [congruence|set_solver].
Qed.

Lemma collect_mentions_nodup raws seen : NoDup (collect_mentions raws seen).
Proof.
  revert seen. induction raws as [|raw raws IH]; intros seen; simpl; [constructor|].
  case_bool_decide; [done|]. destruct (Handler_new raw) as [h|e|] eqn:E; [|done|done].
  constructor; [|done]. intros (raw' & _ & Hn & Hr)%elem_of_collect_mentions.
  apply Handler_new_str in E as <-. apply Handler_new_str in Hr as <-. set_solver.
Qed.

(** The raw names the mention scanner captures, for slugs: exactly those that
    occur between [<@] and [>]. *)
Lemma mention_captured body h :
  slug h →
  h ∈ map (λ m, m.1.2) (captures_iter MENTION_RE 0 0 body) ↔
  contains body (lit "<@" ++ h ++ lit ">") = true.
Proof.
  intros Hh. rewrite contains_true, list_elem_of_fmap. split.
  - intros ([[st c] w] & -> & Hin). simpl in *.
    apply captures_iter_sound in Hin as (pre & post & -> & _ & Hm).
    apply MENTION_RE_Some in Hm as (-> & _ & t & ->). by exists pre, t.
  - intros (a & b & ->).
    destruct (captures_iter_complete MENTION_RE (ch "<")) with (pre := a)
      (post := lit "<@" ++ h ++ lit ">" ++ b) (c := h) (w := lit "<@" ++ h ++ lit ">")
      (skip := 0%nat) (off := 0) as [st Hst].
    + intros s c w (-> & Hc & t & ->)%MENTION_RE_Some. do 2 eexists. split_and!; [done| |done].
      rewrite !elem_of_cons, elem_of_app, list_elem_of_singleton.
      intros [|[Hin|]]; [done| |done]. rewrite Forall_forall in Hc. by apply Hc in Hin.
    + by apply MENTION_RE_slug.
    + apply not_elem_of_nil.
    + lia.
    + exists (st, h, lit "<@" ++ h ++ lit ">"). split; [done|]. by rewrite <-!app_assoc.
Qed.

(** C24: [extract_mentions] returns, without repetition, exactly the handlers [h]
    accepted by [Handler::new] for which the body contains [<@h>]: no occurrence
    is lost to an overlapping match and nothing else is reported. *)
Theorem extract_mentions_exact (body : str) :
  NoDup (extract_mentions body) ∧
  ∀ h, h ∈ extract_mentions body ↔
       Handler_new (handler_str h) = Ok h
       ∧ contains body (lit "<@" ++ handler_str h ++ lit ">") = true.
Proof.
  split; [apply collect_mentions_nodup|]. intros h. unfold extract_mentions.
  rewrite elem_of_collect_mentions. split.
  - intros (raw & Hin & _ & Hh). pose proof (Handler_new_str _ _ Hh) as <-.
    split; [done|]. apply mention_captured; [|done]. by eapply Handler_new_iff.
  - intros [Hh Hc]. exists (handler_str h). split_and!; [|set_solver|done].
    apply mention_captured; [|done]. by eapply Handler_new_iff.
Qed.

(** ** Links are well formed *)

(** What a reader of a link may rely on: its identifiers are valid, its numbers
    fit, and where the text determines the link, the text. *)
Definition link_ok (l : Link) : Prop :=
  match link_kind l with
  | LinkChannel name => slug name ∧ N.of_nat (length name) ≤ 32 ∧ link_raw l = lit "<#" ++ name ++ lit ">"
  | LinkMessage channel n =>
      slug channel ∧ N.of_nat (length channel) ≤ 32 ∧ n ≤ u64_MAX ∧
      ∃ digits, parse_unsigned u64_MAX digits = Some n ∧ (6 ≤ length digits)%nat
                ∧ link_raw l = lit "<#" ++ channel ++ lit ":L" ++ digits ++ lit ">"
  | LinkCard channel card_id n label =>
      slug channel ∧ N.of_nat (length channel) ≤ 32 ∧ validate_card_id card_id = Ok tt
      ∧ (∀ k, n = Some k → k ≤ u64_MAX)
  | LinkQuickSession id n => validate_quick_session_id id = Ok tt ∧ (∀ k, n = Some k → k ≤ u64_MAX)
  | LinkUserProfile h =>
      Handler_new (handler_str h) = Ok h ∧ link_raw l = lit "<~" ++ handler_str h ++ lit ">"
  | LinkSoftlink url _ => url ≠ []
  | LinkAsset a => AssetRef_validate a = Ok tt ∧ link_raw l = AssetRef_to_string a
  end.

Lemma parse_unsigned_le max s n : parse_unsigned max s = Some n → n ≤ max.
Proof. unfold parse_unsigned. intros H. repeat case_match; simplify_eq; lia. Qed.

Lemma validate_channel_name_iff name :
  validate_channel_name name = true ↔ slug name ∧ N.of_nat (length name) ≤ 32.
Proof.
  unfold validate_channel_name. rewrite is_ok_Ok. setoid_rewrite ChannelName_new_iff. naive_solver.
Qed.

Lemma line_suffix_Some p s a d :
  line_suffix p s = Some (a, d) ↔
  s = a ++ lit ":L" ++ d ∧ (6 ≤ length d)%nat ∧ Forall (λ c, is_nd c = true) d
  ∧ a ≠ [] ∧ Forall (λ c, p c = true) a.
Proof.
  unfold line_suffix. split.
  - destruct (span is_nd (reverse s)) as [rd r] eqn:Es. apply span_spec in Es as (Hs & Hd & _).
    destruct (strip_prefix _ r) as [r'|] eqn:Er; [|done]. apply strip_prefix_Some in Er as ->.
    destruct (_ && _) eqn:Eb; [|done]. intros [= <- <-].
    apply andb_true_iff in Eb as [[Hl Hne]%andb_true_iff Hp%forallb_Forall].
    split_and!.
    + apply (f_equal reverse) in Hs. rewrite reverse_involutive in Hs. rewrite Hs.
      by rewrite !reverse_app, <-app_assoc.
    + rewrite length_reverse. lia.
    + by apply Forall_reverse.
    + destruct r'; [done|]. by rewrite reverse_cons; destruct (reverse r').
    + by apply Forall_reverse.
  - intros (-> & Hl & Hd & Hne & Hp).
    rewrite !reverse_app, <-app_assoc. rewrite span_app; last first.
    { intros c r [= <- _]. by rewrite is_nd_ascii. }
    { by apply Forall_reverse. }
    rewrite strip_prefix_app. rewrite !reverse_involutive.
    rewrite (proj2 (Nat.leb_le _ _)) by by rewrite length_reverse.
    rewrite (proj2 (is_empty_false _)) by (destruct a; [done|by rewrite reverse_cons; destruct (reverse a)]).
    by rewrite (proj2 (forallb_Forall _ _)) by by apply Forall_reverse.
Qed.

Lemma LINK_RE_Some s caps w :
  LINK_RE s = Some (caps, w) →
  (∃ t, s = w ++ t) ∧
  match caps with
  | CapPrefixed c content => content ≠ [] ∧ w = ch "<" :: c :: content ++ lit ">"
  | CapAsset content => True
  end.
Proof.
  unfold LINK_RE. destruct (strip_prefix _ s) as [[|c r]|] eqn:E; [done| |done].
  apply strip_prefix_Some in E as ->.
  destruct (is_link_prefix c); [|destruct (c =? _); [|done]];
    match goal with |- context [span ?p ?r] => destruct (span p r) as [content r'] eqn:Es end;
    apply span_spec in Es as (-> & _ & _); (destruct content as [|x content]; [done|]);
    (destruct (strip_prefix _ r') as [t|] eqn:Er; [|done]); apply strip_prefix_Some in Er as ->;
    intros [= <- <-]; (split; [exists t|done]); by rewrite <-!app_comm_cons, <-app_assoc.
Qed.

Lemma QUICK_SESSION_LINK_RE_Some s c w : QUICK_SESSION_LINK_RE s = Some (c, w) → ∃ t, s = w ++ t.
Proof.
  unfold QUICK_SESSION_LINK_RE. destruct (strip_prefix _ s) as [r|] eqn:E; [|done].
  apply strip_prefix_Some in E as ->. destruct (_ && _); [|done].
  assert (∀ w' u, drop 26 r = w' ++ u →
    ∃ t, lit "session:qs-" ++ r = (lit "session:" ++ (lit "qs-" ++ take 26 r) ++ w') ++ t) as Hcut.
  { intros w' u Hu. exists u. rewrite <-(take_drop 26 r) at 1. by rewrite Hu, <-!app_assoc. }
  assert (∃ t, lit "session:qs-" ++ r = (lit "session:" ++ lit "qs-" ++ take 26 r) ++ t) as Hnone.
  { destruct (Hcut [] (drop 26 r) eq_refl) as [t Ht]. exists t. by rewrite app_nil_r in Ht. }
  destruct (strip_prefix _ (drop 26 r)) as [r2|] eqn:E2; [|by intros [= <- <-]].
  apply strip_prefix_Some in E2. destruct (span is_ascii_digit r2) as [digits r3] eqn:Es.
  apply span_spec in Es as (-> & _ & _). destruct (6 <=? _)%nat; [|by intros [= <- <-]].
  intros [= <- <-]. apply (Hcut (lit ":L" ++ digits) r3). by rewrite E2, <-app_assoc.
Qed.

Lemma parse_channel_or_message_ok content k raw :
  parse_channel_or_message content = Some k → raw = lit "<#" ++ content ++ lit ">" →
  link_ok (MkLink k raw).
Proof.
  unfold parse_channel_or_message. destruct (split_label content) as [target label] eqn:El.
  destruct (contains target _) eqn:Ec.
  - unfold parse_card_link. intros Hk _.
    apply bind_Some in Hk as ([channel ct] & _ & Hk).
    destruct (contains ct _); [done|]. destruct (validate_channel_name channel) eqn:Ev; [|done]. simpl in Hk.
    apply validate_channel_name_iff in Ev as [Hs Hl].
    apply bind_Some in Hk as ([card_id n] & Hn & Hk).
    destruct (validate_card_id card_id) as [[]| |] eqn:Ei; [|done|done]. simpl in Hk. injection Hk as <-.
    unfold link_ok. simpl. split_and!; [done..|]. intros m ->.
    destruct (CARD_LINE_RE ct) as [[ci d]|]; [|done]. apply bind_Some in Hn as (n' & Hp & [= <- <-]).
    by eapply parse_unsigned_le.
  - destruct label as [|]; [done|]. assert (target = content) as ->.
    { unfold split_label in El. repeat case_match; by simplify_eq. }
    simpl. destruct (MSG_LINK_RE content) as [[channel digits]|] eqn:Em.
    + apply line_suffix_Some in Em as (-> & Hl & _). intros (n & Hn & Hk)%bind_Some ->.
      destruct (validate_channel_name channel) eqn:Ev; [|done]. injection Hk as <-.
      apply validate_channel_name_iff in Ev as [Hs Hlc].
      unfold link_ok. simpl. split_and!; [done|done|by eapply parse_unsigned_le|].
      exists digits. split_and!; [done|done|]. by rewrite <-app_assoc.
    + destruct (validate_channel_name content) eqn:Ev; [|done]. intros [= <-] ->.
      apply validate_channel_name_iff in Ev as [Hs Hlc]. done.
Qed.

Lemma link_of_captures_ok start caps raw st l :
  (match caps with
   | CapPrefixed c content => content ≠ [] ∧ raw = ch "<" :: c :: content ++ lit ">"
   | CapAsset _ => True
   end) →
  link_of_captures (start, caps, raw) = Some (st, l) → st = start ∧ link_raw l = raw ∧ link_ok l.
Proof.
  intros Hc. simpl. intros (k & Hk & [= <- <-])%bind_Some. split_and!; [done..|].
  destruct caps as [c content|content].
  - destruct Hc as [Hne ->].
    destruct (N.eqb_spec c (ch "#")) as [->|_]; [by eapply parse_channel_or_message_ok|].
    destruct (N.eqb_spec c (ch "~")) as [->|_].
    { unfold parse_user_profile in Hk. apply fmap_Some in Hk as (h & Hh & ->).
      destruct (Handler_new content) as [h'|e|] eqn:E; [|done|done]. injection Hh as <-.
      unfold link_ok. simpl. by rewrite (Handler_new_str _ _ E). }
    destruct (N.eqb_spec c (ch "!")) as [->|_]; [|done].
    unfold parse_softlink in Hk. unfold link_ok. repeat case_match; simplify_eq/=; try done.
    by apply is_empty_false.
  - unfold parse_asset in Hk. apply fmap_Some in Hk as (a & Ha & ->).
    destruct (AssetRef_from_str raw) as [a'|e|] eqn:E; [|done|done]. injection Ha as <-.
    apply AssetRef_from_str_sound in E as [Hv <-]. done.
Qed.

Lemma quick_session_link_ok body m st l :
  quick_session_link body m = Some (st, l) → st = m.1.1 ∧ link_raw l = m.2 ∧ link_ok l.
Proof.
  destruct m as [[start [id digits]] raw]. simpl. case_match; [done|].
  destruct (validate_quick_session_id id) as [[]| |] eqn:E; [|done|done]. simpl.
  intros (n & Hn & [= <- <-])%bind_Some. split_and!; [done..|]. split; [done|]. intros k ->.
  destruct digits; [|done]. apply bind_Some in Hn as (n' & Hp & [= <-]). by eapply parse_unsigned_le.
Qed.

(** Every link [extract_links] reports is well formed (its channel, card,
    session and user identifiers pass their validators, its line numbers fit in
    64 bits, an asset is valid and printed canonically), and the links come in
    the order of their byte offsets in the body, each one's [raw] text standing at
    its offset. *)
Theorem extract_links_sound (body : str) :
  Forall link_ok (extract_links body) ∧
  ∃ offs, StronglySorted N.le offs
          ∧ Forall2 (λ off l, ∃ pre post, body = pre ++ link_raw l ++ post ∧ off = len pre)
                    offs (extract_links body).
Proof.
  unfold extract_links. set (result := _ ++ _).
  assert (Forall (λ p : N * Link, link_ok p.2 ∧
     ∃ pre post, body = pre ++ link_raw p.2 ++ post ∧ p.1 = len pre) result) as Hall.
  { apply Forall_app; split; apply Forall_forall; intros [st l] (m & Hm & Hl)%list_elem_of_omap; simpl.
    - destruct m as [[start caps] w]. apply captures_iter_sound in Hm as (pre & post & -> & -> & Hm).
      apply LINK_RE_Some in Hm as [[t ->] Hc].
      apply link_of_captures_ok in Hl as (-> & <- & Hok); [|done]. split; [done|].
      exists pre, t. by rewrite N.add_0_l.
    - destruct m as [[start caps] w]. apply captures_iter_sound in Hm as (pre & post & Hb & -> & Hm).
      apply QUICK_SESSION_LINK_RE_Some in Hm as [t ->].
      apply quick_session_link_ok in Hl as (-> & -> & Hok). split; [done|].
      exists pre, t. simpl. by rewrite N.add_0_l. }
  set (sorted := sort_by_key _ result).
  assert (sorted ≡ₚ result) as Hp by apply sort_by_key_perm. rewrite <-Hp in Hall. split.
  - apply Forall_map. eapply Forall_impl; [exact Hall|]. by intros p [Hok _].
  - exists (map fst sorted). split.
    + assert (StronglySorted (λ a b : N * Link, (a.1 <=? b.1) = true) sorted) as Hs
        by (apply sort_by_key_sorted; intros; lia).
      clear -Hs. induction Hs as [|p l Hl IH Hp]; simpl; [constructor|].
      constructor; [done|]. apply Forall_map. eapply Forall_impl; [exact Hp|]. simpl. intros; lia.
    + clear -Hall. induction Hall as [|p l [_ Hpl] _ IH]; simpl; constructor; done.
Qed.
End links.

Definition sample_body : str :=
  lit "see <#general:L000042> by <@alice> (session:qs-0123456789ABCDEFGHJKMNPQRS) <~bob> <!https://x.y|doc> <#ops/20-ab|card>".

Example extract_mentions_sample : extract_mentions sample_body = [MkHandler (lit "alice")].
Proof. reflexivity. Qed.

Lemma extract_links_sound_witness :
  Forall (@link_ok std_percent_encoding) (@extract_links ascii_unicode std_percent_encoding sample_body)
  ∧ map link_kind (@extract_links ascii_unicode std_percent_encoding sample_body)
    = [LinkMessage (lit "general") 42; LinkQuickSession (lit "qs-0123456789ABCDEFGHJKMNPQRS") None;
       LinkUserProfile (MkHandler (lit "bob")); LinkSoftlink (lit "https://x.y") (Some (lit "doc"));
       LinkCard (lit "ops") (lit "20-ab") None (Some (lit "card"))].
Proof.
  split; [exact (proj1 (@extract_links_sound ascii_unicode std_percent_encoding sample_body))|].
  vm_compute. reflexivity.
Defined.
