(* ===== verification/Thread.v ===== *)
(** * Thread files

    The append-only text log behind every channel, DM and card
    ([gitim-core/src/{parser,formatter}.rs], [gitim-core/src/types/message.rs],
    [gitim-core/src/preconditions.rs]): one entry per message or event, a header
    line and continuation lines. *)

From S2P Require Import Prelude RustStr StrFacts Names QuickSession Asset Links.
From stdpp Require Import options.
Open Scope N_scope.
Open Scope list_scope.

(** ** [serde_json]

    Values are opaque: the code reads, prints and tests them.  [json_exact] holds
    of the values whose text determines them (no floating point number inside);
    compact printing writes no control character.  [json_obj] is [json!({..})] with
    arrays of strings as field values. *)
Class SerdeJson := {
  json : Type;
  json_null : json;
  json_is_object : json → bool;
  json_from_str : str → option json;
  json_to_string : json → option str;
  json_exact : json → Prop;
  json_obj : list (str * list str) → json;
  json_print : ∀ v, json_exact v → ∃ t, json_to_string v = Some t ∧ json_from_str t = Some v
                    ∧ t ≠ [] ∧ (nl ∉ t) ∧ (cr ∉ t);
  json_obj_exact : ∀ fields, json_exact (json_obj fields);
  json_obj_is_object : ∀ fields, json_is_object (json_obj fields) = true;
}.

Section thread.
Context `{UC : !Unicode} `{PE : !PercentEncoding} `{SJ : !SerdeJson}.

(** ** Data *)

Record Message := MkMessage {
  m_line_number : N;
  m_point_to : N;
  m_author : Handler;
  m_timestamp : str;
  m_body : str;
  m_mentions : list Handler;
  m_links : list Link;
}.

Record ChannelEvent := MkChannelEvent {
  ev_line_number : N;
  ev_point_to : N;
  ev_author : Handler;
  ev_timestamp : str;
  ev_event_type : str;
  ev_meta : json;
}.

Inductive ThreadEntry :=
  | EntryMessage (m : Message)
  | EntryEvent (e : ChannelEvent).

Definition entry_line_number (e : ThreadEntry) : N :=
  match e with EntryMessage m => m_line_number m | EntryEvent ev => ev_line_number ev end.
Definition entry_author (e : ThreadEntry) : Handler :=
  match e with EntryMessage m => m_author m | EntryEvent ev => ev_author ev end.
Definition entry_timestamp (e : ThreadEntry) : str :=
  match e with EntryMessage m => m_timestamp m | EntryEvent ev => ev_timestamp ev end.
Definition entry_point_to (e : ThreadEntry) : N :=
  match e with EntryMessage m => m_point_to m | EntryEvent ev => ev_point_to ev end.

Record ThreadFile := MkThreadFile { entries : list ThreadEntry }.

Definition messages (f : ThreadFile) : list Message :=
  omap (λ e, match e with EntryMessage m => Some m | EntryEvent _ => None end) (entries f).
Definition events (f : ThreadFile) : list ChannelEvent :=
  omap (λ e, match e with EntryEvent ev => Some ev | EntryMessage _ => None end) (entries f).
Definition last_line_number (f : ThreadFile) : N :=
  unwrap_or (entry_line_number <$> last (entries f)) 0.

Inductive ParseError :=
  | FirstLineNotMessage (line : N)
  | ParseInvalidHandler (line : N) (source : HandlerError).

(** ** The header line *)

Record MsgCaptures := MkMsgCaptures {
  cap_line : str;
  cap_point : str;
  cap_handler : str;
  cap_timestamp : str;
  cap_event : option str;
  cap_body : str;
}.

Definition is_event_char (c : char) : bool :=
  is_ascii_lowercase c || is_ascii_digit c || (c =? ch "_") || (c =? ch "-").

(** [(\d{6,})] and what follows. *)
Definition re_digits6 (s : str) : option (str * str) :=
  let '(d, r) := span is_nd s in if (6 <=? length d)%nat then Some (d, r) else None.

(** [(\d{8}T\d{6}Z)]. *)
Definition is_timestamp (t : str) : bool :=
  (length t =? 16)%nat && forallb is_nd (take 8 t) && (take 1 (drop 8 t) =?? lit "T")
  && forallb is_nd (take 6 (drop 9 t)) && (drop 15 t =?? lit "Z").

Definition re_timestamp (s : str) : option (str * str) :=
  if is_timestamp (take 16 s) then Some (take 16 s, drop 16 s) else None.

(** The optional event group, [(?:\[E:([a-z][a-z0-9_-]{0,})\])?]: what follows must
    be a space, so the group takes part whenever the text starts with a bracket. *)
Definition re_event (s : str) : option (option str * str) :=
  match strip_prefix (lit "[E:") s with
  | None => Some (None, s)
  | Some r =>
      let '(et, r') := span is_event_char r in
      match et, strip_prefix (lit "]") r' with
      | c :: _, Some r'' => if is_ascii_lowercase c then Some (Some et, r'') else None
      | _, _ => None
      end
  end.

(** [^\[L(\d{6,})\]\[P(\d{6,})\]\[@([a-z0-9-]+)\]\[(\d{8}T\d{6}Z)\]], the event
    group, a space and [(.+)$].  No two adjacent pieces of the pattern can match the
    same character, so the greedy pieces need no backtracking. *)
Definition MSG_RE (line : str) : option MsgCaptures :=
  r ← strip_prefix (lit "[L") line;
  '(l, r) ← re_digits6 r;
  r ← strip_prefix (lit "][P") r;
  '(p, r) ← re_digits6 r;
  r ← strip_prefix (lit "][@") r;
  let '(h, r) := span is_slug_char r in
  if is_empty h then None else
  r ← strip_prefix (lit "][") r;
  '(ts, r) ← re_timestamp r;
  r ← strip_prefix (lit "]") r;
  '(et, r) ← re_event r;
  body ← strip_prefix (lit " ") r;
  if is_empty body || contains body [nl] then None else
  Some (MkMsgCaptures l p h ts et body).

(** ** The parser *)

(** [s.parse().expect(..)]. *)
Definition parse_u64 {E} (s : str) : res N E :=
  match parse_unsigned u64_MAX s with
  | Some n => Ok n
  | None => Panicked
  end.

(** [entries.last_mut()]. *)
Fixpoint update_last {A} (f : A → A) (l : list A) : list A :=
  match l with
  | [] => []
  | [x] => [f x]
  | x :: l' => x :: update_last f l'
  end.

Definition finish_entry (body : str) (e : ThreadEntry) : ThreadEntry :=
  match e with
  | EntryMessage m =>
      EntryMessage (MkMessage (m_line_number m) (m_point_to m) (m_author m) (m_timestamp m)
                      body (extract_mentions body) (extract_links body))
  | EntryEvent ev =>
      EntryEvent (MkChannelEvent (ev_line_number ev) (ev_point_to ev) (ev_author ev) (ev_timestamp ev)
                    (ev_event_type ev) (unwrap_or (json_from_str body) json_null))
  end.

Definition finalize_entry (es : list ThreadEntry) (body : option str) : list ThreadEntry :=
  match body with
  | Some b => update_last (finish_entry b) es
  | None => es
  end.

Record parser_state := MkParserState {
  ps_entries : list ThreadEntry;
  ps_current_body : option str;
  ps_first_content_line : bool;
}.

Definition parse_author (file_line_idx : N) (raw_handler : str) : res Handler ParseError :=
  if raw_handler =?? lit "system" then Ok Handler_system
  else map_err (ParseInvalidHandler (file_line_idx + 1)) (Handler_new raw_handler).

(** The entry pushed for a header line; its body is filled by [finalize_entry]. *)
Definition new_entry (line_number point_to : N) (author : Handler) (timestamp : str) (event_type : option str)
  : ThreadEntry :=
  match event_type with
  | Some et => EntryEvent (MkChannelEvent line_number point_to author timestamp et json_null)
  | None => EntryMessage (MkMessage line_number point_to author timestamp [] [] [])
  end.

(** One iteration of the loop over the lines. *)
Definition parse_line (st : parser_state) (item : N * str) : res parser_state ParseError :=
  let '(file_line_idx, line) := item in
  match MSG_RE line with
  | Some caps =>
      let es := finalize_entry (ps_entries st) (ps_current_body st) in
      let? line_number := parse_u64 (cap_line caps) in
      let? point_to := parse_u64 (cap_point caps) in
      let? author := parse_author file_line_idx (cap_handler caps) in
      Ok (MkParserState
            (es ++ [new_entry line_number point_to author (cap_timestamp caps) (cap_event caps)])
            (Some (cap_body caps)) false)
  | None =>
      if ps_first_content_line st then Err (FirstLineNotMessage (file_line_idx + 1))
      else
        let content := if starts_with line (lit " [L") then drop 1 line else line in
        Ok (MkParserState (ps_entries st)
              ((λ body, body ++ [nl] ++ content) <$> ps_current_body st)
              (ps_first_content_line st))
  end.

Definition parse_thread (input : str) : res ThreadFile ParseError :=
  let input := replace_crlf input in
  if is_empty input then Ok (MkThreadFile []) else
  let? st := for_fold (enumerate_from 0 (lines input)) (MkParserState [] None true) parse_line in
  Ok (MkThreadFile (finalize_entry (ps_entries st) (ps_current_body st))).

(** ** The formatter *)

(** [^\[L\d{6,}\]]. *)
Definition MSG_PREFIX_RE (line : str) : bool :=
  match strip_prefix (lit "[L") line with
  | Some r => match re_digits6 r with
              | Some (_, r') => starts_with r' (lit "]")
              | None => false
              end
  | None => false
  end.

Definition line_width (line_number : N) : nat := Nat.max (length (fmt_N line_number)) 6.

Definition message_header (line_number point_to : N) (author : Handler) (timestamp : str) : str :=
  let width := line_width line_number in
  lit "[L" ++ fmt_N_pad width line_number ++ lit "][P" ++ fmt_N_pad width point_to
  ++ lit "][@" ++ handler_str author ++ lit "][" ++ timestamp ++ lit "]".

Definition escape_continuation (line : str) : str :=
  (if MSG_PREFIX_RE line then lit " " else []) ++ line ++ [nl].

Definition format_message (line_number point_to : N) (author : Handler) (timestamp body : str) : str :=
  let output := message_header line_number point_to author timestamp ++ lit " " in
  match lines body with
  | first :: rest => output ++ first ++ [nl] ++ concat (map escape_continuation rest)
  | [] => output ++ [nl]
  end.

Definition format_event (line_number : N) (author : Handler) (timestamp event_type : str) (meta : json) : str :=
  let meta_str := unwrap_or (json_to_string meta) (lit "{}") in
  message_header line_number 0 author timestamp ++ lit "[E:" ++ event_type ++ lit "] " ++ meta_str ++ [nl].

(** ** Text, line by line *)

Lemma split_inclusive_app c a b :
  split_inclusive c (a ++ c :: b) = split_inclusive c (a ++ [c]) ++ split_inclusive c b.
Proof.
  induction a as [|x a IH]; simpl; [by rewrite N.eqb_refl|].
  destruct (x =? c); [by rewrite IH|].
  rewrite IH. destruct (split_inclusive c (a ++ [c])) as [|h t] eqn:E; [|done].
  exfalso. apply (f_equal (@concat N)) in E. rewrite split_inclusive_concat in E. by destruct a.
Qed.

Lemma lines_app a b : lines (a ++ nl :: b) = lines (a ++ [nl]) ++ lines b.
Proof. unfold lines. by rewrite split_inclusive_app, map_app. Qed.

Lemma replace_crlf_cons2 c d s :
  replace_crlf (c :: d :: s) =
  if (c =? cr) && (d =? nl) then nl :: replace_crlf s else c :: replace_crlf (d :: s).
Proof. done. Qed.

Lemma replace_crlf_app a b :
  ∃ a', replace_crlf (a ++ [nl]) = a' ++ [nl] ∧ replace_crlf (a ++ nl :: b) = a' ++ nl :: replace_crlf b.
Proof.
  remember (length a) as n eqn:Hn. revert a Hn. induction (lt_wf n) as [n _ IH]. intros a ->.
  assert (∀ s, replace_crlf (nl :: s) = nl :: replace_crlf s) as Hnl by by intros [|].
  destruct a as [|c [|d a]]; simpl app.
  - exists []. by rewrite !Hnl.
  - rewrite !replace_crlf_cons2, !Hnl. simpl. rewrite andb_true_r.
    destruct (N.eqb_spec c cr) as [->|]; [by exists []|by exists [c]].
  - rewrite !replace_crlf_cons2. destruct (_ && _).
    + destruct (IH (length a)) with (a := a) as (a' & -> & ->); [simpl; lia|done|]. by exists (nl :: a').
    + destruct (IH (length (d :: a))) with (a := d :: a) as (a' & H1 & H2); [simpl; lia|done|].
      rewrite <-!app_comm_cons in H1, H2. rewrite H1, H2. by exists (c :: a').
Qed.

(** A file as the daemon leaves it: empty or ending in a newline. *)
Definition complete_file (file : str) : Prop := file = [] ∨ ends_with file [nl] = true.

Lemma file_lines_app file s :
  complete_file file →
  lines (replace_crlf (file ++ s)) = lines (replace_crlf file) ++ lines (replace_crlf s).
Proof.
  intros [->|(a & ->)%ends_with_true]; [done|].
  rewrite <-app_assoc. simpl. destruct (replace_crlf_app a s) as (a' & -> & ->). apply lines_app.
Qed.

Lemma join_lines s :
  cr ∉ s → ends_with s [nl] = false → join [nl] (lines s) = s.
Proof.
  induction s as [a Ha|a b Ha IH] using text_ind; intros Hcr Hend.
  - destruct a as [|x a]; [done|]. by rewrite lines_last.
  - rewrite lines_cons by set_solver. destruct (lines b) as [|l0 ls] eqn:E.
    + exfalso. destruct b as [|y b].
      * apply not_true_iff_false in Hend. apply Hend, ends_with_true. by exists a.
      * unfold lines in E. apply map_eq_nil in E. apply (f_equal (@concat N)) in E.
        by rewrite split_inclusive_concat in E.
    + change (join [nl] (a :: l0 :: ls)) with (a ++ [nl] ++ join [nl] (l0 :: ls)). rewrite IH; [done|set_solver|].
      apply not_true_iff_false. intros (r & ->)%ends_with_true.
      apply not_true_iff_false in Hend. apply Hend, ends_with_true.
      exists (a ++ nl :: r). by rewrite <-app_assoc.
Qed.

Lemma lines_clean s l : cr ∉ s → l ∈ lines s → (nl ∉ l) ∧ (cr ∉ l).
Proof.
  induction s as [a Ha|a b Ha IH] using text_ind; intros Hcr.
  - destruct a as [|x a]; [intros H; by apply not_elem_of_nil in H|].
    rewrite lines_last by done. intros ->%list_elem_of_singleton. done.
  - rewrite lines_cons by set_solver. intros [->|Hin]%elem_of_cons; [split; set_solver|].
    apply IH; set_solver.
Qed.

Lemma lines_of_chunks ls s :
  Forall (λ l, (nl ∉ l) ∧ (cr ∉ l)) ls →
  lines (concat (map (λ l, l ++ [nl]) ls) ++ s) = ls ++ lines s.
Proof.
  induction 1 as [|l ls [Hnl Hcr] _ IH]; [done|]. simpl. rewrite <-!app_assoc. simpl.
  by rewrite lines_cons, IH.
Qed.

(** ** The header line is read back *)

Lemma all_digits_nd d : all_digits d → Forall (λ c, is_nd c = true) d.
Proof.
  intros Hd. eapply Forall_impl; [exact Hd|]. simpl. intros c Hc.
  rewrite is_nd_ascii; [done|]. unfold is_ascii_digit, in_range in Hc. lia.
Qed.

Lemma re_digits6_pad w n r :
  (6 ≤ w)%nat → head r = Some (ch "]") → re_digits6 (fmt_N_pad w n ++ r) = Some (fmt_N_pad w n, r).
Proof.
  intros Hw Hr. destruct (fmt_N_pad_spec w n) as (_ & Hd & _ & Hl). unfold re_digits6.
  rewrite span_app; [|by apply all_digits_nd|intros c r' ->; injection Hr as ->; by rewrite is_nd_ascii].
  by rewrite (proj2 (Nat.leb_le _ _)) by lia.
Qed.

Lemma re_timestamp_app ts r : is_timestamp ts = true → re_timestamp (ts ++ r) = Some (ts, r).
Proof.
  intros Hts. assert (length ts = 16%nat) as Hl.
  { unfold is_timestamp in Hts. do 4 apply andb_true_iff in Hts as [Hts _]. by apply Nat.eqb_eq. }
  unfold re_timestamp. by rewrite take_app_length', drop_app_length', Hts.
Qed.

(** [[a-z][a-z0-9_-]{0,}]. *)
Definition is_event_type (et : str) : bool :=
  is_some_and (head et) is_ascii_lowercase && forallb is_event_char et.

Lemma re_event_some et r :
  is_event_type et = true → re_event (lit "[E:" ++ et ++ lit "]" ++ r) = Some (Some et, r).
Proof.
  intros [Hh Hall%forallb_Forall]%andb_true_iff. unfold re_event. rewrite strip_prefix_app.
  rewrite span_app; [|done|by intros c r' [= <- <-]].
  destruct et as [|c et]; [done|]. simpl in Hh. simpl. by rewrite Hh.
Qed.

Lemma MSG_RE_header_any line_number point_to author ts et body :
  handler_str author ≠ [] → Forall (λ c, is_slug_char c = true) (handler_str author) →
  is_timestamp ts = true → (∀ t, et = Some t → is_event_type t = true) →
  MSG_RE (message_header line_number point_to author ts
          ++ match et with Some t => lit "[E:" ++ t ++ lit "]" | None => [] end ++ lit " " ++ body)
  = if is_empty body || contains body [nl] then None
    else Some (MkMsgCaptures (fmt_N_pad (line_width line_number) line_number)
                 (fmt_N_pad (line_width line_number) point_to) (handler_str author) ts et body).
Proof.
  intros Hne Hh Hts Het. unfold message_header, MSG_RE.
  assert (6 ≤ line_width line_number)%nat as Hw by (unfold line_width; lia).
  rewrite <-!app_assoc. rewrite strip_prefix_app. cbn [mbind option_bind].
  rewrite re_digits6_pad by done. cbn [mbind option_bind].
  rewrite strip_prefix_app. cbn [mbind option_bind].
  rewrite re_digits6_pad by done. cbn [mbind option_bind].
  rewrite strip_prefix_app. cbn [mbind option_bind].
  rewrite span_app; [|done|by intros c r' [= <- <-]].
  rewrite (proj2 (is_empty_false _) Hne). rewrite strip_prefix_app. cbn [mbind option_bind].
  rewrite re_timestamp_app by done. cbn [mbind option_bind].
  rewrite strip_prefix_app. cbn [mbind option_bind].
  destruct et as [t|].
  - rewrite <-!app_assoc. rewrite re_event_some by by apply Het. cbn [mbind option_bind].
    rewrite strip_prefix_app. cbn [mbind option_bind]. done.
  - cbn [app re_event strip_prefix mbind option_bind]. done.
Qed.

Lemma MSG_RE_header line_number point_to author ts et body :
  handler_str author ≠ [] → Forall (λ c, is_slug_char c = true) (handler_str author) →
  is_timestamp ts = true → (∀ t, et = Some t → is_event_type t = true) →
  body ≠ [] → nl ∉ body →
  MSG_RE (message_header line_number point_to author ts
          ++ match et with Some t => lit "[E:" ++ t ++ lit "]" | None => [] end ++ lit " " ++ body)
  = Some (MkMsgCaptures (fmt_N_pad (line_width line_number) line_number)
            (fmt_N_pad (line_width line_number) point_to) (handler_str author) ts et body).
Proof.
  intros Hne Hh Hts Het Hb Hnl. rewrite MSG_RE_header_any by done.
  rewrite (proj2 (is_empty_false _) Hb), orb_false_l.
  destruct (contains body [nl]) eqn:E; [|done]. by apply contains_char_true in E.
Qed.

(** ** Continuation lines *)

Lemma MSG_RE_prefix line caps : MSG_RE line = Some caps → MSG_PREFIX_RE line = true.
Proof.
  unfold MSG_RE, MSG_PREFIX_RE. intros (r & -> & H)%bind_Some.
  apply bind_Some in H as ([l r1] & -> & H). apply bind_Some in H as (r2 & Hr & _).
  apply strip_prefix_Some in Hr as ->. done.
Qed.

(** A continuation line as [format_message] writes it, without its newline. *)
Definition escaped (line : str) : str := (if MSG_PREFIX_RE line then lit " " else []) ++ line.

Lemma escaped_not_header line : MSG_RE (escaped line) = None.
Proof.
  unfold escaped. destruct (MSG_PREFIX_RE line) eqn:E; [done|]. simpl.
  destruct (MSG_RE line) as [caps|] eqn:Em; [|done]. apply MSG_RE_prefix in Em. congruence.
Qed.

Lemma unescape_escaped line :
  starts_with line (lit " [L") = false →
  (if starts_with (escaped line) (lit " [L") then drop 1 (escaped line) else escaped line) = line.
Proof.
  intros Hs. unfold escaped. destruct (MSG_PREFIX_RE line) eqn:E; [|cbn [app]; by rewrite Hs].
  unfold MSG_PREFIX_RE in E. destruct (strip_prefix (lit "[L") line) as [r|] eqn:Er; [|done].
  by apply strip_prefix_Some in Er as ->.
Qed.

Lemma parse_continuations i ls es b :
  Forall (λ l, starts_with l (lit " [L") = false) ls →
  for_fold (enumerate_from i (map escaped ls)) (MkParserState es (Some b) false) parse_line
  = Ok (MkParserState es (Some (b ++ concat (map (cons nl) ls))) false).
Proof.
  intros Hls. revert i b. induction Hls as [|l ls Hl _ IH]; intros i b; simpl.
  { by rewrite app_nil_r. }
  unfold parse_line at 1. rewrite escaped_not_header. simpl.
  rewrite unescape_escaped by done. rewrite IH. by rewrite <-app_assoc.
Qed.

(** ** Writing an entry *)

(** The text of an entry: [format_message] or [format_event]. *)
Definition render_entry (e : ThreadEntry) : str :=
  match e with
  | EntryMessage m => format_message (m_line_number m) (m_point_to m) (m_author m) (m_timestamp m) (m_body m)
  | EntryEvent ev => format_event (ev_line_number ev) (ev_author ev) (ev_timestamp ev) (ev_event_type ev) (ev_meta ev)
  end.

(** Handlers the parser accepts: users and the reserved [system]. *)
Definition known_author (h : Handler) : Prop := h = Handler_system ∨ Handler_new (handler_str h) = Ok h.

(** Bodies that survive the line format: no carriage return, no final newline, a
    non-empty first line, and no later line that starts with [" [L"]. *)
Definition body_ok (body : str) : Prop :=
  (cr ∉ body) ∧ ends_with body [nl] = false ∧
  ∃ first rest, lines body = first :: rest ∧ first ≠ []
                ∧ Forall (λ l, starts_with l (lit " [L") = false) rest.

Definition printable (e : ThreadEntry) : Prop :=
  entry_line_number e ≤ u64_MAX ∧ entry_point_to e ≤ u64_MAX ∧ known_author (entry_author e)
  ∧ is_timestamp (entry_timestamp e) = true ∧
  match e with
  | EntryMessage m => body_ok (m_body m) ∧ m_mentions m = extract_mentions (m_body m)
                      ∧ m_links m = extract_links (m_body m)
  | EntryEvent ev => ev_point_to ev = 0 ∧ is_event_type (ev_event_type ev) = true ∧ json_exact (ev_meta ev)
  end.

Lemma known_author_slug h :
  known_author h → handler_str h ≠ [] ∧ Forall (λ c, is_slug_char c = true) (handler_str h).
Proof.
  assert (∀ h', protocol_handler h' → handler_str h' ≠ [] ∧ Forall (λ c, is_slug_char c = true) (handler_str h'))
    as Hp by (intros h' Hh'; split; [by apply slug_nonempty|by apply slug_chars]).
  intros [->|Hh]; apply Hp; [apply Handler_system_protocol|by eapply Handler_new_protocol].
Qed.

Lemma parse_author_known i h : known_author h → parse_author i (handler_str h) = Ok h.
Proof.
  unfold parse_author. intros [->|Hh]; [done|]. case_bool_decide as Hs; [|by rewrite Hh].
  apply Handler_new_iff in Hh as (_ & _ & _ & Hne). done.
Qed.

Lemma timestamp_chars ts :
  is_timestamp ts = true → Forall (λ c, is_nd c = true ∨ c = ch "T" ∨ c = ch "Z") ts.
Proof.
  unfold is_timestamp. intros H. rewrite !andb_true_iff, !forallb_Forall, !bool_decide_eq_true in H.
  destruct H as ((((_ & H1) & H2) & H3) & H4).
  rewrite <-(take_drop 8 ts), <-(take_drop 1 (drop 8 ts)), drop_drop, <-(take_drop 6 (drop (8 + 1) ts)), drop_drop.
  simpl Nat.add. rewrite H2, H4, !Forall_app. split_and!.
  - eapply Forall_impl; [exact H1|]. tauto.
  - constructor; [tauto|constructor].
  - eapply Forall_impl; [exact H3|]. tauto.
  - constructor; [tauto|constructor].
Qed.

Lemma timestamp_no c ts :
  is_timestamp ts = true → c < 128 → is_ascii_digit c = false → c ≠ ch "T" → c ≠ ch "Z" → c ∉ ts.
Proof.
  intros Hts%timestamp_chars Hc Hd HT HZ Hin. rewrite Forall_forall in Hts.
  destruct (Hts c Hin) as [Hn|[|]]; [|done|done]. rewrite is_nd_ascii in Hn by done. congruence.
Qed.

Lemma header_no c line_number point_to author ts :
  is_control c = true → c < 128 → known_author author → is_timestamp ts = true →
  c ∉ message_header line_number point_to author ts.
Proof.
  intros Hc Hlt Ha Hts. unfold is_control, in_range in Hc.
  assert (c < 32 ∨ c = 127) as Hr by lia.
  assert (∀ w n, c ∉ fmt_N_pad w n) as Hpad.
  { intros w n. destruct (fmt_N_pad_spec w n) as (_ & Hd & _). eapply all_digits_no; [done|].
    unfold is_ascii_digit, in_range. lia. }
  assert (c ∉ handler_str author) as Hh.
  { intros Hin. destruct (known_author_slug author Ha) as [_ Hs]. rewrite Forall_forall in Hs.
    specialize (Hs c Hin). unfold is_slug_char, is_ascii_lowercase, is_ascii_digit, in_range in Hs. lia. }
  assert (c ∉ ts) as Ht.
  { apply timestamp_no; [done..| | |]; [|lia|lia]. unfold is_ascii_digit, in_range. lia. }
  unfold message_header. rewrite !not_elem_of_app, !not_elem_of_cons.
  split_and!; try apply not_elem_of_nil; try lia; auto.
Qed.

Lemma event_type_no c et : is_event_type et = true → is_control c = true → c ∉ et.
Proof.
  intros [_ Hall%forallb_Forall]%andb_true_iff Hc Hin. rewrite Forall_forall in Hall.
  specialize (Hall c Hin). unfold is_event_char, is_ascii_lowercase, is_ascii_digit, is_control, in_range in *.
  lia.
Qed.

(** The lines of a rendered entry: a header line that carries the first line of
    the payload, then the escaped rest. *)
Definition entry_payload (e : ThreadEntry) : str :=
  match e with
  | EntryMessage m => m_body m
  | EntryEvent ev => unwrap_or (json_to_string (ev_meta ev)) (lit "{}")
  end.

Definition entry_event_type (e : ThreadEntry) : option str :=
  match e with EntryMessage _ => None | EntryEvent ev => Some (ev_event_type ev) end.

Definition header_line (e : ThreadEntry) (first : str) : str :=
  message_header (entry_line_number e) (entry_point_to e) (entry_author e) (entry_timestamp e)
  ++ match entry_event_type e with Some t => lit "[E:" ++ t ++ lit "]" | None => [] end ++ lit " " ++ first.

Lemma printable_payload e :
  printable e →
  (cr ∉ entry_payload e) ∧
  ∃ first rest, lines (entry_payload e) = first :: rest ∧ first ≠ []
    ∧ Forall (λ l, starts_with l (lit " [L") = false) rest
    ∧ join [nl] (first :: rest) = entry_payload e
    ∧ render_entry e = concat (map (λ l, l ++ [nl]) (header_line e first :: map escaped rest)).
Proof.
  intros (_ & _ & _ & _ & He). destruct e as [m|ev]; cbn [entry_payload] in *.
  - destruct He as ((Hcr & Hend & first & rest & Hl & Hne & Hrest) & _ & _).
    split; [done|]. exists first, rest. split_and!; [done..| |].
    + rewrite <-Hl. by apply join_lines.
    + unfold render_entry, format_message, header_line. rewrite Hl. cbn [map concat].
      rewrite map_map, (map_ext (λ x, escaped x ++ [nl]) escape_continuation); last first.
      { intros l. unfold escape_continuation, escaped. by rewrite <-app_assoc. }
      simpl. by rewrite <-!app_assoc.
  - destruct He as (Hp & _ & Hx). destruct (json_print _ Hx) as (t & Ht & _ & Hne & Hnl & Hcr).
    rewrite Ht. cbn [unwrap_or]. split; [done|]. exists t, []. split_and!; [by apply lines_last|done..|].
    unfold render_entry, format_event, header_line. simpl. rewrite Ht, Hp. simpl. rewrite app_nil_r.
    by repeat (rewrite <-app_assoc; simpl).
Qed.

Lemma update_last_snoc {A} (f : A → A) l x : update_last f (l ++ [x]) = l ++ [f x].
Proof.
  induction l as [|y l IH]; [done|]. simpl. destruct (l ++ [x]) eqn:E; [by destruct l|]. by rewrite IH.
Qed.

Lemma join_cons_concat (first : str) rest : join [nl] (first :: rest) = first ++ concat (map (cons nl) rest).
Proof.
  revert first. induction rest as [|l rest IH]; intros first; [by rewrite app_nil_r|].
  change (join [nl] (first :: l :: rest)) with (first ++ [nl] ++ join [nl] (l :: rest)).
  by rewrite IH.
Qed.

Lemma header_line_no c e first :
  is_control c = true → c < 128 → printable e → c ∉ first → c ∉ header_line e first.
Proof.
  intros Hc Hlt (_ & _ & Ha & Hts & He) Hf. unfold header_line.
  rewrite !not_elem_of_app. split_and!; [by apply header_no| | |done].
  - destruct e as [m|ev]; simpl; [apply not_elem_of_nil|].
    destruct He as (_ & Het & _). unfold is_control, in_range in Hc.
    rewrite !not_elem_of_cons, not_elem_of_app, list_elem_of_singleton.
    split_and!; try lia. apply event_type_no; [done|]. unfold is_control, in_range. lia.
  - rewrite list_elem_of_singleton. unfold is_control, in_range in Hc. lia.
Qed.

Lemma render_entry_lines e :
  printable e →
  (cr ∉ render_entry e) ∧ ends_with (render_entry e) [nl] = true ∧
  ∃ first rest, lines (render_entry e) = header_line e first :: map escaped rest
    ∧ first ≠ [] ∧ (nl ∉ first) ∧ Forall (λ l, starts_with l (lit " [L") = false) rest
    ∧ join [nl] (first :: rest) = entry_payload e.
Proof.
  intros Hp. destruct (printable_payload e Hp) as (Hcr & first & rest & Hl & Hne & Hrest & Hjoin & Hr).
  assert (∀ l, l ∈ first :: rest → (nl ∉ l) ∧ (cr ∉ l)) as Hclean.
  { intros l Hin. rewrite <-Hl in Hin. by eapply lines_clean. }
  assert (Forall (λ l, (nl ∉ l) ∧ (cr ∉ l)) (header_line e first :: map escaped rest)) as Hall.
  { constructor.
    - split; apply header_line_no; try done; apply Hclean; by left.
    - apply Forall_map, Forall_forall. intros l Hin. destruct (Hclean l) as [Hn Hc]; [by right|].
      unfold escaped. rewrite !not_elem_of_app. destruct (MSG_PREFIX_RE l); set_solver. }
  split_and!.
  - rewrite Hr. clear -Hall. induction Hall as [|l ls [_ Hc] _ IH]; simpl; set_solver.
  - rewrite Hr. destruct (exists_last (l := header_line e first :: map escaped rest)) as (ls & l & ->); [done|].
    rewrite map_app, concat_app. simpl. rewrite app_nil_r, ends_with_true. eexists. by rewrite app_assoc.
  - exists first, rest. rewrite Hr. split_and!; [|done|by apply Hclean; left|done|done].
    rewrite <-(app_nil_r (concat _)), lines_of_chunks by done. by rewrite lines_nil, app_nil_r.
Qed.

Lemma finish_new_entry e :
  printable e →
  finish_entry (entry_payload e)
    (new_entry (entry_line_number e) (entry_point_to e) (entry_author e) (entry_timestamp e) (entry_event_type e))
  = e.
Proof.
  intros (_ & _ & _ & _ & He). destruct e as [[]|[]]; simpl in *.
  - destruct He as (_ & -> & ->). done.
  - destruct He as (_ & _ & Hx). destruct (json_print _ Hx) as (t & -> & Ht & _). simpl. by rewrite Ht.
Qed.

Lemma parse_thread_lines input :
  parse_thread input =
  let? st := for_fold (enumerate_from 0 (lines (replace_crlf input))) (MkParserState [] None true) parse_line in
  Ok (MkThreadFile (finalize_entry (ps_entries st) (ps_current_body st))).
Proof. unfold parse_thread. by destruct (replace_crlf input). Qed.

(** Reading the lines of a rendered entry from any state pushes that entry. *)
Lemma parse_rendered i st e :
  printable e →
  ∃ st', for_fold (enumerate_from i (lines (render_entry e))) st parse_line = Ok st'
    ∧ finalize_entry (ps_entries st') (ps_current_body st')
      = finalize_entry (ps_entries st) (ps_current_body st) ++ [e].
Proof.
  intros Hp. destruct (render_entry_lines e Hp) as (_ & _ & first & rest & -> & Hne & Hnl & Hrest & Hjoin).
  assert (Hp' := Hp). destruct Hp as (Hln & Hpt & Ha & Hts & He).
  destruct (known_author_slug _ Ha) as [Hane Hachars].
  simpl. unfold parse_line at 1.
  unfold header_line. rewrite MSG_RE_header; [|done..| |done|done]; last first.
  { intros t Ht. destruct e; simplify_eq/=. by destruct He as (_ & ? & _). }
  simpl. unfold parse_u64. rewrite !parse_fmt_N_pad by done. simpl.
  rewrite parse_author_known by done. simpl.
  rewrite parse_continuations by done. eexists. split; [done|]. simpl.
  rewrite update_last_snoc, <-join_cons_concat, Hjoin. by rewrite finish_new_entry.
Qed.

Lemma append_parses file es e :
  parse_thread file = Ok (MkThreadFile es) → complete_file file → printable e →
  parse_thread (file ++ render_entry e) = Ok (MkThreadFile (es ++ [e]))
  ∧ complete_file (file ++ render_entry e).
Proof.
  intros Hf Hc Hp. destruct (render_entry_lines e Hp) as (Hcr & Hend & _).
  split; [|right; apply ends_with_true in Hend as (r & ->); apply ends_with_true;
           exists (file ++ r); by rewrite app_assoc].
  rewrite parse_thread_lines in Hf |- *. rewrite file_lines_app by done.
  rewrite (replace_crlf_id (render_entry e)) by done.
  rewrite enumerate_from_app, for_fold_app.
  apply res_bind_Ok in Hf as (st & -> & [= <-]). simpl.
  destruct (parse_rendered (0 + N.of_nat (length (lines (replace_crlf file)))) st e Hp) as (st' & Hst & Hst').
  rewrite Hst. simpl. by rewrite Hst'.
Qed.

Lemma render_parses es :
  Forall printable es →
  parse_thread (concat (map render_entry es)) = Ok (MkThreadFile es)
  ∧ complete_file (concat (map render_entry es)).
Proof.
  induction es as [|e es IH] using rev_ind; intros Hall; [split; [done|by left]|].
  apply Forall_app in Hall as [Hes He]. apply Forall_cons in He as [He _].
  destruct (IH Hes) as [H1 H2]. rewrite map_app, concat_app. simpl. rewrite app_nil_r.
  by apply append_parses.
Qed.

(** ** Which inputs parse *)

(** The captures of a header line that the parser can convert. *)
Definition header_ok (caps : MsgCaptures) : Prop :=
  is_some (parse_unsigned u64_MAX (cap_line caps)) = true ∧ is_some (parse_unsigned u64_MAX (cap_point caps)) = true
  ∧ (cap_handler caps = lit "system" ∨ is_ok (Handler_new (cap_handler caps)) = true).

Definition line_readable (line : str) : Prop := ∀ caps, MSG_RE line = Some caps → header_ok caps.

Lemma parse_line_header st i line caps :
  MSG_RE line = Some caps →
  (is_ok (parse_line st (i, line)) = true ↔ header_ok caps) ∧
  (∀ st', parse_line st (i, line) = Ok st' → ps_first_content_line st' = false).
Proof.
  intros Hm. unfold parse_line. rewrite Hm. unfold header_ok, parse_u64.
  destruct (parse_unsigned u64_MAX (cap_line caps)) as [n|]; [|naive_solver].
  destruct (parse_unsigned u64_MAX (cap_point caps)) as [p|]; [|naive_solver].
  simpl. unfold parse_author. case_bool_decide as Hs; [naive_solver|].
  destruct (Handler_new (cap_handler caps)) as [h| |]; naive_solver.
Qed.

Lemma parse_lines_ok i ls st :
  ps_first_content_line st = false →
  is_ok (for_fold (enumerate_from i ls) st parse_line) = true ↔ Forall line_readable ls.
Proof.
  revert i st. induction ls as [|l ls IH]; intros i st Hst; cbn [enumerate_from for_fold]; [by split|].
  rewrite Forall_cons. destruct (MSG_RE l) as [caps|] eqn:Em.
  - destruct (parse_line_header st i l caps Em) as [Hiff Hf].
    assert (line_readable l ↔ header_ok caps) as -> by (unfold line_readable; naive_solver).
    rewrite <-Hiff. destruct (parse_line st (i, l)) as [st'| |] eqn:E; [|naive_solver..].
    rewrite <-(IH (i + 1) st') by by apply Hf. simpl. naive_solver.
  - assert (line_readable l) by by intros caps Hc; congruence.
    unfold parse_line at 1. rewrite Em, Hst. cbn [res_bind]. rewrite IH by done. naive_solver.
Qed.

Lemma parse_thread_ok_iff input :
  is_ok (parse_thread input) = true ↔
  (∀ l, head (lines (replace_crlf input)) = Some l → is_some (MSG_RE l) = true)
  ∧ Forall line_readable (lines (replace_crlf input)).
Proof.
  rewrite parse_thread_lines. generalize (lines (replace_crlf input)). intros ls.
  assert (∀ r : res parser_state ParseError,
    is_ok (let? st := r in Ok (MkThreadFile (finalize_entry (ps_entries st) (ps_current_body st)))) = is_ok r)
    as -> by by intros [].
  destruct ls as [|l ls]; [naive_solver|]. cbn [enumerate_from for_fold head].
  assert ((∀ l0, Some l = Some l0 → is_some (MSG_RE l0) = true) ↔ is_some (MSG_RE l) = true) as -> by naive_solver.
  rewrite Forall_cons. destruct (MSG_RE l) as [caps|] eqn:Em.
  - destruct (parse_line_header (MkParserState [] None true) 0 l caps Em) as [Hiff Hf].
    assert (line_readable l ↔ header_ok caps) as -> by (unfold line_readable; naive_solver).
    rewrite <-Hiff. destruct (parse_line _ (0, l)) as [st'| |] eqn:E; [|naive_solver..].
    cbn [res_bind]. rewrite parse_lines_ok by by apply Hf. simpl. naive_solver.
  - unfold parse_line at 1. rewrite Em. simpl. naive_solver.
Qed.

(** ** What a parsed file contains *)

(** Every entry the parser returns. *)
Definition parsed_entry (e : ThreadEntry) : Prop :=
  entry_line_number e ≤ u64_MAX ∧ entry_point_to e ≤ u64_MAX ∧ known_author (entry_author e)
  ∧ is_timestamp (entry_timestamp e) = true ∧
  match e with
  | EntryMessage m => m_mentions m = extract_mentions (m_body m) ∧ m_links m = extract_links (m_body m)
  | EntryEvent ev => is_event_type (ev_event_type ev) = true
  end.

Definition parser_inv (st : parser_state) : Prop :=
  (ps_entries st = [] ∧ ps_current_body st = None) ∨
  ∃ es e b, ps_entries st = es ++ [e] ∧ ps_current_body st = Some b ∧ Forall parsed_entry es
            ∧ ∀ b', parsed_entry (finish_entry b' e).

Lemma parser_inv_finalize st :
  parser_inv st → Forall parsed_entry (finalize_entry (ps_entries st) (ps_current_body st)).
Proof.
  intros [[-> ->]|(es & e & b & -> & -> & Hes & He)]; [constructor|]. simpl.
  rewrite update_last_snoc. apply Forall_app. split; [done|]. by constructor.
Qed.

Lemma MSG_RE_Some line caps :
  MSG_RE line = Some caps →
  is_timestamp (cap_timestamp caps) = true ∧ (∀ t, cap_event caps = Some t → is_event_type t = true).
Proof.
  unfold MSG_RE. intros H.
  apply bind_Some in H as (r1 & _ & H). apply bind_Some in H as ([l r2] & _ & H).
  apply bind_Some in H as (r3 & _ & H). apply bind_Some in H as ([p r4] & _ & H).
  apply bind_Some in H as (r5 & _ & H). destruct (span _ r5) as [h r6].
  destruct (is_empty h); [done|]. apply bind_Some in H as (r7 & _ & H).
  apply bind_Some in H as ([ts r8] & Hts & H). apply bind_Some in H as (r9 & _ & H).
  apply bind_Some in H as ([et r10] & Het & H). apply bind_Some in H as (body & _ & H).
  destruct (_ || _); [done|]. injection H as <-. simpl. split.
  - unfold re_timestamp in Hts. by case_match; simplify_eq.
  - intros t ->. unfold re_event in Het. destruct (strip_prefix _ r9) as [r|]; [|done].
    destruct (span is_event_char r) as [et r'] eqn:Es. apply span_spec in Es as (_ & Hall & _).
    destruct et as [|c et]; [done|]. destruct (strip_prefix _ r'); [|done].
    destruct (is_ascii_lowercase c) eqn:Ec; [|done]. injection Het as <- _.
    apply andb_true_iff. split; [done|]. by apply forallb_Forall.
Qed.

Lemma parse_author_sound i raw h : parse_author i raw = Ok h → known_author h.
Proof.
  unfold parse_author. case_bool_decide; [intros [= <-]; by left|].
  rewrite map_err_Ok. intros Hh. right. by rewrite (Handler_new_str _ _ Hh).
Qed.

Lemma parse_u64_Ok {E} s n : @parse_u64 E s = Ok n → n ≤ u64_MAX.
Proof.
  unfold parse_u64. destruct (parse_unsigned _ s) eqn:En; [|done]. intros [= <-].
  by eapply parse_unsigned_le.
Qed.

Lemma parse_line_inv st item st' : parser_inv st → parse_line st item = Ok st' → parser_inv st'.
Proof.
  intros Hinv. destruct item as [i line]. unfold parse_line.
  destruct (MSG_RE line) as [caps|] eqn:Em.
  - intros H. rewrite res_bind_Ok in H. destruct H as (n & Hn%parse_u64_Ok & H).
    rewrite res_bind_Ok in H. destruct H as (p & Hp%parse_u64_Ok & H).
    rewrite res_bind_Ok in H. destruct H as (a & Ha%parse_author_sound & [= <-]).
    right. do 3 eexists. split_and!; [done..|by apply parser_inv_finalize|]. intros b'.
    apply MSG_RE_Some in Em as [Hts Het]. unfold parsed_entry.
    destruct (cap_event caps) as [t|]; simpl; split_and!; auto.
  - destruct (ps_first_content_line st); [done|]. intros [= <-].
    destruct Hinv as [[H1 H2]|(es & e & b & H1 & H2 & Hes & He)]; [left|right].
    + simpl. by rewrite H2.
    + simpl. rewrite H2. by do 3 eexists.
Qed.

Lemma parse_thread_parsed input f : parse_thread input = Ok f → Forall parsed_entry (entries f).
Proof.
  rewrite parse_thread_lines. intros (st & Hst & [= <-])%res_bind_Ok. simpl.
  apply parser_inv_finalize.
  refine (for_fold_ind parse_line (λ _ st, parser_inv st) _ _ _ _ _ Hst); [by left|].
  intros l1 x l2 a a' _ Ha Hx. by eapply parse_line_inv.
Qed.

(** ** Concatenation *)

(** Two parser states that differ by finished entries in front. *)
Definition shifted (pre : list ThreadEntry) (st1 st2 : parser_state) : Prop :=
  ps_entries st1 = pre ++ ps_entries st2 ∧ ps_entries st2 ≠ [] ∧
  ps_current_body st1 = ps_current_body st2 ∧
  ps_first_content_line st1 = false ∧ ps_first_content_line st2 = false.

Lemma update_last_app {A} (f : A → A) l1 l2 : l2 ≠ [] → update_last f (l1 ++ l2) = l1 ++ update_last f l2.
Proof.
  intros Hne. destruct (exists_last Hne) as (l & x & ->). rewrite app_assoc, !update_last_snoc.
  by rewrite app_assoc.
Qed.

Lemma finalize_entry_app pre es b :
  es ≠ [] → finalize_entry (pre ++ es) b = pre ++ finalize_entry es b.
Proof. intros Hne. destruct b; [by apply update_last_app|done]. Qed.

Lemma parse_line_Ok st i line st' :
  parse_line st (i, line) = Ok st' →
  (∃ caps n p a, MSG_RE line = Some caps ∧ (∀ E, @parse_u64 E (cap_line caps) = Ok n)
     ∧ (∀ E, @parse_u64 E (cap_point caps) = Ok p) ∧ (∀ j, parse_author j (cap_handler caps) = Ok a)
     ∧ st' = MkParserState (finalize_entry (ps_entries st) (ps_current_body st)
                            ++ [new_entry n p a (cap_timestamp caps) (cap_event caps)])
               (Some (cap_body caps)) false)
  ∨ (MSG_RE line = None ∧ ps_first_content_line st = false
     ∧ st' = MkParserState (ps_entries st)
               ((λ body, body ++ [nl] ++ if starts_with line (lit " [L") then drop 1 line else line)
                <$> ps_current_body st) false).
Proof.
  unfold parse_line. destruct (MSG_RE line) as [caps|].
  - intros H. rewrite res_bind_Ok in H. destruct H as (n & Hn & H).
    rewrite res_bind_Ok in H. destruct H as (p & Hp & H).
    rewrite res_bind_Ok in H. destruct H as (a & Ha & [= <-]).
    left. exists caps, n, p, a. unfold parse_u64, parse_author in *. split_and!; try done.
    + intros E. by destruct (parse_unsigned _ (cap_line caps)); simplify_eq.
    + intros E. by destruct (parse_unsigned _ (cap_point caps)); simplify_eq.
    + intros j. case_bool_decide; [done|]. by rewrite map_err_Ok in Ha |- *.
  - destruct (ps_first_content_line st) eqn:E; [done|]. intros [= <-]. by right.
Qed.

Lemma parse_line_shifted pre st1 st2 i j line st2' :
  shifted pre st1 st2 → parse_line st2 (j, line) = Ok st2' →
  ∃ st1', parse_line st1 (i, line) = Ok st1' ∧ shifted pre st1' st2'.
Proof.
  intros (He & Hne & Hb & Hf1 & Hf2) Hp. unfold parse_line.
  apply parse_line_Ok in Hp as [(caps & n & p & a & Hm & Hn & Hpt & Ha & ->)|(Hm & _ & ->)]; rewrite Hm.
  - rewrite Hn. simpl. rewrite Hpt. simpl. rewrite Ha. simpl. eexists. split; [done|].
    rewrite He, Hb, finalize_entry_app, <-app_assoc by done. split_and!; try done. simpl.
    by destruct (finalize_entry _ _).
  - rewrite Hf1. eexists. split; [done|]. by rewrite Hb.
Qed.

Lemma parse_lines_shifted pre ls st1 st2 i j st2' :
  shifted pre st1 st2 → for_fold (enumerate_from j ls) st2 parse_line = Ok st2' →
  ∃ st1', for_fold (enumerate_from i ls) st1 parse_line = Ok st1' ∧ shifted pre st1' st2'.
Proof.
  revert st1 st2 i j. induction ls as [|l ls IH]; intros st1 st2 i j Hs; cbn [enumerate_from for_fold].
  { intros [= <-]. by exists st1. }
  intros (st & Hl & Hr)%res_bind_Ok.
  destruct (parse_line_shifted pre st1 st2 i j l st Hs Hl) as (st1' & -> & Hs'). simpl. by eapply IH.
Qed.

(** Logs concatenate: two complete files that parse, one after the other. *)
Lemma parse_thread_app a b fa fb :
  complete_file a → parse_thread a = Ok fa → parse_thread b = Ok fb →
  parse_thread (a ++ b) = Ok (MkThreadFile (entries fa ++ entries fb)).
Proof.
  rewrite !parse_thread_lines. intros Hc (sa & Ha & [= <-])%res_bind_Ok (sb & Hb & [= <-])%res_bind_Ok.
  rewrite file_lines_app, enumerate_from_app, for_fold_app, Ha by done. simpl.
  destruct (lines (replace_crlf b)) as [|l ls].
  { simpl in *. injection Hb as <-. simpl. by rewrite app_nil_r. }
  cbn [enumerate_from for_fold] in *. apply res_bind_Ok in Hb as (st & Hl & Hr).
  set (pre := finalize_entry (ps_entries sa) (ps_current_body sa)).
  apply parse_line_Ok in Hl as [(caps & n & p & au & Hm & Hn & Hpt & Hau & ->)|(_ & ? & _)]; [|done].
  unfold parse_line at 1. rewrite Hm, Hn. simpl. rewrite Hpt. simpl. rewrite Hau. simpl.
  match goal with |- context [for_fold (enumerate_from ?k ls) ?s1 parse_line] =>
    edestruct (parse_lines_shifted pre ls s1) with (i := k) as (st1' & Hrun & Hs'); [|exact Hr|] end.
  { split_and!; [reflexivity|done|reflexivity|done|done]. }
  rewrite Hrun. simpl. destruct Hs' as (He & Hne & Hbody & _).
  by rewrite He, Hbody, finalize_entry_app.
Qed.

(** ** Messages with any body

    Whatever text a body holds, its message is one entry: no line of a body is
    read as the header of another entry. *)

(** A line that loses a final carriage return. *)
Definition strip_cr (l : str) : str := unwrap_or (strip_suffix [cr] l) l.

Lemma strip_cr_spec l : strip_cr l = l ∧ ends_with l [cr] = false ∨ l = strip_cr l ++ [cr].
Proof.
  unfold strip_cr, ends_with. destruct (strip_suffix [cr] l) as [r|] eqn:E; [right|by left].
  by apply strip_suffix_Some in E.
Qed.

Lemma strip_cr_snoc l : strip_cr (l ++ [cr]) = l.
Proof. unfold strip_cr. by rewrite (proj2 (strip_suffix_Some _ _ _) eq_refl). Qed.

Lemma strip_cr_app a l : cr ∉ a → strip_cr (a ++ l) = a ++ strip_cr l.
Proof.
  intros Ha. destruct (strip_cr_spec l) as [[-> He]|Hl].
  - destruct (strip_cr_spec (a ++ l)) as [[H _]|H]; [done|]. exfalso.
    destruct l as [|x l] using rev_ind; [rewrite app_nil_r in H; rewrite H in Ha; set_solver|].
    rewrite app_assoc in H. apply app_inj_2 in H as [_ [= ->]]; [|done].
    apply not_true_iff_false in He. apply He, ends_with_true. by exists l.
  - rewrite Hl at 1. by rewrite app_assoc, strip_cr_snoc.
Qed.

Lemma strip_cr_prefix l : ∃ t, l = strip_cr l ++ t.
Proof. destruct (strip_cr_spec l) as [[-> _]|H]; [exists []; by rewrite app_nil_r|by exists [cr]]. Qed.

(** A written line, read back: normalising line ends takes one carriage return from
    its end, splitting into lines another. *)
Definition reread_line (l : str) : str := strip_cr (strip_cr l).

Lemma reread_line_app a l : cr ∉ a → reread_line (a ++ l) = a ++ reread_line l.
Proof. intros Ha. unfold reread_line. by rewrite !strip_cr_app. Qed.

Lemma reread_line_prefix l : ∃ t, l = reread_line l ++ t.
Proof.
  unfold reread_line. destruct (strip_cr_prefix l) as [t Ht], (strip_cr_prefix (strip_cr l)) as [t' Ht'].
  exists (t' ++ t). by rewrite app_assoc, <-Ht', <-Ht.
Qed.

Lemma reread_line_nil l : reread_line l = [] → Forall (λ c, c = cr) l.
Proof.
  unfold reread_line. intros H. destruct (strip_cr_spec l) as [[E _]|E], (strip_cr_spec (strip_cr l)) as [[E' _]|E'].
  - rewrite <-E, <-E', H. constructor.
  - rewrite <-E, E', H. by repeat constructor.
  - rewrite E, <-E', H. by repeat constructor.
  - rewrite E, E', H. by repeat constructor.
Qed.

Lemma replace_crlf_line a b :
  nl ∉ a → replace_crlf (a ++ nl :: b) = strip_cr a ++ nl :: replace_crlf b.
Proof.
  assert (∀ s, replace_crlf (nl :: s) = nl :: replace_crlf s) as Hnl by by intros [|].
  induction a as [|c a IH]; intros Hn; [apply Hnl|].
  specialize (IH ltac:(set_solver)). destruct a as [|d a].
  - simpl app in *. rewrite replace_crlf_cons2, Hnl. simpl. rewrite andb_true_r.
    destruct (N.eqb_spec c cr) as [->|Hc]; [done|].
    change [c] with ([c] ++ []). by rewrite (strip_cr_app [c] []) by set_solver.
  - rewrite <-!app_comm_cons in IH. rewrite <-!app_comm_cons, replace_crlf_cons2.
    destruct (N.eqb_spec d nl) as [->|Hd]; [set_solver|]. rewrite andb_false_r, IH.
    destruct (strip_cr_spec (d :: a)) as [[E He]|E].
    + rewrite E. destruct (strip_cr_spec (c :: d :: a)) as [[E' _]|E']; [by rewrite E'|]. exfalso.
      apply not_true_iff_false in He. apply He. destruct (strip_cr (c :: d :: a)) as [|x s]; [done|].
      injection E' as _ E'. apply ends_with_true. by exists s.
    + assert (strip_cr (c :: d :: a) = c :: strip_cr (d :: a)) as ->; [|done].
      transitivity (strip_cr ((c :: strip_cr (d :: a)) ++ [cr])); [by rewrite <-app_comm_cons, <-E|apply strip_cr_snoc].
Qed.

Lemma written_line a b :
  nl ∉ a → lines (replace_crlf (a ++ nl :: b)) = reread_line a :: lines (replace_crlf b).
Proof.
  intros Hn. rewrite replace_crlf_line by done. unfold lines.
  rewrite split_inclusive_line by (destruct (strip_cr_prefix a) as [t Ht]; rewrite Ht in Hn; set_solver). simpl. unfold line_of_chunk.
  rewrite (proj2 (strip_suffix_Some _ _ _) eq_refl). done.
Qed.

Lemma span_extend p s t a r : span p s = (a, r) → r ≠ [] → span p (s ++ t) = (a, r ++ t).
Proof.
  intros (-> & Ha & Hr)%span_spec Hne. rewrite <-app_assoc. apply span_app; [done|].
  intros c r' Heq. destruct r as [|x r]; [done|]. simplify_eq/=. by eapply Hr.
Qed.

Lemma MSG_PREFIX_RE_app line t : MSG_PREFIX_RE line = true → MSG_PREFIX_RE (line ++ t) = true.
Proof.
  unfold MSG_PREFIX_RE. destruct (strip_prefix _ line) as [r|] eqn:E; [|done].
  apply strip_prefix_Some in E as ->. rewrite <-app_assoc, strip_prefix_app. unfold re_digits6.
  destruct (span is_nd r) as [d r'] eqn:Es. destruct (6 <=? length d)%nat eqn:El; [|done].
  intros (x & ->)%starts_with_true. rewrite (span_extend _ _ _ _ _ Es) by done. rewrite El.
  apply starts_with_true. by eexists.
Qed.

(** What is left of an escaped continuation line is still no header. *)
Lemma escaped_prefix_not_header line a t : escaped line = a ++ t → MSG_RE a = None.
Proof.
  intros He. destruct (MSG_RE a) as [caps|] eqn:Em; [|done]. exfalso.
  apply MSG_RE_prefix, (MSG_PREFIX_RE_app a t) in Em. rewrite <-He in Em.
  unfold escaped in Em. destruct (MSG_PREFIX_RE line) eqn:E; [done|]. simpl in Em. congruence.
Qed.

(** A continuation line of a stored body. *)
Definition unescape (l : str) : str := if starts_with l (lit " [L") then drop 1 l else l.
Definition reread_continuation (l : str) : str := unescape (reread_line (escaped l)).

Lemma parse_written_continuations rest es b i :
  for_fold (enumerate_from i (map (λ l, reread_line (escaped l)) rest)) (MkParserState es (Some b) false) parse_line
  = Ok (MkParserState es (Some (b ++ concat (map (λ l, nl :: reread_continuation l) rest))) false).
Proof.
  revert b i. induction rest as [|l rest IH]; intros b i; simpl; [by rewrite app_nil_r|].
  destruct (reread_line_prefix (escaped l)) as [t Ht].
  rewrite (escaped_prefix_not_header l _ t Ht). simpl. rewrite IH. by rewrite <-app_assoc.
Qed.

Lemma written_continuations rest :
  Forall (λ l, nl ∉ l) rest →
  lines (replace_crlf (concat (map escape_continuation rest))) = map (λ l, reread_line (escaped l)) rest.
Proof.
  intros Hr. induction Hr as [|l rest Hl _ IH]; [done|]. simpl.
  assert (escape_continuation l = escaped l ++ [nl]) as ->
    by (unfold escape_continuation, escaped; by rewrite <-app_assoc).
  rewrite <-app_assoc. simpl. rewrite written_line; [by rewrite IH|].
  unfold escaped. rewrite not_elem_of_app. destruct (MSG_PREFIX_RE l); set_solver.
Qed.

Lemma lines_no_nl s l : l ∈ lines s → nl ∉ l.
Proof.
  revert l. induction s as [a Ha|a b Ha IH] using text_ind; intros l.
  - destruct a as [|x a]; [intros H; by apply not_elem_of_nil in H|].
    rewrite lines_last by done. by intros ->%list_elem_of_singleton.
  - unfold lines. rewrite split_inclusive_line by done. simpl.
    intros [->|Hin]%elem_of_cons; [|by apply IH].
    unfold line_of_chunk. rewrite (proj2 (strip_suffix_Some _ _ _) eq_refl).
    destruct (strip_suffix [cr] a) as [r|] eqn:E; [|done]. apply strip_suffix_Some in E as ->. set_solver.
Qed.

(** The first line of a body, which shares the header's line. *)
Definition body_first_line (body : str) : str := hd [] (lines body).

(** The body a reader gets back for the body a writer was given. *)
Definition stored_body (body : str) : str :=
  reread_line (body_first_line body) ++ concat (map (λ l, nl :: reread_continuation l) (tl (lines body))).

Definition stored_message (n p : N) (a : Handler) (ts body : str) : Message :=
  MkMessage n p a ts (stored_body body) (extract_mentions (stored_body body)) (extract_links (stored_body body)).

(** What [format_message] writes is one entry, or, when the first line of the body is
    blank but for carriage returns, a file whose first line is no header. *)
Lemma message_exact n p a ts body :
  n ≤ u64_MAX → p ≤ u64_MAX → known_author a → is_timestamp ts = true →
  parse_thread (format_message n p a ts body) =
  if is_empty (reread_line (body_first_line body)) then Err (FirstLineNotMessage 1)
  else Ok (MkThreadFile [EntryMessage (stored_message n p a ts body)]).
Proof.
  intros Hn Hp Ha Hts. rewrite parse_thread_lines. unfold stored_message, stored_body.
  assert (∃ first rest, format_message n p a ts body
      = (message_header n p a ts ++ lit " " ++ first) ++ nl :: concat (map escape_continuation rest)
      ∧ (nl ∉ first) ∧ Forall (λ l, nl ∉ l) rest ∧ body_first_line body = first ∧ tl (lines body) = rest)
    as (first & rest & -> & Hfirst & Hrest & -> & ->).
  { unfold format_message, body_first_line. destruct (lines body) as [|first rest] eqn:El.
    - exists [], []. split_and!; [|set_solver|constructor|done|done]. by rewrite <-!app_assoc.
    - exists first, rest. split_and!; [by rewrite <-!app_assoc|apply (lines_no_nl body); rewrite El; by left| |done|done].
      apply Forall_forall. intros l Hl. apply (lines_no_nl body). rewrite El. by right. }
  assert (∀ c, c = nl ∨ c = cr → c ∉ message_header n p a ts ++ lit " ") as Hhdr.
  { intros c Hc. rewrite not_elem_of_app. split; [apply header_no; try done; destruct Hc; by subst|].
    destruct Hc; subst; set_solver. }
  assert (nl ∉ first) as Hf by done. revert Hf.
  destruct (reread_line_prefix first) as [t Ht]. intros Hf.
  rewrite written_line; last first.
  { rewrite app_assoc, not_elem_of_app. split; [apply Hhdr; by left|done]. }
  rewrite app_assoc, reread_line_app, written_continuations; [|done|apply Hhdr; by right].
  assert (nl ∉ reread_line first) as Hfirst' by (rewrite Ht in Hf; set_solver).
  revert Hfirst'. generalize (reread_line first). intros first' Hfirst'.
  cbn [enumerate_from for_fold]. rewrite <-app_assoc.
  destruct (known_author_slug _ Ha) as [Hane Hachars].
  unfold parse_line at 1. change (lit " " ++ first') with ([] ++ lit " " ++ first').
  rewrite (MSG_RE_header_any n p a ts None first') by done.
  assert (contains first' [nl] = false) as ->.
  { apply not_true_iff_false. by rewrite contains_char_true. }
  destruct first' as [|x first']; [done|].
  simpl is_empty. cbn [orb]. simpl. unfold parse_u64. rewrite !parse_fmt_N_pad by done. simpl.
  rewrite parse_author_known by done. simpl. by rewrite parse_written_continuations.
Qed.

Lemma message_outcome n p a ts body :
  n ≤ u64_MAX → p ≤ u64_MAX → known_author a → is_timestamp ts = true →
  ∃ r, parse_thread (format_message n p a ts body) = r ∧
  ((∃ body', r = Ok (MkThreadFile [EntryMessage (MkMessage n p a ts body' (extract_mentions body')
                                                   (extract_links body'))])
              ∧ body_first_line body ≠ [])
   ∨ (is_err r = true ∧ Forall (λ c, c = cr) (body_first_line body))).
Proof.
  intros Hn Hp Ha Hts. eexists. split; [done|]. rewrite message_exact by done.
  destruct (reread_line (body_first_line body)) eqn:E; [right; split; [done|by apply reread_line_nil]|left].
  exists (stored_body body). split; [done|]. intros H. by rewrite H in E.
Qed.

Lemma message_single n p a ts body f :
  n ≤ u64_MAX → p ≤ u64_MAX → known_author a → is_timestamp ts = true →
  parse_thread (format_message n p a ts body) = Ok f →
  entries f = [EntryMessage (stored_message n p a ts body)].
Proof. intros Hn Hp Ha Hts. rewrite message_exact by done. destruct (is_empty _); [done|]. by intros [= <-]. Qed.

(** *** What ends a file *)

Lemma ends_with_app (a b x : str) : ends_with b x = true → ends_with (a ++ b) x = true.
Proof.
  rewrite !ends_with_true. intros (r & ->). exists (a ++ r). by rewrite app_assoc.
Qed.

Lemma complete_app a b : ends_with b [nl] = true → complete_file (a ++ b).
Proof.
  intros Hb. right. by apply ends_with_app.
Qed.

Lemma format_message_ends n p h ts body : ends_with (format_message n p h ts body) [nl] = true.
Proof.
  unfold format_message. destruct (lines body) as [|first rest]; [by apply ends_with_app|].
  do 2 apply ends_with_app. destruct (decide (rest = [])) as [->|Hne]; [done|].
  apply ends_with_app. destruct (exists_last Hne) as (rest' & l & ->). rewrite map_app, concat_app.
  apply ends_with_app. simpl. rewrite app_nil_r. by do 2 apply ends_with_app.
Qed.

Lemma format_event_ends n h ts et meta : ends_with (format_event n h ts et meta) [nl] = true.
Proof. unfold format_event. by do 5 apply ends_with_app. Qed.

(** ** Claims *)

(** C2: appending to a thread file is what it looks like.  Let a complete file parse to
    [es].  The file followed by what [format_message] or [format_event] writes for a
    printable entry [e] parses to [es] followed by [e] itself.  Printable means: line
    numbers below 2^64, an author that is a handler or [system], a timestamp, an event
    whose type and payload survive their own reading, and a message body without
    carriage returns, without a final line break, with a first line that is not empty
    and no later line that starts with a space and ["[L"].  A message with any other
    body, as long as its first line is not blank, is followed too by exactly one
    message, with the body [stored_body] tells.  Nothing already in the log changes,
    and the file stays complete. *)
Theorem append_entry_parses (file : str) (es : list ThreadEntry)
    (Hfile : parse_thread file = Ok (MkThreadFile es)) (Hcomplete : complete_file file) :
  (∀ e, printable e →
     parse_thread (file ++ render_entry e) = Ok (MkThreadFile (es ++ [e])) ∧ complete_file (file ++ render_entry e))
  ∧ (∀ n p a ts body, n ≤ u64_MAX → p ≤ u64_MAX → known_author a → is_timestamp ts = true →
       ¬ Forall (λ c, c = cr) (body_first_line body) →
       parse_thread (file ++ format_message n p a ts body)
         = Ok (MkThreadFile (es ++ [EntryMessage (stored_message n p a ts body)]))
       ∧ complete_file (file ++ format_message n p a ts body)).
Proof.
  split; [intros e He; by apply append_parses|]. intros n p a ts body Hn Hp Ha Hts Hb.
  pose proof (message_exact n p a ts body Hn Hp Ha Hts) as Hm.
  destruct (is_empty (reread_line (body_first_line body))) eqn:E.
  { exfalso. by apply Hb, reread_line_nil, is_empty_true. }
  split; [by rewrite (parse_thread_app _ _ _ _ Hcomplete Hfile Hm)|]. by apply complete_app, format_message_ends.
Qed.

(** A log written entry by entry with the formatter reads back as exactly the
    entries that were written. *)
Theorem render_parse_roundtrip (es : list ThreadEntry) (Hes : Forall printable es) :
  parse_thread (concat (map render_entry es)) = Ok (MkThreadFile es).
Proof. by apply render_parses. Qed.

(** C7: a message body cannot forge entries.  Whatever the body contains (line breaks,
    carriage returns, text that looks like headers), what [format_message] writes
    for it parses, if at all, to exactly one message with the given line number,
    parent, author and timestamp, whose body is the given one line by line, up to
    carriage returns at line ends and the space before a quoted header. *)
Theorem message_body_cannot_forge (n p : N) (a : Handler) (ts body : str) (f : ThreadFile)
    (Hn : n ≤ u64_MAX) (Hp : p ≤ u64_MAX) (Ha : known_author a) (Hts : is_timestamp ts = true)
    (Hparse : parse_thread (format_message n p a ts body) = Ok f) :
  entries f = [EntryMessage (stored_message n p a ts body)].
Proof. by apply (message_single n p a ts body). Qed.

(** C21: [parse_thread] returns a thread file for exactly the inputs whose first line
    (if there is one) is a header and whose every header line has line numbers
    that fit in 64 bits and an admissible author; and every entry of the result
    has such numbers, such an author, a well-formed timestamp, and mentions and
    links computed from its own body. *)
Theorem parse_thread_outcome (input : str) :
  (is_ok (parse_thread input) = true ↔
     (∀ l, head (lines (replace_crlf input)) = Some l → is_some (MSG_RE l) = true)
     ∧ Forall line_readable (lines (replace_crlf input)))
  ∧ (∀ f, parse_thread input = Ok f → Forall parsed_entry (entries f)).
Proof. split; [apply parse_thread_ok_iff|apply parse_thread_parsed]. Qed.
End thread.

(** ** Concrete runs *)

(** A [serde_json] with the keyword values and the empty object, enough to run the
    parser and the checks. *)
Inductive json_keyword := JNull | JTrue | JFalse | JEmptyObject.

Definition keyword_print (v : json_keyword) : str :=
  match v with JNull => lit "null" | JTrue => lit "true" | JFalse => lit "false"
  | JEmptyObject => lit "{}" end.

Definition keyword_json : SerdeJson.
Proof.
  refine {| json := json_keyword; json_null := JNull; json_is_object := λ v, match v with JEmptyObject => true | _ => false end;
            json_from_str := λ t, if t =?? lit "null" then Some JNull
                                  else if t =?? lit "true" then Some JTrue
                                  else if t =?? lit "false" then Some JFalse
                                  else if t =?? lit "{}" then Some JEmptyObject else None;
            json_to_string := λ v, Some (keyword_print v);
            json_exact := λ _, True; json_obj := λ _, JEmptyObject |}; [|done..].
  intros v _. exists (keyword_print v). by destruct v; split_and!; try done; intros H;
    repeat (apply elem_of_cons in H as [H|H]; [done|]); apply not_elem_of_nil in H.
Defined.

Section runs.
#[local] Existing Instance ascii_unicode.
#[local] Existing Instance std_percent_encoding.
#[local] Existing Instance keyword_json.

Definition sample_file : str :=
  lit "[L000001][P000000][@alice][20260101T000000Z] hello
[L000002][P000000][@system][20260101T000100Z][E:join] {}
".

Definition sample_message : ThreadEntry :=
  EntryMessage (MkMessage 3 1 (MkHandler (lit "bob")) (lit "20260101T000200Z")
    (lit "hi <@alice>
[L000009] quoted
 end") [MkHandler (lit "alice")] []).

Lemma sample_message_printable : printable sample_message.
Proof.
  unfold printable. split_and!; [done|done|by right|by vm_compute|].
  split_and!; [|by vm_compute|by vm_compute]. split_and!; [|by vm_compute|].
  - simpl. intros H. repeat (apply elem_of_cons in H as [H|H]; [done|]). by apply not_elem_of_nil in H.
  - do 2 eexists. split; [by vm_compute|]. split; [done|]. repeat constructor.
Qed.

Lemma append_entry_parses_witness :
  ∃ es, parse_thread (sample_file ++ render_entry sample_message) = Ok (MkThreadFile (es ++ [sample_message]))
        ∧ length es = 2%nat.
Proof.
  eexists. split; [eapply (append_entry_parses _ _); [vm_compute; reflexivity|right; by vm_compute|]|reflexivity].
  exact sample_message_printable.
Defined.

Lemma render_parse_roundtrip_witness :
  parse_thread (lit "[L000003][P000001][@bob][20260101T000200Z] hi <@alice>
 [L000009] quoted
 end
") = Ok (MkThreadFile [sample_message]).
Proof.
  refine (render_parse_roundtrip [sample_message] _). constructor; [exact sample_message_printable|constructor].
Defined.

Lemma parse_thread_outcome_witness : Forall line_readable (lines (replace_crlf sample_file)).
Proof.
  refine (proj2 (proj1 (proj1 (parse_thread_outcome sample_file)) _)). vm_compute. reflexivity.
Defined.

Definition hostile_body : str :=
  lit "hi
[L000002][P000000][@root][20260101T000000Z] forged
 [L000003]".

Lemma message_body_cannot_forge_witness :
  ∃ f, parse_thread (format_message 1 0 (MkHandler (lit "bob")) (lit "20260101T000200Z") hostile_body) = Ok f
    ∧ entries f = [EntryMessage (stored_message 1 0 (MkHandler (lit "bob")) (lit "20260101T000200Z") hostile_body)].
Proof.
  eexists.
  assert (parse_thread (format_message 1 0 (MkHandler (lit "bob")) (lit "20260101T000200Z") hostile_body) = Ok _)
    as Hparse by (vm_compute; reflexivity).
  split; [exact Hparse|].
  exact (message_body_cannot_forge 1 0 (MkHandler (lit "bob")) (lit "20260101T000200Z") hostile_body _
           ltac:(done) ltac:(done) (or_intror eq_refl) eq_refl Hparse).
Defined.

(** The numbers of a header line are read with [expect]: a line number that does
    not fit in 64 bits stops the parser. *)
Example oversized_line_number_panics :
  parse_thread (lit "[L99999999999999999999][P000000][@alice][20260101T000000Z] hello
") = Panicked.
Proof. by vm_compute. Qed.

(** The unescaping rule is wider than the escaping rule: a continuation line that
    starts with a space and [[L] but is no header loses its space. *)
Example continuation_space_lost :
  parse_thread (format_message 1 0 (MkHandler (lit "bob")) (lit "20260101T000200Z") (lit "a
 [Link]")) =
  Ok (MkThreadFile [EntryMessage (MkMessage 1 0 (MkHandler (lit "bob")) (lit "20260101T000200Z") (lit "a
[Link]") [] [])]).
Proof. by vm_compute. Qed.
End runs.
