(* ===== verification/Compliance.v ===== *)
(** * Write gate, read check and membership rules

    The checks every append goes through and the audit of a whole file
    ([gitim-core/src/validator/compliance.rs], [gitim-core/src/validator/read_check.rs]),
    and the rules for joining and leaving a channel
    ([gitim-core/src/validator/im_rules.rs]). *)

From S2P Require Import Prelude RustStr StrFacts Names QuickSession Asset Links Thread.
From stdpp Require Import options.
Open Scope N_scope.
Open Scope list_scope.

(** ** Membership rules *)

Inductive ImRuleError :=
  | AuthorNotRegistered (h : str)
  | TargetNotRegistered (h : str)
  | AuthorNotMember (h : str)
  | AlreadyMember (h : str)
  | NotMember (h : str)
  | LastMember (h : str).

Definition validate_join (author : str) (targets registered_users current_members : list str)
  : res unit ImRuleError :=
  let reg : gset str := list_to_set registered_users in
  let members : gset str := list_to_set current_members in
  try? guard_err (negb (bool_decide (author ∈ reg))) (AuthorNotRegistered author) then
  if is_empty targets then guard_err (bool_decide (author ∈ members)) (AlreadyMember author)
  else
    try? guard_err (negb (bool_decide (author ∈ members))) (AuthorNotMember author) then
    for_each targets (λ target,
      try? guard_err (negb (bool_decide (target ∈ reg))) (TargetNotRegistered target) then
      guard_err (bool_decide (target ∈ members)) (AlreadyMember target)).

Definition validate_leave (author : str) (targets registered_users current_members : list str)
  : res unit ImRuleError :=
  let reg : gset str := list_to_set registered_users in
  let members : gset str := list_to_set current_members in
  try? guard_err (negb (bool_decide (author ∈ reg))) (AuthorNotRegistered author) then
  if is_empty targets then
    try? guard_err (negb (bool_decide (author ∈ members))) (NotMember author) then
    guard_err (size members =? 1)%nat (LastMember author)
  else
    try? guard_err (negb (bool_decide (author ∈ members))) (AuthorNotMember author) then
    for_each targets (λ target,
      try? guard_err (negb (bool_decide (target ∈ reg))) (TargetNotRegistered target) then
      guard_err (negb (bool_decide (target ∈ members))) (NotMember target)).

Section compliance.
Context `{UC : !Unicode} `{PE : !PercentEncoding} `{SJ : !SerdeJson}.

(** ** The write gate *)

Inductive ComplianceError :=
  | ComplianceParse (e : ParseError)
  | LineNumberGap (expected got : N)
  | UnknownAuthor (h : str)
  | InvalidPointTo (n : N)
  | EmptyBody (n : N)
  | UnknownMention (handler : str) (line_number : N)
  | EventNonZeroPointTo (n : N)
  | EventInvalidJson (n : N)
  | ComplianceNotMember (h : str).

(** The body of the loop for one entry; the state is [known_lines] and
    [expected_next]. *)
Definition validate_entry (user_set : gset str) (allowed_senders : list str) (st : gset N * N) (entry : ThreadEntry)
  : res (gset N * N) ComplianceError :=
  let '(known_lines, expected_next) := st in
  let ln := entry_line_number entry in
  let author := handler_str (entry_author entry) in
  try? guard_err (negb (ln =? expected_next)) (LineNumberGap expected_next ln) then
  try? guard_err (negb (bool_decide (author ∈ user_set))) (UnknownAuthor author) then
  try? guard_err (negb (is_empty allowed_senders) && negb (bool_decide (author ∈ allowed_senders)))
         (ComplianceNotMember author) then
  try? (match entry with
        | EntryMessage msg =>
            try? guard_err (negb (m_point_to msg =? 0) && negb (bool_decide (m_point_to msg ∈ known_lines)))
                   (InvalidPointTo (m_point_to msg)) then
            try? for_each (m_mentions msg) (λ mention,
                   guard_err (negb (bool_decide (handler_str mention ∈ user_set)))
                     (UnknownMention (handler_str mention) ln)) then
            guard_err (is_empty (trim (m_body msg))) (EmptyBody ln)
        | EntryEvent ev =>
            try? guard_err (negb (ev_point_to ev =? 0)) (EventNonZeroPointTo ln) then
            guard_err (negb (json_is_object (ev_meta ev))) (EventInvalidJson ln)
        end) then
  Ok ({[ln]} ∪ known_lines, wrapping_add ln 1).

Definition validate_append (existing new_lines : str) (registered_users allowed_senders : list str)
  : res unit ComplianceError :=
  let? existing_file := map_err ComplianceParse (parse_thread existing) in
  let? new_file := map_err ComplianceParse (parse_thread new_lines) in
  let max_existing := last_line_number existing_file in
  let known_lines : gset N := list_to_set (map entry_line_number (entries existing_file)) in
  let user_set : gset str := list_to_set registered_users in
  try? for_fold (entries new_file) (known_lines, wrapping_add max_existing 1)
         (validate_entry user_set allowed_senders) then
  Ok tt.

(** ** The read check *)

Inductive IntegrityIssue :=
  | IssueLineNumberGap (expected got : N)
  | IssueUnknownAuthor (h : str)
  | IssueInvalidPointTo (n : N)
  | IssueEmptyBody (n : N)
  | IssueUnknownMention (handler : str) (line_number : N)
  | IssueParseError (e : ParseError).

(** [if cond { issues.push(i) }]. *)
Definition push_if (cond : bool) (i : IntegrityIssue) : list IntegrityIssue := if cond then [i] else [].

Definition entry_issues (user_set : gset str) (known_lines : gset N) (expected_next : N) (entry : ThreadEntry)
  : list IntegrityIssue :=
  let ln := entry_line_number entry in
  let author := handler_str (entry_author entry) in
  push_if (negb (ln =? expected_next)) (IssueLineNumberGap expected_next ln)
  ++ push_if (negb (bool_decide (author ∈ user_set))) (IssueUnknownAuthor author)
  ++ match entry with
     | EntryMessage msg =>
         push_if (negb (m_point_to msg =? 0) && negb (bool_decide (m_point_to msg ∈ known_lines)))
           (IssueInvalidPointTo (m_point_to msg))
         ++ push_if (is_empty (trim (m_body msg))) (IssueEmptyBody ln)
         ++ flat_map (λ mention, push_if (negb (bool_decide (handler_str mention ∈ user_set)))
                                   (IssueUnknownMention (handler_str mention) ln)) (m_mentions msg)
     | EntryEvent ev =>
         push_if (negb (ev_point_to ev =? 0)) (IssueLineNumberGap 0 (ev_point_to ev))
         ++ push_if (negb (json_is_object (ev_meta ev))) (IssueEmptyBody ln)
     end.

Fixpoint check_entries (user_set : gset str) (known_lines : gset N) (expected_next : N) (es : list ThreadEntry)
  : list IntegrityIssue :=
  match es with
  | [] => []
  | e :: es' =>
      entry_issues user_set known_lines expected_next e
      ++ check_entries user_set ({[entry_line_number e]} ∪ known_lines) (wrapping_add (entry_line_number e) 1) es'
  end.

Definition check_thread_integrity (input : str) (registered_users : list str)
  : res (list IntegrityIssue) Empty_set :=
  match parse_thread input with
  | Panicked => Panicked
  | Err e => Ok [IssueParseError e]
  | Ok file => Ok (check_entries (list_to_set registered_users) ∅ 1 (entries file))
  end.

(** ** The contract of a log

    What both checks enforce, stated once: entries numbered consecutively,
    written by registered users, replying only to earlier entries. *)
Definition entry_wf (users : gset str) (known : gset N) (expected : N) (e : ThreadEntry) : Prop :=
  entry_line_number e = expected ∧ handler_str (entry_author e) ∈ users ∧
  match e with
  | EntryMessage m =>
      (m_point_to m = 0 ∨ m_point_to m ∈ known) ∧ trim (m_body m) ≠ []
      ∧ Forall (λ h, handler_str h ∈ users) (m_mentions m)
  | EntryEvent ev => ev_point_to ev = 0 ∧ json_is_object (ev_meta ev) = true
  end.

Fixpoint log_wf (users : gset str) (known : gset N) (expected : N) (es : list ThreadEntry) : Prop :=
  match es with
  | [] => True
  | e :: es' => entry_wf users known expected e
                ∧ log_wf users ({[entry_line_number e]} ∪ known) (wrapping_add (entry_line_number e) 1) es'
  end.

(** [sender_ok]: members only, unless the channel lists no members. *)
Definition sender_ok (allowed : list str) (e : ThreadEntry) : Prop :=
  allowed = [] ∨ handler_str (entry_author e) ∈ allowed.

(** ** The checks implement the contract *)

Lemma negb_decide_false (P : Prop) `{!Decision P} : negb (bool_decide P) = false ↔ P.
Proof. rewrite negb_false_iff, bool_decide_eq_true. done. Qed.

Lemma validate_entry_Ok users allowed known expected e st' :
  validate_entry users allowed (known, expected) e = Ok st' ↔
  entry_wf users known expected e ∧ sender_ok allowed e
  ∧ st' = ({[entry_line_number e]} ∪ known, wrapping_add (entry_line_number e) 1).
Proof.
  unfold validate_entry, entry_wf, sender_ok.
  rewrite !try_Ok, !guard_err_Ok, negb_false_iff, N.eqb_eq, negb_decide_false.
  rewrite andb_false_iff, negb_false_iff, negb_decide_false, is_empty_true.
  assert ((Ok ({[entry_line_number e]} ∪ known, wrapping_add (entry_line_number e) 1)
     = @Ok _ ComplianceError st') ↔
     st' = ({[entry_line_number e]} ∪ known, wrapping_add (entry_line_number e) 1)) as -> by naive_solver.
  destruct e as [m|ev].
  - rewrite !try_Ok, !guard_err_Ok, for_each_Ok, is_empty_false.
    rewrite andb_false_iff, negb_false_iff, N.eqb_eq, negb_decide_false.
    rewrite (Forall_iff _ (m_mentions m) (λ h, handler_str h ∈ users)); [naive_solver|].
    intros h. by rewrite guard_err_Ok, negb_decide_false.
  - rewrite !try_Ok, !guard_err_Ok, !negb_false_iff, N.eqb_eq. naive_solver.
Qed.

Lemma validate_entries_Ok users allowed known expected es :
  (∃ st, for_fold es (known, expected) (validate_entry users allowed) = Ok st) ↔
  log_wf users known expected es ∧ Forall (sender_ok allowed) es.
Proof.
  revert known expected. induction es as [|e es IH]; intros known expected; simpl.
  - split; [by repeat constructor|]. by eexists.
  - rewrite Forall_cons. setoid_rewrite res_bind_Ok. split.
    + intros (st & st' & (He & Hs & ->)%validate_entry_Ok & Hst).
      destruct (proj1 (IH _ _) (ex_intro _ st Hst)) as [Hl Hf]. done.
    + intros [[He Hl] [Hs Hf]]. destruct (proj2 (IH _ _) (conj Hl Hf)) as [st Hst].
      exists st. eexists. split; [by apply validate_entry_Ok|done].
Qed.

Lemma push_if_nil b i : push_if b i = [] ↔ b = false.
Proof. by destruct b. Qed.

Lemma flat_map_nil {A B} (f : A → list B) l : flat_map f l = [] ↔ Forall (λ x, f x = []) l.
Proof.
  induction l as [|x l IH]; simpl; [by split|]. by rewrite app_nil, Forall_cons, IH.
Qed.

Lemma entry_issues_nil users known expected e :
  entry_issues users known expected e = [] ↔ entry_wf users known expected e.
Proof.
  unfold entry_issues, entry_wf.
  rewrite !app_nil, !push_if_nil, negb_false_iff, N.eqb_eq, negb_decide_false.
  destruct e as [m|ev].
  - rewrite !app_nil, !push_if_nil, flat_map_nil, is_empty_false.
    rewrite andb_false_iff, negb_false_iff, N.eqb_eq, negb_decide_false.
    rewrite (Forall_iff _ (m_mentions m) (λ h, handler_str h ∈ users)); [naive_solver|].
    intros h. by rewrite push_if_nil, negb_decide_false.
  - rewrite app_nil, !push_if_nil, !negb_false_iff, N.eqb_eq. naive_solver.
Qed.

Lemma check_entries_nil users known expected es :
  check_entries users known expected es = [] ↔ log_wf users known expected es.
Proof.
  revert known expected. induction es as [|e es IH]; intros known expected; simpl; [done|].
  by rewrite app_nil, entry_issues_nil, IH.
Qed.

(** ** Logs grow consistently *)

Definition log_lines (es : list ThreadEntry) : gset N := list_to_set (map entry_line_number es).
Definition log_next (expected : N) (es : list ThreadEntry) : N :=
  match last es with Some e => wrapping_add (entry_line_number e) 1 | None => expected end.

Lemma log_wf_app users known expected es1 es2 :
  log_wf users known expected (es1 ++ es2) ↔
  log_wf users known expected es1 ∧ log_wf users (log_lines es1 ∪ known) (log_next expected es1) es2.
Proof.
  revert known expected. induction es1 as [|e es1 IH]; intros known expected; simpl.
  - unfold log_lines, log_next. simpl. rewrite (left_id_L ∅ (∪)). tauto.
  - rewrite IH. replace (log_lines (e :: es1) ∪ known) with (log_lines es1 ∪ ({[entry_line_number e]} ∪ known))
      by (unfold log_lines; simpl; set_solver).
    replace (log_next expected (e :: es1)) with (log_next (wrapping_add (entry_line_number e) 1) es1).
    + tauto.
    + unfold log_next. destruct es1 as [|e' es1]; [done|].
      rewrite last_cons_cons. destruct (last (e' :: es1)) eqn:El; [done|]. by apply last_None in El.
Qed.

Lemma last_line_number_next f : wrapping_add (last_line_number f) 1 = log_next 1 (entries f).
Proof. unfold last_line_number, log_next. by destruct (last (entries f)). Qed.

Lemma validate_append_spec existing new_lines users allowed :
  validate_append existing new_lines users allowed = Ok tt ↔
  ∃ f g, parse_thread existing = Ok f ∧ parse_thread new_lines = Ok g
    ∧ log_wf (list_to_set users) (log_lines (entries f)) (log_next 1 (entries f)) (entries g)
    ∧ Forall (sender_ok allowed) (entries g).
Proof.
  unfold validate_append. rewrite res_bind_Ok. setoid_rewrite map_err_Ok.
  setoid_rewrite res_bind_Ok. setoid_rewrite map_err_Ok. split.
  - intros (f & Hf & g & Hg & (st & Hst & _)%res_bind_Ok). exists f, g. split_and!; [done..| |];
      rewrite last_line_number_next in Hst; by apply (proj1 (validate_entries_Ok _ _ _ _ _) (ex_intro _ st Hst)).
  - intros (f & g & Hf & Hg & Hl & Hs). exists f. split; [done|]. exists g. split; [done|].
    rewrite last_line_number_next.
    destruct (proj2 (validate_entries_Ok _ _ _ _ _) (conj Hl Hs)) as [st Hst].
    unfold log_lines in Hst. by rewrite Hst.
Qed.

Lemma check_integrity_spec input users :
  check_thread_integrity input users = Ok [] ↔
  ∃ f, parse_thread input = Ok f ∧ log_wf (list_to_set users) ∅ 1 (entries f).
Proof.
  unfold check_thread_integrity. destruct (parse_thread input) as [f|e|] eqn:E.
  - setoid_rewrite <-check_entries_nil. split; [intros [= Hi]; by exists f|].
    intros (f' & [= <-] & Hi). by rewrite Hi.
  - split; [done|by intros (f' & ? & _)].
  - split; [done|by intros (f' & ? & _)].
Qed.

Lemma log_wf_lookup users known expected es i e :
  log_wf users known expected es → es !! i = Some e →
  entry_wf users (log_lines (take i es) ∪ known) (log_next expected (take i es)) e.
Proof.
  intros Hl Hi. rewrite <-(take_drop_middle es i e Hi), log_wf_app in Hl.
  destruct Hl as [_ [He _]]. done.
Qed.

(** The number an entry of a clean log must have. *)
Lemma log_wf_numbers users es i e :
  N.of_nat (length es) < 2 ^ 64 → log_wf users ∅ 1 es → es !! i = Some e →
  entry_line_number e = N.of_nat i + 1.
Proof.
  intros Hlen Hl. revert e. induction (lt_wf i) as [i _ IH]. intros e Hi.
  destruct (log_wf_lookup _ _ _ _ _ _ Hl Hi) as [-> _]. unfold log_next.
  pose proof (lookup_lt_Some _ _ _ Hi) as Hlt.
  destruct i as [|i]; [by rewrite take_0|].
  destruct (lookup_lt_is_Some_2 es i) as [e' He']; [lia|].
  rewrite (take_S_r _ _ _ He'), last_snoc. rewrite (IH i) by (done || lia).
  rewrite wrapping_add_small; [lia|]. lia.
Qed.

Lemma log_wf_replies users es i m :
  N.of_nat (length es) < 2 ^ 64 → log_wf users ∅ 1 es → es !! i = Some (EntryMessage m) →
  m_point_to m = 0 ∨ 1 ≤ m_point_to m < m_line_number m.
Proof.
  intros Hlen Hl Hi. destruct (log_wf_lookup _ _ _ _ _ _ Hl Hi) as (_ & _ & [H0|Hin] & _); [by left|].
  right. rewrite (right_id_L ∅ (∪)) in Hin. unfold log_lines in Hin.
  apply elem_of_list_to_set, list_elem_of_fmap in Hin as (e & -> & He).
  apply list_elem_of_lookup in He as [j Hj]. apply lookup_take_Some in Hj as [Hj Hlt].
  rewrite (log_wf_numbers _ _ _ _ Hlen Hl Hj).
  pose proof (log_wf_numbers _ _ _ _ Hlen Hl Hi) as Hm. simpl in Hm. lia.
Qed.

Lemma append_keeps_clean existing new_lines users allowed :
  complete_file existing → check_thread_integrity existing users = Ok [] →
  validate_append existing new_lines users allowed = Ok tt →
  check_thread_integrity (existing ++ new_lines) users = Ok [].
Proof.
  intros Hcomplete (f & Hf & Hl)%check_integrity_spec (f' & g & Hf' & Hg & Hl' & _)%validate_append_spec.
  rewrite Hf in Hf'. injection Hf' as <-.
  apply check_integrity_spec. eexists. split; [by eapply parse_thread_app|]. simpl.
  apply log_wf_app. by rewrite (right_id_L ∅ (∪)).
Qed.

(** C34: the write gate is exactly the contract of a log.  [validate_append] accepts
    new text exactly when both texts parse and the new entries continue the log:
    numbered consecutively from its last line, written and mentioning only
    registered users, sent by a member when the channel has members, replying
    only to known lines, with no blank body, and events carrying a JSON object. *)
Theorem validate_append_exact (existing new_lines : str) (users allowed : list str) :
  validate_append existing new_lines users allowed = Ok tt ↔
  ∃ f g, parse_thread existing = Ok f ∧ parse_thread new_lines = Ok g
    ∧ log_wf (list_to_set users) (log_lines (entries f)) (log_next 1 (entries f)) (entries g)
    ∧ Forall (sender_ok allowed) (entries g).
Proof. apply validate_append_spec. Qed.

(** Appends that pass the gate keep a clean file clean: if the read check finds
    no issue in a complete file and the write gate accepts the new text, the read
    check finds no issue in the concatenation. *)
Theorem append_preserves_integrity (existing new_lines : str) (users allowed : list str)
    (Hcomplete : complete_file existing)
    (Hclean : check_thread_integrity existing users = Ok [])
    (Hgate : validate_append existing new_lines users allowed = Ok tt) :
  check_thread_integrity (existing ++ new_lines) users = Ok [].
Proof. by eapply append_keeps_clean. Qed.

(** What a clean read check means.  In a file without issues (and fewer than 2^64
    entries) the entry at position [i] has line number [i + 1], its author is
    registered, and every reply points to a strictly earlier line. *)
Theorem clean_log_structure (input : str) (users : list str)
    (Hclean : check_thread_integrity input users = Ok []) :
  ∃ f, parse_thread input = Ok f ∧
    (N.of_nat (length (entries f)) < 2 ^ 64 →
     ∀ i e, entries f !! i = Some e →
       entry_line_number e = N.of_nat i + 1 ∧ handler_str (entry_author e) ∈ users ∧
       ∀ m, e = EntryMessage m → m_point_to m = 0 ∨ 1 ≤ m_point_to m < m_line_number m).
Proof.
  apply check_integrity_spec in Hclean as (f & Hf & Hl). exists f. split; [done|].
  intros Hlen i e Hi. split_and!.
  - by eapply log_wf_numbers.
  - destruct (log_wf_lookup _ _ _ _ _ _ Hl Hi) as (_ & Hu & _). by apply elem_of_list_to_set in Hu.
  - intros m ->. by eapply log_wf_replies.
Qed.
End compliance.

(** ** Membership *)

Lemma for_each_guard2 {E} (l : list str) (p q : str → bool) (e1 e2 : str → E) :
  for_each l (λ x, try? guard_err (p x) (e1 x) then guard_err (q x) (e2 x)) = Ok tt ↔
  Forall (λ x, p x = false ∧ q x = false) l.
Proof.
  rewrite for_each_Ok. apply Forall_iff. intros x. by rewrite try_Ok, !guard_err_Ok.
Qed.

Lemma validate_join_Ok author targets users members :
  validate_join author targets users members = Ok tt ↔
  author ∈ users ∧
  ((targets = [] ∧ author ∉ members) ∨
   (targets ≠ [] ∧ author ∈ members ∧ Forall (λ t, t ∈ users ∧ t ∉ members) targets)).
Proof.
  unfold validate_join. rewrite try_Ok, guard_err_Ok, negb_decide_false, elem_of_list_to_set.
  destruct targets as [|t ts]; cbn [is_empty].
  - rewrite guard_err_Ok, bool_decide_eq_false, elem_of_list_to_set. naive_solver.
  - rewrite try_Ok, guard_err_Ok, negb_decide_false, elem_of_list_to_set, for_each_guard2.
    rewrite (Forall_iff _ (t :: ts) (λ t, t ∈ users ∧ t ∉ members)); [naive_solver|].
    intros x. by rewrite negb_decide_false, bool_decide_eq_false, !elem_of_list_to_set.
Qed.

Lemma validate_leave_Ok author targets users members :
  validate_leave author targets users members = Ok tt ↔
  author ∈ users ∧ author ∈ members ∧
  ((targets = [] ∧ size (list_to_set members : gset str) ≠ 1%nat) ∨
   (targets ≠ [] ∧ Forall (λ t, t ∈ users ∧ t ∈ members) targets)).
Proof.
  unfold validate_leave. rewrite try_Ok, guard_err_Ok, negb_decide_false, elem_of_list_to_set.
  destruct targets as [|t ts]; cbn [is_empty];
    rewrite try_Ok, guard_err_Ok, negb_decide_false, elem_of_list_to_set.
  - rewrite guard_err_Ok, Nat.eqb_neq. naive_solver.
  - rewrite for_each_guard2.
    rewrite (Forall_iff _ (t :: ts) (λ t, t ∈ users ∧ t ∈ members)); [naive_solver|].
    intros x. by rewrite !negb_decide_false, !elem_of_list_to_set.
Qed.

(** The last-member guard covers only members who leave by themselves: a member
    who names himself as the target is let go even when he is the last one. *)
Example kick_can_remove_last_member :
  validate_leave (lit "a") [] [lit "a"] [lit "a"] = Err (LastMember (lit "a"))
  ∧ validate_leave (lit "a") [lit "a"] [lit "a"] [lit "a"] = Ok tt.
Proof. by vm_compute. Qed.

Section runs.
#[local] Existing Instance ascii_unicode.
#[local] Existing Instance std_percent_encoding.
#[local] Existing Instance keyword_json.

Definition sample_new : str :=
  lit "[L000003][P000001][@bob][20260101T000200Z] hi <@alice>
".

Lemma append_preserves_integrity_witness :
  check_thread_integrity (sample_file ++ sample_new) [lit "alice"; lit "bob"; lit "system"] = Ok [].
Proof.
  apply (append_preserves_integrity sample_file sample_new _ [lit "bob"]).
  - right. by vm_compute.
  - by vm_compute.
  - by vm_compute.
Defined.

Lemma clean_log_structure_witness :
  ∃ f, parse_thread sample_file = Ok f ∧
    (N.of_nat (length (entries f)) < 2 ^ 64 →
     ∀ i e, entries f !! i = Some e →
       entry_line_number e = N.of_nat i + 1 ∧ handler_str (entry_author e) ∈ [lit "alice"; lit "system"] ∧
       ∀ m, e = EntryMessage m → m_point_to m = 0 ∨ 1 ≤ m_point_to m < m_line_number m).
Proof. apply clean_log_structure. by vm_compute. Defined.
End runs.
