(* ===== verification/Meta.v ===== *)
(** * Metadata records

    User, channel, project and card metadata and the workspace configuration with
    their validators ([gitim-core/src/types/{meta,project,card,config}.rs],
    [gitim-core/src/validator/mod.rs]).  YAML is a parameter: a printer and a
    parser of records that invert each other. *)

From S2P Require Import Prelude RustStr StrFacts Names QuickSession Asset Links Thread.
From stdpp Require Import options.
Open Scope N_scope.
Open Scope list_scope.

(** ** [serde_yaml] for one record type *)
Class Yaml (A : Type) := {
  yaml_to_string : A → option str;
  yaml_from_str : str → option A;
  yaml_roundtrip : ∀ a t, yaml_to_string a = Some t → yaml_from_str t = Some a;
}.

(** ** Records *)

Inductive UserKind := KindUnknown | KindHuman | KindAgent.

Definition UserKind_as_str (k : UserKind) : str :=
  match k with
  | KindUnknown => lit "unknown"
  | KindHuman => lit "human"
  | KindAgent => lit "agent"
  end.

Record UserMeta := MkUserMeta {
  um_display_name : str;
  um_role : str;
  um_introduction : str;
  um_labels : list str;
  um_kind : UserKind;
}.

Record ChannelMeta := MkChannelMeta {
  cm_display_name : str;
  cm_created_by : str;
  cm_created_at : str;
  cm_introduction : str;
  cm_members : list str;
  cm_project : option str;
}.

Record ProjectMeta := MkProjectMeta {
  pm_display_name : str;
  pm_created_by : str;
  pm_created_at : str;
  pm_introduction : str;
}.

Record DaemonConfig := MkDaemonConfig {
  dc_sync_interval : N;
  dc_debug_http : bool;
  dc_debug_port : N;
}.

Record Config := MkConfig {
  cfg_version : N;
  cfg_endpoint : str;
  cfg_endpoint_url : str;
  cfg_daemon : DaemonConfig;
}.

Definition DaemonConfig_default : DaemonConfig := MkDaemonConfig 3 false 3000.
Definition Config_default : Config := MkConfig 1 (lit "github") [] DaemonConfig_default.

Inductive ArchivedVia := ViaChannel | ViaManual.

Record CardMeta := MkCardMeta {
  card_title : str;
  card_channel : str;
  card_status : CardStatus;
  card_labels : list str;
  card_assignee : option str;
  card_created_by : str;
  card_created_at : str;
  card_updated_at : str;
  card_archived_via : option ArchivedVia;
}.

#[export] Instance CardStatus_eq_dec : EqDecision CardStatus.
Proof. solve_decision. Defined.
#[export] Instance ArchivedVia_eq_dec : EqDecision ArchivedVia.
Proof. solve_decision. Defined.
#[export] Instance ChannelMeta_eq_dec : EqDecision ChannelMeta.
Proof. solve_decision. Defined.
#[export] Instance CardMeta_eq_dec : EqDecision CardMeta.
Proof. solve_decision. Defined.

(** ** User metadata at the daemon boundary ([types/meta.rs]) *)

Definition MAX_INTRODUCTION_LEN : N := 256.

Inductive UserMetaError :=
  | IntroductionTooLong (n max : N)
  | UserLabel (e : LabelError).

Definition meta_validate_user_meta (meta : UserMeta) : res unit UserMetaError :=
  try? guard_err (MAX_INTRODUCTION_LEN <? len (um_introduction meta))
         (IntroductionTooLong (len (um_introduction meta)) MAX_INTRODUCTION_LEN) then
  map_err UserLabel (validate_labels (um_labels meta) USER_MAX_LABELS).

(** ** Validators of YAML text ([validator/mod.rs]) *)

Inductive ValidationError :=
  | YamlParse
  | FieldConstraint (field reason : str)
  | InvalidChannelName (reason : str)
  | InvalidConfig (version : N).

(** [s.is_empty() || s.len() > max]: a field of 1 to [max] bytes. *)
Definition bad_length (s : str) (max : N) : bool := is_empty s || (max <? len s).

Section validators.
Context `{UC : !Unicode} `{YU : !Yaml UserMeta} `{YC : !Yaml ChannelMeta} `{YP : !Yaml ProjectMeta} `{YF : !Yaml Config}.

Definition validate_user_meta (yaml : str) : res UserMeta ValidationError :=
  let? meta := ok_or (yaml_from_str yaml) YamlParse in
  try? guard_err (bad_length (um_display_name meta) 64)
         (FieldConstraint (lit "display_name") (lit "must be 1-64 characters")) then
  try? guard_err (bad_length (um_role meta) 32)
         (FieldConstraint (lit "role") (lit "must be 1-32 characters")) then
  try? guard_err (bad_length (um_introduction meta) 500)
         (FieldConstraint (lit "introduction") (lit "must be 1-500 characters")) then
  Ok meta.

Definition validate_channel_meta (yaml : str) : res ChannelMeta ValidationError :=
  let? meta := ok_or (yaml_from_str yaml) YamlParse in
  try? guard_err (bad_length (cm_display_name meta) 64)
         (FieldConstraint (lit "display_name") (lit "must be 1-64 characters")) then
  try? guard_err (bad_length (cm_introduction meta) 500)
         (FieldConstraint (lit "introduction") (lit "must be 1-500 characters")) then
  try? map_err (λ _, FieldConstraint (lit "created_by") (lit "must be a valid handler"))
         (Handler_new (cm_created_by meta)) then
  try? guard_err (negb (is_timestamp (cm_created_at meta)))
         (FieldConstraint (lit "created_at") (lit "must match YYYYMMDDTHHmmssZ format")) then
  Ok meta.

Definition validate_project_meta (yaml : str) : res ProjectMeta ValidationError :=
  let? meta := ok_or (yaml_from_str yaml) YamlParse in
  try? guard_err (bad_length (pm_display_name meta) 64)
         (FieldConstraint (lit "display_name") (lit "must be 1-64 characters")) then
  try? guard_err (bad_length (pm_introduction meta) 500)
         (FieldConstraint (lit "introduction") (lit "must be 1-500 characters")) then
  try? map_err (λ _, FieldConstraint (lit "created_by") (lit "must be a valid handler"))
         (Handler_new (pm_created_by meta)) then
  Ok meta.

Definition validate_config (yaml : str) : res Config ValidationError :=
  let? config := ok_or (yaml_from_str yaml) YamlParse in
  try? guard_err (negb (cfg_version config =? 1)) (InvalidConfig (cfg_version config)) then
  Ok config.
End validators.

(** The error side of [validate_channel_name]; its success side is
    [Links.validate_channel_name]. *)
Definition channel_name_error (e : ChannelNameError) : ValidationError :=
  match e with
  | ChannelNameEmpty | ChannelNameTooLong => InvalidChannelName (lit "must be 1-32 characters")
  | ChannelNameInvalidChar _ => InvalidChannelName (lit "invalid characters")
  | ChannelNameHyphenBoundary => InvalidChannelName (lit "must not start or end with hyphen")
  | ChannelNameConsecutiveHyphens => InvalidChannelName (lit "must not contain consecutive hyphens")
  end.

(** ** Card metadata ([types/card.rs]) *)

(** The byte test of [validate_timestamp]. *)
Definition card_timestamp_ok (timestamp : str) : bool :=
  let bytes := as_bytes timestamp in
  (length bytes =? 16)%nat && (bytes !! 8%nat =?? Some (ch "T")) && (bytes !! 15%nat =?? Some (ch "Z"))
  && forallb is_ascii_digit (take 8 bytes) && forallb is_ascii_digit (take 6 (drop 9 bytes)).

Definition validate_timestamp (timestamp : str) : res unit CardError :=
  if card_timestamp_ok timestamp then Ok tt else Err (InvalidTimestamp timestamp).

Definition validate_card_meta (meta : CardMeta) : res unit CardError :=
  try? guard_err (is_empty (trim (card_title meta))) EmptyTitle then
  try? map_err InvalidChannel (ChannelName_new (card_channel meta)) then
  try? map_err InvalidHandler (Handler_new (card_created_by meta)) then
  try? (match card_assignee meta with
        | Some assignee => try? map_err InvalidHandler (Handler_new assignee) then Ok tt
        | None => Ok tt
        end) then
  try? map_err CardLabel (validate_labels (card_labels meta) CARD_MAX_LABELS) then
  try? validate_timestamp (card_created_at meta) then
  validate_timestamp (card_updated_at meta).

Inductive CardMetaYamlError := CardYaml | CardInvalid (e : CardError).

Section card_yaml.
Context `{YM : !Yaml CardMeta}.

Definition parse_card_meta_yaml (yaml : str) : res CardMeta CardMetaYamlError :=
  let? meta := ok_or (yaml_from_str yaml) CardYaml in
  try? map_err CardInvalid (validate_card_meta meta) then
  Ok meta.

Definition stringify_card_meta_yaml (meta : CardMeta) : res str CardMetaYamlError :=
  try? map_err CardInvalid (validate_card_meta meta) then
  ok_or (yaml_to_string meta) CardYaml.

(** ** Facts *)

(** The card file format is closed under writing and reading: what
    [stringify_card_meta_yaml] writes is read back by [parse_card_meta_yaml] as the
    same card, and only cards that pass [validate_card_meta] are written or read. *)
Theorem card_meta_yaml_roundtrip (meta : CardMeta) (text : str)
    (Hwrite : stringify_card_meta_yaml meta = Ok text) :
  parse_card_meta_yaml text = Ok meta ∧ validate_card_meta meta = Ok tt.
Proof.
  unfold stringify_card_meta_yaml in Hwrite.
  rewrite try_Ok, map_err_Ok, ok_or_Ok in Hwrite. destruct Hwrite as [Hv Ht].
  split; [|done]. unfold parse_card_meta_yaml. rewrite (yaml_roundtrip _ _ Ht). simpl. by rewrite Hv.
Qed.
End card_yaml.

(** The byte-level timestamp test is the regular expression on ASCII digits. *)
Lemma card_timestamp_is_timestamp `{!Unicode} ts : card_timestamp_ok ts = true → is_timestamp ts = true.
Proof.
  unfold card_timestamp_ok, is_timestamp. rewrite !andb_true_iff, !bool_decide_eq_true, !forallb_Forall.
  intros ((((Hl & HT) & HZ) & H8) & H6). apply Nat.eqb_eq in Hl.
  assert (Forall (λ b, b < 128) (as_bytes ts)) as Hb.
  { apply Forall_lookup. intros i b Hi. pose proof (lookup_lt_Some _ _ _ Hi) as Hlt.
    assert (∀ c, is_ascii_digit c = true → c < 128) as Hd by (unfold is_ascii_digit, in_range; lia).
    rewrite Forall_lookup in H8, H6.
    destruct (decide (i < 8)%nat); [apply Hd, (H8 i); by rewrite lookup_take_lt|].
    destruct (decide (i = 8)%nat) as [->|]; [by simplify_eq|].
    destruct (decide (i < 15)%nat).
    - apply Hd, (H6 (i - 9)%nat). rewrite lookup_take_lt by lia. rewrite lookup_drop.
      by replace (9 + (i - 9))%nat with i by lia.
    - assert (i = 15)%nat as -> by lia. by simplify_eq. }
  assert (as_bytes ts = ts) as Heq.
  { apply as_bytes_ascii, Forall_forall. intros c Hc. by eapply as_bytes_lt128. }
  rewrite Heq in Hl, HT, HZ, H8, H6.
  assert (∀ l, Forall (λ c, is_ascii_digit c = true) l → Forall (λ c, is_nd c = true) l) as Hnd
    by (intros l; apply all_digits_nd).
  split_and!; [by rewrite Hl|by apply Hnd| |by apply Hnd|].
  - rewrite (drop_S _ _ _ HT). done.
  - rewrite (drop_S _ _ _ HZ), drop_ge by lia. done.
Qed.

(** ** A concrete YAML

    A record type that can be flattened to fields, each a list of strings, has a
    printer and a parser that invert each other: length-prefixed fields. *)
Definition print_strs (f : list str) : str := flat_map (λ s, N.of_nat (length s) :: s) f.

Fixpoint read_strs (n : nat) (l : str) : list str * str :=
  match n, l with
  | S n', k :: l' => let '(f, r) := read_strs n' (drop (N.to_nat k) l') in (take (N.to_nat k) l' :: f, r)
  | _, _ => ([], l)
  end.

Definition print_fields (fs : list (list str)) : str := flat_map (λ f, N.of_nat (length f) :: print_strs f) fs.

Fixpoint read_fields (n : nat) (l : str) : list (list str) :=
  match n, l with
  | S n', k :: l' => let '(f, r) := read_strs (N.to_nat k) l' in f :: read_fields n' r
  | _, _ => []
  end.

Lemma read_print_strs f r : read_strs (length f) (print_strs f ++ r) = (f, r).
Proof.
  induction f as [|s f IH]; [done|]. simpl. rewrite <-app_assoc, Nat2N.id.
  rewrite take_app_length, drop_app_length. by rewrite IH.
Qed.

Lemma read_print_fields n fs : (length fs ≤ n)%nat → read_fields n (print_fields fs) = fs.
Proof.
  revert n. induction fs as [|f fs IH]; intros [|n] Hn; try done; [simpl in Hn; lia|].
  simpl in *. rewrite Nat2N.id, read_print_strs. rewrite IH; [done|lia].
Qed.

Lemma print_fields_length fs : (length fs ≤ length (print_fields fs))%nat.
Proof. induction fs as [|f fs IH]; simpl; [lia|]. rewrite length_app. lia. Qed.

(** A map as a field. *)
Definition pair_strs (p : str * str) : list str := [p.1; p.2].
Definition map_strs (m : gmap str str) : list str := concat (map pair_strs (map_to_list m)).
Fixpoint pairs_of (l : list str) : list (str * str) :=
  match l with
  | a :: b :: l' => (a, b) :: pairs_of l'
  | _ => []
  end.

Lemma pairs_of_strs l : pairs_of (concat (map pair_strs l)) = l.
Proof. induction l as [|[a b] l IH]; cbn; [done|]. by rewrite IH. Qed.

Lemma map_of_strs m : list_to_map (pairs_of (map_strs m)) = m.
Proof. unfold map_strs. by rewrite pairs_of_strs, list_to_map_to_list. Qed.

Definition fields_yaml {A} (flat : A → list (list str)) (build : list (list str) → option A)
  (H : ∀ a, build (flat a) = Some a) : Yaml A.
Proof.
  refine {| yaml_to_string := λ a, Some (print_fields (flat a));
            yaml_from_str := λ t, build (read_fields (length t) t) |}.
  intros a t [= <-]. rewrite read_print_fields by apply print_fields_length. apply H.
Defined.

Definition channel_meta_yaml : Yaml ChannelMeta.
Proof.
  refine (fields_yaml (λ m, [[cm_display_name m]; [cm_created_by m]; [cm_created_at m]; [cm_introduction m];
                               cm_members m; option_list (cm_project m)])
            (λ fs, match fs with
                   | [[a]; [b]; [c]; [d]; e; f] => Some (MkChannelMeta a b c d e (head f))
                   | _ => None
                   end) _).
  by intros [a b c d e []].
Defined.

Definition card_meta_yaml : Yaml CardMeta.
Proof.
  refine (fields_yaml (λ m, [[card_title m]; [card_channel m]; [CardStatus_as_str (card_status m)]; card_labels m;
                               option_list (card_assignee m); [card_created_by m]; [card_created_at m];
                               [card_updated_at m];
                               match card_archived_via m with
                               | None => [] | Some ViaChannel => [[]] | Some ViaManual => [[]; []]
                               end])
            (λ fs, match fs with
                   | [[a]; [b]; [c]; d; e; [f]; [g]; [h]; i] =>
                       st ← res_ok (CardStatus_parse c);
                       Some (MkCardMeta a b st d (head e) f g h
                               match i with [] => None | [_] => Some ViaChannel | _ => Some ViaManual end)
                   | _ => None
                   end) _).
  by intros [a b [] d [] f g h [[]|]].
Defined.

Definition sample_card : CardMeta :=
  MkCardMeta (lit "Fix it") (lit "ops") Doing [lit "bug"] (Some (lit "bob")) (lit "alice")
    (lit "20260101T000000Z") (lit "20260101T000100Z") None.

Lemma card_meta_yaml_roundtrip_witness :
  ∃ text, @parse_card_meta_yaml card_meta_yaml text = Ok sample_card
          ∧ validate_card_meta sample_card = Ok tt.
Proof.
  eexists. refine (@card_meta_yaml_roundtrip card_meta_yaml sample_card _ _).
  vm_compute. reflexivity.
Defined.

(** The length limits are stated in characters but count bytes: a display name
    of 22 CJK characters is rejected as longer than 64. *)
Example display_name_limit_counts_bytes :
  chars_count (replicate 22 20013) = 22 ∧ bad_length (replicate 22 20013) 64 = true.
Proof. by vm_compute. Qed.
