(* ===== verification/Git.v ===== *)
(** * The clone and the git commands on it

    A clone has three trees: the work tree the daemon reads and writes, the index,
    and the tree of [HEAD].  The git program is not part of the sources: it is the
    class [Git], one operation per command line the sources run, with the effect
    git documents for a command that succeeds.  The wrappers of
    [gitim-sync/src/git.rs] and the push loop of [card_handlers.rs] are
    definitions on top of it. *)

From S2P Require Import Prelude RustStr StrFacts.
From stdpp Require Import options.
Open Scope N_scope.
Open Scope list_scope.

Abbreviation tree := (@gmap str list_eq_dec list_countable str).

Record Repo := MkRepo {
  r_work : tree;
  r_index : tree;
  r_head : tree;
}.

Definition slash : char := ch "/".

(** What is left of path [k] after [p], when [k] is [p] or lies below it. *)
Definition strip_dir (p k : str) : option str :=
  match strip_prefix p k with
  | Some [] => Some []
  | Some (c :: rest) => if c =? slash then Some (c :: rest) else None
  | None => None
  end.

Definition below (p k : str) : bool := is_some (strip_dir p k).

(** [p] names a file or a directory that holds one. *)
Definition path_exists (t : tree) (p : str) : bool :=
  existsb (λ kv : str * str, below p kv.1) (map_to_list t).

(** The effect of renaming [from] to [to]: every path at or below [from] moves. *)
Definition moved_entries (from to : str) (t : tree) : list (str * str) :=
  omap (λ kv : str * str, rest ← strip_dir from kv.1; Some (to ++ rest, kv.2)) (map_to_list t).

Definition move_tree (from to : str) (t : tree) : tree :=
  list_to_map (moved_entries from to t) ∪ filter (λ kv : str * str, strip_dir from kv.1 = None) t.

(** [k] is named by one of the paths or lies below one of them. *)
Definition in_paths (ps : list str) (k : str) : bool := existsb (λ p, below p k) ps.

(** [dst] with everything the paths name replaced by what [src] has there. *)
Definition sync_paths (ps : list str) (src dst : tree) : tree :=
  filter (λ kv : str * str, in_paths ps kv.1 = true) src
  ∪ filter (λ kv : str * str, in_paths ps kv.1 = false) dst.

(** [dst] with the files the paths name in [src] written over it. *)
Definition overlay_paths (ps : list str) (src dst : tree) : tree :=
  filter (λ kv : str * str, in_paths ps kv.1 = true) src ∪ dst.

(** The last component of a path. *)
Definition basename (p : str) : str := List.last (split_char slash p) [].

(** What [git push] reports. *)
Inductive PushAnswer := Pushed | PushConflict | PushError.

(** The commands.  [git_env] is whatever decides whether a command succeeds; [None]
    is a command that failed, which leaves the clone as it was.  [git rebase] may
    stop half way, so it gives the clone it leaves and whether it succeeded. *)
Class Git := {
  git_env : Type;
  git_mv : git_env → str → str → Repo → option Repo;
  git_add : git_env → list str → Repo → option Repo;
  git_commit : git_env → Repo → option Repo;
  git_reset_paths : git_env → list str → Repo → option Repo;
  git_checkout_path : git_env → str → Repo → option Repo;
  git_push : git_env → Repo → PushAnswer;
  git_fetch : git_env → bool;
  git_rebase : git_env → Repo → Repo * bool;
  git_mv_moves g from to r r' :
    git_mv g from to r = Some r' →
    path_exists (r_index r) from = true
    ∧ let dest := if path_exists (r_work r) to then to ++ slash :: basename from else to in
      r' = MkRepo (move_tree from dest (r_work r)) (move_tree from dest (r_index r)) (r_head r);
  git_add_stages g ps r r' :
    git_add g ps r = Some r' →
    Forall (λ p, path_exists (r_work r) p || path_exists (r_index r) p = true) ps
    ∧ r' = MkRepo (r_work r) (sync_paths ps (r_work r) (r_index r)) (r_head r);
  git_commit_records g r r' :
    git_commit g r = Some r' → r' = MkRepo (r_work r) (r_index r) (r_index r);
  git_reset_paths_unstages g ps r r' :
    git_reset_paths g ps r = Some r' →
    r' = MkRepo (r_work r) (sync_paths ps (r_head r) (r_index r)) (r_head r);
  git_checkout_restores g p r r' :
    git_checkout_path g p r = Some r' →
    r' = MkRepo (overlay_paths [p] (r_index r) (r_work r)) (r_index r) (r_head r);
}.

(** ** Facts about moving trees *)

Lemma strip_dir_Some p k rest :
  strip_dir p k = Some rest ↔ k = p ++ rest ∧ (rest = [] ∨ ∃ r, rest = slash :: r).
Proof.
  unfold strip_dir. destruct (strip_prefix p k) as [s|] eqn:E.
  - rewrite strip_prefix_Some in E. subst k. destruct s as [|c s].
    + split; [intros [= <-]; auto|]. intros [H%app_inv_head _]. by subst.
    + destruct (N.eqb_spec c slash) as [->|Hc].
      * split; [intros [= <-]; eauto|]. intros [H%app_inv_head _]. by subst.
      * split; [done|]. intros [H%app_inv_head Hr]. subst. naive_solver.
  - split; [done|]. intros [-> _]. by rewrite strip_prefix_app in E.
Qed.

Lemma below_true p k : below p k = true ↔ ∃ rest, strip_dir p k = Some rest.
Proof. apply is_some_true. Qed.

Lemma strip_dir_None_below p k : strip_dir p k = None ↔ below p k = false.
Proof. unfold below. by rewrite is_some_false. Qed.

Lemma strip_dir_app p rest : rest = [] ∨ (∃ r, rest = slash :: r) → strip_dir p (p ++ rest) = Some rest.
Proof. intros H. by apply strip_dir_Some. Qed.

Lemma path_exists_false t p : path_exists t p = false ↔ ∀ k, is_Some (t !! k) → strip_dir p k = None.
Proof.
  unfold path_exists. rewrite existsb_false, Forall_forall. split.
  - intros H k [v Hv]. apply strip_dir_None_below. apply (H (k, v)). by apply elem_of_map_to_list.
  - intros H [k v] Hkv%elem_of_map_to_list. simpl. apply strip_dir_None_below. apply H. by eexists.
Qed.

Lemma path_exists_true t p : path_exists t p = true ↔ ∃ k v rest, t !! k = Some v ∧ strip_dir p k = Some rest.
Proof.
  unfold path_exists. rewrite existsb_Exists, Exists_exists. split.
  - intros ([k v] & Hkv%elem_of_map_to_list & Hb). apply below_true in Hb as [rest Hb]. by exists k, v, rest.
  - intros (k & v & rest & Hk & Hs). exists (k, v). split; [by apply elem_of_map_to_list|].
    apply below_true. by exists rest.
Qed.

Lemma moved_entries_elem from to t k v :
  (k, v) ∈ moved_entries from to t ↔
  ∃ rest, k = to ++ rest ∧ (rest = [] ∨ ∃ r, rest = slash :: r) ∧ t !! (from ++ rest) = Some v.
Proof.
  unfold moved_entries. rewrite list_elem_of_omap. split.
  - intros ([k' v'] & Hkv%elem_of_map_to_list & Hs). simpl in Hs.
    destruct (strip_dir from k') as [rest|] eqn:E; [|done]. simpl in Hs. injection Hs as <- <-.
    apply strip_dir_Some in E as [-> Hr]. by exists rest.
  - intros (rest & -> & Hr & Ht). exists (from ++ rest, v). rewrite elem_of_map_to_list. split; [done|].
    simpl. by rewrite (strip_dir_app from rest Hr).
Qed.

Lemma moved_entries_fun from to t k v1 v2 :
  (k, v1) ∈ moved_entries from to t → (k, v2) ∈ moved_entries from to t → v1 = v2.
Proof.
  rewrite !moved_entries_elem. intros (r1 & -> & _ & H1) (r2 & He & _ & H2).
  apply app_inv_head in He as ->. congruence.
Qed.

Lemma lookup_moved from to t k :
  (list_to_map (moved_entries from to t) : tree) !! k = (rest ← strip_dir to k; t !! (from ++ rest)).
Proof.
  destruct (strip_dir to k) as [rest|] eqn:E; simpl.
  - apply strip_dir_Some in E as [-> Hr]. destruct (t !! (from ++ rest)) as [v|] eqn:Ht.
    + apply elem_of_list_to_map_1'; [|by apply moved_entries_elem; exists rest].
      intros v' Hv'. refine (moved_entries_fun from to t _ _ _ _ Hv'). apply moved_entries_elem. by exists rest.
    + apply not_elem_of_list_to_map_1. rewrite list_elem_of_fmap. intros ([k v] & Hk & Hin).
      simpl in Hk. subst k. apply moved_entries_elem in Hin as (rest' & He & _ & Hv).
      apply app_inv_head in He as ->. congruence.
  - apply not_elem_of_list_to_map_1. rewrite list_elem_of_fmap. intros ([k' v] & Hk & Hin). simpl in Hk. subst k'.
    apply moved_entries_elem in Hin as (rest & -> & Hr & _). by rewrite strip_dir_app in E.
Qed.

(** Where a path comes from after the rename. *)
Lemma lookup_move_tree from to t k :
  move_tree from to t !! k =
  match (rest ← strip_dir to k; t !! (from ++ rest)) with
  | Some v => Some v
  | None => if below from k then None else t !! k
  end.
Proof.
  unfold move_tree. rewrite lookup_union, lookup_moved.
  generalize (strip_dir to k ≫= λ rest, t !! (from ++ rest)). intros [v|]; [by destruct (filter _ t !! k)|].
  rewrite (left_id None (∪)). destruct (below from k) eqn:Hb.
  - apply map_lookup_filter_None. right. intros v _. simpl. rewrite strip_dir_None_below. congruence.
  - apply option_eq. intros v. rewrite map_lookup_filter_Some. simpl.
    rewrite strip_dir_None_below. tauto.
Qed.

(** Two places of which neither contains the other. *)
Definition apart (p q : str) : Prop := ∀ k, strip_dir p k = None ∨ strip_dir q k = None.

#[export] Instance apart_sym : Symmetric apart.
Proof. intros p q H k. destruct (H k); auto. Qed.

Lemma apart_below p q k rest : apart p q → strip_dir p k = Some rest → strip_dir q k = None.
Proof. intros H Hs. destruct (H k) as [E|E]; [congruence|done]. Qed.

Lemma lookup_move_to from to t rest :
  (rest = [] ∨ ∃ r, rest = slash :: r) → path_exists t to = false →
  move_tree from to t !! (to ++ rest) = t !! (from ++ rest).
Proof.
  intros Hr He. rewrite lookup_move_tree, (strip_dir_app to rest Hr). simpl.
  destruct (t !! (from ++ rest)) as [v|]; [done|]. destruct (below from _); [done|].
  destruct (t !! (to ++ rest)) as [v|] eqn:Ht; [|done].
  rewrite path_exists_false in He.
  specialize (He (to ++ rest) (ex_intro _ v Ht)). by rewrite strip_dir_app in He.
Qed.

Lemma lookup_move_from from to t k :
  apart from to → below from k = true → move_tree from to t !! k = None.
Proof.
  intros Ha Hb. pose proof Hb as [rest Hs]%below_true.
  rewrite lookup_move_tree, (apart_below _ _ _ _ Ha Hs). simpl. by rewrite Hb.
Qed.

Lemma lookup_move_other from to t k :
  below from k = false → below to k = false → move_tree from to t !! k = t !! k.
Proof.
  intros Hf Ht. rewrite lookup_move_tree. rewrite <-strip_dir_None_below in Ht. rewrite Ht. simpl. by rewrite Hf.
Qed.

Lemma path_exists_moved from to t : apart from to → path_exists (move_tree from to t) from = false.
Proof.
  intros Ha. rewrite path_exists_false. intros k [v Hv].
  destruct (strip_dir from k) eqn:E; [|done].
  rewrite lookup_move_from in Hv; [done|done|]. apply below_true. by eexists.
Qed.

(** Renaming back undoes a rename to a free place. *)
Lemma move_tree_back from to t :
  apart from to → path_exists t to = false → move_tree to from (move_tree from to t) = t.
Proof.
  intros Ha He. apply map_eq. intros k.
  destruct (strip_dir from k) as [rest|] eqn:Ef.
  - apply strip_dir_Some in Ef as [-> Hr].
    rewrite lookup_move_to; [|done|by apply path_exists_moved]. by apply lookup_move_to.
  - destruct (below to k) eqn:Et.
    + rewrite lookup_move_from; [|by apply apart_sym|done].
      symmetry. apply eq_None_not_Some. intros Hk. rewrite path_exists_false in He.
      specialize (He k Hk). apply strip_dir_None_below in He. congruence.
    + assert (below from k = false) by by apply strip_dir_None_below.
      rewrite lookup_move_other by done. by apply lookup_move_other.
Qed.

Lemma lookup_sync_paths ps src dst k :
  sync_paths ps src dst !! k = if in_paths ps k then src !! k else dst !! k.
Proof.
  unfold sync_paths. rewrite lookup_union. destruct (in_paths ps k) eqn:E.
  - rewrite (proj2 (map_lookup_filter_None _ dst k)) by (right; simpl; congruence).
    rewrite (right_id None (∪)). apply option_eq. intros v. rewrite map_lookup_filter_Some. simpl. tauto.
  - rewrite (proj2 (map_lookup_filter_None _ src k)) by (right; simpl; congruence).
    rewrite (left_id None (∪)). apply option_eq. intros v. rewrite map_lookup_filter_Some. simpl. tauto.
Qed.

Lemma lookup_overlay_paths ps src dst k :
  overlay_paths ps src dst !! k =
  match (if in_paths ps k then src !! k else None) with Some v => Some v | None => dst !! k end.
Proof.
  unfold overlay_paths. rewrite lookup_union. destruct (in_paths ps k) eqn:E.
  - assert (filter (λ kv : str * str, in_paths ps kv.1 = true) src !! k = src !! k) as ->.
    { apply option_eq. intros v. rewrite map_lookup_filter_Some. simpl. tauto. }
    by destruct (src !! k), (dst !! k).
  - rewrite (proj2 (map_lookup_filter_None _ src k)) by (right; simpl; congruence).
    by rewrite (left_id None (∪)).
Qed.

Lemma below_refl p : below p p = true.
Proof. apply below_true. exists []. apply strip_dir_Some. rewrite app_nil_r. auto. Qed.

Lemma below_app p rest k : rest = [] ∨ (∃ r, rest = slash :: r) → below (p ++ rest) k = true → below p k = true.
Proof.
  intros Hr. rewrite !below_true. intros (s & [-> Hs]%strip_dir_Some).
  exists (rest ++ s). apply strip_dir_Some. rewrite app_assoc. split; [done|].
  destruct Hr as [->|[r ->]]; [done|]. right. by eexists.
Qed.

(** What a path names moves with it. *)
Lemma below_prefix p q rest : below (p ++ q) (p ++ rest) = below q rest.
Proof.
  apply eq_iff_eq_true. rewrite !below_true. split; intros (s & [H Hs]%strip_dir_Some); exists s; apply strip_dir_Some.
  - rewrite <-app_assoc in H. by apply app_inv_head in H.
  - subst rest. by rewrite app_assoc.
Qed.

(** Two paths that start with different characters are apart. *)
Lemma apart_head (c d : char) p q : c ≠ d → apart (c :: p) (d :: q).
Proof.
  intros Hne k. destruct (strip_dir (c :: p) k) as [rest|] eqn:E; [right|by left].
  apply strip_dir_Some in E as [-> _]. destruct (strip_dir (d :: q) _) eqn:E; [|done].
  apply strip_dir_Some in E as [[= Hcd _] _]. done.
Qed.

Lemma apart_prefix (p a b : str) : apart a b → apart (p ++ a) (p ++ b).
Proof.
  intros H k. destruct (strip_dir (p ++ a) k) as [r1|] eqn:E1; [right|by left].
  destruct (strip_dir (p ++ b) k) as [r2|] eqn:E2; [exfalso|done].
  apply strip_dir_Some in E1 as [-> H1], E2 as [He H2]. rewrite <-!app_assoc in He. apply app_inv_head in He.
  destruct (H (a ++ r1)) as [E|E]; [by rewrite strip_dir_app in E|]. rewrite He in E. by rewrite strip_dir_app in E.
Qed.

Lemma apart_names (a b : str) : slash ∉ a → slash ∉ b → a ≠ b → apart a b.
Proof.
  intros Ha Hb Hne k. destruct (strip_dir a k) as [r1|] eqn:E1; [right|by left].
  destruct (strip_dir b k) as [r2|] eqn:E2; [exfalso|done].
  apply strip_dir_Some in E1 as [-> H1], E2 as [He H2].
  apply app_eq_inv in He as [(x & -> & Hx)|(x & -> & Hx)]; destruct x as [|y x]; try (by rewrite app_nil_r in Hne).
  - destruct H2 as [->|[r ->]]; [done|]. injection Hx as <- _. set_solver.
  - destruct H1 as [->|[r ->]]; [done|]. injection Hx as <- _. set_solver.
Qed.

Lemma path_exists_insert (t : tree) (p k v : str) : below p k = false → path_exists (<[k := v]> t) p = path_exists t p.
Proof.
  intros Hk. destruct (path_exists t p) eqn:E.
  - apply path_exists_true in E as (k' & v' & rest & Hv & Hs). apply path_exists_true.
    exists k', v', rest. split; [|done]. rewrite lookup_insert_ne; [done|]. intros <-.
    apply strip_dir_None_below in Hk. congruence.
  - rewrite path_exists_false in E. apply path_exists_false. intros k'.
    destruct (decide (k' = k)) as [->|Hne]; [intros _; by apply strip_dir_None_below|].
    rewrite lookup_insert_ne by done. apply E.
Qed.

Lemma path_exists_move (from to : str) (t : tree) :
  path_exists t to = false → path_exists t from = true → path_exists (move_tree from to t) to = true.
Proof.
  intros Hto (k & v & rest & Hv & [-> Hr]%strip_dir_Some)%path_exists_true.
  apply path_exists_true. exists (to ++ rest), v, rest. split; [by rewrite lookup_move_to|by apply strip_dir_app].
Qed.

Lemma insert_move (from to rest v : str) (t : tree) :
  rest = [] ∨ (∃ r, rest = slash :: r) → apart from to → path_exists t to = false →
  <[to ++ rest := v]> (move_tree from to t) = move_tree from to (<[from ++ rest := v]> t).
Proof.
  intros Hr Ha Ht.
  assert (Hb : below to (from ++ rest) = false).
  { apply strip_dir_None_below. eapply apart_below; [exact Ha|by apply strip_dir_app]. }
  assert (Ht' : path_exists (<[from ++ rest := v]> t) to = false) by by rewrite path_exists_insert.
  apply map_eq. intros k. destruct (strip_dir to k) as [s|] eqn:Hk.
  - apply strip_dir_Some in Hk as [-> Hs]. rewrite (lookup_move_to _ _ _ _ Hs Ht').
    destruct (decide (s = rest)) as [->|Hne]; [by rewrite !lookup_insert_eq|].
    rewrite !lookup_insert_ne by (intros H; by apply app_inv_head in H). by apply lookup_move_to.
  - assert (k ≠ to ++ rest) by (intros ->; by rewrite strip_dir_app in Hk).
    rewrite lookup_insert_ne by done. apply strip_dir_None_below in Hk.
    destruct (below from k) eqn:Hf; [by rewrite !lookup_move_from|].
    rewrite !lookup_move_other by done. symmetry. apply lookup_insert_ne. intros <-.
    apply strip_dir_None_below in Hf. by rewrite strip_dir_app in Hf.
Qed.

Lemma apart_not_below p q k : apart p q → below p k = true → below q k = false.
Proof. intros Ha [rest H]%below_true. apply strip_dir_None_below. by eapply apart_below. Qed.

Lemma path_exists_agree (t1 t2 : tree) p :
  (∀ k, below p k = true → t1 !! k = t2 !! k) → path_exists t1 p = path_exists t2 p.
Proof.
  intros H. apply eq_iff_eq_true. rewrite !path_exists_true.
  split; intros (k & v & rest & Hk & Hs); exists k, v, rest; (split; [|done]); rewrite <-Hk;
    [symmetry|]; apply H; apply below_true; by eexists.
Qed.

Lemma path_exists_move_other p from to t :
  apart p from → apart p to → path_exists (move_tree from to t) p = path_exists t p.
Proof.
  intros Hf Ht. apply path_exists_agree. intros k Hk. apply lookup_move_other; by eapply apart_not_below.
Qed.

Lemma lookup_path_exists (t : tree) p : is_Some (t !! p) → path_exists t p = true.
Proof.
  intros [v Hv]. apply path_exists_true. exists p, v, []. split; [done|].
  apply strip_dir_Some. rewrite app_nil_r. auto.
Qed.

Lemma path_exists_lookup (t : tree) p : path_exists t p = false → t !! p = None.
Proof. intros H. apply eq_None_not_Some. intros H'%lookup_path_exists. congruence. Qed.

Lemma path_exists_insert_mono (t : tree) p k v : path_exists t p = true → path_exists (<[k := v]> t) p = true.
Proof.
  intros (k' & v' & rest & Hk & Hs)%path_exists_true. apply path_exists_true.
  destruct (decide (k' = k)) as [->|Hne].
  - exists k, v, rest. by rewrite lookup_insert_eq.
  - exists k', v', rest. by rewrite lookup_insert_ne.
Qed.

(** Taking over what the paths name gives the source when the rest agrees. *)
Lemma sync_paths_same ps src dst :
  (∀ k, in_paths ps k = false → src !! k = dst !! k) → sync_paths ps src dst = src.
Proof.
  intros H. apply map_eq. intros k. rewrite lookup_sync_paths. destruct (in_paths ps k) eqn:E; [done|].
  symmetry. by apply H.
Qed.

(** ** Directories *)

(** The names directly below a directory. *)
Definition entry_name (rest : str) : str :=
  match split_once [slash] rest with Some (name, _) => name | None => rest end.

Definition entries_in (t : tree) (dir : str) : list str :=
  remove_dups (omap (λ kv : str * str, rest ← strip_prefix (dir ++ [slash]) kv.1; Some (entry_name rest)) (map_to_list t)).

(** [Path::is_dir]. *)
Definition is_dir (t : tree) (path : str) : bool := path_exists t path && negb (is_some (t !! path)).

Definition under (dir name : str) : str := dir ++ slash :: name.

Lemma entry_name_no_slash rest : slash ∉ entry_name rest.
Proof.
  unfold entry_name. destruct (split_once [slash] rest) as [[name rest']|] eqn:E.
  - intros (a & b & ->)%list_elem_of_split.
    pose proof (split_once_first _ _ _ _ E a (b ++ slash :: rest')) as H.
    apply split_once_Some in E as ->. rewrite <-!app_assoc in H. specialize (H eq_refl). rewrite length_app in H.
    simpl in H. lia.
  - by apply split_once_char_None.
Qed.

Lemma entry_name_app name r : slash ∉ name → r = [] ∨ (∃ s, r = slash :: s) → entry_name (name ++ r) = name.
Proof.
  intros Hn [->|[s ->]]; unfold entry_name.
  - rewrite app_nil_r. assert (split_once [slash] name = None) as -> by by apply split_once_char_None. done.
  - by rewrite split_once_char.
Qed.

Lemma entry_name_split rest : ∃ r, rest = entry_name rest ++ r ∧ (r = [] ∨ ∃ s, r = slash :: s).
Proof.
  unfold entry_name. destruct (split_once [slash] rest) as [[name rest']|] eqn:E.
  - apply split_once_Some in E. exists (slash :: rest'). split; [done|]. right. by eexists.
  - exists []. rewrite app_nil_r. auto.
Qed.

Lemma entries_in_elem t dir name : name ∈ entries_in t dir ↔ (slash ∉ name) ∧ path_exists t (under dir name) = true.
Proof.
  unfold entries_in, under. rewrite elem_of_remove_dups, list_elem_of_omap. split.
  - intros ([k v] & Hkv%elem_of_map_to_list & He). cbn [fst] in He.
    destruct (strip_prefix (dir ++ [slash]) k) as [rest|] eqn:E; [|done]. injection He as <-.
    apply strip_prefix_Some in E as ->. split; [apply entry_name_no_slash|].
    destruct (entry_name_split rest) as (r & Hr & Hs). apply path_exists_true.
    eexists _, v, r. split; [exact Hkv|]. apply strip_dir_Some. split; [|done].
    rewrite <-!app_assoc. cbn [app]. by rewrite <-Hr.
  - intros [Hn (k & v & rest & Hk & [-> Hr]%strip_dir_Some)%path_exists_true].
    eexists (_, v). split; [by apply elem_of_map_to_list|]. cbn [fst].
    assert ((dir ++ slash :: name) ++ rest = (dir ++ [slash]) ++ name ++ rest) as -> by by rewrite <-!app_assoc.
    rewrite strip_prefix_app. simpl. by rewrite entry_name_app.
Qed.

(** ** The wrappers *)

Section wrappers.
Context `{GI : !Git}.

(** The answers of git to the two commands of a commit. *)
Definition CommitEnv : Type := git_env * git_env.

(** [GitStorage::mv]. *)
Definition mv (g : git_env) (from to : str) (r : Repo) : Repo * bool :=
  match git_mv g from to r with
  | Some r' => (r', true)
  | None => (r, false)
  end.

(** [GitStorage::add_and_commit_as]: what was staged stays staged when the commit fails. *)
Definition add_and_commit_as (g : CommitEnv) (paths : list str) (r : Repo) : Repo * bool :=
  match git_add g.1 paths r with
  | None => (r, false)
  | Some r1 =>
      match git_commit g.2 r1 with
      | None => (r1, false)
      | Some r2 => (r2, true)
      end
  end.

(** [git reset HEAD -- <path>]. *)
Definition git_reset_path (g : git_env) (p : str) (r : Repo) : option Repo := git_reset_paths g [p] r.

Lemma git_reset_unstages g p r r' :
  git_reset_path g p r = Some r' →
  r' = MkRepo (r_work r) (sync_paths [p] (r_head r) (r_index r)) (r_head r).
Proof. apply git_reset_paths_unstages. Qed.

(** [restore_card_yaml]: unstage, then restore the work tree; a failure is only logged. *)
Definition restore_card_yaml (g : git_env * git_env) (meta_rel : str) (r : Repo) : Repo :=
  let r1 := unwrap_or (git_reset_path g.1 meta_rel r) r in
  unwrap_or (git_checkout_path g.2 meta_rel r1) r1.

(** ** [push_with_retry] *)

Definition MAX_PUSH_RETRIES : nat := 3.

Inductive PushFailure := FetchFailed | RebaseFailed | PushRejected | StillConflicting.

(** The answers to push, fetch and rebase in one attempt. *)
Record PushEnv := MkPushEnv { pe_push : git_env; pe_fetch : git_env; pe_rebase : git_env }.

Fixpoint push_attempts (env : nat → PushEnv) (attempt : nat) (remaining : nat) (r : Repo) : Repo * res unit PushFailure :=
  match remaining with
  | O => (r, Err StillConflicting)
  | S remaining =>
      match git_push (pe_push (env attempt)) r with
      | Pushed => (r, Ok tt)
      | PushError => (r, Err PushRejected)
      | PushConflict =>
          if negb (git_fetch (pe_fetch (env attempt))) then (r, Err FetchFailed)
          else let '(r', rebased) := git_rebase (pe_rebase (env attempt)) r in
               if negb rebased then (r', Err RebaseFailed)
               else push_attempts env (S attempt) remaining r'
      end
  end.

Definition push_with_retry (has_remote : bool) (env : nat → PushEnv) (r : Repo) : Repo * res unit PushFailure :=
  if negb has_remote then (r, Ok tt) else push_attempts env 1 MAX_PUSH_RETRIES r.

(** Without a conflict the push leaves the clone as it was. *)
Lemma push_no_conflict has_remote env r :
  (∀ n r', git_push (pe_push (env n)) r' ≠ PushConflict) → (push_with_retry has_remote env r).1 = r.
Proof.
  intros H. unfold push_with_retry. destruct has_remote; [|done]. cbn.
  specialize (H 1%nat r). by destruct (git_push _ r).
Qed.

Lemma push_with_retry_no_panic has_remote env r : (push_with_retry has_remote env r).2 ≠ Panicked.
Proof.
  unfold push_with_retry. destruct has_remote; [cbn [negb]|done].
  generalize 1%nat, MAX_PUSH_RETRIES. intros n m. revert n r.
  induction m as [|m IH]; intros n r; simpl; [done|]. destruct (git_push _ r); [done| |done].
  destruct (git_fetch _); [simpl|done]. destruct (git_rebase _ r) as [r' []]; simpl; [apply IH|done].
Qed.

(** ** What the commands do to a clone *)

Definition moved (from to : str) (r : Repo) : Repo :=
  MkRepo (move_tree from to (r_work r)) (move_tree from to (r_index r)) (r_head r).

Lemma mv_spec g from to r r' :
  mv g from to r = (r', true) → path_exists (r_work r) to = false → r' = moved from to r.
Proof.
  unfold mv. destruct (git_mv g from to r) as [r1|] eqn:E; [|done]. intros [= ->] Hto.
  destruct (git_mv_moves _ _ _ _ _ E) as [_ H]. by rewrite Hto in H.
Qed.

Lemma mv_fail g from to r r' : mv g from to r = (r', false) → r' = r.
Proof. unfold mv. destruct (git_mv _ _ _ _); [done|]. by intros [= ->]. Qed.

Definition stage (ps : list str) (r : Repo) : Repo :=
  MkRepo (r_work r) (sync_paths ps (r_work r) (r_index r)) (r_head r).

(** A commit either records the staged tree, or fails before or after staging. *)
Lemma add_and_commit_spec g ps r r' ok :
  add_and_commit_as g ps r = (r', ok) →
  if ok then r' = MkRepo (r_work r) (r_index (stage ps r)) (r_index (stage ps r))
  else r' = r ∨ r' = stage ps r.
Proof.
  unfold add_and_commit_as. intros H.
  destruct (git_add g.1 ps r) as [r1|] eqn:Ea; [|injection H as <- <-; by left].
  destruct (git_add_stages _ _ _ _ Ea) as [_ ->]. fold (stage ps r) in H.
  destruct (git_commit g.2 _) as [r2|] eqn:Ec; injection H as <- <-; [|by right].
  by rewrite (git_commit_records _ _ _ Ec).
Qed.

(** A commit of a path that exists nowhere fails and changes nothing. *)
Lemma add_missing_fails g ps r p :
  p ∈ ps → path_exists (r_work r) p = false → path_exists (r_index r) p = false →
  add_and_commit_as g ps r = (r, false).
Proof.
  intros Hp Hw Hi. unfold add_and_commit_as. destruct (git_add g.1 ps r) as [r1|] eqn:Ea; [|done].
  destruct (git_add_stages _ _ _ _ Ea) as [Hex _]. rewrite Forall_forall in Hex.
  specialize (Hex p Hp). by rewrite Hw, Hi in Hex.
Qed.

(** The two restore commands succeed. *)
Definition restores (g : git_env * git_env) (p : str) (r : Repo) : Prop :=
  ∃ r1, git_reset_path g.1 p r = Some r1 ∧ is_Some (git_checkout_path g.2 p r1).

Lemma restore_card_yaml_spec g p r :
  restores g p r →
  restore_card_yaml g p r =
  MkRepo (overlay_paths [p] (r_head r) (r_work r)) (sync_paths [p] (r_head r) (r_index r)) (r_head r).
Proof.
  intros (r1 & Hr & [r2 Hr2]). unfold restore_card_yaml. rewrite Hr. cbn [unwrap_or]. rewrite Hr2. cbn [unwrap_or].
  pose proof (git_reset_unstages _ _ _ _ Hr) as ->. rewrite (git_checkout_restores _ _ _ _ Hr2).
  cbn [r_index r_work r_head]. f_equal. apply map_eq. intros k.
  rewrite !lookup_overlay_paths, lookup_sync_paths. by destruct (in_paths [p] k).
Qed.

End wrappers.

(** ** A git that follows its documentation

    Commands succeed when they are asked to and their arguments are in order.
    Moving to an existing directory moves into it. *)

Record PlainEnv := MkPlainEnv {
  pl_ok : bool;
  pl_push : PushAnswer;
  pl_rebased : option Repo; (** what a rebase leaves, where it does something *)
}.

Definition plain_mv (g : PlainEnv) (from to : str) (r : Repo) : option Repo :=
  if pl_ok g && path_exists (r_index r) from then
    if path_exists (r_work r) to then
      if is_some (r_work r !! to) then None
      else let into := to ++ slash :: basename from in
           if path_exists (r_work r) into then None
           else Some (MkRepo (move_tree from into (r_work r)) (move_tree from into (r_index r)) (r_head r))
    else Some (MkRepo (move_tree from to (r_work r)) (move_tree from to (r_index r)) (r_head r))
  else None.

Definition plain_add (g : PlainEnv) (ps : list str) (r : Repo) : option Repo :=
  if pl_ok g && forallb (λ p, path_exists (r_work r) p || path_exists (r_index r) p) ps
  then Some (stage ps r) else None.

Definition plain_commit (g : PlainEnv) (r : Repo) : option Repo :=
  if pl_ok g then Some (MkRepo (r_work r) (r_index r) (r_index r)) else None.

Definition plain_reset_paths (g : PlainEnv) (ps : list str) (r : Repo) : option Repo :=
  if pl_ok g then Some (MkRepo (r_work r) (sync_paths ps (r_head r) (r_index r)) (r_head r)) else None.

Definition plain_checkout_path (g : PlainEnv) (p : str) (r : Repo) : option Repo :=
  if pl_ok g && path_exists (r_index r) p
  then Some (MkRepo (overlay_paths [p] (r_index r) (r_work r)) (r_index r) (r_head r)) else None.

Definition plain_git : Git.
Proof.
  refine {| git_env := PlainEnv; git_mv := plain_mv; git_add := plain_add; git_commit := plain_commit;
            git_reset_paths := plain_reset_paths; git_checkout_path := plain_checkout_path;
            git_push := λ g _, pl_push g; git_fetch := pl_ok;
            git_rebase := λ g r, match pl_rebased g with Some r' => (r', pl_ok g) | None => (r, false) end |}.
  - intros g from to r r'. unfold plain_mv. destruct (pl_ok g); [|done]. simpl.
    destruct (path_exists (r_index r) from); [|done]. intros H. split; [done|].
    destruct (path_exists (r_work r) to); [|by injection H as <-].
    destruct (is_some _); [done|]. destruct (path_exists _ _); [done|]. by injection H as <-.
  - intros g ps r r'. unfold plain_add. destruct (pl_ok g); [|done]. simpl.
    destruct (forallb _ ps) eqn:Hf; [|done]. intros [= <-]. split; [|done]. by apply forallb_Forall in Hf.
  - intros g r r'. unfold plain_commit. destruct (pl_ok g); [|done]. by intros [= <-].
  - intros g ps r r'. unfold plain_reset_paths. destruct (pl_ok g); [|done]. by intros [= <-].
  - intros g p r r'. unfold plain_checkout_path. destruct (pl_ok g); [|done]. simpl.
    destruct (path_exists _ _); [|done]. by intros [= <-].
Defined.
