(* ===== verification/CommitOnly.v ===== *)
(** * Committing one document

    [GitStorage::add_and_commit_only_as] of [gitim-sync/src/git.rs], which boards and flows
    use: it records the one path it is given, and what else is staged stays staged. *)

From S2P Require Import Prelude RustStr StrFacts Git.
From stdpp Require Import options.
Open Scope N_scope.
Open Scope list_scope.

(** [git commit --only -- path]: the commit takes the path from the work tree and the rest
    from [HEAD]; a failure leaves the clone as it was. *)
Class GitOnly `{GI : !Git} := {
  git_commit_only : git_env → str → Repo → option Repo;
  git_commit_only_records g p r r' :
    git_commit_only g p r = Some r' →
    r' = MkRepo (r_work r) (sync_paths [p] (r_work r) (r_index r)) (sync_paths [p] (r_work r) (r_head r));
}.

Section commit_only.
Context `{GI : !Git} `{GO : !GitOnly}.

(** The answers to [git add], [git commit] and [git rev-parse HEAD]. *)
Record OnlyEnv := MkOnlyEnv { oe_add : git_env; oe_commit : git_env; oe_head : option str }.

Definition add_and_commit_only_as (g : OnlyEnv) (path : str) (r : Repo) : Repo * option str :=
  match git_add (oe_add g) [path] r with
  | None => (r, None)
  | Some r1 =>
      match git_commit_only (oe_commit g) path r1 with
      | None => (r1, None)
      | Some r2 => (r2, oe_head g)
      end
  end.

(** The file is written. *)
Definition wrote_file (path text : str) (r : Repo) : Repo := MkRepo (<[path := text]> (r_work r)) (r_index r) (r_head r).

(** [r'] has the text at [path] in its work tree, and differs from [r] at most there; the
    index and [HEAD] have there what they had or the text. *)
Record only_wrote (path text : str) (r r' : Repo) : Prop := MkOnlyWrote {
  ow_work : r_work r' = <[path := text]> (r_work r);
  ow_index : r_index r' = r_index r ∨ r_index r' = sync_paths [path] (r_work r') (r_index r);
  ow_head : r_head r' = r_head r ∨ r_head r' = sync_paths [path] (r_work r') (r_head r);
}.

(** A commit that answers recorded the path and nothing else; one that fails may have. *)
Lemma commit_only_spec g path text r r' id :
  add_and_commit_only_as g path (wrote_file path text r) = (r', id) →
  only_wrote path text r r'
  ∧ (is_Some id → r_index r' = sync_paths [path] (r_work r') (r_index r) ∧ r_head r' = sync_paths [path] (r_work r') (r_head r)).
Proof.
  unfold add_and_commit_only_as. intros H. destruct (git_add (oe_add g) [path] _) as [r1|] eqn:Ea.
  - apply git_add_stages in Ea as [_ ->]. destruct (git_commit_only _ path _) as [r2|] eqn:Ec.
    + apply git_commit_only_records in Ec as ->. injection H as <- <-. cbn [r_work r_index r_head wrote_file].
      assert (∀ (src dst : tree), sync_paths [path] src (sync_paths [path] src dst) = sync_paths [path] src dst) as Hidem.
      { intros src dst. apply map_eq. intros k. rewrite !lookup_sync_paths. by destruct (in_paths [path] k). }
      split; [split; cbn; [done|right; apply Hidem|by right]|]. intros _. split; [apply Hidem|done].
    + injection H as <- <-. split; [|by intros [? [=]]]. by split; cbn; [|right|left].
  - injection H as <- <-. split; [|by intros [? [=]]]. by split; cbn; [|left|left].
Qed.

Lemma lookup_only_wrote path text r r' k :
  only_wrote path text r r' → below path k = false →
  r_work r' !! k = r_work r !! k ∧ r_index r' !! k = r_index r !! k ∧ r_head r' !! k = r_head r !! k.
Proof.
  intros [Hw Hi Hh] Hk. assert (path ≠ k) by (intros ->; by rewrite below_refl in Hk).
  assert (in_paths [path] k = false) as Hin by (unfold in_paths; cbn; by rewrite Hk).
  split_and!; [by rewrite Hw, lookup_insert_ne|destruct Hi as [-> | ->]|destruct Hh as [-> | ->]]; [done| |done|]; by rewrite lookup_sync_paths, Hin.
Qed.

Lemma lookup_recorded path text (r : Repo) (t : tree) :
  r_work r !! path = Some text → sync_paths [path] (r_work r) t !! path = Some text.
Proof. intros H. rewrite lookup_sync_paths. unfold in_paths. cbn. by rewrite below_refl. Qed.

End commit_only.

(** ** A git that follows its documentation *)

Definition plain_commit_only (g : PlainEnv) (p : str) (r : Repo) : option Repo :=
  if pl_ok g && (path_exists (r_work r) p || path_exists (r_index r) p)
  then Some (MkRepo (r_work r) (sync_paths [p] (r_work r) (r_index r)) (sync_paths [p] (r_work r) (r_head r))) else None.

Definition plain_git_only : @GitOnly plain_git.
Proof.
  refine (@Build_GitOnly plain_git plain_commit_only _). intros g p r r'. unfold plain_commit_only.
  destruct (pl_ok g && _); [|done]. by intros [= <-].
Defined.
