(* ===== verification/Daemon.v ===== *)
(** * The daemon's channel handlers

    Creating a channel, joining and leaving, and sending a message
    ([gitim-daemon/src/handlers/{mod,channel,send}.rs], [gitim-daemon/src/thread_io.rs]).
    The repository is a map from paths to file contents; a handler takes the state
    and what the environment answers (clock, file system, git) and gives the new
    state and a response.  Reads of the shared state that the source takes under
    its locks see the state the handler was started with. *)

From S2P Require Import Prelude RustStr StrFacts Names QuickSession Asset Links Thread Compliance Meta.
From stdpp Require Import options.
Open Scope N_scope.
Open Scope list_scope.

Record PendingMessage := MkPendingMessage {
  pm_channel : str;
  pm_line_number : N;
  pm_commit_id : str;
}.

(** The parts of [AppState] the handlers use, and the working tree. *)
Record Daemon := MkDaemon {
  d_files : gmap str str;
  d_users : list str;
  d_pending_push : list PendingMessage;
}.

(** What the environment answers during one request: the clock, which files can be read,
    whether the directory of the channels can be created, whether the thread file can be
    opened and appended to, whether metadata and thread can be written, whether
    [git commit] succeeds, [git rev-parse HEAD], and what the push loop of a new channel
    leaves in the work tree, where a rebase replaces it, with its success. *)
Record Env := MkEnv {
  e_now : str;
  e_read_ok : str → bool;
  e_mkdir_ok : bool;
  e_open_ok : bool;
  e_meta_write_ok : bool;
  e_thread_write_ok : bool;
  e_commit_ok : bool;
  e_head : option str;
  e_push : gmap str str → gmap str str * bool;
}.

(** ** Paths *)

Definition thread_path (dir name : str) : str := dir ++ lit "/" ++ name ++ lit ".thread".
Definition meta_path (dir name : str) : str := dir ++ lit "/" ++ name ++ lit ".meta.yaml".

Definition channel_thread_path (name : str) : str := thread_path (lit "channels") name.
Definition channel_meta_path (name : str) : str := meta_path (lit "channels") name.
Definition archived_channel_meta_path (name : str) : str := meta_path (lit "archive/channels") name.
Definition archived_user_meta_path (name : str) : str := meta_path (lit "archive/users") name.
Definition dm_thread_path (stem : str) : str := thread_path (lit "dm") stem.
Definition archived_dm_thread_path (stem : str) : str := thread_path (lit "archive/dm") stem.

Definition exists_file (d : Daemon) (path : str) : bool := is_some (d_files d !! path).

(** What a file holds, and what [read_to_string(path).unwrap_or_default()] gives: nothing
    where there is no file and where it cannot be read. *)
Definition content_of (d : Daemon) (path : str) : str := unwrap_or (d_files d !! path) [].
Definition read_or_empty (env : Env) (d : Daemon) (path : str) : str :=
  if e_read_ok env path then content_of d path else [].

Definition write_file (path content : str) (d : Daemon) : Daemon :=
  MkDaemon (<[path := content]> (d_files d)) (d_users d) (d_pending_push d).

Inductive EventKind := KindJoin | KindLeave.

Definition event_name (k : EventKind) : str :=
  match k with KindJoin => lit "join" | KindLeave => lit "leave" end.

Section daemon.
Context `{UC : !Unicode} `{PE : !PercentEncoding} `{SJ : !SerdeJson} `{YC : !Yaml ChannelMeta}.

(** The error responses, one constructor per message of the source. *)
Inductive DaemonError :=
  | InvalidAuthor (e : HandlerError)
  | UserDeparted (h : str)
  | UnknownUser (h : str)
  | InvalidInvitee (h : str)
  | InviteeNotRegistered (h : str)
  | InvalidTarget (e : HandlerError)
  | DaemonInvalidChannelName (e : ChannelNameError)
  | ChannelExists (c : str)
  | ChannelInArchive (c : str)
  | ChannelArchived (c : str)
  | ChannelMissing (c : str)
  | ChannelsDirFailed
  | ChannelMetaRead
  | ChannelMetaParse
  | ChannelMetaSerialize
  | ChannelMetaWrite
  | DmArchived (peer : str)
  | DmFormat
  | InvalidDmHandler (e : HandlerError)
  | DmParticipantUnknown (h : str)
  | ThreadParse (e : ParseError)
  | RuleViolation (e : ImRuleError)
  | CreatorMustTransfer
  | ComplianceFailed (e : ComplianceError)
  | OpenFailed
  | ThreadWriteFailed
  | CommitFailed
  | CreatePushFailed.

Definition ensure_author_not_departed (d : Daemon) (author : str) : res unit DaemonError :=
  guard_err (exists_file d (archived_user_meta_path author)) (UserDeparted author).

Definition resolve_thread_path (channel : str) : res (str * str) DaemonError :=
  match strip_prefix (lit "dm:") channel with
  | Some dm_rest =>
      match split_char (ch ",") dm_rest with
      | [p1; p2] =>
          let? h1 := map_err InvalidDmHandler (Handler_new p1) in
          let? h2 := map_err InvalidDmHandler (Handler_new p2) in
          let name := dm_filename h1 h2 in
          Ok (dm_thread_path name, name)
      | _ => Err DmFormat
      end
  | None =>
      let? name := map_err DaemonInvalidChannelName (ChannelName_new channel) in
      Ok (channel_thread_path (channel_name_str name), channel_name_str name)
  end.

(** The archive check for DM threads that precedes path resolution. *)
Definition check_dm_archived (d : Daemon) (channel author : str) : res unit DaemonError :=
  match strip_prefix (lit "dm:") channel with
  | Some dm_rest =>
      match split_char (ch ",") dm_rest with
      | [p1; p2] =>
          match Handler_new p1, Handler_new p2 with
          | Ok h1, Ok h2 =>
              guard_err (exists_file d (archived_dm_thread_path (dm_filename h1 h2)))
                (DmArchived (if p1 =?? author then p2 else p1))
          | _, _ => Ok tt
          end
      | _ => Ok tt
      end
  | None => Ok tt
  end.

(** Reading [channels/<name>.meta.yaml], with the errors for a missing channel. *)
Definition load_channel_meta (env : Env) (d : Daemon) (channel : str) : res ChannelMeta DaemonError :=
  match d_files d !! channel_meta_path channel with
  | Some content =>
      try? guard_err (negb (e_read_ok env (channel_meta_path channel))) ChannelMetaRead then
      ok_or (yaml_from_str content) ChannelMetaParse
  | None =>
      if exists_file d (archived_channel_meta_path channel) then Err (ChannelArchived channel)
      else Err (ChannelMissing channel)
  end.

(** Who may write to a thread. *)
Definition send_allowed_senders (env : Env) (d : Daemon) (channel : str) : res (list str) DaemonError :=
  match strip_prefix (lit "dm:") channel with
  | Some dm_rest =>
      let participants := split_char (ch ",") dm_rest in
      try? for_each participants (λ p,
             guard_err (negb (bool_decide (p ∈ d_users d))) (DmParticipantUnknown p)) then
      Ok participants
  | None => let? meta := load_channel_meta env d channel in Ok (cm_members meta)
  end.

(** ** [handle_send] *)

Record SendResponse := MkSendResponse {
  sr_line_number : N;
  sr_channel : str;
  sr_status : str;
  sr_commit_id : option str;
}.

(** The checks and the text to append: (path, thread name, line number, text). *)
Definition prepare_send (env : Env) (d : Daemon) (channel body : str) (reply_to : option N) (author : str)
  : res (str * str * N * str) DaemonError :=
  let? handler := map_err InvalidAuthor (Handler_new author) in
  try? ensure_author_not_departed d author then
  try? guard_err (negb (bool_decide (author ∈ d_users d))) (UnknownUser author) then
  try? check_dm_archived d channel author then
  let? resolved := resolve_thread_path channel in
  let '(path, thread_name) := resolved in
  let existing := read_or_empty env d path in
  let? existing_file := map_err ThreadParse (parse_thread existing) in
  let next_line := wrapping_add (last_line_number existing_file) 1 in
  let point_to := unwrap_or reply_to 0 in
  let new_content := format_message next_line point_to handler (e_now env) body in
  let? allowed_senders := send_allowed_senders env d channel in
  try? map_err ComplianceFailed (validate_append existing new_content (d_users d) allowed_senders) then
  try? guard_err (negb (e_open_ok env)) OpenFailed then
  Ok (path, thread_name, next_line, new_content).

Definition handle_send (env : Env) (d : Daemon) (channel body : str) (reply_to : option N) (author : str)
  : Daemon * res SendResponse DaemonError :=
  match prepare_send env d channel body reply_to author with
  | Err e => (d, Err e)
  | Panicked => (d, Panicked)
  | Ok (path, thread_name, next_line, new_content) =>
      let d1 := write_file path (content_of d path ++ new_content) d in
      let commit_id := if e_commit_ok env then e_head env else None in
      let pending := match commit_id with
                     | Some id => d_pending_push d1 ++ [MkPendingMessage thread_name next_line id]
                     | None => d_pending_push d1
                     end in
      (MkDaemon (d_files d1) (d_users d1) pending,
       Ok (MkSendResponse next_line thread_name
             (if e_commit_ok env then lit "committed" else lit "written") commit_id))
  end.

(** ** [handle_create_channel] *)

(** [vec![author]], then the invitees not yet in the list. *)
Definition add_member (members : list str) (user : str) : list str :=
  if bool_decide (user ∈ members) then members else members ++ [user].

Definition initial_members (author : str) (invitees : list str) : list str :=
  fold_left add_member invitees [author].

Definition prepare_create (env : Env) (d : Daemon) (name : str) (display_name introduction : option str)
  (author : str) (invitees : list str) : res (str * ChannelMeta * str * str) DaemonError :=
  let? handler := map_err InvalidAuthor (Handler_new author) in
  try? ensure_author_not_departed d author then
  try? guard_err (negb (bool_decide (author ∈ d_users d))) (UnknownUser author) then
  try? for_each invitees (λ invitee,
         try? guard_err (negb (is_ok (Handler_new invitee))) (InvalidInvitee invitee) then
         guard_err (negb (bool_decide (invitee ∈ d_users d))) (InviteeNotRegistered invitee)) then
  let? channel_name := map_err DaemonInvalidChannelName (ChannelName_new name) in
  let name' := channel_name_str channel_name in
  try? guard_err (exists_file d (channel_meta_path name')) (ChannelExists name) then
  try? guard_err (exists_file d (archived_channel_meta_path name')) (ChannelInArchive name) then
  try? guard_err (negb (e_mkdir_ok env)) ChannelsDirFailed then
  let members := initial_members author invitees in
  let meta := MkChannelMeta (unwrap_or display_name name) author (e_now env) (unwrap_or introduction [])
                members None in
  let? meta_str := ok_or (yaml_to_string meta) ChannelMetaSerialize in
  try? guard_err (negb (e_meta_write_ok env)) ChannelMetaWrite then
  let payload := if (1 <? length members)%nat then json_obj [(lit "targets", drop 1 members)] else json_obj [] in
  Ok (name', meta, meta_str, format_event 1 handler (e_now env) (lit "join") payload).

Definition handle_create_channel (env : Env) (d : Daemon) (name : str) (display_name introduction : option str)
  (author : str) (invitees : list str) : Daemon * res str DaemonError :=
  match prepare_create env d name display_name introduction author invitees with
  | Err e => (d, Err e)
  | Panicked => (d, Panicked)
  | Ok (name', _, meta_str, join_line) =>
      let d1 := write_file (channel_meta_path name') meta_str d in
      if negb (e_thread_write_ok env) then (d1, Err ThreadWriteFailed)
      else
        let d2 := write_file (channel_thread_path name') join_line d1 in
        if negb (e_commit_ok env) then (d2, Err CommitFailed)
        else let '(files, pushed) := e_push env (d_files d2) in
             (MkDaemon files (d_users d2) (d_pending_push d2), if pushed then Ok name else Err CreatePushFailed)
  end.

(** ** [write_channel_event]: joining and leaving *)

Definition leave_removes_channel_creator (author : str) (targets : list str) (meta : ChannelMeta) : bool :=
  if is_empty (cm_created_by meta) then false
  else if is_empty targets then author =?? cm_created_by meta
  else existsb (λ target, target =?? cm_created_by meta) targets.

Definition check_event_rules (kind : EventKind) (author : str) (targets users : list str) (meta : ChannelMeta)
  : res unit DaemonError :=
  match kind with
  | KindJoin => map_err RuleViolation (validate_join author targets users (cm_members meta))
  | KindLeave =>
      try? map_err RuleViolation (validate_leave author targets users (cm_members meta)) then
      guard_err (leave_removes_channel_creator author targets meta) CreatorMustTransfer
  end.

Definition affected_users (author : str) (targets : list str) : list str :=
  if is_empty targets then [author] else targets.

(** [members.sort()]. *)
Definition sort_strings (l : list str) : list str := sort_by_key str_leb l.

Definition update_members (kind : EventKind) (affected members : list str) : list str :=
  match kind with
  | KindJoin => sort_strings (fold_left add_member affected members)
  | KindLeave => filter (λ m, m ∉ affected) members
  end.

Definition event_allowed_senders (kind : EventKind) (author : str) (targets : list str) (meta : ChannelMeta)
  : list str :=
  match kind with
  | KindJoin =>
      if is_empty targets && negb (bool_decide (author ∈ cm_members meta))
      then cm_members meta ++ [author] else cm_members meta
  | KindLeave => cm_members meta
  end.

(** The checks, run before and again under the commit lock on the same files, and
    the text to append: (metadata, line number, text). *)
Definition prepare_event (env : Env) (d : Daemon) (channel : str) (targets : list str) (author : str)
  (kind : EventKind) : res (ChannelMeta * N * str) DaemonError :=
  try? map_err DaemonInvalidChannelName (ChannelName_new channel) then
  let? handler := map_err InvalidAuthor (Handler_new author) in
  try? ensure_author_not_departed d author then
  try? guard_err (negb (bool_decide (author ∈ d_users d))) (UnknownUser author) then
  try? for_each targets (λ t, try? map_err InvalidTarget (Handler_new t) then Ok tt) then
  let? channel_meta := load_channel_meta env d channel in
  try? check_event_rules kind author targets (d_users d) channel_meta then
  let existing := read_or_empty env d (channel_thread_path channel) in
  let? existing_file := map_err ThreadParse (parse_thread existing) in
  let next_line := wrapping_add (last_line_number existing_file) 1 in
  try? check_event_rules kind author targets (d_users d) channel_meta then
  let meta := if is_empty targets then json_obj [] else json_obj [(lit "targets", targets)] in
  let new_content := format_event next_line handler (e_now env) (event_name kind) meta in
  let allowed := event_allowed_senders kind author targets channel_meta in
  try? map_err ComplianceFailed (validate_append existing new_content (d_users d) allowed) then
  try? guard_err (negb (e_open_ok env)) OpenFailed then
  Ok (channel_meta, next_line, new_content).

Definition set_members (meta : ChannelMeta) (members : list str) : ChannelMeta :=
  MkChannelMeta (cm_display_name meta) (cm_created_by meta) (cm_created_at meta) (cm_introduction meta)
    members (cm_project meta).

Definition write_channel_event (env : Env) (d : Daemon) (channel : str) (targets : list str) (author : str)
  (kind : EventKind) : Daemon * res N DaemonError :=
  match prepare_event env d channel targets author kind with
  | Err e => (d, Err e)
  | Panicked => (d, Panicked)
  | Ok (channel_meta, next_line, new_content) =>
      let path := channel_thread_path channel in
      let d1 := write_file path (content_of d path ++ new_content) d in
      let affected := affected_users author targets in
      let meta' := set_members channel_meta (update_members kind affected (cm_members channel_meta)) in
      match yaml_to_string meta' with
      | None => (d1, Err ChannelMetaSerialize)
      | Some meta_str =>
          if e_meta_write_ok env
          then (write_file (channel_meta_path channel) meta_str d1, Ok next_line)
          else (d1, Err ChannelMetaWrite)
      end
  end.

Definition handle_join_channel (env : Env) (d : Daemon) (channel : str) (targets : list str) (author : str) :=
  write_channel_event env d channel targets author KindJoin.
Definition handle_leave_channel (env : Env) (d : Daemon) (channel : str) (targets : list str) (author : str) :=
  write_channel_event env d channel targets author KindLeave.

(** ** [thread_io.rs] *)

(** The line number, the text, and what the file holds then. *)
Definition append_message_to_thread (env : Env) (d : Daemon) (path : str) (author : Handler) (body : str) (reply_to : option N)
  : res (N * str * str) DaemonError :=
  let? existing_file := map_err ThreadParse (parse_thread (read_or_empty env d path)) in
  let next_line := wrapping_add (last_line_number existing_file) 1 in
  let new_content := format_message next_line (unwrap_or reply_to 0) author (e_now env) body in
  try? guard_err (negb (e_open_ok env)) OpenFailed then
  Ok (next_line, new_content, content_of d path ++ new_content).

(** The entries [read_thread_entries] returns, before their conversion to JSON. *)
Definition select_entries (limit : option nat) (since : option N) (es : list ThreadEntry) : list ThreadEntry :=
  let es := match since with
            | Some since_line => List.filter (λ e, since_line <? entry_line_number e) es
            | None => es
            end in
  match limit with
  | Some lim => if is_some since then take lim es else drop (length es - lim) es
  | None => es
  end.

Definition read_thread_entries (content : str) (limit : option nat) (since : option N)
  : res (list ThreadEntry) DaemonError :=
  let? file := map_err ThreadParse (parse_thread content) in
  Ok (select_entries limit since (entries file)).

(** ** Requests and runs *)

Inductive Request :=
  | ReqSend (channel body : str) (reply_to : option N) (author : str)
  | ReqCreateChannel (name : str) (display_name introduction : option str) (author : str) (invitees : list str)
  | ReqJoin (channel : str) (targets : list str) (author : str)
  | ReqLeave (channel : str) (targets : list str) (author : str).

(** The state after one request. *)
Definition serve (env : Env) (d : Daemon) (req : Request) : Daemon :=
  match req with
  | ReqSend channel body reply_to author => (handle_send env d channel body reply_to author).1
  | ReqCreateChannel name dn intro author invitees => (handle_create_channel env d name dn intro author invitees).1
  | ReqJoin channel targets author => (handle_join_channel env d channel targets author).1
  | ReqLeave channel targets author => (handle_leave_channel env d channel targets author).1
  end.

(** The clock text [%Y%m%dT%H%M%SZ]. *)
Definition clock_ok (env : Env) : Prop := is_timestamp (e_now env) = true.

(** Thread files can be read, and the push loop does not rewrite the work tree.  Everything
    else may fail. *)
Record steady (env : Env) : Prop := MkSteady {
  st_clock : clock_ok env;
  st_reads : ∀ p, ends_with p (lit ".thread") = true → e_read_ok env p = true;
  st_push : ∀ t, (e_push env t).1 = t;
}.

(** Any sequence of requests, in steady environments, from an empty repository. *)
Inductive reachable (users : list str) : Daemon → Prop :=
  | reachable_start : reachable users (MkDaemon ∅ users [])
  | reachable_step d env req : reachable users d → steady env → reachable users (serve env d req).

(** ** Invariants *)

Definition threads_ok (d : Daemon) : Prop :=
  ∀ p t, d_files d !! p = Some t → ends_with p (lit ".thread") = true →
         complete_file t ∧ check_thread_integrity t (d_users d) = Ok [].

Definition members_ok (users : list str) (m : ChannelMeta) : Prop :=
  NoDup (cm_members m) ∧ cm_created_by m ≠ [] ∧ cm_created_by m ∈ cm_members m
  ∧ Forall (λ u, u ∈ users) (cm_members m).

Definition channels_ok (d : Daemon) : Prop :=
  ∀ name y, d_files d !! channel_meta_path name = Some y →
            ∃ m, yaml_from_str y = Some m ∧ members_ok (d_users d) m.

(** ** Path facts *)

Lemma thread_path_ends dir name : ends_with (thread_path dir name) (lit ".thread") = true.
Proof. apply ends_with_true. exists (dir ++ lit "/" ++ name). unfold thread_path. by rewrite <-!app_assoc. Qed.

Lemma meta_path_not_thread dir name : ends_with (meta_path dir name) (lit ".thread") = false.
Proof.
  apply not_true_iff_false. rewrite ends_with_true. intros (r & Hr).
  unfold meta_path in Hr. apply (f_equal last) in Hr.
  change (lit ".thread") with (lit ".threa" ++ [ch "d"]) in Hr.
  change (lit ".meta.yaml") with (lit ".meta.yam" ++ [ch "l"]) in Hr.
  rewrite !app_assoc, !last_snoc in Hr. done.
Qed.

Lemma thread_meta_disjoint dir name dir' name' : thread_path dir name ≠ meta_path dir' name'.
Proof. intros H. pose proof (meta_path_not_thread dir' name') as Hf. by rewrite <-H, thread_path_ends in Hf. Qed.

Lemma channel_meta_path_inj a b : channel_meta_path a = channel_meta_path b → a = b.
Proof.
  unfold channel_meta_path, meta_path. intros H.
  apply app_inv_head in H. apply app_inv_head in H. by apply app_inv_tail in H.
Qed.

Lemma resolve_thread_path_thread channel path name :
  resolve_thread_path channel = Ok (path, name) → ∃ dir, path = thread_path dir name.
Proof.
  unfold resolve_thread_path. destruct (strip_prefix _ channel) as [r|].
  - destruct (split_char _ r) as [|p1 [|p2 [|]]]; try done.
    intros (h1 & _ & (h2 & _ & [= <- <-])%res_bind_Ok)%res_bind_Ok. by eexists.
  - intros (n & _ & [= <- <-])%res_bind_Ok. by eexists.
Qed.

(** ** What a prepared write consists of *)

Lemma prepare_send_Ok env d channel body reply_to author path name n new :
  prepare_send env d channel body reply_to author = Ok (path, name, n, new) →
  ∃ h f allowed, Handler_new author = Ok h ∧ author ∈ d_users d ∧ resolve_thread_path channel = Ok (path, name)
    ∧ parse_thread (read_or_empty env d path) = Ok f ∧ n = wrapping_add (last_line_number f) 1
    ∧ new = format_message n (unwrap_or reply_to 0) h (e_now env) body
    ∧ send_allowed_senders env d channel = Ok allowed
    ∧ validate_append (read_or_empty env d path) new (d_users d) allowed = Ok tt.
Proof.
  unfold prepare_send. intros H.
  rewrite res_bind_Ok in H. destruct H as (h & Hh & H). rewrite map_err_Ok in Hh.
  rewrite try_Ok in H. destruct H as [_ H]. rewrite try_Ok, guard_err_Ok, negb_decide_false in H.
  destruct H as [Hu H]. rewrite try_Ok in H. destruct H as [_ H].
  rewrite res_bind_Ok in H. destruct H as ([path' name'] & Hr & H).
  rewrite res_bind_Ok in H. destruct H as (f & Hf & H). rewrite map_err_Ok in Hf.
  rewrite res_bind_Ok in H. destruct H as (allowed & Hal & H).
  rewrite try_Ok, map_err_Ok in H. destruct H as [Hv H].
  rewrite try_Ok in H. destruct H as [_ H]. injection H as <- <- <- <-.
  by exists h, f, allowed.
Qed.

Lemma prepare_event_Ok env d channel targets author kind meta n new :
  prepare_event env d channel targets author kind = Ok (meta, n, new) →
  ∃ h f, Handler_new author = Ok h ∧ author ∈ d_users d
    ∧ load_channel_meta env d channel = Ok meta
    ∧ check_event_rules kind author targets (d_users d) meta = Ok tt
    ∧ parse_thread (read_or_empty env d (channel_thread_path channel)) = Ok f
    ∧ n = wrapping_add (last_line_number f) 1
    ∧ new = format_event n h (e_now env) (event_name kind)
              (if is_empty targets then json_obj [] else json_obj [(lit "targets", targets)])
    ∧ validate_append (read_or_empty env d (channel_thread_path channel)) new (d_users d)
        (event_allowed_senders kind author targets meta) = Ok tt.
Proof.
  unfold prepare_event. intros H.
  rewrite res_bind_Ok in H. destruct H as (_ & _ & H).
  rewrite res_bind_Ok in H. destruct H as (h & Hh & H). rewrite map_err_Ok in Hh.
  rewrite try_Ok in H. destruct H as [_ H]. rewrite try_Ok, guard_err_Ok, negb_decide_false in H.
  destruct H as [Hu H]. rewrite try_Ok in H. destruct H as [_ H].
  rewrite res_bind_Ok in H. destruct H as (meta' & Hm & H).
  rewrite try_Ok in H. destruct H as [Hrules H].
  rewrite res_bind_Ok in H. destruct H as (f & Hf & H). rewrite map_err_Ok in Hf.
  rewrite try_Ok in H. destruct H as [_ H]. rewrite try_Ok, map_err_Ok in H. destruct H as [Hv H].
  rewrite try_Ok in H. destruct H as [_ H]. injection H as <- <- <-.
  by exists h, f.
Qed.

(** ** Threads stay clean *)

Lemma read_content env d p : e_read_ok env p = true → read_or_empty env d p = content_of d p.
Proof. unfold read_or_empty. by intros ->. Qed.

Lemma content_clean d p :
  threads_ok d → ends_with p (lit ".thread") = true →
  complete_file (content_of d p) ∧ check_thread_integrity (content_of d p) (d_users d) = Ok [].
Proof.
  intros Hd Hp. unfold content_of. destruct (d_files d !! p) as [t|] eqn:E; [by apply (Hd p)|].
  split; [by left|done].
Qed.

Lemma write_thread_ok d dir name t :
  threads_ok d → complete_file t → check_thread_integrity t (d_users d) = Ok [] →
  threads_ok (write_file (thread_path dir name) t d).
Proof.
  intros Hd Hc Hi p t'. simpl. destruct (decide (p = thread_path dir name)) as [->|Hne].
  - rewrite lookup_insert_eq. by intros [= <-].
  - rewrite lookup_insert_ne by done. apply Hd.
Qed.

Lemma write_meta_threads_ok d dir name t :
  threads_ok d → threads_ok (write_file (meta_path dir name) t d).
Proof.
  intros Hd p t'. simpl. destruct (decide (p = meta_path dir name)) as [->|Hne].
  - intros _ Hp. by rewrite meta_path_not_thread in Hp.
  - rewrite lookup_insert_ne by done. apply Hd.
Qed.

Lemma append_thread_ok env d dir name new allowed :
  steady env → threads_ok d → ends_with new [nl] = true →
  validate_append (read_or_empty env d (thread_path dir name)) new (d_users d) allowed = Ok tt →
  threads_ok (write_file (thread_path dir name) (content_of d (thread_path dir name) ++ new) d).
Proof.
  intros Hst Hd Hn Hv. rewrite read_content in Hv by apply (st_reads env Hst), thread_path_ends.
  destruct (content_clean d (thread_path dir name) Hd (thread_path_ends _ _)) as [Hc Hi].
  apply write_thread_ok; [done|by apply complete_app|].
  by eapply append_keeps_clean.
Qed.

(** ** Members *)

Lemma elem_of_add_members u xs ms : u ∈ fold_left add_member xs ms ↔ u ∈ ms ∨ u ∈ xs.
Proof.
  revert ms. induction xs as [|x xs IH]; intros ms; simpl; [set_solver|].
  rewrite IH. unfold add_member. case_bool_decide; set_solver.
Qed.

Lemma add_members_nodup xs ms : NoDup ms → NoDup (fold_left add_member xs ms).
Proof.
  revert ms. induction xs as [|x xs IH]; intros ms Hms; simpl; [done|]. apply IH.
  unfold add_member. case_bool_decide; [done|]. apply NoDup_app. split_and!; [done|set_solver|].
  apply NoDup_singleton.
Qed.

Lemma elem_of_update_members kind u affected members :
  u ∈ update_members kind affected members ↔
  match kind with
  | KindJoin => u ∈ members ∨ u ∈ affected
  | KindLeave => u ∈ members ∧ u ∉ affected
  end.
Proof.
  destruct kind; simpl.
  - unfold sort_strings. rewrite sort_by_key_perm. apply elem_of_add_members.
  - rewrite list_elem_of_filter. tauto.
Qed.

Lemma update_members_nodup kind affected members :
  NoDup members → NoDup (update_members kind affected members).
Proof.
  intros Hm. destruct kind; simpl; [|by apply NoDup_filter].
  unfold sort_strings. rewrite sort_by_key_perm. by apply add_members_nodup.
Qed.

(** The creator is not among those who leave. *)
Lemma creator_stays author targets meta :
  cm_created_by meta ≠ [] → leave_removes_channel_creator author targets meta = false →
  cm_created_by meta ∉ affected_users author targets.
Proof.
  intros Hne. unfold leave_removes_channel_creator, affected_users.
  rewrite (proj2 (is_empty_false _) Hne). destruct targets as [|t ts]; cbn [is_empty].
  - rewrite bool_decide_eq_false. set_solver.
  - rewrite existsb_false, Forall_forall. intros H Hin. apply H in Hin.
    by rewrite bool_decide_eq_false in Hin.
Qed.

Lemma update_members_ok kind author targets users meta :
  author ∈ users → members_ok users meta → check_event_rules kind author targets users meta = Ok tt →
  members_ok users (set_members meta (update_members kind (affected_users author targets) (cm_members meta))).
Proof.
  intros Hau (Hnd & Hne & Hcr & Hus) Hrules. unfold members_ok. simpl.
  split_and!; [by apply update_members_nodup|done| |].
  - apply elem_of_update_members. destruct kind; [by left|]. split; [done|].
    simpl in Hrules. rewrite try_Ok, guard_err_Ok in Hrules. by apply creator_stays, Hrules.
  - apply Forall_forall. intros u Hu. rewrite Forall_forall in Hus.
    apply elem_of_update_members in Hu. destruct kind; [|by apply Hus, Hu].
    destruct Hu as [|Hu]; [by apply Hus|]. unfold affected_users in Hu.
    simpl in Hrules. rewrite map_err_Ok, validate_join_Ok in Hrules.
    destruct Hrules as [_ [[-> _]|(Hne' & _ & Ht)]]; [by apply list_elem_of_singleton in Hu as ->|].
    rewrite (proj2 (is_empty_false _) Hne') in Hu. rewrite Forall_forall in Ht. by apply Ht.
Qed.

Lemma write_thread_channels_ok d dir name t : channels_ok d → channels_ok (write_file (thread_path dir name) t d).
Proof.
  intros Hd n y. simpl. rewrite lookup_insert_ne; [apply Hd|]. apply thread_meta_disjoint.
Qed.

Lemma write_meta_channels_ok d name m y :
  channels_ok d → yaml_to_string m = Some y → members_ok (d_users d) m →
  channels_ok (write_file (channel_meta_path name) y d).
Proof.
  intros Hd Hy Hm n y'. simpl. destruct (decide (n = name)) as [->|Hne].
  - rewrite lookup_insert_eq. intros [= <-]. exists m. split; [by apply yaml_roundtrip|done].
  - rewrite lookup_insert_ne; [apply Hd|]. intros H. by apply channel_meta_path_inj in H.
Qed.

(** ** Each handler keeps the invariants *)

Definition daemon_ok (users : list str) (d : Daemon) : Prop :=
  d_users d = users ∧ threads_ok d ∧ channels_ok d.

Lemma send_ok users env d channel body reply_to author :
  steady env → daemon_ok users d → daemon_ok users (handle_send env d channel body reply_to author).1.
Proof.
  intros Hst (Hu & Ht & Hc). unfold handle_send.
  destruct (prepare_send env d channel body reply_to author) as [[[[path name] n] new]|e|] eqn:E; [|done|done].
  destruct (prepare_send_Ok _ _ _ _ _ _ _ _ _ _ E) as (h & f & allowed & _ & _ & Hr & _ & _ & -> & _ & Hv).
  destruct (resolve_thread_path_thread _ _ _ Hr) as [dir ->]. simpl. split_and!; [done| |].
  - refine (append_thread_ok env d dir name _ _ Hst Ht _ Hv). apply format_message_ends.
  - refine (write_thread_channels_ok d dir name _ Hc).
Qed.

Lemma load_channel_meta_ok env d channel m : channels_ok d → load_channel_meta env d channel = Ok m → members_ok (d_users d) m.
Proof.
  intros Hc. unfold load_channel_meta. destruct (d_files d !! _) as [y|] eqn:E; [|by case_match].
  destruct (Hc _ _ E) as (m' & -> & Hm). by intros [_ [= <-]]%try_Ok.
Qed.

Lemma event_ok users env d channel targets author kind :
  steady env → daemon_ok users d → daemon_ok users (write_channel_event env d channel targets author kind).1.
Proof.
  intros Hst (Hu & Ht & Hc). unfold write_channel_event.
  destruct (prepare_event env d channel targets author kind) as [[[meta n] new]|e|] eqn:E; [|done|done].
  destruct (prepare_event_Ok _ _ _ _ _ _ _ _ _ E) as (h & f & _ & Hau & Hm & Hrules & _ & _ & -> & Hv).
  apply load_channel_meta_ok in Hm; [|done].
  match goal with |- context [write_file (channel_thread_path channel) ?t d] =>
    set (d1 := write_file (channel_thread_path channel) t d) end.
  assert (daemon_ok users d1) as (Hu1 & Ht1 & Hc1).
  { split_and!; [done| |by apply write_thread_channels_ok].
    refine (append_thread_ok env d _ _ _ _ Hst Ht _ Hv). apply format_event_ends. }
  destruct (yaml_to_string _) as [y|] eqn:Ey; [|done]. destruct (e_meta_write_ok env); [|done].
  simpl. split_and!; [done|by apply write_meta_threads_ok|].
  eapply write_meta_channels_ok; [done|exact Ey|]. by apply update_members_ok.
Qed.

Lemma create_ok users env d name dn intro author invitees :
  steady env → daemon_ok users d → daemon_ok users (handle_create_channel env d name dn intro author invitees).1.
Proof.
  intros [Hclock _ Hpush] (Hu & Ht & Hc). unfold handle_create_channel.
  destruct (prepare_create env d name dn intro author invitees) as [[[[name' meta] y] line]|e|] eqn:E; [|done|done].
  unfold prepare_create in E.
  rewrite res_bind_Ok in E. destruct E as (h & Hh & E). rewrite map_err_Ok in Hh.
  rewrite try_Ok in E. destruct E as [_ E]. rewrite try_Ok, guard_err_Ok, negb_decide_false in E.
  destruct E as [Hau E]. rewrite try_Ok, for_each_guard2 in E. destruct E as [Hinv E].
  rewrite res_bind_Ok in E. destruct E as (cn & Hcn & E).
  do 3 (rewrite try_Ok in E; destruct E as [_ E]).
  rewrite res_bind_Ok in E. destruct E as (y' & Hy & E). rewrite ok_or_Ok in Hy.
  rewrite try_Ok in E. destruct E as [_ E]. injection E as <- <- <- <-.
  set (members := initial_members author invitees) in *.
  assert (members_ok (d_users d) (MkChannelMeta (unwrap_or dn name) author (e_now env) (unwrap_or intro []) members None)) as Hm.
  { unfold members_ok. simpl. split_and!.
    - apply add_members_nodup, NoDup_singleton.
    - apply Handler_new_iff in Hh as (_ & Hs & _). by apply slug_nonempty.
    - apply elem_of_add_members. left. set_solver.
    - apply Forall_forall. intros u Hin. apply elem_of_add_members in Hin as [->%list_elem_of_singleton|Hin]; [done|].
      rewrite Forall_forall in Hinv. apply Hinv in Hin as [_ Hin]. by apply negb_decide_false in Hin. }
  set (d1 := write_file (channel_meta_path (channel_name_str cn)) y' d).
  assert (threads_ok d1 ∧ channels_ok d1) as [Ht1 Hc1].
  { split; [by apply write_meta_threads_ok|]. eapply write_meta_channels_ok; [done|exact Hy|done]. }
  cbv zeta. fold members. fold d1. destruct (e_thread_write_ok env); cbn [negb]; [|by split_and!].
  match goal with |- context [write_file (channel_thread_path _) ?t d1] => set (d2 := write_file (channel_thread_path (channel_name_str cn)) t d1) end.
  assert (daemon_ok users d2) as Hd2; last first.
  { destruct (e_commit_ok env); cbn [negb]; [|done]. specialize (Hpush (d_files d2)).
    destruct (e_push env (d_files d2)) as [files pushed]. cbn [fst] in Hpush. subst files. exact Hd2. }
  split_and!; [done| |].
  - apply write_thread_ok; [done|right; apply format_event_ends|].
    apply check_integrity_spec. simpl.
    set (payload := if (1 <? length members)%nat then _ else _).
    assert (json_exact payload ∧ json_is_object payload = true) as [Hx Ho].
    { unfold payload. case_match; split; auto using json_obj_exact, json_obj_is_object. }
    set (e := EntryEvent (MkChannelEvent 1 0 h (e_now env) (lit "join") payload)).
    assert (printable e) as Hp.
    { split_and!; [done|done|right; simpl; by rewrite (Handler_new_str _ _ Hh)|done|]. split_and!; done. }
    exists (MkThreadFile [e]). split.
    + destruct (render_parses [e]) as [Hparse _]; [by constructor|]. simpl in Hparse.
      by rewrite app_nil_r in Hparse.
    + simpl. split; [|done]. split; [done|]. simpl. split; [|done].
      rewrite (Handler_new_str _ _ Hh). by apply elem_of_list_to_set.
  - by apply write_thread_channels_ok.
Qed.

Lemma serve_ok users env d req : steady env → daemon_ok users d → daemon_ok users (serve env d req).
Proof. intros He Hd. destruct req; [by apply send_ok|by apply create_ok|by apply event_ok|by apply event_ok]. Qed.

Lemma reachable_ok users d : reachable users d → daemon_ok users d.
Proof.
  induction 1 as [|d env req _ IH He]; [|by apply serve_ok].
  split_and!; [done|intros p t; simpl; by rewrite lookup_empty..].
Qed.

(** ** Claims *)

(** C1: whatever requests arrive and whichever of them fail, in every state the daemon can
    reach from an empty repository, with a fixed list of users, each thread file is
    complete and passes the read check, and each channel's metadata parses, its
    members are distinct registered users, and its creator is one of them, so no
    channel is ever left without members.  Writes, commits, pushes and the reading of
    metadata may fail; the existing thread files are assumed to be readable (see
    [failed_read_renumbers]) and no push rebases the work tree. *)
Theorem reachable_states_consistent (users : list str) (d : Daemon) (Hd : reachable users d) :
  (∀ dir name t, d_files d !! thread_path dir name = Some t →
     complete_file t ∧ check_thread_integrity t users = Ok []) ∧
  (∀ name y, d_files d !! channel_meta_path name = Some y →
     ∃ m, yaml_from_str y = Some m ∧ members_ok users m ∧ cm_members m ≠ []).
Proof.
  destruct (reachable_ok users d Hd) as (Hu & Ht & Hc). rewrite <-Hu. split.
  - intros dir name t H. apply (Ht _ _ H), thread_path_ends.
  - intros name y H. destruct (Hc _ _ H) as (m & Hm & Hok). exists m. split_and!; [done..|].
    destruct Hok as (_ & _ & Hin & _). intros Heq. rewrite Heq in Hin. by apply not_elem_of_nil in Hin.
Qed.

(** C8: [handle_send] either changes nothing and reports an error, or appends exactly one
    message: the thread it resolved to holds the old entries followed by one message
    of the author, numbered after the last entry, replying to the requested line,
    dated now and holding the body that was sent (line by line, as the format stores
    it), and no other file changes.  It is assumed that the thread, if it exists, can be
    read and ends with a line break. *)
Theorem send_appends_one_message (env : Env) (d d' : Daemon) (channel body : str) (reply_to : option N) (author : str)
    (r : res SendResponse DaemonError)
    (Hclock : clock_ok env) (Hreply : unwrap_or reply_to 0 ≤ u64_MAX)
    (Hfile : ∀ path name, resolve_thread_path channel = Ok (path, name) → e_read_ok env path = true ∧ complete_file (content_of d path))
    (Hrun : handle_send env d channel body reply_to author = (d', r)) :
  match r with
  | Ok resp =>
      ∃ path f m, resolve_thread_path channel = Ok (path, sr_channel resp)
        ∧ parse_thread (content_of d path) = Ok f
        ∧ parse_thread (content_of d' path) = Ok (MkThreadFile (entries f ++ [EntryMessage m]))
        ∧ m_line_number m = sr_line_number resp ∧ sr_line_number resp = wrapping_add (last_line_number f) 1
        ∧ m_point_to m = unwrap_or reply_to 0 ∧ handler_str (m_author m) = author
        ∧ m_timestamp m = e_now env ∧ m_body m = stored_body body
        ∧ (∀ p, p ≠ path → d_files d' !! p = d_files d !! p)
  | _ => d' = d
  end.
Proof.
  unfold handle_send in Hrun.
  destruct (prepare_send env d channel body reply_to author) as [[[[path name] n] new]|e|] eqn:E; [|by simplify_eq..].
  injection Hrun as <- <-.
  destruct (prepare_send_Ok _ _ _ _ _ _ _ _ _ _ E) as (h & f & allowed & Hh & _ & Hr & Hf & Hn & Hnew & _ & Hv).
  destruct (Hfile _ _ Hr) as [Hread Hcomplete]. rewrite read_content in Hf, Hv by done.
  apply validate_append_spec in Hv as (f' & g & Hf' & Hg & _).
  rewrite Hnew in Hg. apply message_single in Hg as Hg'; [|rewrite Hn; apply wrapping_add_le|done| |done]; last first.
  { right. by rewrite (Handler_new_str _ _ Hh). }
  simpl. eexists path, f, _. split_and!; [done|done| |..].
  - unfold content_of at 1. simpl. rewrite lookup_insert_eq. simpl.
    rewrite Hnew. by erewrite (parse_thread_app _ _ f g); [by rewrite Hg'| |done|done].
  - done.
  - done.
  - done.
  - simpl. by apply Handler_new_str.
  - done.
  - done.
  - intros p Hp. by rewrite lookup_insert_ne.
Qed.

(** C9: joining and leaving do what they say.  On success the thread gains exactly one
    event of the author, the stored members are the old ones plus (for a join) or
    minus (for a leave) the affected users, and no other file changes; on an error
    nothing changes, except that a failing metadata write comes after the event has
    been appended.  It is assumed that the channel's thread, if it exists, can be read and
    ends with a line break. *)
Theorem membership_event_effect (env : Env) (d d' : Daemon) (channel : str) (targets : list str) (author : str)
    (kind : EventKind) (r : res N DaemonError)
    (Hclock : clock_ok env) (Hread : e_read_ok env (channel_thread_path channel) = true)
    (Hcomplete : complete_file (content_of d (channel_thread_path channel)))
    (Hrun : write_channel_event env d channel targets author kind = (d', r)) :
  match r with
  | Ok n =>
      ∃ m m' f ev,
        load_channel_meta env d channel = Ok m ∧ load_channel_meta env d' channel = Ok m'
        ∧ cm_created_by m' = cm_created_by m
        ∧ (∀ u, u ∈ cm_members m' ↔
             match kind with
             | KindJoin => u ∈ cm_members m ∨ u ∈ affected_users author targets
             | KindLeave => u ∈ cm_members m ∧ u ∉ affected_users author targets
             end)
        ∧ parse_thread (content_of d (channel_thread_path channel)) = Ok f
        ∧ parse_thread (content_of d' (channel_thread_path channel)) = Ok (MkThreadFile (entries f ++ [EntryEvent ev]))
        ∧ ev_line_number ev = n ∧ n = wrapping_add (last_line_number f) 1
        ∧ handler_str (ev_author ev) = author ∧ ev_event_type ev = event_name kind
        ∧ (∀ p, p ≠ channel_thread_path channel → p ≠ channel_meta_path channel → d_files d' !! p = d_files d !! p)
  | _ => d' = d ∨ r = Err ChannelMetaSerialize ∨ r = Err ChannelMetaWrite
  end.
Proof.
  unfold write_channel_event in Hrun.
  destruct (prepare_event env d channel targets author kind) as [[[meta n] new]|e|] eqn:E; [|simplify_eq; by left..].
  destruct (prepare_event_Ok _ _ _ _ _ _ _ _ _ E) as (h & f & Hh & Hau & Hm & Hrules & Hf & Hn & Hnew & Hv).
  rewrite read_content in Hf by done. destruct (yaml_to_string _) as [y|] eqn:Ey; [|simplify_eq; right; by left].
  destruct (e_meta_write_ok env); [|simplify_eq; right; by right].
  injection Hrun as <- <-.
  set (payload := if is_empty targets then _ else _) in Hnew.
  set (ev := MkChannelEvent n 0 h (e_now env) (event_name kind) payload).
  assert (printable (EntryEvent ev)) as Hp.
  { split_and!; [simpl; rewrite Hn; apply wrapping_add_le|done|right; simpl; by rewrite (Handler_new_str _ _ Hh)|done
                |done|by destruct kind|]. unfold ev, payload. simpl. case_match; apply json_obj_exact. }
  assert (channel_thread_path channel ≠ channel_meta_path channel) as Hdis by apply thread_meta_disjoint.
  eexists meta, (set_members meta _), f, ev. split_and!; try done.
  - unfold load_channel_meta in Hm |- *. simpl. rewrite lookup_insert_eq. rewrite (yaml_roundtrip _ _ Ey).
    destruct (d_files d !! channel_meta_path channel); [|by case_match]. apply try_Ok in Hm as [-> _]. done.
  - intros u. apply elem_of_update_members.
  - unfold content_of at 1. simpl. rewrite lookup_insert_ne, lookup_insert_eq by done. simpl.
    rewrite Hnew. change (format_event n h (e_now env) (event_name kind) payload) with (render_entry (EntryEvent ev)).
    destruct f as [es]. by apply append_parses.
  - simpl. by apply Handler_new_str.
  - intros p Hp1 Hp2. simpl. by rewrite !lookup_insert_ne.
Qed.

Lemma filter_since (es : list ThreadEntry) k s :
  (∀ i e, es !! i = Some e → entry_line_number e = N.of_nat (k + i) + 1) →
  List.filter (λ e, N.of_nat s <? entry_line_number e) es = drop (s - k) es.
Proof.
  revert k. induction es as [|e es IH]; intros k H; simpl; [by rewrite drop_nil|].
  rewrite (H 0%nat e eq_refl), Nat.add_0_r.
  assert (∀ i e', es !! i = Some e' → entry_line_number e' = N.of_nat (S k + i) + 1) as Htl.
  { intros i e' Hi. rewrite (H (S i) e' Hi). lia. }
  rewrite (IH (S k) Htl). destruct (N.ltb_spec (N.of_nat s) (N.of_nat k + 1)).
  - by replace (s - k)%nat with 0%nat by lia; replace (s - S k)%nat with 0%nat by lia; rewrite !drop_0.
  - by replace (s - k)%nat with (S (s - S k)) by lia.
Qed.

(** Paging through the history of a clean thread.  [since] and [limit] together give
    the entries numbered [since + 1 .. since + limit], [limit] alone the last ones,
    and [since] alone everything after it. *)
Theorem history_pages (content : str) (users : list str) (f : ThreadFile)
    (Hparse : parse_thread content = Ok f) (Hclean : check_thread_integrity content users = Ok [])
    (Hsize : N.of_nat (length (entries f)) < 2 ^ 64) (limit s : nat) :
  read_thread_entries content (Some limit) (Some (N.of_nat s)) = Ok (take limit (drop s (entries f)))
  ∧ read_thread_entries content (Some limit) None = Ok (drop (length (entries f) - limit) (entries f))
  ∧ read_thread_entries content None (Some (N.of_nat s)) = Ok (drop s (entries f)).
Proof.
  apply check_integrity_spec in Hclean as (f' & Hf' & Hl). rewrite Hparse in Hf'. injection Hf' as <-.
  unfold read_thread_entries. rewrite Hparse. simpl. unfold select_entries. simpl.
  rewrite (filter_since _ 0); [by rewrite Nat.sub_0_r|].
  intros i e Hi. simpl. by eapply log_wf_numbers.
Qed.
End daemon.

(** ** A run *)

Section runs.
#[local] Existing Instance ascii_unicode.
#[local] Existing Instance std_percent_encoding.
#[local] Existing Instance keyword_json.
#[local] Existing Instance channel_meta_yaml.

Definition sample_users : list str := [lit "alice"; lit "bob"; lit "carol"].
Definition sample_env : Env :=
  MkEnv (lit "20260101T000000Z") (λ _, true) true true true true true (Some (lit "abc123")) (λ t, (t, true)).

Definition sample_start : Daemon := MkDaemon ∅ sample_users [].
Definition sample_created : Daemon :=
  serve sample_env sample_start (ReqCreateChannel (lit "ops") None (Some (lit "hi")) (lit "alice") [lit "bob"]).
Definition sample_joined : Daemon := serve sample_env sample_created (ReqJoin (lit "ops") [lit "carol"] (lit "bob")).
Definition sample_sent : Daemon :=
  serve sample_env sample_joined (ReqSend (lit "ops") (lit "hello <@bob>") (Some 2) (lit "carol")).

Lemma sample_clock : clock_ok sample_env.
Proof. by vm_compute. Qed.

Lemma sample_steady : steady sample_env.
Proof. by split. Qed.

Lemma sample_reachable : reachable sample_users sample_sent.
Proof. repeat (apply reachable_step; [|apply sample_steady]). constructor. Qed.

Example sample_thread :
  d_files sample_sent !! channel_thread_path (lit "ops") = Some (lit "[L000001][P000000][@alice][20260101T000000Z][E:join] {}
[L000002][P000000][@bob][20260101T000000Z][E:join] {}
[L000003][P000002][@carol][20260101T000000Z] hello <@bob>
").
Proof. by vm_compute. Qed.

Lemma reachable_states_consistent_witness :
  ∃ t, d_files sample_sent !! thread_path (lit "channels") (lit "ops") = Some t
       ∧ complete_file t ∧ check_thread_integrity t sample_users = Ok [].
Proof.
  eexists. split; [exact sample_thread|].
  exact (proj1 (reachable_states_consistent sample_users sample_sent sample_reachable) _ _ _ sample_thread).
Defined.

Definition sample_response : SendResponse := MkSendResponse 3 (lit "ops") (lit "committed") (Some (lit "abc123")).

Lemma sample_send_run :
  handle_send sample_env sample_joined (lit "ops") (lit "hello <@bob>") (Some 2) (lit "carol")
  = (sample_sent, Ok sample_response).
Proof.
  rewrite (surjective_pairing (handle_send _ _ _ _ _ _)).
  assert ((handle_send sample_env sample_joined (lit "ops") (lit "hello <@bob>") (Some 2) (lit "carol")).2
          = Ok sample_response) as -> by (vm_compute; reflexivity).
  reflexivity.
Qed.

Lemma sample_file_ok path name :
  resolve_thread_path (lit "ops") = Ok (path, name) → e_read_ok sample_env path = true ∧ complete_file (content_of sample_joined path).
Proof.
  assert (resolve_thread_path (lit "ops") = Ok (channel_thread_path (lit "ops"), lit "ops")) as -> by by vm_compute.
  intros [= <- <-]. split; [done|]. right. by vm_compute.
Qed.

Lemma send_appends_one_message_witness :
  ∃ path f m,
    resolve_thread_path (lit "ops") = Ok (path, sr_channel sample_response)
    ∧ parse_thread (content_of sample_sent path) = Ok (MkThreadFile (entries f ++ [EntryMessage m]))
    ∧ m_line_number m = 3.
Proof.
  destruct (send_appends_one_message sample_env _ _ _ _ (Some 2) _ _ sample_clock ltac:(by vm_compute)
              sample_file_ok sample_send_run) as (path & f & m & Hr & _ & Hp & Hn & _).
  exists path, f, m. split; [exact Hr|]. split; [exact Hp|exact Hn].
Defined.

Lemma sample_join_run :
  write_channel_event sample_env sample_created (lit "ops") [lit "carol"] (lit "bob") KindJoin
  = (sample_joined, Ok 2).
Proof.
  rewrite (surjective_pairing (write_channel_event _ _ _ _ _ _)).
  assert ((write_channel_event sample_env sample_created (lit "ops") [lit "carol"] (lit "bob") KindJoin).2
          = Ok 2) as -> by (vm_compute; reflexivity).
  reflexivity.
Qed.

Lemma sample_created_complete : complete_file (content_of sample_created (channel_thread_path (lit "ops"))).
Proof. right. by vm_compute. Qed.

Lemma membership_event_effect_witness :
  ∃ m', load_channel_meta sample_env sample_joined (lit "ops") = Ok m' ∧ lit "carol" ∈ cm_members m'.
Proof.
  destruct (membership_event_effect sample_env _ _ _ _ _ _ _ sample_clock eq_refl sample_created_complete sample_join_run)
    as (m & m' & f & ev & _ & Hl' & _ & Hmem & _).
  exists m'. split; [exact Hl'|]. apply Hmem. right. left.
Defined.

Lemma history_pages_witness :
  ∃ f, read_thread_entries sample_file (Some 1%nat) (Some 1) = Ok (take 1 (drop 1 (entries f))).
Proof.
  assert (∃ f, parse_thread sample_file = Ok f ∧ N.of_nat (length (entries f)) < 2 ^ 64) as (f & Hf & Hlen).
  { eexists. split; [vm_compute; reflexivity|by vm_compute]. }
  exists f.
  exact (proj1 (history_pages sample_file [lit "alice"; lit "system"] f Hf ltac:(by vm_compute) Hlen 1 1)).
Defined.

(** A failing metadata write leaves the join event in the log without the member
    in the metadata. *)
Example join_event_without_member :
  let env := MkEnv (lit "20260101T000000Z") (λ _, true) true true false true true (Some (lit "abc123")) (λ t, (t, true)) in
  let '(d', r) := write_channel_event env sample_created (lit "ops") [lit "carol"] (lit "bob") KindJoin in
  r = Err ChannelMetaWrite
  ∧ content_of d' (channel_thread_path (lit "ops")) ≠ content_of sample_created (channel_thread_path (lit "ops"))
  ∧ load_channel_meta env d' (lit "ops") = load_channel_meta env sample_created (lit "ops").
Proof. by vm_compute. Qed.

(** A thread that exists but cannot be read is taken for empty: the message is numbered 1
    and appended, and the log is no longer one. *)
Example failed_read_renumbers :
  let env := MkEnv (lit "20260101T000000Z") (λ p, negb (ends_with p (lit ".thread"))) true true true true true None (λ t, (t, true)) in
  let '(d', r) := handle_send env sample_joined (lit "ops") (lit "hello") None (lit "carol") in
  match r with Ok resp => sr_line_number resp = 1 | _ => False end
  ∧ check_thread_integrity (content_of sample_joined (channel_thread_path (lit "ops"))) sample_users = Ok []
  ∧ check_thread_integrity (content_of d' (channel_thread_path (lit "ops"))) sample_users ≠ Ok [].
Proof. by vm_compute. Qed.
End runs.
