(* ===== verification/Cards.v ===== *)
(** * Cards

    The card handlers of the daemon ([gitim-daemon/src/card_handlers.rs]): creating,
    updating, archiving and restoring cards, posting to their discussion, listing
    and reading them.  The state has the three trees of the clone, so that what a
    failed command leaves behind is visible. *)

From S2P Require Import Prelude RustStr StrFacts Names Asset Thread Compliance Meta Daemon Git.
From stdpp Require Import options.
Open Scope N_scope.
Open Scope list_scope.

(** The daemon with its clone. *)
Record GDaemon := MkGDaemon {
  g_repo : Repo;
  g_users : list str;
  g_pending_push : list PendingMessage;
  g_has_remote : bool;
}.

(** The part of it the channel handlers see. *)
Definition as_daemon (d : GDaemon) : Daemon := MkDaemon (r_work (g_repo d)) (g_users d) (g_pending_push d).

Definition with_repo (d : GDaemon) (r : Repo) : GDaemon :=
  MkGDaemon r (g_users d) (g_pending_push d) (g_has_remote d).

(** [std::fs::write] in the clone. *)
Definition write_work (path content : str) (r : Repo) : Repo :=
  MkRepo (<[path := content]> (r_work r)) (r_index r) (r_head r).

(** ** Events and answers *)

Inductive CardEvent :=
  | CardCreated (channel card_id : str)
  | CardArchived (channel card_id author : str)
  | CardUnarchived (channel card_id author : str)
  | CardMessageAppended (channel card_id : str) (line_numbers : list N)
  | CardStatusChanged (channel card_id old_status new_status author : str).

Inductive CardReqError :=
  | CardDaemon (e : DaemonError)
  | CardUnknownUser (h : str)
  | CardChannelName (e : ChannelNameError)
  | CardChannelMissing (c : str)
  | CardIdInvalid (e : CardError)
  | CardTitleEmpty
  | CardLabelsInvalid (e : LabelError)
  | CardStatusInvalid (e : CardError)
  | CardAssigneeUnknown (h : str)
  | CardNotFound (id c : str)
  | CardAlreadyArchived (id : str)
  | CardNotArchived (id : str)
  | CardChannelInactive (c : str)
  | CardIsArchived (id c : str)
  | CardMetaParse
  | CardMetaSerialize
  | CardMetaWrite
  | CardThreadWrite
  | CardPermission
  | CardNothingToUpdate
  | CardMkdir
  | CardMv
  | CardCommit
  | CardPush (e : PushFailure)
  | CardInvalidAuthor (e : HandlerError).

Record CreateCardResponse := MkCreateCardResponse {
  ccr_channel : str;
  ccr_card_id : str;
  ccr_title : str;
  ccr_ref : str;
  ccr_suggested_assignees : list str;
}.

Record CardSummary := MkCardSummary {
  cs_card_id : str;
  cs_channel : str;
  cs_title : str;
  cs_status : str;
  cs_labels : list str;
  cs_assignee : option str;
  cs_created_by : str;
  cs_created_at : str;
  cs_updated_at : str;
}.

Record CardMetaSummary := MkCardMetaSummary {
  cms_title : str;
  cms_status : str;
  cms_labels : list str;
  cms_assignee : option str;
  cms_created_by : str;
  cms_created_at : str;
  cms_updated_at : str;
}.

Record SendCardMessageResponse := MkSendCardMessageResponse {
  scr_line_number : N;
  scr_channel : str;
  scr_card_id : str;
  scr_status : str;
  scr_commit_id : option str;
}.

Record UpdateCardResponse := MkUpdateCardResponse {
  ucr_channel : str;
  ucr_card_id : str;
  ucr_status : str;
  ucr_labels : list str;
  ucr_assignee : option str;
}.

(** What a handler leaves: the state, the events it broadcast, the response. *)
Record Outcome (A : Type) := MkOutcome {
  o_state : GDaemon;
  o_events : list CardEvent;
  o_response : res A CardReqError;
}.
Arguments MkOutcome {_} _ _ _.
Arguments o_state {_} _.
Arguments o_events {_} _.
Arguments o_response {_} _.

(** ** Paths and ids *)

Definition card_rel (channel card_id : str) : str :=
  lit "channels/" ++ channel ++ lit "/cards/" ++ card_id.
Definition archived_card_rel (channel card_id : str) : str :=
  lit "archive/channels/" ++ channel ++ lit "/cards/" ++ card_id.
Definition card_meta_of (rel : str) : str := rel ++ lit "/card.meta.yaml".
Definition card_thread_of (rel : str) : str := rel ++ lit "/discussion.thread".

(** [validate_card_id] of the handlers, which has its own copy of the rule. *)
Definition check_card_id (card_id : str) : res unit CardError :=
  try? guard_err (is_empty card_id || (20 <? len card_id)) (CardIdLengthOutOfRange (len card_id) 20) then
  for_each card_id (λ c,
    guard_err (negb (in_range 48 57 c || in_range 97 102 c || (c =? ch "-"))) (InvalidCardIdChar c)).

Record LocatedCard := MkLocatedCard { lc_rel_path : str; lc_is_archived : bool }.

Definition locate_card (d : GDaemon) (channel card_id : str) : option LocatedCard :=
  let active_rel := card_rel channel card_id in
  let archived_rel := archived_card_rel channel card_id in
  let active_exists := exists_file (as_daemon d) (card_meta_of active_rel) in
  let archived_exists := exists_file (as_daemon d) (card_meta_of archived_rel) in
  if active_exists && archived_exists then Some (MkLocatedCard active_rel false)
  else if active_exists then Some (MkLocatedCard active_rel false)
  else if archived_exists then Some (MkLocatedCard archived_rel true)
  else None.

Definition hex_lower (n : N) : char := if n <? 10 then 48 + n else 87 + n.

(** [format!("{:03x}", random & 0xFFF)] after the date [%Y%m%d-%H%M%S]. *)
Definition generate_card_id (date : str) (random : N) : str :=
  let n := N.land random 4095 in
  date ++ lit "-" ++ [hex_lower (n / 256); hex_lower (n / 16 mod 16); hex_lower (n mod 16)].

Definition channel_thread_exists (d : GDaemon) (channel : str) : bool :=
  exists_file (as_daemon d) (channel_thread_path channel).

Definition ensure_known_user (d : GDaemon) (handler : str) : res unit CardReqError :=
  guard_err (negb (bool_decide (handler ∈ g_users d))) (CardUnknownUser handler).

Definition set_archived_via (meta : CardMeta) (v : option ArchivedVia) : CardMeta :=
  MkCardMeta (card_title meta) (card_channel meta) (card_status meta) (card_labels meta) (card_assignee meta)
    (card_created_by meta) (card_created_at meta) (card_updated_at meta) v.

Definition may_archive (meta : CardMeta) (author : str) : bool :=
  (card_created_by meta =?? author) || (card_assignee meta =?? Some author).

Section cards.
Context `{UC : !Unicode} `{PE : !PercentEncoding} `{SJ : !SerdeJson}
        `{YM : !Yaml CardMeta} `{YU : !Yaml UserMeta} `{GI : !Git}.

Record ReadCardResponse := MkReadCardResponse {
  rcr_channel : str;
  rcr_card_id : str;
  rcr_archived : bool;
  rcr_meta : CardMetaSummary;
  rcr_entries : list ThreadEntry;
}.

(** What the environment answers during one request: clock, entropy, file system,
    git; [ce_list] is the directories [read_dir] reports below a path. *)
Record CardEnv := MkCardEnv {
  ce_env : Env;
  ce_date : str;
  ce_random : N;
  ce_read_ok : bool;
  ce_mkdir_ok : bool;
  ce_thread_write_ok : bool;
  ce_mv : git_env;
  ce_commit : CommitEnv;
  ce_rollback : git_env;
  ce_restore : git_env * git_env;
  ce_push : nat → PushEnv;
  ce_list : str → list str;
}.

(** [read_to_string] and [serde_yaml::from_str] of a located card's metadata. *)
Definition read_card_meta (env : CardEnv) (d : GDaemon) (rel channel card_id : str) : res CardMeta CardReqError :=
  match (if ce_read_ok env then r_work (g_repo d) !! card_meta_of rel else None) with
  | Some c => ok_or (yaml_from_str c) CardMetaParse
  | None => Err (CardNotFound card_id channel)
  end.

(** ** [compute_suggested_assignees] *)

Definition user_meta_path (handler : str) : str := meta_path (lit "users") handler.

(** [query_set.is_subset(&agent_set)]. *)
Definition is_subset (query agent : list str) : bool := forallb (λ l, bool_decide (l ∈ agent)) query.

Definition scan_active_for_labels (d : GDaemon) (active query : list str) : list str :=
  fold_left (λ matched handler,
    match r_work (g_repo d) !! user_meta_path handler ≫= yaml_from_str with
    | Some meta => if is_subset query (um_labels meta) then btree_insert handler matched else matched
    | None => matched
    end) active [].

Definition compute_suggested_assignees (d : GDaemon) (card_labels : list str) : list str :=
  if is_empty card_labels then [] else scan_active_for_labels d (g_users d) card_labels.

(** ** [handle_create_card] *)

(** The checks, the new card's id and its metadata text. *)
Definition prepare_create_card (env : CardEnv) (d : GDaemon) (channel title : str) (labels : option (list str))
  (assignee status : option str) (author : str) : res (str * str * CardMeta * str) CardReqError :=
  try? map_err CardDaemon (ensure_author_not_departed (as_daemon d) author) then
  try? ensure_known_user d author then
  let? ch_name := map_err CardChannelName (ChannelName_new channel) in
  let c := channel_name_str ch_name in
  try? guard_err (negb (channel_thread_exists d c)) (CardChannelMissing channel) then
  try? guard_err (is_empty (trim title)) CardTitleEmpty then
  let labels_vec := unwrap_or labels [] in
  try? map_err CardLabelsInvalid (validate_labels labels_vec CARD_MAX_LABELS) then
  let? status_parsed := match status with
                        | None => Ok Todo
                        | Some s => map_err CardStatusInvalid (CardStatus_parse s)
                        end in
  try? match assignee with
       | Some a => map_err (λ _, CardAssigneeUnknown a) (ensure_known_user d a)
       | None => Ok tt
       end then
  let card_id := generate_card_id (ce_date env) (ce_random env) in
  try? guard_err (negb (ce_mkdir_ok env)) CardMkdir then
  let now := e_now (ce_env env) in
  let meta := MkCardMeta title c status_parsed labels_vec assignee author now now None in
  let? meta_str := ok_or (yaml_to_string meta) CardMetaSerialize in
  try? guard_err (negb (e_meta_write_ok (ce_env env))) CardMetaWrite then
  Ok (c, card_id, meta, meta_str).

Definition handle_create_card (env : CardEnv) (d : GDaemon) (channel title : str) (labels : option (list str))
  (assignee status : option str) (author : str) : Outcome CreateCardResponse :=
  match prepare_create_card env d channel title labels assignee status author with
  | Err e => MkOutcome d [] (Err e)
  | Panicked => MkOutcome d [] Panicked
  | Ok (c, card_id, meta, meta_str) =>
      let rel := card_rel c card_id in
      let r1 := write_work (card_meta_of rel) meta_str (g_repo d) in
      if negb (ce_thread_write_ok env) then MkOutcome (with_repo d r1) [] (Err CardThreadWrite)
      else
        let r2 := write_work (card_thread_of rel) [] r1 in
        let '(r3, committed) := add_and_commit_as (ce_commit env) [card_meta_of rel; card_thread_of rel] r2 in
        if negb committed then MkOutcome (with_repo d r3) [] (Err CardCommit)
        else
          let '(r4, pushed) := push_with_retry (g_has_remote d) (ce_push env) r3 in
          let d' := with_repo d r4 in
          match pushed with
          | Ok _ =>
              MkOutcome d' [CardCreated c card_id]
                (Ok (MkCreateCardResponse c card_id title (lit "<#" ++ c ++ lit "/" ++ card_id ++ lit ">")
                       (compute_suggested_assignees d' (card_labels meta))))
          | Err e => MkOutcome d' [] (Err (CardPush e))
          | Panicked => MkOutcome d' [] Panicked
          end
  end.

(** ** Moving a card between its active and its archived place

    The steps both handlers share once the metadata text is known: write it, create
    the parent directory, move the card's directory, commit; on a failure undo what
    was done. *)
Definition move_card (env : CardEnv) (from_rel to_rel yaml : str) (r : Repo) : Repo * res unit CardReqError :=
  let meta_rel := card_meta_of from_rel in
  let r1 := write_work meta_rel yaml r in
  if negb (ce_mkdir_ok env) then (restore_card_yaml (ce_restore env) meta_rel r1, Err CardMkdir)
  else
    let '(r2, moved) := mv (ce_mv env) from_rel to_rel r1 in
    if negb moved then (restore_card_yaml (ce_restore env) meta_rel r2, Err CardMv)
    else
      let '(r3, committed) := add_and_commit_as (ce_commit env) [card_meta_of to_rel; card_thread_of to_rel] r2 in
      if negb committed then
        let '(r4, _) := mv (ce_rollback env) to_rel from_rel r3 in
        (restore_card_yaml (ce_restore env) meta_rel r4, Err CardCommit)
      else (r3, Ok tt).

(** What follows the move: push, broadcast, answer. *)
Definition finish_move {A} (env : CardEnv) (d : GDaemon) (r : Repo) (event : CardEvent) (payload : A) : Outcome A :=
  let '(r', pushed) := push_with_retry (g_has_remote d) (ce_push env) r in
  match pushed with
  | Ok _ => MkOutcome (with_repo d r') [event] (Ok payload)
  | Err e => MkOutcome (with_repo d r') [] (Err (CardPush e))
  | Panicked => MkOutcome (with_repo d r') [] Panicked
  end.

(** The checks of [handle_archive_card]: (channel, place of the card, stamped text). *)
Definition prepare_archive_card (env : CardEnv) (d : GDaemon) (channel card_id author : str)
  : res (str * str * str) CardReqError :=
  try? map_err CardDaemon (ensure_author_not_departed (as_daemon d) author) then
  try? ensure_known_user d author then
  let? ch_name := map_err CardChannelName (ChannelName_new channel) in
  let c := channel_name_str ch_name in
  try? map_err CardIdInvalid (check_card_id card_id) then
  let? located := match locate_card d c card_id with
                  | None => Err (CardNotFound card_id channel)
                  | Some loc => if lc_is_archived loc then Err (CardAlreadyArchived card_id) else Ok loc
                  end in
  let? meta := read_card_meta env d (lc_rel_path located) channel card_id in
  try? guard_err (negb (may_archive meta author)) CardPermission then
  let? stamped_yaml := ok_or (yaml_to_string (set_archived_via meta (Some ViaManual))) CardMetaSerialize in
  try? guard_err (negb (e_meta_write_ok (ce_env env))) CardMetaWrite then
  Ok (c, lc_rel_path located, stamped_yaml).

Definition handle_archive_card (env : CardEnv) (d : GDaemon) (channel card_id author : str)
  : Outcome (str * str * str) :=
  match prepare_archive_card env d channel card_id author with
  | Err e => MkOutcome d [] (Err e)
  | Panicked => MkOutcome d [] Panicked
  | Ok (c, from_rel, yaml) =>
      match move_card env from_rel (archived_card_rel c card_id) yaml (g_repo d) with
      | (r, Ok _) => finish_move env d r (CardArchived c card_id author) (c, card_id, author)
      | (r, Err e) => MkOutcome (with_repo d r) [] (Err e)
      | (r, Panicked) => MkOutcome (with_repo d r) [] Panicked
      end
  end.

(** The checks of [handle_unarchive_card]; a departed author is not refused here. *)
Definition prepare_unarchive_card (env : CardEnv) (d : GDaemon) (channel card_id author : str)
  : res (str * str * str) CardReqError :=
  try? ensure_known_user d author then
  let? ch_name := map_err CardChannelName (ChannelName_new channel) in
  let c := channel_name_str ch_name in
  try? map_err CardIdInvalid (check_card_id card_id) then
  let? located := match locate_card d c card_id with
                  | None => Err (CardNotFound card_id channel)
                  | Some loc => if negb (lc_is_archived loc) then Err (CardNotArchived card_id) else Ok loc
                  end in
  try? guard_err (negb (channel_thread_exists d c)) (CardChannelInactive channel) then
  let? meta := read_card_meta env d (lc_rel_path located) channel card_id in
  try? guard_err (negb (may_archive meta author)) CardPermission then
  let? updated_yaml := ok_or (yaml_to_string (set_archived_via meta None)) CardMetaSerialize in
  try? guard_err (negb (e_meta_write_ok (ce_env env))) CardMetaWrite then
  Ok (c, lc_rel_path located, updated_yaml).

Definition handle_unarchive_card (env : CardEnv) (d : GDaemon) (channel card_id author : str)
  : Outcome (str * str * str) :=
  match prepare_unarchive_card env d channel card_id author with
  | Err e => MkOutcome d [] (Err e)
  | Panicked => MkOutcome d [] Panicked
  | Ok (c, from_rel, yaml) =>
      match move_card env from_rel (card_rel c card_id) yaml (g_repo d) with
      | (r, Ok _) => finish_move env d r (CardUnarchived c card_id author) (c, card_id, author)
      | (r, Err e) => MkOutcome (with_repo d r) [] (Err e)
      | (r, Panicked) => MkOutcome (with_repo d r) [] Panicked
      end
  end.

(** ** Listing and reading *)

Definition summary_of (card_id : str) (meta : CardMeta) : CardSummary :=
  MkCardSummary card_id (card_channel meta) (card_title meta) (CardStatus_as_str (card_status meta))
    (card_labels meta) (card_assignee meta) (card_created_by meta) (card_created_at meta) (card_updated_at meta).

(** The order of [sort_by]: channel, then id. *)
Definition summary_leb (a b : CardSummary) : bool :=
  match str_compare (cs_channel a) (cs_channel b) with
  | Lt => true
  | Gt => false
  | Eq => str_leb (cs_card_id a) (cs_card_id b)
  end.

(** The filters of [handle_list_cards], in the order of its [continue]s. *)
Definition card_matches (status_filter : option CardStatus) (label_filter : list str) (assignee : option str)
  (meta : CardMeta) : bool :=
  match status_filter with Some s => card_status meta =?? s | None => true end
  && (is_empty label_filter || forallb (λ l, bool_decide (l ∈ card_labels meta)) label_filter)
  && match assignee with Some a => card_assignee meta =?? Some a | None => true end.

(** The cards in the directories [read_dir] reports below [<base>/<ch>/cards]. *)
Definition scan_cards (env : CardEnv) (d : GDaemon) (base : str) (keep : CardMeta → bool) (chans : list str)
  : list CardSummary :=
  flat_map (λ c,
    let cards_dir := base ++ lit "/" ++ c ++ lit "/cards" in
    omap (λ card_id,
      match r_work (g_repo d) !! card_meta_of (cards_dir ++ lit "/" ++ card_id) ≫= yaml_from_str with
      | Some meta => if keep meta then Some (summary_of card_id meta) else None
      | None => None
      end) (ce_list env cards_dir)) chans.

Definition handle_list_cards (env : CardEnv) (d : GDaemon) (channel : option str) (labels : option (list str))
  (status assignee : option str) : res (list CardSummary) CardReqError :=
  let? status_filter := match status with
                        | None => Ok None
                        | Some s => let? v := map_err CardStatusInvalid (CardStatus_parse s) in Ok (Some v)
                        end in
  let label_filter := unwrap_or labels [] in
  let? channels_to_scan := match channel with
                           | Some c => let? name := map_err CardChannelName (ChannelName_new c) in
                                       Ok [channel_name_str name]
                           | None => Ok (ce_list env (lit "channels"))
                           end in
  Ok (sort_by_key summary_leb
        (scan_cards env d (lit "channels") (card_matches status_filter label_filter assignee) channels_to_scan)).

Definition handle_list_archived_cards (env : CardEnv) (d : GDaemon) (channel : option str)
  : res (list CardSummary) CardReqError :=
  let? channels_to_scan := match channel with
                           | Some c => let? name := map_err CardChannelName (ChannelName_new c) in
                                       Ok [channel_name_str name]
                           | None => Ok (ce_list env (lit "archive/channels"))
                           end in
  Ok (sort_by_key summary_leb (scan_cards env d (lit "archive/channels") (λ _, true) channels_to_scan)).

Definition handle_read_card (env : CardEnv) (d : GDaemon) (channel card_id : str) (limit : option nat)
  (since : option N) : res ReadCardResponse CardReqError :=
  let? ch_name := map_err CardChannelName (ChannelName_new channel) in
  let c := channel_name_str ch_name in
  try? map_err CardIdInvalid (check_card_id card_id) then
  let? located := ok_or (locate_card d c card_id) (CardNotFound card_id channel) in
  let? meta := read_card_meta env d (lc_rel_path located) channel card_id in
  let? es := map_err CardDaemon
               (read_thread_entries (read_or_empty (ce_env env) (as_daemon d) (card_thread_of (lc_rel_path located))) limit since) in
  Ok (MkReadCardResponse c card_id (lc_is_archived located)
        (MkCardMetaSummary (card_title meta) (CardStatus_as_str (card_status meta)) (card_labels meta)
           (card_assignee meta) (card_created_by meta) (card_created_at meta) (card_updated_at meta))
        es).

(** ** [handle_send_card_message] *)

Definition prepare_card_message (env : CardEnv) (d : GDaemon) (channel card_id body : str) (reply_to : option N)
  (author : str) : res (str * str * N * str) CardReqError :=
  let? handler := map_err CardInvalidAuthor (Handler_new author) in
  try? map_err CardDaemon (ensure_author_not_departed (as_daemon d) author) then
  try? ensure_known_user d author then
  let? ch_name := map_err CardChannelName (ChannelName_new channel) in
  let c := channel_name_str ch_name in
  try? map_err CardIdInvalid (check_card_id card_id) then
  let? located := ok_or (locate_card d c card_id) (CardNotFound card_id channel) in
  try? guard_err (lc_is_archived located) (CardIsArchived card_id channel) then
  let? appended := map_err CardDaemon
                     (append_message_to_thread (ce_env env) (as_daemon d) (card_thread_of (lc_rel_path located))
                        handler body reply_to) in
  let '(next_line, _, whole) := appended in
  Ok (c, lc_rel_path located, next_line, whole).

Definition handle_send_card_message (env : CardEnv) (d : GDaemon) (channel card_id body : str)
  (reply_to : option N) (author : str) : Outcome SendCardMessageResponse :=
  match prepare_card_message env d channel card_id body reply_to author with
  | Err e => MkOutcome d [] (Err e)
  | Panicked => MkOutcome d [] Panicked
  | Ok (c, rel, next_line, whole) =>
      let thread_rel := card_thread_of rel in
      let r1 := write_work thread_rel whole (g_repo d) in
      let '(r2, committed) := add_and_commit_as (ce_commit env) [thread_rel] r1 in
      let commit_id := if committed then e_head (ce_env env) else None in
      let pending := match commit_id with
                     | Some id => g_pending_push d ++ [MkPendingMessage rel next_line id]
                     | None => g_pending_push d
                     end in
      MkOutcome (MkGDaemon r2 (g_users d) pending (g_has_remote d)) [CardMessageAppended c card_id [next_line]]
        (Ok (MkSendCardMessageResponse next_line c card_id
               (if committed then lit "committed" else lit "written") commit_id))
  end.

(** ** [handle_update_card] *)

(** The new metadata: status, labels and assignee in this order. *)
Definition apply_card_update (d : GDaemon) (now : str) (status : option str) (labels : option (list str))
  (assignee : option str) (meta : CardMeta) : res CardMeta CardReqError :=
  let? new_status := match status with
                     | Some s => map_err CardStatusInvalid (CardStatus_parse s)
                     | None => Ok (card_status meta)
                     end in
  let? new_labels := match labels with
                     | Some ls => try? map_err CardLabelsInvalid (validate_labels ls CARD_MAX_LABELS) then Ok ls
                     | None => Ok (card_labels meta)
                     end in
  let? new_assignee := match assignee with
                       | Some a => try? map_err (λ _, CardAssigneeUnknown a) (ensure_known_user d a) then Ok (Some a)
                       | None => Ok (card_assignee meta)
                       end in
  Ok (MkCardMeta (card_title meta) (card_channel meta) new_status new_labels new_assignee (card_created_by meta)
        (card_created_at meta) now (card_archived_via meta)).

Definition prepare_update_card (env : CardEnv) (d : GDaemon) (channel card_id : str) (status : option str)
  (labels : option (list str)) (assignee : option str) (author : str)
  : res (str * str * CardMeta * CardMeta * str) CardReqError :=
  try? map_err CardDaemon (ensure_author_not_departed (as_daemon d) author) then
  try? ensure_known_user d author then
  let? ch_name := map_err CardChannelName (ChannelName_new channel) in
  let c := channel_name_str ch_name in
  try? map_err CardIdInvalid (check_card_id card_id) then
  try? guard_err (is_none status && is_none labels && is_none assignee) CardNothingToUpdate then
  let? located := ok_or (locate_card d c card_id) (CardNotFound card_id channel) in
  try? guard_err (lc_is_archived located) (CardIsArchived card_id channel) then
  let? meta := read_card_meta env d (lc_rel_path located) channel card_id in
  let? meta' := apply_card_update d (e_now (ce_env env)) status labels assignee meta in
  let? meta_str := ok_or (yaml_to_string meta') CardMetaSerialize in
  try? guard_err (negb (e_meta_write_ok (ce_env env))) CardMetaWrite then
  Ok (c, lc_rel_path located, meta, meta', meta_str).

Definition handle_update_card (env : CardEnv) (d : GDaemon) (channel card_id : str) (status : option str)
  (labels : option (list str)) (assignee : option str) (author : str) : Outcome UpdateCardResponse :=
  match prepare_update_card env d channel card_id status labels assignee author with
  | Err e => MkOutcome d [] (Err e)
  | Panicked => MkOutcome d [] Panicked
  | Ok (c, rel, meta, meta', meta_str) =>
      let r1 := write_work (card_meta_of rel) meta_str (g_repo d) in
      let '(r2, committed) := add_and_commit_as (ce_commit env) [card_meta_of rel] r1 in
      if negb committed then MkOutcome (with_repo d r2) [] (Err CardCommit)
      else
        let '(r3, pushed) := push_with_retry (g_has_remote d) (ce_push env) r2 in
        let d' := with_repo d r3 in
        let changed := is_some status && negb (card_status meta =?? card_status meta') in
        match pushed with
        | Ok _ =>
            MkOutcome d'
              (if changed
               then [CardStatusChanged c card_id (CardStatus_as_str (card_status meta))
                       (CardStatus_as_str (card_status meta')) author]
               else [])
              (Ok (MkUpdateCardResponse c card_id (CardStatus_as_str (card_status meta')) (card_labels meta')
                     (card_assignee meta')))
        | Err e => MkOutcome d' [] (Err (CardPush e))
        | Panicked => MkOutcome d' [] Panicked
        end
  end.

(** ** Moving a card is all or nothing *)

(** Everything below the place is committed. *)
Definition card_clean (rel : str) (r : Repo) : Prop :=
  ∀ k, below rel k = true → r_work r !! k = r_index r !! k ∧ r_index r !! k = r_head r !! k.

(** Neither the work tree nor the index has anything at the place. *)
Definition place_free (rel : str) (r : Repo) : Prop :=
  path_exists (r_work r) rel = false ∧ path_exists (r_index r) rel = false.

(** The commands of the rollback succeed when what they need is there. *)
Definition rollback_works (env : CardEnv) (from to : str) : Prop :=
  (∀ r, path_exists (r_index r) to = true → path_exists (r_work r) from = false →
        is_Some (git_mv (ce_rollback env) to from r))
  ∧ (∀ r, is_Some (r_head r !! card_meta_of from) → restores (ce_restore env) (card_meta_of from) r).

(** The clone after a card has been moved and committed. *)
Definition card_moved (from to yaml : str) (r : Repo) : Repo :=
  let i := move_tree from to (<[card_meta_of from := yaml]> (r_index r)) in
  MkRepo (move_tree from to (<[card_meta_of from := yaml]> (r_work r))) i i.

Lemma card_meta_below rel : below rel (card_meta_of rel) = true.
Proof. apply below_true. eexists. apply strip_dir_Some. split; [done|]. right. by eexists. Qed.

Lemma card_thread_ne_meta rel : card_thread_of rel ≠ card_meta_of rel.
Proof. intros H. by apply app_inv_head in H. Qed.

Lemma card_files_below rel k : in_paths [card_meta_of rel; card_thread_of rel] k = true → below rel k = true.
Proof.
  unfold in_paths. cbn [existsb]. rewrite orb_false_r, orb_true_iff.
  intros [H|H]; eapply below_app; [|exact H| |exact H]; right; by eexists.
Qed.

Lemma write_meta_below (rel yaml : str) (t : tree) (k : str) :
  below rel k = false → (<[card_meta_of rel := yaml]> t : tree) !! k = t !! k.
Proof. intros Hk. apply lookup_insert_ne. intros <-. by rewrite card_meta_below in Hk. Qed.

Lemma apart_meta from to : apart from to → below to (card_meta_of from) = false.
Proof.
  intros Ha. pose proof (card_meta_below from) as [rest Hs]%below_true.
  apply strip_dir_None_below. eapply apart_below; eauto.
Qed.

(** Staging the two files after the move stages exactly the new metadata. *)
Lemma stage_moved (from to yaml : str) (r : Repo) :
  apart from to → card_clean from r → place_free to r →
  sync_paths [card_meta_of to; card_thread_of to]
    (move_tree from to (<[card_meta_of from := yaml]> (r_work r))) (move_tree from to (r_index r))
  = move_tree from to (<[card_meta_of from := yaml]> (r_index r)).
Proof.
  intros Ha Hc [Hw Hi]. apply map_eq. intros k. rewrite lookup_sync_paths.
  assert (Hw' : path_exists (<[card_meta_of from := yaml]> (r_work r)) to = false)
    by by rewrite path_exists_insert by by apply apart_meta.
  assert (Hi' : path_exists (<[card_meta_of from := yaml]> (r_index r)) to = false)
    by by rewrite path_exists_insert by by apply apart_meta.
  destruct (strip_dir to k) as [rest|] eqn:Hk.
  - apply strip_dir_Some in Hk as [-> Hr]. rewrite !lookup_move_to by done.
    destruct (in_paths _ (to ++ rest)) eqn:Hin.
    + destruct (decide (from ++ rest = card_meta_of from)) as [->|Hne]; [by rewrite !lookup_insert_eq|].
      rewrite !lookup_insert_ne by done. apply Hc. apply below_true. exists rest. by apply strip_dir_app.
    + symmetry. apply lookup_insert_ne. intros He. apply app_inv_head in He as <-.
      unfold in_paths in Hin. cbn [existsb] in Hin. fold (card_meta_of to) in Hin.
      by rewrite below_refl in Hin.
  - apply strip_dir_None_below in Hk.
    destruct (in_paths _ k) eqn:Hin; [apply card_files_below in Hin; congruence|].
    destruct (below from k) eqn:Hf; [by rewrite !lookup_move_from|].
    rewrite !lookup_move_other by done. symmetry. by apply write_meta_below.
Qed.

(** Restoring the metadata file undoes any change to it. *)
Lemma restore_clean (env : CardEnv) (rel : str) (r : Repo) (w i : tree) :
  card_clean rel r → is_Some (r_head r !! card_meta_of rel) →
  (∀ r, is_Some (r_head r !! card_meta_of rel) → restores (ce_restore env) (card_meta_of rel) r) →
  (∀ k, k ≠ card_meta_of rel → w !! k = r_work r !! k) →
  (∀ k, k ≠ card_meta_of rel → i !! k = r_index r !! k) →
  restore_card_yaml (ce_restore env) (card_meta_of rel) (MkRepo w i (r_head r)) = r.
Proof.
  intros Hc [y Hy] Hrs Hw Hi. rewrite restore_card_yaml_spec by by apply Hrs. cbn [r_head r_work r_index].
  assert (Hb : ∀ k, in_paths [card_meta_of rel] k = true → below rel k = true).
  { intros k H. apply card_files_below. unfold in_paths in *. cbn [existsb] in *.
    rewrite orb_false_r in H. by rewrite H. }
  assert (Hm : in_paths [card_meta_of rel] (card_meta_of rel) = true).
  { unfold in_paths. cbn [existsb]. by rewrite below_refl. }
  destruct r as [w0 i0 h0]. cbn [r_work r_index r_head] in *. f_equal; apply map_eq; intros k.
  - rewrite lookup_overlay_paths. destruct (decide (k = card_meta_of rel)) as [->|Hne].
    + rewrite Hm, Hy. destruct (Hc _ (card_meta_below rel)) as [E1 E2]. cbn [r_work r_index r_head] in *. congruence.
    + destruct (in_paths _ k) eqn:Hin; [|by apply Hw]. destruct (Hc k (Hb k Hin)) as [E1 E2]. cbn [r_work r_index r_head] in *.
      rewrite (Hw k Hne), <-E2, <-E1. by destruct (w0 !! k).
  - rewrite lookup_sync_paths. destruct (in_paths _ k) eqn:Hin; [symmetry; apply (Hc k (Hb k Hin))|].
    apply Hi. intros ->. by rewrite Hm in Hin.
Qed.

Lemma move_card_spec env from to yaml r :
  apart from to → card_clean from r → is_Some (r_head r !! card_meta_of from) → place_free to r →
  rollback_works env from to →
  match move_card env from to yaml r with
  | (r', Ok _) => r' = card_moved from to yaml r
  | (r', Err _) => r' = r
  | (_, Panicked) => False
  end.
Proof.
  intros Ha Hc Hhead [Hw Hi] [Hback Hrest]. unfold move_card.
  assert (Hr1 : restore_card_yaml (ce_restore env) (card_meta_of from) (write_work (card_meta_of from) yaml r) = r).
  { apply restore_clean; [done..| |done]. intros k Hk. by rewrite lookup_insert_ne. }
  destruct (ce_mkdir_ok env); [|done]. cbn [negb].
  destruct (mv _ _ _ _) as [r2 [|]] eqn:Emv; cbn [negb]; [|by apply mv_fail in Emv as ->].
  assert (Hw' : path_exists (<[card_meta_of from := yaml]> (r_work r)) to = false)
    by by rewrite path_exists_insert by by apply apart_meta.
  assert (Hsrc : path_exists (r_index r) from = true).
  { unfold mv in Emv. destruct (git_mv _ _ _ _) as [r'|] eqn:E; [|done]. by apply git_mv_moves in E as [? _]. }
  apply mv_spec in Emv; [|done]. unfold moved in Emv. cbn [write_work r_work r_index r_head] in Emv.
  destruct (add_and_commit_as _ _ _) as [r3 [|]] eqn:Eac; cbn [negb]; apply add_and_commit_spec in Eac; subst r2;
    unfold stage in Eac; cbn [r_work r_index r_head] in Eac; rewrite stage_moved in Eac by done; [done|].
  assert (Hr3 : ∃ i, r3 = moved from to (MkRepo (<[card_meta_of from := yaml]> (r_work r)) i (r_head r))
                     ∧ path_exists i from = true ∧ path_exists i to = false
                     ∧ ∀ k, k ≠ card_meta_of from → i !! k = r_index r !! k).
  { destruct Eac as [->| ->]; [by exists (r_index r)|].
    exists (<[card_meta_of from := yaml]> (r_index r)). split_and!; [done| | |].
    - apply path_exists_true. exists (card_meta_of from), yaml. rewrite lookup_insert_eq.
      pose proof (card_meta_below from) as [rest Hs]%below_true. by exists rest.
    - by rewrite path_exists_insert by by apply apart_meta.
    - intros k Hk. by rewrite lookup_insert_ne. }
  destruct Hr3 as (i & -> & Hif & Hit & Hik).
  destruct (mv (ce_rollback env) to from _) as [r4 [|]] eqn:Erb.
  - apply mv_spec in Erb; [|by apply path_exists_moved]. unfold moved in Erb. cbn [r_work r_index r_head] in Erb.
    rewrite !move_tree_back in Erb by done. subst r4. apply restore_clean; [done..| |done].
    intros k Hk. by rewrite lookup_insert_ne.
  - exfalso. unfold mv in Erb. destruct (Hback (moved from to (MkRepo (<[card_meta_of from := yaml]> (r_work r)) i (r_head r))))
      as [r' Hr']; [by apply path_exists_move|by apply path_exists_moved|]. by rewrite Hr' in Erb.
Qed.

Lemma move_card_Ok env from to yaml r r' :
  apart from to → card_clean from r → place_free to r →
  move_card env from to yaml r = (r', Ok tt) → r' = card_moved from to yaml r.
Proof.
  intros Ha Hc [Hw Hi]. unfold move_card. destruct (ce_mkdir_ok env); [|done]. cbn [negb].
  destruct (mv _ _ _ _) as [r2 [|]] eqn:Emv; [cbn [negb]|done].
  apply mv_spec in Emv; [|cbn [write_work r_work]; by rewrite path_exists_insert by by apply apart_meta].
  destruct (add_and_commit_as _ _ _) as [r3 [|]] eqn:Eac; cbn [negb]; [|by destruct (mv _ _ _ _)].
  intros [= <-]. apply add_and_commit_spec in Eac. subst r2. unfold stage, moved in Eac.
  cbn [write_work r_work r_index r_head] in Eac. by rewrite stage_moved in Eac.
Qed.

(** ** What a prepared request consists of *)

Lemma ensure_known_user_Ok d h : ensure_known_user d h = Ok tt ↔ h ∈ g_users d.
Proof. unfold ensure_known_user. by rewrite guard_err_Ok, negb_decide_false. Qed.

Lemma read_card_meta_Ok env d rel channel card_id meta :
  read_card_meta env d rel channel card_id = Ok meta →
  ∃ y, r_work (g_repo d) !! card_meta_of rel = Some y ∧ yaml_from_str y = Some meta.
Proof.
  unfold read_card_meta. destruct (ce_read_ok env); [|done].
  destruct (r_work (g_repo d) !! _) as [y|]; [|done]. rewrite ok_or_Ok. intros H. by exists y.
Qed.

Lemma ChannelName_new_str s n : ChannelName_new s = Ok n → channel_name_str n = s.
Proof. by intros (-> & _)%ChannelName_new_iff. Qed.

(** The card a located place belongs to. *)
Definition card_at (d : GDaemon) (rel : str) (meta : CardMeta) : Prop :=
  ∃ y, r_work (g_repo d) !! card_meta_of rel = Some y ∧ yaml_from_str y = Some meta.

Lemma locate_card_Some d c id loc :
  locate_card d c id = Some loc →
  lc_rel_path loc = (if lc_is_archived loc then archived_card_rel c id else card_rel c id).
Proof.
  unfold locate_card. destruct (exists_file _ _), (exists_file _ _); cbn; by intros [= <-].
Qed.

Lemma locate_card_active d c id loc :
  locate_card d c id = Some loc → lc_is_archived loc = false →
  loc = MkLocatedCard (card_rel c id) false ∧ exists_file (as_daemon d) (card_meta_of (card_rel c id)) = true.
Proof.
  unfold locate_card. destruct (exists_file _ (card_meta_of (card_rel c id))), (exists_file _ _); cbn;
    intros [= <-]; by intros.
Qed.

Lemma locate_card_prefers_active d c id :
  exists_file (as_daemon d) (card_meta_of (card_rel c id)) = true →
  locate_card d c id = Some (MkLocatedCard (card_rel c id) false).
Proof. unfold locate_card. intros ->. by destruct (exists_file _ _). Qed.

Lemma prepare_archive_card_Ok env d channel card_id author c rel yaml :
  prepare_archive_card env d channel card_id author = Ok (c, rel, yaml) →
  c = channel ∧ rel = card_rel channel card_id ∧ check_card_id card_id = Ok tt ∧ author ∈ g_users d ∧
  ∃ meta, card_at d rel meta ∧ may_archive meta author = true
    ∧ yaml_to_string (set_archived_via meta (Some ViaManual)) = Some yaml.
Proof.
  unfold prepare_archive_card. intros H. 
  rewrite try_Ok in H. destruct H as [_ H]. rewrite try_Ok, ensure_known_user_Ok in H. destruct H as [Hu H].
  rewrite res_bind_Ok in H. destruct H as (n & Hn & H). rewrite map_err_Ok in Hn.
  apply ChannelName_new_str in Hn. rewrite Hn in H.
  rewrite try_Ok, map_err_Ok in H. destruct H as [Hid H].
  rewrite res_bind_Ok in H. destruct H as (loc & Hl & H).
  destruct (locate_card d channel card_id) as [loc'|] eqn:El; [|done].
  apply locate_card_Some in El. destruct (lc_is_archived loc') eqn:Ea; [done|]. injection Hl as <-.
  rewrite El in H. rewrite res_bind_Ok in H. destruct H as (meta & Hm & H). apply read_card_meta_Ok in Hm.
  rewrite try_Ok, guard_err_Ok, negb_false_iff in H. destruct H as [Hp H].
  rewrite res_bind_Ok in H. destruct H as (y & Hy & H). rewrite ok_or_Ok in Hy.
  rewrite try_Ok in H. destruct H as [_ H]. injection H as <- <- <-.
  split_and!; [done..|]. by exists meta.
Qed.

Lemma prepare_unarchive_card_Ok env d channel card_id author c rel yaml :
  prepare_unarchive_card env d channel card_id author = Ok (c, rel, yaml) →
  c = channel ∧ rel = archived_card_rel channel card_id ∧ check_card_id card_id = Ok tt ∧ author ∈ g_users d ∧
  channel_thread_exists d channel = true ∧
  ∃ meta, card_at d rel meta ∧ may_archive meta author = true
    ∧ yaml_to_string (set_archived_via meta None) = Some yaml.
Proof.
  unfold prepare_unarchive_card. intros H.
  rewrite try_Ok, ensure_known_user_Ok in H. destruct H as [Hu H].
  rewrite res_bind_Ok in H. destruct H as (n & Hn & H). rewrite map_err_Ok in Hn.
  apply ChannelName_new_str in Hn. rewrite Hn in H.
  rewrite try_Ok, map_err_Ok in H. destruct H as [Hid H].
  rewrite res_bind_Ok in H. destruct H as (loc & Hl & H).
  destruct (locate_card d channel card_id) as [loc'|] eqn:El; [|done].
  apply locate_card_Some in El. destruct (lc_is_archived loc') eqn:Ea; [|done]. injection Hl as <-.
  rewrite El in H. rewrite try_Ok, guard_err_Ok, negb_false_iff in H. destruct H as [Hth H].
  rewrite res_bind_Ok in H. destruct H as (meta & Hm & H). apply read_card_meta_Ok in Hm.
  rewrite try_Ok, guard_err_Ok, negb_false_iff in H. destruct H as [Hp H].
  rewrite res_bind_Ok in H. destruct H as (y & Hy & H). rewrite ok_or_Ok in Hy.
  rewrite try_Ok in H. destruct H as [_ H]. injection H as <- <- <-.
  split_and!; [done..|]. by exists meta.
Qed.

Lemma ChannelName_new_no_panic s : no_panic (ChannelName_new s).
Proof. unfold ChannelName_new. solve_no_panic. Qed.
Lemma Handler_new_no_panic s : no_panic (Handler_new s).
Proof. unfold Handler_new. solve_no_panic. Qed.
Lemma check_card_id_no_panic id : no_panic (check_card_id id).
Proof. unfold check_card_id. solve_no_panic. Qed.
Lemma read_card_meta_no_panic env d rel c id : no_panic (read_card_meta env d rel c id).
Proof. unfold read_card_meta. solve_no_panic. Qed.
#[local] Hint Resolve ChannelName_new_no_panic Handler_new_no_panic check_card_id_no_panic
  read_card_meta_no_panic : no_panic.

Lemma prepare_archive_card_no_panic env d channel card_id author :
  no_panic (prepare_archive_card env d channel card_id author).
Proof. unfold prepare_archive_card, ensure_author_not_departed, ensure_known_user. solve_no_panic. Qed.
Lemma prepare_unarchive_card_no_panic env d channel card_id author :
  no_panic (prepare_unarchive_card env d channel card_id author).
Proof. unfold prepare_unarchive_card, ensure_known_user. solve_no_panic. Qed.

Lemma card_places_apart c id : apart (card_rel c id) (archived_card_rel c id).
Proof. by apply apart_head. Qed.

(** No answer of the environment makes the push rebase onto somebody else's work. *)
Definition no_conflict (env : CardEnv) : Prop := ∀ n r, git_push (pe_push (ce_push env n)) r ≠ PushConflict.

Lemma finish_move_spec {A} env d r event (payload : A) :
  no_conflict env →
  let o := finish_move env d r event payload in
  o_state o = with_repo d r
  ∧ (o_response o = Ok payload ∧ o_events o = [event]
     ∨ ∃ e, o_response o = Err (CardPush e) ∧ o_events o = []).
Proof.
  intros Hp. unfold finish_move. pose proof (push_no_conflict (g_has_remote d) (ce_push env) r Hp) as Hr.
  pose proof (push_with_retry_no_panic (g_has_remote d) (ce_push env) r) as Hnp.
  destruct (push_with_retry _ _ _) as [r' [[]|e|]]; simpl in *; [|subst r'; eauto|done].
  subst r'. auto.
Qed.

(** A card request left everything as it was, or moved the card as a whole. *)
Definition card_left_alone {A} (d : GDaemon) (o : Outcome A) : Prop :=
  o_state o = d ∧ o_events o = [] ∧ is_err (o_response o) = true.

Lemma with_repo_same d : with_repo d (g_repo d) = d.
Proof. by destruct d. Qed.

(** What both handlers do once their checks have passed. *)
Lemma relocate_spec env d from to yaml event (payload : str * str * str) meta v :
  apart from to → card_clean from (g_repo d) → place_free to (g_repo d) → rollback_works env from to →
  no_conflict env → card_at d from meta → yaml_to_string (set_archived_via meta v) = Some yaml →
  let o := match move_card env from to yaml (g_repo d) with
           | (r, Ok _) => finish_move env d r event payload
           | (r, Err e) => MkOutcome (with_repo d r) [] (Err e)
           | (r, Panicked) => MkOutcome (with_repo d r) [] Panicked
           end in
  card_left_alone d o ∨
  (o_state o = with_repo d (card_moved from to yaml (g_repo d))
   ∧ yaml_from_str yaml = Some (set_archived_via meta v)
   ∧ (o_response o = Ok payload ∧ o_events o = [event]
      ∨ ∃ e, o_response o = Err (CardPush e) ∧ o_events o = [])).
Proof.
  intros Ha Hc Hf Hb Hp (y & Hy & _) Hyaml.
  assert (Hhead : is_Some (r_head (g_repo d) !! card_meta_of from)).
  { destruct (Hc _ (card_meta_below from)) as [E1 E2]. rewrite <-E2, <-E1, Hy. by eexists. }
  pose proof (move_card_spec env from to yaml (g_repo d) Ha Hc Hhead Hf Hb) as Hm.
  destruct (move_card env from to yaml (g_repo d)) as [r [u|e|]]; [|left|done].
  - subst r. right. destruct (finish_move_spec env d (card_moved from to yaml (g_repo d)) event payload Hp)
      as [Hs Hr]. split_and!; [exact Hs|by apply yaml_roundtrip|exact Hr].
  - subst r. unfold card_left_alone. simpl. by rewrite with_repo_same.
Qed.

(** Archiving a card is all or nothing.  Take a card whose files are committed,
    with nothing at its archive place.  Whatever fails on the way (a write, the
    directory, [git mv], [git add], [git commit]), as long as the undo commands
    work, the clone (work tree, index and [HEAD]) is afterwards exactly what it was
    and the client gets an error and no event is broadcast; otherwise the whole
    card directory has moved in all three trees, its metadata differs only in the
    stamp, the author is a known user who created the card or is its assignee, and
    the only error left is a push that sync will retry. *)
Theorem archive_card_all_or_nothing (env : CardEnv) (d : GDaemon) (channel card_id author : str)
    (Hclean : card_clean (card_rel channel card_id) (g_repo d))
    (Hfree : place_free (archived_card_rel channel card_id) (g_repo d))
    (Hback : rollback_works env (card_rel channel card_id) (archived_card_rel channel card_id))
    (Hpush : no_conflict env) :
  let o := handle_archive_card env d channel card_id author in
  card_left_alone d o ∨
  (∃ meta yaml, card_at d (card_rel channel card_id) meta ∧ author ∈ g_users d ∧ may_archive meta author = true
     ∧ yaml_from_str yaml = Some (set_archived_via meta (Some ViaManual))
     ∧ o_state o = with_repo d (card_moved (card_rel channel card_id) (archived_card_rel channel card_id) yaml (g_repo d))
     ∧ (o_response o = Ok (channel, card_id, author) ∧ o_events o = [CardArchived channel card_id author]
        ∨ ∃ e, o_response o = Err (CardPush e) ∧ o_events o = [])).
Proof.
  cbv zeta. unfold handle_archive_card.
  destruct (prepare_archive_card env d channel card_id author) as [[[c rel] yaml]|e|] eqn:E; [|by left| ].
  - apply prepare_archive_card_Ok in E as (-> & -> & _ & Hu & meta & Hat & Hmay & Hy).
    destruct (relocate_spec env d _ _ yaml (CardArchived channel card_id author) (channel, card_id, author) meta _
                (card_places_apart channel card_id) Hclean Hfree Hback Hpush Hat Hy) as [Hl|(Hs & Hyr & Hr)];
      [by left|right]. exists meta, yaml. by split_and!.
  - by destruct (prepare_archive_card_no_panic env d channel card_id author).
Qed.

(** The same for taking a card out of the archive. *)
Lemma unarchive_card_all_or_nothing (env : CardEnv) (d : GDaemon) (channel card_id author : str) :
  card_clean (archived_card_rel channel card_id) (g_repo d) →
  place_free (card_rel channel card_id) (g_repo d) →
  rollback_works env (archived_card_rel channel card_id) (card_rel channel card_id) →
  no_conflict env →
  let o := handle_unarchive_card env d channel card_id author in
  card_left_alone d o ∨
  (∃ meta yaml, card_at d (archived_card_rel channel card_id) meta ∧ author ∈ g_users d
     ∧ may_archive meta author = true ∧ channel_thread_exists d channel = true
     ∧ yaml_from_str yaml = Some (set_archived_via meta None)
     ∧ o_state o = with_repo d (card_moved (archived_card_rel channel card_id) (card_rel channel card_id) yaml (g_repo d))
     ∧ (o_response o = Ok (channel, card_id, author) ∧ o_events o = [CardUnarchived channel card_id author]
        ∨ ∃ e, o_response o = Err (CardPush e) ∧ o_events o = [])).
Proof.
  intros Hclean Hfree Hback Hpush. cbv zeta. unfold handle_unarchive_card.
  destruct (prepare_unarchive_card env d channel card_id author) as [[[c rel] yaml]|e|] eqn:E; [|by left|].
  - apply prepare_unarchive_card_Ok in E as (-> & -> & _ & Hu & Hth & meta & Hat & Hmay & Hy).
    destruct (relocate_spec env d _ _ yaml (CardUnarchived channel card_id author) (channel, card_id, author) meta _
                (symmetry (card_places_apart channel card_id)) Hclean Hfree Hback Hpush Hat Hy) as [Hl|(Hs & Hyr & Hr)];
      [by left|right]. exists meta, yaml. by split_and!.
  - by destruct (prepare_unarchive_card_no_panic env d channel card_id author).
Qed.

(** ** There and back *)

Lemma insert_meta_move (from to yaml : str) (t : tree) :
  apart from to → path_exists t to = false →
  <[card_meta_of to := yaml]> (move_tree from to t) = move_tree from to (<[card_meta_of from := yaml]> t).
Proof. intros Ha Ht. apply insert_move; [|done..]. right. by eexists. Qed.

(** Moving a card back with its old text gives the old clone. *)
Lemma card_moved_back from to yaml y r :
  apart from to → card_clean from r → place_free to r → r_index r = r_head r →
  r_work r !! card_meta_of from = Some y →
  card_moved to from y (card_moved from to yaml r) = r.
Proof.
  intros Ha Hc [Hw Hi] Hih Hy. unfold card_moved. cbn [r_work r_index r_head].
  assert (Hiy : r_index r !! card_meta_of from = Some y).
  { by destruct (Hc _ (card_meta_below from)) as [<- _]. }
  rewrite !insert_meta_move by (try done; by rewrite path_exists_insert by by apply apart_meta).
  rewrite !insert_insert_eq, !insert_id by done. rewrite !move_tree_back by done.
  destruct r as [w i h]. simpl in *. by subst h.
Qed.

Lemma card_moved_clean from to yaml r :
  apart from to → card_clean from r → place_free to r → card_clean to (card_moved from to yaml r).
Proof.
  intros Ha Hc [Hw Hi] k Hk. unfold card_moved. cbn [r_work r_index r_head]. split; [|done].
  apply below_true in Hk as [rest [-> Hr]%strip_dir_Some].
  rewrite !lookup_move_to by (try done; by rewrite path_exists_insert by by apply apart_meta).
  destruct (decide (from ++ rest = card_meta_of from)) as [->|Hne]; [by rewrite !lookup_insert_eq|].
  rewrite !lookup_insert_ne by done. apply Hc. apply below_true. exists rest. by apply strip_dir_app.
Qed.

Lemma card_moved_free from to yaml r : apart from to → place_free from (card_moved from to yaml r).
Proof. intros Ha. split; by apply path_exists_moved. Qed.

Lemma archive_card_Ok env d channel card_id author p :
  card_clean (card_rel channel card_id) (g_repo d) → place_free (archived_card_rel channel card_id) (g_repo d) →
  no_conflict env → o_response (handle_archive_card env d channel card_id author) = Ok p →
  ∃ meta yaml, card_at d (card_rel channel card_id) meta
    ∧ yaml_from_str yaml = Some (set_archived_via meta (Some ViaManual))
    ∧ o_state (handle_archive_card env d channel card_id author)
      = with_repo d (card_moved (card_rel channel card_id) (archived_card_rel channel card_id) yaml (g_repo d)).
Proof.
  intros Hc Hf Hnc. unfold handle_archive_card.
  destruct (prepare_archive_card _ _ _ _ _) as [[[c rel] yaml]|e|] eqn:E; [|done..].
  apply prepare_archive_card_Ok in E as (-> & -> & _ & _ & meta & Hat & _ & Hy).
  destruct (move_card _ _ _ _ _) as [r [[]|e|]] eqn:Em; [|done..]. intros _.
  apply move_card_Ok in Em as ->; [|apply card_places_apart|done|done].
  exists meta, yaml. split_and!; [done|by apply yaml_roundtrip|]. by apply finish_move_spec.
Qed.

Lemma unarchive_card_Ok env d channel card_id author p :
  card_clean (archived_card_rel channel card_id) (g_repo d) → place_free (card_rel channel card_id) (g_repo d) →
  no_conflict env → o_response (handle_unarchive_card env d channel card_id author) = Ok p →
  ∃ meta yaml, card_at d (archived_card_rel channel card_id) meta
    ∧ yaml_to_string (set_archived_via meta None) = Some yaml
    ∧ o_state (handle_unarchive_card env d channel card_id author)
      = with_repo d (card_moved (archived_card_rel channel card_id) (card_rel channel card_id) yaml (g_repo d)).
Proof.
  intros Hc Hf Hnc. unfold handle_unarchive_card.
  destruct (prepare_unarchive_card _ _ _ _ _) as [[[c rel] yaml]|e|] eqn:E; [|done..].
  apply prepare_unarchive_card_Ok in E as (-> & -> & _ & _ & _ & meta & Hat & _ & Hy).
  destruct (move_card _ _ _ _ _) as [r [[]|e|]] eqn:Em; [|done..]. intros _.
  apply move_card_Ok in Em as ->; [|symmetry; apply card_places_apart|done|done].
  exists meta, yaml. split_and!; [done|done|]. by apply finish_move_spec.
Qed.

Lemma moved_card_at d from to yaml meta :
  apart from to → place_free to (g_repo d) → yaml_from_str yaml = Some meta →
  ∀ meta', card_at (with_repo d (card_moved from to yaml (g_repo d))) to meta' → meta' = meta.
Proof.
  intros Ha [Hw _] Hy meta' (y & Hl & Hm). cbn [with_repo g_repo card_moved r_work] in Hl.
  unfold card_meta_of in Hl at 1. rewrite lookup_move_to in Hl;
    [|right; by eexists|by rewrite path_exists_insert by by apply apart_meta].
  fold (card_meta_of from) in Hl. rewrite lookup_insert_eq in Hl. congruence.
Qed.

(** Archiving a card and taking it out again gives back the very same clone:
    when both requests succeed on a card whose files are committed (its metadata as
    the daemon writes it, nothing else staged), every file of the work tree, of the
    index and of [HEAD] is what it was before the two requests. *)
Theorem card_archive_roundtrip (env1 env2 : CardEnv) (d : GDaemon) (channel card_id author1 author2 : str)
    (p1 p2 : str * str * str) (meta : CardMeta) (y : str)
    (Hclean : card_clean (card_rel channel card_id) (g_repo d))
    (Hfree : place_free (archived_card_rel channel card_id) (g_repo d))
    (Hstaged : r_index (g_repo d) = r_head (g_repo d))
    (Hy : r_work (g_repo d) !! card_meta_of (card_rel channel card_id) = Some y)
    (Hmeta : yaml_to_string meta = Some y) (Hactive : card_archived_via meta = None)
    (Hpush1 : no_conflict env1) (Hpush2 : no_conflict env2)
    (Harchive : o_response (handle_archive_card env1 d channel card_id author1) = Ok p1)
    (Hrestore : o_response (handle_unarchive_card env2 (o_state (handle_archive_card env1 d channel card_id author1))
                              channel card_id author2) = Ok p2) :
  o_state (handle_unarchive_card env2 (o_state (handle_archive_card env1 d channel card_id author1))
             channel card_id author2) = d.
Proof.
  pose proof (card_places_apart channel card_id) as Ha.
  apply archive_card_Ok in Harchive as (meta1 & yaml1 & (y1 & Hy1 & Hm1) & Hs1 & Hstate); [|done..].
  assert (meta1 = meta) as ->.
  { rewrite Hy in Hy1. injection Hy1 as <-. rewrite (yaml_roundtrip _ _ Hmeta) in Hm1. by injection Hm1. }
  rewrite Hstate in *. apply unarchive_card_Ok in Hrestore as (meta2 & yaml2 & Hat2 & Hs2 & ->); last first.
  { done. } { by apply card_moved_free. } { by apply card_moved_clean. }
  apply (moved_card_at d _ _ _ _ Ha Hfree Hs1) in Hat2 as ->.
  assert (yaml2 = y) as ->.
  { assert (set_archived_via (set_archived_via meta (Some ViaManual)) None = meta) as E
      by (destruct meta; simpl in *; by subst). rewrite E in Hs2. congruence. }
  unfold with_repo. cbn [g_repo g_users g_pending_push g_has_remote].
  rewrite card_moved_back by done. by destruct d.
Qed.

(** ** Ids *)

(** The handlers' copy of the id rule is the rule of the core. *)
Lemma check_card_id_same card_id : check_card_id card_id = validate_card_id card_id.
Proof. reflexivity. Qed.

Definition card_id_char (c : char) : bool := in_range 48 57 c || in_range 97 102 c || (c =? ch "-").

Lemma check_card_id_iff card_id :
  check_card_id card_id = Ok tt ↔
  card_id ≠ [] ∧ len card_id ≤ 20 ∧ Forall (λ c, card_id_char c = true) card_id.
Proof.
  unfold check_card_id. rewrite try_Ok, guard_err_Ok, orb_false_iff, is_empty_false, N.ltb_ge, for_each_Ok.
  setoid_rewrite guard_err_Ok. setoid_rewrite negb_false_iff. rewrite Forall_forall.
  setoid_rewrite Forall_forall. tauto.
Qed.

(** [%Y%m%d-%H%M%S] for a year of four digits. *)
Definition is_card_date (date : str) : bool :=
  (length date =? 15)%nat && forallb is_ascii_digit (take 8 date) && (date !! 8%nat =?? Some (ch "-"))
  && forallb is_ascii_digit (drop 9 date).

Lemma hex_lower_char n : n < 16 → card_id_char (hex_lower n) = true ∧ hex_lower n < 128.
Proof. unfold hex_lower, card_id_char, in_range. intros Hn. destruct (N.ltb_spec n 10); lia. Qed.

Lemma is_card_date_chars date : is_card_date date = true → Forall (λ c, card_id_char c = true) date ∧ length date = 15%nat.
Proof.
  unfold is_card_date. rewrite !andb_true_iff, Nat.eqb_eq, !forallb_Forall, bool_decide_eq_true.
  intros (((Hl & H1) & H2) & H3). split; [|done].
  rewrite <-(take_drop_middle date 8 _ H2). apply Forall_app. split; [|constructor; [done|]].
  - eapply Forall_impl; [exact H1|]. intros c. unfold card_id_char, is_ascii_digit. by intros ->.
  - eapply Forall_impl; [exact H3|]. intros c. unfold card_id_char, is_ascii_digit. by intros ->.
Qed.

(** Every id the daemon draws is one its own checks accept. *)
Lemma generated_card_id_valid date random :
  is_card_date date = true → check_card_id (generate_card_id date random) = Ok tt.
Proof.
  intros [Hd Hl]%is_card_date_chars. apply check_card_id_iff. unfold generate_card_id. cbv zeta.
  set (n := N.land random 4095).
  assert (Hn : n < 4096).
  { unfold n. change 4095 with (N.ones 12). rewrite N.land_ones. apply N.mod_lt. done. }
  assert (Hhex : Forall (λ c, card_id_char c = true)
                   (date ++ lit "-" ++ [hex_lower (n / 256); hex_lower (n / 16 mod 16); hex_lower (n mod 16)])).
  { apply Forall_app. split; [done|]. constructor; [done|].
    constructor; [apply hex_lower_char, N.Div0.div_lt_upper_bound; lia|].
    constructor; [apply hex_lower_char, N.mod_lt; done|].
    constructor; [apply hex_lower_char, N.mod_lt; done|constructor]. }
  split_and!; [|rewrite len_ascii; [rewrite length_app, Hl; simpl; lia|]|done].
  - destruct date; [done|done].
  - eapply Forall_impl; [exact Hhex|]. intros c. unfold card_id_char, in_range. change (ch "-") with 45. lia.
Qed.

(** ** Messages on a card *)

Lemma prepare_card_message_Ok env d channel card_id body reply_to author c rel n whole :
  prepare_card_message env d channel card_id body reply_to author = Ok (c, rel, n, whole) →
  c = channel ∧ rel = card_rel channel card_id ∧ author ∈ g_users d ∧
  exists_file (as_daemon d) (card_meta_of rel) = true ∧
  ∃ h f, Handler_new author = Ok h
    ∧ parse_thread (read_or_empty (ce_env env) (as_daemon d) (card_thread_of rel)) = Ok f
    ∧ n = wrapping_add (last_line_number f) 1
    ∧ whole = content_of (as_daemon d) (card_thread_of rel)
              ++ format_message n (unwrap_or reply_to 0) h (e_now (ce_env env)) body.
Proof.
  unfold prepare_card_message, append_message_to_thread. intros H.
  rewrite res_bind_Ok in H. destruct H as (h & Hh & H). rewrite map_err_Ok in Hh.
  rewrite try_Ok in H. destruct H as [_ H]. rewrite try_Ok, ensure_known_user_Ok in H. destruct H as [Hu H].
  rewrite res_bind_Ok in H. destruct H as (cn & Hn & H). rewrite map_err_Ok in Hn.
  apply ChannelName_new_str in Hn. rewrite Hn in H. rewrite try_Ok in H. destruct H as [_ H].
  rewrite res_bind_Ok in H. destruct H as (loc & Hl & H). rewrite ok_or_Ok in Hl.
  rewrite try_Ok, guard_err_Ok in H. destruct H as [Ha H].
  apply (locate_card_active d) in Hl as [-> Hex]; [|done]. cbn [lc_rel_path] in H.
  rewrite res_bind_Ok in H. destruct H as ([[n' new] w] & Hap & H). rewrite map_err_Ok in Hap.
  rewrite res_bind_Ok in Hap. destruct Hap as (f & Hf & Hap). rewrite map_err_Ok in Hf.
  rewrite try_Ok in Hap. destruct Hap as [_ Hap]. injection Hap as <- <- <-. injection H as <- <- <- <-.
  split_and!; [done..|]. by exists h, f.
Qed.

(** The work tree after a message: only the discussion changed. *)
Lemma send_card_message_work env d channel card_id body reply_to author resp :
  o_response (handle_send_card_message env d channel card_id body reply_to author) = Ok resp →
  ∃ c rel whole, prepare_card_message env d channel card_id body reply_to author = Ok (c, rel, scr_line_number resp, whole)
    ∧ r_work (g_repo (o_state (handle_send_card_message env d channel card_id body reply_to author)))
      = <[card_thread_of rel := whole]> (r_work (g_repo d)).
Proof.
  unfold handle_send_card_message.
  destruct (prepare_card_message _ _ _ _ _ _ _) as [[[[c rel] n] whole]|e|] eqn:E; [|done..].
  destruct (add_and_commit_as _ _ _) as [r2 ok] eqn:Eac. cbn [o_response o_state g_repo]. intros [= <-].
  exists c, rel, whole. split; [done|]. apply add_and_commit_spec in Eac. destruct ok; [by subst|].
  by destruct Eac as [->| ->].
Qed.

(** A message on a card appends exactly one entry.  When the discussion file can
    be read and is complete, and the first line of the body has something besides carriage
    returns, the discussion afterwards parses to the entries it had followed by one
    message by the author, pointing where it was told and numbered one more than
    the last entry; and no other file of the work tree has changed. *)
Theorem card_message_appends (env : CardEnv) (d : GDaemon) (channel card_id body : str) (reply_to : option N)
    (author : str) (resp : SendCardMessageResponse)
    (Hclock : clock_ok (ce_env env)) (Hreply : unwrap_or reply_to 0 ≤ u64_MAX)
    (Hread : e_read_ok (ce_env env) (card_thread_of (card_rel channel card_id)) = true)
    (Hcomplete : complete_file (content_of (as_daemon d) (card_thread_of (card_rel channel card_id))))
    (Hbody : ¬ Forall (λ c, c = cr) (body_first_line body))
    (Hsent : o_response (handle_send_card_message env d channel card_id body reply_to author) = Ok resp) :
  let d' := o_state (handle_send_card_message env d channel card_id body reply_to author) in
  let thread := card_thread_of (card_rel channel card_id) in
  ∃ f m, parse_thread (content_of (as_daemon d) thread) = Ok f
    ∧ parse_thread (content_of (as_daemon d') thread) = Ok (MkThreadFile (entries f ++ [EntryMessage m]))
    ∧ complete_file (content_of (as_daemon d') thread)
    ∧ m_line_number m = scr_line_number resp ∧ scr_line_number resp = wrapping_add (last_line_number f) 1
    ∧ m_point_to m = unwrap_or reply_to 0 ∧ handler_str (m_author m) = author
    ∧ (∀ p, p ≠ thread → r_work (g_repo d') !! p = r_work (g_repo d) !! p).
Proof.
  cbv zeta. apply send_card_message_work in Hsent as (c & rel & whole & Hp & Hw).
  apply prepare_card_message_Ok in Hp as (-> & -> & Hu & Hex & h & f & Hh & Hf & Hn & ->).
  set (n := scr_line_number resp) in *.
  destruct (message_outcome n (unwrap_or reply_to 0) h (e_now (ce_env env)) body)
    as (r & Hr & [(body' & -> & _)|[_ Hcr]]); [rewrite Hn; apply wrapping_add_le|done| |exact Hclock| |done].
  { right. by rewrite (Handler_new_str _ _ Hh). }
  unfold read_or_empty in Hf. rewrite Hread in Hf.
  exists f. eexists. unfold content_of at 2 3. unfold as_daemon at 2 3. cbn [d_files].
  rewrite Hw, lookup_insert_eq. cbn [unwrap_or].
  split_and!; [done|by rewrite (parse_thread_app _ _ f _ Hcomplete Hf Hr)|..].
  - by apply complete_app, format_message_ends.
  - reflexivity.
  - done.
  - done.
  - exact (Handler_new_str _ _ Hh).
  - intros p Hne. by rewrite lookup_insert_ne.
Qed.

(** The card discussion has no write gate: an empty message (the handler accepts
    it) on a card without messages leaves a discussion file that no longer parses,
    so that from then on every message to the card and every read of it fails, unless
    the file cannot be read and is taken to be empty. *)
Theorem empty_card_message_blocks_card (env : CardEnv) (d : GDaemon) (channel card_id : str) (reply_to : option N)
    (author : str) (resp : SendCardMessageResponse)
    (Hclock : clock_ok (ce_env env)) (Hreply : unwrap_or reply_to 0 ≤ u64_MAX)
    (Hempty : content_of (as_daemon d) (card_thread_of (card_rel channel card_id)) = [])
    (Hsent : o_response (handle_send_card_message env d channel card_id [] reply_to author) = Ok resp) :
  let d' := o_state (handle_send_card_message env d channel card_id [] reply_to author) in
  let readable env' := e_read_ok (ce_env env') (card_thread_of (card_rel channel card_id)) = true in
  (∀ env' body reply_to' author', readable env' →
     is_ok (o_response (handle_send_card_message env' d' channel card_id body reply_to' author')) = false)
  ∧ (∀ env' limit since, readable env' → is_ok (handle_read_card env' d' channel card_id limit since) = false).
Proof.
  cbv zeta. pose proof Hsent as Hs. apply send_card_message_work in Hsent as (c & rel & whole & Hp & Hw).
  apply prepare_card_message_Ok in Hp as (-> & -> & Hu & Hex & h & f & Hh & Hf & Hn & ->).
  set (n := scr_line_number resp) in *. rewrite Hempty in Hw. simpl app in Hw.
  destruct (message_outcome n (unwrap_or reply_to 0) h (e_now (ce_env env)) [])
    as (r & Hr & [(body' & _ & Hne)|[He _]]); [rewrite Hn; apply wrapping_add_le|done| |exact Hclock|done|].
  { right. by rewrite (Handler_new_str _ _ Hh). }
  set (d' := o_state _) in *.
  assert (Hbad : is_err (parse_thread (content_of (as_daemon d') (card_thread_of (card_rel channel card_id)))) = true).
  { unfold content_of. unfold as_daemon at 1. cbn [d_files]. rewrite Hw, lookup_insert_eq. cbn [unwrap_or].
    by rewrite Hr. }
  split.
  - intros env' body rt' author' Hread. apply not_true_iff_false. rewrite is_ok_Ok. intros [resp' Hok].
    apply send_card_message_work in Hok as (c & rel & whole & Hp & _).
    apply prepare_card_message_Ok in Hp as (_ & -> & _ & _ & h' & f' & _ & Hf' & _).
    unfold read_or_empty in Hf'. rewrite Hread in Hf'. by rewrite Hf' in Hbad.
  - intros env' limit since Hread. apply not_true_iff_false. rewrite is_ok_Ok. unfold handle_read_card, read_thread_entries.
    intros [resp' H]. rewrite res_bind_Ok in H. destruct H as (cn & Hc & H). rewrite map_err_Ok in Hc.
    apply ChannelName_new_str in Hc. rewrite Hc in H. rewrite try_Ok in H. destruct H as [_ H].
    rewrite locate_card_prefers_active in H; last first.
    { revert Hex. unfold exists_file, as_daemon. cbn [d_files]. rewrite Hw, lookup_insert_ne; [done|].
      apply card_thread_ne_meta. }
    cbn [ok_or res_bind lc_rel_path] in H. rewrite res_bind_Ok in H. destruct H as (meta & _ & H).
    rewrite res_bind_Ok in H. destruct H as (es & He' & _). rewrite map_err_Ok, res_bind_Ok in He'.
    destruct He' as (f' & Hf' & _). rewrite map_err_Ok in Hf'.
    unfold read_or_empty in Hf'. rewrite Hread in Hf'. by rewrite Hf' in Hbad.
Qed.

(** ** Runs *)

Inductive CardRequest :=
  | ReqCreateCard (channel title : str) (labels : option (list str)) (assignee status : option str) (author : str)
  | ReqUpdateCard (channel card_id : str) (status : option str) (labels : option (list str)) (assignee : option str)
      (author : str)
  | ReqArchiveCard (channel card_id author : str)
  | ReqUnarchiveCard (channel card_id author : str)
  | ReqSendCardMessage (channel card_id body : str) (reply_to : option N) (author : str).

Definition serve_card (env : CardEnv) (d : GDaemon) (req : CardRequest) : GDaemon :=
  match req with
  | ReqCreateCard channel title labels assignee status author =>
      o_state (handle_create_card env d channel title labels assignee status author)
  | ReqUpdateCard channel card_id status labels assignee author =>
      o_state (handle_update_card env d channel card_id status labels assignee author)
  | ReqArchiveCard channel card_id author => o_state (handle_archive_card env d channel card_id author)
  | ReqUnarchiveCard channel card_id author => o_state (handle_unarchive_card env d channel card_id author)
  | ReqSendCardMessage channel card_id body reply_to author =>
      o_state (handle_send_card_message env d channel card_id body reply_to author)
  end.

(** Every card metadata file of a tree parses to a valid record. *)
Definition tree_cards_ok (t : tree) : Prop :=
  ∀ k v, t !! k = Some v → ends_with k (lit "/card.meta.yaml") = true →
         ∃ m, yaml_from_str v = Some m ∧ validate_card_meta m = Ok tt.

Definition repo_cards_ok (r : Repo) : Prop :=
  tree_cards_ok (r_work r) ∧ tree_cards_ok (r_index r) ∧ tree_cards_ok (r_head r).

(** The clock prints a timestamp, and no push meets a conflict: the rebase that follows
    one brings in what other clones wrote, and where it stops it leaves its conflict
    markers in the files ([stopped_rebase_breaks_card]). *)
Definition card_env_ok (env : CardEnv) : Prop :=
  card_timestamp_ok (e_now (ce_env env)) = true ∧ no_conflict env.

(** Any sequence of card requests from a clone without cards, whichever writes, git
    commands and rollbacks fail and however a push fails other than by a conflict. *)
Inductive reachable_cards : GDaemon → Prop :=
  | reachable_no_cards d :
      Forall (λ u, is_ok (Handler_new u) = true) (g_users d) →
      (∀ k, is_Some (r_work (g_repo d) !! k) ∨ is_Some (r_index (g_repo d) !! k) ∨ is_Some (r_head (g_repo d) !! k) →
            ends_with k (lit "/card.meta.yaml") = false) →
      reachable_cards d
  | reachable_card_request d env req :
      reachable_cards d → card_env_ok env → reachable_cards (serve_card env d req).

(** *** What each command does to valid trees *)

Lemma card_meta_of_ends rel : ends_with (card_meta_of rel) (lit "/card.meta.yaml") = true.
Proof. apply ends_with_true. by exists rel. Qed.

Lemma card_thread_of_ends rel : ends_with (card_thread_of rel) (lit "/card.meta.yaml") = false.
Proof.
  apply not_true_iff_false. rewrite ends_with_true. intros (r & H). unfold card_thread_of in H.
  change (lit "/discussion.thread") with (lit "/discussion.threa" ++ [ch "d"]) in H.
  change (lit "/card.meta.yaml") with (lit "/card.meta.yam" ++ [ch "l"]) in H.
  rewrite !app_assoc in H. by apply app_inj_tail in H as [_ H].
Qed.

Lemma card_place_ends a id : check_card_id id = Ok tt → ends_with (a ++ id) (lit "/card.meta.yaml") = false.
Proof.
  intros (Hne & _ & Hall)%check_card_id_iff. apply not_true_iff_false. rewrite ends_with_true. intros (r & H).
  destruct (exists_last Hne) as (id' & c & ->). apply Forall_app in Hall as [_ Hc].
  apply Forall_cons in Hc as [Hc _]. change (lit "/card.meta.yaml") with (lit "/card.meta.yam" ++ [ch "l"]) in H.
  rewrite !app_assoc in H. apply app_inj_tail in H as [_ ->]. by vm_compute in Hc.
Qed.

Lemma ends_with_moved a b r name :
  slash ∉ name → ends_with (a ++ slash :: r) (slash :: name) = true →
  ends_with (b ++ slash :: r) (slash :: name) = true.
Proof.
  intros Hn. rewrite !ends_with_true. intros (z & H).
  apply app_eq_inv in H as [(k & -> & Hk)|(k & -> & Hk)].
  - destruct k as [|x k]; simplify_eq/=; [by exists b|]. set_solver.
  - destruct k as [|x k]; simplify_eq/=; [by exists b|]. exists (b ++ slash :: k). by rewrite <-app_assoc.
Qed.

Lemma move_tree_cards_ok from dest t :
  ends_with dest (lit "/card.meta.yaml") = false → tree_cards_ok t → tree_cards_ok (move_tree from dest t).
Proof.
  intros Hd Ht k v. rewrite lookup_move_tree. destruct (strip_dir dest k) as [rest|] eqn:Hk; simpl.
  - apply strip_dir_Some in Hk as [-> Hr]. destruct (t !! (from ++ rest)) as [v'|] eqn:Hv.
    + intros [= <-] He. apply (Ht (from ++ rest) v' Hv).
      destruct Hr as [->|[r ->]]; [rewrite app_nil_r in He; congruence|].
      refine (ends_with_moved dest from r (lit "card.meta.yaml") _ He).
      apply (bool_decide_unpack _). by vm_compute.
    + destruct (below from _); [done|]. apply Ht.
  - destruct (below from k); [done|]. apply Ht.
Qed.

Lemma sync_paths_cards_ok ps src dst : tree_cards_ok src → tree_cards_ok dst → tree_cards_ok (sync_paths ps src dst).
Proof. intros Hs Hd k v. rewrite lookup_sync_paths. destruct (in_paths ps k); [apply Hs|apply Hd]. Qed.

Lemma overlay_paths_cards_ok ps src dst :
  tree_cards_ok src → tree_cards_ok dst → tree_cards_ok (overlay_paths ps src dst).
Proof.
  intros Hs Hd k v. rewrite lookup_overlay_paths.
  destruct (if in_paths ps k then src !! k else None) as [v'|] eqn:E; [|apply Hd].
  destruct (in_paths ps k); [|done]. intros [= <-]. by apply Hs.
Qed.

Lemma write_meta_cards_ok rel m y r :
  yaml_to_string m = Some y → validate_card_meta m = Ok tt → repo_cards_ok r →
  repo_cards_ok (write_work (card_meta_of rel) y r).
Proof.
  intros Hy Hm (Hw & Hi & Hh). split_and!; [|done..]. intros k v. cbn [write_work r_work].
  destruct (decide (k = card_meta_of rel)) as [->|Hne]; [|rewrite lookup_insert_ne by done; apply Hw].
  rewrite lookup_insert_eq. intros [= <-] _. exists m. by split; [apply yaml_roundtrip|].
Qed.

Lemma write_thread_cards_ok rel t r : repo_cards_ok r → repo_cards_ok (write_work (card_thread_of rel) t r).
Proof.
  intros (Hw & Hi & Hh). split_and!; [|done..]. intros k v. cbn [write_work r_work].
  destruct (decide (k = card_thread_of rel)) as [->|Hne]; [|rewrite lookup_insert_ne by done; apply Hw].
  intros _. by rewrite card_thread_of_ends.
Qed.

Lemma add_and_commit_cards_ok g ps r : repo_cards_ok r → repo_cards_ok (add_and_commit_as g ps r).1.
Proof.
  intros (Hw & Hi & Hh). destruct (add_and_commit_as g ps r) as [r' ok] eqn:E. apply add_and_commit_spec in E.
  assert (tree_cards_ok (sync_paths ps (r_work r) (r_index r))) by by apply sync_paths_cards_ok.
  destruct ok; [subst r'; by split_and!|]. destruct E as [->| ->]; by split_and!.
Qed.

Lemma basename_last a b : slash ∉ b → basename (a ++ slash :: b) = b.
Proof.
  intros Hb. unfold basename. assert (∃ h l, split_char slash (a ++ slash :: b) = h :: l ++ [b]) as (h & l & ->).
  { induction a as [|x a (h & l & IH)]; simpl; [exists [], []; by rewrite split_char_nosep|].
    destruct (x =? slash); rewrite IH; [by exists [], (h :: l)|by exists (x :: h), l]. }
  rewrite app_comm_cons. apply last_last.
Qed.

Lemma card_id_no_slash id : check_card_id id = Ok tt → slash ∉ id.
Proof.
  intros (_ & _ & Hall)%check_card_id_iff Hin. rewrite Forall_forall in Hall. by specialize (Hall slash Hin).
Qed.

(** A place that ends in the id of a card. *)
Definition card_place (id p : str) : Prop := ∃ a, p = a ++ slash :: id.

Lemma card_rel_place c id : card_place id (card_rel c id).
Proof. exists (lit "channels/" ++ c ++ lit "/cards"). unfold card_rel. by rewrite <-!app_assoc. Qed.
Lemma archived_card_rel_place c id : card_place id (archived_card_rel c id).
Proof. exists (lit "archive/channels/" ++ c ++ lit "/cards"). unfold archived_card_rel. by rewrite <-!app_assoc. Qed.
#[local] Hint Resolve card_rel_place archived_card_rel_place : core.

Lemma mv_cards_ok g id from to r :
  check_card_id id = Ok tt → card_place id from → card_place id to → repo_cards_ok r → repo_cards_ok (mv g from to r).1.
Proof.
  intros Hid [a ->] [b ->] (Hw & Hi & Hh). unfold mv. destruct (git_mv g _ _ r) as [r'|] eqn:E; [|by split_and!].
  destruct (git_mv_moves _ _ _ _ _ E) as [_ ->].
  rewrite basename_last by by apply card_id_no_slash. cbn [fst].
  assert (Hd : ∀ x, ends_with (x ++ slash :: id) (lit "/card.meta.yaml") = false).
  { intros x. change (slash :: id) with ([slash] ++ id). rewrite app_assoc. by apply card_place_ends. }
  split_and!; cbn [r_work r_index r_head]; [| |done]; apply move_tree_cards_ok; try done;
    destruct (path_exists _ _); apply Hd.
Qed.

Lemma restore_cards_ok g p r : repo_cards_ok r → repo_cards_ok (restore_card_yaml g p r).
Proof.
  intros (Hw & Hi & Hh). unfold restore_card_yaml.
  assert (H1 : repo_cards_ok (unwrap_or (git_reset_path g.1 p r) r)).
  { destruct (git_reset_path g.1 p r) as [r1|] eqn:E; [|by split_and!].
    rewrite (git_reset_unstages _ _ _ _ E). split_and!; [done|by apply sync_paths_cards_ok|done]. }
  revert H1. generalize (unwrap_or (git_reset_path g.1 p r) r). intros r1 (Hw1 & Hi1 & Hh1).
  destruct (git_checkout_path g.2 p r1) as [r2|] eqn:E; [|by split_and!].
  rewrite (git_checkout_restores _ _ _ _ E). split_and!; [by apply overlay_paths_cards_ok|done|done].
Qed.

Lemma push_cards_ok env d r :
  card_env_ok env → repo_cards_ok r → repo_cards_ok (push_with_retry (g_has_remote d) (ce_push env) r).1.
Proof.
  intros [_ Hc] Hr. by rewrite (push_no_conflict (g_has_remote d) (ce_push env) r Hc).
Qed.

Lemma move_card_cards_ok env id from to yaml m r :
  check_card_id id = Ok tt → card_place id from → card_place id to →
  yaml_to_string m = Some yaml → validate_card_meta m = Ok tt → repo_cards_ok r →
  repo_cards_ok (move_card env from to yaml r).1.
Proof.
  intros Hid Hf Ht Hy Hm Hr. unfold move_card.
  pose proof (write_meta_cards_ok from m yaml r Hy Hm Hr) as Hr1.
  destruct (ce_mkdir_ok env); [cbn [negb]|by apply restore_cards_ok].
  pose proof (mv_cards_ok (ce_mv env) id from to _ Hid Hf Ht Hr1) as Hr2.
  destruct (mv _ from to _) as [r2 [|]]; cbn [negb fst] in *; [|by apply restore_cards_ok].
  pose proof (add_and_commit_cards_ok (ce_commit env) [card_meta_of to; card_thread_of to] r2 Hr2) as Hr3.
  destruct (add_and_commit_as _ _ r2) as [r3 [|]]; cbn [negb fst] in *; [done|].
  pose proof (mv_cards_ok (ce_rollback env) id to from r3 Hid Ht Hf Hr3) as Hr4.
  destruct (mv _ to from r3) as [r4 b]. by apply restore_cards_ok.
Qed.

(** *** Each handler keeps the invariant *)

Definition cards_inv (d : GDaemon) : Prop :=
  Forall (λ u, is_ok (Handler_new u) = true) (g_users d) ∧ repo_cards_ok (g_repo d).

Lemma card_at_valid d rel meta : repo_cards_ok (g_repo d) → card_at d rel meta → validate_card_meta meta = Ok tt.
Proof.
  intros (Hw & _) (y & Hy & Hm). destruct (Hw _ _ Hy (card_meta_of_ends rel)) as (m & Hm' & Hv). congruence.
Qed.

Lemma set_archived_via_valid meta v : validate_card_meta meta = Ok tt → validate_card_meta (set_archived_via meta v) = Ok tt.
Proof. done. Qed.

Lemma finish_move_inv {A} env d r event (payload : A) :
  card_env_ok env → Forall (λ u, is_ok (Handler_new u) = true) (g_users d) → repo_cards_ok r →
  cards_inv (o_state (finish_move env d r event payload)).
Proof.
  intros He Hu Hr. unfold finish_move. pose proof (push_cards_ok env d r He Hr) as Hp.
  destruct (push_with_retry _ _ _) as [r' [u|e|]]; by split.
Qed.

Lemma archive_card_inv env d channel card_id author :
  card_env_ok env → cards_inv d → cards_inv (o_state (handle_archive_card env d channel card_id author)).
Proof.
  intros He [Hu Hr]. unfold handle_archive_card.
  destruct (prepare_archive_card _ _ _ _ _) as [[[c rel] yaml]|e|] eqn:E; [|by split..].
  apply prepare_archive_card_Ok in E as (-> & -> & Hid & _ & meta & Hat & _ & Hy).
  assert (Hm : repo_cards_ok (move_card env (card_rel channel card_id) (archived_card_rel channel card_id) yaml (g_repo d)).1).
  { eapply move_card_cards_ok; eauto. eapply set_archived_via_valid, card_at_valid; eauto. }
  destruct (move_card _ _ _ _ _) as [r [u|e|]]; [by apply finish_move_inv|by split..].
Qed.

Lemma unarchive_card_inv env d channel card_id author :
  card_env_ok env → cards_inv d → cards_inv (o_state (handle_unarchive_card env d channel card_id author)).
Proof.
  intros He [Hu Hr]. unfold handle_unarchive_card.
  destruct (prepare_unarchive_card _ _ _ _ _) as [[[c rel] yaml]|e|] eqn:E; [|by split..].
  apply prepare_unarchive_card_Ok in E as (-> & -> & Hid & _ & _ & meta & Hat & _ & Hy).
  assert (Hm : repo_cards_ok (move_card env (archived_card_rel channel card_id) (card_rel channel card_id) yaml (g_repo d)).1).
  { eapply move_card_cards_ok; eauto. eapply set_archived_via_valid, card_at_valid; eauto. }
  destruct (move_card _ _ _ _ _) as [r [u|e|]]; [by apply finish_move_inv|by split..].
Qed.

Lemma send_card_message_inv env d channel card_id body reply_to author :
  cards_inv d → cards_inv (o_state (handle_send_card_message env d channel card_id body reply_to author)).
Proof.
  intros [Hu Hr]. unfold handle_send_card_message.
  destruct (prepare_card_message _ _ _ _ _ _ _) as [[[[c rel] n] whole]|e|]; [|by split..].
  pose proof (add_and_commit_cards_ok (ce_commit env) [card_thread_of rel] _ (write_thread_cards_ok rel whole _ Hr)) as H.
  destruct (add_and_commit_as _ _ _) as [r2 b]. by split.
Qed.

(** What validity of a card consists of. *)
Lemma validate_card_meta_iff m :
  validate_card_meta m = Ok tt ↔
  trim (card_title m) ≠ [] ∧ is_ok (ChannelName_new (card_channel m)) = true
  ∧ is_ok (Handler_new (card_created_by m)) = true
  ∧ (∀ a, card_assignee m = Some a → is_ok (Handler_new a) = true)
  ∧ validate_labels (card_labels m) CARD_MAX_LABELS = Ok tt
  ∧ card_timestamp_ok (card_created_at m) = true ∧ card_timestamp_ok (card_updated_at m) = true.
Proof.
  assert (Hb : ∀ A E F B (f : E → F) (r : res A E) (k : res B F) b,
             (try? map_err f r then k) = Ok b ↔ is_ok r = true ∧ k = Ok b).
  { intros A E F B f r k b. destruct r; simpl; naive_solver. }
  unfold validate_card_meta, validate_timestamp.
  rewrite try_Ok, guard_err_Ok, is_empty_false, !Hb, try_Ok, Hb, try_Ok.
  assert (Hl : is_ok (validate_labels (card_labels m) CARD_MAX_LABELS) = true
               ↔ validate_labels (card_labels m) CARD_MAX_LABELS = Ok tt).
  { rewrite is_ok_Ok. split; [by intros [[] ?]|by exists tt]. }
  rewrite Hl.
  assert (Ha : match card_assignee m with
               | Some assignee => try? map_err InvalidHandler (Handler_new assignee) then Ok tt
               | None => Ok tt
               end = Ok () ↔ ∀ a, card_assignee m = Some a → is_ok (Handler_new a) = true).
  { destruct (card_assignee m) as [a|]; [rewrite Hb|]; naive_solver. }
  rewrite Ha. destruct (card_timestamp_ok (card_created_at m)), (card_timestamp_ok (card_updated_at m)); naive_solver.
Qed.

Lemma known_user_handler d u :
  Forall (λ u, is_ok (Handler_new u) = true) (g_users d) → u ∈ g_users d → is_ok (Handler_new u) = true.
Proof. rewrite Forall_forall. auto. Qed.


Lemma prepare_create_card_Ok env d channel title labels assignee status author c id meta y :
  card_timestamp_ok (e_now (ce_env env)) = true → Forall (λ u, is_ok (Handler_new u) = true) (g_users d) →
  prepare_create_card env d channel title labels assignee status author = Ok (c, id, meta, y) →
  c = channel ∧ card_channel meta = channel ∧ card_archived_via meta = None ∧ card_created_by meta = author
  ∧ id = generate_card_id (ce_date env) (ce_random env)
  ∧ yaml_to_string meta = Some y ∧ validate_card_meta meta = Ok tt.
Proof.
  intros Hclock Hus. unfold prepare_create_card. intros H.
  rewrite try_Ok in H. destruct H as [_ H]. rewrite try_Ok, ensure_known_user_Ok in H. destruct H as [Hu H].
  rewrite res_bind_Ok in H. destruct H as (n & Hn & H). rewrite map_err_Ok in Hn.
  pose proof (ChannelName_new_str _ _ Hn) as Hns. rewrite Hns in H.
  rewrite try_Ok in H. destruct H as [_ H]. rewrite try_Ok, guard_err_Ok, is_empty_false in H. destruct H as [Htitle H].
  rewrite try_Ok, map_err_Ok in H. destruct H as [Hlab H].
  rewrite res_bind_Ok in H. destruct H as (st & _ & H).
  rewrite try_Ok in H. destruct H as [Has H]. rewrite try_Ok in H. destruct H as [_ H].
  rewrite res_bind_Ok in H. destruct H as (ms & Hms & H). rewrite ok_or_Ok in Hms.
  rewrite try_Ok in H. destruct H as [_ H]. injection H as <- <- <- <-.
  split_and!; [done..|]. apply validate_card_meta_iff. simpl. split_and!; [done| | | |done|done|done].
  - by rewrite Hn.
  - by eapply known_user_handler.
  - intros a ->. rewrite map_err_Ok, ensure_known_user_Ok in Has. by eapply known_user_handler.
Qed.

Lemma create_card_inv env d channel title labels assignee status author :
  card_env_ok env → cards_inv d → cards_inv (o_state (handle_create_card env d channel title labels assignee status author)).
Proof.
  intros He [Hu Hr]. unfold handle_create_card.
  destruct (prepare_create_card _ _ _ _ _ _ _ _) as [[[[c id] meta] y]|e|] eqn:E; [|by split..].
  apply prepare_create_card_Ok in E as (_ & _ & _ & _ & _ & Hy & Hv); [|apply He|done].
  pose proof (write_meta_cards_ok (card_rel c id) meta y _ Hy Hv Hr) as Hr1.
  destruct (ce_thread_write_ok env); [cbn [negb]|by split].
  pose proof (add_and_commit_cards_ok (ce_commit env) [card_meta_of (card_rel c id); card_thread_of (card_rel c id)] _
                (write_thread_cards_ok (card_rel c id) [] _ Hr1)) as Hr3.
  destruct (add_and_commit_as _ _ _) as [r3 [|]]; cbn [negb fst] in *; [|by split].
  pose proof (push_cards_ok env d r3 He Hr3) as Hp. destruct (push_with_retry _ _ _) as [r4 [u|e|]]; by split.
Qed.

Lemma apply_card_update_valid d now status labels assignee meta meta' :
  card_timestamp_ok now = true → Forall (λ u, is_ok (Handler_new u) = true) (g_users d) →
  validate_card_meta meta = Ok tt → apply_card_update d now status labels assignee meta = Ok meta' →
  validate_card_meta meta' = Ok tt
  ∧ card_title meta' = card_title meta ∧ card_channel meta' = card_channel meta
  ∧ card_created_by meta' = card_created_by meta ∧ card_created_at meta' = card_created_at meta
  ∧ card_archived_via meta' = card_archived_via meta.
Proof.
  intros Hnow Hus Hv. unfold apply_card_update. intros H.
  rewrite res_bind_Ok in H. destruct H as (st & _ & H). rewrite res_bind_Ok in H. destruct H as (ls & Hls & H).
  rewrite res_bind_Ok in H. destruct H as (as' & Has & [= <-]).
  split_and!; [|done..]. revert Hv. rewrite !validate_card_meta_iff. simpl.
  intros (H1 & H2 & H3 & H4 & H5 & H6 & H7). split_and!; [done..| | |done|done].
  - intros a ->. destruct assignee as [a'|]; [|injection Has as Ha; by apply H4].
    rewrite try_Ok, map_err_Ok, ensure_known_user_Ok in Has. destruct Has as [Hu [= ->]]. by eapply known_user_handler.
  - destruct labels as [l|]; [|by injection Hls as <-]. rewrite try_Ok, map_err_Ok in Hls. by destruct Hls as [? [= <-]].
Qed.

Lemma prepare_update_card_Ok env d channel card_id status labels assignee author c rel meta meta' y :
  prepare_update_card env d channel card_id status labels assignee author = Ok (c, rel, meta, meta', y) →
  c = channel ∧ rel = card_rel channel card_id ∧ author ∈ g_users d ∧ card_at d rel meta
  ∧ apply_card_update d (e_now (ce_env env)) status labels assignee meta = Ok meta' ∧ yaml_to_string meta' = Some y.
Proof.
  unfold prepare_update_card. intros H.
  rewrite try_Ok in H. destruct H as [_ H]. rewrite try_Ok, ensure_known_user_Ok in H. destruct H as [Hu H].
  rewrite res_bind_Ok in H. destruct H as (n & Hn & H). rewrite map_err_Ok in Hn.
  apply ChannelName_new_str in Hn. rewrite Hn in H. rewrite try_Ok in H. destruct H as [_ H].
  rewrite try_Ok in H. destruct H as [_ H]. rewrite res_bind_Ok in H. destruct H as (loc & Hl & H).
  rewrite ok_or_Ok in Hl. rewrite try_Ok, guard_err_Ok in H. destruct H as [Ha H].
  apply (locate_card_active d) in Hl as [-> _]; [|done]. cbn [lc_rel_path] in H.
  rewrite res_bind_Ok in H. destruct H as (m & Hm & H). apply read_card_meta_Ok in Hm.
  rewrite res_bind_Ok in H. destruct H as (m' & Hm' & H). rewrite res_bind_Ok in H. destruct H as (ms & Hms & H).
  rewrite ok_or_Ok in Hms. rewrite try_Ok in H. destruct H as [_ H]. injection H as <- <- <- <- <-. done.
Qed.

Lemma update_card_inv env d channel card_id status labels assignee author :
  card_env_ok env → cards_inv d →
  cards_inv (o_state (handle_update_card env d channel card_id status labels assignee author)).
Proof.
  intros He [Hu Hr]. unfold handle_update_card.
  destruct (prepare_update_card _ _ _ _ _ _ _ _) as [[[[[c rel] meta] meta'] y]|e|] eqn:E; [|by split..].
  apply prepare_update_card_Ok in E as (-> & -> & _ & Hat & Hap & Hy).
  apply apply_card_update_valid in Hap as [Hv _]; [|apply He|done|by eapply card_at_valid].
  pose proof (add_and_commit_cards_ok (ce_commit env) [card_meta_of (card_rel channel card_id)] _
                (write_meta_cards_ok (card_rel channel card_id) _ _ _ Hy Hv Hr)) as Hr2.
  destruct (add_and_commit_as _ _ _) as [r2 [|]]; cbn [negb fst] in *; [|by split].
  pose proof (push_cards_ok env d r2 He Hr2) as Hp. destruct (push_with_retry _ _ _) as [r4 [u|e|]]; by split.
Qed.

(** C33: as long as no push meets a conflict, every stored card is valid.  Whatever
    sequence of card requests runs, and whichever writes, directory creations, moves,
    commits, rollbacks and pushes fail on the way, every [card.meta.yaml] of the work tree, of the index and of [HEAD] parses and passes
    the metadata check: a title, a channel name, handlers for creator and assignee,
    admissible labels, timestamps. *)
Theorem stored_cards_valid (d : GDaemon) (Hreach : reachable_cards d) : repo_cards_ok (g_repo d).
Proof.
  enough (cards_inv d) as [_ H] by exact H.
  induction Hreach as [d Hu Hno|d env req _ IH He].
  - split; [done|]. split_and!; intros k v Hk; rewrite Hno by eauto; done.
  - destruct req; simpl.
    + by apply create_card_inv.
    + by apply update_card_inv.
    + by apply archive_card_inv.
    + by apply unarchive_card_inv.
    + by apply send_card_message_inv.
Qed.

(** ** Listing *)

(** [read_dir] reports the directories below a path that hold something. *)
Definition listing_ok (env : CardEnv) (d : GDaemon) : Prop :=
  ∀ dir name k, is_Some (r_work (g_repo d) !! (dir ++ slash :: name ++ slash :: k)) → slash ∉ name →
                name ∈ ce_list env dir.

Lemma summary_leb_total a b : summary_leb a b = false → summary_leb b a = true.
Proof.
  unfold summary_leb. rewrite (str_compare_antisym (cs_channel a) (cs_channel b)).
  destruct (str_compare (cs_channel a) (cs_channel b)); simpl; try done.
  intros H. destruct (str_leb_total (cs_card_id a) (cs_card_id b)); congruence.
Qed.

Lemma summary_leb_trans a b c : summary_leb a b = true → summary_leb b c = true → summary_leb a c = true.
Proof.
  unfold summary_leb. destruct (str_compare (cs_channel a) (cs_channel b)) eqn:E1; [|intros _|done];
    destruct (str_compare (cs_channel b) (cs_channel c)) eqn:E2; try done.
  - apply str_compare_eq in E1, E2. rewrite E1, E2, str_compare_refl. apply str_leb_trans.
  - apply str_compare_eq in E1. by rewrite E1, E2.
  - apply str_compare_eq in E2. rewrite <-E2. by rewrite E1.
  - by rewrite (str_compare_lt_trans _ _ _ E1 E2).
Qed.

Lemma elem_of_scan_cards env d base keep chans s :
  s ∈ scan_cards env d base keep chans ↔
  ∃ c id meta, c ∈ chans ∧ id ∈ ce_list env (base ++ lit "/" ++ c ++ lit "/cards")
    ∧ card_at d ((base ++ lit "/" ++ c ++ lit "/cards") ++ lit "/" ++ id) meta
    ∧ keep meta = true ∧ s = summary_of id meta.
Proof.
  unfold scan_cards. rewrite list_elem_of_In, in_flat_map. setoid_rewrite <-list_elem_of_In.
  setoid_rewrite list_elem_of_omap. split.
  - intros (c & Hc & id & Hid & Hs).
    destruct (r_work (g_repo d) !! _ ≫= yaml_from_str) as [meta|] eqn:E; [|done].
    apply bind_Some in E as (y & Hy & Hm). destruct (keep meta) eqn:Hk; [|done]. injection Hs as <-.
    exists c, id, meta. split_and!; [done..| |done|done]. by exists y.
  - intros (c & id & meta & Hc & Hid & (y & Hy & Hm) & Hk & ->). exists c. split; [done|]. exists id.
    split; [done|]. rewrite Hy. simpl. by rewrite Hm, Hk.
Qed.

Lemma scan_path c id : (lit "channels" ++ lit "/" ++ c ++ lit "/cards") ++ lit "/" ++ id = card_rel c id.
Proof. unfold card_rel. by rewrite <-!app_assoc. Qed.

(** The cards of one channel, as the listing request returns them: sorted, and
    exactly the active cards that pass the filters. *)
Lemma list_cards_exact env d c labels assignee cards :
  listing_ok env d → handle_list_cards env d (Some c) labels None assignee = Ok cards →
  StronglySorted (λ a b, summary_leb a b = true) cards
  ∧ ∀ id meta, slash ∉ id → card_at d (card_rel c id) meta →
               card_matches None (unwrap_or labels []) assignee meta = true → summary_of id meta ∈ cards.
Proof.
  intros Hl. unfold handle_list_cards. cbn [res_bind]. intros (chans & Hc & [= <-])%res_bind_Ok.
  apply res_bind_Ok in Hc as (n & Hn & [= <-]). rewrite map_err_Ok in Hn. apply ChannelName_new_str in Hn as ->.
  split; [apply sort_by_key_sorted; [apply summary_leb_total|apply summary_leb_trans]|].
  intros id meta Hid Hat Hm. rewrite sort_by_key_perm, elem_of_scan_cards.
  exists c, id, meta. split_and!; [by left| | |done|done].
  - destruct Hat as (y & Hy & _). apply (Hl _ _ (lit "card.meta.yaml")); [|done].
    unfold card_meta_of in Hy. rewrite <-scan_path, <-!app_assoc in Hy. rewrite <-!app_assoc. by exists y.
  - by rewrite scan_path.
Qed.
End cards.

(** ** A run *)

Lemma clean_repo (rel : str) (r : Repo) : r_work r = r_index r → r_index r = r_head r → card_clean rel r.
Proof. intros H1 H2 k _. by rewrite H1, H2. Qed.

(** Reads of the three trees agree. *)
Definition repo_clean (r : Repo) : bool := bool_decide (r_work r = r_index r) && bool_decide (r_index r = r_head r).

Lemma repo_clean_true (r : Repo) : repo_clean r = true → r_work r = r_index r ∧ r_index r = r_head r.
Proof. unfold repo_clean. by rewrite andb_true_iff, !bool_decide_eq_true. Qed.

Section runs.
#[local] Existing Instance ascii_unicode.
#[local] Existing Instance std_percent_encoding.
#[local] Existing Instance keyword_json.
#[local] Existing Instance card_meta_yaml.
#[local] Existing Instance plain_git.

Definition user_meta_yaml : Yaml UserMeta.
Proof.
  refine (fields_yaml (λ m, [[um_display_name m]; [um_role m]; [um_introduction m]; um_labels m;
                             match um_kind m with KindUnknown => [] | KindHuman => [[]] | KindAgent => [[]; []] end])
            (λ fs, match fs with
                   | [[a]; [b]; [c]; d; e] =>
                       Some (MkUserMeta a b c d match e with [] => KindUnknown | [_] => KindHuman | _ => KindAgent end)
                   | _ => None
                   end) _).
  by intros [a b c d []].
Defined.
#[local] Existing Instance user_meta_yaml.

Definition works : PlainEnv := MkPlainEnv true Pushed None.
Definition breaks : PlainEnv := MkPlainEnv false PushError None.

Definition card_env (mv_env commit_env : PlainEnv) : CardEnv :=
  MkCardEnv sample_env (lit "20260101-000000") 4660 true true true mv_env (works, commit_env) works (works, works)
    (λ _, MkPushEnv works works works) (λ _, []).
Definition good_env : CardEnv := card_env works works.
Definition bad_commit_env : CardEnv := card_env works breaks.

Lemma plain_rollback mv_env commit_env from to : rollback_works (card_env mv_env commit_env) from to.
Proof.
  split.
  - intros r Hto Hfrom. simpl. unfold plain_mv. rewrite Hto, Hfrom. by eexists.
  - intros r Hhead. eexists. split; [reflexivity|]. simpl. unfold plain_checkout_path. cbn [works pl_ok andb r_index].
    rewrite lookup_path_exists; [by eexists|]. rewrite lookup_sync_paths. unfold in_paths. cbn [existsb].
    by rewrite below_refl.
Qed.

Definition card_start : GDaemon :=
  let t : tree := {[channel_thread_path (lit "ops") := []]} in MkGDaemon (MkRepo t t t) sample_users [] true.
Definition card_created : GDaemon :=
  o_state (handle_create_card good_env card_start (lit "ops") (lit "Fix it") None (Some (lit "bob")) None (lit "alice")).
Definition card_id0 : str := lit "20260101-000000-234".

Lemma card_created_clean : repo_clean (g_repo card_created) = true.
Proof. by vm_compute. Qed.

Lemma card_created_trees :
  r_work (g_repo card_created) = r_index (g_repo card_created)
  ∧ r_index (g_repo card_created) = r_head (g_repo card_created).
Proof. exact (repo_clean_true _ card_created_clean). Qed.

Lemma card_created_free : place_free (archived_card_rel (lit "ops") card_id0) (g_repo card_created).
Proof. split; by vm_compute. Qed.

Lemma no_conflict_env mv_env commit_env : no_conflict (card_env mv_env commit_env).
Proof. intros n r. done. Qed.

Example failed_commit_undone :
  let o := handle_archive_card bad_commit_env card_created (lit "ops") card_id0 (lit "bob") in
  o_response o = Err CardCommit
  ∧ bool_decide (r_index (g_repo (o_state o)) = r_index (g_repo card_created)) = true.
Proof. by vm_compute. Qed.

Lemma archive_card_all_or_nothing_witness :
  card_left_alone card_created (handle_archive_card bad_commit_env card_created (lit "ops") card_id0 (lit "bob")).
Proof.
  destruct card_created_trees as [H1 H2].
  destruct (archive_card_all_or_nothing bad_commit_env card_created (lit "ops") card_id0 (lit "bob")
              (clean_repo _ _ H1 H2) card_created_free (plain_rollback _ _ _ _)
              (no_conflict_env _ _)) as [H|(m & y & _ & _ & _ & _ & _ & [[Hr _]|[e [Hr _]]])]; [exact H|..];
    exfalso; destruct failed_commit_undone as [Hc _]; rewrite Hr in Hc; discriminate Hc.
Defined.

Definition card_archived : GDaemon :=
  o_state (handle_archive_card good_env card_created (lit "ops") card_id0 (lit "bob")).

Definition created_meta : CardMeta :=
  MkCardMeta (lit "Fix it") (lit "ops") Todo [] (Some (lit "bob")) (lit "alice")
    (lit "20260101T000000Z") (lit "20260101T000000Z") None.

Definition created_yaml : str := unwrap_or (yaml_to_string created_meta) [].

Lemma created_yaml_text : yaml_to_string created_meta = Some created_yaml.
Proof. by vm_compute. Qed.

Lemma created_text :
  r_work (g_repo card_created) !! card_meta_of (card_rel (lit "ops") card_id0) = Some created_yaml.
Proof. by vm_compute. Qed.

Lemma archived_answer :
  o_response (handle_archive_card good_env card_created (lit "ops") card_id0 (lit "bob"))
  = Ok (lit "ops", card_id0, lit "bob").
Proof. by vm_compute. Qed.

Lemma restored_answer :
  o_response (handle_unarchive_card good_env card_archived (lit "ops") card_id0 (lit "alice"))
  = Ok (lit "ops", card_id0, lit "alice").
Proof. by vm_compute. Qed.

Lemma card_archive_roundtrip_witness :
  o_state (handle_unarchive_card good_env card_archived (lit "ops") card_id0 (lit "alice")) = card_created.
Proof.
  destruct card_created_trees as [H1 H2].
  exact (card_archive_roundtrip good_env good_env card_created (lit "ops") card_id0 (lit "bob") (lit "alice") _ _
           created_meta _ (clean_repo _ _ H1 H2) card_created_free H2 created_text created_yaml_text eq_refl
           (no_conflict_env _ _) (no_conflict_env _ _) archived_answer restored_answer).
Defined.

Lemma message_answer :
  o_response (handle_send_card_message good_env card_created (lit "ops") card_id0 (lit "on it") None (lit "bob"))
  = Ok (MkSendCardMessageResponse 1 (lit "ops") card_id0 (lit "committed") (Some (lit "abc123"))).
Proof. by vm_compute. Qed.

Lemma no_messages : content_of (as_daemon card_created) (card_thread_of (card_rel (lit "ops") card_id0)) = [].
Proof. by vm_compute. Qed.

Lemma card_message_appends_witness :
  ∃ m, parse_thread
         (content_of (as_daemon (o_state (handle_send_card_message good_env card_created (lit "ops") card_id0
                                               (lit "on it") None (lit "bob"))))
            (card_thread_of (card_rel (lit "ops") card_id0)))
       = Ok (MkThreadFile [EntryMessage m]) ∧ m_line_number m = 1.
Proof.
  destruct (card_message_appends good_env card_created (lit "ops") card_id0 (lit "on it") None (lit "bob") _
              sample_clock ltac:(by vm_compute) eq_refl ltac:(rewrite no_messages; by left)
              ltac:(intros H; by apply Forall_cons in H as [H _]) message_answer)
    as (f & m & Hf & Hp & _ & Hn & _).
  rewrite no_messages in Hf. injection Hf as <-. exists m. split; [exact Hp|exact Hn].
Defined.

Lemma empty_answer :
  o_response (handle_send_card_message good_env card_created (lit "ops") card_id0 [] None (lit "bob"))
  = Ok (MkSendCardMessageResponse 1 (lit "ops") card_id0 (lit "committed") (Some (lit "abc123"))).
Proof. by vm_compute. Qed.

Lemma empty_card_message_blocks_card_witness :
  is_ok (handle_read_card good_env
           (o_state (handle_send_card_message good_env card_created (lit "ops") card_id0 [] None (lit "bob")))
           (lit "ops") card_id0 None None) = false.
Proof.
  exact (proj2 (empty_card_message_blocks_card good_env card_created (lit "ops") card_id0 None (lit "bob") _
                  sample_clock ltac:(by vm_compute) no_messages empty_answer) good_env None None eq_refl).
Defined.

Lemma good_env_ok : card_env_ok good_env.
Proof. split; [by vm_compute|]. apply no_conflict_env. Qed.

Lemma card_start_reachable : reachable_cards card_start.
Proof.
  apply reachable_no_cards; [by repeat constructor|]. intros k Hk.
  assert (k = channel_thread_path (lit "ops")) as ->; [|by vm_compute].
  destruct Hk as [[v Hv]|[[v Hv]|[v Hv]]]; simpl in Hv; by apply lookup_singleton_Some in Hv as [<- _].
Qed.

Lemma card_created_reachable : reachable_cards card_created.
Proof.
  exact (reachable_card_request card_start good_env
           (ReqCreateCard (lit "ops") (lit "Fix it") None (Some (lit "bob")) None (lit "alice"))
           card_start_reachable good_env_ok).
Qed.

Lemma stored_cards_valid_witness : repo_cards_ok (g_repo card_archived).
Proof.
  exact (stored_cards_valid card_archived
           (reachable_card_request card_created good_env (ReqArchiveCard (lit "ops") card_id0 (lit "bob"))
              card_created_reachable good_env_ok)).
Defined.

(** A push that meets a conflict whose rebase stops: [push_with_retry] returns the error
    without aborting the rebase, and the card the clone is left with, conflict markers and
    all, is no longer a card; every later request on it fails until someone repairs the
    clone. *)
Definition marked : str := lit "<<<<<<< HEAD" ++ [nl] ++ created_yaml ++ lit "=======" ++ [nl] ++ lit ">>>>>>> card: update".

Definition stopping_env : CardEnv :=
  let meta := card_meta_of (card_rel (lit "ops") card_id0) in
  let t := <[meta := marked]> (r_work (g_repo card_created)) in
  MkCardEnv sample_env (lit "20260101-000000") 4660 true true true works (works, works) works (works, works)
    (λ _, MkPushEnv (MkPlainEnv true PushConflict None) works
            (MkPlainEnv false Pushed (Some (MkRepo t (r_index (g_repo card_created)) (r_head (g_repo card_created)))))) (λ _, []).

Example stopped_rebase_breaks_card :
  let o := handle_update_card stopping_env card_created (lit "ops") card_id0 (Some (lit "done")) None None (lit "bob") in
  o_response o = Err (CardPush RebaseFailed)
  ∧ (r_work (g_repo (o_state o)) !! card_meta_of (card_rel (lit "ops") card_id0) ≫= yaml_from_str (A := CardMeta)) = None
  ∧ is_ok (handle_read_card good_env (o_state o) (lit "ops") card_id0 None None) = false
  ∧ is_ok (o_response (handle_archive_card good_env (o_state o) (lit "ops") card_id0 (lit "bob"))) = false.
Proof. by vm_compute. Qed.

(** A stale copy at the archive place: [git mv] moves the card into it, and the
    request reports success. *)
Example stale_archive_swallows_card :
  let stale := archived_card_rel (lit "ops") card_id0 in
  let add (t : tree) : tree := <[card_thread_of stale := []]> (<[card_meta_of stale := []]> t) in
  let r := g_repo card_created in
  let d := with_repo card_created (MkRepo (add (r_work r)) (add (r_index r)) (add (r_head r))) in
  let o := handle_archive_card good_env d (lit "ops") card_id0 (lit "bob") in
  is_ok (o_response o) = true
  ∧ r_work (g_repo (o_state o)) !! card_meta_of stale = Some []
  ∧ is_some (r_work (g_repo (o_state o)) !! card_meta_of (stale ++ lit "/" ++ card_id0)) = true.
Proof. by vm_compute. Qed.
End runs.
