(* ===== verification/ChannelArchive.v ===== *)
(** * Archiving a channel with its cards

    [handle_archive_channel] and [handle_unarchive_channel]
    ([gitim-daemon/src/handlers/channel.rs]): the channel's two files and its cards
    move together, in one commit, and every failure on the way is undone step by
    step.  Taking a channel out of the archive takes back only the cards that went
    in with it. *)

From S2P Require Import Prelude RustStr StrFacts Names Asset Thread Compliance Meta Git Daemon Cards.
From stdpp Require Import options.
Open Scope N_scope.
Open Scope list_scope.

(** ** Sequences of moves *)

Abbreviation move := (str * str)%type.

Definition moves_tree (ms : list move) (t : tree) : tree := foldl (λ t (m : move), move_tree m.1 m.2 t) t ms.

Definition moved_all (ms : list move) (r : Repo) : Repo :=
  MkRepo (moves_tree ms (r_work r)) (moves_tree ms (r_index r)) (r_head r).

(** Moves that do not touch each other's places. *)
Definition apart_moves (m n : move) : Prop := apart m.1 n.1 ∧ apart m.1 n.2 ∧ apart m.2 n.1 ∧ apart m.2 n.2.

Definition moves_apart (ms : list move) : Prop :=
  NoDup ms ∧ (∀ m, m ∈ ms → apart m.1 m.2) ∧ (∀ m n, m ∈ ms → n ∈ ms → m ≠ n → apart_moves m n).

(** The targets are free, the sources are there. *)
Definition moves_free (ms : list move) (t : tree) : Prop := ∀ m, m ∈ ms → path_exists t m.2 = false.
Definition moves_sources (ms : list move) (t : tree) : Prop := ∀ m, m ∈ ms → path_exists t m.1 = true.

#[export] Instance apart_moves_sym : Symmetric apart_moves.
Proof. intros m n (H1 & H2 & H3 & H4). split_and!; by symmetry. Qed.

Lemma moves_apart_perm ms ms' : ms ≡ₚ ms' → moves_apart ms → moves_apart ms'.
Proof.
  intros Hp (Hn & Ha & Hp'). split_and!; [by rewrite <-Hp| |].
  - intros m. rewrite <-Hp. apply Ha.
  - intros m n. rewrite <-Hp. apply Hp'.
Qed.

Lemma moves_apart_cons m ms :
  moves_apart (m :: ms) → moves_apart ms ∧ apart m.1 m.2 ∧ ∀ n, n ∈ ms → apart_moves m n.
Proof.
  intros (Hn & Ha & Hp). apply NoDup_cons in Hn as [Hm Hn]. split_and!.
  - split_and!; [done|intros n Hin; apply Ha; by right|]. intros n n' H1 H2. apply Hp; by right.
  - apply Ha. by left.
  - intros n Hin. apply Hp; [by left|by right|]. by intros ->.
Qed.

Lemma moves_apart_app ms ns : moves_apart (ms ++ ns) → moves_apart ms.
Proof.
  intros (Hn & Ha & Hp). apply NoDup_app in Hn as (Hn & _). split_and!; [done| |].
  - intros m Hm. apply Ha, elem_of_app. by left.
  - intros m n Hm Hin. apply Hp; apply elem_of_app; by left.
Qed.

Lemma path_exists_moves p ms t :
  (∀ m, m ∈ ms → apart p m.1 ∧ apart p m.2) → path_exists (moves_tree ms t) p = path_exists t p.
Proof.
  revert t. induction ms as [|m ms IH]; intros t H; [done|]. simpl. fold (moves_tree ms (move_tree m.1 m.2 t)).
  rewrite IH by (intros n Hn; apply H; by right). destruct (H m) as [H1 H2]; [by left|]. by apply path_exists_move_other.
Qed.

Lemma moves_free_step m ms t :
  (∀ n, n ∈ ms → apart_moves m n) → moves_free ms t → moves_free ms (move_tree m.1 m.2 t).
Proof.
  intros Ha Hf n Hn. destruct (Ha n Hn) as (_ & H2 & _ & H4).
  rewrite path_exists_move_other by (by symmetry). by apply Hf.
Qed.

(** Moves that do not touch each other commute. *)
Lemma move_tree_comm m n t :
  apart m.1 m.2 → apart n.1 n.2 → apart_moves m n → path_exists t m.2 = false → path_exists t n.2 = false →
  move_tree m.1 m.2 (move_tree n.1 n.2 t) = move_tree n.1 n.2 (move_tree m.1 m.2 t).
Proof.
  assert (Hhalf : ∀ m n t k, apart m.1 m.2 → apart_moves m n → path_exists t m.2 = false →
            below m.1 k || below m.2 k = true →
            move_tree m.1 m.2 (move_tree n.1 n.2 t) !! k = move_tree n.1 n.2 (move_tree m.1 m.2 t) !! k).
  { clear. intros m n t k Hm (H1 & H2 & H3 & H4) Hfree Hk.
    assert (Hfree' : path_exists (move_tree n.1 n.2 t) m.2 = false) by by rewrite path_exists_move_other.
    assert (Hother : ∀ p, (p = m.1 ∨ p = m.2) → below p k = true → below n.1 k = false ∧ below n.2 k = false).
    { intros p Hp [rest Hs]%below_true. split; apply strip_dir_None_below;
        destruct Hp as [->| ->]; eapply apart_below; [exact H1|exact Hs|exact H3|exact Hs|exact H2|exact Hs|exact H4|exact Hs]. }
    apply orb_true_iff in Hk as [Hk|Hk].
    - destruct (Hother m.1 (or_introl eq_refl) Hk) as [Hn1 Hn2].
      rewrite lookup_move_from by done. rewrite lookup_move_other by done. by rewrite lookup_move_from.
    - destruct (Hother m.2 (or_intror eq_refl) Hk) as [Hn1 Hn2].
      rewrite (lookup_move_other n.1) by done. apply below_true in Hk as [rest [-> Hr]%strip_dir_Some].
      rewrite !lookup_move_to by done. apply lookup_move_other; apply strip_dir_None_below;
        (eapply apart_below; [|by apply strip_dir_app]); done. }
  intros Hm Hn Ha Hfm Hfn. apply map_eq. intros k.
  destruct (below m.1 k || below m.2 k) eqn:Ekm; [by apply Hhalf|].
  destruct (below n.1 k || below n.2 k) eqn:Ekn; [symmetry; apply Hhalf; [done|by symmetry|done|done]|].
  apply orb_false_iff in Ekm as [? ?], Ekn as [? ?]. by rewrite !lookup_move_other.
Qed.

Lemma moves_tree_perm ms ms' t :
  ms ≡ₚ ms' → moves_apart ms → moves_free ms t → moves_tree ms t = moves_tree ms' t.
Proof.
  intros Hp. revert t. induction Hp as [|m ms ms' Hp IH|m n ms|ms ms' ms'' Hp1 IH1 Hp2 IH2]; intros t Ha Hf; [done| | |].
  - apply moves_apart_cons in Ha as (Ha & _ & Hm). simpl. apply IH; [done|].
    apply moves_free_step; [done|]. intros x Hx. apply Hf. by right.
  - simpl. apply moves_apart_cons in Ha as (Ha & Hn & Hnm). apply moves_apart_cons in Ha as (_ & Hm & _).
    f_equal. apply move_tree_comm; [done|done|symmetry; apply Hnm; by left|apply Hf; by right; left|apply Hf; by left].
  - rewrite IH1 by done. apply IH2; [by eapply moves_apart_perm|]. intros m. rewrite <-Hp1. apply Hf.
Qed.

Lemma moves_tree_snoc ms m t : moves_tree (ms ++ [m]) t = move_tree m.1 m.2 (moves_tree ms t).
Proof. unfold moves_tree. by rewrite foldl_app. Qed.

Lemma moves_apart_snoc ms m :
  moves_apart (ms ++ [m]) → moves_apart ms ∧ apart m.1 m.2 ∧ ∀ n, n ∈ ms → apart_moves m n.
Proof. intros H. apply moves_apart_cons. eapply moves_apart_perm; [|done]. by rewrite Permutation_app_comm. Qed.

(** A target that is free before the other moves is free after them. *)
Lemma target_free_after ms m t :
  moves_apart (ms ++ [m]) → path_exists t m.2 = false → path_exists (moves_tree ms t) m.2 = false.
Proof.
  intros (_ & _ & Ha)%moves_apart_snoc Hf. rewrite path_exists_moves; [done|].
  intros n Hn. destruct (Ha n Hn) as (_ & _ & H3 & H4). done.
Qed.

Lemma source_after ms m t :
  moves_apart (ms ++ [m]) → path_exists (moves_tree ms t) m.1 = path_exists t m.1.
Proof.
  intros (_ & _ & Ha)%moves_apart_snoc. apply path_exists_moves.
  intros n Hn. destruct (Ha n Hn) as (H1 & H2 & _). done.
Qed.

(** ** The handlers *)

Inductive ChanError :=
  | ChanDaemon (e : DaemonError)
  | ChanPermission
  | ChanSourceMissing (c : str)
  | ChanActiveExists (c : str)
  | ChanMkdir
  | ChanReadDir
  | ChanEntry
  | ChanCardRead (id : str)
  | ChanCardParse (id : str)
  | ChanCardSerialize (id : str)
  | ChanCardWrite (id : str)
  | ChanCardsMkdir
  | ChanMvCard (from : str)
  | ChanMvThread
  | ChanMvMeta
  | ChanCommit
  | ChanPush (e : PushFailure).

Inductive ChanEvent := ChannelUnarchived (channel author timestamp : str).

Definition archived_channel_thread_path (name : str) : str := thread_path (lit "archive/channels") name.

(** Which way the channel goes: the places of its cards and files, the stamp its cards
    get, and which cards take part. *)
Record Direction := MkDirection {
  dir_card_from : str → str → str;
  dir_card_to : str → str → str;
  dir_thread_from : str → str;
  dir_thread_to : str → str;
  dir_meta_from : str → str;
  dir_meta_to : str → str;
  dir_via : option ArchivedVia;
  dir_wanted : CardMeta → bool;
}.

Definition into_archive : Direction :=
  MkDirection card_rel archived_card_rel channel_thread_path archived_channel_thread_path
    channel_meta_path archived_channel_meta_path (Some ViaChannel) (λ _, true).

Definition out_of_archive : Direction :=
  MkDirection archived_card_rel card_rel archived_channel_thread_path channel_thread_path
    archived_channel_meta_path channel_meta_path None (λ m, card_archived_via m =?? Some ViaChannel).

Section channel_archive.
Context `{YM : !Yaml CardMeta} `{YC : !Yaml ChannelMeta} `{GI : !Git}.

(** What the environment answers.  The listing of the cards directory: unreadable, or
    entries of which each may be unreadable, directories only; the file system per
    card; git per path. *)
Record ChanEnv := MkChanEnv {
  he_now : str;
  he_meta_read_ok : bool;
  he_mkdir_ok : bool;
  he_listing : option (list (option str));
  he_read_ok : str → bool;
  he_write_ok : str → bool;
  he_cards_mkdir_ok : bool;
  he_mv : str → git_env;
  he_commit : CommitEnv;
  he_rollback : str → git_env;
  he_restore : str → git_env * git_env;
  he_push : nat → PushEnv;
}.

Definition restore_all (env : ChanEnv) (stamped_yamls : list str) (r : Repo) : Repo :=
  foldl (λ r meta_rel, restore_card_yaml (he_restore env meta_rel) meta_rel r) r stamped_yamls.

(** Undo completed moves, the last one first; a failure is only logged. *)
Definition rollback_moves (env : ChanEnv) (successful_card_mvs : list move) (r : Repo) : Repo :=
  foldl (λ r (m : move), (mv (he_rollback env m.2) m.2 m.1 r).1) r (reverse successful_card_mvs).

(** The loop over the cards directory: stamp each card that takes part. *)
Fixpoint stamp_cards (env : ChanEnv) (dir : Direction) (channel : str) (listing : list (option str)) (ids : list str)
  (r : Repo) : Repo * res (list str) ChanError :=
  let stamped_yamls := map (λ id, card_meta_of (dir_card_from dir channel id)) ids in
  match listing with
  | [] => (r, Ok ids)
  | None :: _ => (restore_all env stamped_yamls r, Err ChanEntry)
  | Some card_id :: listing' =>
      let meta_file := card_meta_of (dir_card_from dir channel card_id) in
      match r_work r !! meta_file with
      | None => stamp_cards env dir channel listing' ids r
      | Some yaml =>
          if negb (he_read_ok env card_id) then (restore_all env stamped_yamls r, Err (ChanCardRead card_id))
          else
            match yaml_from_str yaml with
            | None => (restore_all env stamped_yamls r, Err (ChanCardParse card_id))
            | Some meta =>
                if negb (dir_wanted dir meta) then stamp_cards env dir channel listing' ids r
                else
                  match yaml_to_string (set_archived_via meta (dir_via dir)) with
                  | None => (restore_all env stamped_yamls r, Err (ChanCardSerialize card_id))
                  | Some new_yaml =>
                      if negb (he_write_ok env card_id)
                      then (restore_all env stamped_yamls r, Err (ChanCardWrite card_id))
                      else stamp_cards env dir channel listing' (ids ++ [card_id]) (write_work meta_file new_yaml r)
                  end
            end
      end
  end.

(** The loop that moves the cards: the clone, the moves done, and the source of the
    move that failed, if any. *)
Fixpoint move_cards (env : ChanEnv) (card_moves successful_card_mvs : list move) (r : Repo)
  : Repo * list move * option str :=
  match card_moves with
  | [] => (r, successful_card_mvs, None)
  | (from_rel, to_rel) :: card_moves' =>
      let '(r', ok) := mv (he_mv env from_rel) from_rel to_rel r in
      if ok then move_cards env card_moves' (successful_card_mvs ++ [(from_rel, to_rel)]) r'
      else (r', successful_card_mvs, Some from_rel)
  end.

(** The channel's own files, then one commit for everything; with the undo of each
    failure. *)
Definition commit_channel (env : ChanEnv) (dir : Direction) (channel : str) (ids : list str) (done_mvs : list move)
  (r2 : Repo) : Repo * res unit ChanError :=
  let stamped_yamls := map (λ id, card_meta_of (dir_card_from dir channel id)) ids in
  let card_files := flat_map (λ id, [card_meta_of (dir_card_to dir channel id);
                                     card_thread_of (dir_card_to dir channel id)]) ids in
  let thread_from := dir_thread_from dir channel in
  let thread_to := dir_thread_to dir channel in
  let meta_from := dir_meta_from dir channel in
  let meta_to := dir_meta_to dir channel in
  let '(r3, ok) := mv (he_mv env thread_from) thread_from thread_to r2 in
  if negb ok then (restore_all env stamped_yamls (rollback_moves env done_mvs r3), Err ChanMvThread)
  else
    let '(r4, ok) := mv (he_mv env meta_from) meta_from meta_to r3 in
    if negb ok then
      let '(r5, _) := mv (he_rollback env thread_to) thread_to thread_from r4 in
      (restore_all env stamped_yamls (rollback_moves env done_mvs r5), Err ChanMvMeta)
    else
      let '(r5, ok) := add_and_commit_as (he_commit env) (thread_to :: meta_to :: card_files) r4 in
      if negb ok then
        let r6 := rollback_moves env done_mvs r5 in
        let '(r7, _) := mv (he_rollback env meta_to) meta_to meta_from r6 in
        let '(r8, _) := mv (he_rollback env thread_to) thread_to thread_from r7 in
        (restore_all env stamped_yamls r8, Err ChanCommit)
      else (r5, Ok tt).

(** From the discovery of the cards to the commit. *)
Definition relocate_channel (env : ChanEnv) (dir : Direction) (channel : str) (r : Repo) : Repo * res unit ChanError :=
  match he_listing env with
  | None => (r, Err ChanReadDir)
  | Some listing =>
      match stamp_cards env dir channel listing [] r with
      | (r1, Err e) => (r1, Err e)
      | (r1, Panicked) => (r1, Panicked)
      | (r1, Ok ids) =>
          let card_moves := map (λ id, (dir_card_from dir channel id, dir_card_to dir channel id)) ids in
          let stamped_yamls := map (λ id, card_meta_of (dir_card_from dir channel id)) ids in
          if negb (is_empty card_moves) && negb (he_cards_mkdir_ok env)
          then (restore_all env stamped_yamls r1, Err ChanCardsMkdir)
          else
            match move_cards env card_moves [] r1 with
            | (r2, done_mvs, Some from_rel) =>
                (restore_all env stamped_yamls (rollback_moves env done_mvs r2), Err (ChanMvCard from_rel))
            | (r2, done_mvs, None) => commit_channel env dir channel ids done_mvs r2
            end
      end
  end.

(** The checks of [handle_archive_channel]. *)
Definition prepare_archive_channel (env : ChanEnv) (d : GDaemon) (channel author : str) : res str ChanError :=
  let? channel_name := map_err (λ e, ChanDaemon (DaemonInvalidChannelName e)) (ChannelName_new channel) in
  let c := channel_name_str channel_name in
  try? map_err ChanDaemon (ensure_author_not_departed (as_daemon d) author) then
  try? guard_err (negb (bool_decide (author ∈ g_users d))) (ChanDaemon (UnknownUser author)) then
  let? meta_str := ok_or (if he_meta_read_ok env then r_work (g_repo d) !! channel_meta_path c else None)
                     (ChanDaemon (ChannelMissing channel)) in
  let? meta := ok_or (yaml_from_str meta_str) (ChanDaemon ChannelMetaParse) in
  try? guard_err (negb (cm_created_by meta =?? author)) ChanPermission then
  try? guard_err (negb (he_mkdir_ok env)) ChanMkdir then
  Ok c.

(** The checks of [handle_unarchive_channel]; a departed author is not refused. *)
Definition prepare_unarchive_channel (env : ChanEnv) (d : GDaemon) (channel author : str) : res str ChanError :=
  let? channel_name := map_err (λ e, ChanDaemon (DaemonInvalidChannelName e)) (ChannelName_new channel) in
  let c := channel_name_str channel_name in
  try? guard_err (negb (bool_decide (author ∈ g_users d))) (ChanDaemon (UnknownUser author)) then
  let? meta_str := ok_or (if he_meta_read_ok env then r_work (g_repo d) !! archived_channel_meta_path c else None)
                     (ChanSourceMissing channel) in
  let? meta := ok_or (yaml_from_str meta_str) (ChanDaemon ChannelMetaParse) in
  try? guard_err (negb (cm_created_by meta =?? author)) ChanPermission then
  try? guard_err (exists_file (as_daemon d) (channel_meta_path c)) (ChanActiveExists channel) then
  try? guard_err (negb (he_mkdir_ok env)) ChanMkdir then
  Ok c.

(** The move, then the push; the events to broadcast on success. *)
Definition run_channel_move (env : ChanEnv) (d : GDaemon) (dir : Direction) (c : str) (events : list ChanEvent)
  (payload : str * str) : GDaemon * list ChanEvent * res (str * str) ChanError :=
  match relocate_channel env dir c (g_repo d) with
  | (r, Err e) => (with_repo d r, [], Err e)
  | (r, Panicked) => (with_repo d r, [], Panicked)
  | (r, Ok _) =>
      match push_with_retry (g_has_remote d) (he_push env) r with
      | (r', Ok _) => (with_repo d r', events, Ok payload)
      | (r', Err e) => (with_repo d r', [], Err (ChanPush e))
      | (r', Panicked) => (with_repo d r', [], Panicked)
      end
  end.

Definition handle_archive_channel (env : ChanEnv) (d : GDaemon) (channel author : str)
  : GDaemon * list ChanEvent * res (str * str) ChanError :=
  match prepare_archive_channel env d channel author with
  | Err e => (d, [], Err e)
  | Panicked => (d, [], Panicked)
  | Ok c => run_channel_move env d into_archive c [] (channel, author)
  end.

Definition handle_unarchive_channel (env : ChanEnv) (d : GDaemon) (channel author : str)
  : GDaemon * list ChanEvent * res (str * str) ChanError :=
  match prepare_unarchive_channel env d channel author with
  | Err e => (d, [], Err e)
  | Panicked => (d, [], Panicked)
  | Ok c => run_channel_move env d out_of_archive c [ChannelUnarchived c author (he_now env)] (channel, author)
  end.

(** ** Undoing *)

(** The commands of the undo succeed when what they need is there. *)
Definition undo_works (env : ChanEnv) : Prop :=
  (∀ from to r, path_exists (r_index r) to = true → path_exists (r_work r) from = false →
                is_Some (git_mv (he_rollback env to) to from r))
  ∧ (∀ p r, is_Some (r_head r !! p) → restores (he_restore env p) p r).

(** Two trees that differ at most at the given paths. *)
Definition agree_off (L : list str) (t t' : tree) : Prop := ∀ k, k ∉ L → t !! k = t' !! k.

Lemma restore_all_spec env (L : list str) (w i t : tree) :
  undo_works env → (∀ p, p ∈ L → is_Some (t !! p)) → agree_off L w t → agree_off L i t →
  restore_all env L (MkRepo w i t) = MkRepo t t t.
Proof.
  intros [_ Hrs]. revert w i. induction L as [|p L IH]; intros w i Hp Hw Hi.
  - unfold restore_all. simpl. f_equal; apply map_eq; intros k; [apply Hw|apply Hi]; apply not_elem_of_nil.
  - unfold restore_all. cbn [foldl]. destruct (Hp p) as [v Hv]; [by left|].
    rewrite restore_card_yaml_spec by (apply Hrs; by exists v). cbn [r_work r_index r_head].
    fold (restore_all env L (MkRepo (overlay_paths [p] t w) (sync_paths [p] t i) t)).
    apply IH; [intros q Hq; apply Hp; by right| |].
    + intros k Hk. rewrite lookup_overlay_paths. unfold in_paths. cbn [existsb].
      destruct (decide (k = p)) as [->|Hne]; [by rewrite below_refl, Hv|].
      rewrite (Hw k) by (by rewrite not_elem_of_cons). destruct (below p k || false); by destruct (t !! k).
    + intros k Hk. rewrite lookup_sync_paths. unfold in_paths. cbn [existsb].
      destruct (below p k || false) eqn:E; [done|]. apply Hi. apply not_elem_of_cons. split; [|done].
      intros ->. by rewrite below_refl in E.
Qed.

(** Undoing one move that was the last of several. *)
Lemma mv_back env pre m base :
  undo_works env → moves_apart (pre ++ [m]) →
  path_exists (r_work base) m.2 = false → path_exists (r_index base) m.2 = false →
  path_exists (r_index base) m.1 = true →
  mv (he_rollback env m.2) m.2 m.1 (moved_all (pre ++ [m]) base) = (moved_all pre base, true).
Proof.
  intros [Hmv _] Ha Hw Hi Hs. pose proof (target_free_after _ _ _ Ha Hw) as Hw'.
  pose proof (target_free_after _ _ _ Ha Hi) as Hi'. pose proof (moves_apart_snoc _ _ Ha) as (_ & Hm & _).
  assert (Hfree : path_exists (r_work (moved_all (pre ++ [m]) base)) m.1 = false).
  { cbn [moved_all r_work]. rewrite moves_tree_snoc. by apply path_exists_moved. }
  destruct (Hmv m.1 m.2 (moved_all (pre ++ [m]) base)) as [r' Hr'].
  { cbn [moved_all r_index]. rewrite moves_tree_snoc. apply path_exists_move; [done|].
    by rewrite (source_after pre m). }
  { exact Hfree. }
  unfold mv. rewrite Hr'. f_equal. destruct (git_mv_moves _ _ _ _ _ Hr') as [_ ->]. rewrite Hfree.
  unfold moved_all. cbn [r_work r_index r_head]. rewrite !moves_tree_snoc, !move_tree_back by done. done.
Qed.

Lemma rollback_moves_spec env pre ms base :
  undo_works env → moves_apart (pre ++ ms) →
  moves_free ms (r_work base) → moves_free ms (r_index base) → moves_sources ms (r_index base) →
  rollback_moves env ms (moved_all (pre ++ ms) base) = moved_all pre base.
Proof.
  intros Hu. induction ms as [|m ms IH] using rev_ind; intros Ha Hw Hi Hs; [by rewrite app_nil_r|].
  unfold rollback_moves. rewrite reverse_snoc. cbn [foldl]. rewrite app_assoc in *.
  assert (Hin : m ∈ ms ++ [m]) by (apply elem_of_app; right; by left).
  rewrite mv_back; [cbn [fst]|done|done|by apply Hw|by apply Hi|by apply Hs].
  apply IH; [by eapply moves_apart_app|..]; intros n Hn; [apply Hw|apply Hi|apply Hs]; apply elem_of_app; by left.
Qed.

(** The loop over the cards moves a prefix of them. *)
Lemma move_cards_spec env ms done_mvs base r' done' failed :
  moves_apart (done_mvs ++ ms) → moves_free (done_mvs ++ ms) (r_work base) →
  moves_sources done_mvs (r_index base) →
  move_cards env ms done_mvs (moved_all done_mvs base) = (r', done', failed) →
  r' = moved_all done' base ∧ moves_sources done' (r_index base)
  ∧ (∃ rest, done_mvs ++ ms = done' ++ rest ∧ (failed = None → rest = [])).
Proof.
  revert done_mvs. induction ms as [|[f t] ms IH]; intros done_mvs Ha Hf Hs; simpl.
  - intros [= <- <- <-]. split_and!; [done..|]. by exists [].
  - replace (done_mvs ++ (f, t) :: ms) with ((done_mvs ++ [(f, t)]) ++ ms) in * by by rewrite <-app_assoc.
    assert (Ha1 : moves_apart (done_mvs ++ [(f, t)])) by by eapply moves_apart_app.
    assert (Hin : (f, t) ∈ (done_mvs ++ [(f, t)]) ++ ms).
    { apply elem_of_app. left. apply elem_of_app. right. by left. }
    pose proof (target_free_after done_mvs (f, t) (r_work base) Ha1 (Hf _ Hin)) as Hfree.
    unfold mv. destruct (git_mv _ f t _) as [r1|] eqn:E.
    + destruct (git_mv_moves _ _ _ _ _ E) as [Hsrc ->]. cbn [r_work r_index r_head moved_all] in *.
      cbn [snd] in Hfree. rewrite Hfree. intros Hrun. apply IH; [done|done| |].
      * intros n [Hn|Hn]%elem_of_app; [by apply Hs|]. apply list_elem_of_singleton in Hn as ->. cbn [fst].
        rewrite <-(source_after done_mvs (f, t) _ Ha1). exact Hsrc.
      * rewrite <-Hrun. f_equal. unfold moved_all. by rewrite !moves_tree_snoc.
    + intros [= <- <- <-]. split_and!; [done..|]. exists ((f, t) :: ms). by rewrite <-app_assoc.
Qed.

(** ** Stamping *)

Definition stamps (ys : list (str * str)) (t : tree) : tree := foldl (λ t (y : str * str), <[y.1 := y.2]> t) t ys.

Lemma stamps_snoc ys y t : stamps (ys ++ [y]) t = <[y.1 := y.2]> (stamps ys t).
Proof. unfold stamps. by rewrite foldl_app. Qed.

Lemma stamps_agree ys t : agree_off (map fst ys) (stamps ys t) t.
Proof.
  intros k. induction ys as [|y ys IH] using rev_ind; [done|]. rewrite map_app, not_elem_of_app. simpl.
  rewrite list_elem_of_singleton. intros [Hk Hne]. rewrite stamps_snoc, lookup_insert_ne by done. by apply IH.
Qed.

Lemma stamps_dom ys (t : tree) k :
  (∀ y, y ∈ ys → is_Some (t !! y.1)) → is_Some (stamps ys t !! k) ↔ is_Some (t !! k).
Proof.
  induction ys as [|y ys IH] using rev_ind; intros Hys; [done|]. rewrite stamps_snoc.
  destruct (decide (k = y.1)) as [->|Hne].
  - rewrite lookup_insert_eq. split; [|by eexists]. intros _. apply Hys, elem_of_app. right. by left.
  - rewrite lookup_insert_ne by done. apply IH. intros z Hz. apply Hys, elem_of_app. by left.
Qed.

Lemma path_exists_dom (t t' : tree) p :
  (∀ k, is_Some (t !! k) ↔ is_Some (t' !! k)) → path_exists t p = path_exists t' p.
Proof.
  intros Hd. apply eq_iff_eq_true. rewrite !path_exists_true.
  split; intros (k & v & rest & Hv & Hs).
  - destruct (proj1 (Hd k)) as [v' Hv']; [by eexists|]. by exists k, v', rest.
  - destruct (proj2 (Hd k)) as [v' Hv']; [by eexists|]. by exists k, v', rest.
Qed.

(** A stamp on a file that moves is a stamp at its new place. *)
Lemma insert_move_other from to (k v : str) (t : tree) :
  below from k = false → below to k = false → <[k := v]> (move_tree from to t) = move_tree from to (<[k := v]> t).
Proof.
  intros Hf Ht. apply map_eq. intros x. rewrite !lookup_move_tree.
  destruct (decide (x = k)) as [->|Hne].
  - rewrite lookup_insert_eq, Hf. apply strip_dir_None_below in Ht. rewrite Ht. simpl. by rewrite lookup_insert_eq.
  - rewrite !lookup_insert_ne by done. rewrite lookup_move_tree. destruct (strip_dir to x) as [rest|] eqn:E; simpl; [|done].
    destruct (decide (from ++ rest = k)) as [<-|Hk]; [|by rewrite lookup_insert_ne].
    apply strip_dir_Some in E as [_ Hr]. apply strip_dir_None_below in Hf. by rewrite strip_dir_app in Hf.
Qed.

Lemma stamp_moves ms f to (rest v : str) (t : tree) :
  (rest = [] ∨ ∃ r, rest = slash :: r) → moves_apart ms → moves_free ms t → (f, to) ∈ ms →
  moves_tree ms (<[f ++ rest := v]> t) = <[to ++ rest := v]> (moves_tree ms t).
Proof.
  intros Hr. revert t. induction ms as [|m ms IH]; intros t Ha Hf Hin; [by apply not_elem_of_nil in Hin|].
  assert (Hout : ∀ p n, apart p n.1 ∧ apart p n.2 → below n.1 (p ++ rest) = false ∧ below n.2 (p ++ rest) = false).
  { intros p n [H1 H2]. split; apply strip_dir_None_below; (eapply apart_below; [|by apply strip_dir_app]); done. }
  apply moves_apart_cons in Ha as (Ha & Hm & Hms).
  assert (Hf' : moves_free ms (move_tree m.1 m.2 t)).
  { apply moves_free_step; [done|]. intros n Hn. apply Hf. by right. }
  assert (Hrest : ∀ ns t', (∀ n, n ∈ ns → apart_moves (f, to) n) →
            moves_tree ns (<[to ++ rest := v]> t') = <[to ++ rest := v]> (moves_tree ns t')).
  { clear -Hr Hout. induction ns as [|n ns IH]; intros t' Hns; [done|]. simpl.
    destruct (Hns n) as (_ & _ & H3 & H4); [by left|]. destruct (Hout to n (conj H3 H4)) as [Hn1 Hn2].
    rewrite <-insert_move_other by done. apply IH. intros n' Hn'. apply Hns. by right. }
  simpl. apply elem_of_cons in Hin as [<-|Hin].
  - cbn [fst snd] in *. rewrite <-insert_move by (try done; apply (Hf (f, to)); by left). by apply Hrest.
  - destruct (Hms (f, to) Hin) as (H1 & _ & H3 & _). cbn [fst snd] in *.
    destruct (Hout f m) as [Hb1 Hb2]; [split; by symmetry|].
    rewrite <-insert_move_other by done. by apply IH.
Qed.

(** A card takes part: its metadata is in the tree and the direction wants it. *)
Definition takes_part (dir : Direction) (c : str) (t : tree) (id : str) (meta : CardMeta) : Prop :=
  ∃ text, t !! card_meta_of (dir_card_from dir c id) = Some text ∧ yaml_from_str text = Some meta
          ∧ dir_wanted dir meta = true.

(** The path and the new text of its metadata. *)
Definition stamp_of (dir : Direction) (c : str) (t : tree) (id : str) (y : str * str) : Prop :=
  y.1 = card_meta_of (dir_card_from dir c id)
  ∧ ∃ meta, takes_part dir c t id meta ∧ yaml_to_string (set_archived_via meta (dir_via dir)) = Some y.2.

Definition places_inj (dir : Direction) : Prop :=
  ∀ c i j, dir_card_from dir c i = dir_card_from dir c j → i = j.

Lemma card_meta_of_inj a b : card_meta_of a = card_meta_of b → a = b.
Proof. apply app_inv_tail. Qed.

Lemma stamps_paths dir c t ids ys :
  Forall2 (stamp_of dir c t) ids ys → map fst ys = map (λ id, card_meta_of (dir_card_from dir c id)) ids.
Proof. induction 1 as [|id y ids ys [Hy _] _ IH]; simpl; congruence. Qed.

Lemma stamps_present dir c t ids ys :
  Forall2 (stamp_of dir c t) ids ys → ∀ y, y ∈ ys → is_Some (t !! y.1).
Proof.
  induction 1 as [|id y ids ys (Hy & meta & (text & Ht & _) & _) _ IH]; intros z Hz; [by apply not_elem_of_nil in Hz|].
  apply elem_of_cons in Hz as [->|Hz]; [|by apply IH]. rewrite Hy, Ht. by eexists.
Qed.

(** Restoring after stamping. *)
Lemma restore_stamped env dir c t ids ys (i : tree) :
  undo_works env → Forall2 (stamp_of dir c t) ids ys → i = t ∨ i = stamps ys t →
  restore_all env (map (λ id, card_meta_of (dir_card_from dir c id)) ids) (MkRepo (stamps ys t) i t) = MkRepo t t t.
Proof.
  intros Hu Hys Hi. rewrite <-(stamps_paths _ _ _ _ _ Hys). apply restore_all_spec; [done| |apply stamps_agree|].
  - intros p Hp. apply list_elem_of_fmap in Hp as (y & -> & Hy). by eapply stamps_present.
  - destruct Hi as [->| ->]; [by intros k _|apply stamps_agree].
Qed.

(** What the stamping loop gives, started after [ids] on [listing]: the ids of exactly
    the cards that take part, with their stamps in the work tree; or an error, and
    everything as it was. *)
Definition stamp_result (dir : Direction) (c : str) (t : tree) (ids : list str) (listing : list (option str))
  (o : Repo * res (list str) ChanError) : Prop :=
  match o with
  | (r', Ok ids') =>
      ∃ ys', r' = MkRepo (stamps ys' t) t t ∧ Forall2 (stamp_of dir c t) ids' ys' ∧ NoDup ids'
        ∧ (∀ id, id ∈ ids' → id ∈ ids ∨ Some id ∈ listing)
        ∧ (∀ id, id ∈ ids → id ∈ ids')
        ∧ (∀ id meta, Some id ∈ listing → takes_part dir c t id meta → id ∈ ids')
  | (r', Err _) => r' = MkRepo t t t
  | (_, Panicked) => False
  end.

Lemma stamp_result_skip dir c t ids id listing o :
  (∀ meta, ¬ takes_part dir c t id meta) → stamp_result dir c t ids listing o →
  stamp_result dir c t ids (Some id :: listing) o.
Proof.
  intros Hno. destruct o as [r' [ids'|e|]]; [|done..].
  intros (ys' & Hr & Hys' & Hnd' & Hsub & Hsup & Hall). exists ys'. split_and!; [done..| |done|].
  - intros j Hj. destruct (Hsub j Hj); [by left|right; by right].
  - intros j meta [[= ->]|Hj]%elem_of_cons Ht; [by destruct (Hno meta)|by eapply Hall].
Qed.

Lemma stamp_result_take dir c t ids id listing o :
  stamp_result dir c t (ids ++ [id]) listing o → stamp_result dir c t ids (Some id :: listing) o.
Proof.
  destruct o as [r' [ids'|e|]]; [|done..].
  intros (ys' & Hr & Hys' & Hnd' & Hsub & Hsup & Hall). exists ys'. split_and!; [done..| | |].
  - intros j Hj. destruct (Hsub j Hj) as [[Hj'|Hj']%elem_of_app|Hj']; [by left| |right; by right].
    apply list_elem_of_singleton in Hj' as ->. right. by left.
  - intros j Hj. apply Hsup, elem_of_app. by left.
  - intros j meta' [[= ->]|Hj]%elem_of_cons Ht; [|by eapply Hall]. apply Hsup, elem_of_app. right. by left.
Qed.

Lemma stamp_cards_spec env dir c t listing ids ys :
  undo_works env → places_inj dir → Forall2 (stamp_of dir c t) ids ys → NoDup (ids ++ omap (λ x, x) listing) →
  stamp_result dir c t ids listing (stamp_cards env dir c listing ids (MkRepo (stamps ys t) t t)).
Proof.
  intros Hu Hinj. revert ids ys. induction listing as [|[id|] listing IH]; intros ids ys Hys Hnd; cbn [stamp_cards].
  - cbn in Hnd. rewrite app_nil_r in Hnd. exists ys. split_and!; [done..|by auto|by auto|].
    intros id meta Hin. by apply not_elem_of_nil in Hin.
  - cbn [omap list_omap] in Hnd.
    assert (Hskip : NoDup (ids ++ omap (λ x, x) listing)).
    { apply NoDup_app in Hnd as (H1 & H2 & H3). apply NoDup_app. split_and!; [done| |by apply NoDup_cons in H3 as [_ H3]].
      intros x Hx Hx'. apply (H2 x Hx). by right. }
    assert (Hfresh : id ∉ ids).
    { apply NoDup_app in Hnd as (_ & H2 & _). intros Hin. apply (H2 id Hin). by left. }
    assert (Hlook : stamps ys t !! card_meta_of (dir_card_from dir c id) = t !! card_meta_of (dir_card_from dir c id)).
    { apply stamps_agree. rewrite (stamps_paths _ _ _ _ _ Hys). intros Hin. apply list_elem_of_fmap in Hin as (j & Hj & Hin).
      apply card_meta_of_inj, Hinj in Hj as ->. done. }
    cbn [r_work]. rewrite Hlook. destruct (t !! card_meta_of (dir_card_from dir c id)) as [text|] eqn:Et; last first.
    { apply stamp_result_skip; [|by apply IH]. intros meta (text & Ht & _). congruence. }
    destruct (he_read_ok env id); cbn [negb]; [|by eapply restore_stamped; eauto].
    destruct (yaml_from_str text) as [meta|] eqn:Em; [|by eapply restore_stamped; eauto].
    destruct (dir_wanted dir meta) eqn:Ew; cbn [negb]; last first.
    { apply stamp_result_skip; [|by apply IH]. intros meta' (text' & Ht & Hm & Hw). congruence. }
    destruct (yaml_to_string (set_archived_via meta (dir_via dir))) as [y|] eqn:Ey; [|by eapply restore_stamped; eauto].
    destruct (he_write_ok env id); cbn [negb]; [|by eapply restore_stamped; eauto].
    unfold write_work. cbn [r_work r_index r_head].
    pose proof (stamps_snoc ys (card_meta_of (dir_card_from dir c id), y) t) as Hs. cbn [fst snd] in Hs. rewrite <-Hs.
    assert (Htp : takes_part dir c t id meta) by by exists text.
    apply stamp_result_take, IH; [|by rewrite <-app_assoc]. apply Forall2_app; [done|].
    constructor; [|constructor]. split; [done|by exists meta].
  - by eapply restore_stamped; eauto.
Qed.

(** ** The whole move *)

Definition channel_moves (dir : Direction) (c : str) (ids : list str) : list move :=
  map (λ id, (dir_card_from dir c id, dir_card_to dir c id)) ids
  ++ [(dir_thread_from dir c, dir_thread_to dir c); (dir_meta_from dir c, dir_meta_to dir c)].

(** The places of a direction do not overlap. *)
Definition places_apart (dir : Direction) (c : str) : Prop :=
  ∀ ids, NoDup ids → Forall (λ id, slash ∉ id) ids → moves_apart (channel_moves dir c ids).

(** The listing names each card directory once, and nothing is in the way. *)
Definition way_free (env : ChanEnv) (dir : Direction) (c : str) (t : tree) : Prop :=
  (∀ listing, he_listing env = Some listing →
     NoDup (omap (λ x, x) listing)
     ∧ ∀ id, Some id ∈ listing → (slash ∉ id) ∧ path_exists t (dir_card_to dir c id) = false)
  ∧ path_exists t (dir_thread_to dir c) = false ∧ path_exists t (dir_meta_to dir c) = false.

(** Stamps as moves with the new text of the metadata below their source, or target. *)
Definition stamps_from (l : list (move * str)) : list (str * str) := map (λ x, (card_meta_of x.1.1, x.2)) l.
Definition stamps_to (l : list (move * str)) : list (str * str) := map (λ x, (card_meta_of x.1.2, x.2)) l.

Lemma stamps_as_moves dir c t ids ys :
  Forall2 (stamp_of dir c t) ids ys →
  ∃ l, ys = stamps_from l ∧ map fst l = map (λ id, (dir_card_from dir c id, dir_card_to dir c id)) ids.
Proof.
  induction 1 as [|id y ids ys [Hy _] _ (l & -> & Hl)]; [by exists []|].
  exists (((dir_card_from dir c id, dir_card_to dir c id), y.2) :: l). split; simpl; [|by rewrite Hl].
  f_equal. destruct y. simpl in *. by rewrite Hy.
Qed.

Lemma moves_free_stamp ms m (y : str) t :
  moves_apart ms → m ∈ ms → moves_free ms t → moves_free ms (<[card_meta_of m.1 := y]> t).
Proof.
  intros (_ & Hs & Hp) Hm Hf n Hn. rewrite path_exists_insert; [by apply Hf|]. apply apart_meta.
  destruct (decide (m = n)) as [->|Hne]; [by apply Hs|]. by destruct (Hp m n Hm Hn Hne) as (_ & H2 & _).
Qed.

(** Stamping and moving commute. *)
Lemma stamps_moves ms l t :
  moves_apart ms → moves_free ms t → (∀ x, x ∈ l → x.1 ∈ ms) →
  moves_tree ms (stamps (stamps_from l) t) = stamps (stamps_to l) (moves_tree ms t)
  ∧ moves_free ms (stamps (stamps_from l) t).
Proof.
  intros Ha. revert t. induction l as [|[[f to] y] l IH]; intros t Hf Hl; [done|]. unfold stamps. simpl.
  assert (Hin : (f, to) ∈ ms) by (apply (Hl (f, to, y)); by left).
  destruct (IH (<[card_meta_of f := y]> t)) as [H1 H2]; [by apply (moves_free_stamp ms (f, to))|intros x Hx; apply Hl; by right|].
  split; [|exact H2]. etrans; [exact H1|]. unfold stamps. f_equal.
  apply stamp_moves; [right; by eexists|done..].
Qed.

Lemma in_paths_false_not_elem ps k : in_paths ps k = false → k ∉ ps.
Proof.
  unfold in_paths. rewrite existsb_false, Forall_forall. intros H Hin. specialize (H k Hin). by rewrite below_refl in H.
Qed.

(** Staging the moved files stages exactly the stamps. *)
Lemma stage_channel dir c t ids ys ms ps :
  moves_apart ms → moves_free ms t → Forall2 (stamp_of dir c t) ids ys →
  (∀ id, id ∈ ids → (dir_card_from dir c id, dir_card_to dir c id) ∈ ms) →
  (∀ id, id ∈ ids → card_meta_of (dir_card_to dir c id) ∈ ps) →
  sync_paths ps (moves_tree ms (stamps ys t)) (moves_tree ms t) = moves_tree ms (stamps ys t).
Proof.
  intros Ha Hf Hys Hms Hps. apply map_eq. intros k. rewrite lookup_sync_paths.
  destruct (in_paths ps k) eqn:E; [done|]. apply in_paths_false_not_elem in E.
  destruct (stamps_as_moves _ _ _ _ _ Hys) as (l & -> & Hl).
  assert (Hx : ∀ x, x ∈ l → ∃ id, id ∈ ids ∧ x.1 = (dir_card_from dir c id, dir_card_to dir c id)).
  { intros x Hx. assert (x.1 ∈ map fst l) as Hx1 by (apply list_elem_of_fmap; by exists x).
    rewrite Hl in Hx1. apply list_elem_of_fmap in Hx1 as (id & -> & Hid). by exists id. }
  destruct (stamps_moves ms l t Ha Hf) as [-> _]; [intros x Hxl; destruct (Hx x Hxl) as (id & Hid & ->); by apply Hms|].
  symmetry. apply stamps_agree. intros Hin. apply list_elem_of_fmap in Hin as (y & -> & Hy).
  apply list_elem_of_fmap in Hy as (x & -> & Hxl). destruct (Hx x Hxl) as (id & Hid & Hid'). apply E.
  cbn [fst]. rewrite Hid'. by apply Hps.
Qed.

(** What a successful move gives: all three trees are the old tree with the cards of
    [ids] stamped and everything moved. *)
Definition channel_moved (dir : Direction) (c : str) (t : tree) (listing : list (option str)) (t' : tree) : Prop :=
  ∃ ids ys, Forall2 (stamp_of dir c t) ids ys ∧ NoDup ids
    ∧ (∀ id, id ∈ ids → Some id ∈ listing)
    ∧ (∀ id meta, Some id ∈ listing → takes_part dir c t id meta → id ∈ ids)
    ∧ t' = moves_tree (channel_moves dir c ids) (stamps ys t).

Lemma mv_forward g pre m base r' :
  moves_apart (pre ++ [m]) → path_exists (r_work base) m.2 = false →
  mv g m.1 m.2 (moved_all pre base) = (r', true) →
  r' = moved_all (pre ++ [m]) base ∧ path_exists (r_index base) m.1 = true.
Proof.
  intros Ha Hf. unfold mv. destruct (git_mv g m.1 m.2 _) as [r1|] eqn:E; [|done]. intros [= ->].
  destruct (git_mv_moves _ _ _ _ _ E) as [Hs ->].
  pose proof (target_free_after _ _ _ Ha Hf) as Hf'. cbn [r_work r_index r_head moved_all] in *. rewrite Hf'.
  split; [unfold moved_all; by rewrite !moves_tree_snoc|]. by rewrite (source_after pre m) in Hs.
Qed.

(** The undo after a failed commit: cards first, then metadata and thread. *)
Lemma undo_commit env cms th me base :
  undo_works env → moves_apart (cms ++ [th; me]) →
  moves_free (cms ++ [th; me]) (r_work base) → moves_free (cms ++ [th; me]) (r_index base) →
  moves_sources (cms ++ [th; me]) (r_index base) →
  let r6 := rollback_moves env cms (moved_all (cms ++ [th; me]) base) in
  let '(r7, _) := mv (he_rollback env me.2) me.2 me.1 r6 in
  let '(r8, _) := mv (he_rollback env th.2) th.2 th.1 r7 in r8 = base.
Proof.
  intros Hu Ha Hw Hi Hs. cbv zeta.
  assert (Hp : cms ++ [th; me] ≡ₚ ([th] ++ [me]) ++ cms) by by rewrite Permutation_app_comm.
  assert (Hall : moved_all (cms ++ [th; me]) base = moved_all (([th] ++ [me]) ++ cms) base).
  { unfold moved_all. by rewrite !(moves_tree_perm _ _ _ Hp). }
  rewrite Hall. apply (moves_apart_perm _ _ Hp) in Ha.
  assert (Hth : th ∈ cms ++ [th; me]) by (apply elem_of_app; right; by left).
  assert (Hme : me ∈ cms ++ [th; me]) by (apply elem_of_app; right; right; by left).
  rewrite rollback_moves_spec; [|done|done|..];
    [|intros m Hm; apply Hw, elem_of_app; by left|intros m Hm; apply Hi, elem_of_app; by left
     |intros m Hm; apply Hs, elem_of_app; by left].
  apply moves_apart_app in Ha.
  rewrite mv_back; [|done|done|by apply Hw|by apply Hi|by apply Hs].
  assert (Ha1 : moves_apart ([] ++ [th])) by by eapply moves_apart_app.
  rewrite (mv_back env [] th); [|done|done|by apply Hw|by apply Hi|by apply Hs].
  by destruct base.
Qed.

(** *** After the cards have been stamped *)

Section stamped.
Set Default Proof Using "Type*".
Context (env : ChanEnv) (dir : Direction) (c : str) (t : tree) (ids : list str) (ys : list (str * str)).
Context (Hu : undo_works env) (Hys : Forall2 (stamp_of dir c t) ids ys).

Let cms : list move := map (λ id, (dir_card_from dir c id, dir_card_to dir c id)) ids.
Let th : move := (dir_thread_from dir c, dir_thread_to dir c).
Let me : move := (dir_meta_from dir c, dir_meta_to dir c).
Let base (i : tree) : Repo := MkRepo (stamps ys t) i t.
Let metas : list str := map (λ id, card_meta_of (dir_card_from dir c id)) ids.

Context (Hapart : moves_apart (cms ++ [th; me])) (Hft : moves_free (cms ++ [th; me]) t).

Lemma stamped_exists p : path_exists (stamps ys t) p = path_exists t p.
Proof. apply path_exists_dom. intros k. apply stamps_dom. by eapply stamps_present. Qed.

(** The index holds the old metadata or, once staged, the new one. *)
Definition index_ok (i : tree) : Prop := i = t ∨ i = stamps ys t.

Lemma index_exists i p : index_ok i → path_exists i p = path_exists t p.
Proof. intros [->| ->]; [done|apply stamped_exists]. Qed.

Lemma stamped_free ms i :
  index_ok i → (∀ m, m ∈ ms → m ∈ cms ++ [th; me]) → moves_free ms (stamps ys t) ∧ moves_free ms i.
Proof.
  intros Hi Hms. split; intros m Hm; [rewrite stamped_exists|rewrite index_exists by done]; by apply Hft, Hms.
Qed.

Lemma undo_stamps i : index_ok i → restore_all env metas (base i) = MkRepo t t t.
Proof. intros Hi. by eapply restore_stamped. Qed.

(** Undoing a prefix of the card moves. *)
Lemma undo_cards done_mvs rest :
  cms = done_mvs ++ rest → moves_sources done_mvs t →
  rollback_moves env done_mvs (moved_all done_mvs (base t)) = base t.
Proof.
  intros Hd Hs. pose proof (rollback_moves_spec env [] done_mvs (base t) Hu) as H. simpl app in H.
  assert (Hsub : ∀ m, m ∈ done_mvs → m ∈ cms ++ [th; me]).
  { intros m Hm. rewrite Hd. apply elem_of_app. left. apply elem_of_app. by left. }
  destruct (stamped_free done_mvs t) as [H1 H2]; [by left|done|].
  rewrite H; [done| |done..]. rewrite Hd in Hapart. by do 2 eapply moves_apart_app.
Qed.

(** Undoing everything after a failed commit. *)
Lemma undo_all i :
  index_ok i → moves_sources (cms ++ [th; me]) t →
  let '(r7, _) := mv (he_rollback env me.2) me.2 me.1 (rollback_moves env cms (moved_all (cms ++ [th; me]) (base i))) in
  let '(r8, _) := mv (he_rollback env th.2) th.2 th.1 r7 in restore_all env metas r8 = MkRepo t t t.
Proof.
  intros Hi Hs. destruct (stamped_free (cms ++ [th; me]) i) as [H1 H2]; [done|done|].
  pose proof (undo_commit env cms th me (base i) Hu Hapart H1 H2) as Hund. cbv zeta in Hund.
  destruct (mv (he_rollback env me.2) _ _ _) as [r7 b7]. destruct (mv (he_rollback env th.2) _ _ _) as [r8 b8].
  rewrite Hund; [by apply undo_stamps|]. intros m Hm. cbn [base r_index]. rewrite index_exists by done. by apply Hs.
Qed.

Lemma commit_channel_spec :
  moves_sources cms t →
  match commit_channel env dir c ids cms (moved_all cms (base t)) with
  | (r', Ok _) => let t' := moves_tree (cms ++ [th; me]) (stamps ys t) in r' = MkRepo t' t' t'
  | (r', Err _) => r' = MkRepo t t t
  | (_, Panicked) => False
  end.
Proof.
  intros Hsrc. unfold commit_channel. cbv zeta.
  assert (Hback : rollback_moves env cms (moved_all cms (base t)) = base t).
  { apply (undo_cards cms []); [by rewrite app_nil_r|done]. }
  assert (Hap2 : moves_apart ((cms ++ [th]) ++ [me])) by by rewrite <-app_assoc.
  assert (Hap1 : moves_apart (cms ++ [th])) by by eapply moves_apart_app.
  assert (Hthin : th ∈ cms ++ [th; me]) by (apply elem_of_app; right; by left).
  assert (Hmein : me ∈ cms ++ [th; me]) by (apply elem_of_app; right; right; by left).
  destruct (stamped_free (cms ++ [th; me]) t) as [Hfw Hfi]; [by left|done|].
  destruct (mv (he_mv env (dir_thread_from dir c)) _ _ _) as [r3 [|]] eqn:Eth; cbn [negb];
    [|apply mv_fail in Eth as ->; rewrite Hback; apply undo_stamps; by left].
  apply (mv_forward _ cms th (base t)) in Eth as [-> Hths]; [|done|by apply Hfw].
  destruct (mv (he_mv env (dir_meta_from dir c)) _ _ _) as [r4 [|]] eqn:Eme; cbn [negb]; last first.
  { apply mv_fail in Eme as ->. pose proof (mv_back env cms th (base t) Hu Hap1) as Hb. cbn [th fst snd] in Hb.
    rewrite Hb; [|by apply (Hfw th)|by apply (Hfi th)|done]. rewrite Hback. apply undo_stamps. by left. }
  apply (mv_forward _ (cms ++ [th]) me (base t)) in Eme as [-> Hmes]; [|done|by apply Hfw].
  rewrite <-app_assoc. simpl app. fold metas.
  set (ps := dir_thread_to dir c :: dir_meta_to dir c :: _).
  assert (Hstage : sync_paths ps (moves_tree (cms ++ [th; me]) (stamps ys t)) (moves_tree (cms ++ [th; me]) t)
                   = moves_tree (cms ++ [th; me]) (stamps ys t)).
  { apply (stage_channel dir c t ids); [done..| |]; intros id Hid.
    - apply elem_of_app. left. apply list_elem_of_fmap. by exists id.
    - do 2 right. apply list_elem_of_In, in_flat_map. exists id. rewrite <-list_elem_of_In. split; [done|]. by left. }
  destruct (add_and_commit_as (he_commit env) ps _) as [r5 [|]] eqn:Eac; cbn [negb]; apply add_and_commit_spec in Eac;
    unfold stage in Eac; cbn [moved_all base r_work r_index r_head] in Eac; rewrite Hstage in Eac; [done|].
  assert (Hr5 : ∃ i, r5 = moved_all (cms ++ [th; me]) (base i) ∧ index_ok i).
  { destruct Eac as [->| ->]; [by exists t; split; [|left]|by exists (stamps ys t); split; [|right]]. }
  destruct Hr5 as (i & -> & Hi).
  pose proof (undo_all i Hi) as Hund. cbn [th me fst snd] in Hund.
  destruct (mv (he_rollback env (dir_meta_to dir c)) _ _ _) as [r7 b7].
  destruct (mv (he_rollback env (dir_thread_to dir c)) _ _ _) as [r8 b8]. apply Hund.
  intros m [Hm|Hm]%elem_of_app; [by apply Hsrc|]. apply elem_of_cons in Hm as [->|Hm]; [done|].
  by apply list_elem_of_singleton in Hm as ->.
Qed.
End stamped.

Lemma relocate_channel_spec env dir c t :
  undo_works env → places_inj dir → places_apart dir c → way_free env dir c t →
  match relocate_channel env dir c (MkRepo t t t) with
  | (r', Ok _) => ∃ listing t', he_listing env = Some listing ∧ channel_moved dir c t listing t' ∧ r' = MkRepo t' t' t'
  | (r', Err _) => r' = MkRepo t t t
  | (_, Panicked) => False
  end.
Proof.
  intros Hu Hinj Hap (Hlist & Hthf & Hmef). unfold relocate_channel.
  destruct (he_listing env) as [listing|] eqn:El; [|done]. destruct (Hlist listing eq_refl) as [Hnd Hnames]. clear Hlist.
  pose proof (stamp_cards_spec env dir c t listing [] [] Hu Hinj (List.Forall2_nil _) Hnd) as Hst. cbn [stamps foldl] in Hst.
  destruct (stamp_cards env dir c listing [] (MkRepo t t t)) as [r1 [ids|e|]]; [|done..].
  destruct Hst as (ys & -> & Hys & Hndi & Hsub & _ & Hall).
  assert (Hin : ∀ id, id ∈ ids → Some id ∈ listing).
  { intros id Hid. destruct (Hsub id Hid) as [H|H]; [by apply not_elem_of_nil in H|done]. }
  assert (Hapart : moves_apart (channel_moves dir c ids)).
  { apply Hap; [done|]. apply Forall_forall. intros id Hid. by apply Hnames, Hin. }
  assert (Hft : moves_free (channel_moves dir c ids) t).
  { intros m [Hm|Hm]%elem_of_app.
    - apply list_elem_of_fmap in Hm as (id & -> & Hid). by apply Hnames, Hin.
    - repeat (apply elem_of_cons in Hm as [->|Hm]; [done|]). by apply not_elem_of_nil in Hm. }
  destruct (negb (is_empty _) && negb (he_cards_mkdir_ok env)); [by eapply restore_stamped; eauto|].
  destruct (move_cards env _ [] _) as [[r2 done_mvs] failed] eqn:Emv.
  apply (move_cards_spec env _ [] (MkRepo (stamps ys t) t t)) in Emv as (-> & Hsrc & rest & Hrest & Hnone);
    [|by eapply moves_apart_app| |intros m Hm; by apply not_elem_of_nil in Hm]; last first.
  { destruct (stamped_free dir c t ids ys Hys Hapart Hft (map (λ id, (dir_card_from dir c id, dir_card_to dir c id)) ids) t) as [H _];
      [by left|intros m Hm; apply elem_of_app; by left|exact H]. }
  simpl app in Hrest. destruct failed as [from_rel|].
  - rewrite (undo_cards env dir c t ids ys Hu Hys Hapart Hft done_mvs rest Hrest Hsrc). by eapply restore_stamped; eauto.
  - rewrite (Hnone eq_refl), app_nil_r in Hrest. subst done_mvs.
    pose proof (commit_channel_spec env dir c t ids ys Hu Hys Hapart Hft Hsrc) as Hc.
    destruct (commit_channel _ _ _ _ _ _) as [r' [u|e|]]; [|done..]. eexists listing, _. split_and!; [done| |exact Hc].
    by exists ids, ys.
Qed.
End channel_archive.

(** ** The places of a channel do not overlap *)

(** The places below one base. *)
Definition card_below (b id : str) : str := b ++ lit "/cards/" ++ id.
Definition thread_below (b : str) : str := b ++ lit ".thread".
Definition meta_below (b : str) : str := b ++ lit ".meta.yaml".

Definition based_moves (b1 b2 : str) (ids : list str) : list move :=
  map (λ id, (card_below b1 id, card_below b2 id)) ids
  ++ [(thread_below b1, thread_below b2); (meta_below b1, meta_below b2)].

Lemma thread_meta_apart b : apart (thread_below b) (meta_below b).
Proof. apply apart_prefix. change (apart ([ch "."] ++ lit "thread") ([ch "."] ++ lit "meta.yaml")). by apply apart_prefix, apart_head. Qed.
Lemma card_thread_apart b id : apart (card_below b id) (thread_below b).
Proof. by apply apart_prefix, apart_head. Qed.
Lemma card_meta_apart b id : apart (card_below b id) (meta_below b).
Proof. by apply apart_prefix, apart_head. Qed.
Lemma cards_apart b i j : slash ∉ i → slash ∉ j → i ≠ j → apart (card_below b i) (card_below b j).
Proof. intros. by apply apart_prefix, apart_prefix, apart_names. Qed.

Lemma based_moves_apart b1 b2 ids :
  (∀ x y, apart (b1 ++ x) (b2 ++ y)) → NoDup ids → Forall (λ id, slash ∉ id) ids → moves_apart (based_moves b1 b2 ids).
Proof.
  intros Hb Hnd Hsl. rewrite Forall_forall in Hsl.
  assert (Hb' : ∀ x y, apart (b2 ++ x) (b1 ++ y)) by (intros; symmetry; apply Hb).
  pose proof thread_meta_apart as Htm. pose proof card_thread_apart as Hct. pose proof card_meta_apart as Hcm.
  assert (Hinj : ∀ i j, card_below b1 i = card_below b1 j → i = j).
  { intros i j H. by apply app_inv_head, app_inv_head in H. }
  assert (Hno : ∀ p q : str, apart p q → p ≠ q).
  { intros p q H ->. destruct (H q) as [E|E]; apply strip_dir_None_below in E; by rewrite below_refl in E. }
  split_and!.
  - unfold based_moves. apply NoDup_app. split_and!.
    + apply NoDup_fmap_2_strong; [|done]. intros i j _ _ [= H _]. by apply Hinj.
    + intros m Hm Hin. apply list_elem_of_fmap in Hm as (id & -> & _).
      apply elem_of_cons in Hin as [[= H _]|Hin]; [by apply (Hno _ _ (Hct b1 id))|].
      apply list_elem_of_singleton in Hin as [= H _]. by apply (Hno _ _ (Hcm b1 id)).
    + apply NoDup_cons. split; [|apply NoDup_singleton]. rewrite list_elem_of_singleton. intros [= H _].
      by apply (Hno _ _ (Htm b1)).
  - intros m [Hm|Hm]%elem_of_app; [apply list_elem_of_fmap in Hm as (id & -> & _); apply Hb|].
    apply elem_of_cons in Hm as [->|Hm]; [apply Hb|]. apply list_elem_of_singleton in Hm as ->. apply Hb.
  - intros m n Hm Hn Hne. unfold based_moves in Hm, Hn. rewrite elem_of_app, elem_of_cons, list_elem_of_singleton in Hm, Hn.
    unfold apart_moves.
    destruct Hm as [Hm|[->| ->]]; [apply list_elem_of_fmap in Hm as (i & -> & Hi)|..];
      (destruct Hn as [Hn|[->| ->]]; [apply list_elem_of_fmap in Hn as (j & -> & Hj)|..]); cbn [fst snd]; try done;
      split_and!; try apply Hb; try apply Hb'; try (by auto); try (symmetry; by auto);
      apply cards_apart; try (by apply Hsl); intros ->; done.
Qed.

Lemma into_archive_moves c ids :
  channel_moves into_archive c ids = based_moves (lit "channels/" ++ c) (lit "archive/channels/" ++ c) ids.
Proof. reflexivity. Qed.

Lemma out_of_archive_moves c ids :
  channel_moves out_of_archive c ids = based_moves (lit "archive/channels/" ++ c) (lit "channels/" ++ c) ids.
Proof. reflexivity. Qed.

Lemma into_archive_apart c : places_apart into_archive c.
Proof. intros ids Hnd Hsl. rewrite into_archive_moves. apply based_moves_apart; [|done..]. intros x y. by apply apart_head. Qed.
Lemma out_of_archive_apart c : places_apart out_of_archive c.
Proof. intros ids Hnd Hsl. rewrite out_of_archive_moves. apply based_moves_apart; [|done..]. intros x y. by apply apart_head. Qed.
Lemma into_archive_inj : places_inj into_archive.
Proof. intros c i j H. change (card_below (lit "channels/" ++ c) i = card_below (lit "channels/" ++ c) j) in H. by do 2 apply app_inv_head in H. Qed.
Lemma out_of_archive_inj : places_inj out_of_archive.
Proof.
  intros c i j H. change (card_below (lit "archive/channels/" ++ c) i = card_below (lit "archive/channels/" ++ c) j) in H.
  by do 2 apply app_inv_head in H.
Qed.

(** ** The requests *)

Section requests.
Context `{YM : !Yaml CardMeta} `{YC : !Yaml ChannelMeta} `{GI : !Git}.

Definition no_push_conflict (env : ChanEnv) : Prop := ∀ n r, git_push (pe_push (he_push env n)) r ≠ PushConflict.

(** The channel metadata at a path of the work tree. *)
Definition channel_at (d : GDaemon) (path : str) (meta : ChannelMeta) : Prop :=
  ∃ y, r_work (g_repo d) !! path = Some y ∧ yaml_from_str y = Some meta.

Lemma prepare_archive_channel_Ok env d channel author c :
  prepare_archive_channel env d channel author = Ok c →
  c = channel ∧ author ∈ g_users d ∧ ∃ meta, channel_at d (channel_meta_path channel) meta ∧ cm_created_by meta = author.
Proof.
  unfold prepare_archive_channel. intros H. rewrite res_bind_Ok in H. destruct H as (n & Hn & H).
  rewrite map_err_Ok in Hn. apply ChannelName_new_str in Hn. rewrite Hn in H.
  rewrite try_Ok in H. destruct H as [_ H]. rewrite try_Ok, guard_err_Ok, negb_decide_false in H. destruct H as [Hu H].
  rewrite res_bind_Ok in H. destruct H as (y & Hy & H). rewrite ok_or_Ok in Hy. destruct (he_meta_read_ok env); [|done].
  rewrite res_bind_Ok in H. destruct H as (meta & Hm & H). rewrite ok_or_Ok in Hm.
  rewrite try_Ok, guard_err_Ok, negb_false_iff, bool_decide_eq_true in H. destruct H as [Hp H].
  rewrite try_Ok in H. destruct H as [_ [= <-]]. split_and!; [done..|]. exists meta. split; [by exists y|done].
Qed.

Lemma prepare_unarchive_channel_Ok env d channel author c :
  prepare_unarchive_channel env d channel author = Ok c →
  c = channel ∧ author ∈ g_users d ∧ r_work (g_repo d) !! channel_meta_path channel = None
  ∧ ∃ meta, channel_at d (archived_channel_meta_path channel) meta ∧ cm_created_by meta = author.
Proof.
  unfold prepare_unarchive_channel. intros H. rewrite res_bind_Ok in H. destruct H as (n & Hn & H).
  rewrite map_err_Ok in Hn. apply ChannelName_new_str in Hn. rewrite Hn in H.
  rewrite try_Ok, guard_err_Ok, negb_decide_false in H. destruct H as [Hu H].
  rewrite res_bind_Ok in H. destruct H as (y & Hy & H). rewrite ok_or_Ok in Hy. destruct (he_meta_read_ok env); [|done].
  rewrite res_bind_Ok in H. destruct H as (meta & Hm & H). rewrite ok_or_Ok in Hm.
  rewrite try_Ok, guard_err_Ok, negb_false_iff, bool_decide_eq_true in H. destruct H as [Hp H].
  rewrite try_Ok, guard_err_Ok in H. destruct H as [Hex H]. apply is_some_false in Hex.
  rewrite try_Ok in H. destruct H as [_ [= <-]]. split_and!; [done..|]. exists meta. split; [by exists y|done].
Qed.

Lemma prepare_archive_channel_no_panic env d channel author : no_panic (prepare_archive_channel env d channel author).
Proof. pose proof ChannelName_new_no_panic. unfold prepare_archive_channel, ensure_author_not_departed. solve_no_panic. Qed.
Lemma prepare_unarchive_channel_no_panic env d channel author : no_panic (prepare_unarchive_channel env d channel author).
Proof. pose proof ChannelName_new_no_panic. unfold prepare_unarchive_channel. solve_no_panic. Qed.

(** The request left everything as it was. *)
Definition channel_left_alone (d : GDaemon) (o : GDaemon * list ChanEvent * res (str * str) ChanError) : Prop :=
  o.1.1 = d ∧ o.1.2 = [] ∧ is_err o.2 = true.

(** Or it moved the channel as a whole, in one commit. *)
Definition channel_relocated (env : ChanEnv) (d : GDaemon) (dir : Direction) (c : str) (t : tree)
  (events : list ChanEvent) (payload : str * str) (o : GDaemon * list ChanEvent * res (str * str) ChanError) : Prop :=
  ∃ listing t', he_listing env = Some listing ∧ channel_moved dir c t listing t'
    ∧ o.1.1 = with_repo d (MkRepo t' t' t')
    ∧ (o.1.2 = events ∧ o.2 = Ok payload ∨ o.1.2 = [] ∧ ∃ e, o.2 = Err (ChanPush e)).

Lemma run_channel_move_spec env d dir c t events payload :
  g_repo d = MkRepo t t t → undo_works env → no_push_conflict env → places_inj dir → places_apart dir c →
  way_free env dir c t →
  let o := run_channel_move env d dir c events payload in
  channel_left_alone d o ∨ channel_relocated env d dir c t events payload o.
Proof.
  intros Hd Hu Hnc Hinj Hap Hw. cbv zeta. unfold run_channel_move. rewrite Hd.
  pose proof (relocate_channel_spec env dir c t Hu Hinj Hap Hw) as H.
  destruct (relocate_channel env dir c (MkRepo t t t)) as [r' [u|e|]]; [right| |done].
  - destruct H as (listing & t' & Hl & Hm & ->). exists listing, t'. split_and!; [done|done|..].
    + pose proof (push_no_conflict (g_has_remote d) (he_push env) (MkRepo t' t' t') Hnc) as Hp.
      destruct (push_with_retry _ _ _) as [r'' [u'|e|]]; simpl in *; by subst r''.
    + pose proof (push_with_retry_no_panic (g_has_remote d) (he_push env) (MkRepo t' t' t')) as Hp.
      destruct (push_with_retry _ _ _) as [r'' [u'|e|]]; simpl in *; [by left|right; eauto|done].
  - left. subst r'. unfold channel_left_alone. simpl. rewrite <-Hd, with_repo_same. done.
Qed.

(** C26: archiving a channel is all or nothing, as long as no push meets a conflict.  In a
    clone with nothing uncommitted, and nothing in the way in the archive, whatever fails
    (reading, parsing or writing the metadata of any card, the move of any card, of the
    thread or of the metadata, the commit, a push other than by a conflict), as long as the
    undo commands work, the clone is afterwards exactly what it was and the answer is an error; otherwise the author
    created the channel, every card the listing of its directory names and that has
    metadata is stamped and moved together with the thread and the metadata, in all three
    trees, and the only error left is a push that sync will retry. *)
Theorem archive_channel_all_or_nothing (env : ChanEnv) (d : GDaemon) (channel author : str) (t : tree)
    (Hclean : g_repo d = MkRepo t t t) (Hundo : undo_works env) (Hpush : no_push_conflict env)
    (Hfree : way_free env into_archive channel t) :
  let o := handle_archive_channel env d channel author in
  channel_left_alone d o ∨
  (channel_relocated env d into_archive channel t [] (channel, author) o
   ∧ author ∈ g_users d
   ∧ ∃ meta, channel_at d (channel_meta_path channel) meta ∧ cm_created_by meta = author).
Proof.
  cbv zeta. unfold handle_archive_channel.
  destruct (prepare_archive_channel env d channel author) as [c|e|] eqn:E; [|by left|].
  - apply prepare_archive_channel_Ok in E as (-> & Hu & Hm).
    destruct (run_channel_move_spec env d into_archive channel t [] (channel, author) Hclean Hundo Hpush
                into_archive_inj (into_archive_apart channel) Hfree) as [H|H]; [by left|by right].
  - by destruct (prepare_archive_channel_no_panic env d channel author).
Qed.

(** The same for taking a channel out of the archive. *)
Lemma unarchive_channel_all_or_nothing (env : ChanEnv) (d : GDaemon) (channel author : str) (t : tree) :
  g_repo d = MkRepo t t t → undo_works env → no_push_conflict env → way_free env out_of_archive channel t →
  let o := handle_unarchive_channel env d channel author in
  channel_left_alone d o ∨
  (channel_relocated env d out_of_archive channel t [ChannelUnarchived channel author (he_now env)] (channel, author) o
   ∧ author ∈ g_users d
   ∧ ∃ meta, channel_at d (archived_channel_meta_path channel) meta ∧ cm_created_by meta = author).
Proof.
  intros Hclean Hundo Hpush Hfree. cbv zeta. unfold handle_unarchive_channel.
  destruct (prepare_unarchive_channel env d channel author) as [c|e|] eqn:E; [|by left|].
  - apply prepare_unarchive_channel_Ok in E as (-> & Hu & _ & Hm).
    destruct (run_channel_move_spec env d out_of_archive channel t [ChannelUnarchived channel author (he_now env)]
                (channel, author) Hclean Hundo Hpush out_of_archive_inj (out_of_archive_apart channel) Hfree) as [H|H];
      [by left|by right].
  - by destruct (prepare_unarchive_channel_no_panic env d channel author).
Qed.

(** ** There and back *)

Definition swap_move (m : move) : move := (m.2, m.1).

Lemma moves_back ms t :
  moves_apart ms → moves_free ms t → moves_tree (map swap_move (reverse ms)) (moves_tree ms t) = t.
Proof.
  induction ms as [|m ms IH] using rev_ind; intros Ha Hf; [done|].
  rewrite reverse_snoc, moves_tree_snoc. simpl. pose proof (moves_apart_snoc _ _ Ha) as (Ha' & Hm & _).
  assert (Hfm : path_exists t m.2 = false) by (apply Hf, elem_of_app; right; by left).
  rewrite move_tree_back; [|done|by apply target_free_after]. apply IH; [done|].
  intros n Hn. apply Hf, elem_of_app. by left.
Qed.

Lemma source_gone ms m t :
  moves_apart ms → moves_free ms t → m ∈ ms → path_exists (moves_tree ms t) m.1 = false.
Proof.
  intros Ha Hf Hm. apply list_elem_of_split in Hm as (l1 & l2 & ->).
  assert (Hp : l1 ++ m :: l2 ≡ₚ (l1 ++ l2) ++ [m]).
  { rewrite <-app_assoc. apply Permutation_app_head, Permutation_cons_append. }
  rewrite (moves_tree_perm _ _ _ Hp Ha Hf), moves_tree_snoc. apply path_exists_moved.
  destruct Ha as (_ & Hs & _). apply Hs, elem_of_app. right. by left.
Qed.

Lemma stamps_lookup ys (t : tree) k v : NoDup (map fst ys) → (k, v) ∈ ys → stamps ys t !! k = Some v.
Proof.
  induction ys as [|[k' v'] ys IH] using rev_ind; intros Hnd Hin; [by apply not_elem_of_nil in Hin|].
  rewrite map_app in Hnd. apply NoDup_app in Hnd as (Hnd & Hdis & _). rewrite stamps_snoc. simpl.
  apply elem_of_app in Hin as [Hin|Hin].
  - rewrite lookup_insert_ne; [by apply IH|]. intros ->. apply (Hdis k).
    + apply list_elem_of_fmap. by exists (k, v).
    + by left.
  - apply list_elem_of_singleton in Hin as [= <- <-]. by rewrite lookup_insert_eq.
Qed.

(** Stamping every changed file with its old text. *)
Lemma stamps_restore ys (t t0 : tree) :
  (∀ y, y ∈ ys → t0 !! y.1 = Some y.2) → agree_off (map fst ys) t t0 → stamps ys t = t0.
Proof.
  revert t. induction ys as [|y ys IH]; intros t Hys Hoff.
  - apply map_eq. intros k. apply Hoff, not_elem_of_nil.
  - unfold stamps. simpl. apply IH; [intros z Hz; apply Hys; by right|]. intros k Hk.
    destruct (decide (k = y.1)) as [->|Hne].
    + rewrite lookup_insert_eq. symmetry. apply Hys. by left.
    + rewrite lookup_insert_ne by done. apply Hoff. simpl. by rewrite not_elem_of_cons.
Qed.

Lemma Forall2_elem_r {A B} (P : A → B → Prop) l k y : Forall2 P l k → y ∈ k → ∃ x, x ∈ l ∧ P x y.
Proof.
  induction 1 as [|a b l k Hab _ IH]; intros Hin; [by apply not_elem_of_nil in Hin|].
  apply elem_of_cons in Hin as [->|Hin]; [exists a; split; [by left|done]|].
  destruct (IH Hin) as (x & Hx & HP). exists x. split; [by right|done].
Qed.

Lemma Forall2_elem_l {A B} (P : A → B → Prop) l k x : Forall2 P l k → x ∈ l → ∃ y, y ∈ k ∧ P x y.
Proof.
  induction 1 as [|a b l k Hab _ IH]; intros Hin; [by apply not_elem_of_nil in Hin|].
  apply elem_of_cons in Hin as [->|Hin]; [exists b; split; [by left|done]|].
  destruct (IH Hin) as (y & Hy & HP). exists y. split; [by right|done].
Qed.

Lemma stamp_keys_nodup dir c t ids ys :
  places_inj dir → Forall2 (stamp_of dir c t) ids ys → NoDup ids → NoDup (map fst ys).
Proof.
  intros Hinj Hys Hnd. rewrite (stamps_paths _ _ _ _ _ Hys). apply NoDup_fmap_2_strong; [|done].
  intros i j _ _ H%card_meta_of_inj%Hinj. done.
Qed.

(** What the daemon itself writes for an active card. *)
Definition canonical_card (t : tree) (c id : str) : Prop :=
  ∀ text meta, t !! card_meta_of (card_rel c id) = Some text → yaml_from_str text = Some meta →
               yaml_to_string meta = Some text ∧ card_archived_via meta = None.

Section back.
Set Default Proof Using "Type*".
Context (c : str) (t : tree) (ids1 : list str) (ys1 : list (str * str)).
Let ms := channel_moves into_archive c ids1.
Let t' := moves_tree ms (stamps ys1 t).
Context (Hys1 : Forall2 (stamp_of into_archive c t) ids1 ys1) (Hnd1 : NoDup ids1).
Context (Hsl : Forall (λ id, slash ∉ id) ids1) (Hfree : moves_free ms t).

Lemma back_apart : moves_apart ms.
Proof. by apply into_archive_apart. Qed.

Lemma in_moves id : id ∈ ids1 → (card_rel c id, archived_card_rel c id) ∈ ms.
Proof. intros Hid. apply elem_of_app. left. apply list_elem_of_fmap. by exists id. Qed.

(** The stamp of a card on its way in, found again on its way out. *)
Lemma archived_text id :
  id ∈ ids1 →
  ∃ text meta y, t !! card_meta_of (card_rel c id) = Some text ∧ yaml_from_str text = Some meta
    ∧ yaml_to_string (set_archived_via meta (Some ViaChannel)) = Some y
    ∧ t' !! card_meta_of (archived_card_rel c id) = Some y.
Proof.
  intros Hid. destruct (Forall2_elem_l _ _ _ _ Hys1 Hid) as (y & Hy & Hy1 & meta & (text & Ht & Hm & _) & Hs).
  exists text, meta, y.2. split_and!; [done..|]. unfold t', card_meta_of.
  assert (Hf1 : moves_free ms (stamps ys1 t)).
  { intros m Hm'. rewrite (path_exists_dom _ t); [by apply Hfree|]. intros k. apply stamps_dom. by eapply stamps_present. }
  pose proof (stamp_moves ms (card_rel c id) (archived_card_rel c id) (lit "/card.meta.yaml") y.2 (stamps ys1 t)
                (or_intror (ex_intro _ (lit "card.meta.yaml") eq_refl)) back_apart Hf1 (in_moves id Hid)) as Hmv.
  assert (Hself : <[card_rel c id ++ lit "/card.meta.yaml" := y.2]> (stamps ys1 t) = stamps ys1 t).
  { apply insert_id. apply stamps_lookup; [by apply (stamp_keys_nodup into_archive c t ids1); [apply into_archive_inj|..]|].
    destruct y as [k v]. simpl in *. by subst k. }
  rewrite Hself in Hmv. rewrite Hmv. by rewrite lookup_insert_eq.
Qed.

Context (ids2 : list str) (ys2 : list (str * str)).
Context (Hys2 : Forall2 (stamp_of out_of_archive c t') ids2 ys2) (Hnd2 : NoDup ids2).
Context (Hsame : ∀ id, id ∈ ids1 ↔ id ∈ ids2) (Hcanon : ∀ id, id ∈ ids1 → canonical_card t c id).

(** On the way out a card gets its old text back. *)
Lemma restored_stamp id y :
  stamp_of out_of_archive c t' id y → id ∈ ids1 →
  y.1 = card_meta_of (archived_card_rel c id) ∧ t !! card_meta_of (card_rel c id) = Some y.2.
Proof.
  intros (Hy & meta2 & (text2 & Ht2 & Hm2 & _) & Hs) Hid. split; [done|].
  destruct (archived_text id Hid) as (text & meta & y1 & Ht & Hm & Hy1 & Ht1).
  destruct (Hcanon id Hid text meta Ht Hm) as [Hc Hnone].
  cbn [out_of_archive dir_card_from dir_via] in *. rewrite Ht1 in Ht2. injection Ht2 as <-.
  rewrite (yaml_roundtrip _ _ Hy1) in Hm2. injection Hm2 as <-.
  assert (set_archived_via (set_archived_via meta (Some ViaChannel)) None = meta) as E by (destruct meta; simpl in *; by subst).
  rewrite E in Hs. congruence.
Qed.

(** The stamps of the way out, seen at the active places. *)
Definition outward (l2 : list (move * str)) : list (move * str) := map (λ x, (swap_move x.1, x.2)) l2.

Lemma outward_moves l2 x :
  map fst l2 = map (λ id, (archived_card_rel c id, card_rel c id)) ids2 → x ∈ outward l2 →
  ∃ id, id ∈ ids1 ∧ x.1 = (card_rel c id, archived_card_rel c id).
Proof.
  intros Hl (z & -> & Hz)%list_elem_of_fmap.
  assert (z.1 ∈ map fst l2) as Hz1 by (apply list_elem_of_fmap; by exists z).
  rewrite Hl in Hz1. apply list_elem_of_fmap in Hz1 as (id & Hz1 & Hid). exists id. cbn [fst]. rewrite Hz1. by rewrite Hsame.
Qed.

Lemma outward_restores l2 :
  ys2 = stamps_to (outward l2) → map fst l2 = map (λ id, (archived_card_rel c id, card_rel c id)) ids2 →
  stamps (stamps_from (outward l2)) (stamps ys1 t) = t.
Proof.
  intros Hto Hl. apply stamps_restore.
  - intros y (x & -> & Hx)%list_elem_of_fmap. destruct (outward_moves l2 x Hl Hx) as (id & Hid & Hx1).
    assert (Hin : (card_meta_of x.1.2, x.2) ∈ ys2) by (rewrite Hto; apply list_elem_of_fmap; by exists x).
    rewrite Hx1 in *. cbn [fst snd] in *. destruct (Forall2_elem_r _ _ _ _ Hys2 Hin) as (id' & Hid' & Hst).
    pose proof Hst as [Hk _]. cbn [fst out_of_archive dir_card_from] in Hk.
    apply card_meta_of_inj, (out_of_archive_inj c id id') in Hk as <-. by apply (restored_stamp id) in Hst as [_ ?].
  - intros k Hk. apply stamps_agree. rewrite (stamps_paths _ _ _ _ _ Hys1). intros Hk1. apply Hk.
    apply list_elem_of_fmap in Hk1 as (id & -> & Hid). rewrite Hsame in Hid.
    assert ((archived_card_rel c id, card_rel c id) ∈ map fst l2) as Hin by (rewrite Hl; apply list_elem_of_fmap; by exists id).
    apply list_elem_of_fmap in Hin as (x & Hx1 & Hx). unfold stamps_from, outward. rewrite !map_map.
    apply list_elem_of_fmap. exists x. rewrite <-Hx1. done.
Qed.

Lemma channel_tree_back : moves_tree (channel_moves out_of_archive c ids2) (stamps ys2 t') = t.
Proof.
  destruct (stamps_as_moves _ _ _ _ _ Hys2) as (l2 & Hl2 & Hl2m).
  assert (Hto : ys2 = stamps_to (outward l2)) by (rewrite Hl2; unfold stamps_to, outward; by rewrite map_map).
  assert (Hf1 : moves_free ms (stamps ys1 t)).
  { intros m Hm. rewrite (path_exists_dom _ t); [by apply Hfree|]. intros k. apply stamps_dom. by eapply stamps_present. }
  destruct (stamps_moves ms (outward l2) (stamps ys1 t) back_apart Hf1) as [Heq HfY].
  { intros x Hx. destruct (outward_moves l2 x Hl2m Hx) as (id & Hid & ->). by apply in_moves. }
  fold t' in Heq. rewrite <-Hto in Heq. rewrite <-Heq. rewrite (outward_restores l2 Hto Hl2m) in *.
  assert (Hp : channel_moves out_of_archive c ids2 ≡ₚ map swap_move (reverse ms)).
  { rewrite reverse_Permutation. unfold ms. rewrite out_of_archive_moves, into_archive_moves. unfold based_moves.
    rewrite map_app, map_map. apply Permutation_app; [|done]. apply Permutation_map.
    apply NoDup_Permutation; [done|done|]. intros id. by rewrite Hsame. }
  rewrite (moves_tree_perm _ _ _ Hp); [by apply moves_back; [apply back_apart|]|..].
  - apply out_of_archive_apart; [done|]. rewrite Forall_forall in *. intros id Hid. apply Hsl. by rewrite Hsame.
  - intros m Hm. rewrite Hp in Hm. apply list_elem_of_fmap in Hm as (n & -> & Hn). cbn [swap_move snd].
    apply source_gone; [apply back_apart|done|]. by rewrite reverse_Permutation in Hn.
Qed.
End back.

Lemma moves_tree_other ms t k :
  (∀ m, m ∈ ms → below m.1 k = false ∧ below m.2 k = false) → moves_tree ms t !! k = t !! k.
Proof.
  revert t. induction ms as [|m ms IH]; intros t H; [done|]. simpl. fold (moves_tree ms (move_tree m.1 m.2 t)).
  rewrite IH by (intros n Hn; apply H; by right). apply lookup_move_other; apply H; by left.
Qed.

(** A card that was in the archive before is not touched when its channel joins it. *)
Lemma archived_card_untouched c t ids ys id :
  Forall2 (stamp_of into_archive c t) ids ys → Forall (λ i, slash ∉ i) ids → slash ∉ id → id ∉ ids →
  moves_tree (channel_moves into_archive c ids) (stamps ys t) !! card_meta_of (archived_card_rel c id)
  = t !! card_meta_of (archived_card_rel c id).
Proof.
  intros Hys Hsl Hid Hno. rewrite Forall_forall in Hsl.
  assert (Hout : ∀ p, apart p (archived_card_rel c id) → below p (card_meta_of (archived_card_rel c id)) = false).
  { intros p Hp. by apply apart_meta, symmetry. }
  rewrite moves_tree_other.
  - apply stamps_agree. rewrite (stamps_paths _ _ _ _ _ Hys). intros Hin.
    apply list_elem_of_fmap in Hin as (j & Hj & _). apply card_meta_of_inj in Hj. discriminate Hj.
  - intros m Hm. rewrite into_archive_moves in Hm. unfold based_moves in Hm.
    rewrite elem_of_app, elem_of_cons, list_elem_of_singleton in Hm.
    change (archived_card_rel c id) with (card_below (lit "archive/channels/" ++ c) id) in *.
    destruct Hm as [Hm|[->| ->]]; [apply list_elem_of_fmap in Hm as (j & -> & Hj)|..]; cbn [fst snd]; split; apply Hout;
      try (by apply apart_head); [|symmetry; apply card_thread_apart|symmetry; apply card_meta_apart].
    apply cards_apart; [by apply Hsl|done|]. intros ->. done.
Qed.

Lemma archive_channel_Ok env d channel author t o :
  g_repo d = MkRepo t t t → undo_works env → no_push_conflict env → way_free env into_archive channel t →
  handle_archive_channel env d channel author = o → is_ok o.2 = true →
  ∃ listing t', he_listing env = Some listing ∧ channel_moved into_archive channel t listing t'
    ∧ o.1.1 = with_repo d (MkRepo t' t' t').
Proof.
  intros Hclean Hundo Hpush Hfree <- Hok. unfold handle_archive_channel in *.
  destruct (prepare_archive_channel env d channel author) as [c|e|] eqn:E; [|done..].
  apply prepare_archive_channel_Ok in E as (-> & _).
  destruct (run_channel_move_spec env d into_archive channel t [] (channel, author) Hclean Hundo Hpush
              into_archive_inj (into_archive_apart channel) Hfree) as [(_ & _ & Herr)|(listing & t' & H1 & H2 & H3 & _)].
  - by destruct (run_channel_move _ _ _ _ _ _) as [? []].
  - by exists listing, t'.
Qed.

Lemma unarchive_channel_Ok env d channel author t o :
  g_repo d = MkRepo t t t → undo_works env → no_push_conflict env → way_free env out_of_archive channel t →
  handle_unarchive_channel env d channel author = o → is_ok o.2 = true →
  ∃ listing t', he_listing env = Some listing ∧ channel_moved out_of_archive channel t listing t'
    ∧ o.1.1 = with_repo d (MkRepo t' t' t').
Proof.
  intros Hclean Hundo Hpush Hfree <- Hok. unfold handle_unarchive_channel in *.
  destruct (prepare_unarchive_channel env d channel author) as [c|e|] eqn:E; [|done..].
  apply prepare_unarchive_channel_Ok in E as (-> & _).
  destruct (run_channel_move_spec env d out_of_archive channel t [ChannelUnarchived channel author (he_now env)]
              (channel, author) Hclean Hundo Hpush out_of_archive_inj (out_of_archive_apart channel) Hfree)
    as [(_ & _ & Herr)|(listing & t' & H1 & H2 & H3 & _)].
  - by destruct (run_channel_move _ _ _ _ _ _) as [? []].
  - by exists listing, t'.
Qed.

(** Archiving a channel and taking it out again gives back the very same clone.
    Start with nothing uncommitted and the active cards' metadata as the daemon
    writes it; when both requests succeed, and the second sees in the archive the
    cards the first put there, every file is what it was: the channel and its cards
    are active again without a stamp, and the cards that somebody had archived by
    hand before are still in the archive. *)
Theorem channel_archive_roundtrip (env1 env2 : ChanEnv) (d : GDaemon) (channel author1 author2 : str) (t : tree)
    (listing1 listing2 : list (option str)) (o1 o2 : GDaemon * list ChanEvent * res (str * str) ChanError)
    (Hclean : g_repo d = MkRepo t t t) (Hundo1 : undo_works env1) (Hundo2 : undo_works env2)
    (Hpush1 : no_push_conflict env1) (Hpush2 : no_push_conflict env2)
    (Hl1 : he_listing env1 = Some listing1) (Hl2 : he_listing env2 = Some listing2)
    (Hcanon : ∀ id, Some id ∈ listing1 → canonical_card t channel id)
    (Hlisted : ∀ id meta, Some id ∈ listing1 → takes_part into_archive channel t id meta → Some id ∈ listing2)
    (Hmanual : ∀ id meta, Some id ∈ listing2 → ¬ takes_part out_of_archive channel t id meta)
    (Hfree1 : way_free env1 into_archive channel t)
    (Hrun1 : handle_archive_channel env1 d channel author1 = o1) (Hok1 : is_ok o1.2 = true)
    (Hfree2 : way_free env2 out_of_archive channel (r_work (g_repo o1.1.1)))
    (Hrun2 : handle_unarchive_channel env2 o1.1.1 channel author2 = o2) (Hok2 : is_ok o2.2 = true) :
  o2.1.1 = d.
Proof.
  destruct (archive_channel_Ok env1 d channel author1 t o1) as (l1 & t' & Hl1' & Hm1 & Hs1); [done..|].
  rewrite Hl1 in Hl1'. injection Hl1' as <-. rewrite Hs1 in *. cbn [with_repo g_repo r_work] in Hfree2.
  destruct (unarchive_channel_Ok env2 (with_repo d (MkRepo t' t' t')) channel author2 t' o2 eq_refl Hundo2 Hpush2 Hfree2 Hrun2 Hok2)
    as (l2 & t2 & Hl2' & Hm2 & Hs2). rewrite Hl2 in Hl2'. injection Hl2' as <-.
  destruct Hm1 as (ids1 & ys1 & Hys1 & Hnd1 & Hin1 & Hall1 & ->).
  destruct Hm2 as (ids2 & ys2 & Hys2 & Hnd2 & Hin2 & Hall2 & ->).
  destruct Hfree1 as (Hn1 & Hth1 & Hme1). destruct (Hn1 listing1 Hl1) as [_ Hnames1]. destruct Hfree2 as (Hn2 & _).
  destruct (Hn2 listing2 Hl2) as [_ Hnames2].
  assert (Hsl1 : Forall (λ id, slash ∉ id) ids1) by (apply Forall_forall; intros id Hid; by apply Hnames1, Hin1).
  assert (Hft : moves_free (channel_moves into_archive channel ids1) t).
  { intros m [Hm|Hm]%elem_of_app; [apply list_elem_of_fmap in Hm as (id & -> & Hid); by apply Hnames1, Hin1|].
    apply elem_of_cons in Hm as [->|Hm]; [exact Hth1|]. apply list_elem_of_singleton in Hm as ->. exact Hme1. }
  assert (Hsame : ∀ id, id ∈ ids1 ↔ id ∈ ids2).
  { intros id. split; intros Hid.
    - destruct (archived_text channel t ids1 ys1 Hys1 Hnd1 Hsl1 Hft id Hid) as (text & meta & y & Ht & Hm & Hy & Ht').
      apply (Hall2 id (set_archived_via meta (Some ViaChannel))).
      + apply (Hlisted id meta); [by apply Hin1|by exists text].
      + exists y. split_and!; [exact Ht'|by apply yaml_roundtrip|done].
    - destruct (decide (id ∈ ids1)) as [|Hno]; [done|exfalso].
      destruct (Forall2_elem_l _ _ _ _ Hys2 Hid) as (y & _ & _ & meta & (text & Ht & Hm & Hw) & _).
      cbn [out_of_archive dir_card_from] in Ht. rewrite (archived_card_untouched channel t ids1 ys1 id) in Ht;
        [|done|done|by apply Hnames2, Hin2|done].
      apply (Hmanual id meta); [by apply Hin2|by exists text]. }
  rewrite Hs2. unfold with_repo at 1 2. cbn [g_repo g_users g_pending_push g_has_remote].
  rewrite (channel_tree_back channel t ids1 ys1 Hys1 Hnd1 Hsl1 Hft ids2 ys2) by (try done; intros id Hid; by apply Hcanon, Hin1).
  destruct d. simpl in *. by subst.
Qed.
End requests.

(** ** A run *)

Section runs.
#[local] Existing Instance card_meta_yaml.
#[local] Existing Instance channel_meta_yaml.
#[local] Existing Instance plain_git.

Definition ops : str := lit "ops".
Definition active_id : str := lit "20260101-000000-234".
Definition manual_id : str := lit "20260101-000000-235".

Definition ops_meta : ChannelMeta :=
  MkChannelMeta ops (lit "alice") (lit "20260101T000000Z") [] [lit "alice"] None.
Definition active_card : CardMeta :=
  MkCardMeta (lit "Fix it") ops Todo [] None (lit "bob") (lit "20260101T000000Z") (lit "20260101T000000Z") None.
Definition text_of_card (m : CardMeta) : str := unwrap_or (yaml_to_string m) [].

Definition ops_tree : tree :=
  list_to_map
    [(channel_thread_path ops, []); (channel_meta_path ops, unwrap_or (yaml_to_string ops_meta) []);
     (card_meta_of (card_rel ops active_id), text_of_card active_card); (card_thread_of (card_rel ops active_id), []);
     (card_meta_of (archived_card_rel ops manual_id), text_of_card (set_archived_via active_card (Some ViaManual)));
     (card_thread_of (archived_card_rel ops manual_id), [])].

Definition ops_daemon : GDaemon := MkGDaemon (MkRepo ops_tree ops_tree ops_tree) sample_users [] true.

Definition chan_env (commit_env : PlainEnv) (listing : list (option str)) : ChanEnv :=
  MkChanEnv (lit "20260101T000000Z") true true (Some listing) (λ _, true) (λ _, true) true (λ _, works)
    (works, commit_env) (λ _, works) (λ _, (works, works)) (λ _, MkPushEnv works works works).

Lemma chan_env_undo commit_env listing : undo_works (chan_env commit_env listing).
Proof.
  split.
  - intros from to r Hto Hfrom. simpl. unfold plain_mv. rewrite Hto, Hfrom. by eexists.
  - intros p r Hhead. eexists. split; [reflexivity|]. simpl. unfold plain_checkout_path. cbn [works pl_ok andb r_index].
    rewrite lookup_path_exists; [by eexists|]. rewrite lookup_sync_paths. unfold in_paths. cbn [existsb].
    by rewrite below_refl.
Qed.

Lemma chan_env_push commit_env listing : no_push_conflict (chan_env commit_env listing).
Proof. intros n r. done. Qed.

(** Deciding that the way is free. *)
Definition way_free_b (dir : Direction) (c : str) (t : tree) (ids : list str) : bool :=
  bool_decide (NoDup ids)
  && forallb (λ id, bool_decide (slash ∉ id) && negb (path_exists t (dir_card_to dir c id))) ids
  && negb (path_exists t (dir_thread_to dir c)) && negb (path_exists t (dir_meta_to dir c)).

Lemma way_free_true commit_env dir c t ids :
  way_free_b dir c t ids = true → way_free (chan_env commit_env (map Some ids)) dir c t.
Proof.
  unfold way_free_b. rewrite !andb_true_iff, !negb_true_iff, bool_decide_eq_true, forallb_Forall, Forall_forall.
  intros (((Hnd & Hids) & Hth) & Hme). split; [|done]. intros listing [= <-].
  assert (omap (λ x, x) (map Some ids) = ids) as -> by (clear; induction ids as [|x ids IH]; [done|]; simpl; f_equal; exact IH). split; [done|].
  intros id Hid. apply list_elem_of_fmap in Hid as (id' & [= ->] & Hid'). specialize (Hids id' Hid').
  rewrite andb_true_iff, bool_decide_eq_true, negb_true_iff in Hids. done.
Qed.

Lemma ops_free : way_free_b into_archive ops ops_tree [active_id] = true.
Proof. by vm_compute. Qed.

Definition failed_archive := handle_archive_channel (chan_env breaks (map Some [active_id])) ops_daemon ops (lit "alice").

Lemma failed_answer : failed_archive.2 = Err ChanCommit.
Proof. by vm_compute. Qed.

Lemma archive_channel_all_or_nothing_witness : channel_left_alone ops_daemon failed_archive.
Proof.
  destruct (archive_channel_all_or_nothing (chan_env breaks (map Some [active_id])) ops_daemon ops (lit "alice") ops_tree
              eq_refl (chan_env_undo _ _) (chan_env_push _ _) (way_free_true _ _ _ _ _ ops_free))
    as [H|[(listing & t' & _ & _ & _ & [[_ Hr]|[_ [e Hr]]]) _]]; [exact H|..];
    exfalso; pose proof failed_answer as Hf; unfold failed_archive in Hf; rewrite Hr in Hf; discriminate Hf.
Defined.

Definition archive_run := handle_archive_channel (chan_env works (map Some [active_id])) ops_daemon ops (lit "alice").
Definition restore_run :=
  handle_unarchive_channel (chan_env works (map Some [manual_id; active_id])) archive_run.1.1 ops (lit "alice").

Lemma archive_run_ok : is_ok archive_run.2 = true.
Proof. by vm_compute. Qed.
Lemma restore_run_ok : is_ok restore_run.2 = true.
Proof. by vm_compute. Qed.
Lemma restore_free : way_free_b out_of_archive ops (r_work (g_repo archive_run.1.1)) [manual_id; active_id] = true.
Proof. by vm_compute. Qed.

Lemma ops_canonical : canonical_card ops_tree ops active_id.
Proof.
  intros text meta Ht Hm.
  assert (ops_tree !! card_meta_of (card_rel ops active_id) = Some (text_of_card active_card)) as Hl by by vm_compute.
  assert (yaml_to_string active_card = Some (text_of_card active_card)) as Hy by by vm_compute.
  rewrite Hl in Ht. injection Ht as <-. rewrite (yaml_roundtrip _ _ Hy) in Hm. injection Hm as <-. done.
Qed.

Lemma active_not_archived : ops_tree !! card_meta_of (archived_card_rel ops active_id) = None.
Proof. by vm_compute. Qed.
Lemma manual_text :
  ops_tree !! card_meta_of (archived_card_rel ops manual_id)
  = Some (text_of_card (set_archived_via active_card (Some ViaManual))).
Proof. by vm_compute. Qed.
Lemma manual_yaml :
  yaml_to_string (set_archived_via active_card (Some ViaManual))
  = Some (text_of_card (set_archived_via active_card (Some ViaManual))).
Proof. by vm_compute. Qed.

Lemma ops_manual id meta :
  Some id ∈ map Some [manual_id; active_id] → ¬ takes_part out_of_archive ops ops_tree id meta.
Proof.
  intros Hid (text & Ht & Hm & Hw). apply list_elem_of_fmap in Hid as (id' & [= ->] & Hid).
  cbn [out_of_archive dir_card_from] in Ht.
  apply elem_of_cons in Hid as [->|Hid]; [|apply list_elem_of_singleton in Hid as ->; rewrite active_not_archived in Ht; done].
  rewrite manual_text in Ht. injection Ht as <-. rewrite (yaml_roundtrip _ _ manual_yaml) in Hm. injection Hm as <-.
  discriminate Hw.
Qed.

Lemma channel_archive_roundtrip_witness : restore_run.1.1 = ops_daemon.
Proof.
  refine (channel_archive_roundtrip (chan_env works (map Some [active_id])) (chan_env works (map Some [manual_id; active_id]))
            ops_daemon ops (lit "alice") (lit "alice") ops_tree (map Some [active_id]) (map Some [manual_id; active_id])
            archive_run restore_run eq_refl (chan_env_undo _ _) (chan_env_undo _ _) (chan_env_push _ _) (chan_env_push _ _)
            eq_refl eq_refl _ _ ops_manual (way_free_true _ _ _ _ _ ops_free) eq_refl archive_run_ok
            (way_free_true _ _ _ _ _ restore_free) eq_refl restore_run_ok).
  - intros id Hid. apply list_elem_of_singleton in Hid as [= ->]. exact ops_canonical.
  - intros id meta Hid _. apply list_elem_of_singleton in Hid as [= ->]. right. left.
Defined.
End runs.
