(* ===== verification/Users.v ===== *)
(** * Users, direct messages, labels and projects

    The handlers of [gitim-daemon/src/handlers/user.rs], [dm.rs], [labels.rs] and
    [project.rs] over the clone's three trees: registering and updating a user, moving a
    user or a direct message into the archive and back, the labels users claim for
    themselves, and the projects channels belong to.

    A user has one place: [users/<handler>.meta.yaml], or [archive/users/] once he has
    departed, and his board goes along with him. *)

From S2P Require Import Prelude RustStr StrFacts Names QuickSession Asset Links Thread Compliance Meta Git Daemon Cards ChannelArchive.
From stdpp Require Import options.
Open Scope N_scope.
Open Scope list_scope.

(** ** Events, errors, paths *)

Inductive UserEvent :=
  | UserArchived (handler archived_by timestamp : str)
  | UserUnarchived (handler unarchived_by timestamp : str)
  | DmWasArchived (peer archived_by timestamp : str)
  | DmWasUnarchived (peer unarchived_by timestamp : str)
  | ProjectCreated (slug : str)
  | ChannelProjectChanged (channel : str) (project : option str).

Inductive UserError :=
  | UserDaemon (e : DaemonError)
  | UserInvalidHandler (e : HandlerError)
  | UserUnknown (h : str)
  | UserReserved (h : str)
  | UserDisplayName
  | UserIntroduction
  | UserNotFound (h : str)
  | UserAlreadyArchived (h : str)
  | UserArchiveMissing (h : str)
  | UserActiveExists (h : str)
  | DmAlreadyArchived (peer : str)
  | DmMissing (peer : str)
  | DmNotArchived (peer : str)
  | DmArchiveMissing (peer : str)
  | UserRead
  | UserParse
  | UserSerialize
  | UserWrite
  | UserMkdir
  | UserMv
  | UserBoardMkdir
  | UserBoardMv
  | UserCommit
  | UserPush (e : PushFailure)
  | NoIdentity
  | NotSelf (me : str)
  | LabelsInvalid (e : LabelError)
  | LabelsFull (n : N)
  | LabelsMeta (e : UserMetaError)
  | InvalidSlug (e : ProjectSlugError)
  | ProjectExists (slug : str)
  | ProjectInvalid (e : ValidationError)
  | ProjectNotFound (slug : str)
  | ProjectMetaCorrupted (slug : str)
  | UserChannelName (e : ChannelNameError)
  | UserChannelArchived (c : str)
  | UserChannelMissing (c : str)
  | UserReadDir.

Definition board_path (handler : str) : str := lit "showboards/" ++ handler ++ lit "/board.md".
Definition archived_board_path (handler : str) : str := lit "archive/showboards/" ++ handler ++ lit "/board.md".
Definition project_meta_path (slug : str) : str := meta_path (lit "projects") slug.

(** [BTreeSet] from a list, listed in order. *)
Definition btree_of (l : list str) : list str := fold_left (λ s x, btree_insert x s) l [].

(** [if !users.contains(&handler) { users.push(handler); users.sort() }]. *)
Definition add_user (h : str) (users : list str) : list str :=
  if bool_decide (h ∈ users) then users else sort_strings (users ++ [h]).

Definition drop_user (h : str) (users : list str) : list str := List.filter (λ u, negb (u =?? h)) users.

Definition with_users (d : GDaemon) (users : list str) : GDaemon :=
  MkGDaemon (g_repo d) users (g_pending_push d) (g_has_remote d).

(** [std::fs::remove_file]. *)
Definition delete_work (path : str) (r : Repo) : Repo := MkRepo (delete path (r_work r)) (r_index r) (r_head r).

Section users.
Context `{UC : !Unicode} `{YU : !Yaml UserMeta} `{YC : !Yaml ChannelMeta} `{YP : !Yaml ProjectMeta} `{GI : !Git}.

(** What the environment answers: the time, the file system by path, git by source path. *)
Record UserEnv := MkUserEnv {
  ue_now : str;
  ue_read_ok : str → bool;
  ue_write_ok : str → bool;
  ue_mkdir_ok : str → bool;
  ue_remove_ok : bool;
  ue_restore_ok : bool;
  ue_mv : str → git_env;
  ue_rollback : str → git_env;
  ue_commit : CommitEnv;
  ue_push : nat → PushEnv;
  ue_read_dir : str → option (list str);
}.

Definition UserOutcome (A : Type) : Type := GDaemon * list UserEvent * res A UserError.

Definition refuse {A} (d : GDaemon) (e : UserError) : UserOutcome A := (d, [], Err e).

(** The checks of a handler, then the rest of it. *)
Definition checked_then {A B} (d : GDaemon) (checks : res A UserError) (k : A → UserOutcome B) : UserOutcome B :=
  match checks with
  | Ok a => k a
  | Err e => refuse d e
  | Panicked => (d, [], Panicked)
  end.

Definition exists_path (d : GDaemon) (p : str) : bool := path_exists (r_work (g_repo d)) p.

Definition read_to_str (env : UserEnv) (d : GDaemon) (p : str) : option str :=
  if ue_read_ok env p then r_work (g_repo d) !! p else None.

Definition known_user (d : GDaemon) (h : str) : res unit UserError :=
  guard_err (negb (bool_decide (h ∈ g_users d))) (UserUnknown h).

Definition not_departed (d : GDaemon) (h : str) : res unit UserError :=
  map_err UserDaemon (ensure_author_not_departed (as_daemon d) h).

Definition valid_handler (h : str) : res Handler UserError := map_err UserInvalidHandler (Handler_new h).

(** ** [handle_register_user] *)

Definition handle_register_user (env : UserEnv) (d : GDaemon) (handler display_name role introduction : str) (kind : UserKind)
  : UserOutcome (str * bool) :=
  checked_then d (try? valid_handler handler then
                  guard_err (exists_path d (archived_user_meta_path handler)) (UserReserved handler)) (λ _,
  let path := user_meta_path handler in
  if exists_path d path then (with_users d (add_user handler (g_users d)), [], Ok (handler, true))
  else
    match yaml_to_string (MkUserMeta display_name role introduction [] kind) with
    | None => refuse d UserSerialize
    | Some meta_str =>
        if negb (ue_write_ok env path) then refuse d UserWrite
        else
          let users := add_user handler (g_users d) in
          let '(r1, ok) := add_and_commit_as (ue_commit env) [path] (write_work path meta_str (g_repo d)) in
          if ok then (with_users (with_repo d r1) users, [], Ok (handler, false))
          else
            let r2 := if ue_remove_ok env then delete_work path r1 else r1 in
            (with_users (with_repo d r2) (drop_user handler users), [], Err UserCommit)
    end).

(** ** [handle_update_user] *)

Definition prepare_update_user (env : UserEnv) (d : GDaemon) (handler : str) (display_name introduction : option str)
  : res UserMeta UserError :=
  try? valid_handler handler then
  try? guard_err (is_some_and display_name (λ name, is_empty (trim name) || (64 <? len name))) UserDisplayName then
  try? guard_err (is_some_and introduction (λ intro, MAX_INTRODUCTION_LEN <? len intro)) UserIntroduction then
  try? guard_err (negb (exists_path d (user_meta_path handler))) (UserNotFound handler) then
  let? existing := ok_or (read_to_str env d (user_meta_path handler)) UserRead in
  ok_or (yaml_from_str existing) UserParse.

Definition handle_update_user (env : UserEnv) (d : GDaemon) (handler : str) (display_name introduction : option str)
  : UserOutcome (str * bool) :=
  checked_then d (prepare_update_user env d handler display_name introduction) (λ meta,
  let name := unwrap_or display_name (um_display_name meta) in
  let intro := unwrap_or introduction (um_introduction meta) in
  if (name =?? um_display_name meta) && (intro =?? um_introduction meta) then (d, [], Ok (handler, true))
  else
    match yaml_to_string (MkUserMeta name (um_role meta) intro (um_labels meta) (um_kind meta)) with
    | None => refuse d UserSerialize
    | Some meta_str =>
        let path := user_meta_path handler in
        if negb (ue_write_ok env path) then refuse d UserWrite
        else
          let '(r1, ok) := add_and_commit_as (ue_commit env) [path] (write_work path meta_str (g_repo d)) in
          (with_repo d r1, [], if ok then Ok (handler, true) else Err UserCommit)
    end).

(** ** Moving into the archive and back *)

(** Undo the moves, the last one first; a failure is only logged. *)
Definition undo_moves (env : UserEnv) (ms : list (str * str)) (r : Repo) : Repo :=
  foldl (λ r (m : str * str), (mv (ue_rollback env m.2) m.2 m.1 r).1) r (reverse ms).

Definition commit_moves (env : UserEnv) (ms : list (str * str)) (r : Repo) : Repo * res unit UserError :=
  let '(r1, ok) := add_and_commit_as (ue_commit env) (map snd ms) r in
  if ok then (r1, Ok tt) else (undo_moves env ms r1, Err UserCommit).

(** The file, and the board where there is one, in one commit. *)
Definition move_with_board (env : UserEnv) (from to : str) (board : option (str * str)) (r : Repo) : Repo * res unit UserError :=
  let '(r1, ok) := mv (ue_mv env from) from to r in
  if negb ok then (r1, Err UserMv)
  else
    match board with
    | Some (board_from, board_to) =>
        if negb (path_exists (r_work r1) board_from) then commit_moves env [(from, to)] r1
        else if negb (ue_mkdir_ok env board_to) then (undo_moves env [(from, to)] r1, Err UserBoardMkdir)
        else
          let '(r2, ok) := mv (ue_mv env board_from) board_from board_to r1 in
          if negb ok then (undo_moves env [(from, to)] r2, Err UserBoardMv)
          else commit_moves env [(from, to); (board_from, board_to)] r2
    | None => commit_moves env [(from, to)] r1
    end.

(** The move, the push, then the in-memory list and the event. *)
Definition run_move {A} (env : UserEnv) (d : GDaemon) (from to : str) (board : option (str * str))
  (users : list str → list str) (event : UserEvent) (payload : A) : UserOutcome A :=
  match move_with_board env from to board (g_repo d) with
  | (r, Err e) => refuse (with_repo d r) e
  | (r, Panicked) => (with_repo d r, [], Panicked)
  | (r, Ok _) =>
      match push_with_retry (g_has_remote d) (ue_push env) r with
      | (r', Err e) => refuse (with_repo d r') (UserPush e)
      | (r', Panicked) => (with_repo d r', [], Panicked)
      | (r', Ok _) => (with_users (with_repo d r') (users (g_users d)), [event], Ok payload)
      end
  end.

Definition prepare_archive_user (env : UserEnv) (d : GDaemon) (handler author : str) : res unit UserError :=
  try? valid_handler handler then
  try? not_departed d author then
  try? known_user d author then
  try? guard_err (exists_path d (archived_user_meta_path handler)) (UserAlreadyArchived handler) then
  try? guard_err (negb (exists_path d (user_meta_path handler))) (UserNotFound handler) then
  guard_err (negb (ue_mkdir_ok env (archived_user_meta_path handler))) UserMkdir.

Definition handle_archive_user (env : UserEnv) (d : GDaemon) (handler author : str) : UserOutcome (str * str) :=
  checked_then d (prepare_archive_user env d handler author) (λ _,
  run_move env d (user_meta_path handler) (archived_user_meta_path handler)
    (Some (board_path handler, archived_board_path handler))
    (drop_user handler) (UserArchived handler author (ue_now env)) (handler, author)).

Definition prepare_unarchive_user (env : UserEnv) (d : GDaemon) (handler author : str) : res unit UserError :=
  try? valid_handler handler then
  try? known_user d author then
  try? guard_err (negb (exists_path d (archived_user_meta_path handler))) (UserArchiveMissing handler) then
  try? guard_err (exists_path d (user_meta_path handler)) (UserActiveExists handler) then
  guard_err (negb (ue_mkdir_ok env (user_meta_path handler))) UserMkdir.

Definition handle_unarchive_user (env : UserEnv) (d : GDaemon) (handler author : str) : UserOutcome (str * str) :=
  checked_then d (prepare_unarchive_user env d handler author) (λ _,
  run_move env d (archived_user_meta_path handler) (user_meta_path handler)
    (Some (archived_board_path handler, board_path handler))
    (add_user handler) (UserUnarchived handler author (ue_now env)) (handler, author)).

(** ** Direct messages *)

Definition handle_archive_dm (env : UserEnv) (d : GDaemon) (peer author : str) : UserOutcome (str * str) :=
  checked_then d
    (let? peer_h := valid_handler peer in
     let? author_h := valid_handler author in
     let stem := dm_filename author_h peer_h in
     try? not_departed d author then
     try? known_user d author then
     try? guard_err (exists_path d (archived_dm_thread_path stem)) (DmAlreadyArchived peer) then
     try? guard_err (negb (exists_path d (dm_thread_path stem))) (DmMissing peer) then
     try? guard_err (negb (ue_mkdir_ok env (archived_dm_thread_path stem))) UserMkdir then
     Ok stem) (λ stem,
  run_move env d (dm_thread_path stem) (archived_dm_thread_path stem) None
    id (DmWasArchived peer author (ue_now env)) (author, stem)).

Definition handle_unarchive_dm (env : UserEnv) (d : GDaemon) (peer author : str) : UserOutcome (str * str) :=
  checked_then d
    (let? peer_h := valid_handler peer in
     let? author_h := valid_handler author in
     let stem := dm_filename author_h peer_h in
     try? known_user d author then
     try? guard_err (exists_path d (dm_thread_path stem)) (DmNotArchived peer) then
     try? guard_err (negb (exists_path d (archived_dm_thread_path stem))) (DmArchiveMissing peer) then
     try? guard_err (negb (ue_mkdir_ok env (dm_thread_path stem))) UserMkdir then
     Ok stem) (λ stem,
  run_move env d (archived_dm_thread_path stem) (dm_thread_path stem) None
    id (DmWasUnarchived peer author (ue_now env)) (author, stem)).

(** ** Labels *)

Definition ensure_self_and_handler (current_user : option str) (target : str) : res unit UserError :=
  try? valid_handler target then
  match current_user with
  | Some me => if is_empty me then Err NoIdentity else guard_err (negb (me =?? target)) (NotSelf me)
  | None => Err NoIdentity
  end.

Definition set_labels (labels : list str) (meta : UserMeta) : UserMeta :=
  MkUserMeta (um_display_name meta) (um_role meta) (um_introduction meta) labels (um_kind meta).

(** Write one file and commit it, or write the old text back. *)
Definition write_or_restore (env : UserEnv) (d : GDaemon) (path old new : str) : Repo * res unit UserError :=
  if negb (ue_write_ok env path) then (g_repo d, Err UserWrite)
  else
    let '(r1, ok) := add_and_commit_as (ue_commit env) [path] (write_work path new (g_repo d)) in
    if ok then (r1, Ok tt)
    else (if ue_restore_ok env then write_work path old r1 else r1, Err UserCommit).

(** The end of both label handlers: a changed set is validated, written and pushed. *)
Definition store_labels (env : UserEnv) (d : GDaemon) (target existing : str) (meta : UserMeta) (labels : list str)
  : UserOutcome (list str) :=
  if labels =?? btree_of (um_labels meta) then (d, [], Ok (um_labels meta))
  else
    let meta' := set_labels labels meta in
    checked_then d
      (try? map_err LabelsMeta (meta_validate_user_meta meta') then ok_or (yaml_to_string meta') UserSerialize) (λ new_yaml,
    match write_or_restore env d (user_meta_path target) existing new_yaml with
    | (r, Err e) => refuse (with_repo d r) e
    | (r, Panicked) => (with_repo d r, [], Panicked)
    | (r, Ok _) =>
        match push_with_retry (g_has_remote d) (ue_push env) r with
        | (r', Err e) => refuse (with_repo d r') (UserPush e)
        | (r', Panicked) => (with_repo d r', [], Panicked)
        | (r', Ok _) => (with_repo d r', [], Ok labels)
        end
    end).

Definition read_user_meta (env : UserEnv) (d : GDaemon) (target : str) : res (str * UserMeta) UserError :=
  let? existing := ok_or (read_to_str env d (user_meta_path target)) UserRead in
  let? meta := ok_or (yaml_from_str existing) UserParse in
  Ok (existing, meta).

Definition handle_labels_add (env : UserEnv) (d : GDaemon) (current_user : option str) (target : str) (labels : list str)
  : UserOutcome (list str) :=
  let labels := btree_of labels in
  checked_then d
    (try? ensure_self_and_handler current_user target then
     try? map_err LabelsInvalid (validate_labels labels USER_MAX_LABELS) then
     let? '(existing, meta) := read_user_meta env d target in
     let union := fold_left (λ s x, btree_insert x s) labels (btree_of (um_labels meta)) in
     try? guard_err (USER_MAX_LABELS <? N.of_nat (length union)) (LabelsFull (N.of_nat (length union))) then
     Ok (existing, meta, union)) (λ '(existing, meta, union),
  store_labels env d target existing meta union).

Definition handle_labels_remove (env : UserEnv) (d : GDaemon) (current_user : option str) (target : str) (labels : list str)
  : UserOutcome (list str) :=
  checked_then d
    (try? ensure_self_and_handler current_user target then read_user_meta env d target) (λ '(existing, meta),
  store_labels env d target existing meta (List.filter (λ l, negb (bool_decide (l ∈ labels))) (btree_of (um_labels meta)))).

Definition handle_labels_list (env : UserEnv) (d : GDaemon) (target : str) : res (str * list str) UserError :=
  try? valid_handler target then
  try? known_user d target then
  let? '(_, meta) := read_user_meta env d target in
  Ok (target, um_labels meta).

Definition handle_agents_with_labels (d : GDaemon) (labels : list str) : list str :=
  if is_empty labels then [] else scan_active_for_labels d (g_users d) labels.

(** ** Projects *)

Definition valid_author (d : GDaemon) (author : str) : res unit UserError :=
  try? valid_handler author then
  try? not_departed d author then
  known_user d author.

Definition handle_create_project (env : UserEnv) (d : GDaemon) (slug display_name introduction author : str) : UserOutcome str :=
  checked_then d
    (try? valid_author d author then
     let? project_slug := map_err InvalidSlug (ProjectSlug_new slug) in
     let path := project_meta_path (project_slug_str project_slug) in
     try? guard_err (exists_path d path) (ProjectExists slug) then
     try? guard_err (negb (ue_mkdir_ok env path)) UserMkdir then
     let? yaml := ok_or (yaml_to_string (MkProjectMeta display_name author (ue_now env) introduction)) UserSerialize in
     try? map_err ProjectInvalid (validate_project_meta yaml) then
     Ok (project_slug_str project_slug, path, yaml)) (λ '(project_slug, path, yaml),
  if negb (ue_write_ok env path) then refuse d UserWrite
  else
    let '(r1, ok) := add_and_commit_as (ue_commit env) [path] (write_work path yaml (g_repo d)) in
    if negb ok then refuse (with_repo d (if ue_remove_ok env then delete_work path r1 else r1)) UserCommit
    else
      match push_with_retry (g_has_remote d) (ue_push env) r1 with
      | (r2, Err e) => refuse (with_repo d r2) (UserPush e)
      | (r2, Panicked) => (with_repo d r2, [], Panicked)
      | (r2, Ok _) => (with_repo d r2, [ProjectCreated project_slug], Ok project_slug)
      end).

Record ProjectEntry := MkProjectEntry { pe_slug : str; pe_meta : ProjectMeta; pe_channel_count : N }.

(** The channels of the active ones that name the project. *)
Definition channel_project (env : UserEnv) (d : GDaemon) (file : str) : option str :=
  if negb (ends_with file (lit ".meta.yaml")) then None
  else
    yaml ← read_to_str env d (under (lit "channels") file);
    meta ← yaml_from_str yaml;
    cm_project meta.

Definition handle_list_projects (env : UserEnv) (d : GDaemon) : res (list ProjectEntry) UserError :=
  if negb (exists_path d (lit "projects")) then Ok []
  else
    let? names := ok_or (ue_read_dir env (lit "projects")) UserReadDir in
    let slugs := sort_strings (omap (λ name,
      slug ← strip_suffix (lit ".meta.yaml") name;
      match ProjectSlug_new slug with Ok _ => Some slug | _ => None end) names) in
    let projects := if exists_path d (lit "channels")
                    then omap (channel_project env d) (unwrap_or (ue_read_dir env (lit "channels")) [])
                    else [] in
    Ok (omap (λ slug,
      yaml ← read_to_str env d (project_meta_path slug);
      meta ← yaml_from_str yaml;
      Some (MkProjectEntry slug meta (N.of_nat (length (List.filter (λ p, p =?? slug) projects))))) slugs).

Definition set_project (meta : ChannelMeta) (project : option str) : ChannelMeta :=
  MkChannelMeta (cm_display_name meta) (cm_created_by meta) (cm_created_at meta) (cm_introduction meta) (cm_members meta) project.

Definition check_project (env : UserEnv) (d : GDaemon) (project : option str) : res unit UserError :=
  match project with
  | None => Ok tt
  | Some p_slug =>
      let? validated_slug := map_err InvalidSlug (ProjectSlug_new p_slug) in
      let path := project_meta_path (project_slug_str validated_slug) in
      try? guard_err (negb (exists_path d path)) (ProjectNotFound p_slug) then
      let? p_yaml := ok_or (read_to_str env d path) UserRead in
      match validate_project_meta p_yaml with Ok _ => Ok tt | _ => Err (ProjectMetaCorrupted p_slug) end
  end.

(** What the handler reads, before it takes the lock: the channel, its metadata, and the new text. *)
Definition prepare_set_channel_project (env : UserEnv) (d : GDaemon) (channel : str) (project : option str) (author : str)
  : res (str * str * str) UserError :=
  try? valid_author d author then
  let? channel_name := map_err UserChannelName (ChannelName_new channel) in
  let c := channel_name_str channel_name in
  try? check_project env d project then
  try? guard_err (negb (exists_path d (channel_meta_path c)) && exists_path d (archived_channel_meta_path c))
         (UserChannelArchived channel) then
  try? guard_err (negb (exists_path d (channel_meta_path c))) (UserChannelMissing channel) then
  let? yaml := ok_or (read_to_str env d (channel_meta_path c)) UserRead in
  let? meta := ok_or (yaml_from_str yaml) UserParse in
  let? new_yaml := ok_or (yaml_to_string (set_project meta project)) UserSerialize in
  Ok (c, yaml, new_yaml).

(** What it does from there on. *)
Definition write_channel_project (env : UserEnv) (d : GDaemon) (c yaml new_yaml : str) (project : option str)
  : UserOutcome (str * option str) :=
  match write_or_restore env d (channel_meta_path c) yaml new_yaml with
  | (r, Err e) => refuse (with_repo d r) e
  | (r, Panicked) => (with_repo d r, [], Panicked)
  | (r, Ok _) =>
      match push_with_retry (g_has_remote d) (ue_push env) r with
      | (r', Err e) => refuse (with_repo d r') (UserPush e)
      | (r', Panicked) => (with_repo d r', [], Panicked)
      | (r', Ok _) => (with_repo d r', [ChannelProjectChanged c project], Ok (c, project))
      end
  end.

Definition handle_set_channel_project (env : UserEnv) (d : GDaemon) (channel : str) (project : option str) (author : str)
  : UserOutcome (str * option str) :=
  checked_then d (prepare_set_channel_project env d channel project author) (λ '(c, yaml, new_yaml),
  write_channel_project env d c yaml new_yaml project).

(** ** The moves as a whole *)

(** The index and the work tree agree below a path. *)
Definition agree_at (p : str) (r : Repo) : Prop := ∀ k, below p k = true → r_index r !! k = r_work r !! k.

(** A file or directory can be moved: nothing about it is unstaged, and its new place is free. *)
Record movable (from to : str) (r : Repo) : Prop := MkMovable {
  mo_apart : apart from to;
  mo_agree : agree_at from r;
  mo_work : path_exists (r_work r) to = false;
  mo_index : path_exists (r_index r) to = false;
}.

(** The undoing [git mv] succeeds when its source is there and its target is not. *)
Definition undo_mv_works (env : UserEnv) : Prop :=
  ∀ from to r, path_exists (r_index r) to = true → path_exists (r_work r) from = false →
    is_Some (git_mv (ue_rollback env to) to from r).

Lemma agree_moved from to r : movable from to r → agree_at to (moved from to r).
Proof.
  intros [Ha Hag Hw Hi] k [rest Hk]%below_true. apply strip_dir_Some in Hk as [-> Hr]. cbn.
  rewrite !lookup_move_to by done. apply Hag. apply below_true. exists rest. by apply strip_dir_app.
Qed.

Lemma agree_kept from to q r : apart q from → apart q to → agree_at q r → agree_at q (moved from to r).
Proof. intros Hf Ht Hq k Hk. cbn. rewrite !lookup_move_other; [by apply Hq|..]; by eapply apart_not_below. Qed.

Lemma movable_kept from to bf bt r :
  apart bf from → apart bf to → apart bt from → apart bt to → movable bf bt r → movable bf bt (moved from to r).
Proof.
  intros H1 H2 H3 H4 [Ha Hag Hw Hi]. split; [done|by apply agree_kept|cbn; by rewrite path_exists_move_other..].
Qed.

(** Staging what agrees changes nothing. *)
Lemma stage_agreed ps r : Forall (λ p, agree_at p r) ps → stage ps r = r.
Proof.
  intros H. unfold stage. destruct r as [w i hd]. cbn in *. f_equal. apply map_eq. intros k. rewrite lookup_sync_paths.
  destruct (in_paths ps k) eqn:Ek; [|done]. unfold in_paths in Ek. rewrite existsb_exists in Ek.
  destruct Ek as (p & Hp%list_elem_of_In & Hk). rewrite Forall_forall in H. symmetry. by apply (H p Hp).
Qed.

Lemma mv_moves g from to r r' :
  movable from to r → mv g from to r = (r', true) → r' = moved from to r ∧ path_exists (r_index r) from = true.
Proof.
  intros Hm Hr. split; [by apply (mv_spec _ _ _ _ _ Hr), (mo_work _ _ _ Hm)|].
  unfold mv in Hr. destruct (git_mv _ _ _ _) as [r1|] eqn:E; [|done]. by apply git_mv_moves in E as [? _].
Qed.

Lemma undo_move env from to r :
  undo_mv_works env → movable from to r → path_exists (r_index r) from = true →
  (mv (ue_rollback env to) to from (moved from to r)).1 = r.
Proof.
  intros Hu [Ha _ Hw Hi] Hsrc. assert (path_exists (r_work (moved from to r)) from = false) as Hf by by apply path_exists_moved.
  destruct (Hu from to (moved from to r)) as [r' Hr']; [by apply path_exists_move|done|].
  assert (mv (ue_rollback env to) to from (moved from to r) = (r', true)) as E by by unfold mv; rewrite Hr'.
  rewrite E. apply mv_spec in E; [|done]. rewrite E. unfold moved. cbn. rewrite !move_tree_back by done. by destruct r.
Qed.

(** What was moved and committed. *)
Definition committed (r : Repo) : Repo := MkRepo (r_work r) (r_index r) (r_index r).

Lemma commit_moves_spec env ms r :
  Forall (λ m : str * str, agree_at m.2 r) ms →
  commit_moves env ms r = (committed r, Ok tt) ∨ commit_moves env ms r = (undo_moves env ms r, Err UserCommit).
Proof.
  intros H. unfold commit_moves. destruct (add_and_commit_as _ _ r) as [r1 ok] eqn:E. apply add_and_commit_spec in E.
  rewrite (stage_agreed (map snd ms) r) in E by by apply Forall_map. destruct ok; [left; by subst|right].
  by destruct E as [-> | ->].
Qed.

(** The moves of a file and, where there is one, of the board along with it. *)
Definition with_board (from to : str) (board : option (str * str)) (r : Repo) : Repo :=
  let r1 := moved from to r in
  match board with
  | Some (bf, bt) => if path_exists (r_work r1) bf then moved bf bt r1 else r1
  | None => r1
  end.

(** The board is apart from the file, and can be moved. *)
Definition board_movable (from to : str) (board : option (str * str)) (r : Repo) : Prop :=
  ∀ bf bt, board = Some (bf, bt) → apart bf from ∧ apart bf to ∧ apart bt from ∧ apart bt to ∧ movable bf bt r.

Lemma move_with_board_spec env from to board r :
  undo_mv_works env → movable from to r → board_movable from to board r →
  match move_with_board env from to board r with
  | (r', Ok _) => r' = committed (with_board from to board r)
  | (r', Err _) => r' = r
  | (_, Panicked) => False
  end.
Proof.
  intros Hu Hm Hb. unfold move_with_board. destruct (mv _ from to r) as [r1 [|]] eqn:E; cbn [negb]; [|by apply mv_fail in E].
  apply mv_moves in E as [-> Hsrc]; [|done]. pose proof (undo_move _ _ _ _ Hu Hm Hsrc) as Hback.
  assert (Forall (λ m : str * str, agree_at m.2 (moved from to r)) [(from, to)]) as Hag
    by (repeat constructor; by apply agree_moved).
  unfold with_board. destruct board as [[bf bt]|].
  2: { destruct (commit_moves_spec env [(from, to)] (moved from to r) Hag) as [-> | ->]; done. }
  destruct (Hb bf bt eq_refl) as (H1 & H2 & H3 & H4 & Hbm).
  destruct (path_exists (r_work (moved from to r)) bf) eqn:Ebf; cbn [negb].
  2: { destruct (commit_moves_spec env [(from, to)] (moved from to r) Hag) as [-> | ->]; done. }
  destruct (ue_mkdir_ok env bt); cbn [negb]; [|done].
  apply (movable_kept from to) in Hbm; [|done..].
  destruct (mv _ bf bt _) as [r2 [|]] eqn:E2; cbn [negb]; [|by apply mv_fail in E2 as ->].
  apply mv_moves in E2 as [-> Hsrc2]; [|done].
  assert (Forall (λ m : str * str, agree_at m.2 (moved bf bt (moved from to r))) [(from, to); (bf, bt)]) as Hag2.
  { repeat constructor; cbn [snd]; [|by apply agree_moved]. apply agree_kept; [by symmetry..|by apply agree_moved]. }
  destruct (commit_moves_spec env _ _ Hag2) as [-> | ->]; [done|].
  unfold undo_moves. cbn. by rewrite (undo_move _ _ _ _ Hu Hbm Hsrc2).
Qed.

(** *** The places of a user *)

Lemma user_archived_apart h h' : apart (user_meta_path h) (archived_user_meta_path h').
Proof. by apply apart_head. Qed.
Lemma board_archived_apart h h' : apart (board_path h) (archived_board_path h').
Proof. by apply apart_head. Qed.
Lemma user_board_apart h h' : apart (user_meta_path h) (board_path h').
Proof. by apply apart_head. Qed.
Lemma user_archived_board_apart h h' : apart (user_meta_path h) (archived_board_path h').
Proof. by apply apart_head. Qed.
Lemma archived_user_board_apart h h' : apart (archived_user_meta_path h) (board_path h').
Proof. by apply apart_head. Qed.
Lemma archived_user_archived_board_apart h h' : apart (archived_user_meta_path h) (archived_board_path h').
Proof. apply (apart_prefix (lit "archive/")). by apply apart_head. Qed.

Lemma user_moves_apart h :
  apart_moves (user_meta_path h, archived_user_meta_path h) (board_path h, archived_board_path h).
Proof.
  split_and!; [apply user_board_apart|apply user_archived_board_apart|apply archived_user_board_apart|apply archived_user_archived_board_apart].
Qed.

(** A file, and the board where there is one, moved in a tree. *)
Definition move_both (m n : str * str) (t : tree) : tree :=
  let t1 := move_tree m.1 m.2 t in if path_exists t1 n.1 then move_tree n.1 n.2 t1 else t1.

Definition archive_user_at (handler : str) : tree → tree :=
  move_both (user_meta_path handler, archived_user_meta_path handler) (board_path handler, archived_board_path handler).

Lemma move_both_back m n (t : tree) :
  apart m.1 m.2 → apart n.1 n.2 → apart_moves m n → path_exists t m.2 = false → path_exists t n.2 = false →
  move_both (m.2, m.1) (n.2, n.1) (move_both m n t) = t.
Proof.
  intros Hm Hn Ha Hfm Hfn. pose proof Ha as (H1 & H2 & H3 & H4). unfold move_both. cbn [fst snd].
  assert (path_exists (move_tree m.1 m.2 t) n.1 = path_exists t n.1) as -> by (apply path_exists_move_other; by symmetry).
  destruct (path_exists t n.1) eqn:Eb.
  - assert (move_tree m.2 m.1 (move_tree n.1 n.2 (move_tree m.1 m.2 t)) = move_tree n.1 n.2 t) as ->.
    { rewrite (move_tree_comm (m.2, m.1) n); cbn [fst snd]; [by rewrite move_tree_back|by symmetry|done| | |].
      - by split_and!.
      - by apply path_exists_moved.
      - rewrite path_exists_move_other; [done|by symmetry..]. }
    rewrite path_exists_move by done. by apply move_tree_back.
  - rewrite move_tree_back by done. by rewrite Hfn.
Qed.

Lemma with_board_clean m n t hd :
  with_board m.1 m.2 (Some n) (MkRepo t t hd) = MkRepo (move_both m n t) (move_both m n t) hd.
Proof. unfold with_board, move_both, moved. destruct n as [bf bt]. cbn. by destruct (path_exists _ bf). Qed.

(** *** The handlers *)

Definition no_user_conflict (env : UserEnv) : Prop := ∀ n r, git_push (pe_push (ue_push env n)) r ≠ PushConflict.

Lemma run_move_spec {A} env d from to board users event (payload : A) :
  undo_mv_works env → no_user_conflict env → movable from to (g_repo d) → board_movable from to board (g_repo d) →
  let r := committed (with_board from to board (g_repo d)) in
  let o := run_move env d from to board users event payload in
  (∃ e, o = refuse d e)
  ∨ o = (with_users (with_repo d r) (users (g_users d)), [event], Ok payload)
  ∨ ∃ e, o = refuse (with_repo d r) (UserPush e).
Proof.
  intros Hu Hp Hm Hb. cbv zeta. unfold run_move. pose proof (move_with_board_spec env from to board (g_repo d) Hu Hm Hb) as H.
  destruct (move_with_board _ _ _ _ _) as [r [[]|e|]]; [subst r|subst r; left; exists e; by destruct d|done].
  right. pose proof (push_no_conflict (g_has_remote d) (ue_push env) (committed (with_board from to board (g_repo d))) Hp) as Hr.
  pose proof (push_with_retry_no_panic (g_has_remote d) (ue_push env) (committed (with_board from to board (g_repo d)))) as Hnp.
  destruct (push_with_retry _ _ _) as [r [[]|e|]]; cbn in Hr; subst r; [by left|right; by exists e|done].
Qed.

Lemma user_board_movable m n r : apart_moves m n → movable n.1 n.2 r → board_movable m.1 m.2 (Some n) r.
Proof. intros (H1 & H2 & H3 & H4) Hn bf bt [= ->]. cbn in *. split_and!; [by symmetry..|done]. Qed.

(** *** The checks *)

Lemma known_user_Ok d h : known_user d h = Ok tt → h ∈ g_users d.
Proof. unfold known_user, guard_err. case_bool_decide; done. Qed.

Lemma prepare_archive_user_no_panic env d handler author : no_panic (prepare_archive_user env d handler author).
Proof.
  pose proof Handler_new_no_panic.
  unfold prepare_archive_user, valid_handler, not_departed, known_user, ensure_author_not_departed. solve_no_panic.
Qed.

Lemma prepare_archive_user_Ok env d handler author :
  prepare_archive_user env d handler author = Ok tt →
  author ∈ g_users d ∧ not_departed d author = Ok tt ∧ exists_path d (user_meta_path handler) = true.
Proof.
  unfold prepare_archive_user. intros (h & Hh & ([] & Hd & ([] & Hk & ([] & _ & ([] & Hu & _)%res_bind_Ok)%res_bind_Ok)%res_bind_Ok)%res_bind_Ok)%res_bind_Ok.
  split_and!; [by apply known_user_Ok|done|]. unfold guard_err in Hu. by destruct (exists_path d (user_meta_path handler)).
Qed.

(** Archiving a user is all or nothing.  With nothing unstaged at the user's places,
    free places in the archive, undoing moves that work, and no conflict on the way to the
    remote, the request is refused with the clone, the list of users and the listeners
    untouched, or the author is a known user who has not departed himself and the record
    has moved, together with the board where there is one, in one commit.  Then either the
    user leaves the list and the listeners hear of it, or only the push has failed: the
    clone holds the commit, and the list still names the user. *)
Theorem archive_user_all_or_nothing (env : UserEnv) (d : GDaemon) (handler author : str)
    (Hundo : undo_mv_works env) (Hpush : no_user_conflict env)
    (Hfile : movable (user_meta_path handler) (archived_user_meta_path handler) (g_repo d))
    (Hboard : movable (board_path handler) (archived_board_path handler) (g_repo d)) :
  let r := committed (with_board (user_meta_path handler) (archived_user_meta_path handler)
                        (Some (board_path handler, archived_board_path handler)) (g_repo d)) in
  let o := handle_archive_user env d handler author in
  (∃ e, o = refuse d e)
  ∨ (author ∈ g_users d ∧ not_departed d author = Ok tt ∧ exists_path d (user_meta_path handler) = true
     ∧ (o = (with_users (with_repo d r) (drop_user handler (g_users d)),
             [UserArchived handler author (ue_now env)], Ok (handler, author))
        ∨ ∃ e, o = refuse (with_repo d r) (UserPush e))).
Proof.
  cbv zeta. unfold handle_archive_user. pose proof (prepare_archive_user_no_panic env d handler author) as Hnp.
  destruct (prepare_archive_user env d handler author) as [[]|e|] eqn:E; cbn [checked_then]; [|left; by exists e|done].
  apply prepare_archive_user_Ok in E as (Hk & Hd & Hu).
  destruct (run_move_spec env d (user_meta_path handler) (archived_user_meta_path handler)
              (Some (board_path handler, archived_board_path handler)) (drop_user handler)
              (UserArchived handler author (ue_now env)) (handler, author) Hundo Hpush Hfile) as [H|H]; [|by left|by right].
  exact (user_board_movable (_, _) (_, _) _ (user_moves_apart handler) Hboard).
Qed.

(** *** There and back *)

Lemma movable_clean from to t hd : apart from to → path_exists t to = false → movable from to (MkRepo t t hd).
Proof. intros Ha Ht. by split. Qed.

Lemma move_both_free m n (t : tree) : apart m.1 m.2 → apart n.1 n.2 → apart_moves m n →
  path_exists (move_both m n t) m.1 = false ∧ path_exists (move_both m n t) n.1 = false.
Proof.
  intros Hm Hn (H1 & H2 & H3 & H4). unfold move_both. destruct (path_exists (move_tree m.1 m.2 t) n.1) eqn:E.
  - split; [|by apply path_exists_moved]. rewrite path_exists_move_other by done. by apply path_exists_moved.
  - split; [by apply path_exists_moved|done].
Qed.

Lemma run_move_Ok {A} env d m n users event (payload p : A) t d' evs :
  undo_mv_works env → no_user_conflict env → g_repo d = MkRepo t t t →
  apart m.1 m.2 → apart n.1 n.2 → apart_moves m n → path_exists t m.2 = false → path_exists t n.2 = false →
  run_move env d m.1 m.2 (Some n) users event payload = (d', evs, Ok p) →
  g_repo d' = (let t' := move_both m n t in MkRepo t' t' t') ∧ g_users d' = users (g_users d).
Proof.
  intros Hu Hp Hd Hm Hn Ha Hfm Hfn Hrun.
  destruct (run_move_spec env d m.1 m.2 (Some n) users event payload Hu Hp) as [[e H]|[H|[e H]]];
    [rewrite Hd; by apply movable_clean| | | |].
  - rewrite Hd. apply user_board_movable; [done|by apply movable_clean].
  - by rewrite H in Hrun.
  - rewrite H in Hrun. pose proof (f_equal (λ o, o.1.1) Hrun) as Ed. cbn [fst] in Ed. subst d'.
    cbn [with_users with_repo g_repo g_users]. rewrite Hd, with_board_clean. done.
  - by rewrite H in Hrun.
Qed.

Lemma archived_not_there env d handler author :
  prepare_archive_user env d handler author = Ok tt → exists_path d (archived_user_meta_path handler) = false.
Proof.
  unfold prepare_archive_user. intros (h & _ & ([] & _ & ([] & _ & ([] & H & _)%res_bind_Ok)%res_bind_Ok)%res_bind_Ok)%res_bind_Ok.
  unfold guard_err in H. by destruct (exists_path d _).
Qed.

Lemma drop_add_user h users : NoDup users → h ∈ users → add_user h (drop_user h users) ≡ₚ users.
Proof.
  intros Hnd Hin. unfold add_user, drop_user. rewrite bool_decide_false.
  - unfold sort_strings. rewrite sort_by_key_perm. induction Hnd as [|u l Hu Hnd IH]; [by apply elem_of_nil in Hin|]. cbn.
    case_bool_decide as Heq; cbn [negb].
    + subst u. rewrite <-Permutation_cons_append. f_equiv. clear -Hu. induction l as [|v l IH]; [done|]. cbn.
      apply not_elem_of_cons in Hu as [Hne Hu]. rewrite bool_decide_false by congruence. cbn. f_equiv. by apply IH.
    + cbn. f_equiv. apply IH. by apply elem_of_cons in Hin as [->|?].
  - rewrite list_elem_of_In, filter_In. intros [_ H]. by rewrite bool_decide_true in H.
Qed.

(** Taking a user out of the archive undoes archiving him.  From a clean clone whose
    archive has no board of his, a successful archiving followed by a successful restoring
    gives back the clone as it was, the board included, and the list of users up to order. *)
Theorem user_archive_roundtrip (env1 env2 : UserEnv) (d d1 d2 : GDaemon) (handler author author' : str) (t : tree) evs1 evs2 p1 p2
    (Hclean : g_repo d = MkRepo t t t) (Hboard : path_exists t (archived_board_path handler) = false)
    (Hundo1 : undo_mv_works env1) (Hundo2 : undo_mv_works env2) (Hpush1 : no_user_conflict env1) (Hpush2 : no_user_conflict env2)
    (Harch : handle_archive_user env1 d handler author = (d1, evs1, Ok p1))
    (Hback : handle_unarchive_user env2 d1 handler author' = (d2, evs2, Ok p2)) :
  g_repo d2 = g_repo d ∧ (NoDup (g_users d) → handler ∈ g_users d → g_users d2 ≡ₚ g_users d).
Proof.
  pose proof (user_moves_apart handler) as Ha. pose proof (user_archived_apart handler handler) as Hua.
  pose proof (board_archived_apart handler handler) as Hba.
  set (m := (user_meta_path handler, archived_user_meta_path handler)) in *.
  set (n := (board_path handler, archived_board_path handler)) in *.
  unfold handle_archive_user in Harch. destruct (prepare_archive_user env1 d handler author) as [[]| |] eqn:E; [|done|done].
  apply archived_not_there in E. unfold exists_path in E. rewrite Hclean in E.
  apply (run_move_Ok _ _ m n _ _ _ _ t) in Harch as [Hr1 Hu1]; [|done..]. cbv zeta in Hr1.
  unfold handle_unarchive_user in Hback. destruct (prepare_unarchive_user env2 d1 handler author') as [[]| |]; [|done|done].
  destruct (move_both_free m n t Hua Hba Ha) as [Hf1 Hf2]. pose proof Ha as (H1 & H2 & H3 & H4).
  apply (run_move_Ok _ _ (m.2, m.1) (n.2, n.1) _ _ _ _ (move_both m n t)) in Hback as [Hr2 Hu2];
    [|done|done|done|by symmetry|by symmetry|by split_and!|done|done]. cbv zeta in Hr2.
  rewrite (move_both_back m n t Hua Hba Ha E Hboard) in Hr2. rewrite Hr2, Hclean. split; [done|].
  intros Hnd Hin. rewrite Hu2, Hu1. by apply drop_add_user.
Qed.

(** ** Labels *)

(** The record of a user, with labels that are just the wanted ones; nothing else differs. *)
Definition labels_edited (d d' : GDaemon) (target : str) (ls : list str) (wanted : UserMeta → str → Prop) : Prop :=
  ∃ text meta text' meta',
    r_work (g_repo d) !! user_meta_path target = Some text ∧ yaml_from_str text = Some meta
    ∧ r_work (g_repo d') !! user_meta_path target = Some text' ∧ yaml_from_str text' = Some meta'
    ∧ meta' = set_labels ls meta ∧ (∀ l, l ∈ ls ↔ wanted meta l)
    ∧ (∀ k, k ≠ user_meta_path target → r_work (g_repo d') !! k = r_work (g_repo d) !! k) ∧ g_users d' = g_users d.

Lemma elem_of_btree_fold l acc x : x ∈ fold_left (λ s x, btree_insert x s) l acc ↔ x ∈ l ∨ x ∈ acc.
Proof.
  revert acc. induction l as [|y l IH]; intros acc; cbn.
  - split; [by right|]. intros [H|H]; [by apply elem_of_nil in H|done].
  - rewrite IH, btree_insert_elem, elem_of_cons. tauto.
Qed.

Lemma elem_of_btree_of l x : x ∈ btree_of l ↔ x ∈ l.
Proof. unfold btree_of. rewrite elem_of_btree_fold, elem_of_nil. tauto. Qed.

Lemma set_labels_id meta : set_labels (um_labels meta) meta = meta.
Proof. by destruct meta. Qed.

Lemma write_or_restore_Ok env d path old new r :
  write_or_restore env d path old new = (r, Ok tt) → r_work r = <[path := new]> (r_work (g_repo d)).
Proof.
  unfold write_or_restore. destruct (ue_write_ok env path); cbn [negb]; [|done].
  destruct (add_and_commit_as _ _ _) as [r1 [|]] eqn:E; [|done]. intros [= <-]. by apply add_and_commit_spec in E as ->.
Qed.

Lemma read_user_meta_Ok env d target existing meta :
  read_user_meta env d target = Ok (existing, meta) →
  r_work (g_repo d) !! user_meta_path target = Some existing ∧ yaml_from_str existing = Some meta.
Proof.
  unfold read_user_meta, read_to_str. destruct (ue_read_ok env _); [|done].
  destruct (r_work (g_repo d) !! _) as [y|]; [|done]. cbn. destruct (yaml_from_str y) as [m|] eqn:E; [|done]. by intros [= <- <-].
Qed.

Lemma store_labels_Ok env d target existing meta labels d' evs ls :
  no_user_conflict env → r_work (g_repo d) !! user_meta_path target = Some existing → yaml_from_str existing = Some meta →
  store_labels env d target existing meta labels = (d', evs, Ok ls) →
  labels_edited d d' target ls (λ _ l, l ∈ labels).
Proof.
  intros Hp Ht Hm. unfold store_labels. case_bool_decide as Heq.
  - intros [= <- <- <-]. exists existing, meta, existing, meta. rewrite set_labels_id. split_and!; try done.
    intros l. by rewrite Heq, elem_of_btree_of.
  - destruct (meta_validate_user_meta _) as [[]| |]; cbn; [|done|done]. destruct (yaml_to_string _) as [y|] eqn:Ey; cbn; [|done].
    destruct (write_or_restore _ _ _ _ _) as [r [[]| |]] eqn:Ew; [|done|done]. apply write_or_restore_Ok in Ew.
    pose proof (push_no_conflict (g_has_remote d) (ue_push env) r Hp) as Hr.
    destruct (push_with_retry _ _ r) as [r' [[]| |]]; [|done|done]. cbn in Hr. subst r'. intros [= <- <- <-].
    exists existing, meta, y, (set_labels labels meta). cbn. rewrite Ew, lookup_insert_eq. split_and!; try done; [by apply yaml_roundtrip|].
    intros k Hk. by rewrite lookup_insert_ne.
Qed.

Lemma labels_edited_ext d d' target ls (P Q : UserMeta → str → Prop) :
  (∀ text meta, r_work (g_repo d) !! user_meta_path target = Some text → yaml_from_str text = Some meta → ∀ l, P meta l ↔ Q meta l) →
  labels_edited d d' target ls P → labels_edited d d' target ls Q.
Proof.
  intros H (text & meta & text' & meta' & Ht & Hm & Ht' & Hm' & Hs & Hl & Hrest). exists text, meta, text', meta'.
  split_and!; try done; [|apply Hrest..]. intros l. rewrite Hl. by eapply H.
Qed.

Lemma ensure_self_Ok me target : ensure_self_and_handler me target = Ok tt → me = Some target.
Proof.
  unfold ensure_self_and_handler. intros (h & _ & H)%res_bind_Ok. destruct me as [me|]; [|done]. destruct (is_empty me); [done|].
  unfold guard_err in H. case_bool_decide; [by subst|done].
Qed.

(** The labels a user claims are exactly those asked for.  Adding and removing labels
    works only on one's own record; when it succeeds, the answer is the labels the record
    now has: those it had and the new ones, or those it had but the removed ones.  The
    other fields of the record, every other file and the list of users are the same. *)
Theorem labels_edits_exact (env : UserEnv) (d d' : GDaemon) (me : option str) (target : str) (labels : list str) evs ls
    (Hpush : no_user_conflict env) :
  (handle_labels_add env d me target labels = (d', evs, Ok ls) →
     me = Some target ∧ labels_edited d d' target ls (λ meta l, l ∈ um_labels meta ∨ l ∈ labels))
  ∧ (handle_labels_remove env d me target labels = (d', evs, Ok ls) →
     me = Some target ∧ labels_edited d d' target ls (λ meta l, l ∈ um_labels meta ∧ l ∉ labels)).
Proof.
  split.
  - unfold handle_labels_add, checked_then. destruct (res_bind _ _) as [[[existing meta] union]| |] eqn:E; [|done|done].
    apply res_bind_Ok in E as ([] & Hme%ensure_self_Ok & ([] & _ & ((y, m) & [Ht Hm]%read_user_meta_Ok & ([] & _ & [= -> -> <-])%res_bind_Ok)%res_bind_Ok)%res_bind_Ok).
    intros H%store_labels_Ok; [|done..]. split; [done|]. eapply labels_edited_ext; [|exact H]. intros text' meta' Ht' Hm' l. cbn.
    simplify_eq. rewrite elem_of_btree_fold, !elem_of_btree_of. tauto.
  - unfold handle_labels_remove, checked_then. destruct (res_bind _ _) as [[existing meta]| |] eqn:E; [|done|done].
    apply res_bind_Ok in E as ([] & Hme%ensure_self_Ok & [Ht Hm]%read_user_meta_Ok).
    intros H%store_labels_Ok; [|done..]. split; [done|]. eapply labels_edited_ext; [|exact H]. intros text' meta' Ht' Hm' l. cbn.
    simplify_eq. rewrite list_elem_of_In, filter_In, <-list_elem_of_In, elem_of_btree_of. case_bool_decide; naive_solver.
Qed.

(** ** Projects *)

Lemma check_project_Some env d slug :
  check_project env d (Some slug) = Ok tt →
  ∃ text, r_work (g_repo d) !! project_meta_path slug = Some text ∧ is_ok (validate_project_meta text) = true.
Proof.
  unfold check_project. intros (v & Hv & ([] & _ & (text & Ht & H)%res_bind_Ok)%res_bind_Ok)%res_bind_Ok.
  assert (project_slug_str v = slug) as Hs.
  { destruct (ProjectSlug_new slug) as [w| |] eqn:E; [|done|done]. injection Hv as ->. by apply ProjectSlug_new_iff in E as (-> & _). }
  rewrite Hs in Ht. unfold read_to_str in Ht. destruct (ue_read_ok env _); [|done]. exists text.
  split; [by destruct (r_work (g_repo d) !! _); simplify_eq/=|]. by destruct (validate_project_meta text).
Qed.

(** Setting the project of a channel sets just that: the project is there and readable, the
    channel's record is the old one with the new project, and no other file has changed. *)
Theorem project_assignment_exact (env : UserEnv) (d d' : GDaemon) (channel author : str) (project : option str) evs c p
    (Hpush : no_user_conflict env)
    (Hrun : handle_set_channel_project env d channel project author = (d', evs, Ok (c, p))) :
  author ∈ g_users d ∧ evs = [ChannelProjectChanged c project]
  ∧ (∀ slug, project = Some slug →
       ∃ text, r_work (g_repo d) !! project_meta_path slug = Some text ∧ is_ok (validate_project_meta text) = true)
  ∧ (∃ y m y', r_work (g_repo d) !! channel_meta_path c = Some y ∧ yaml_from_str y = Some m
       ∧ r_work (g_repo d') !! channel_meta_path c = Some y' ∧ yaml_from_str y' = Some (set_project m project))
  ∧ ∀ k, k ≠ channel_meta_path c → r_work (g_repo d') !! k = r_work (g_repo d) !! k.
Proof.
  unfold handle_set_channel_project in Hrun.
  destruct (prepare_set_channel_project env d channel project author) as [[[c' yaml] new]| |] eqn:E; [|done|done]. cbn in Hrun.
  unfold write_channel_project in Hrun. destruct (write_or_restore _ _ _ _ _) as [r [[]| |]] eqn:Ew; [|done|done].
  pose proof (push_no_conflict (g_has_remote d) (ue_push env) r Hpush) as Hr.
  destruct (push_with_retry _ _ r) as [r' [[]| |]]; [|done|done]. cbn in Hr. subst r'. injection Hrun as <- <- <- <-.
  apply write_or_restore_Ok in Ew. cbn. rewrite Ew.
  apply res_bind_Ok in E as ([] & Hau & (cn & _ & ([] & Hpr & ([] & _ & ([] & _ & (y & Hy & (m & Hm & (ny & Hny & [= <- <- <-])%res_bind_Ok)%res_bind_Ok)%res_bind_Ok)%res_bind_Ok)%res_bind_Ok)%res_bind_Ok)%res_bind_Ok).
  unfold valid_author in Hau. apply res_bind_Ok in Hau as (h & _ & ([] & _ & Hk)%res_bind_Ok).
  split_and!; [by apply known_user_Ok|done| | |intros k Hne; by rewrite lookup_insert_ne].
  - intros slug ->. by eapply check_project_Some.
  - unfold read_to_str in Hy. destruct (ue_read_ok env _); [|done]. destruct (r_work (g_repo d) !! _) as [y0|] eqn:Ey; [|done].
    injection Hy as ->. destruct (yaml_from_str y) as [m0|] eqn:Em; [|done]. injection Hm as ->.
    destruct (yaml_to_string _) as [y'|] eqn:Ey'; [|done]. injection Hny as ->.
    exists y, m, ny. rewrite lookup_insert_eq. split_and!; [done..|by apply yaml_roundtrip].
Qed.

End users.

(** ** Runs *)

Section runs.
#[local] Existing Instance ascii_unicode.
#[local] Existing Instance user_meta_yaml.
#[local] Existing Instance plain_git.

Definition user_env (commit_env : PlainEnv) : UserEnv :=
  MkUserEnv (lit "20260101T000000Z") (λ _, true) (λ _, true) (λ _, true) true true (λ _, works) (λ _, works)
    (works, commit_env) (λ _, MkPushEnv works works works) (λ _, None).

Definition bob_meta : UserMeta := MkUserMeta (lit "Bob") (lit "dev") [] [lit "rust"] KindAgent.
Definition bob_tree : tree :=
  list_to_map [(user_meta_path (lit "bob"), unwrap_or (yaml_to_string bob_meta) []); (board_path (lit "bob"), lit "# Board")].
Definition bob_daemon : GDaemon := MkGDaemon (MkRepo bob_tree bob_tree bob_tree) sample_users [] true.

Lemma user_env_undo commit_env : undo_mv_works (user_env commit_env).
Proof. intros from to r Hto Hfrom. simpl. unfold plain_mv. rewrite Hto, Hfrom. by eexists. Qed.

Lemma user_env_push commit_env : no_user_conflict (user_env commit_env).
Proof. intros n r. done. Qed.

Lemma bob_movable :
  movable (user_meta_path (lit "bob")) (archived_user_meta_path (lit "bob")) (g_repo bob_daemon)
  ∧ movable (board_path (lit "bob")) (archived_board_path (lit "bob")) (g_repo bob_daemon).
Proof. split; apply movable_clean; [apply user_archived_apart|by vm_compute|apply board_archived_apart|by vm_compute]. Qed.

Definition failed_user_archive := handle_archive_user (user_env breaks) bob_daemon (lit "bob") (lit "alice").

Lemma failed_user_archive_answer : failed_user_archive.2 = Err UserCommit.
Proof. by vm_compute. Qed.

Lemma archive_user_all_or_nothing_witness : failed_user_archive = refuse bob_daemon UserCommit.
Proof.
  pose proof failed_user_archive_answer as Ha.
  destruct (archive_user_all_or_nothing (user_env breaks) bob_daemon (lit "bob") (lit "alice")
              (user_env_undo _) (user_env_push _) (proj1 bob_movable) (proj2 bob_movable)) as [[e H]|(_ & _ & _ & [H|[e H]])];
    fold failed_user_archive in H; rewrite H in Ha |- *; [|discriminate Ha..]. injection Ha as ->. reflexivity.
Defined.

Lemma outcome_ok {A} (o : UserOutcome A) a : o.2 = Ok a → o = (o.1.1, o.1.2, Ok a).
Proof. by destruct o as [[? ?] ?]; cbn; intros ->. Qed.

Definition bob_archived := handle_archive_user (user_env works) bob_daemon (lit "bob") (lit "alice").
Definition bob_restored := handle_unarchive_user (user_env works) bob_archived.1.1 (lit "bob") (lit "alice").

Lemma bob_archived_ok : bob_archived = (bob_archived.1.1, bob_archived.1.2, Ok (lit "bob", lit "alice")).
Proof. apply outcome_ok. by vm_compute. Qed.
Lemma bob_restored_ok : bob_restored = (bob_restored.1.1, bob_restored.1.2, Ok (lit "bob", lit "alice")).
Proof. apply outcome_ok. by vm_compute. Qed.
Lemma bob_board_free : path_exists bob_tree (archived_board_path (lit "bob")) = false.
Proof. by vm_compute. Qed.

Lemma user_archive_roundtrip_witness : g_repo bob_restored.1.1 = g_repo bob_daemon.
Proof.
  exact (proj1 (user_archive_roundtrip (user_env works) (user_env works) bob_daemon bob_archived.1.1 bob_restored.1.1
           (lit "bob") (lit "alice") (lit "alice") bob_tree _ _ _ _ eq_refl bob_board_free
           (user_env_undo _) (user_env_undo _) (user_env_push _) (user_env_push _) bob_archived_ok bob_restored_ok)).
Defined.

Definition bob_labelled := handle_labels_add (user_env works) bob_daemon (Some (lit "bob")) (lit "bob") [lit "ops"; lit "ops"].

Lemma bob_labelled_ok : bob_labelled = (bob_labelled.1.1, bob_labelled.1.2, Ok [lit "ops"; lit "rust"]).
Proof. apply outcome_ok. by vm_compute. Qed.

Lemma labels_edits_exact_witness :
  labels_edited bob_daemon bob_labelled.1.1 (lit "bob") [lit "ops"; lit "rust"]
    (λ meta l, l ∈ um_labels meta ∨ l ∈ [lit "ops"; lit "ops"]).
Proof.
  exact (proj2 (proj1 (labels_edits_exact (user_env works) bob_daemon bob_labelled.1.1 (Some (lit "bob")) (lit "bob")
           [lit "ops"; lit "ops"] bob_labelled.1.2 _ (user_env_push _)) bob_labelled_ok)).
Defined.

(** An update whose commit failed is reported as done the next time, and still not committed. *)
Definition renamed (g : PlainEnv) (d : GDaemon) := handle_update_user (user_env g) d (lit "bob") (Some (lit "Robert")) None.

Example failed_update_then_success :
  let first := renamed breaks bob_daemon in
  let second := renamed works first.1.1 in
  first.2 = Err UserCommit ∧ second.2 = Ok (lit "bob", true)
  ∧ bool_decide (r_head (g_repo second.1.1) = r_head (g_repo bob_daemon)) = true
  ∧ bool_decide (r_work (g_repo second.1.1) = r_work (g_repo bob_daemon)) = false.
Proof. by vm_compute. Qed.

(** A registration whose commit failed leaves the record in the index: the next commit,
    here of another user's update, publishes it, though the file is gone from the work tree. *)
Example failed_registration_published :
  let first := handle_register_user (user_env breaks) bob_daemon (lit "dora") (lit "Dora") [] [] KindHuman in
  let second := renamed works first.1.1 in
  first.2 = Err UserCommit ∧ second.2 = Ok (lit "bob", true)
  ∧ is_some (r_head (g_repo second.1.1) !! user_meta_path (lit "dora")) = true
  ∧ is_some (r_work (g_repo second.1.1) !! user_meta_path (lit "dora")) = false.
Proof. by vm_compute. Qed.

(** The handler reads the channel before it takes the lock: who joined in between is lost. *)
#[local] Existing Instance channel_meta_yaml.
Definition project_meta_yaml : Yaml ProjectMeta.
Proof.
  refine (fields_yaml (λ m, [[pm_display_name m]; [pm_created_by m]; [pm_created_at m]; [pm_introduction m]])
            (λ fs, match fs with [[a]; [b]; [c]; [d]] => Some (MkProjectMeta a b c d) | _ => None end) _).
  by intros [a b c d].
Defined.
#[local] Existing Instance project_meta_yaml.

Definition members_tree (members : list str) : tree :=
  let meta := MkChannelMeta ops (lit "alice") (lit "20260101T000000Z") [] members None in
  {[channel_meta_path ops := unwrap_or (yaml_to_string meta) []]}.
Definition members_daemon (members : list str) : GDaemon :=
  let t := members_tree members in MkGDaemon (MkRepo t t t) sample_users [] true.
Definition members_of (d : GDaemon) : option (list str) :=
  y ← r_work (g_repo d) !! channel_meta_path ops; m ← yaml_from_str y; Some (cm_members m).

Example join_lost_by_project_change :
  let before := members_daemon [lit "alice"] in
  let joined := members_daemon [lit "alice"; lit "bob"] in
  match prepare_set_channel_project (user_env works) before ops None (lit "alice") with
  | Ok (c, yaml, new_yaml) =>
      members_of joined = Some [lit "alice"; lit "bob"]
      ∧ members_of (write_channel_project (user_env works) joined c yaml new_yaml None).1.1 = Some [lit "alice"]
  | _ => False
  end.
Proof. by vm_compute. Qed.

End runs.
