(* ===== verification/Depart.v ===== *)
(** * The departure of a user

    [handle_depart_user] ([gitim-daemon/src/handlers/depart.rs]): a departing user leaves an
    event in every thread he wrote in, his direct messages go to the archive, he is taken
    out of the member lists, and at last his own record goes to the archive, each step in a
    commit of its own.  A step that fails stops the departure; asking again goes on from
    there.

    The handler is modelled step by step over the clone's three trees.  [departed] says on
    one tree what a departure is; a successful run does just that to the work tree. *)

From S2P Require Import Prelude RustStr StrFacts Names QuickSession Asset Links Thread Compliance Meta Git Daemon Cards Users.
From stdpp Require Import options.
Open Scope N_scope.
Open Scope list_scope.

(** ** Steps *)

Definition Step (A : Type) : Type := GDaemon → GDaemon * res A UserError.

Definition give {A} (a : A) : Step A := λ d, (d, Ok a).
Definition then_ {A B} (m : Step A) (k : A → Step B) : Step B := λ d,
  match m d with
  | (d', Ok a) => k a d'
  | (d', Err e) => (d', Err e)
  | (d', Panicked) => (d', Panicked)
  end.

Declare Scope step_scope.
Delimit Scope step_scope with step.
Notation "'do!' x := m 'in' k" := (then_ m (λ x, k)) (at level 10, x name, m at level 100, k at level 200) : step_scope.
Open Scope step_scope.

(** The steps of a loop that may commit, and how many did. *)
Fixpoint count_commits {A} (l : list A) (body : A → Step bool) : Step N :=
  match l with
  | [] => give 0
  | x :: l' =>
      do! committed := body x in
      do! n := count_commits l' body in
      give (if committed then n + 1 else n)
  end.

Section depart.
Context `{UC : !Unicode} `{PE : !PercentEncoding} `{SJ : !SerdeJson}.
Context `{YU : !Yaml UserMeta} `{YC : !Yaml ChannelMeta} `{YP : !Yaml ProjectMeta} `{GI : !Git}.

(** The answers of the environment: the directories, in whatever order, and the step about
    each path, with the second read of its file. *)
Record DepartEnv := MkDepartEnv {
  de_dir_ok : str → bool;
  de_order : list str → list str;
  de_step : str → UserEnv;
  de_reread_ok : str → bool;
  de_resync : nat → PushEnv;
}.

(** [read_dir] with [flatten] over its entries; a directory that cannot be read is empty. *)
Definition dir_names (env : DepartEnv) (dir : str) (d : GDaemon) : list str :=
  if de_dir_ok env dir then de_order env (entries_in (r_work (g_repo d)) dir) else [].

Definition push_step (push : nat → PushEnv) : Step unit := λ d,
  match push_with_retry (g_has_remote d) push (g_repo d) with
  | (r, Ok _) => (with_repo d r, Ok tt)
  | (r, Err e) => (with_repo d r, Err (UserPush e))
  | (r, Panicked) => (with_repo d r, Panicked)
  end.

(** ** Phase 1 *)

Definition LEAVE : str := lit "leave-workspace".

Definition thread_has_author (es : list ThreadEntry) (h : Handler) : bool :=
  existsb (λ e, handler_str (entry_author e) =?? handler_str h) es.

Definition last_entry_is_leave_workspace (es : list ThreadEntry) (h : Handler) : bool :=
  match last es with
  | Some (EntryEvent ev) => (ev_event_type ev =?? LEAVE) && (handler_str (ev_author ev) =?? handler_str h)
  | _ => false
  end.

(** The thread still needs the event. *)
Definition needs_leave (es : list ThreadEntry) (h : Handler) : bool :=
  thread_has_author es h && negb (last_entry_is_leave_workspace es h).

(** [path.extension() == Some("thread")]. *)
Definition has_thread_extension (name : str) : bool :=
  is_some_and (strip_suffix (lit ".thread") name) (λ stem, negb (is_empty stem)).

Definition collect_thread_paths (env : DepartEnv) (dir : str) (d : GDaemon) : list str :=
  map (under dir) (sort_strings (List.filter has_thread_extension (dir_names env dir d))).

(** Append the event, commit it, or cut it off again. *)
Definition write_leave_event (env : UserEnv) (h : Handler) (path cur : str) (n : N) : Step bool := λ d,
  let event_line := format_event n h (ue_now env) LEAVE (json_obj []) in
  match r_work (g_repo d) !! path with
  | None => (d, Err UserWrite)
  | Some text =>
      if negb (ue_write_ok env path) then (d, Err UserWrite)
      else
        let '(r1, ok) := add_and_commit_as (ue_commit env) [path] (write_work path (text ++ event_line) (g_repo d)) in
        if negb ok then (with_repo d (if ue_restore_ok env then write_work path cur r1 else r1), Err UserCommit)
        else (do! _ := push_step (ue_push env) in give true) (with_repo d r1)
  end.

Definition append_leave_event_to_thread (env : DepartEnv) (h : Handler) (path : str) : Step bool := λ d,
  match read_to_str (de_step env path) d path with
  | None => (d, Ok false)
  | Some pre =>
      match parse_thread pre with
      | Err _ => (d, Ok false)
      | Panicked => (d, Panicked)
      | Ok parsed =>
          if negb (needs_leave (entries parsed) h) then (d, Ok false)
          else
            let cur := if de_reread_ok env path then unwrap_or (r_work (g_repo d) !! path) [] else [] in
            match parse_thread cur with
            | Err _ => (d, Err UserParse)
            | Panicked => (d, Panicked)
            | Ok cur_parsed =>
                if negb (needs_leave (entries cur_parsed) h) then (d, Ok false)
                else write_leave_event (de_step env path) h path cur (wrapping_add (last_line_number cur_parsed) 1) d
            end
      end
  end.

Definition phase1_write_leave_events (env : DepartEnv) (h : Handler) : Step N := λ d,
  let paths := collect_thread_paths env (lit "channels") d ++ collect_thread_paths env (lit "dm") d in
  count_commits paths (append_leave_event_to_thread env h) d.

(** ** Phase 2 *)

Definition dm_of (handler : str) (name : str) : option str :=
  stem ← strip_suffix (lit ".thread") name;
  '(a, b) ← parse_dm_filename stem;
  if (a =?? handler) || (b =?? handler) then Some stem else None.

Definition archive_one_dm (env : DepartEnv) (stem : str) : Step bool := λ d,
  let from_rel := dm_thread_path stem in
  let to_rel := archived_dm_thread_path stem in
  if exists_path d to_rel || negb (exists_path d from_rel) then (d, Ok false)
  else
    match move_with_board (de_step env from_rel) from_rel to_rel None (g_repo d) with
    | (r, Ok _) => (do! _ := push_step (ue_push (de_step env from_rel)) in give true) (with_repo d r)
    | (r, Err e) => (with_repo d r, Err e)
    | (r, Panicked) => (with_repo d r, Panicked)
    end.

Definition phase2_archive_dms (env : DepartEnv) (handler : str) : Step N := λ d,
  let targets := sort_strings (omap (dm_of handler) (dir_names env (lit "dm") d)) in
  if negb (is_empty targets) && negb (ue_mkdir_ok (de_step env (lit "archive/dm")) (lit "archive/dm")) then (d, Err UserMkdir)
  else count_commits targets (archive_one_dm env) d.

(** ** Phase 3 *)

Definition without (handler : str) (meta : ChannelMeta) : ChannelMeta :=
  set_members meta (List.filter (λ m, negb (m =?? handler)) (cm_members meta)).

Definition clean_channel (env : DepartEnv) (handler channel : str) : Step bool := λ d,
  let meta_rel := channel_meta_path channel in
  match read_to_str (de_step env meta_rel) d meta_rel with
  | None => (d, Ok false)
  | Some meta_str =>
      match yaml_from_str meta_str with
      | None => (d, Ok false)
      | Some meta =>
          if negb (bool_decide (handler ∈ cm_members meta)) then (d, Ok false)
          else
            match (if de_reread_ok env meta_rel then r_work (g_repo d) !! meta_rel else None) with
            | None => (d, Err UserRead)
            | Some cur_str =>
                match yaml_from_str cur_str with
                | None => (d, Err UserParse)
                | Some cur_meta =>
                    if negb (bool_decide (handler ∈ cm_members cur_meta)) then (d, Ok false)
                    else
                      match yaml_to_string (without handler cur_meta) with
                      | None => (d, Err UserSerialize)
                      | Some new_yaml =>
                          match write_or_restore (de_step env meta_rel) d meta_rel cur_str new_yaml with
                          | (r, Ok _) => (do! _ := push_step (ue_push (de_step env meta_rel)) in give true) (with_repo d r)
                          | (r, Err e) => (with_repo d r, Err e)
                          | (r, Panicked) => (with_repo d r, Panicked)
                          end
                      end
                end
            end
      end
  end.

Definition phase3_clean_channel_members (env : DepartEnv) (handler : str) : Step N := λ d,
  let targets := sort_strings (omap (strip_suffix (lit ".meta.yaml")) (dir_names env (lit "channels") d)) in
  count_commits targets (clean_channel env handler) d.

(** ** Phase 4 *)

Definition phase4_archive_user (env : DepartEnv) (handler : str) : GDaemon → GDaemon * list UserEvent * res N UserError := λ d,
  let from_rel := user_meta_path handler in
  let to_rel := archived_user_meta_path handler in
  let uenv := de_step env from_rel in
  if exists_path d to_rel then (d, [], Ok 0)
  else if negb (exists_path d from_rel) then (d, [], Err (UserNotFound handler))
  else if negb (ue_mkdir_ok uenv to_rel) then (d, [], Err UserMkdir)
  else run_move uenv d from_rel to_rel (Some (board_path handler, archived_board_path handler))
         (drop_user handler) (UserArchived handler handler (ue_now uenv)) 1.

(** ** The handler *)

Record DepartUserResponse := MkDepartUserResponse { du_handler : str; du_commits : N; du_already_departed : bool }.

Definition phases123 (env : DepartEnv) (h : Handler) : Step N :=
  do! n1 := phase1_write_leave_events env h in
  do! n2 := phase2_archive_dms env (handler_str h) in
  do! n3 := phase3_clean_channel_members env (handler_str h) in
  give (n1 + n2 + n3).

Definition handle_depart_user (env : DepartEnv) (d : GDaemon) (handler : str) : UserOutcome DepartUserResponse :=
  checked_then d (valid_handler handler) (λ h,
  if exists_path d (archived_user_meta_path handler) then
    match push_step (de_resync env) d with
    | (d', Ok _) => (d', [], Ok (MkDepartUserResponse handler 0 true))
    | (d', Err e) => (d', [], Err e)
    | (d', Panicked) => (d', [], Panicked)
    end
  else if negb (exists_path d (user_meta_path handler)) then refuse d (UserNotFound handler)
  else
    match phases123 env h d with
    | (d', Err e) => (d', [], Err e)
    | (d', Panicked) => (d', [], Panicked)
    | (d', Ok n) =>
        match phase4_archive_user env handler d' with
        | (d'', evs, Ok n4) => (d'', evs, Ok (MkDepartUserResponse handler (n + n4) false))
        | (d'', evs, Err e) => (d'', evs, Err e)
        | (d'', evs, Panicked) => (d'', evs, Panicked)
        end
    end).

(** ** What a departure is *)

(** The text of a thread after the user has left. *)
Definition leave_text (now : str) (h : Handler) (text : str) : str :=
  match parse_thread text with
  | Ok f => if needs_leave (entries f) h
            then text ++ format_event (wrapping_add (last_line_number f) 1) h now LEAVE (json_obj [])
            else text
  | _ => text
  end.

(** Everything is committed. *)
Definition clean (r : Repo) : Prop := r_index r = r_work r ∧ r_head r = r_work r.

(** The environment lets the handler read what is there, and no push meets a conflict. *)
Record orderly (env : DepartEnv) : Prop := MkOrderly {
  od_dir : ∀ dir, de_dir_ok env dir = true;
  od_order : ∀ l, de_order env l ≡ₚ l;
  od_read : ∀ p, ue_read_ok (de_step env p) p = true;
  od_reread : ∀ p, de_reread_ok env p = true;
  od_push : ∀ p n r, git_push (pe_push (ue_push (de_step env p) n)) r ≠ PushConflict;
}.

(** ** Steps on the tree *)

(** A step changed the clone only, its work tree by [f], and left nothing uncommitted. *)
Definition acts (f : tree → tree) (d d' : GDaemon) : Prop :=
  ∃ r, d' = with_repo d r ∧ r_work r = f (r_work (g_repo d)) ∧ (clean (g_repo d) → clean r).

Lemma acts_id d : acts id d d.
Proof. exists (g_repo d). split; [by destruct d|done]. Qed.

Lemma acts_compose f g d d' d'' : acts f d d' → acts g d' d'' → acts (g ∘ f) d d''.
Proof.
  intros (r & -> & Hr & Hc) (r' & -> & Hr' & Hc'). exists r'. split; [done|]. cbn in *. split; [by rewrite Hr', Hr|auto].
Qed.

Lemma acts_ext f g d d' : f (r_work (g_repo d)) = g (r_work (g_repo d)) → acts f d d' → acts g d d'.
Proof. intros H (r & Hd & Hr & Hc). exists r. split; [done|]. by rewrite <-H. Qed.

Lemma push_step_ok push d d' :
  (∀ n r, git_push (pe_push (push n)) r ≠ PushConflict) → push_step push d = (d', Ok tt) → d' = d.
Proof.
  intros Hp. unfold push_step. pose proof (push_no_conflict (g_has_remote d) push (g_repo d) Hp) as H.
  destruct (push_with_retry _ _ _) as [r []]; intros [= <-]. cbn in H. subst r. by destruct d.
Qed.

(** A committed step, then its push. *)
Lemma commit_and_push push d d' (b : bool) :
  (∀ n r, git_push (pe_push (push n)) r ≠ PushConflict) →
  (do! _ := push_step push in give true) d = (d', Ok b) → d' = d ∧ b = true.
Proof.
  intros Hp. unfold then_. destruct (push_step push d) as [d1 [[]| |]] eqn:E; [|done|done].
  intros [= <- <-]. split; [by eapply push_step_ok|done].
Qed.

Lemma commit_write g p v r r' :
  add_and_commit_as g [p] (write_work p v r) = (r', true) → r_work r' = <[p := v]> (r_work r) ∧ (clean r → clean r').
Proof.
  intros H%add_and_commit_spec. subst r'. cbn. split; [done|]. intros [Hi Hh]. unfold clean. cbn.
  rewrite Hi, sync_paths_same; [done|]. intros k Hk. cbn. rewrite lookup_insert_ne; [done|].
  intros <-. unfold in_paths in Hk. cbn in Hk. by rewrite below_refl in Hk.
Qed.

(** *** The loop *)

Lemma count_commits_acts {A} (l : list A) (body : A → Step bool) (f : A → tree → tree) d d' n :
  (∀ x d d' b, x ∈ l → body x d = (d', Ok b) → acts (f x) d d') →
  count_commits l body d = (d', Ok n) → acts (λ t, foldl (λ t x, f x t) t l) d d'.
Proof.
  revert d n. induction l as [|x l IH]; intros d n Hb H; cbn in *.
  - injection H as <- _. apply acts_id.
  - unfold then_ in H. destruct (body x d) as [d1 [b| |]] eqn:E1; [|done|done].
    destruct (count_commits l body d1) as [d2 [m| |]] eqn:E2; [|done|done]. injection H as <- _.
    refine (acts_compose (f x) (λ t, foldl (λ t x, f x t) t l) d d1 d2 _ _); [eapply Hb; [by left|done]|].
    eapply IH; [|done]. intros y e e' b' Hy. apply Hb. by right.
Qed.

(** *** Changing files one after the other *)

Lemma alter_Some (f : str → str) (k v : str) (t : tree) : t !! k = Some v → alter f k t = <[k := f v]> t.
Proof.
  intros H. apply map_eq. intros j. destruct (decide (j = k)) as [->|Hne].
  - by rewrite lookup_alter_eq, lookup_insert_eq, H.
  - by rewrite lookup_alter_ne, lookup_insert_ne.
Qed.

Lemma alter_id_None (f : str → str) (k : str) (t : tree) : t !! k = None → id t = alter f k t.
Proof.
  intros H. apply map_eq. intros j. unfold id. destruct (decide (j = k)) as [->|Hne]; [by rewrite lookup_alter_eq, H|by rewrite lookup_alter_ne].
Qed.

Lemma foldl_alter_in {A} (f : A → str → str) (key : A → str) (l : list A) (t : tree) x :
  NoDup (key <$> l) → x ∈ l → foldl (λ t x, alter (f x) (key x) t) t l !! key x = f x <$> t !! key x.
Proof.
  revert t. induction l as [|y l IH]; intros t Hnd Hx; [by apply elem_of_nil in Hx|]. cbn in *. apply NoDup_cons in Hnd as [Hy Hnd].
  apply elem_of_cons in Hx as [->|Hx].
  - clear IH. assert (∀ t', foldl (λ t x, alter (f x) (key x) t) t' l !! key y = t' !! key y) as ->; [|by rewrite lookup_alter_eq].
    clear Hnd. induction l as [|z l IH]; intros t'; [done|]. cbn in *. apply not_elem_of_cons in Hy as [Hne Hy].
    rewrite IH by done. by rewrite lookup_alter_ne.
  - rewrite IH by done. rewrite lookup_alter_ne; [done|]. intros He. apply Hy. rewrite He. by apply list_elem_of_fmap_2.
Qed.

Lemma foldl_alter_out {A} (f : A → str → str) (key : A → str) (l : list A) (t : tree) k :
  k ∉ key <$> l → foldl (λ t x, alter (f x) (key x) t) t l !! k = t !! k.
Proof.
  revert t. induction l as [|y l IH]; intros t Hk; [done|]. cbn in *. apply not_elem_of_cons in Hk as [Hne Hk].
  rewrite IH by done. by rewrite lookup_alter_ne.
Qed.

(** *** The phases *)

Definition leave_at (env : DepartEnv) (h : Handler) (p : str) (t : tree) : tree :=
  alter (leave_text (ue_now (de_step env p)) h) p t.

Lemma append_leave_event_acts env h p d d' b :
  orderly env → append_leave_event_to_thread env h p d = (d', Ok b) → acts (leave_at env h p) d d'.
Proof.
  intros Ho. unfold append_leave_event_to_thread, read_to_str. rewrite (od_read _ Ho), (od_reread _ Ho).
  destruct (r_work (g_repo d) !! p) as [text|] eqn:Et; cbn [unwrap_or].
  2: { intros [= <- <-]. eapply acts_ext; [|apply acts_id]. by apply alter_id_None. }
  destruct (parse_thread text) as [f| |] eqn:Ep; [|intros [= <- <-]|done].
  - destruct (needs_leave (entries f) h) eqn:En; cbn [negb].
    + unfold write_leave_event. rewrite Et. destruct (ue_write_ok _ p); cbn [negb]; [|done].
      destruct (add_and_commit_as _ _ _) as [r1 ok] eqn:Ec. destruct ok; cbn [negb]; [|done].
      intros [-> ->]%commit_and_push; [|by apply od_push]. apply commit_write in Ec as [Hw Hc].
      exists r1. split; [done|]. split; [|done]. rewrite Hw. unfold leave_at. erewrite alter_Some by done. f_equal. unfold leave_text. by rewrite Ep, En.
    + intros [= <- <-]. eapply acts_ext; [|apply acts_id]. unfold leave_at. erewrite alter_Some by done. unfold leave_text. rewrite Ep, En. by rewrite insert_id.
  - eapply acts_ext; [|apply acts_id]. unfold leave_at. erewrite alter_Some by done. unfold leave_text. rewrite Ep. by rewrite insert_id.
Qed.

Definition archive_at (stem : str) (t : tree) : tree :=
  if path_exists t (archived_dm_thread_path stem) || negb (path_exists t (dm_thread_path stem)) then t
  else move_tree (dm_thread_path stem) (archived_dm_thread_path stem) t.

Lemma commit_moves_ok env ms r r' :
  commit_moves env ms r = (r', Ok tt) → r_work r' = r_work r ∧ (r_index r = r_work r → clean r').
Proof.
  unfold commit_moves. destruct (add_and_commit_as _ _ r) as [r1 ok] eqn:E. destruct ok; [|done]. intros [= <-].
  apply add_and_commit_spec in E as ->. cbn. split; [done|]. intros Hi. unfold clean. cbn. by rewrite Hi, sync_paths_same.
Qed.

Lemma move_alone env from to r r' :
  path_exists (r_work r) to = false → move_with_board env from to None r = (r', Ok tt) →
  r_work r' = move_tree from to (r_work r) ∧ (clean r → clean r').
Proof.
  intros Hto. unfold move_with_board. destruct (mv _ from to r) as [r1 ok] eqn:E. destruct ok; cbn [negb]; [|done].
  apply mv_spec in E; [|done]. subst r1. intros [Hw Hc]%commit_moves_ok. cbn in *. split; [done|]. intros [Hi _]. apply Hc. by rewrite Hi.
Qed.

Lemma archive_one_dm_acts env stem d d' b :
  orderly env → archive_one_dm env stem d = (d', Ok b) → acts (archive_at stem) d d'.
Proof.
  intros Ho. unfold archive_one_dm, exists_path.
  destruct (path_exists (r_work (g_repo d)) (archived_dm_thread_path stem)) eqn:Eto; cbn [orb].
  { intros [= <- <-]. eapply acts_ext; [|apply acts_id]. unfold archive_at. by rewrite Eto. }
  destruct (path_exists (r_work (g_repo d)) (dm_thread_path stem)) eqn:Efrom; cbn [negb].
  2: { intros [= <- <-]. eapply acts_ext; [|apply acts_id]. unfold archive_at. by rewrite Eto, Efrom. }
  destruct (move_with_board _ _ _ _ _) as [r1 [[]| |]] eqn:E; [|done|done].
  intros [-> ->]%commit_and_push; [|by apply od_push]. apply move_alone in E as [Hw Hc]; [|done].
  exists r1. split; [done|]. split; [|done]. rewrite Hw. unfold archive_at. by rewrite Eto, Efrom.
Qed.

(** The metadata of a channel after the user has left. *)
Definition clean_yaml (handler : str) (yaml : str) : str :=
  match yaml_from_str yaml with
  | Some meta => if bool_decide (handler ∈ cm_members meta) then unwrap_or (yaml_to_string (without handler meta)) yaml else yaml
  | None => yaml
  end.

Lemma clean_channel_acts env handler c d d' b :
  orderly env → clean_channel env handler c d = (d', Ok b) → acts (alter (clean_yaml handler) (channel_meta_path c)) d d'.
Proof.
  intros Ho. unfold clean_channel, read_to_str. rewrite (od_read _ Ho), (od_reread _ Ho).
  destruct (r_work (g_repo d) !! channel_meta_path c) as [y|] eqn:Ey.
  2: { intros [= <- <-]. eapply acts_ext; [|apply acts_id]. by apply alter_id_None. }
  destruct (yaml_from_str y) as [m|] eqn:Em.
  2: { intros [= <- <-]. eapply acts_ext; [|apply acts_id]. rewrite (alter_Some _ _ _ _ Ey). unfold clean_yaml. rewrite Em. by rewrite insert_id. }
  case_bool_decide as Hin; cbn [negb].
  2: { intros [= <- <-]. eapply acts_ext; [|apply acts_id]. rewrite (alter_Some _ _ _ _ Ey). unfold clean_yaml. rewrite Em, bool_decide_false by done. by rewrite insert_id. }
  destruct (yaml_to_string (without handler m)) as [y'|] eqn:Ey'; [|done]. unfold write_or_restore.
  destruct (ue_write_ok _ _); cbn [negb]; [|done]. destruct (add_and_commit_as _ _ _) as [r1 ok] eqn:Ec. destruct ok; [|done].
  intros [-> ->]%commit_and_push; [|by apply od_push]. apply commit_write in Ec as [Hw Hc].
  exists r1. split; [done|]. split; [|done]. rewrite Hw, (alter_Some _ _ _ _ Ey). unfold clean_yaml. by rewrite Em, bool_decide_true, Ey' by done.
Qed.

Lemma move_user_ok env handler r r' :
  path_exists (r_work r) (archived_user_meta_path handler) = false →
  path_exists (move_tree (user_meta_path handler) (archived_user_meta_path handler) (r_work r)) (archived_board_path handler) = false →
  move_with_board env (user_meta_path handler) (archived_user_meta_path handler)
    (Some (board_path handler, archived_board_path handler)) r = (r', Ok tt) →
  r_work r' = archive_user_at handler (r_work r) ∧ (clean r → clean r').
Proof.
  intros Hto Hb. unfold move_with_board, archive_user_at, move_both. destruct (mv _ (user_meta_path handler) _ r) as [r1 ok] eqn:E.
  destruct ok; cbn [negb]; [|done]. apply mv_spec in E; [|done]. subst r1. cbn [moved r_work fst snd].
  destruct (path_exists _ (board_path handler)); cbn [negb].
  - destruct (ue_mkdir_ok env _); cbn [negb]; [|done]. destruct (mv _ (board_path handler) _ _) as [r2 ok] eqn:E2.
    destruct ok; cbn [negb]; [|done]. apply mv_spec in E2; [|done]. subst r2. intros [Hw Hc]%commit_moves_ok. cbn in *.
    split; [done|]. intros [Hi _]. apply Hc. by rewrite Hi.
  - intros [Hw Hc]%commit_moves_ok. cbn in *. split; [done|]. intros [Hi _]. apply Hc. by rewrite Hi.
Qed.

(** ** The places *)

Lemma under_inj dir a b : under dir a = under dir b → a = b.
Proof. unfold under. intros H. apply app_inv_head in H. by injection H. Qed.

Lemma dm_path_under stem : dm_thread_path stem = under (lit "dm") (stem ++ lit ".thread").
Proof. done. Qed.

Lemma channel_meta_under c : channel_meta_path c = under (lit "channels") (c ++ lit ".meta.yaml").
Proof. done. Qed.

Lemma lit_no_slash (s : str) : forallb (λ c, negb (c =? slash)) s = true → slash ∉ s.
Proof. rewrite forallb_Forall, Forall_forall. intros H Hin. specialize (H slash Hin). by rewrite N.eqb_refl in H. Qed.

Lemma suffix_no_slash (a b : str) : slash ∉ a → forallb (λ c, negb (c =? slash)) b = true → slash ∉ a ++ b.
Proof. intros Ha Hb%lit_no_slash. rewrite not_elem_of_app. done. Qed.

Lemma dm_places_apart s s' : slash ∉ s → slash ∉ s' → s ≠ s' → apart (dm_thread_path s) (dm_thread_path s').
Proof.
  intros Hs Hs' Hne. rewrite !dm_path_under. apply (apart_prefix (lit "dm/")). apply apart_names; [by apply suffix_no_slash|by apply suffix_no_slash|].
  intros H. by apply app_inv_tail in H.
Qed.

Lemma archived_dm_places_apart s s' : slash ∉ s → slash ∉ s' → s ≠ s' → apart (archived_dm_thread_path s) (archived_dm_thread_path s').
Proof. intros Hs Hs' Hne. apply (apart_prefix (lit "archive/")). by apply dm_places_apart. Qed.

Lemma dm_archived_apart s s' : apart (dm_thread_path s) (archived_dm_thread_path s').
Proof. by apply apart_head. Qed.

(** *** Phase 2 on the tree *)

Lemma archive_at_other s t k :
  below (dm_thread_path s) k = false → below (archived_dm_thread_path s) k = false → archive_at s t !! k = t !! k.
Proof. intros H1 H2. unfold archive_at. destruct (_ || _); [done|]. by apply lookup_move_other. Qed.

(** A path at one of the places of [s]. *)
Definition at_dm (s k : str) : bool := below (dm_thread_path s) k || below (archived_dm_thread_path s) k.

Lemma at_dm_other s s' k : slash ∉ s → slash ∉ s' → s ≠ s' → at_dm s k = true → at_dm s' k = false.
Proof.
  intros Hs Hs' Hne. unfold at_dm. rewrite orb_true_iff, orb_false_iff. intros [H|H].
  - split; refine (apart_not_below _ _ _ _ H); [by apply dm_places_apart|apply dm_archived_apart].
  - split; refine (apart_not_below _ _ _ _ H); [symmetry; apply dm_archived_apart|by apply archived_dm_places_apart].
Qed.

Lemma archive_at_agree s (t u : tree) :
  (∀ k, at_dm s k = true → t !! k = u !! k) → ∀ k, at_dm s k = true → archive_at s t !! k = archive_at s u !! k.
Proof.
  intros H k Hk. unfold at_dm in *.
  assert (∀ p, p = dm_thread_path s ∨ p = archived_dm_thread_path s → path_exists t p = path_exists u p) as Hp.
  { intros p Hp. apply path_exists_agree. intros j Hj. apply H, orb_true_iff. destruct Hp as [-> | ->]; [by left|by right]. }
  unfold archive_at. rewrite (Hp _ (or_intror eq_refl)), (Hp _ (or_introl eq_refl)).
  destruct (path_exists u (archived_dm_thread_path s) || negb _); [by apply H|].
  rewrite !lookup_move_tree. destruct (strip_dir (archived_dm_thread_path s) k) as [rest|] eqn:E; cbn [mbind option_bind].
  - apply strip_dir_Some in E as [-> Hr].
    rewrite (H (dm_thread_path s ++ rest)) by (apply orb_true_iff; left; apply below_true; eexists; by apply strip_dir_app).
    by rewrite (H _ Hk).
  - by rewrite (H _ Hk).
Qed.

Lemma archive_all_other l (t : tree) k : (∀ s, s ∈ l → at_dm s k = false) → foldl (λ t s, archive_at s t) t l !! k = t !! k.
Proof.
  revert t. induction l as [|s l IH]; intros t H; [done|]. cbn. rewrite IH by (intros; apply H; by right).
  specialize (H s ltac:(by left)). apply orb_false_iff in H as [? ?]. by apply archive_at_other.
Qed.

Lemma archive_all_at l (t : tree) s k :
  NoDup l → (∀ s, s ∈ l → slash ∉ s) → s ∈ l → at_dm s k = true → foldl (λ t s, archive_at s t) t l !! k = archive_at s t !! k.
Proof.
  intros Hnd Hsl Hs Hk. apply list_elem_of_split in Hs as (l1 & l2 & ->). rewrite foldl_app. cbn.
  apply NoDup_app in Hnd as (_ & Hd & Hnd). apply NoDup_cons in Hnd as [Hs2 _].
  assert (∀ k s', s' ∈ l1 ∨ s' ∈ l2 → at_dm s k = true → at_dm s' k = false) as Hoth.
  { intros k' s' Hs' Hk'. eapply at_dm_other; [| | |exact Hk'].
    - apply Hsl. apply elem_of_app. right. by left.
    - apply Hsl. apply elem_of_app. destruct Hs' as [Hs'|Hs']; [by left|right; by right].
    - intros <-. destruct Hs' as [Hs'|Hs']; [|done]. apply (Hd s Hs'). by left. }
  rewrite archive_all_other by (intros s' Hs'; apply Hoth; auto).
  apply archive_at_agree; [|done]. intros k' Hk'. apply archive_all_other. intros s' Hs'. apply Hoth; auto.
Qed.

(** *** The listings *)

Lemma elem_of_List_filter {A} (f : A → bool) (l : list A) x : x ∈ List.filter f l ↔ x ∈ l ∧ f x = true.
Proof. rewrite !list_elem_of_In. apply filter_In. Qed.

Lemma NoDup_List_filter {A} (f : A → bool) (l : list A) : NoDup l → NoDup (List.filter f l).
Proof. rewrite !NoDup_ListNoDup. apply List.NoDup_filter. Qed.

Lemma NoDup_omap_inj {A B} (f : A → option B) (l : list A) :
  (∀ x y z, f x = Some z → f y = Some z → x = y) → NoDup l → NoDup (omap f l).
Proof.
  intros Hf. induction 1 as [|x l Hx Hnd IH]; [constructor|]. cbn. destruct (f x) as [z|] eqn:E; [|done].
  constructor; [|done]. rewrite list_elem_of_omap. intros (y & Hy & Ey). by rewrite (Hf x y z E Ey) in Hx.
Qed.

Definition thread_place (k : str) : Prop :=
  ∃ dir name, (dir = lit "channels" ∨ dir = lit "dm") ∧ k = under dir name ∧ (slash ∉ name) ∧ has_thread_extension name = true.

Lemma dir_names_elem env dir d name :
  orderly env → name ∈ dir_names env dir d ↔ (slash ∉ name) ∧ path_exists (r_work (g_repo d)) (under dir name) = true.
Proof. intros Ho. unfold dir_names. rewrite (od_dir _ Ho), (od_order _ Ho). apply entries_in_elem. Qed.

Lemma dir_names_NoDup env dir d : orderly env → NoDup (dir_names env dir d).
Proof. intros Ho. unfold dir_names. rewrite (od_dir _ Ho), (od_order _ Ho). apply NoDup_remove_dups. Qed.

Lemma collect_elem env dir d k :
  orderly env →
  k ∈ collect_thread_paths env dir d ↔
  ∃ name, k = under dir name ∧ (slash ∉ name) ∧ has_thread_extension name = true ∧ path_exists (r_work (g_repo d)) k = true.
Proof.
  intros Ho. unfold collect_thread_paths, sort_strings. rewrite list_elem_of_fmap. split.
  - intros (name & -> & Hn). rewrite sort_by_key_perm, elem_of_List_filter, (dir_names_elem _ _ _ _ Ho) in Hn.
    exists name. tauto.
  - intros (name & -> & Hs & He & Hp). exists name. split; [done|].
    rewrite sort_by_key_perm, elem_of_List_filter, (dir_names_elem _ _ _ _ Ho). tauto.
Qed.

Lemma collect_NoDup env dir d : orderly env → NoDup (collect_thread_paths env dir d).
Proof.
  intros Ho. unfold collect_thread_paths, sort_strings. apply NoDup_fmap; [intros a b; apply under_inj|].
  rewrite sort_by_key_perm. by apply NoDup_List_filter, dir_names_NoDup.
Qed.

Definition leave_paths (env : DepartEnv) (d : GDaemon) : list str :=
  collect_thread_paths env (lit "channels") d ++ collect_thread_paths env (lit "dm") d.

Lemma leave_paths_elem env d k :
  orderly env → k ∈ leave_paths env d ↔ thread_place k ∧ path_exists (r_work (g_repo d)) k = true.
Proof.
  intros Ho. unfold leave_paths. rewrite elem_of_app, !(collect_elem _ _ _ _ Ho). split.
  - intros [(name & -> & Hs & He & Hp)|(name & -> & Hs & He & Hp)]; (split; [|done]); eexists _, name; split_and!; try done; [by left|by right].
  - intros [(dir & name & [-> | ->] & -> & Hs & He) Hp]; [left|right]; by exists name.
Qed.

Lemma leave_paths_NoDup env d : orderly env → NoDup (leave_paths env d).
Proof.
  intros Ho. apply NoDup_app. split_and!; [by apply collect_NoDup| |by apply collect_NoDup].
  intros k (n1 & -> & _)%(collect_elem _ _ _ _ Ho) (n2 & H & _)%(collect_elem _ _ _ _ Ho). done.
Qed.

(** *** Phase 1 on the tree *)

Definition phase1_tree (env : DepartEnv) (h : Handler) (d : GDaemon) (t : tree) : tree :=
  foldl (λ t p, leave_at env h p t) t (leave_paths env d).

Lemma phase1_thread env h d k :
  orderly env → thread_place k →
  phase1_tree env h d (r_work (g_repo d)) !! k = leave_text (ue_now (de_step env k)) h <$> r_work (g_repo d) !! k.
Proof.
  intros Ho Hk. unfold phase1_tree. destruct (path_exists (r_work (g_repo d)) k) eqn:Hp.
  - refine (foldl_alter_in (λ p, leave_text (ue_now (de_step env p)) h) id _ _ k _ _).
    + rewrite list_fmap_id. by apply leave_paths_NoDup.
    + by apply leave_paths_elem.
  - rewrite (foldl_alter_out (λ p, leave_text (ue_now (de_step env p)) h) id).
    + by rewrite (path_exists_lookup _ _ Hp).
    + rewrite list_fmap_id, (leave_paths_elem _ _ _ Ho). intros [_ H]. congruence.
Qed.

Lemma phase1_other env h d k :
  orderly env → ¬ thread_place k → phase1_tree env h d (r_work (g_repo d)) !! k = r_work (g_repo d) !! k.
Proof.
  intros Ho Hk. apply (foldl_alter_out (λ p, leave_text (ue_now (de_step env p)) h) id).
  rewrite list_fmap_id, (leave_paths_elem _ _ _ Ho). tauto.
Qed.

(** Changing texts changes no path. *)
Lemma path_exists_alter (f : str → str) k (t : tree) p : path_exists (alter f k t) p = path_exists t p.
Proof.
  apply eq_iff_eq_true. rewrite !path_exists_true. split; intros (j & v & rest & Hj & Hs).
  - destruct (decide (j = k)) as [->|Hne].
    + rewrite lookup_alter_eq in Hj. apply fmap_Some in Hj as (w & Hw & _). by exists k, w, rest.
    + rewrite lookup_alter_ne in Hj by done. by exists j, v, rest.
  - destruct (decide (j = k)) as [->|Hne].
    + exists k, (f v), rest. by rewrite lookup_alter_eq, Hj.
    + exists j, v, rest. by rewrite lookup_alter_ne.
Qed.

Lemma path_exists_alters {A} (f : A → str → str) (key : A → str) (l : list A) (t : tree) p :
  path_exists (foldl (λ t x, alter (f x) (key x) t) t l) p = path_exists t p.
Proof. revert t. induction l as [|x l IH]; intros t; [done|]. cbn. by rewrite IH, path_exists_alter. Qed.

(** *** Phase 2 *)

(** A direct message of the user. *)
Definition my_dm (handler stem : str) : bool :=
  is_some_and (parse_dm_filename stem) (λ '(a, b), (a =?? handler) || (b =?? handler)).

Lemma dm_of_Some handler name stem : dm_of handler name = Some stem ↔ name = stem ++ lit ".thread" ∧ my_dm handler stem = true.
Proof.
  unfold dm_of, my_dm. destruct (strip_suffix (lit ".thread") name) as [s|] eqn:E; cbn [mbind option_bind].
  - apply strip_suffix_Some in E as ->. destruct (parse_dm_filename s) as [[a b]|] eqn:Ep; cbn [mbind option_bind].
    + split.
      * destruct (_ || _) eqn:Eh; [|done]. intros [= <-]. rewrite Ep. done.
      * intros [->%app_inv_tail H]. rewrite Ep in H. cbn in H. by rewrite H.
    + split; [done|]. intros [->%app_inv_tail H]. by rewrite Ep in H.
  - split; [done|]. intros [-> _]. by rewrite (proj2 (strip_suffix_Some _ _ stem) eq_refl) in E.
Qed.

Definition dm_targets (env : DepartEnv) (handler : str) (d : GDaemon) : list str :=
  sort_strings (omap (dm_of handler) (dir_names env (lit "dm") d)).

Lemma dm_targets_elem env handler d stem :
  orderly env →
  stem ∈ dm_targets env handler d ↔
  my_dm handler stem = true ∧ (slash ∉ stem) ∧ path_exists (r_work (g_repo d)) (dm_thread_path stem) = true.
Proof.
  intros Ho. unfold dm_targets, sort_strings. rewrite sort_by_key_perm, list_elem_of_omap. split.
  - intros (name & Hn & [-> Hm]%dm_of_Some). apply dir_names_elem in Hn as [Hs Hp]; [|done]. split; [done|].
    apply not_elem_of_app in Hs as [Hs _]. done.
  - intros (Hm & Hs & Hp). exists (stem ++ lit ".thread"). split; [|by apply dm_of_Some]. apply dir_names_elem; [done|].
    split; [by apply suffix_no_slash|done].
Qed.

Lemma dm_targets_NoDup env handler d : orderly env → NoDup (dm_targets env handler d).
Proof.
  intros Ho. unfold dm_targets, sort_strings. rewrite sort_by_key_perm. apply NoDup_omap_inj; [|by apply dir_names_NoDup].
  intros x y z [-> _]%dm_of_Some [-> _]%dm_of_Some. done.
Qed.

Definition phase2_tree (env : DepartEnv) (handler : str) (d : GDaemon) (t : tree) : tree :=
  foldl (λ t s, archive_at s t) t (dm_targets env handler d).

Lemma at_dm_active s : at_dm s (dm_thread_path s) = true.
Proof. unfold at_dm. by rewrite below_refl. Qed.

Lemma at_dm_archived s : at_dm s (archived_dm_thread_path s) = true.
Proof. unfold at_dm. by rewrite below_refl, orb_true_r. Qed.

(** At the places of one of his messages, phase 2 archives it. *)
Lemma phase2_at env handler d stem k :
  orderly env → my_dm handler stem = true → slash ∉ stem → at_dm stem k = true →
  phase2_tree env handler d (r_work (g_repo d)) !! k = archive_at stem (r_work (g_repo d)) !! k.
Proof.
  intros Ho Hm Hs Hk. unfold phase2_tree. destruct (path_exists (r_work (g_repo d)) (dm_thread_path stem)) eqn:Hp.
  - apply archive_all_at; [by apply dm_targets_NoDup| |by apply dm_targets_elem|done]. intros s. rewrite dm_targets_elem by done. tauto.
  - rewrite archive_all_other; [unfold archive_at; by rewrite Hp, orb_true_r|].
    intros s (_ & Hs' & Hp')%dm_targets_elem; [|done]. eapply at_dm_other; [| | |exact Hk]; [done|done|]. intros <-. congruence.
Qed.

Lemma phase2_other env handler d k :
  orderly env → (∀ stem, my_dm handler stem = true → slash ∉ stem → at_dm stem k = false) →
  phase2_tree env handler d (r_work (g_repo d)) !! k = r_work (g_repo d) !! k.
Proof. intros Ho H. apply archive_all_other. intros s (Hm & Hs & _)%dm_targets_elem; [|done]. by apply H. Qed.

Lemma archive_at_moves (t : tree) stem :
  path_exists t (archived_dm_thread_path stem) = false →
  archive_at stem t !! dm_thread_path stem = None ∧ archive_at stem t !! archived_dm_thread_path stem = t !! dm_thread_path stem.
Proof.
  intros Ha. unfold archive_at. rewrite Ha. cbn [orb].
  pose proof (path_exists_lookup t) as Hno.
  destruct (path_exists t (dm_thread_path stem)) eqn:Hp; cbn [negb].
  - split; [apply lookup_move_from; [apply dm_archived_apart|apply below_refl]|].
    pose proof (lookup_move_to (dm_thread_path stem) _ t [] (or_introl eq_refl) Ha) as H. by rewrite !app_nil_r in H.
  - by rewrite !Hno.
Qed.

Lemma archive_at_stays (t : tree) stem : path_exists t (archived_dm_thread_path stem) = true → archive_at stem t = t.
Proof. intros Ha. unfold archive_at. by rewrite Ha. Qed.

(** *** Phase 3 *)

Definition meta_targets (env : DepartEnv) (d : GDaemon) : list str :=
  sort_strings (omap (strip_suffix (lit ".meta.yaml")) (dir_names env (lit "channels") d)).

Lemma meta_targets_elem env d c :
  orderly env → c ∈ meta_targets env d ↔ (slash ∉ c) ∧ path_exists (r_work (g_repo d)) (channel_meta_path c) = true.
Proof.
  intros Ho. unfold meta_targets, sort_strings. rewrite sort_by_key_perm, list_elem_of_omap. split.
  - intros (name & Hn & ->%strip_suffix_Some). apply dir_names_elem in Hn as [Hs Hp]; [|done]. apply not_elem_of_app in Hs as [Hs _]. done.
  - intros (Hs & Hp). exists (c ++ lit ".meta.yaml"). split; [|by apply strip_suffix_Some]. apply dir_names_elem; [done|].
    split; [by apply suffix_no_slash|done].
Qed.

Lemma meta_paths_NoDup env d : orderly env → NoDup (channel_meta_path <$> meta_targets env d).
Proof.
  intros Ho. apply NoDup_fmap; [intros a b; apply channel_meta_path_inj|]. unfold meta_targets, sort_strings.
  rewrite sort_by_key_perm. apply NoDup_omap_inj; [|by apply dir_names_NoDup].
  intros x y z ->%strip_suffix_Some ->%strip_suffix_Some. done.
Qed.

Definition phase3_tree (env : DepartEnv) (handler : str) (d : GDaemon) (t : tree) : tree :=
  foldl (λ t c, alter (clean_yaml handler) (channel_meta_path c) t) t (meta_targets env d).

Lemma phase3_meta env handler d c :
  orderly env → slash ∉ c →
  phase3_tree env handler d (r_work (g_repo d)) !! channel_meta_path c = clean_yaml handler <$> r_work (g_repo d) !! channel_meta_path c.
Proof.
  intros Ho Hc. unfold phase3_tree. destruct (path_exists (r_work (g_repo d)) (channel_meta_path c)) eqn:Hp.
  - apply (foldl_alter_in (λ _, clean_yaml handler) channel_meta_path); [by apply meta_paths_NoDup|by apply meta_targets_elem].
  - rewrite (foldl_alter_out (λ _, clean_yaml handler) channel_meta_path).
    + by rewrite (path_exists_lookup _ _ Hp).
    + intros (c' & He & Hc')%list_elem_of_fmap. apply channel_meta_path_inj in He as <-. apply meta_targets_elem in Hc' as [_ H]; [congruence|done].
Qed.

Lemma phase3_other env handler d k :
  orderly env → (∀ c, slash ∉ c → k ≠ channel_meta_path c) →
  phase3_tree env handler d (r_work (g_repo d)) !! k = r_work (g_repo d) !! k.
Proof.
  intros Ho Hk. apply (foldl_alter_out (λ _, clean_yaml handler) channel_meta_path).
  intros (c & -> & Hc)%list_elem_of_fmap. apply meta_targets_elem in Hc as [Hs _]; [|done]. by apply (Hk c).
Qed.

(** *** The phases together *)

Lemma count_commits_each {A} (l l1 l2 : list A) x (body : A → Step bool) (f : A → tree → tree) d d' n :
  (∀ x d d' b, x ∈ l → body x d = (d', Ok b) → acts (f x) d d') → l = l1 ++ x :: l2 →
  count_commits l body d = (d', Ok n) →
  ∃ e e' b, acts (λ t, foldl (λ t x, f x t) t l1) d e ∧ body x e = (e', Ok b).
Proof.
  intros Hb -> H. revert d n Hb H. induction l1 as [|y l1 IH]; intros d n Hb H; cbn in *; unfold then_ in H.
  - destruct (body x d) as [d1 [b| |]] eqn:E; [|done|done]. exists d, d1, b. split; [apply acts_id|done].
  - destruct (body y d) as [d1 [b| |]] eqn:E; [|done|done].
    destruct (count_commits (l1 ++ x :: l2) body d1) as [d2 [m| |]] eqn:E2; [|done|done].
    destruct (IH d1 m) as (e & e' & b' & He & Hx).
    + intros z e0 e1 b0 Hz. apply Hb. by right.
    + by injection H as <- _.
    + exists e, e', b'. split; [|done]. refine (acts_compose (f y) (λ t, foldl (λ t x, f x t) t l1) d d1 e _ He).
      eapply Hb; [by left|done].
Qed.

Lemma phase1_acts env h d d' n :
  orderly env → phase1_write_leave_events env h d = (d', Ok n) → acts (phase1_tree env h d) d d'.
Proof.
  intros Ho H. eapply (count_commits_acts _ _ (leave_at env h)); [|exact H]. intros p e e' b _. by apply append_leave_event_acts.
Qed.

Lemma phase2_acts env handler d d' n :
  orderly env → phase2_archive_dms env handler d = (d', Ok n) → acts (phase2_tree env handler d) d d'.
Proof.
  intros Ho. unfold phase2_archive_dms. destruct (_ && _); [done|]. intros H.
  eapply (count_commits_acts _ _ archive_at); [|exact H]. intros s e e' b _. by apply archive_one_dm_acts.
Qed.

Lemma phase3_acts env handler d d' n :
  orderly env → phase3_clean_channel_members env handler d = (d', Ok n) →
  acts (phase3_tree env handler d) d d'
  ∧ ∀ c y m, slash ∉ c → r_work (g_repo d) !! channel_meta_path c = Some y → yaml_from_str y = Some m → handler ∈ cm_members m →
      is_Some (yaml_to_string (without handler m)).
Proof.
  intros Ho H. unfold phase3_clean_channel_members in H. fold (meta_targets env d) in H. cbv zeta in H.
  assert (∀ c e e' b, c ∈ meta_targets env d → clean_channel env handler c e = (e', Ok b) →
            acts (alter (clean_yaml handler) (channel_meta_path c)) e e') as Hb by (intros c e e' b _; by apply clean_channel_acts).
  split; [by eapply (count_commits_acts _ _ (λ c, alter (clean_yaml handler) (channel_meta_path c)))|].
  intros c y m Hc Hy Hm Hin. assert (c ∈ meta_targets env d) as Hct by (apply meta_targets_elem; [done|split; [done|by apply lookup_path_exists; eexists]]).
  apply list_elem_of_split in Hct as (l1 & l2 & El).
  destruct (count_commits_each _ l1 l2 c _ _ d d' n Hb El H) as (e & e' & b & (r & -> & Hr & _) & He).
  pose proof (meta_paths_NoDup env d Ho) as Hnd. rewrite El, fmap_app in Hnd. apply NoDup_app in Hnd as (_ & Hd & _).
  assert (r_work r !! channel_meta_path c = Some y) as Hy'.
  { rewrite Hr, (foldl_alter_out (λ _, clean_yaml handler) channel_meta_path); [done|]. intros Hin'. apply (Hd _ Hin'). cbn. by left. }
  unfold clean_channel, read_to_str in He. cbn [with_repo g_repo] in He. rewrite (od_read _ Ho), (od_reread _ Ho), Hy', Hm, bool_decide_true in He by done.
  cbn [negb] in He. destruct (yaml_to_string (without handler m)); [done|]. done.
Qed.

(** *** Phase 4 *)

Lemma below_head (c d : char) p q : c ≠ d → below (c :: p) (d :: q) = false.
Proof.
  intros Hne. apply strip_dir_None_below. destruct (strip_dir (c :: p) (d :: q)) eqn:E; [|done].
  apply strip_dir_Some in E as [[= He _] _]. congruence.
Qed.

(** The places of the user's own files. *)
Definition user_places (handler : str) : list str :=
  [user_meta_path handler; archived_user_meta_path handler; board_path handler; archived_board_path handler].

Lemma in_user_places handler k :
  in_paths (user_places handler) k = false →
  below (user_meta_path handler) k = false ∧ below (archived_user_meta_path handler) k = false
  ∧ below (board_path handler) k = false ∧ below (archived_board_path handler) k = false.
Proof. unfold in_paths. cbn [existsb user_places]. rewrite !orb_false_iff. tauto. Qed.

Lemma move_tree_file from to (t : tree) :
  apart from to → path_exists t to = false → move_tree from to t !! from = None ∧ move_tree from to t !! to = t !! from.
Proof.
  intros Ha Hto. split; [apply lookup_move_from; [done|apply below_refl]|].
  pose proof (lookup_move_to from to t [] (or_introl eq_refl) Hto) as H. by rewrite !app_nil_r in H.
Qed.

Lemma archive_user_files handler (t : tree) :
  path_exists t (archived_user_meta_path handler) = false → path_exists t (archived_board_path handler) = false →
  archive_user_at handler t !! user_meta_path handler = None
  ∧ archive_user_at handler t !! archived_user_meta_path handler = t !! user_meta_path handler
  ∧ archive_user_at handler t !! board_path handler = None
  ∧ archive_user_at handler t !! archived_board_path handler = t !! board_path handler.
Proof.
  intros Hu Hb. unfold archive_user_at, move_both. cbn [fst snd]. set (t1 := move_tree _ _ t).
  destruct (move_tree_file _ _ t (user_archived_apart handler handler) Hu) as [E1 E2]. fold t1 in E1, E2.
  assert (t1 !! board_path handler = t !! board_path handler) as E3.
  { apply lookup_move_other; [|]; refine (apart_not_below _ _ _ _ (below_refl _)); symmetry; [apply user_board_apart|apply archived_user_board_apart]. }
  assert (path_exists t1 (archived_board_path handler) = false) as Hb1.
  { unfold t1. rewrite path_exists_move_other; [done| |]; symmetry; [apply user_archived_board_apart|apply archived_user_archived_board_apart]. }
  destruct (path_exists t1 (board_path handler)) eqn:Hp.
  - destruct (move_tree_file _ _ t1 (board_archived_apart handler handler) Hb1) as [E4 E5].
    rewrite E4, E5, E3. rewrite !lookup_move_other; [by rewrite E1, E2| | | |]; refine (apart_not_below _ _ _ _ (below_refl _)).
    + apply archived_user_board_apart.
    + apply archived_user_archived_board_apart.
    + apply user_board_apart.
    + apply user_archived_board_apart.
  - rewrite E1, E2. rewrite (path_exists_lookup _ _ Hb1). pose proof (path_exists_lookup _ _ Hp) as H. rewrite H. rewrite H in E3. by rewrite <-E3.
Qed.

Lemma archive_user_other handler (t : tree) k : in_paths (user_places handler) k = false → archive_user_at handler t !! k = t !! k.
Proof.
  intros (H1 & H2 & H3 & H4)%in_user_places. unfold archive_user_at, move_both. cbn [fst snd]. destruct (path_exists _ (board_path handler)); by rewrite ?lookup_move_other.
Qed.

Lemma phase4_ok env handler d d' evs n :
  orderly env → path_exists (r_work (g_repo d)) (archived_user_meta_path handler) = false →
  path_exists (r_work (g_repo d)) (archived_board_path handler) = false →
  phase4_archive_user env handler d = (d', evs, Ok n) →
  ∃ r, d' = with_users (with_repo d r) (drop_user handler (g_users d))
       ∧ r_work r = archive_user_at handler (r_work (g_repo d)) ∧ (clean (g_repo d) → clean r)
       ∧ evs = [UserArchived handler handler (ue_now (de_step env (user_meta_path handler)))] ∧ n = 1.
Proof.
  intros Ho Hu Hb. unfold phase4_archive_user, exists_path. rewrite Hu. destruct (path_exists _ (user_meta_path handler)); cbn [negb]; [|done].
  destruct (ue_mkdir_ok _ _); cbn [negb]; [|done]. unfold run_move.
  destruct (move_with_board _ _ _ _ _) as [r [[]| |]] eqn:E; [|done|done].
  pose proof (push_no_conflict (g_has_remote d) (ue_push (de_step env (user_meta_path handler))) r (od_push _ Ho _)) as Hpush.
  destruct (push_with_retry _ _ r) as [r' [| |]]; [|done|done]. cbn in Hpush. subst r'. intros [= <- <- <-].
  apply move_user_ok in E as [Hw Hc]; [|done|].
  - exists r. split; [done|]. by split_and!.
  - rewrite path_exists_move_other; [done| |]; symmetry; [apply user_archived_board_apart|apply archived_user_archived_board_apart].
Qed.

(** ** The whole departure *)

(** The tree [t'] is [t] after the user has departed.  The threads of channels got his
    event; so did the direct messages, of which his own are in the archive, unless the
    archive had them before; no channel lists him; his record and his board are in the
    archive; every other file is the same. *)
Definition departed (env : DepartEnv) (h : Handler) (t t' : tree) : Prop :=
  let handler := handler_str h in
  (∀ name text, slash ∉ name → has_thread_extension name = true → t !! under (lit "channels") name = Some text →
     t' !! under (lit "channels") name = Some (leave_text (ue_now (de_step env (under (lit "channels") name))) h text))
  ∧ (∀ stem text, slash ∉ stem → stem ≠ [] → t !! dm_thread_path stem = Some text →
       let left := leave_text (ue_now (de_step env (dm_thread_path stem))) h text in
       if my_dm handler stem && negb (path_exists t (archived_dm_thread_path stem))
       then t' !! dm_thread_path stem = None ∧ t' !! archived_dm_thread_path stem = Some left
       else t' !! dm_thread_path stem = Some left)
  ∧ (∀ c y m, slash ∉ c → t !! channel_meta_path c = Some y → yaml_from_str y = Some m →
       ∃ y', t' !! channel_meta_path c = Some y'
             ∧ yaml_from_str y' = Some (set_members m (List.filter (λ x, negb (x =?? handler)) (cm_members m))))
  ∧ (t' !! user_meta_path handler = None ∧ t' !! archived_user_meta_path handler = t !! user_meta_path handler
     ∧ t' !! board_path handler = None ∧ t' !! archived_board_path handler = t !! board_path handler)
  ∧ (∀ k, ¬ thread_place k → (∀ c, slash ∉ c → k ≠ channel_meta_path c) → in_paths (user_places handler) k = false →
       (∀ stem, my_dm handler stem = true → slash ∉ stem → at_dm stem k = false) → t' !! k = t !! k).

Lemma thread_place_not_meta k c : thread_place k → k ≠ channel_meta_path c.
Proof.
  intros (dir & name & _ & -> & _ & He). unfold has_thread_extension in He. destruct (strip_suffix _ name) as [stem|] eqn:E; [|done].
  apply strip_suffix_Some in E as ->. apply thread_meta_disjoint.
Qed.

Lemma dm_thread_place stem : slash ∉ stem → stem ≠ [] → thread_place (dm_thread_path stem).
Proof.
  intros Hs Hne. exists (lit "dm"), (stem ++ lit ".thread"). split_and!; [by right|done|by apply suffix_no_slash|].
  unfold has_thread_extension. rewrite (proj2 (strip_suffix_Some _ _ stem) eq_refl). by destruct stem.
Qed.

(** Paths below different directories. *)
Lemma channels_not_dm stem name : at_dm stem (under (lit "channels") name) = false.
Proof. apply orb_false_iff. split; by apply below_head. Qed.

Lemma archived_dm_not_user handler stem : in_paths (user_places handler) (archived_dm_thread_path stem) = false.
Proof.
  unfold in_paths. cbn [existsb user_places]. rewrite !orb_false_iff. split_and!; [by apply below_head| |by apply below_head| |done].
  - apply (below_prefix (lit "archive/")).
  - apply (below_prefix (lit "archive/")).
Qed.

Lemma user_not_dm handler stem k : in_paths (user_places handler) k = true → at_dm stem k = false.
Proof.
  unfold in_paths. cbn [existsb user_places]. rewrite !orb_true_iff.
  assert (∀ p, apart p (dm_thread_path stem) → apart p (archived_dm_thread_path stem) → below p k = true → at_dm stem k = false) as H.
  { intros p H1 H2 Hp. apply orb_false_iff. split; by eapply apart_not_below. }
  intros [Hk|[Hk|[Hk|[Hk|Hk]]]]; [| | | |done]; (eapply H; [| |exact Hk]); try (by apply apart_head).
  - apply (apart_prefix (lit "archive/")). by apply apart_head.
  - apply (apart_prefix (lit "archive/")). by apply apart_head.
Qed.

(** The first character tells the user's places from those of threads and channels. *)
Lemma user_place_head handler k :
  in_paths (user_places handler) k = true → ∃ c q, k = c :: q ∧ c ≠ ch "c" ∧ c ≠ ch "d".
Proof.
  unfold in_paths. cbn [existsb user_places]. rewrite !orb_true_iff.
  assert (∀ c p, c ≠ ch "c" → c ≠ ch "d" → below (c :: p) k = true → ∃ c q, k = c :: q ∧ c ≠ ch "c" ∧ c ≠ ch "d") as H.
  { intros c p H1 H2 (rest & [-> _]%strip_dir_Some)%below_true. cbn. by eexists c, _. }
  intros [Hk|[Hk|[Hk|[Hk|Hk]]]]; [| | | |done]; by eapply H; [| |exact Hk].
Qed.

Lemma not_user_place handler c q : c = ch "c" ∨ c = ch "d" → in_paths (user_places handler) (c :: q) = false.
Proof. intros Hc. apply not_true_iff_false. intros (c' & q' & [= <- <-] & H1 & H2)%user_place_head. by destruct Hc. Qed.

Lemma without_id handler m : handler ∉ cm_members m → without handler m = m.
Proof.
  intros H. unfold without, set_members. replace (List.filter (λ x, negb (x =?? handler)) (cm_members m)) with (cm_members m); [by destruct m|].
  induction (cm_members m) as [|x l IH]; [done|]. cbn. apply not_elem_of_cons in H as [Hx Hl].
  rewrite bool_decide_false by congruence. cbn. by rewrite <-IH.
Qed.

Lemma clean_yaml_spec handler y m :
  yaml_from_str y = Some m → (handler ∈ cm_members m → is_Some (yaml_to_string (without handler m))) →
  yaml_from_str (clean_yaml handler y) = Some (without handler m).
Proof.
  intros Hm Hser. unfold clean_yaml. rewrite Hm. case_bool_decide as Hin.
  - destruct (Hser Hin) as [y' Hy']. rewrite Hy'. cbn. by apply yaml_roundtrip.
  - by rewrite without_id.
Qed.

Section phases_together.
Context (env : DepartEnv) (h : Handler) (d0 d1 d2 d3 : GDaemon) (t0 t1 t2 t3 : tree).
Context (Ho : orderly env).
Context (E0 : r_work (g_repo d0) = t0) (E1 : r_work (g_repo d1) = t1) (E2 : r_work (g_repo d2) = t2).
Context (H1 : t1 = phase1_tree env h d0 t0) (H2 : t2 = phase2_tree env (handler_str h) d1 t1)
        (H3 : t3 = phase3_tree env (handler_str h) d2 t2).

Lemma other_places k :
  ¬ thread_place k → (∀ c, slash ∉ c → k ≠ channel_meta_path c) →
  (∀ stem, my_dm (handler_str h) stem = true → slash ∉ stem → at_dm stem k = false) → t3 !! k = t0 !! k.
Proof using Ho E0 E1 E2 H1 H2 H3.
  intros Ht Hm Hd. rewrite H3, <-E2, phase3_other by done. rewrite E2, H2, <-E1, phase2_other by done.
  by rewrite E1, H1, <-E0, phase1_other.
Qed.

Lemma user_places_kept k : in_paths (user_places (handler_str h)) k = true → t3 !! k = t0 !! k.
Proof using Ho E0 E1 E2 H1 H2 H3.
  intros Hk. destruct (user_place_head _ _ Hk) as (c & q & -> & Hc & Hd). apply other_places.
  - intros (dir & name & [-> | ->] & He & _); injection He; congruence.
  - intros x _ He. injection He. congruence.
  - intros stem _ _. by eapply user_not_dm.
Qed.

Lemma user_path_kept p : p ∈ user_places (handler_str h) → path_exists t3 p = path_exists t0 p.
Proof using Ho E0 E1 E2 H1 H2 H3.
  intros Hp. apply path_exists_agree. intros k Hk. apply user_places_kept. unfold in_paths. apply existsb_Exists, Exists_exists. by exists p.
Qed.

Lemma channel_threads name text :
  slash ∉ name → has_thread_extension name = true → t0 !! under (lit "channels") name = Some text →
  t3 !! under (lit "channels") name = Some (leave_text (ue_now (de_step env (under (lit "channels") name))) h text).
Proof using Ho E0 E1 E2 H1 H2 H3.
  intros Hs He Ht. assert (thread_place (under (lit "channels") name)) as Hp by (exists (lit "channels"), name; split_and!; [by left|done..]).
  rewrite H3, <-E2, phase3_other; [|done|intros c _; by apply thread_place_not_meta].
  rewrite E2, H2, <-E1, phase2_other; [|done|intros; apply channels_not_dm].
  rewrite E1, H1, <-E0, phase1_thread by done. by rewrite E0, Ht.
Qed.

Lemma dm_threads stem text :
  slash ∉ stem → stem ≠ [] → t0 !! dm_thread_path stem = Some text →
  let left := leave_text (ue_now (de_step env (dm_thread_path stem))) h text in
  if my_dm (handler_str h) stem && negb (path_exists t0 (archived_dm_thread_path stem))
  then t3 !! dm_thread_path stem = None ∧ t3 !! archived_dm_thread_path stem = Some left
  else t3 !! dm_thread_path stem = Some left.
Proof using Ho E0 E1 E2 H1 H2 H3.
  intros Hs Hne Ht left. pose proof (dm_thread_place stem Hs Hne) as Hp.
  assert (t1 !! dm_thread_path stem = Some left) as Et1 by by rewrite H1, <-E0, phase1_thread, E0, Ht by done.
  assert (∀ k, at_dm stem k = true → t3 !! k = t2 !! k) as E3.
  { intros k Hk. rewrite H3, <-E2. apply phase3_other; [done|]. intros c Hc ->. by rewrite channel_meta_under, channels_not_dm in Hk. }
  assert (path_exists t1 (archived_dm_thread_path stem) = path_exists t0 (archived_dm_thread_path stem)) as Hpe.
  { rewrite H1. apply (path_exists_alters (λ p, leave_text (ue_now (de_step env p)) h) id). }
  destruct (my_dm (handler_str h) stem) eqn:Hm; cbn [andb].
  - rewrite !E3 by (apply at_dm_active || apply at_dm_archived).
    rewrite H2, <-E1, !(phase2_at _ _ _ stem) by (done || apply at_dm_active || apply at_dm_archived). rewrite E1.
    destruct (path_exists t0 (archived_dm_thread_path stem)) eqn:Ha; cbn [negb].
    + by rewrite archive_at_stays.
    + destruct (archive_at_moves t1 stem Hpe) as [-> ->]. by rewrite Et1.
  - rewrite E3 by apply at_dm_active. rewrite H2, <-E1, phase2_other; [by rewrite E1|done|].
    intros s Hms Hss. eapply at_dm_other; [exact Hs|done| |apply at_dm_active]. congruence.
Qed.

Lemma channel_metas c y m :
  (∀ c y m, slash ∉ c → t2 !! channel_meta_path c = Some y → yaml_from_str y = Some m → handler_str h ∈ cm_members m →
      is_Some (yaml_to_string (without (handler_str h) m))) →
  slash ∉ c → t0 !! channel_meta_path c = Some y → yaml_from_str y = Some m →
  ∃ y', t3 !! channel_meta_path c = Some y' ∧ yaml_from_str y' = Some (without (handler_str h) m).
Proof using Ho E0 E1 E2 H1 H2 H3.
  intros Hser Hc Hy Hm. assert (t2 !! channel_meta_path c = Some y) as Hy2.
  { rewrite H2, <-E1, phase2_other; [|done|intros; rewrite channel_meta_under; apply channels_not_dm].
    rewrite E1, H1, <-E0, phase1_other; [by rewrite E0|done|]. intros Ht. by apply (thread_place_not_meta _ c Ht). }
  exists (clean_yaml (handler_str h) y). split.
  - rewrite H3, <-E2, phase3_meta by done. by rewrite E2, Hy2.
  - apply clean_yaml_spec; [done|]. by apply (Hser c y m Hc).
Qed.

End phases_together.

Lemma phases123_ok env h d d' n :
  orderly env → phases123 env h d = (d', Ok n) →
  ∃ d1 d2, acts (phase1_tree env h d) d d1 ∧ acts (phase2_tree env (handler_str h) d1) d1 d2
  ∧ acts (phase3_tree env (handler_str h) d2) d2 d'
  ∧ ∀ c y m, slash ∉ c → r_work (g_repo d2) !! channel_meta_path c = Some y → yaml_from_str y = Some m → handler_str h ∈ cm_members m →
      is_Some (yaml_to_string (without (handler_str h) m)).
Proof.
  intros Ho. unfold phases123, then_, give.
  destruct (phase1_write_leave_events env h d) as [d1 [n1| |]] eqn:F1; [|done|done].
  destruct (phase2_archive_dms env (handler_str h) d1) as [d2 [n2| |]] eqn:F2; [|done|done].
  destruct (phase3_clean_channel_members env (handler_str h) d2) as [d3 [n3| |]] eqn:F3; [|done|done].
  intros [= <- _]. apply phase3_acts in F3 as [F3 Hser]; [|done].
  exists d1, d2. split_and!; [by eapply phase1_acts|by eapply phase2_acts|done|done].
Qed.

Lemma acts_elim f d d' :
  acts f d d' → r_work (g_repo d') = f (r_work (g_repo d)) ∧ (clean (g_repo d) → clean (g_repo d')) ∧ g_users d' = g_users d.
Proof. by intros (r & -> & H & Hc). Qed.

(** The four trees in a row make a departure. *)
Lemma departed_intro env h d d1 d2 t3 t4 :
  orderly env → path_exists t3 (archived_user_meta_path (handler_str h)) = false →
  path_exists t3 (archived_board_path (handler_str h)) = false →
  r_work (g_repo d1) = phase1_tree env h d (r_work (g_repo d)) →
  r_work (g_repo d2) = phase2_tree env (handler_str h) d1 (r_work (g_repo d1)) →
  t3 = phase3_tree env (handler_str h) d2 (r_work (g_repo d2)) →
  t4 = archive_user_at (handler_str h) t3 →
  (∀ c y m, slash ∉ c → r_work (g_repo d2) !! channel_meta_path c = Some y → yaml_from_str y = Some m → handler_str h ∈ cm_members m →
      is_Some (yaml_to_string (without (handler_str h) m))) →
  departed env h (r_work (g_repo d)) t4.
Proof.
  intros Ho Hu Hb W1 W2 W3 -> Hser. unfold departed. split; [|split; [|split; [|split]]].
  - intros name text Hs He Ht. rewrite archive_user_other; [|by apply not_user_place; left].
    by apply (channel_threads env h d d1 d2 _ _ _ _ Ho eq_refl eq_refl eq_refl W1 W2 W3).
  - intros stem text Hs Hne Ht.
    pose proof (dm_threads env h d d1 d2 _ _ _ _ Ho eq_refl eq_refl eq_refl W1 W2 W3 stem text Hs Hne Ht) as H. cbv zeta in H.
    assert (archive_user_at (handler_str h) t3 !! dm_thread_path stem = t3 !! dm_thread_path stem) as ->
      by (apply archive_user_other, not_user_place; by right).
    by rewrite (archive_user_other _ _ _ (archived_dm_not_user _ stem)).
  - intros c y m Hc Hy Hm. rewrite archive_user_other; [|by apply not_user_place; left]. by apply (channel_metas env h d d1 d2 _ _ _ _ Ho eq_refl eq_refl eq_refl W1 W2 W3 c y m).
  - pose proof (user_places_kept env h d d1 d2 _ _ _ _ Ho eq_refl eq_refl eq_refl W1 W2 W3) as Hk.
    destruct (archive_user_files _ _ Hu Hb) as (-> & -> & -> & ->).
    rewrite !Hk; [done| |]; unfold in_paths; cbn [existsb user_places]; by rewrite below_refl, ?orb_true_r.
  - intros k Ht Hm Hp Hd. rewrite archive_user_other by done. by apply (other_places env h d d1 d2 _ _ _ _ Ho eq_refl eq_refl eq_refl W1 W2 W3).
Qed.

(** C27: A departure that reports success is complete.  In an environment that lets the
    handler read the directories and files, and where no archived board is in the way, a
    run that reports a departure has done all of it: every thread of a channel and of a
    direct message that the user wrote in ends with his leave event, with his direct
    messages in the archive; no channel lists him, and the rest of each channel's record is
    the same; his record and his board are in the archive; nothing else in the clone has
    changed; the list of users and the event agree; and a clone that was clean is clean
    again, all of it committed. *)
Theorem departure_complete env d handler d' evs resp :
  orderly env → path_exists (r_work (g_repo d)) (archived_board_path handler) = false →
  handle_depart_user env d handler = (d', evs, Ok resp) → du_already_departed resp = false →
  ∃ h, Handler_new handler = Ok h
    ∧ departed env h (r_work (g_repo d)) (r_work (g_repo d'))
    ∧ g_users d' = drop_user handler (g_users d)
    ∧ evs = [UserArchived handler handler (ue_now (de_step env (user_meta_path handler)))]
    ∧ (clean (g_repo d) → clean (g_repo d')).
Proof.
  intros Ho Hb. unfold handle_depart_user, checked_then, valid_handler.
  destruct (Handler_new handler) as [h| |] eqn:Eh; cbn [map_err]; [|done|done]. pose proof (Handler_new_str _ _ Eh) as Hh.
  destruct (exists_path d (archived_user_meta_path handler)) eqn:Ea.
  { destruct (push_step (de_resync env) d) as [? [| |]]; [|done|done]. by intros [= <- <- <-]. }
  destruct (exists_path d (user_meta_path handler)); cbn [negb]; [|done].
  destruct (phases123 env h d) as [d3 [n| |]] eqn:E; [|done|done].
  destruct (phase4_archive_user env handler d3) as [[d4 evs4] [n4| |]] eqn:E4; [|done|done]. intros [= <- <- <-] _.
  apply phases123_ok in E as (d1 & d2 & (W1 & C1 & U1)%acts_elim & (W2 & C2 & U2)%acts_elim & (W3 & C3 & U3)%acts_elim & Hser); [|done].
  pose proof (user_path_kept env h d d1 d2 _ _ _ _ Ho eq_refl eq_refl eq_refl W1 W2 W3) as Hkept. rewrite Hh in Hkept.
  assert (path_exists (r_work (g_repo d3)) (archived_user_meta_path handler) = false) as Hu3 by (rewrite Hkept; [done|right; by left]).
  assert (path_exists (r_work (g_repo d3)) (archived_board_path handler) = false) as Hb3 by (rewrite Hkept; [done|do 3 right; by left]).
  apply phase4_ok in E4 as (r4 & -> & W4 & C4 & -> & _); [|done..].
  exists h. split; [done|]. cbn [with_users with_repo g_repo g_users]. split_and!; [|by rewrite U3, U2, U1|done|auto].
  rewrite <-Hh in Hu3, Hb3, W4. by eapply (departed_intro env h d d1 d2).
Qed.

(** Leaving is recorded, and recorded once.  In a thread that parses and whose last
    line is complete, a user who wrote in it and has not just left gets one event, on the
    next line number, after all the entries that were there; anybody else's thread stays as
    it is.  The new text parses, asks for no further event, and a departure that is asked
    for again, at whatever time, leaves it alone. *)
Theorem leave_recorded_once (now : str) (h : Handler) (text : str) (f : ThreadFile)
    (Hh : known_author h) (Hnow : is_timestamp now = true)
    (Hf : parse_thread text = Ok f) (Hc : complete_file text) :
  ∃ f', parse_thread (leave_text now h text) = Ok f' ∧ complete_file (leave_text now h text)
    ∧ needs_leave (entries f') h = false
    ∧ (if needs_leave (entries f) h
       then ∃ ev, entries f' = entries f ++ [EntryEvent ev] ∧ ev_author ev = h ∧ ev_event_type ev = LEAVE
                  ∧ ev_timestamp ev = now ∧ ev_line_number ev = wrapping_add (last_line_number f) 1
       else leave_text now h text = text)
    ∧ ∀ now', leave_text now' h (leave_text now h text) = leave_text now h text.
Proof.
  assert (∀ f', parse_thread (leave_text now h text) = Ok f' → needs_leave (entries f') h = false →
            ∀ now', leave_text now' h (leave_text now h text) = leave_text now h text) as Hagain.
  { intros f' Hp Hn now'. unfold leave_text at 1. by rewrite Hp, Hn. }
  assert (leave_text now h text = if needs_leave (entries f) h
          then text ++ format_event (wrapping_add (last_line_number f) 1) h now LEAVE (json_obj []) else text) as E
    by by unfold leave_text; rewrite Hf.
  rewrite E in Hagain |- *. clear E. destruct (needs_leave (entries f) h) eqn:En.
  - set (ev := MkChannelEvent (wrapping_add (last_line_number f) 1) 0 h now LEAVE (json_obj [])).
    assert (printable (EntryEvent ev)) as Hp.
    { split_and!; [apply wrapping_add_le|done|done|done|done|by vm_compute|apply json_obj_exact]. }
    destruct f as [es]. destruct (append_parses text es (EntryEvent ev) Hf Hc Hp) as [Hp' Hc'].
    assert (needs_leave (es ++ [EntryEvent ev]) h = false) as Hn.
    { unfold needs_leave, last_entry_is_leave_workspace. rewrite last_snoc. cbn [ev ev_event_type ev_author].
      by rewrite !bool_decide_true, andb_false_r. }
    exists (MkThreadFile (es ++ [EntryEvent ev])). split_and!; [done|done|done|by exists ev|by apply (Hagain _ Hp')].
  - exists f. split_and!; [done|done|done|done|by apply (Hagain f)].
Qed.

End depart.

(** ** Runs *)

Section runs.
#[local] Existing Instance ascii_unicode.
#[local] Existing Instance std_percent_encoding.
#[local] Existing Instance keyword_json.
#[local] Existing Instance channel_meta_yaml.
#[local] Existing Instance plain_git.

Definition bob : Handler := MkHandler (lit "bob").
Definition dm_stem : str := lit "alice--bob".
Definition team_meta : ChannelMeta :=
  MkChannelMeta (lit "team") (lit "alice") (lit "20260101T000000Z") [] [lit "alice"; lit "bob"] None.
Definition team_text : str := unwrap_or (yaml_to_string team_meta) [].

Definition hello : str := lit "[L000001][P000000][@bob][20260101T000000Z] hello
".

Definition team_tree : tree :=
  list_to_map
    [(under (lit "channels") (lit "team.thread"), hello); (channel_meta_path (lit "team"), team_text);
     (dm_thread_path dm_stem, hello); (user_meta_path (lit "bob"), lit "Bob"); (board_path (lit "bob"), lit "# Board")].
Definition team_daemon : GDaemon := MkGDaemon (MkRepo team_tree team_tree team_tree) sample_users [] true.

Definition depart_env : DepartEnv :=
  MkDepartEnv (λ _, true) (λ l, l) (λ _, user_env works) (λ _, true) (λ _, MkPushEnv works works works).

Lemma depart_env_orderly : orderly depart_env.
Proof. by split. Qed.

Definition bob_departs := handle_depart_user depart_env team_daemon (lit "bob").

Lemma bob_departs_ok :
  bob_departs = (bob_departs.1.1, bob_departs.1.2, Ok (MkDepartUserResponse (lit "bob") 5 false)).
Proof. apply outcome_ok. by vm_compute. Qed.

Lemma team_board_free : path_exists team_tree (archived_board_path (lit "bob")) = false.
Proof. by vm_compute. Qed.

Lemma departure_complete_witness : departed depart_env bob team_tree (r_work (g_repo bob_departs.1.1)).
Proof.
  destruct (departure_complete depart_env team_daemon (lit "bob") bob_departs.1.1 bob_departs.1.2 _
              depart_env_orderly team_board_free bob_departs_ok eq_refl) as (h & Hh & Hd & _).
  apply Handler_new_str in Hh. destruct h as [s]. cbn in Hh. subst s. exact Hd.
Defined.

Lemma leave_recorded_once_witness :
  leave_text (lit "20260101T000000Z") bob (leave_text (lit "20260101T000000Z") bob hello)
  = hello ++ lit "[L000002][P000000][@bob][20260101T000000Z][E:leave-workspace] {}
".
Proof.
  destruct (leave_recorded_once (lit "20260101T000000Z") bob hello (MkThreadFile [EntryMessage
      (MkMessage 1 0 bob (lit "20260101T000000Z") (lit "hello") [] [])])) as (f' & _ & _ & _ & _ & H);
    [right; by vm_compute|by vm_compute|by vm_compute|right; by vm_compute|].
  rewrite H. by vm_compute.
Defined.

(** What is left of the departure at the places it touches. *)
Example bob_has_departed :
  let t := r_work (g_repo bob_departs.1.1) in
  let left := hello ++ lit "[L000002][P000000][@bob][20260101T000000Z][E:leave-workspace] {}
" in
  bool_decide (t !! under (lit "channels") (lit "team.thread") = Some left) = true
  ∧ bool_decide (t !! archived_dm_thread_path dm_stem = Some left) = true
  ∧ is_some (t !! dm_thread_path dm_stem) = false
  ∧ is_some (t !! user_meta_path (lit "bob")) = false.
Proof. by vm_compute. Qed.

End runs.
