(* ===== verification/Boards.v ===== *)
(** * Showboards

    A user's board ([gitim-core/src/types/board.rs], [gitim-daemon/src/board_handlers.rs]): a
    Markdown file of YAML front matter and [## ] sections, its fields and sections edited in
    place, every edit committed on its own.  [serde_yaml] on the front matter is a
    parameter. *)

From S2P Require Import Prelude RustStr StrFacts Names Thread Meta Git Daemon Cards CommitOnly.
From stdpp Require Import options.
Open Scope N_scope.
Open Scope list_scope.

(** ** Data *)

Definition BOARD_VERSION : N := 1.
Definition BOARD_MAX_BYTES : N := 64 * 1024.
Definition BOARD_MAX_STATUS_LEN : N := 80.
Definition BOARD_MAX_SUMMARY_LEN : N := 280.

Inductive BoardError :=
  | BoardInvalidHandler (e : HandlerError)
  | BoardHandlerMismatch (expected actual : str)
  | BoardUnsupportedVersion (version expected : N)
  | BoardInvalidTimestamp (timestamp : str)
  | BoardEmptyStatus
  | BoardStatusTooLong (n max : N)
  | BoardSummaryTooLong (n max : N)
  | BoardLabel (e : LabelError)
  | BoardYamlSerialize
  | BoardUnknownField (field : str)
  | BoardInvalidSection (reason : str)
  | BoardTooLarge (n max : N).

Inductive BoardMarkdownError :=
  | BoardMdTooLarge (n max : N)
  | BoardMdOpening
  | BoardMdClosing
  | BoardMdYaml
  | BoardMdBoard (e : BoardError).

Record BoardMeta := MkBoardMeta {
  bm_version : N;
  bm_handler : str;
  bm_updated_at : str;
  bm_status : str;
  bm_summary : str;
  bm_labels : list str;
}.

Record BoardDocument := MkBoardDocument { bd_meta : BoardMeta; bd_body : str }.

Definition with_updated_at (t : str) (m : BoardMeta) : BoardMeta :=
  MkBoardMeta (bm_version m) (bm_handler m) t (bm_status m) (bm_summary m) (bm_labels m).
Definition with_status (s : str) (m : BoardMeta) : BoardMeta :=
  MkBoardMeta (bm_version m) (bm_handler m) (bm_updated_at m) s (bm_summary m) (bm_labels m).
Definition with_summary (s : str) (m : BoardMeta) : BoardMeta :=
  MkBoardMeta (bm_version m) (bm_handler m) (bm_updated_at m) (bm_status m) s (bm_labels m).
Definition with_labels (l : list str) (m : BoardMeta) : BoardMeta :=
  MkBoardMeta (bm_version m) (bm_handler m) (bm_updated_at m) (bm_status m) (bm_summary m) l.

Definition board_rel (handler : str) : res str BoardError :=
  let? h := map_err BoardInvalidHandler (Handler_new handler) in
  Ok (lit "showboards/" ++ handler_str h ++ lit "/board.md").

Definition default_board_body : str :=
  lit "## 我能做什么

## 暂时阻塞

## 最近交付

## 合作前需要知道的
".

(** ** Sections *)

Definition normalize_section_value (value : str) : str := trim_matches nl value.

Definition section_block (section value : str) : str :=
  let value := normalize_section_value value in
  if is_empty value then lit "## " ++ section ++ [nl; nl] else lit "## " ++ section ++ [nl; nl] ++ value ++ [nl].

Definition body_with_appended_section (body section : str) : str :=
  if is_empty body then section else trim_end_matches nl body ++ [nl; nl] ++ section.

Definition append_to_section_block (existing value : str) : str :=
  let replacement := trim_end_matches nl existing in
  let replacement := if negb (ends_with replacement [nl]) then replacement ++ [nl] else replacement in
  if negb (is_empty value) then replacement ++ value ++ [nl] else replacement.

Definition heading_name (line : str) : option str :=
  trim <$> strip_prefix (lit "## ") (trim_end_matches cr (trim_end_matches nl line)).

#[local] Arguments heading_name : simpl never.

(** The places of a section, counted in characters. *)
Record SectionRange := MkSectionRange { sr_start : nat; sr_end : nat }.

(** The first loop: where the heading starts and where it ends. *)
Fixpoint find_heading (ls : list str) (section : str) (offset : nat) : option (nat * nat) :=
  match ls with
  | [] => None
  | line :: ls' =>
      if heading_name line =?? Some section then Some (offset, offset + length line)%nat
      else find_heading ls' section (offset + length line)%nat
  end.

(** The second loop: where the next heading starts. *)
Fixpoint find_end (ls : list str) (offset : nat) : option nat :=
  match ls with
  | [] => None
  | line :: ls' => if is_some (heading_name line) then Some offset else find_end ls' (offset + length line)%nat
  end.

Definition find_section (body section : str) : option SectionRange :=
  '(start, content_start) ← find_heading (split_inclusive nl body) section 0;
  let last := unwrap_or (find_end (split_inclusive nl (drop content_start body)) content_start) (length body) in
  Some (MkSectionRange start last).

Definition validate_section_name (section : str) : res str BoardError :=
  let section := trim section in
  if is_empty section then Err (BoardInvalidSection (lit "empty"))
  else if contains section [nl] || contains section [cr] then Err (BoardInvalidSection (lit "must fit on one line"))
  else Ok section.

(** ** Checks *)

Definition validate_status (status : str) : res unit BoardError :=
  try? guard_err (is_empty (trim status)) BoardEmptyStatus then
  guard_err (BOARD_MAX_STATUS_LEN <? len status) (BoardStatusTooLong (len status) BOARD_MAX_STATUS_LEN).

Definition validate_summary (summary : str) : res unit BoardError :=
  guard_err (BOARD_MAX_SUMMARY_LEN <? len summary) (BoardSummaryTooLong (len summary) BOARD_MAX_SUMMARY_LEN).

Definition validate_board_meta (meta : BoardMeta) : res unit BoardError :=
  try? guard_err (negb (bm_version meta =? BOARD_VERSION)) (BoardUnsupportedVersion (bm_version meta) BOARD_VERSION) then
  try? map_err BoardInvalidHandler (Handler_new (bm_handler meta)) then
  try? guard_err (negb (card_timestamp_ok (bm_updated_at meta))) (BoardInvalidTimestamp (bm_updated_at meta)) then
  try? validate_status (bm_status meta) then
  try? validate_summary (bm_summary meta) then
  map_err BoardLabel (validate_labels (bm_labels meta) BOARD_MAX_LABELS).

Definition parse_labels_csv (value : str) : res (list str) BoardError :=
  let labels := List.filter (λ tag, negb (is_empty tag)) (map trim (split_char (ch ",") value)) in
  try? map_err BoardLabel (validate_labels labels BOARD_MAX_LABELS) then Ok labels.

Definition split_frontmatter (input : str) : res (str * str) BoardMarkdownError :=
  match strip_prefix (lit "---" ++ [nl]) input with
  | None => Err BoardMdOpening
  | Some rest =>
      match split_once ([nl] ++ lit "---" ++ [nl]) rest with
      | Some (yaml, body) => Ok (yaml ++ [nl], body)
      | None => match strip_prefix (lit "---" ++ [nl]) rest with
                | Some body => Ok ([], body)
                | None => Err BoardMdClosing
                end
      end
  end.

(** [serde_yaml] on board metadata: what it writes ends with a line break and has no line
    that ends a document. *)
Class BoardYaml := {
  #[global] board_yaml :: Yaml BoardMeta;
  board_yaml_line : ∀ (m : BoardMeta) t, yaml_to_string m = Some t → ∃ u, t = u ++ [nl];
  board_yaml_one_document : ∀ (m : BoardMeta) t, yaml_to_string m = Some t → contains (nl :: t) ([nl] ++ lit "---" ++ [nl]) = false;
}.

Section boards.
Context `{UC : !Unicode} `{BY : !BoardYaml}.

(** [text] with a line break at its end. *)
Definition with_final_nl (text : str) : str := if ends_with text [nl] then text else text ++ [nl].

Definition board_yaml_text (yaml : str) : str := unwrap_or (strip_prefix (lit "---" ++ [nl]) yaml) yaml.

Definition rendered_board_len (meta : BoardMeta) (body : str) : res N BoardError :=
  let? yaml := ok_or (yaml_to_string meta) BoardYamlSerialize in
  let yaml := board_yaml_text yaml in
  let yaml_newline_len := if ends_with yaml [nl] then 0 else 1 in
  let final_newline_len := if is_empty body || ends_with body [nl] then 0 else 1 in
  Ok (4 + len yaml + yaml_newline_len + 4 + len body + final_newline_len).

Definition validate_rendered_size (meta : BoardMeta) (body : str) : res unit BoardError :=
  let? n := rendered_board_len meta body in
  guard_err (BOARD_MAX_BYTES <? n) (BoardTooLarge n BOARD_MAX_BYTES).

Definition validate_candidate_document (meta : BoardMeta) (body : str) : res unit BoardError :=
  try? validate_board_meta meta then validate_rendered_size meta body.

Definition validate_board_document (doc : BoardDocument) : res unit BoardError :=
  try? validate_board_meta (bd_meta doc) then validate_rendered_size (bd_meta doc) (bd_body doc).

Definition validate_board_for_handler (doc : BoardDocument) (expected_handler : str) : res unit BoardError :=
  let? expected := map_err BoardInvalidHandler (Handler_new expected_handler) in
  try? validate_board_document doc then
  guard_err (negb (bm_handler (bd_meta doc) =?? handler_str expected))
    (BoardHandlerMismatch (handler_str expected) (bm_handler (bd_meta doc))).

Definition default_board (handler timestamp : str) : res BoardDocument BoardError :=
  let? h := map_err BoardInvalidHandler (Handler_new handler) in
  let doc := MkBoardDocument (MkBoardMeta BOARD_VERSION (handler_str h) timestamp (lit "idle") [] []) default_board_body in
  try? validate_board_document doc then Ok doc.

(** ** The Markdown form *)

Definition parse_board_markdown (input : str) : res BoardDocument BoardMarkdownError :=
  try? guard_err (BOARD_MAX_BYTES <? len input) (BoardMdTooLarge (len input) BOARD_MAX_BYTES) then
  let? '(yaml, body) := split_frontmatter input in
  let? meta := ok_or (yaml_from_str yaml) BoardMdYaml in
  let doc := MkBoardDocument meta body in
  try? map_err BoardMdBoard (validate_board_document doc) then Ok doc.

Definition render_board (yaml body : str) : str :=
  with_final_nl (with_final_nl (lit "---" ++ [nl] ++ board_yaml_text yaml) ++ lit "---" ++ [nl] ++ body).

Definition stringify_board_markdown (doc : BoardDocument) : res str BoardMarkdownError :=
  try? map_err BoardMdBoard (validate_board_document doc) then
  let? yaml := ok_or (yaml_to_string (bd_meta doc)) BoardMdYaml in
  let out := render_board yaml (bd_body doc) in
  try? guard_err (BOARD_MAX_BYTES <? len out) (BoardMdBoard (BoardTooLarge (len out) BOARD_MAX_BYTES)) then Ok out.

(** ** Edits *)

Definition set_board_field (doc : BoardDocument) (field value : str) : res BoardDocument BoardError :=
  let? meta :=
    (if field =?? lit "status" then
       let status := trim value in try? validate_status status then Ok (with_status status (bd_meta doc))
     else if field =?? lit "summary" then
       let summary := trim value in try? validate_summary summary then Ok (with_summary summary (bd_meta doc))
     else if (field =?? lit "labels") || (field =?? lit "tags") then
       let? labels := parse_labels_csv value in Ok (with_labels labels (bd_meta doc))
     else Err (BoardUnknownField field)) in
  let doc := MkBoardDocument meta (bd_body doc) in
  try? validate_board_document doc then Ok doc.

Definition replace_range (body : str) (r : SectionRange) (replacement : str) : str :=
  take (sr_start r) body ++ replacement ++ drop (sr_end r) body.

Definition set_board_section (doc : BoardDocument) (section value : str) : res BoardDocument BoardError :=
  let? section := validate_section_name section in
  let replacement := section_block section value in
  let body := match find_section (bd_body doc) section with
              | Some r => replace_range (bd_body doc) r replacement
              | None => body_with_appended_section (bd_body doc) replacement
              end in
  try? validate_candidate_document (bd_meta doc) body then Ok (MkBoardDocument (bd_meta doc) body).

Definition append_board_section (doc : BoardDocument) (section value : str) : res BoardDocument BoardError :=
  let? section := validate_section_name section in
  let value := normalize_section_value value in
  let body := match find_section (bd_body doc) section with
              | Some r =>
                  let existing := drop (sr_start r) (take (sr_end r) (bd_body doc)) in
                  replace_range (bd_body doc) r (append_to_section_block existing value)
              | None => body_with_appended_section (bd_body doc) (section_block section value)
              end in
  try? validate_candidate_document (bd_meta doc) body then Ok (MkBoardDocument (bd_meta doc) body).

End boards.

(** ** What a body is *)

(** The text before the first heading, and the sections with their text. *)
Fixpoint sections_of (ls : list str) : str * list (str * str) :=
  match ls with
  | [] => ([], [])
  | l :: ls' =>
      let '(before, sections) := sections_of ls' in
      match heading_name l with
      | Some name => ([], (name, before) :: sections)
      | None => (l ++ before, sections)
      end
  end.

Definition sections (body : str) : str * list (str * str) := sections_of (split_inclusive nl body).

(** The same without the line breaks around the texts. *)
Definition outline (body : str) : str * list (str * str) :=
  let '(before, ss) := sections body in (trim_matches nl before, map (λ '(name, text), (name, trim_matches nl text)) ss).

(** A text without headings. *)
Definition plain_text (text : str) : bool := is_empty (sections text).2.

(** The first section of the name changed, or a new one at the end. *)
Fixpoint upsert (name : str) (f : option str → str) (ss : list (str * str)) : list (str * str) :=
  match ss with
  | [] => [(name, f None)]
  | (n, text) :: ss' => if n =?? name then (n, f (Some text)) :: ss' else (n, text) :: upsert name f ss'
  end.

(** *** Line breaks at the ends *)

Lemma trim_end_matches_snoc c s : trim_end_matches c (s ++ [c]) = trim_end_matches c s.
Proof. unfold trim_end_matches. rewrite reverse_app. cbn. by rewrite N.eqb_refl. Qed.

Lemma trim_end_matches_keep c s x : x ≠ c → trim_end_matches c (s ++ [x]) = s ++ [x].
Proof.
  intros Hx. unfold trim_end_matches. rewrite reverse_app. cbn. rewrite (proj2 (N.eqb_neq c x)) by congruence.
  by rewrite <-(reverse_involutive (s ++ [x])), reverse_app.
Qed.

(** What is trimmed is copies of the character. *)
Lemma trim_end_matches_split c s : ∃ n, s = trim_end_matches c s ++ replicate n c.
Proof.
  induction s as [|x s [n Hn]] using rev_ind; [by exists 0%nat|]. destruct (decide (x = c)) as [->|Hx].
  - exists (S n). rewrite trim_end_matches_snoc, replicate_S_end, app_assoc, <-Hn. done.
  - exists 0%nat. by rewrite trim_end_matches_keep, app_nil_r.
Qed.

Lemma trim_end_matches_end c s : ends_with (trim_end_matches c s) [c] = false.
Proof.
  apply not_true_iff_false. intros (r & Hr)%ends_with_true.
  induction s as [|x s IH] using rev_ind; [by destruct r|]. destruct (decide (x = c)) as [->|Hx].
  - rewrite trim_end_matches_snoc in Hr. by apply IH.
  - rewrite trim_end_matches_keep in Hr by done. by apply app_inj_tail in Hr as [_ ->].
Qed.

Lemma trim_end_matches_id c s : ends_with s [c] = false → trim_end_matches c s = s.
Proof.
  intros He. destruct s as [|x s _] using rev_ind; [done|]. apply trim_end_matches_keep. intros ->.
  apply not_true_iff_false in He. apply He, ends_with_true. by exists s.
Qed.

Lemma trim_end_matches_app c a b :
  trim_end_matches c (a ++ b) = if is_empty (trim_end_matches c b) then trim_end_matches c a else a ++ trim_end_matches c b.
Proof.
  destruct (trim_end_matches_split c b) as [n Hn]. destruct (is_empty (trim_end_matches c b)) eqn:E.
  - destruct (trim_end_matches c b) as [|]; [|done]. rewrite Hn. cbn [app]. clear. induction n as [|n IH]; [by rewrite app_nil_r|].
    rewrite replicate_S_end, app_assoc, trim_end_matches_snoc. done.
  - assert (∀ m, trim_end_matches c (a ++ trim_end_matches c b ++ replicate m c) = a ++ trim_end_matches c b) as Hm; [|by rewrite Hn at 1].
    intros m. induction m as [|m IH].
    + rewrite app_nil_r. destruct (trim_end_matches c b) as [|x s _] eqn:Eb using rev_ind; [done|]. rewrite app_assoc.
      apply trim_end_matches_keep. intros ->. pose proof (trim_end_matches_end c b) as He. rewrite Eb in He.
      apply not_true_iff_false in He. apply He, ends_with_true. by exists s.
    + by rewrite replicate_S_end, !app_assoc, trim_end_matches_snoc, <-!app_assoc.
Qed.

Lemma trim_start_matches_app c a b :
  trim_start_matches c (a ++ b) = if is_empty (trim_start_matches c a) then trim_start_matches c b else trim_start_matches c a ++ b.
Proof.
  unfold trim_start_matches. induction a as [|x a IH]; [done|]. cbn. destruct (c =? x); [apply IH|done].
Qed.

(** The ends can be trimmed in either order. *)
Lemma trim_matches_end c s : trim_matches c s = trim_start_matches c (trim_end_matches c s).
Proof.
  unfold trim_matches. destruct (trim_end_matches_split c s) as [n Hn]. rewrite Hn at 1. rewrite trim_start_matches_app.
  assert (∀ m, trim_end_matches c (replicate m c) = [] ∧ trim_start_matches c (replicate m c) = []) as Hrep.
  { induction m as [|m [IH1 IH2]]; [done|]. split; [by rewrite replicate_S_end, trim_end_matches_snoc|].
    unfold trim_start_matches in *. cbn. by rewrite N.eqb_refl. }
  destruct (is_empty (trim_start_matches c (trim_end_matches c s))) eqn:E.
  - rewrite (proj2 (Hrep n)). by destruct (trim_start_matches c (trim_end_matches c s)).
  - rewrite trim_end_matches_app, (proj1 (Hrep n)). cbn [is_empty]. apply trim_end_matches_id.
    pose proof (trim_end_matches_end c s) as He. apply not_true_iff_false in He. apply not_true_iff_false.
    intros (r & Hr)%ends_with_true. apply He, ends_with_true. unfold trim_start_matches in Hr.
    destruct (drop_while_split (N.eqb c) (trim_end_matches c s)) as (p & Hp & _). rewrite Hr in Hp. exists (p ++ r). by rewrite <-app_assoc.
Qed.

Lemma trim_start_nonempty c s : trim_end_matches c s ≠ [] → trim_start_matches c (trim_end_matches c s) ≠ [].
Proof.
  intros Hne He. apply drop_while_empty in He. pose proof (trim_end_matches_end c s) as Hend.
  destruct (trim_end_matches c s) as [|x t _] using rev_ind; [done|]. apply Forall_app in He as [_ [Hx%N.eqb_eq _]%Forall_cons]. subst x.
  apply not_true_iff_false in Hend. apply Hend, ends_with_true. by exists t.
Qed.

Lemma trim_matches_snoc c s : trim_matches c (s ++ [c]) = trim_matches c s.
Proof. by rewrite !trim_matches_end, trim_end_matches_snoc. Qed.

Lemma trim_matches_cons c s : trim_matches c (c :: s) = trim_matches c s.
Proof. unfold trim_matches, trim_start_matches. cbn. by rewrite N.eqb_refl. Qed.

Lemma trim_matches_idemp c s : trim_matches c (trim_matches c s) = trim_matches c s.
Proof.
  rewrite (trim_matches_end c (trim_matches c s)). rewrite (trim_end_matches_id c (trim_matches c s)) by (unfold trim_matches; apply trim_end_matches_end).
  rewrite (trim_matches_end c s). unfold trim_start_matches. destruct (drop_while (N.eqb c) (trim_end_matches c s)) as [|x r] eqn:E; [done|].
  cbn. by rewrite (drop_while_head _ _ _ _ E).
Qed.

Lemma trim_matches_ends c s : ends_with (trim_matches c s) [c] = false.
Proof. unfold trim_matches. apply trim_end_matches_end. Qed.

(** *** Lines *)

Definition full_line (l : str) : Prop := ∃ a, l = a ++ [nl] ∧ nl ∉ a.

Lemma split_full A X : Forall full_line A → split_inclusive nl (concat A ++ X) = A ++ split_inclusive nl X.
Proof.
  induction 1 as [|l A (a & -> & Ha) _ IH]; [done|]. cbn [concat]. rewrite <-!app_assoc. cbn [app].
  rewrite split_inclusive_line by done. cbn [app]. by rewrite IH.
Qed.

Lemma split_before body A D : split_inclusive nl body = A ++ D → D ≠ [] → Forall full_line A.
Proof.
  remember (length body) as n eqn:Hn. revert body A Hn. induction n as [n IH] using lt_wf_ind. intros body A -> Hs HD.
  destruct A as [|l A]; [constructor|]. destruct (decide (nl ∈ body)) as [Hin|Hin].
  - apply list_elem_of_split_l in Hin as (a & b & -> & Ha). rewrite split_inclusive_line in Hs by done.
    injection Hs as <- Hs. constructor; [by exists a|]. refine (IH (length b) _ b A eq_refl Hs HD). rewrite length_app. cbn. lia.
  - destruct body as [|c body]; [done|]. rewrite split_inclusive_last in Hs by done. injection Hs as _ Hs.
    by destruct A, D.
Qed.

Lemma split_after body A D : split_inclusive nl body = A ++ D → D ≠ [] → split_inclusive nl (concat D) = D.
Proof.
  intros Hs HD. pose proof (split_before body A D Hs HD) as HA. pose proof (split_inclusive_concat nl body) as Hb.
  rewrite Hs, concat_app in Hb. rewrite <-Hb in Hs. rewrite split_full in Hs by done. by apply app_inv_head in Hs.
Qed.

(** A text that ends with a line break and what follows it. *)
Lemma split_app_nl a b : split_inclusive nl ((a ++ [nl]) ++ b) = split_inclusive nl (a ++ [nl]) ++ split_inclusive nl b.
Proof. rewrite <-app_assoc. apply split_inclusive_app. Qed.

(** The last line with and without its line break. *)
Lemma split_snoc b :
  split_inclusive nl (b ++ [nl]) = split_inclusive nl b ++ [[nl]]
  ∨ ∃ A l, split_inclusive nl b = A ++ [l] ∧ split_inclusive nl (b ++ [nl]) = A ++ [l ++ [nl]].
Proof.
  remember (length b) as n eqn:Hn. revert b Hn. induction n as [n IH] using lt_wf_ind. intros b ->.
  destruct (decide (nl ∈ b)) as [Hin|Hin].
  - apply list_elem_of_split_l in Hin as (a & c & -> & Ha). rewrite <-app_assoc. cbn [app].
    rewrite (split_inclusive_line nl a c), (split_inclusive_line nl a (c ++ [nl])) by done.
    destruct (IH (length c) ltac:(rewrite length_app; cbn; lia) c eq_refl) as [-> | (A & l & -> & ->)]; [by left|right].
    by exists ((a ++ [nl]) :: A), l.
  - destruct b as [|x b]; [by left|]. right. exists [], (x :: b). rewrite split_inclusive_last by done.
    by rewrite (split_inclusive_line nl (x :: b) []).
Qed.

Lemma heading_snoc l : heading_name (l ++ [nl]) = heading_name l.
Proof. unfold heading_name. by rewrite trim_end_matches_snoc. Qed.

(** *** Bodies in parts *)

Lemma sections_plain_app A X :
  (sections_of A).2 = [] → sections_of (A ++ X) = ((sections_of A).1 ++ (sections_of X).1, (sections_of X).2).
Proof.
  induction A as [|l A IH]; intros Hp; [cbn; by destruct (sections_of X)|]. cbn in *. destruct (sections_of A) as [before ss].
  destruct (heading_name l); cbn in *; [done|]. rewrite IH by done. cbn. by rewrite app_assoc.
Qed.

Lemma sections_of_plain A : (sections_of A).2 = [] → (sections_of A).1 = concat A.
Proof.
  induction A as [|l A IH]; intros Hp; [done|]. cbn in *. destruct (sections_of A) as [before ss].
  destruct (heading_name l); cbn in *; [done|]. by rewrite IH.
Qed.

Lemma sections_of_app A X :
  (sections_of X).1 = [] → sections_of (A ++ X) = ((sections_of A).1, (sections_of A).2 ++ (sections_of X).2).
Proof.
  intros HX. induction A as [|l A IH]; [cbn; destruct (sections_of X); cbn in *; by subst|]. cbn. rewrite IH.
  destruct (sections_of A) as [before ss]. by destruct (heading_name l).
Qed.

Lemma sections_of_names A name text : (name, text) ∈ (sections_of A).2 → ∃ l, l ∈ A ∧ heading_name l = Some name.
Proof.
  induction A as [|l A IH]; cbn; [by intros ?%elem_of_nil|]. destruct (sections_of A) as [before ss]. cbn in IH.
  destruct (heading_name l) as [n|] eqn:E; cbn.
  - intros [[= -> ->]|Hin]%elem_of_cons; [exists l; split; [by left|done]|].
    destruct (IH Hin) as (l' & ? & ?). exists l'. split; [by right|done].
  - intros Hin. destruct (IH Hin) as (l' & ? & ?). exists l'. split; [by right|done].
Qed.

(** Texts that differ in line breaks at their end. *)
Definition same_trimmed (s1 s2 : str) : Prop := trim_end_matches nl s1 = trim_end_matches nl s2.
Definition same_sections (b1 b2 : str * list (str * str)) : Prop :=
  same_trimmed b1.1 b2.1 ∧ Forall2 (λ x y, x.1 = y.1 ∧ same_trimmed x.2 y.2) b1.2 b2.2.

#[local] Instance same_sections_refl : Reflexive same_sections.
Proof. intros [b ss]. split; [done|]. cbn. induction ss; by constructor. Qed.

Lemma same_sections_cons A X Y : same_sections (sections_of X) (sections_of Y) → same_sections (sections_of (A ++ X)) (sections_of (A ++ Y)).
Proof.
  intros HXY. induction A as [|l A IH]; [done|]. cbn. destruct (sections_of (A ++ X)) as [b1 s1], (sections_of (A ++ Y)) as [b2 s2].
  destruct IH as [Hb Hs]. cbn in Hb, Hs. destruct (heading_name l); split; cbn; [done| |unfold same_trimmed in *|done].
  - by constructor.
  - by rewrite !trim_end_matches_app, Hb.
Qed.

Lemma sections_snoc b : same_sections (sections (b ++ [nl])) (sections b).
Proof.
  unfold sections. destruct (split_snoc b) as [-> | (A & l & -> & ->)].
  - rewrite <-(app_nil_r (split_inclusive nl b)) at 2. by apply same_sections_cons.
  - apply same_sections_cons. cbn. rewrite heading_snoc. destruct (heading_name l); [done|]. split; [|constructor]. cbn.
    unfold same_trimmed. by rewrite !app_nil_r, trim_end_matches_snoc.
Qed.

Lemma outline_same b1 b2 : same_sections (sections b1) (sections b2) → outline b1 = outline b2.
Proof.
  unfold outline. destruct (sections b1) as [p1 s1], (sections b2) as [p2 s2]. intros [Hp Hs]. cbn in Hp, Hs.
  rewrite !trim_matches_end, Hp. f_equal. induction Hs as [|[n1 t1] [n2 t2] ? ? [Hn Ht] _ IH]; [done|]. cbn in *. subst n2.
  by rewrite !trim_matches_end, Ht, IH.
Qed.

Lemma outline_snoc b : outline (b ++ [nl]) = outline b.
Proof. apply outline_same, sections_snoc. Qed.

Lemma plain_snoc b : plain_text (b ++ [nl]) = plain_text b.
Proof. unfold plain_text. destruct (sections_snoc b) as [_ H]. by destruct H. Qed.

Lemma outline_trim_end b : outline (trim_end_matches nl b) = outline b.
Proof.
  destruct (trim_end_matches_split nl b) as [n Hn]. rewrite Hn at 2. clear Hn. induction n as [|n IH]; [by rewrite app_nil_r|].
  by rewrite replicate_S_end, app_assoc, outline_snoc.
Qed.

Lemma plain_trim_end b : plain_text (trim_end_matches nl b) = plain_text b.
Proof.
  destruct (trim_end_matches_split nl b) as [n Hn]. rewrite Hn at 2. clear Hn. induction n as [|n IH]; [by rewrite app_nil_r|].
  by rewrite replicate_S_end, app_assoc, plain_snoc.
Qed.

(** *** Finding a section *)

Lemma find_heading_spec ls section offset :
  match find_heading ls section offset with
  | Some (start, content_start) =>
      ∃ A h C, ls = A ++ h :: C ∧ Forall (λ l, heading_name l ≠ Some section) A ∧ heading_name h = Some section
        ∧ start = (offset + length (concat A))%nat ∧ content_start = (start + length h)%nat
  | None => Forall (λ l, heading_name l ≠ Some section) ls
  end.
Proof.
  revert offset. induction ls as [|l ls IH]; intros offset; cbn; [constructor|]. case_bool_decide as Hl.
  - exists [], l, ls. cbn. split_and!; [done|constructor|done|lia|done].
  - specialize (IH (offset + length l)%nat). destruct (find_heading ls section _) as [[start content]|]; [|by constructor].
    destruct IH as (A & h & C & -> & HA & Hh & -> & ->). exists (l :: A), h, C. cbn. rewrite length_app.
    split_and!; [done|by constructor|done|lia|lia].
Qed.

Lemma find_end_spec ls offset :
  ∃ B C, ls = B ++ C ∧ (sections_of B).2 = [] ∧ (sections_of C).1 = []
    ∧ find_end ls offset = match C with [] => None | _ => Some (offset + length (concat B))%nat end.
Proof.
  revert offset. induction ls as [|l ls IH]; intros offset; cbn [find_end]; [by exists [], []|].
  destruct (heading_name l) eqn:E; cbn [is_some].
  - exists [], (l :: ls). cbn. rewrite E. destruct (sections_of ls). split_and!; [done..|]. f_equal. lia.
  - destruct (IH (offset + length l)%nat) as (B & C & -> & HB & HC & Hf). exists (l :: B), C. cbn. rewrite E, Hf.
    destruct (sections_of B) as [b ss]. cbn in *. split_and!; [done..|]. destruct C; [done|]. rewrite length_app. f_equal. lia.
Qed.

(** A section and what is around it, where it is the first of its name. *)
Record found_at (body section : str) (before block after : str) : Prop := MkFoundAt {
  fa_body : body = before ++ block ++ after;
  fa_before : ∃ A, Forall full_line A ∧ before = concat A ∧ Forall (λ l, heading_name l ≠ Some section) A;
  fa_block : ∃ h B, split_inclusive nl block = h :: B ∧ block = h ++ concat B ∧ heading_name h = Some section ∧ (sections_of B).2 = [];
  fa_after : (sections after).1 = [];
  fa_lines : split_inclusive nl (block ++ after) = split_inclusive nl block ++ split_inclusive nl after;
}.

Lemma find_section_Some body section r :
  find_section body section = Some r →
  ∃ before block after, found_at body section before block after
    ∧ sr_start r = length before ∧ sr_end r = (length before + length block)%nat.
Proof.
  unfold find_section. pose proof (find_heading_spec (split_inclusive nl body) section 0) as Hh.
  destruct (find_heading _ section 0) as [[start content]|]; [|done]. cbn [mbind option_bind]. intros [= <-].
  destruct Hh as (A & h & D & Hs & HA & Hh & -> & ->). cbn [Nat.add sr_start sr_end].
  pose proof (split_inclusive_concat nl body) as Hb. rewrite Hs, concat_app in Hb. cbn [concat] in Hb.
  pose proof (split_before body A (h :: D) Hs ltac:(done)) as HF.
  assert (split_inclusive nl (concat D) = D) as HD.
  { destruct D as [|d D]; [done|]. apply (split_after body (A ++ [h])); [by rewrite Hs, <-app_assoc|done]. }
  assert (drop (length (concat A) + length h) body = concat D) as Hdrop.
  { rewrite <-Hb, app_assoc, drop_app_length'; [done|]. by rewrite length_app. }
  rewrite Hdrop, HD. destruct (find_end_spec D (length (concat A) + length h)) as (B & C & -> & HB & HC & Hf).
  rewrite Hf. rewrite concat_app in Hb.
  assert (split_inclusive nl (concat C) = C) as HsC.
  { destruct C as [|c C]; [done|]. apply (split_after body (A ++ h :: B)); [by rewrite Hs, <-app_assoc|done]. }
  assert (split_inclusive nl (h ++ concat B) = h :: B ∧ split_inclusive nl ((h ++ concat B) ++ concat C) = (h :: B) ++ C) as [HsB HsBC].
  { pose proof (split_after body A (h :: B ++ C) Hs ltac:(done)) as Hall. cbn [concat] in Hall. rewrite concat_app, app_assoc in Hall.
    split; [|done]. destruct C as [|c C]; [by rewrite !app_nil_r in Hall|].
    pose proof (split_before body (A ++ h :: B) (c :: C) ltac:(by rewrite Hs, <-app_assoc) ltac:(done)) as [_ HhB]%Forall_app.
    pose proof (split_full (h :: B) [] HhB) as Hfull. rewrite !app_nil_r in Hfull. done. }
  exists (concat A), (h ++ concat B), (concat C). split; [split|].
  - by rewrite <-Hb, <-!app_assoc.
  - by exists A.
  - by exists h, B.
  - unfold sections. by rewrite HsC.
  - by rewrite HsBC, HsB, HsC.
  - split; [done|]. rewrite length_app. destruct C as [|c C]; cbn [unwrap_or]; [|lia].
    rewrite <-Hb. cbn [concat]. rewrite !app_nil_r, !length_app. lia.
Qed.

Lemma find_section_None body section : find_section body section = None → Forall (λ l, heading_name l ≠ Some section) (split_inclusive nl body).
Proof.
  unfold find_section. pose proof (find_heading_spec (split_inclusive nl body) section 0) as Hh.
  by destruct (find_heading _ section 0) as [[start content]|].
Qed.

(** *** Putting a section there *)

(** [block] is one section with the text, which ends with a line break. *)
Definition is_block (section text block : str) : Prop :=
  ∃ raw a, sections block = ([], [(section, raw)]) ∧ trim_matches nl raw = text ∧ block = a ++ [nl].

Lemma upsert_first name f (ss1 ss2 : list (str * str)) text :
  (∀ t, (name, t) ∉ ss1) → upsert name f (ss1 ++ (name, text) :: ss2) = ss1 ++ (name, f (Some text)) :: ss2.
Proof.
  induction ss1 as [|[n t] ss1 IH]; intros Hn; cbn; [by rewrite bool_decide_true|].
  rewrite bool_decide_false by (intros ->; apply (Hn t); by left). f_equal. apply IH. intros t' Ht. apply (Hn t'). by right.
Qed.

Lemma upsert_new name f (ss : list (str * str)) : (∀ t, (name, t) ∉ ss) → upsert name f ss = ss ++ [(name, f None)].
Proof.
  induction ss as [|[n t] ss IH]; intros Hn; cbn; [done|].
  rewrite bool_decide_false by (intros ->; apply (Hn t); by left). f_equal. apply IH. intros t' Ht. apply (Hn t'). by right.
Qed.

Definition bare (x : str * str) : str * str := (x.1, trim_matches nl x.2).

Lemma outline_eq body : outline body = (trim_matches nl (sections body).1, map bare (sections body).2).
Proof. unfold outline. destruct (sections body) as [b ss]. f_equal. apply map_ext. by intros []. Qed.

Lemma not_named (A : list str) section :
  Forall (λ l, heading_name l ≠ Some section) A → ∀ t, (section, t) ∉ map bare (sections_of A).2.
Proof.
  intros HA t ([n t'] & [= <- _] & Hin)%list_elem_of_fmap. apply sections_of_names in Hin as (l & Hl & Hn).
  rewrite Forall_forall in HA. by apply (HA l).
Qed.

Lemma outline_replace body section before block after text f :
  found_at body section before block after → is_block section (f (Some (trim_matches nl (drop (length (hd [] (split_inclusive nl block))) block)))) text →
  outline (before ++ text ++ after) = ((outline body).1, upsert section f (outline body).2).
Proof.
  intros [-> (A & HF & -> & HA) (h & B & HsB & Hblock & Hh & HB) Hafter Hlines] (raw & a & Htext & Hraw & Ha).
  rewrite HsB in Hraw. cbn [hd] in Hraw. rewrite Hblock, drop_app_length in Hraw.
  assert (∀ X, (sections X).1 = [] → sections (concat A ++ X) = ((sections_of A).1, (sections_of A).2 ++ (sections X).2)) as Hsplit.
  { intros X HX. unfold sections. rewrite split_full by done. by apply sections_of_app. }
  assert (sections (block ++ after) = ([], (section, concat B) :: (sections after).2)) as H1.
  { unfold sections in *. rewrite Hlines, HsB. rewrite sections_of_app by done. cbn. rewrite Hh.
    pose proof (sections_of_plain B HB) as Hpre. destruct (sections_of B) as [b ss]. cbn in *. by subst. }
  assert (sections (text ++ after) = ([], (section, raw) :: (sections after).2)) as H2.
  { unfold sections in *. rewrite Ha in Htext |- *. rewrite split_app_nl, sections_of_app by done. by rewrite Htext. }
  rewrite !outline_eq. rewrite !Hsplit by (by rewrite ?H1, ?H2). rewrite H1, H2. cbn [fst snd]. rewrite !map_app. cbn [map]. f_equal.
  change (bare (section, concat B)) with (section, trim_matches nl (concat B)). change (bare (section, raw)) with (section, trim_matches nl raw).
  rewrite upsert_first by (by apply not_named). by rewrite Hraw.
Qed.

Lemma outline_append body section text f :
  Forall (λ l, heading_name l ≠ Some section) (split_inclusive nl body) → is_block section (f None) text →
  outline (body_with_appended_section body text) = ((outline body).1, upsert section f (outline body).2).
Proof.
  intros HA (raw & a & Htext & Hraw & Ha). assert (map bare (sections text).2 = [(section, f None)]) as Hsec.
  { rewrite Htext. unfold bare. cbn [map fst snd]. by rewrite Hraw. }
  rewrite upsert_new by (rewrite outline_eq; by apply not_named). unfold body_with_appended_section.
  destruct body as [|x body'] eqn:Eb; cbn [is_empty].
  - rewrite !outline_eq, Hsec, Htext. done.
  - rewrite <-Eb in *. clear Eb. set (b := trim_end_matches nl body).
    assert (outline (b ++ [nl; nl]) = outline body) as Ho.
    { change [nl; nl] with ([nl] ++ [nl]). rewrite app_assoc, !outline_snoc. apply outline_trim_end. }
    rewrite <-Ho, app_assoc. change [nl; nl] with ([nl] ++ [nl]). rewrite (app_assoc b). set (c := b ++ [nl]).
    rewrite !outline_eq. unfold sections at 1 2. rewrite split_app_nl. rewrite sections_of_app by (unfold sections in Htext; by rewrite Htext).
    cbn [fst snd]. rewrite map_app. f_equal. f_equal. exact Hsec.
Qed.

(** *** The blocks that are written *)

Section edits.
Context `{UC : !Unicode} `{BY : !BoardYaml}.

Lemma section_name_ok section s :
  validate_section_name section = Ok s → s = trim section ∧ s ≠ [] ∧ (nl ∉ s) ∧ (cr ∉ s).
Proof.
  unfold validate_section_name. destruct (is_empty (trim section)) eqn:E; [done|].
  destruct (contains (trim section) [nl] || contains (trim section) [cr]) eqn:Ec; [done|]. intros [= <-].
  apply orb_false_iff in Ec as [Hn Hc]. split_and!; [done|by destruct (trim section)| |];
    intros Hin; apply contains_char_true in Hin; congruence.
Qed.

Lemma heading_line section s : validate_section_name section = Ok s → heading_name (lit "## " ++ s) = Some s.
Proof.
  intros (-> & Hne & Hn & Hc)%section_name_ok. unfold heading_name.
  assert (∀ c, c ∉ trim section → trim_end_matches c (lit "## " ++ trim section) = lit "## " ++ trim section) as Hid.
  { intros c Hc'. apply trim_end_matches_id, not_true_iff_false. intros (r & Hr)%ends_with_true.
    destruct (trim section) as [|x t _] using rev_ind; [done|]. rewrite app_assoc in Hr. apply app_inj_tail in Hr as [_ ->].
    apply Hc', elem_of_app. right. by left. }
  rewrite !Hid by done. rewrite strip_prefix_app. cbn. by rewrite trim_idem.
Qed.

Lemma is_block_lines s (h T : str) :
  heading_name h = Some s → nl ∉ h → plain_text T = true → T = [] ∨ (∃ t, T = t ++ [nl]) →
  is_block s (trim_matches nl T) (h ++ [nl] ++ T).
Proof.
  intros Hh Hnl Hp HT. assert (sections (h ++ [nl] ++ T) = ([], [(s, T)])) as Hsec.
  { unfold sections, plain_text in *. cbn [app]. rewrite split_inclusive_line by done. cbn [sections_of]. rewrite heading_snoc, Hh.
    assert ((sections_of (split_inclusive nl T)).2 = []) as H2 by (unfold sections in Hp; by destruct ((sections_of (split_inclusive nl T)).2)).
    pose proof (sections_of_plain _ H2) as H1. rewrite split_inclusive_concat in H1.
    destruct (sections_of (split_inclusive nl T)) as [b ss]. cbn in *. by subst. }
  destruct HT as [->|[t ->]].
  - by exists [], h.
  - exists (t ++ [nl]), (h ++ [nl] ++ t). split; [done|]. split; [done|]. by rewrite <-!app_assoc.
Qed.

Lemma plain_true text : plain_text text = true ↔ (sections text).2 = [].
Proof. unfold plain_text. by destruct ((sections text).2). Qed.

Lemma plain_app_nl a b : plain_text (a ++ [nl]) = true → plain_text b = true → plain_text ((a ++ [nl]) ++ b) = true.
Proof.
  rewrite !plain_true. unfold sections. intros Ha Hb. rewrite split_app_nl, sections_plain_app by done. done.
Qed.

Lemma plain_nl : plain_text [nl] = true.
Proof. done. Qed.

(** The texts of a section after an edit. *)
Definition set_text (value : str) (_ : option str) : str := normalize_section_value value.
Definition appended_text (value : str) (text : option str) : str :=
  let value := normalize_section_value value in
  match text with
  | Some text => if is_empty value then text else if is_empty text then value else text ++ [nl] ++ value
  | None => value
  end.

(** The value as the last lines of a section. *)
Lemma value_lines value :
  plain_text (normalize_section_value value) = true →
  let v := normalize_section_value value in
  let V := if is_empty v then [] else v ++ [nl] in
  plain_text V = true ∧ (V = [] ∨ ∃ t, V = t ++ [nl]) ∧ trim_matches nl V = v.
Proof.
  intros Hp v V. unfold V. destruct (is_empty v) eqn:E; [by destruct v; auto|]. split_and!; [by rewrite plain_snoc|right; by exists v|].
  rewrite trim_matches_snoc. apply trim_matches_idemp.
Qed.

Lemma section_block_is section s value (f : option str → str) :
  validate_section_name section = Ok s → plain_text (normalize_section_value value) = true → f None = normalize_section_value value →
  is_block s (f None) (section_block s value).
Proof.
  intros Hs Hp ->. pose proof (heading_line section s Hs) as Hh. apply section_name_ok in Hs as (_ & _ & Hn & _).
  assert (nl ∉ lit "## " ++ s) as Hnl by (intros [H|H]%elem_of_app; [|done]; cbn in H; set_unfold; naive_solver).
  destruct (value_lines value Hp) as (HpV & HV & Htrim). unfold section_block. cbv zeta in *.
  destruct (is_empty (normalize_section_value value)) eqn:E.
  - pose proof (is_block_lines s (lit "## " ++ s) [nl] Hh Hnl) as Hb. rewrite (app_assoc (lit "## ")), <-Htrim. apply Hb; [done|].
    right. by exists [].
  - pose proof (is_block_lines s (lit "## " ++ s) (nl :: normalize_section_value value ++ [nl]) Hh Hnl) as Hb.
    rewrite trim_matches_cons, Htrim in Hb. rewrite (app_assoc (lit "## ")). apply Hb; [by apply (plain_app_nl [])|].
    right. by exists (nl :: normalize_section_value value).
Qed.

Lemma block_heading block h B : split_inclusive nl block = h :: B → ∃ h0, (nl ∉ h0) ∧ (h = h0 ++ [nl] ∨ h = h0 ∧ B = []).
Proof.
  destruct (decide (nl ∈ block)) as [Hin|Hin].
  - apply list_elem_of_split_l in Hin as (a & b & -> & Ha). rewrite split_inclusive_line by done. intros [= <- _]. exists a. auto.
  - destruct block as [|x block]; [done|]. rewrite split_inclusive_last by done. intros [= <- <-]. by exists (x :: block); auto.
Qed.

Lemma trim_end_no_nl h : nl ∉ h → trim_end_matches nl h = h.
Proof.
  intros Hh. apply trim_end_matches_id, not_true_iff_false. intros (r & ->)%ends_with_true. apply Hh, elem_of_app. right. by left.
Qed.

Lemma append_block_is section block h B value :
  split_inclusive nl block = h :: B → block = h ++ concat B → heading_name h = Some section → (sections_of B).2 = [] →
  plain_text (normalize_section_value value) = true →
  is_block section (appended_text value (Some (trim_matches nl (concat B)))) (append_to_section_block block (normalize_section_value value)).
Proof.
  intros Hs Hblock Hh HB Hp. destruct (value_lines value Hp) as (HpV & HV & Htrim). cbv zeta in *.
  set (v := normalize_section_value value) in *. set (V := if is_empty v then [] else v ++ [nl]) in *.
  assert (append_to_section_block block v = trim_end_matches nl block ++ [nl] ++ V) as ->.
  { unfold append_to_section_block. rewrite trim_end_matches_end. cbn [negb]. unfold V. destruct (is_empty v); cbn [negb]; by rewrite <-?app_assoc, ?app_nil_r. }
  destruct (block_heading block h B Hs) as (h0 & Hn0 & Hh0).
  assert (trim_end_matches nl h = h0 ∧ heading_name h0 = Some section) as [Ht0 Hname].
  { destruct Hh0 as [-> | [-> _]]; [rewrite heading_snoc in Hh; rewrite trim_end_matches_snoc|]; split; try done; by apply trim_end_no_nl. }
  rewrite Hblock, trim_end_matches_app. set (tb := trim_end_matches nl (concat B)).
  assert (trim_matches nl (concat B) = trim_start_matches nl tb) as Hc by apply trim_matches_end.
  destruct (is_empty tb) eqn:Etb.
  - rewrite Ht0. replace (appended_text value (Some (trim_matches nl (concat B)))) with (trim_matches nl V); [by apply is_block_lines|].
    rewrite Htrim, Hc. destruct tb; [|done]. unfold appended_text. fold v. cbn. by destruct v.
  - assert (B ≠ []) as HBne by (intros ->; done). destruct Hh0 as [-> | [_ ->]]; [|done]. rewrite <-!app_assoc.
    replace (appended_text value (Some (trim_matches nl (concat B)))) with (trim_matches nl (tb ++ [nl] ++ V)).
    + apply is_block_lines; [done|done| |].
      * rewrite app_assoc. apply plain_app_nl; [|done]. rewrite plain_snoc. unfold tb. rewrite plain_trim_end. apply plain_true. unfold sections.
        rewrite (split_after block [h0 ++ [nl]] B Hs HBne). done.
      * right. destruct HV as [-> | [t ->]]; [by exists tb; rewrite app_nil_r|]. exists (tb ++ [nl] ++ t). by rewrite <-!app_assoc.
    + assert (trim_start_matches nl tb ≠ []) as Hne by (apply trim_start_nonempty; unfold tb in Etb; by destruct (trim_end_matches nl (concat B))).
      rewrite trim_matches_end. unfold appended_text. fold v. rewrite Hc.
      destruct (is_empty (trim_start_matches nl tb)) eqn:Es; [by destruct (trim_start_matches nl tb)|].
      unfold V. destruct (is_empty v) eqn:Ev.
      * cbn [app]. rewrite trim_end_matches_snoc. unfold tb. by rewrite (trim_end_matches_id nl (trim_end_matches nl _)) by apply trim_end_matches_end.
      * rewrite !app_assoc, trim_end_matches_snoc, trim_end_matches_app.
        assert (trim_end_matches nl v = v) as -> by apply trim_end_matches_id, trim_matches_ends.
        rewrite Ev, trim_start_matches_app, trim_start_matches_app, Es. cbn. destruct (trim_start_matches nl tb); [done|]. cbn. done.
Qed.

(** *** Edits of sections *)

(** An edit of a section does to the outline of the board what its name says: the section
    has the new text, at its old place or at the end, and everything else is as it was. *)
Definition edits_section (section : str) (f : option str → str) (doc doc' : BoardDocument) : Prop :=
  bd_meta doc' = bd_meta doc
  ∧ outline (bd_body doc') = ((outline (bd_body doc)).1, upsert (trim section) f (outline (bd_body doc)).2).

Lemma replace_found body section before block after r text :
  found_at body section before block after → sr_start r = length before → sr_end r = (length before + length block)%nat →
  replace_range body r text = before ++ text ++ after ∧ drop (sr_start r) (take (sr_end r) body) = block.
Proof.
  intros [-> _ _ _ _] Hs He. unfold replace_range. rewrite Hs, He. rewrite take_app_length. split.
  - by rewrite (app_assoc before block), drop_app_length' by (by rewrite length_app).
  - rewrite (app_assoc before block), take_app_length' by (by rewrite length_app). by rewrite drop_app_length.
Qed.

Lemma set_section_edits doc section value doc' :
  set_board_section doc section value = Ok doc' → plain_text (normalize_section_value value) = true →
  edits_section section (set_text value) doc doc'.
Proof.
  unfold set_board_section. intros H Hp. apply res_bind_Ok in H as (s & Hs & H). pose proof (section_name_ok _ _ Hs) as (Htrim & _).
  apply res_bind_Ok in H as ([] & _ & [= <-]). split; [done|]. cbn [bd_body]. rewrite <-Htrim.
  destruct (find_section (bd_body doc) s) as [r|] eqn:Ef.
  - apply find_section_Some in Ef as (before & block & after & Hf & Hst & Hen).
    destruct (replace_found _ _ _ _ _ r (section_block s value) Hf Hst Hen) as [-> _].
    eapply outline_replace; [exact Hf|]. by apply (section_block_is section s value (set_text value)).
  - apply outline_append; [by apply find_section_None|]. by apply (section_block_is section s value (set_text value)).
Qed.

Lemma append_section_edits doc section value doc' :
  append_board_section doc section value = Ok doc' → plain_text (normalize_section_value value) = true →
  edits_section section (appended_text value) doc doc'.
Proof.
  unfold append_board_section. intros H Hp. apply res_bind_Ok in H as (s & Hs & H). pose proof (section_name_ok _ _ Hs) as (Htrim & _).
  apply res_bind_Ok in H as ([] & _ & [= <-]). split; [done|]. cbn [bd_body]. rewrite <-Htrim.
  destruct (find_section (bd_body doc) s) as [r|] eqn:Ef.
  - apply find_section_Some in Ef as (before & block & after & Hf & Hst & Hen). cbv zeta.
    destruct (replace_found _ _ _ _ _ r [] Hf Hst Hen) as [_ ->].
    destruct (replace_found _ _ _ _ _ r (append_to_section_block block (normalize_section_value value)) Hf Hst Hen) as [-> _].
    eapply outline_replace; [exact Hf|]. destruct Hf as [_ _ (h & B & HsB & Hblock & Hh & HB) _ _].
    rewrite HsB. cbn [hd]. rewrite Hblock at 1. rewrite drop_app_length. by eapply append_block_is.
  - apply outline_append; [by apply find_section_None|].
    apply (section_block_is section s _ (appended_text value)); [done| |];
      unfold normalize_section_value at 1; rewrite trim_matches_idemp; [done|]. done.
Qed.

(** ** The Markdown form is read back *)

(** The body as it is stored. *)
Definition final_body (body : str) : str := if is_empty body then [] else with_final_nl body.

Lemma with_final_nl_app a b : b ≠ [] → with_final_nl (a ++ b) = a ++ with_final_nl b.
Proof.
  intros Hb. unfold with_final_nl. assert (ends_with (a ++ b) [nl] = ends_with b [nl]) as ->.
  { destruct b as [|x b _] using rev_ind; [done|]. apply eq_iff_eq_true. rewrite !ends_with_true, app_assoc. split; intros (r & Hr).
    - apply app_inj_tail in Hr as [_ ->]. by exists b.
    - apply app_inj_tail in Hr as [-> ->]. by eexists. }
  destruct (ends_with b [nl]); [done|]. by rewrite app_assoc.
Qed.

Lemma with_final_nl_id a : with_final_nl (a ++ [nl]) = a ++ [nl].
Proof. unfold with_final_nl. assert (ends_with (a ++ [nl]) [nl] = true) as -> by (apply ends_with_true; by exists a). done. Qed.

Lemma board_yaml_text_id meta yaml : yaml_to_string (meta : BoardMeta) = Some yaml → board_yaml_text yaml = yaml.
Proof.
  intros H. unfold board_yaml_text. destruct (strip_prefix _ yaml) as [r|] eqn:E; [|done]. apply strip_prefix_Some in E as ->.
  apply board_yaml_one_document in H. exfalso. apply contains_false in H. apply H. by exists [], r.
Qed.

Lemma literal_lens : len [nl] = 1 ∧ len (lit "---") = 3 ∧ len [] = 0.
Proof. done. Qed.

Lemma render_board_spec meta u body :
  yaml_to_string (meta : BoardMeta) = Some (u ++ [nl]) →
  render_board (u ++ [nl]) body = (lit "---" ++ [nl]) ++ u ++ ([nl] ++ lit "---" ++ [nl]) ++ final_body body.
Proof.
  intros H. unfold render_board. rewrite (board_yaml_text_id meta) by done. rewrite !app_assoc, with_final_nl_id.
  unfold final_body. destruct (is_empty body) eqn:E.
  - destruct body; [|done]. rewrite !app_nil_r, with_final_nl_id. by rewrite <-!app_assoc.
  - rewrite with_final_nl_app by (by destruct body). by rewrite <-!app_assoc.
Qed.

(** The size that is checked is the size that is written. *)
Lemma rendered_len meta yaml body n :
  yaml_to_string (meta : BoardMeta) = Some yaml → rendered_board_len meta body = Ok n → len (render_board yaml body) = n.
Proof.
  intros Hy. unfold rendered_board_len. rewrite Hy. cbn [ok_or res_bind]. rewrite (board_yaml_text_id meta) by done.
  destruct (board_yaml_line meta yaml Hy) as (u & ->).
  assert (ends_with (u ++ [nl]) [nl] = true) as -> by (apply ends_with_true; by exists u). intros [= <-].
  rewrite (render_board_spec meta) by done. rewrite !len_app. unfold final_body, with_final_nl.
  destruct (is_empty body) eqn:E; [destruct body; [|done]|cbn [orb]; destruct (ends_with body [nl]); rewrite ?len_app];
    destruct literal_lens as (H1 & H2 & H3); rewrite ?H1, ?H2, ?H3; cbn [orb]; lia.
Qed.

Lemma final_body_len meta body : rendered_board_len meta (final_body body) = rendered_board_len meta body.
Proof.
  unfold rendered_board_len. destruct (yaml_to_string meta) as [yaml|]; [|done]. cbn [ok_or res_bind]. f_equal.
  unfold final_body, with_final_nl. destruct (is_empty body) eqn:E; [by destruct body|]. destruct (ends_with body [nl]) eqn:Ee.
  - by rewrite E, Ee.
  - assert (is_empty (body ++ [nl]) = false) as -> by by destruct body.
    assert (ends_with (body ++ [nl]) [nl] = true) as -> by (apply ends_with_true; by exists body). cbn [orb]. rewrite len_app.
    destruct literal_lens as (H1 & _). rewrite H1. lia.
Qed.

(** The first line of three dashes ends the front matter. *)
Lemma dashes_split u body :
  contains (nl :: u ++ [nl]) ([nl] ++ lit "---" ++ [nl]) = false →
  split_once ([nl] ++ lit "---" ++ [nl]) (u ++ ([nl] ++ lit "---" ++ [nl]) ++ body) = Some (u, body).
Proof.
  intros Hno. apply split_once_intro. intros a' b' Heq.
  destruct (decide (length u ≤ length a')%nat) as [|Hlt]; [done|]. exfalso.
  assert (∃ r, u = a' ++ r ∧ r ≠ []) as (r & -> & Hr).
  { exists (drop (length a') u). split.
    - rewrite <-(take_drop (length a') u) at 1. f_equal.
      apply (f_equal (take (length a'))) in Heq. rewrite take_app_le in Heq by lia. by rewrite take_app_length in Heq.
    - intros Hd. apply (f_equal length) in Hd. rewrite length_drop in Hd. cbn in Hd. lia. }
  rewrite <-app_assoc in Heq. apply app_inv_head in Heq. apply contains_false in Hno. apply Hno.
  destruct r as [|c1 [|c2 [|c3 [|c4 [|c5 r]]]]]; cbn in Heq; try done; simplify_eq.
  - exists (nl :: a'), []. cbn. by rewrite <-!app_assoc.
  - exists (nl :: a'), (r ++ [nl]). cbn. by rewrite <-!app_assoc.
Qed.

Lemma stringify_parse (doc : BoardDocument) (text : str) :
  stringify_board_markdown doc = Ok text →
  parse_board_markdown text = Ok (MkBoardDocument (bd_meta doc) (final_body (bd_body doc))).
Proof.
  intros Hwrite.   unfold stringify_board_markdown in Hwrite. apply res_bind_Ok in Hwrite as ([] & Hv & Hwrite). apply map_err_Ok in Hv.
  apply res_bind_Ok in Hwrite as (yaml & Hy & Hwrite). destruct (yaml_to_string (bd_meta doc)) as [yaml'|] eqn:Ey; [|done]. injection Hy as <-.
  apply res_bind_Ok in Hwrite as ([] & Hg & [= <-]). apply guard_err_Ok in Hg.
  destruct (board_yaml_line _ _ Ey) as (u & ->). pose proof (board_yaml_one_document _ _ Ey) as Hone.
  unfold parse_board_markdown. rewrite Hg. cbn [guard_err res_bind]. rewrite (render_board_spec (bd_meta doc)) by done.
  unfold split_frontmatter. rewrite strip_prefix_app, dashes_split by done. cbn [res_bind]. rewrite (yaml_roundtrip _ _ Ey). cbn [ok_or res_bind].
  unfold validate_board_document, validate_rendered_size in *. cbn [bd_meta bd_body]. rewrite final_body_len.
  rewrite Hv. done.
Qed.

(** C29: A board is read back as it was written.  What [stringify_board_markdown] accepts is
    parsed again to the same metadata and the same body, but for the line break it puts at
    the end of a body that has none; the size limit that was checked before writing is the
    one the reader applies. *)
Theorem board_markdown_roundtrip (doc : BoardDocument) (text : str) (Hwrite : stringify_board_markdown doc = Ok text) :
  parse_board_markdown text = Ok (MkBoardDocument (bd_meta doc) (final_body (bd_body doc))).
Proof. by apply stringify_parse. Qed.

End edits.

(** ** The handlers *)

Inductive BoardFailure :=
  | BoardCore (e : BoardError)
  | BoardInvalid (e : BoardMarkdownError)
  | BoardAuthor (e : HandlerError)
  | BoardUnknownUser (h : str)
  | BoardExists (h : str)
  | BoardNotFound (h : str)
  | BoardRead
  | BoardMkdir
  | BoardWrite
  | BoardCommit
  | BoardList.

(** What a request does besides: the event it sends, and the sync loop it wakes. *)
Inductive BoardEffect := BoardUpdated (handler : str) | BoardPushNotify.

Record CommittedBoard := MkCommittedBoard { cb_handler : str; cb_path : str; cb_commit_id : str }.
Record WriteBoardResponse := MkWriteBoardResponse { wb_handler : str; wb_path : str; wb_status : str; wb_commit_id : str }.
Record BoardMetaSummary := MkBoardMetaSummary {
  bms_version : N; bms_handler : str; bms_updated_at : str; bms_status : str; bms_summary : str; bms_labels : list str }.
Record ReadBoardResponse := MkReadBoardResponse { rb_handler : str; rb_path : str; rb_meta : BoardMetaSummary; rb_body : str }.
Record BoardSummary := MkBoardSummary {
  bs_handler : str; bs_path : str; bs_updated_at : str; bs_status : str; bs_summary : str; bs_labels : list str }.

Definition board_meta_summary (m : BoardMeta) : BoardMetaSummary :=
  MkBoardMetaSummary (bm_version m) (bm_handler m) (bm_updated_at m) (bm_status m) (bm_summary m) (bm_labels m).

Section board_handlers.
Context `{UC : !Unicode} `{BY : !BoardYaml} `{GI : !Git} `{GO : !GitOnly}.

(** What the environment answers: the time, the file system, git. *)
Record BoardEnv := MkBoardEnv {
  be_now : str;
  be_read_ok : str → bool;
  be_mkdir_ok : bool;
  be_write_ok : bool;
  be_commit : OnlyEnv;
  be_read_dir : option (list str);
}.

Definition read_board_content (env : BoardEnv) (r : Repo) (rel handler : str) : res str BoardFailure :=
  match r_work r !! rel with
  | Some content => if be_read_ok env rel then Ok content else Err BoardRead
  | None => if path_exists (r_work r) rel then Err BoardRead else Err (BoardNotFound handler)
  end.

Definition commit_board_document_locked (env : BoardEnv) (r : Repo) (author : str) (doc : BoardDocument)
  : Repo * res CommittedBoard BoardFailure :=
  match (try? map_err BoardCore (validate_board_for_handler doc author) then
         let? rel := map_err BoardCore (board_rel author) in
         let? rendered := map_err BoardInvalid (stringify_board_markdown doc) in
         Ok (rel, rendered)) with
  | Ok (rel, rendered) =>
      if negb (be_mkdir_ok env) then (r, Err BoardMkdir)
      else if negb (be_write_ok env) then (r, Err BoardWrite)
      else let '(r', commit_id) := add_and_commit_only_as (be_commit env) rel (wrote_file rel rendered r) in
           (r', match commit_id with Some id => Ok (MkCommittedBoard author rel id) | None => Err BoardCommit end)
  | Err e => (r, Err e)
  | Panicked => (r, Panicked)
  end.

(** A document is prepared under the lock and committed. *)
Definition commit_prepared (env : BoardEnv) (r : Repo) (author : str) (prepared : res BoardDocument BoardFailure)
  : Repo * res CommittedBoard BoardFailure :=
  match prepared with
  | Ok doc => commit_board_document_locked env r author doc
  | Err e => (r, Err e)
  | Panicked => (r, Panicked)
  end.

Definition init_board (env : BoardEnv) (r : Repo) (author : str) : Repo * res CommittedBoard BoardFailure :=
  commit_prepared env r author
    (let? rel := map_err BoardCore (board_rel author) in
     try? guard_err (path_exists (r_work r) rel) (BoardExists author) then
     map_err BoardCore (default_board author (be_now env))).

Definition stamp_board (env : BoardEnv) (doc : BoardDocument) : BoardDocument :=
  MkBoardDocument (with_updated_at (be_now env) (bd_meta doc)) (bd_body doc).

Definition publish_board (env : BoardEnv) (r : Repo) (author : str) (content : option str) : Repo * res CommittedBoard BoardFailure :=
  commit_prepared env r author
    (let? rel := map_err BoardCore (board_rel author) in
     let? text := match content with Some content => Ok content | None => read_board_content env r rel author end in
     let? doc := map_err BoardInvalid (parse_board_markdown text) in
     try? map_err BoardCore (validate_board_for_handler doc author) then
     Ok (stamp_board env doc)).

Definition mutate_existing_board (env : BoardEnv) (r : Repo) (author : str) (mutate : BoardDocument → res BoardDocument BoardError)
  : Repo * res CommittedBoard BoardFailure :=
  commit_prepared env r author
    (let? rel := map_err BoardCore (board_rel author) in
     let? content := read_board_content env r rel author in
     let? doc := map_err BoardInvalid (parse_board_markdown content) in
     try? map_err BoardCore (validate_board_for_handler doc author) then
     let? doc := map_err BoardCore (mutate doc) in
     Ok (stamp_board env doc)).

Definition known_board_user (d : GDaemon) (handler : str) : res unit BoardFailure :=
  let? h := map_err BoardAuthor (Handler_new handler) in
  guard_err (negb (bool_decide (handler_str h ∈ g_users d))) (BoardUnknownUser handler).

Definition BoardOutcome : Type := GDaemon * list BoardEffect * res WriteBoardResponse BoardFailure.

Definition board_write_success (committed : CommittedBoard) : list BoardEffect * WriteBoardResponse :=
  ([BoardUpdated (cb_handler committed); BoardPushNotify],
   MkWriteBoardResponse (cb_handler committed) (cb_path committed) (lit "committed") (cb_commit_id committed)).

(** The part the write requests share: the author is checked, the board is committed. *)
Definition board_request (d : GDaemon) (author : str) (run : Repo → Repo * res CommittedBoard BoardFailure) : BoardOutcome :=
  match known_board_user d author with
  | Ok _ =>
      let '(r', result) := run (g_repo d) in
      let d' := with_repo d r' in
      match result with
      | Ok committed => let '(effects, response) := board_write_success committed in (d', effects, Ok response)
      | Err e => (d', [], Err e)
      | Panicked => (d', [], Panicked)
      end
  | Err e => (d, [], Err e)
  | Panicked => (d, [], Panicked)
  end.

Definition handle_board_init (env : BoardEnv) (d : GDaemon) (author : str) : BoardOutcome :=
  board_request d author (λ r, init_board env r author).
Definition handle_board_publish (env : BoardEnv) (d : GDaemon) (author : str) (content : option str) : BoardOutcome :=
  board_request d author (λ r, publish_board env r author content).
Definition handle_board_set (env : BoardEnv) (d : GDaemon) (author field value : str) : BoardOutcome :=
  board_request d author (λ r, mutate_existing_board env r author (λ doc, set_board_field doc field value)).
Definition handle_board_section_set (env : BoardEnv) (d : GDaemon) (author section value : str) : BoardOutcome :=
  board_request d author (λ r, mutate_existing_board env r author (λ doc, set_board_section doc section value)).
Definition handle_board_section_append (env : BoardEnv) (d : GDaemon) (author section value : str) : BoardOutcome :=
  board_request d author (λ r, mutate_existing_board env r author (λ doc, append_board_section doc section value)).

Definition handle_board_show (env : BoardEnv) (d : GDaemon) (handler : str) : res ReadBoardResponse BoardFailure :=
  try? map_err BoardAuthor (Handler_new handler) then
  let? rel := map_err BoardCore (board_rel handler) in
  let? content := read_board_content env (g_repo d) rel handler in
  let? doc := map_err BoardInvalid (parse_board_markdown content) in
  try? map_err BoardCore (validate_board_for_handler doc handler) then
  Ok (MkReadBoardResponse handler rel (board_meta_summary (bd_meta doc)) (bd_body doc)).

Definition board_summary (env : BoardEnv) (d : GDaemon) (handler : str) : option BoardSummary :=
  if negb (is_ok (Handler_new handler)) || negb (bool_decide (handler ∈ g_users d)) then None
  else
    match board_rel handler with
    | Ok rel =>
        content ← if be_read_ok env rel then r_work (g_repo d) !! rel else None;
        match parse_board_markdown content with
        | Ok doc =>
            if is_ok (validate_board_for_handler doc handler) then
              let m := bd_meta doc in
              Some (MkBoardSummary handler rel (bm_updated_at m) (bm_status m) (bm_summary m) (bm_labels m))
            else None
        | _ => None
        end
    | _ => None
    end.

Definition handle_board_list (env : BoardEnv) (d : GDaemon) : res (list BoardSummary) BoardFailure :=
  if negb (path_exists (r_work (g_repo d)) (lit "showboards")) then Ok []
  else
    let? entries := ok_or (be_read_dir env) BoardList in
    Ok (sort_by_key (λ a b, str_leb (bs_handler a) (bs_handler b)) (omap (board_summary env d) entries)).

(** ** What the handlers keep *)

Definition board_file (handler : str) : str := lit "showboards/" ++ handler ++ lit "/board.md".

Lemma board_rel_Ok handler rel : board_rel handler = Ok rel → rel = board_file handler ∧ is_ok (Handler_new handler) = true.
Proof.
  unfold board_rel. intros H. apply res_bind_Ok in H as (h & Hh & [= <-]). apply map_err_Ok in Hh.
  rewrite Hh. by rewrite (Handler_new_str _ _ Hh).
Qed.

(** The text is a board of the handler. *)
Definition board_of (handler text : str) : Prop :=
  ∃ doc, parse_board_markdown text = Ok doc ∧ validate_board_for_handler doc handler = Ok tt.

(** A commit of a document, whether it succeeds or not: nothing is written, or the document
    is, at the author's own path. *)
Lemma commit_prepared_spec env r author prepared r' result :
  commit_prepared env r author prepared = (r', result) →
  (r' = r ∧ ∀ c, result ≠ Ok c)
  ∨ ∃ doc text, prepared = Ok doc ∧ validate_board_for_handler doc author = Ok tt ∧ stringify_board_markdown doc = Ok text
      ∧ only_wrote (board_file author) text r r'
      ∧ ∀ c, result = Ok c → cb_handler c = author ∧ cb_path c = board_file author
          ∧ r_head r' = sync_paths [board_file author] (r_work r') (r_head r).
Proof.
  unfold commit_prepared. destruct prepared as [doc| |]; [|by intros [= <- <-]; left..]. unfold commit_board_document_locked.
  destruct (res_bind _ _) as [[rel rendered]|e|] eqn:E; [|by intros [= <- <-]; left..].
  apply res_bind_Ok in E as ([] & Hv%map_err_Ok & E). apply res_bind_Ok in E as (rel' & Hrel%map_err_Ok & E).
  apply res_bind_Ok in E as (text & Ht%map_err_Ok & [= <- <-]). apply board_rel_Ok in Hrel as [-> _].
  destruct (be_mkdir_ok env); [|by intros [= <- <-]; left]. destruct (be_write_ok env); [|by intros [= <- <-]; left]. cbn [negb].
  destruct (add_and_commit_only_as _ _ _) as [r2 id] eqn:Ec. intros [= <- <-]. apply commit_only_spec in Ec as [How Hid].
  right. exists doc, text. split_and!; [done..|]. intros c. destruct id as [id|]; [|done]. intros [= <-]. cbn.
  split_and!; [done|done|]. by apply Hid.
Qed.

(** The documents a request prepares. *)
Lemma board_request_spec d author run d' effects result :
  (∀ r r' res, run r = (r', res) → ∃ env prepared, commit_prepared env r author prepared = (r', res)) →
  board_request d author run = (d', effects, result) →
  g_repo d' = g_repo d
  ∨ ∃ doc text, validate_board_for_handler doc author = Ok tt ∧ stringify_board_markdown doc = Ok text
      ∧ only_wrote (board_file author) text (g_repo d) (g_repo d').
Proof.
  intros Hrun. unfold board_request. destruct (known_board_user d author); [|by intros [= <- <- <-]; left..].
  destruct (run (g_repo d)) as [r' res] eqn:E. intros H. assert (g_repo d' = r') as Hd.
  { destruct res as [c| |]; [destruct (board_write_success c)| |]; by injection H as <- <- <-. }
  rewrite Hd. apply Hrun in E as (env & prepared & E). apply commit_prepared_spec in E as [[-> _]|(doc & text & _ & Hv & Ht & How & _)]; [by left|].
  right. by exists doc, text.
Qed.

Lemma validate_handler_body doc body h :
  (∀ m, rendered_board_len m body = rendered_board_len m (bd_body doc)) →
  validate_board_for_handler (MkBoardDocument (bd_meta doc) body) h = validate_board_for_handler doc h.
Proof.
  intros Hlen. unfold validate_board_for_handler, validate_board_document, validate_rendered_size. cbn [bd_meta bd_body]. by rewrite Hlen.
Qed.

Lemma stored_board_of doc text author :
  validate_board_for_handler doc author = Ok tt → stringify_board_markdown doc = Ok text → board_of author text.
Proof.
  intros Hv Ht. eexists. split; [by apply stringify_parse|]. rewrite validate_handler_body; [done|]. intros m. apply final_body_len.
Qed.

(** Every board that is stored is a board of the user whose it is. *)
Definition boards_ok (t : tree) : Prop := ∀ h text, is_ok (Handler_new h) = true → t !! board_file h = Some text → board_of h text.
Definition clone_boards_ok (r : Repo) : Prop := boards_ok (r_work r) ∧ boards_ok (r_index r) ∧ boards_ok (r_head r).

Lemma board_file_inj h1 h2 : board_file h1 = board_file h2 → h1 = h2.
Proof. unfold board_file. intros H%app_inv_head. by apply app_inv_tail in H. Qed.

Lemma only_wrote_boards author text r r' :
  only_wrote (board_file author) text r r' → board_of author text → clone_boards_ok r → clone_boards_ok r'.
Proof.
  intros [Hw Hi Hh] Hb (Okw & Oki & Okh). assert (boards_ok (r_work r')) as Hwork.
  { intros h t Hok. rewrite Hw. destruct (decide (h = author)) as [->|Hne].
    - rewrite lookup_insert_eq. by intros [= <-].
    - rewrite lookup_insert_ne by (by intros ?%board_file_inj). by apply Okw. }
  assert (∀ t, boards_ok t → boards_ok (sync_paths [board_file author] (r_work r') t)) as Hsync.
  { intros t Ht h x Hok. rewrite lookup_sync_paths. destruct (in_paths _ _); [by apply Hwork|by apply Ht]. }
  split_and!; [done|destruct Hi as [-> | ->]|destruct Hh as [-> | ->]]; [done|by apply Hsync|done|by apply Hsync].
Qed.

(** A request of anybody, with whatever answers. *)
Inductive board_step (d : GDaemon) : GDaemon → Prop :=
  | step_init env author d' effects result : handle_board_init env d author = (d', effects, result) → board_step d d'
  | step_publish env author content d' effects result : handle_board_publish env d author content = (d', effects, result) → board_step d d'
  | step_set env author field value d' effects result : handle_board_set env d author field value = (d', effects, result) → board_step d d'
  | step_section_set env author section value d' effects result :
      handle_board_section_set env d author section value = (d', effects, result) → board_step d d'
  | step_section_append env author section value d' effects result :
      handle_board_section_append env d author section value = (d', effects, result) → board_step d d'.

Lemma board_step_spec d d' :
  board_step d d' →
  g_repo d' = g_repo d
  ∨ ∃ author doc text, validate_board_for_handler doc author = Ok tt ∧ stringify_board_markdown doc = Ok text
      ∧ only_wrote (board_file author) text (g_repo d) (g_repo d').
Proof.
  intros [env author ? ? ? H|env author ? ? ? ? H|env author ? ? ? ? ? H|env author ? ? ? ? ? H|env author ? ? ? ? ? H];
    (eapply (board_request_spec d author) in H; [|intros r r' res Hr; eexists env, _; exact Hr]);
    (destruct H as [H|(doc & text & H)]; [by left|right; by exists author, doc, text]).
Qed.

(** Stored boards stay boards.  From a clone in which every board, in the work tree, the
    index and [HEAD], can be read and belongs to the user whose path it has, any sequence
    of requests by anybody, succeeding or failing at any command, leads to a clone in which
    that is still so. *)
Theorem boards_stay_valid (d d' : GDaemon) (Hok : clone_boards_ok (g_repo d)) (Hsteps : rtc board_step d d') : clone_boards_ok (g_repo d').
Proof.
  induction Hsteps as [|d d1 d2 Hstep _ IH]; [done|]. apply IH.
  destruct (board_step_spec d d1 Hstep) as [-> |(author & doc & text & Hv & Ht & How)]; [done|].
  eapply only_wrote_boards; [exact How|by eapply stored_board_of|done].
Qed.

(** ** What an edit stores *)

(** The request succeeded, and the author's board, changed by the edit, is what the work
    tree and [HEAD] now have; nothing else has changed anywhere. *)
Definition edit_stored (env : BoardEnv) (d d' : GDaemon) (author : str) (edit : BoardDocument → BoardDocument → Prop) : Prop :=
  ∃ old_text old new_text new,
    r_work (g_repo d) !! board_file author = Some old_text ∧ parse_board_markdown old_text = Ok old
    ∧ r_work (g_repo d') !! board_file author = Some new_text ∧ r_head (g_repo d') !! board_file author = Some new_text
    ∧ parse_board_markdown new_text = Ok new
    ∧ (∃ doc, edit old doc ∧ bd_meta new = with_updated_at (be_now env) (bd_meta doc) ∧ outline (bd_body new) = outline (bd_body doc))
    ∧ ∀ k, below (board_file author) k = false →
        r_work (g_repo d') !! k = r_work (g_repo d) !! k ∧ r_index (g_repo d') !! k = r_index (g_repo d) !! k
        ∧ r_head (g_repo d') !! k = r_head (g_repo d) !! k.

Lemma outline_stored body : outline (final_body body) = outline body.
Proof.
  unfold final_body, with_final_nl. destruct (is_empty body) eqn:E; [by destruct body|]. destruct (ends_with body [nl]); [done|]. apply outline_snoc.
Qed.

Lemma mutate_stored env d author mutate d' effects resp :
  board_request d author (λ r, mutate_existing_board env r author mutate) = (d', effects, Ok resp) →
  edit_stored env d d' author (λ old doc, mutate old = Ok doc)
  ∧ effects = [BoardUpdated author; BoardPushNotify] ∧ wb_handler resp = author ∧ wb_path resp = board_file author.
Proof.
  unfold board_request. destruct (known_board_user d author); [|done..].
  destruct (mutate_existing_board env (g_repo d) author mutate) as [r' result] eqn:E. destruct result as [c| |]; [|done..].
  cbn [board_write_success]. intros [= <- <- <-]. unfold mutate_existing_board in E.
  apply commit_prepared_spec in E as [[_ Hno]|(doc & text & Hprep & _ & Htext & How & Hc)]; [by destruct (Hno c)|].
  destruct (Hc c eq_refl) as (-> & -> & Hhead). cbn [wb_handler wb_path]. split; [|done].
  apply res_bind_Ok in Hprep as (rel & Hrel%map_err_Ok & Hprep). apply board_rel_Ok in Hrel as [-> _].
  apply res_bind_Ok in Hprep as (content & Hread & Hprep). apply res_bind_Ok in Hprep as (old & Hparse%map_err_Ok & Hprep).
  apply res_bind_Ok in Hprep as ([] & _ & Hprep). apply res_bind_Ok in Hprep as (edited & Hmut%map_err_Ok & [= <-]).
  unfold read_board_content in Hread. destruct (r_work (g_repo d) !! board_file author) as [c'|] eqn:Ew; [|by destruct (path_exists _ _)].
  destruct (be_read_ok env _); [|done]. injection Hread as ->.
  assert (r_work r' !! board_file author = Some text) as Hwork by (rewrite (ow_work _ _ _ _ How); apply lookup_insert_eq).
  exists content, old, text, (MkBoardDocument (with_updated_at (be_now env) (bd_meta edited)) (final_body (bd_body edited))).
  split_and!; [done|done|done| |by apply (stringify_parse (stamp_board env edited))| |].
  - cbn [g_repo with_repo]. rewrite Hhead. by apply lookup_recorded.
  - exists edited. split_and!; [done|done|]. cbn [bd_body]. apply outline_stored.
  - intros k Hk. by apply (lookup_only_wrote _ _ _ _ k How).
Qed.

(** C28: Editing a section of one's board does that and nothing else.  A [section set] or
    [section append] that succeeds, with a text that holds no heading, leaves in the work
    tree and in [HEAD] a board that reads back with the same metadata but for the time, and
    with the same sections in the same order with the same texts, but that the first
    section of the name has the new text, or the old with the new below it, or is new at
    the end; no other path changes in the work tree, the index or [HEAD]; the board's event
    is sent and the sync loop woken. *)
Theorem board_sections_edited (env : BoardEnv) (d d' : GDaemon) (author section value : str)
    (effects : list BoardEffect) (resp : WriteBoardResponse)
    (Hplain : plain_text (normalize_section_value value) = true) :
  (handle_board_section_set env d author section value = (d', effects, Ok resp) →
     edit_stored env d d' author (edits_section section (set_text value)) ∧ effects = [BoardUpdated author; BoardPushNotify])
  ∧ (handle_board_section_append env d author section value = (d', effects, Ok resp) →
     edit_stored env d d' author (edits_section section (appended_text value)) ∧ effects = [BoardUpdated author; BoardPushNotify]).
Proof.
  split; intros Hrun; apply mutate_stored in Hrun as [(ot & o & nt & n & H1 & H2 & H3 & H4 & H5 & (doc & Hm & Hd) & H6) (He & _)];
    (split; [|done]); exists ot, o, nt, n; (split_and!; [done..| |done]); exists doc; (split; [|done]).
  - by apply set_section_edits in Hm.
  - by apply append_section_edits in Hm.
Qed.

End board_handlers.

(** ** Runs *)

Section runs.
#[local] Existing Instance ascii_unicode.

Definition board_fields (m : BoardMeta) : list (list str) :=
  [[[bm_version m]]; [bm_handler m]; [bm_updated_at m]; [bm_status m]; [bm_summary m]; bm_labels m].

Definition build_board (fs : list (list str)) : option BoardMeta :=
  match fs with
  | [[[v]]; [h]; [u]; [s]; [y]; l] => Some (MkBoardMeta v h u s y l)
  | _ => None
  end.

Definition board_text (m : BoardMeta) : str := print_fields (board_fields m) ++ [nl].

Definition lines_yaml : Yaml BoardMeta.
Proof.
  refine {| yaml_to_string := λ m, if contains (nl :: board_text m) ([nl] ++ lit "---" ++ [nl]) then None else Some (board_text m);
            yaml_from_str := λ t, build_board (read_fields (length t) (removelast t)) |}.
  intros m t Ht. case_match; [done|]. injection Ht as <-. unfold board_text. rewrite removelast_last.
  rewrite read_print_fields; [by destruct m|]. rewrite length_app. etrans; [apply print_fields_length|]. lia.
Defined.

Definition lines_board_yaml : BoardYaml.
Proof.
  refine {| board_yaml := lines_yaml |}; intros m t Ht; cbn in Ht; case_match eqn:Hc; try done; injection Ht as <-; [|done].
  by exists (print_fields (board_fields m)).
Defined.
#[local] Existing Instance lines_board_yaml.
#[local] Existing Instance plain_git.
#[local] Existing Instance plain_git_only.

Definition git_ok : PlainEnv := MkPlainEnv true Pushed None.
Definition git_fails : PlainEnv := MkPlainEnv false Pushed None.
Definition board_env (commit : PlainEnv) : BoardEnv :=
  MkBoardEnv (lit "20260101T000000Z") (λ _, true) true true (MkOnlyEnv git_ok commit (Some (lit "c1"))) None.

Definition empty_clone : GDaemon := MkGDaemon (MkRepo ∅ ∅ ∅) [lit "alice"] [] false.
Definition alice_board : GDaemon := (handle_board_init (board_env git_ok) empty_clone (lit "alice")).1.1.

Lemma board_markdown_roundtrip_witness :
  let doc := MkBoardDocument (MkBoardMeta 1 (lit "alice") (lit "20260101T000000Z") (lit "idle") [] [lit "ci"]) (lit "## now") in
  match stringify_board_markdown doc with
  | Ok text => parse_board_markdown text = Ok (MkBoardDocument (bd_meta doc) (lit "## now" ++ [nl]))
  | _ => False
  end.
Proof.
  intros doc. destruct (stringify_board_markdown doc) as [text| |] eqn:E; [|by vm_compute in E..].
  exact (board_markdown_roundtrip doc text E).
Defined.

Lemma boards_stay_valid_witness : clone_boards_ok (g_repo alice_board).
Proof.
  refine (boards_stay_valid empty_clone alice_board _ _).
  - split_and!; intros h text _ H; change ((∅ : tree) !! board_file h = Some text) in H; by rewrite lookup_empty in H.
  - set (out := handle_board_init (board_env git_ok) empty_clone (lit "alice")).
    apply rtc_once, (step_init _ (board_env git_ok) (lit "alice") _ out.1.2 out.2). unfold alice_board. fold out. by destruct out as [[? ?] ?].
Defined.

Definition after_edit : GDaemon * list BoardEffect * res WriteBoardResponse BoardFailure :=
  handle_board_section_set (board_env git_ok) alice_board (lit "alice") (lit "最近交付") (lit "shipped").

Lemma board_sections_edited_witness :
  edit_stored (board_env git_ok) alice_board after_edit.1.1 (lit "alice") (edits_section (lit "最近交付") (set_text (lit "shipped"))).
Proof.
  refine (proj1 (proj1 (board_sections_edited (board_env git_ok) alice_board after_edit.1.1 (lit "alice") (lit "最近交付") (lit "shipped")
    after_edit.1.2 (MkWriteBoardResponse (lit "alice") (board_file (lit "alice")) (lit "committed") (lit "c1")) _) _)); by vm_compute.
Defined.

Example edited_sections :
  match r_head (g_repo after_edit.1.1) !! board_file (lit "alice") with
  | Some text => match parse_board_markdown text with
                 | Ok doc => outline (bd_body doc) = ([], [(lit "我能做什么", []); (lit "暂时阻塞", []); (lit "最近交付", lit "shipped"); (lit "合作前需要知道的", [])])
                 | _ => False
                 end
  | None => False
  end.
Proof. by vm_compute. Qed.

(** A text with a heading in it is more than one section. *)
Example heading_in_value :
  let edited := handle_board_section_set (board_env git_ok) alice_board (lit "alice") (lit "暂时阻塞") (lit "a
## 最近交付
b") in
  match r_head (g_repo edited.1.1) !! board_file (lit "alice") with
  | Some text => match parse_board_markdown text with
                 | Ok doc => map fst (outline (bd_body doc)).2 = [lit "我能做什么"; lit "暂时阻塞"; lit "最近交付"; lit "最近交付"; lit "合作前需要知道的"]
                 | _ => False
                 end
  | None => False
  end.
Proof. by vm_compute. Qed.

(** A board whose first commit fails stays in the work tree and the index, so that asking
    again is refused. *)
Example failed_init_not_undone :
  let failed := handle_board_init (board_env git_fails) empty_clone (lit "alice") in
  failed.2 = Err BoardCommit
  ∧ (handle_board_init (board_env git_ok) failed.1.1 (lit "alice")).2 = Err (BoardExists (lit "alice"))
  ∧ r_head (g_repo failed.1.1) !! board_file (lit "alice") = None
  ∧ is_some (r_index (g_repo failed.1.1) !! board_file (lit "alice")) = true.
Proof. vm_compute. auto. Qed.

End runs.
