(* ===== verification/Conflict.v ===== *)
(** * Conflict resolution

    What the sync loop does when a push is rejected: local thread additions are
    renumbered to follow the remote log, channel members are merged, quick-session
    metadata is reconciled ([gitim-sync/src/renumber.rs], [gitim-sync/src/conflict.rs]). *)

From S2P Require Import Prelude RustStr StrFacts Names QuickSession Asset Links Thread Compliance Meta Daemon.
From stdpp Require Import options.
Open Scope N_scope.
Open Scope list_scope.

(** ** Paths

    A [PathBuf] is compared component by component. *)
Fixpoint strs_compare (a b : list str) : comparison :=
  match a, b with
  | [], [] => Eq
  | [], _ :: _ => Lt
  | _ :: _, [] => Gt
  | x :: a', y :: b' => match str_compare x y with Eq => strs_compare a' b' | o => o end
  end.

Definition path_leb (a b : str) : bool :=
  match strs_compare (split_char (ch "/") a) (split_char (ch "/") b) with Gt => false | _ => true end.

(** [Path::file_stem]: the last component without its last extension; a leading
    dot does not start an extension. *)
Definition file_stem (path : str) : option str :=
  match last (split_char (ch "/") path) with
  | None => None
  | Some name =>
      if is_empty name || (name =?? lit "..") then None else
      match split_char (ch ".") name with
      | [] | [_] => Some name
      | parts => match join (lit ".") (take (length parts - 1) parts) with
                 | [] => Some name
                 | stem => Some stem
                 end
      end
  end.

Record RenumberMapping := MkRenumberMapping {
  rm_file : str;
  rm_old_line : N;
  rm_new_line : N;
}.

Record ResolvedFile := MkResolvedFile {
  rf_path : str;
  rf_content : str;
}.

Section conflict.
Context `{UC : !Unicode} `{PE : !PercentEncoding} `{SJ : !SerdeJson}.

Inductive RenumberError :=
  | RenumberParse (e : ParseError).

(** [ConflictError::Io] belongs to the wrapper that reads the files.  The texts of
    [QuickSession] are the ones written in the merge, or a validation error, kept
    as the value that is printed into the text. *)
Inductive ConflictError :=
  | ConflictRenumber (e : RenumberError)
  | ConflictParse (e : ParseError)
  | ConflictQuickSession (message : str)
  | ConflictInvalidSession (e : QuickSessionError).

(** ** [renumber_batch] *)

(** The first loop: entry [i] of the batch gets the number [max_existing + 1 + i]. *)
Definition batch_line_map (es : list ThreadEntry) (max_existing : N) : gmap N N :=
  fold_left (λ line_map p, <[entry_line_number p.2 := wrapping_add (wrapping_add max_existing 1) p.1]> line_map)
    (enumerate_from 0 es) ∅.

(** [line_map[&k]]: indexing a map panics on a missing key. *)
Definition index_map {E} (line_map : gmap N N) (k : N) : res N E :=
  match line_map !! k with Some n => Ok n | None => Panicked end.

Definition renumber_entry (line_map : gmap N N) (batch_line_numbers : gset N) (entry : ThreadEntry)
  : res str RenumberError :=
  let? new_ln := index_map line_map (entry_line_number entry) in
  match entry with
  | EntryMessage msg =>
      let? new_pt :=
        if m_point_to msg =? 0 then Ok 0
        else if bool_decide (m_point_to msg ∈ batch_line_numbers) then index_map line_map (m_point_to msg)
        else Ok (m_point_to msg) in
      Ok (format_message new_ln new_pt (m_author msg) (m_timestamp msg) (m_body msg))
  | EntryEvent ev =>
      Ok (format_event new_ln (ev_author ev) (ev_timestamp ev) (ev_event_type ev) (ev_meta ev))
  end.

Definition renumber_batch (batch : str) (max_existing : N) : res str RenumberError :=
  let? file := map_err RenumberParse (parse_thread batch) in
  let line_map := batch_line_map (entries file) max_existing in
  let batch_line_numbers : gset N := list_to_set (map entry_line_number (entries file)) in
  for_fold (entries file) [] (λ output entry,
    let? text := renumber_entry line_map batch_line_numbers entry in
    Ok (output ++ text)).

(** ** [resolve_content_pure] *)

(** [iter().max().unwrap_or(0)]. *)
Definition max_line_number (es : list ThreadEntry) : N :=
  fold_left N.max (map entry_line_number es) 0.

Definition resolve_file (rel_path local_content remote_content : str)
  : res (ResolvedFile * list RenumberMapping) ConflictError :=
  let? max_line :=
    if is_empty remote_content then Ok 0
    else let? remote_file := map_err ConflictParse (parse_thread remote_content) in
         Ok (max_line_number (entries remote_file)) in
  let? local_file := map_err ConflictParse (parse_thread local_content) in
  let? renumbered := map_err ConflictRenumber (renumber_batch local_content max_line) in
  let? renumbered_file := map_err ConflictParse (parse_thread renumbered) in
  let mappings := zip_with (λ old new, MkRenumberMapping rel_path (entry_line_number old) (entry_line_number new))
                    (entries local_file) (entries renumbered_file) in
  let final_content := remote_content
    ++ (if negb (is_empty remote_content) && negb (ends_with remote_content [nl]) then [nl] else [])
    ++ renumbered in
  Ok (MkResolvedFile rel_path final_content, mappings).

Definition resolve_content_pure (local_additions remote_contents : gmap str str)
  : res (list ResolvedFile * list RenumberMapping) ConflictError :=
  let sorted_files := sort_by_key (λ a b : str * str, path_leb a.1 b.1) (map_to_list local_additions) in
  for_fold sorted_files ([], []) (λ acc item,
    let '(resolved_files, all_mappings) := acc in
    let '(rel_path, local_content) := item in
    let? r := resolve_file rel_path local_content (unwrap_or (remote_contents !! rel_path) []) in
    Ok (resolved_files ++ [r.1], all_mappings ++ r.2)).

(** ** [build_rebase_commit_msg] *)

(** [entry(k).or_default().push(v)] on a map kept in key order. *)
Fixpoint push_by_key {A} (cmp : str → str → comparison) (k : str) (v : A) (l : list (str * list A)) : list (str * list A) :=
  match l with
  | [] => [(k, [v])]
  | (k', vs) :: l' => match cmp k k' with
                      | Lt => (k, [v]) :: l
                      | Eq => (k', vs ++ [v]) :: l'
                      | Gt => (k', vs) :: push_by_key cmp k v l'
                      end
  end.

Definition path_compare (a b : str) : comparison := strs_compare (split_char (ch "/") a) (split_char (ch "/") b).

Definition rebase_entries (local_additions : gmap str str) (file : str) (new_lines : list N)
  : res (list (str * str * list N)) ConflictError :=
  let channel := unwrap_or (file_stem file) (lit "unknown") in
  match local_additions !! file with
  | None => Ok []
  | Some content =>
      match parse_thread content with
      | Panicked => Panicked
      | Err _ => Ok [(lit "unknown", channel, new_lines)]
      | Ok parsed =>
          let by_author := fold_left (λ acc p, push_by_key str_compare p.1 p.2 acc)
            (zip (map (λ e, handler_str (entry_author e)) (entries parsed)) new_lines) [] in
          Ok (map (λ p, (p.1, channel, p.2)) by_author)
      end
  end.

Definition rebase_line (e : str * str * list N) : str :=
  let '(author, channel, ls) := e in
  lit "msg: @" ++ author ++ lit " -> " ++ channel ++ lit " "
  ++ join (lit " ") (map (λ l, lit "L" ++ fmt_N_pad 6 l) ls) ++ lit "(rebased)".

Definition build_rebase_commit_msg (mappings : list RenumberMapping) (local_additions : gmap str str)
  : res str ConflictError :=
  let by_file := fold_left (λ acc m, push_by_key path_compare (rm_file m) (rm_new_line m) acc) mappings [] in
  let? es := for_fold by_file [] (λ acc p,
               let? e := rebase_entries local_additions p.1 p.2 in Ok (acc ++ e)) in
  Ok (if is_empty es then lit "msg: sync after rebase" else join [nl] (map rebase_line es)).

(** ** [merge_channel_meta] *)

Definition merge_channel_meta (local remote : ChannelMeta) : ChannelMeta :=
  MkChannelMeta (cm_display_name remote) (cm_created_by remote) (cm_created_at remote) (cm_introduction remote)
    (sort_strings (fold_left add_member (cm_members local) (cm_members remote))) (cm_project remote).

(** ** [merge_quick_session_meta] *)

Definition str_geb (a b : str) : bool := str_leb b a.
Definition str_gtb (a b : str) : bool := negb (str_leb a b).

(** [Option<String>::max] and [String::max]. *)
Definition str_max (a b : str) : str := if str_gtb a b then a else b.
Definition opt_str_max (a b : option str) : option str :=
  match a, b with
  | Some x, Some y => Some (str_max x y)
  | Some x, None => Some x
  | None, _ => b
  end.

Definition merge_title (local remote : option str) : res (option str) ConflictError :=
  match local, remote with
  | Some l, Some r => if l =?? r then Ok (Some l) else Err (ConflictQuickSession (lit "concurrent titles differ"))
  | Some t, None => Ok (Some t)
  | None, t => Ok t
  end.

Definition translate_local (mappings : list RenumberMapping) (thread_path : str) (line : N) : N :=
  match List.find (λ mapping, (rm_file mapping =?? thread_path) && (rm_old_line mapping =? line)) mappings with
  | Some mapping => rm_new_line mapping
  | None => line
  end.

(** [filter_map(..).max()] over the messages of the creator. *)
Definition newest_human_line (created_by : str) (es : list ThreadEntry) : option N :=
  fold_left (λ acc e,
    match e with
    | EntryMessage m =>
        if handler_str (m_author m) =?? created_by
        then Some (match acc with Some a => N.max a (m_line_number m) | None => m_line_number m end)
        else acc
    | EntryEvent _ => acc
    end) es None.

(** [rev().find_map(..).unwrap_or_default()]. *)
Definition final_preview (es : list ThreadEntry) : str :=
  fold_left (λ acc e,
    match e with
    | EntryMessage m => truncate_quick_session_preview (m_body m)
    | EntryEvent _ => acc
    end) es [].

Definition merge_human (local remote : QuickSessionMeta) (local_line remote_line newest : option N)
  : option str * option str :=
  match local_line, remote_line with
  | Some l, Some r =>
      if r <? l then (qs_last_human_request_id local, Some (qs_updated_at local))
      else (qs_last_human_request_id remote, Some (qs_updated_at remote))
  | Some l, None =>
      if Some l =?? newest then (qs_last_human_request_id local, Some (qs_updated_at local)) else (None, None)
  | None, Some _ => (qs_last_human_request_id remote, Some (qs_updated_at remote))
  | None, None => (None, None)
  end.

(** (attempt, error, updated_at, human line). *)
Definition Failure : Type := str * str * str * option N.
Definition failure_attempt (f : Failure) : str := f.1.1.1.
Definition failure_error (f : Failure) : str := f.1.1.2.
Definition failure_time (f : Failure) : str := f.1.2.
Definition failure_seen (f : Failure) : option N := f.2.

Definition failure_of (m : QuickSessionMeta) (human_line : option N) : option Failure :=
  match qs_last_failed_attempt_id m, qs_error m with
  | Some attempt, Some error => Some (attempt, error, qs_updated_at m, human_line)
  | _, _ => None
  end.

Definition merge_failure (local remote : option Failure) (human_updated_at : option str) : option Failure :=
  let f := match local, remote with
           | Some l, Some r => Some (if str_geb (failure_time l) (failure_time r) then l else r)
           | Some f, None => Some f
           | None, f => f
           end in
  match f with
  | Some f => if is_none_or human_updated_at (λ t, str_geb (failure_time f) t) then Some f else None
  | None => None
  end.

(** (attempt, input line, output line). *)
Definition Completion : Type := str * N * N.

Definition completion_of (translate : N → N) (m : QuickSessionMeta) : option Completion :=
  match qs_last_completed_attempt_id m, qs_last_completed_input_line m, qs_last_completed_line m with
  | Some attempt, Some input, Some output => Some (attempt, translate input, translate output)
  | _, _, _ => None
  end.

(** [(local.1, local.2) >= (remote.1, remote.2)]. *)
Definition completion_geb (a b : Completion) : bool :=
  (b.1.2 <? a.1.2) || ((a.1.2 =? b.1.2) && (b.2 <=? a.2)).

Definition merge_completion (local remote : option Completion) : res (option Completion) ConflictError :=
  match local, remote with
  | Some l, Some r =>
      if negb (l.1.1 =?? r.1.1) && (l.1.2 =? r.1.2)
      then Err (ConflictQuickSession (lit "different attempts completed the same input"))
      else Ok (Some (if completion_geb l r then l else r))
  | Some c, None => Ok (Some c)
  | None, c => Ok c
  end.

(** (attempt, input line, started at). *)
Definition RunClaim : Type := str * N * str.

Definition claim_of (archive_wins : bool) (translate : N → N) (m : QuickSessionMeta) (incomplete : str)
  : res (option RunClaim) ConflictError :=
  if negb archive_wins && (qs_status m =?? Running) then
    let? attempt := ok_or (qs_attempt_id m) (ConflictQuickSession incomplete) in
    let? input := ok_or (qs_processing_input_line m) (ConflictQuickSession incomplete) in
    let? started := ok_or (qs_processing_started_at m) (ConflictQuickSession incomplete) in
    Ok (Some (attempt, translate input, started))
  else Ok None.

Definition claim_completed (completion : option Completion) (failure : option Failure) (c : RunClaim) : bool :=
  is_some_and completion (λ done, (done.1.1 =?? c.1.1) && (done.1.2 =? c.1.2))
  || is_some_and failure (λ f, failure_attempt f =?? c.1.1).

Definition open_claim (completion : option Completion) (failure : option Failure) (c : option RunClaim) : option RunClaim :=
  match c with
  | Some c => if claim_completed completion failure c then None else Some c
  | None => None
  end.

Definition merge_claim (local remote : option RunClaim) : res (option RunClaim) ConflictError :=
  match local, remote with
  | Some l, Some r =>
      if negb (l.1.1 =?? r.1.1) || negb (l.1.2 =? r.1.2)
      then Err (ConflictQuickSession (lit "concurrent running claims differ"))
      else Ok (Some (if str_geb l.2 r.2 then l else r))
  | Some c, None => Ok (Some c)
  | None, c => Ok c
  end.

Definition merge_summary (local remote : QuickSessionMeta) : option str * option str :=
  match qs_summary_updated_at local, qs_summary_updated_at remote with
  | Some lt, Some rt =>
      if str_gtb lt rt then (qs_summary local, qs_summary_updated_at local)
      else (qs_summary remote, qs_summary_updated_at remote)
  | Some _, None => (qs_summary local, qs_summary_updated_at local)
  | None, _ => (qs_summary remote, qs_summary_updated_at remote)
  end.

Definition merged_stable_status (claim : option RunClaim) (failure : option Failure) (newest : option N)
  (title : option str) : QuickSessionStatus :=
  if is_some claim then Running
  else if is_some_and failure (λ f,
            is_none_or newest (λ n, is_none_or (failure_seen f) (λ seen, n <=? seen))) then Error
  else if is_some title then Active
  else NeedsTitle.

Definition immutable_differs (local remote : QuickSessionMeta) : bool :=
  negb (qs_id local =?? qs_id remote) || negb (qs_agent_id local =?? qs_agent_id remote)
  || negb (qs_created_by local =?? qs_created_by remote) || negb (qs_created_at local =?? qs_created_at remote).

Definition archive_wins (local remote : QuickSessionMeta) : bool :=
  (qs_status local =?? Archived) || (qs_status remote =?? Archived).

Definition merge_quick_session_meta (local remote : QuickSessionMeta) (merged_thread : str)
  (mappings : list RenumberMapping) (thread_path : str) : res QuickSessionMeta ConflictError :=
  try? map_err ConflictInvalidSession (validate_quick_session_meta local) then
  try? map_err ConflictInvalidSession (validate_quick_session_meta remote) then
  try? guard_err (immutable_differs local remote) (ConflictQuickSession (lit "immutable metadata differs")) then
  let wins := archive_wins local remote in
  let? title := merge_title (qs_title local) (qs_title remote) in
  let translate := translate_local mappings thread_path in
  let? parsed := map_err ConflictParse (parse_thread merged_thread) in
  let newest := newest_human_line (qs_created_by local) (entries parsed) in
  let local_human_line := translate <$> qs_last_human_line local in
  let remote_human_line := qs_last_human_line remote in
  let '(request_id, human_updated_at) := merge_human local remote local_human_line remote_human_line newest in
  let failure := merge_failure (failure_of local local_human_line) (failure_of remote remote_human_line)
                   human_updated_at in
  let? completion := merge_completion (completion_of translate local) (completion_of (λ n, n) remote) in
  try? guard_err (is_some_and completion (λ c, is_some_and failure (λ f, failure_attempt f =?? c.1.1)))
         (ConflictQuickSession (lit "the same attempt both completed and failed")) then
  let? local_claim := claim_of wins translate local (lit "local running claim is incomplete") in
  let? remote_claim := claim_of wins (λ n, n) remote (lit "remote running claim is incomplete") in
  let? claim := merge_claim (open_claim completion failure local_claim) (open_claim completion failure remote_claim) in
  let '(summary, summary_updated_at) := merge_summary local remote in
  try? guard_err (is_some_and claim (λ c, is_some_and failure (λ f, negb (failure_attempt f =?? c.1.1))))
         (ConflictQuickSession (lit "a running claim conflicts with a failed attempt")) then
  let stable_status := merged_stable_status claim failure newest title in
  let? revision := ok_or (checked_add (N.max (qs_revision local) (qs_revision remote)) 1)
                     (ConflictQuickSession (lit "revision overflow")) in
  let merged := {|
    qs_id := qs_id local;
    qs_title := title;
    qs_agent_id := qs_agent_id local;
    qs_created_by := qs_created_by local;
    qs_status := if wins then Archived else stable_status;
    qs_created_at := qs_created_at local;
    qs_updated_at := str_max (qs_updated_at local) (qs_updated_at remote);
    qs_archived_at := if wins then opt_str_max (qs_archived_at local) (qs_archived_at remote) else None;
    qs_archived_from := if wins then Some stable_status else None;
    qs_summary := summary;
    qs_summary_updated_at := summary_updated_at;
    qs_last_message_preview := final_preview (entries parsed);
    qs_error := failure_error <$> failure;
    qs_processing_input_line := (λ c : RunClaim, c.1.2) <$> claim;
    qs_processing_started_at := (λ c : RunClaim, c.2) <$> claim;
    qs_attempt_id := (λ c : RunClaim, c.1.1) <$> claim;
    qs_last_completed_attempt_id := (λ c : Completion, c.1.1) <$> completion;
    qs_last_completed_input_line := (λ c : Completion, c.1.2) <$> completion;
    qs_last_completed_line := (λ c : Completion, c.2) <$> completion;
    qs_last_failed_attempt_id := failure_attempt <$> failure;
    qs_last_human_request_id := request_id;
    qs_last_human_line := newest;
    qs_revision := revision |} in
  try? map_err ConflictInvalidSession (validate_quick_session_meta merged) then
  Ok merged.

(** ** Renumbering, as a function on entries *)

Definition new_line (line_map : gmap N N) (n : N) : N := default 0 (line_map !! n).

Definition relocated (line_map : gmap N N) (batch : gset N) (e : ThreadEntry) : ThreadEntry :=
  match e with
  | EntryMessage m =>
      EntryMessage (MkMessage (new_line line_map (m_line_number m))
        (if m_point_to m =? 0 then 0
         else if bool_decide (m_point_to m ∈ batch) then new_line line_map (m_point_to m) else m_point_to m)
        (m_author m) (m_timestamp m) (m_body m) (m_mentions m) (m_links m))
  | EntryEvent ev =>
      EntryEvent (MkChannelEvent (new_line line_map (ev_line_number ev)) 0 (ev_author ev) (ev_timestamp ev)
                    (ev_event_type ev) (ev_meta ev))
  end.

Definition relocated_log (es : list ThreadEntry) (max_existing : N) : list ThreadEntry :=
  map (relocated (batch_line_map es max_existing) (log_lines es)) es.

Lemma batch_line_map_snoc es e max :
  batch_line_map (es ++ [e]) max =
  <[entry_line_number e := wrapping_add (wrapping_add max 1) (N.of_nat (length es))]> (batch_line_map es max).
Proof. unfold batch_line_map. by rewrite enumerate_from_app, fold_left_app, N.add_0_l. Qed.

Lemma batch_line_map_dom es max n : is_Some (batch_line_map es max !! n) ↔ n ∈ log_lines es.
Proof.
  unfold log_lines. rewrite elem_of_list_to_set, list_elem_of_fmap.
  induction es as [|e es IH] using rev_ind.
  - unfold batch_line_map. simpl. rewrite lookup_empty. split; [by intros []|]. intros (x & _ & Hx). set_solver.
  - rewrite batch_line_map_snoc, lookup_insert_is_Some'. rewrite IH. setoid_rewrite elem_of_app.
    setoid_rewrite list_elem_of_singleton. naive_solver.
Qed.

Lemma batch_line_map_lookup es max i e :
  NoDup (map entry_line_number es) → es !! i = Some e →
  batch_line_map es max !! entry_line_number e = Some (wrapping_add (wrapping_add max 1) (N.of_nat i)).
Proof.
  revert i e. induction es as [|e' es IH] using rev_ind; intros i e Hnd Hi; [done|].
  rewrite batch_line_map_snoc. rewrite map_app in Hnd. apply NoDup_app in Hnd as (Hnd & Hdis & _).
  apply lookup_app_Some in Hi as [Hi|[Hle Hi]].
  - rewrite lookup_insert_ne; [by apply IH|]. intros Heq. apply (Hdis (entry_line_number e)).
    + apply list_elem_of_fmap. exists e. split; [done|]. by eapply list_elem_of_lookup_2.
    + rewrite <-Heq. simpl. set_solver.
  - apply list_lookup_singleton_Some in Hi as [Hi <-].
    assert (i = length es) as -> by lia. by rewrite lookup_insert_eq.
Qed.

Lemma batch_line_map_le es max n : new_line (batch_line_map es max) n ≤ u64_MAX.
Proof.
  unfold new_line. induction es as [|e es IH] using rev_ind; [done|].
  rewrite batch_line_map_snoc. destruct (decide (n = entry_line_number e)) as [->|Hne].
  - rewrite lookup_insert_eq. apply wrapping_add_le.
  - by rewrite lookup_insert_ne.
Qed.

Lemma index_map_new_line {E} es max n :
  n ∈ log_lines es → @index_map E (batch_line_map es max) n = Ok (new_line (batch_line_map es max) n).
Proof.
  intros [m Hm]%(batch_line_map_dom es max). unfold index_map, new_line. by rewrite Hm.
Qed.

Lemma renumber_entry_relocated es max e :
  e ∈ es → renumber_entry (batch_line_map es max) (log_lines es) e
  = Ok (render_entry (relocated (batch_line_map es max) (log_lines es) e)).
Proof.
  intros He. assert (entry_line_number e ∈ log_lines es) as Hin.
  { unfold log_lines. apply elem_of_list_to_set, list_elem_of_fmap. by exists e. }
  unfold renumber_entry. rewrite index_map_new_line by done. simpl.
  destruct e as [m|ev]; simpl; [|done].
  destruct (m_point_to m =? 0); [done|]. case_bool_decide; [|done].
  by rewrite index_map_new_line.
Qed.

Lemma renumber_batch_relocated batch max f :
  parse_thread batch = Ok f →
  renumber_batch batch max = Ok (concat (map render_entry (relocated_log (entries f) max))).
Proof.
  intros Hf. unfold renumber_batch. rewrite Hf. simpl. unfold relocated_log, log_lines.
  set (lm := batch_line_map (entries f) max). set (b := list_to_set (map entry_line_number (entries f))).
  assert (∀ es acc, (∀ e, e ∈ es → e ∈ entries f) →
    for_fold es acc (λ output entry, let? text := renumber_entry lm b entry in Ok (output ++ text))
    = Ok (acc ++ concat (map render_entry (map (relocated lm b) es)))) as Hgen; [|by rewrite (Hgen _ [])].
  induction es as [|e es IH]; intros acc Hes; cbn [for_fold map concat]; [by rewrite app_nil_r|].
  unfold lm, b. rewrite renumber_entry_relocated by (apply Hes; by left). simpl.
  rewrite IH by (intros; apply Hes; by right). by rewrite <-app_assoc.
Qed.

Lemma relocated_printable es max e :
  printable e → printable (relocated (batch_line_map es max) (log_lines es) e).
Proof.
  intros (Hln & Hpt & Ha & Hts & He). unfold printable. destruct e as [m|ev]; simpl in *.
  - split_and!; try done; try apply He; [apply batch_line_map_le|].
    destruct (m_point_to m =? 0); [done|]. case_bool_decide; [apply batch_line_map_le|done].
  - split_and!; try done; try apply He. apply batch_line_map_le.
Qed.

Lemma relocated_log_printable es max : Forall printable es → Forall printable (relocated_log es max).
Proof.
  intros Hes. apply Forall_map. eapply Forall_impl; [exact Hes|]. apply relocated_printable.
Qed.

(** What renumbering keeps of an entry. *)
Definition same_content (e e' : ThreadEntry) : Prop :=
  match e, e' with
  | EntryMessage m, EntryMessage m' =>
      m_author m' = m_author m ∧ m_timestamp m' = m_timestamp m ∧ m_body m' = m_body m
      ∧ m_mentions m' = m_mentions m ∧ m_links m' = m_links m
  | EntryEvent ev, EntryEvent ev' =>
      ev_author ev' = ev_author ev ∧ ev_timestamp ev' = ev_timestamp ev
      ∧ ev_event_type ev' = ev_event_type ev ∧ ev_meta ev' = ev_meta ev
  | _, _ => False
  end.

Lemma relocated_same lm b e : same_content e (relocated lm b e).
Proof. by destruct e. Qed.

Lemma relocated_log_same es max : Forall2 same_content es (relocated_log es max).
Proof. apply Forall2_fmap_r, Forall_Forall2_diag, Forall_true. intros e. apply relocated_same. Qed.

Lemma relocated_line es max i e :
  NoDup (map entry_line_number es) → max + N.of_nat (length es) < 2 ^ 64 → es !! i = Some e →
  entry_line_number (relocated (batch_line_map es max) (log_lines es) e) = max + 1 + N.of_nat i.
Proof.
  intros Hnd Hmax Hi. pose proof (lookup_lt_Some _ _ _ Hi).
  assert (new_line (batch_line_map es max) (entry_line_number e) = max + 1 + N.of_nat i) as Hn.
  { unfold new_line. rewrite (batch_line_map_lookup es max i e Hnd Hi). simpl.
    rewrite (wrapping_add_small max 1) by lia. rewrite wrapping_add_small; lia. }
  by destruct e.
Qed.

(** ** The merged log is a log *)

Lemma log_wf_intro users known expected es :
  (∀ i e, es !! i = Some e → entry_wf users (log_lines (take i es) ∪ known) (log_next expected (take i es)) e) →
  log_wf users known expected es.
Proof.
  revert known expected. induction es as [|e es IH]; intros known expected H; [done|]. split.
  - specialize (H 0%nat e eq_refl). unfold log_lines, log_next in H. simpl in H. by rewrite (left_id_L ∅ (∪)) in H.
  - apply IH. intros i e' Hi. specialize (H (S i) e' Hi). simpl in H.
    replace (log_lines (take i es) ∪ ({[entry_line_number e]} ∪ known)) with (log_lines (e :: take i es) ∪ known)
      by (unfold log_lines; simpl; set_solver).
    replace (log_next (wrapping_add (entry_line_number e) 1) (take i es)) with (log_next expected (e :: take i es)); [done|].
    unfold log_next. destruct (take i es) as [|e2 es2]; [done|].
    rewrite last_cons_cons. destruct (last (e2 :: es2)) eqn:El; [done|]. by apply last_None in El.
Qed.

(** Entries numbered from [k + 1]. *)
Definition numbered (k : N) (es : list ThreadEntry) : Prop :=
  ∀ i e, es !! i = Some e → entry_line_number e = k + N.of_nat i + 1.

Lemma numbered_max es : numbered 0 es → max_line_number es = N.of_nat (length es).
Proof.
  unfold max_line_number. induction es as [|e es IH] using rev_ind; intros H; [done|].
  rewrite map_app, fold_left_app. simpl. rewrite IH.
  - rewrite (H (length es) e) by (apply list_lookup_middle; done). rewrite length_app. simpl. lia.
  - intros i e' Hi. apply H. by apply lookup_app_l_Some.
Qed.

Lemma numbered_next k es expected :
  numbered k es → k + N.of_nat (length es) + 1 < 2 ^ 64 → expected = k + 1 →
  log_next expected es = k + N.of_nat (length es) + 1.
Proof.
  intros Hn Hlt ->. destruct es as [|e es _] using rev_ind; [simpl; unfold log_next; simpl; lia|].
  unfold log_next. rewrite last_snoc. rewrite (Hn (length es) e) by (apply list_lookup_middle; done).
  rewrite length_app in *. simpl in *. rewrite wrapping_add_small; lia.
Qed.

Lemma numbered_take k es i : numbered k es → numbered k (take i es).
Proof. intros H j e Hj. apply lookup_take_Some in Hj as [Hj _]. by apply H. Qed.

Lemma numbered_nodup k es : numbered k es → NoDup (map entry_line_number es).
Proof.
  intros H. apply NoDup_alt. intros i j x Hi Hj.
  rewrite list_lookup_fmap in Hi, Hj. apply fmap_Some in Hi as (e1 & H1 & ->).
  apply fmap_Some in Hj as (e2 & H2 & Heq). rewrite (H _ _ H1), (H _ _ H2) in Heq. lia.
Qed.

Lemma log_wf_numbered users es :
  N.of_nat (length es) < 2 ^ 64 → log_wf users ∅ 1 es → numbered 0 es.
Proof. intros Hlen Hl i e Hi. rewrite (log_wf_numbers users es i e Hlen Hl Hi). lia. Qed.

Lemma elem_of_log_lines es n : n ∈ log_lines es ↔ ∃ j e, es !! j = Some e ∧ n = entry_line_number e.
Proof.
  unfold log_lines. rewrite elem_of_list_to_set, list_elem_of_fmap. setoid_rewrite list_elem_of_lookup.
  naive_solver.
Qed.

(** Two continuations [r] (remote) and [l] (local) of a common log [b]: after
    renumbering, [l] continues [b ++ r]. *)
Lemma relocated_continues users b r l :
  N.of_nat (length (b ++ r)) + N.of_nat (length l) + 1 < 2 ^ 64 →
  N.of_nat (length (b ++ l)) < 2 ^ 64 →
  log_wf users ∅ 1 (b ++ r) → log_wf users (log_lines b) (log_next 1 b) l →
  log_wf users ∅ 1 ((b ++ r) ++ relocated_log l (max_line_number (b ++ r))).
Proof.
  intros Hlen Hlen2 Hbr Hl.
  assert (log_wf users ∅ 1 (b ++ l)) as Hbl.
  { apply log_wf_app in Hbr as [Hb _]. apply log_wf_app. by rewrite (right_id_L ∅ (∪)). }
  pose proof (log_wf_numbered users (b ++ r) ltac:(lia) Hbr) as Nbr.
  pose proof (log_wf_numbered _ _ Hlen2 Hbl) as Nbl.
  rewrite (numbered_max _ Nbr). set (K := N.of_nat (length (b ++ r))) in *.
  assert (numbered (N.of_nat (length b)) l) as Nl.
  { intros i e Hi. rewrite (Nbl (length b + i)%nat e); [lia|].
    rewrite lookup_app_r by lia. by replace (length b + i - length b)%nat with i by lia. }
  assert (numbered K (relocated_log l K)) as Nl'.
  { intros i e' Hi. unfold relocated_log in Hi. rewrite list_lookup_fmap in Hi.
    apply fmap_Some in Hi as (e & Hi & ->).
    rewrite (relocated_line l K i e); [lia|by eapply numbered_nodup|lia|done]. }
  apply log_wf_app. split; [done|]. rewrite (right_id_L ∅ (∪)).
  assert (log_next 1 (b ++ r) = K + 1) as -> by (apply (numbered_next 0); [done|lia|done]).
  apply log_wf_intro. intros i e' Hi.
  pose proof (lookup_lt_Some _ _ _ Hi) as Hlt. unfold relocated_log in Hlt. rewrite length_map in Hlt.
  assert (log_next (K + 1) (take i (relocated_log l K)) = entry_line_number e') as ->.
  { rewrite (Nl' i e' Hi). unfold relocated_log.
    rewrite (numbered_next K); [|by apply numbered_take| |done];
      rewrite length_take, length_map; lia. }
  unfold relocated_log in Hi. rewrite list_lookup_fmap in Hi. apply fmap_Some in Hi as (e & Hi & ->).
  destruct (log_wf_lookup _ _ _ _ _ _ Hl Hi) as (_ & Hau & He).
  split; [done|]. destruct e as [m|ev]; simpl in *; [|naive_solver]. split; [done|].
  destruct He as (Hpt & Hbody & Hmen). split_and!; [|done|done].
  destruct (N.eqb_spec (m_point_to m) 0) as [|Hnz]; [by left|].
  destruct Hpt as [|Hpt]; [done|]. right.
  case_bool_decide as Hin.
  - apply elem_of_union. left. apply elem_of_union in Hpt as [Hpt|Hpt].
    + apply elem_of_log_lines in Hpt as (j & ej & Hj & ->). apply lookup_take_Some in Hj as [Hj Hjlt].
      apply elem_of_log_lines. exists j, (relocated (batch_line_map l K) (log_lines l) ej). split.
      * apply lookup_take_Some. split; [|done]. unfold relocated_log. by rewrite list_lookup_fmap, Hj.
      * by destruct ej.
    + exfalso. apply elem_of_log_lines in Hpt as (j & ej & Hj & Hjl).
      apply elem_of_log_lines in Hin as (k & ek & Hk & Hkl).
      rewrite (Nl k ek Hk) in Hkl. pose proof (lookup_lt_Some _ _ _ Hj).
      rewrite (Nbr j ej) in Hjl by by apply lookup_app_l_Some. lia.
  - apply elem_of_union. right. apply elem_of_union in Hpt as [Hpt|Hpt].
    + exfalso. apply Hin. apply elem_of_log_lines in Hpt as (j & ej & Hj & ->).
      apply lookup_take_Some in Hj as [Hj _]. apply elem_of_log_lines. by exists j, ej.
    + apply elem_of_log_lines in Hpt as (j & ej & Hj & ->). apply elem_of_log_lines.
      exists j, ej. split; [by apply lookup_app_l_Some|done].
Qed.

(** ** Claims about threads *)

(** The situation of a rejected push for one thread file: the remote text and the
    local additions both continue a common log. *)
Definition diverged (users : gset str) (local_content remote_content : str) : Prop :=
  ∃ b r l, complete_file remote_content ∧ parse_thread remote_content = Ok (MkThreadFile (b ++ r))
    ∧ log_wf users ∅ 1 (b ++ r)
    ∧ parse_thread local_content = Ok (MkThreadFile l) ∧ Forall printable l
    ∧ log_wf users (log_lines b) (log_next 1 b) l
    ∧ N.of_nat (length b + length r + length l) + 1 < 2 ^ 64.

Lemma resolve_file_clean users path local_content remote_content :
  diverged users local_content remote_content →
  ∃ content mappings f f' g l',
    resolve_file path local_content remote_content = Ok (MkResolvedFile path content, mappings)
    ∧ parse_thread remote_content = Ok f ∧ parse_thread content = Ok f' ∧ parse_thread local_content = Ok g
    ∧ entries f' = entries f ++ l' ∧ Forall2 same_content (entries g) l' ∧ log_wf users ∅ 1 (entries f').
Proof.
  intros (b & r & l & Hc & Hremote & Hbr & Hlocal & Hp & Hl & Hlen).
  set (K := max_line_number (b ++ r)).
  destruct (render_parses (relocated_log l K)) as [Hren _]; [by apply relocated_log_printable|].
  unfold resolve_file.
  replace (if is_empty remote_content then Ok 0 else _) with (@Ok N ConflictError K); last first.
  { destruct (is_empty remote_content) eqn:Em.
    - apply is_empty_true in Em as ->. injection Hremote as Hnil. unfold K. by rewrite <-Hnil.
    - by rewrite Hremote. }
  cbn [res_bind]. rewrite Hlocal. cbn [map_err res_bind].
  rewrite (renumber_batch_relocated _ _ _ Hlocal). cbn [map_err res_bind entries].
  rewrite Hren. cbn [map_err res_bind].
  replace (if negb (is_empty remote_content) && _ then [nl] else []) with (@nil N); last first.
  { destruct Hc as [->|Hc]; [done|]. by rewrite Hc, andb_false_r. }
  do 6 eexists. split; [reflexivity|]. simpl. split; [exact Hremote|]. split; [by eapply parse_thread_app|].
  split; [reflexivity|]. split; [reflexivity|]. split; [apply relocated_log_same|]. simpl. apply relocated_continues; rewrite ?length_app; [lia|lia|done|done].
Qed.

(** A merged file has the remote entries, then the local ones with new numbers, and is a log. *)
Definition file_clean (users : gset str) (remote_contents : gmap str str) (item : str * str) (file : ResolvedFile) : Prop :=
  rf_path file = item.1
  ∧ ∃ f f' g l', parse_thread (unwrap_or (remote_contents !! item.1) []) = Ok f
    ∧ parse_thread (rf_content file) = Ok f' ∧ parse_thread item.2 = Ok g
    ∧ entries f' = entries f ++ l' ∧ Forall2 same_content (entries g) l'
    ∧ log_wf users ∅ 1 (entries f').

Lemma resolve_loop_clean users remote_contents items acc :
  (∀ p, p ∈ items → diverged users p.2 (unwrap_or (remote_contents !! p.1) [])) →
  ∃ files mappings, for_fold items acc (λ acc item,
      let '(resolved_files, all_mappings) := acc in
      let '(rel_path, local_content) := item in
      let? r := resolve_file rel_path local_content (unwrap_or (remote_contents !! rel_path) []) in
      Ok (resolved_files ++ [r.1], all_mappings ++ r.2)) = Ok (acc.1 ++ files, mappings)
    ∧ Forall2 (file_clean users remote_contents) items files.
Proof.
  revert acc. induction items as [|[path local] items IH]; intros [fs ms] Hitems; cbn [for_fold].
  - exists [], ms. by rewrite app_nil_r.
  - destruct (resolve_file_clean users path local (unwrap_or (remote_contents !! path) []))
      as (content & m & f & f' & g & l' & -> & Hclean); [apply (Hitems (path, local)); by left|].
    cbn [res_bind fst snd].
    destruct (IH (fs ++ [MkResolvedFile path content], ms ++ m)) as (files & mappings & -> & Hall).
    { intros p Hp. apply Hitems. by right. }
    exists (MkResolvedFile path content :: files), mappings. split.
    + simpl. by rewrite <-app_assoc.
    + constructor; [|done]. split; [done|]. by exists f, f', g, l'.
Qed.

(** Renumbering a batch of well-formed entries with distinct line numbers changes
    numbers only.  The result parses to the same entries in the same order, the
    [i]-th numbered [max_existing + 1 + i]; replies into the batch follow their
    targets, replies to lines outside it and non-replies stay. *)
Theorem renumber_batch_exact (es : list ThreadEntry) (max_existing : N)
    (Hprintable : Forall printable es) (Hdistinct : NoDup (map entry_line_number es))
    (Hroom : max_existing + N.of_nat (length es) < 2 ^ 64) :
  ∃ text es', renumber_batch (concat (map render_entry es)) max_existing = Ok text
    ∧ parse_thread text = Ok (MkThreadFile es') ∧ length es' = length es
    ∧ ∀ i e, es !! i = Some e → ∃ e', es' !! i = Some e' ∧ same_content e e'
        ∧ entry_line_number e' = max_existing + 1 + N.of_nat i
        ∧ ∀ m m', e = EntryMessage m → e' = EntryMessage m' →
            (m_point_to m = 0 → m_point_to m' = 0)
            ∧ (m_point_to m ≠ 0 → ∀ j ej, es !! j = Some ej → m_point_to m = entry_line_number ej →
                 m_point_to m' = max_existing + 1 + N.of_nat j)
            ∧ (m_point_to m ∉ log_lines es → m_point_to m' = m_point_to m).
Proof.
  destruct (render_parses es Hprintable) as [Hparse _].
  exists (concat (map render_entry (relocated_log es max_existing))), (relocated_log es max_existing).
  split_and!.
  - by rewrite (renumber_batch_relocated _ _ _ Hparse).
  - by apply render_parses, relocated_log_printable.
  - apply length_map.
  - intros i e Hi. exists (relocated (batch_line_map es max_existing) (log_lines es) e).
    split_and!; [unfold relocated_log; by rewrite list_lookup_fmap, Hi|apply relocated_same|by apply relocated_line|].
    intros m m' -> [= <-]. simpl. split_and!.
    + by intros ->.
    + intros Hnz j ej Hj Heq. rewrite (proj2 (N.eqb_neq _ _) Hnz), Heq.
      rewrite bool_decide_eq_true_2 by (apply elem_of_log_lines; by exists j, ej).
      rewrite <-(relocated_line es max_existing j ej) by done. by destruct ej.
    + intros Hn. rewrite bool_decide_eq_false_2 by done. by destruct (N.eqb_spec (m_point_to m) 0) as [->|].
Qed.

(** Resolving a rejected push gives clean logs.  When every file with local
    additions has a complete remote text that is a log, and remote and local
    additions continue a common prefix, [resolve_content_pure] succeeds with one file
    for every file with additions and no other; each merged text parses to the remote
    entries followed by the local ones, in their order and with their authors, times
    and texts, and is a log again: consecutive numbers, every reply pointing to an
    earlier entry. *)
Theorem resolve_content_clean (users : gset str) (local_additions remote_contents : gmap str str)
    (Hdiv : ∀ path local, local_additions !! path = Some local →
       diverged users local (unwrap_or (remote_contents !! path) [])) :
  ∃ files mappings items, resolve_content_pure local_additions remote_contents = Ok (files, mappings)
    ∧ items ≡ₚ map_to_list local_additions ∧ Forall2 (file_clean users remote_contents) items files.
Proof.
  unfold resolve_content_pure. set (sorted := sort_by_key _ _).
  assert (sorted ≡ₚ map_to_list local_additions) as Hperm by apply sort_by_key_perm.
  destruct (resolve_loop_clean users remote_contents sorted ([], [])) as (files & mappings & Hrun & Hall).
  { intros [path local] Hp. rewrite Hperm in Hp. apply elem_of_map_to_list in Hp. by apply Hdiv. }
  by exists files, mappings, sorted.
Qed.

(** ** Claims about metadata *)

Lemma sort_strings_sorted l : NoDup l → StronglySorted str_lt (sort_strings l).
Proof.
  intros Hnd. unfold sort_strings.
  assert (StronglySorted (λ x y, str_leb x y = true) (sort_by_key str_leb l)) as Hs.
  { apply sort_by_key_sorted; [|apply str_leb_trans].
    intros x y Hf. destruct (str_leb_total x y) as [Ht|]; [congruence|done]. }
  assert (NoDup (sort_by_key str_leb l)) as Hnd' by by rewrite sort_by_key_perm.
  induction Hs as [|x l' Hl' IH Hx]; [constructor|]. apply NoDup_cons in Hnd' as [Hni Hnd'].
  constructor; [by apply IH|]. rewrite Forall_forall in Hx |- *. intros y Hy.
  destruct (proj1 (str_leb_spec x y) (Hx y Hy)) as [->|]; done.
Qed.

Lemma merge_members_elem local remote u :
  u ∈ cm_members (merge_channel_meta local remote) ↔ u ∈ cm_members local ∨ u ∈ cm_members remote.
Proof. simpl. unfold sort_strings. rewrite sort_by_key_perm, elem_of_add_members. tauto. Qed.

Lemma merge_members_sorted local remote :
  NoDup (cm_members remote) → StronglySorted str_lt (cm_members (merge_channel_meta local remote)).
Proof. intros Hnd. apply sort_strings_sorted. by apply add_members_nodup. Qed.

(** Merging channel members converges.  The merged list is the union, strictly
    sorted; it does not depend on which side is local, and merging again adds
    nothing; everything else is the remote's. *)
Theorem merge_channel_meta_converges (local remote : ChannelMeta)
    (Hlocal : NoDup (cm_members local)) (Hremote : NoDup (cm_members remote)) :
  (∀ u, u ∈ cm_members (merge_channel_meta local remote) ↔ u ∈ cm_members local ∨ u ∈ cm_members remote)
  ∧ StronglySorted str_lt (cm_members (merge_channel_meta local remote))
  ∧ cm_members (merge_channel_meta local remote) = cm_members (merge_channel_meta remote local)
  ∧ merge_channel_meta local (merge_channel_meta local remote) = merge_channel_meta local remote
  ∧ cm_created_by (merge_channel_meta local remote) = cm_created_by remote.
Proof.
  pose proof (merge_members_sorted local remote Hremote) as Hs.
  split_and!; [apply merge_members_elem|done| | |done].
  - apply str_sorted_unique; [done|by apply merge_members_sorted|]. intros u.
    rewrite !merge_members_elem. tauto.
  - assert (cm_members (merge_channel_meta local (merge_channel_meta local remote))
            = cm_members (merge_channel_meta local remote)) as Hm.
    { apply str_sorted_unique; [apply merge_members_sorted; by apply str_sorted_nodup|done|]. intros u.
      rewrite !merge_members_elem. tauto. }
    unfold merge_channel_meta in *. simpl in *. by rewrite Hm.
Qed.

Lemma merge_completion_ge local remote c :
  merge_completion local remote = Ok c →
  (∀ l, local = Some l → ∃ m, c = Some m ∧ completion_geb m l = true)
  ∧ (∀ r, remote = Some r → ∃ m, c = Some m ∧ completion_geb m r = true).
Proof.
  assert (∀ x, completion_geb x x = true) as Hrefl by (intros; unfold completion_geb; lia).
  unfold merge_completion. destruct local as [l|], remote as [r|].
  - destruct (_ && _); [done|]. intros [= <-].
    destruct (completion_geb l r) eqn:E; split; intros ? [= <-]; eexists; (split; [reflexivity|]); try done.
    unfold completion_geb in *. lia.
  - intros [= <-]. naive_solver.
  - intros [= <-]. naive_solver.
  - naive_solver.
Qed.

Lemma immutable_same local remote :
  immutable_differs local remote = false →
  qs_id local = qs_id remote ∧ qs_agent_id local = qs_agent_id remote ∧ qs_created_by local = qs_created_by remote.
Proof.
  unfold immutable_differs. rewrite !orb_false_iff, !negb_false_iff, !bool_decide_eq_true. tauto.
Qed.

Lemma merge_title_keeps local remote title :
  merge_title local remote = Ok title → ∀ t, local = Some t ∨ remote = Some t → title = Some t.
Proof.
  unfold merge_title. destruct local as [l|], remote as [r|]; try naive_solver.
  case_bool_decide; naive_solver.
Qed.

Lemma archive_wins_iff local remote :
  archive_wins local remote = true ↔ qs_status local = Archived ∨ qs_status remote = Archived.
Proof. unfold archive_wins. by rewrite orb_true_iff, !bool_decide_eq_true. Qed.

Lemma merged_stable_not_archived claim failure newest title :
  merged_stable_status claim failure newest title ≠ Archived.
Proof. unfold merged_stable_status. repeat case_match; done. Qed.

Lemma archived_no_attempt m :
  validate_quick_session_meta m = Ok tt → qs_status m = Archived → qs_attempt_id m = None.
Proof.
  intros Hv%validate_quick_session_meta_iff Hst. apply s_claim, claim_ok_idle in Hv; [naive_solver|].
  by rewrite Hst.
Qed.

(** A merge of quick-session metadata that succeeds is safe.  The result is valid,
    belongs to the same session, has a revision above both sides; it is archived
    exactly when one side is, and then carries no claim; the title of either side
    is kept; and no completion known to either side (local lines translated) is lost
    to an older one. *)
Theorem merge_quick_session_safe (local remote m : QuickSessionMeta) (merged_thread : str)
    (mappings : list RenumberMapping) (thread_path : str)
    (Hmerge : merge_quick_session_meta local remote merged_thread mappings thread_path = Ok m) :
  validate_quick_session_meta m = Ok tt
  ∧ qs_id m = qs_id remote ∧ qs_agent_id m = qs_agent_id remote ∧ qs_created_by m = qs_created_by remote
  ∧ qs_revision local < qs_revision m ∧ qs_revision remote < qs_revision m
  ∧ (qs_status m = Archived ↔ qs_status local = Archived ∨ qs_status remote = Archived)
  ∧ (qs_status m = Archived → qs_attempt_id m = None)
  ∧ (∀ t, qs_title local = Some t ∨ qs_title remote = Some t → qs_title m = Some t)
  ∧ (∀ c, completion_of (translate_local mappings thread_path) local = Some c ∨ completion_of (λ n, n) remote = Some c →
       ∃ c', completion_of (λ n, n) m = Some c' ∧ completion_geb c' c = true).
Proof.
  unfold merge_quick_session_meta in Hmerge. run_ok Hmerge.
  destruct (merge_human _ _ _ _ _) as [rid human_at]. run_ok Hmerge.
  destruct (merge_summary _ _) as [summary summary_at]. run_ok Hmerge.
  repeat match goal with u : unit |- _ => destruct u end.
  match goal with H : checked_add _ _ = Some _ |- _ => apply checked_add_Some in H as [-> _] end.
  match goal with H : merge_completion _ _ = Ok _ |- _ => apply merge_completion_ge in H as [Hcl Hcr] end.
  match goal with H : immutable_differs _ _ = false |- _ => apply immutable_same in H as (Hid & Hagent & Hcreator) end.
  match goal with H : merge_title _ _ = Ok _ |- _ => pose proof (merge_title_keeps _ _ _ H) as Htitle end.
  split_and!; [done..|lia|lia| | |exact Htitle|].
  - rewrite <-archive_wins_iff. destruct (archive_wins local remote); [done|].
    split; [|done]. intros Hst. by apply merged_stable_not_archived in Hst.
  - match goal with H : validate_quick_session_meta _ = Ok tt |- _ => exact (archived_no_attempt _ H) end.
  - intros c [Hc|Hc].
    + destruct (Hcl c Hc) as (c' & -> & Hge). exists c'. by destruct c' as [[??]?].
    + destruct (Hcr c Hc) as (c' & -> & Hge). exists c'. by destruct c' as [[??]?].
Qed.
End conflict.

(** ** Runs *)

Section runs.
#[local] Existing Instance ascii_unicode.
#[local] Existing Instance std_percent_encoding.
#[local] Existing Instance keyword_json.

(** Two replies composed offline after [sample_file], the second to the first, while
    carol's message reached the remote. *)
Definition offline_message (line point_to : N) (body : str) : ThreadEntry :=
  EntryMessage (MkMessage line point_to (MkHandler (lit "bob")) (lit "20260101T000200Z") body [] []).

Definition offline_batch : list ThreadEntry := [offline_message 3 1 (lit "one"); offline_message 4 3 (lit "two")].
Definition offline_text : str := concat (map render_entry offline_batch).

Definition remote_text : str := sample_file ++
  lit "[L000003][P000000][@carol][20260101T000130Z] first
".

Definition run_users : list str := [lit "alice"; lit "bob"; lit "carol"; lit "system"].
Definition run_path : str := lit "channels/ops.thread".

Lemma offline_printable line point_to body :
  line ≤ u64_MAX → point_to ≤ u64_MAX → body_ok body → extract_mentions body = [] → extract_links body = [] →
  printable (offline_message line point_to body).
Proof.
  intros Hl Hp Hb Hm Hk. unfold printable. simpl. rewrite Hm, Hk.
  split_and!; [done|done|by right|by vm_compute|done..].
Qed.

Lemma short_body_ok body :
  bool_decide (cr ∈ body) = false → ends_with body [nl] = false → lines body = [body] → body ≠ [] → body_ok body.
Proof.
  intros Hcr%bool_decide_eq_false_1 Hnl Hlines Hne. split_and!; [done|done|]. exists body, []. by rewrite Hlines.
Qed.

Lemma offline_batch_printable : Forall printable offline_batch.
Proof.
  constructor; [|constructor; [|constructor]]; apply offline_printable;
    first [by vm_compute | apply short_body_ok; by vm_compute].
Qed.

Definition parsed (text : str) : list ThreadEntry :=
  match parse_thread text with Ok f => entries f | _ => [] end.

Lemma remote_text_parsed : parse_thread remote_text = Ok (MkThreadFile (parsed sample_file ++ drop 2 (parsed remote_text))).
Proof. vm_compute. reflexivity. Qed.

Lemma sample_file_parsed : parse_thread sample_file = Ok (MkThreadFile (parsed sample_file)).
Proof. vm_compute. reflexivity. Qed.

Lemma remote_text_clean : check_thread_integrity remote_text run_users = Ok [].
Proof. vm_compute. reflexivity. Qed.

Lemma offline_text_valid : validate_append sample_file offline_text run_users [] = Ok tt.
Proof. vm_compute. reflexivity. Qed.

Lemma run_logs :
  ∃ r, complete_file remote_text ∧ parse_thread remote_text = Ok (MkThreadFile (parsed sample_file ++ r))
    ∧ log_wf (list_to_set run_users) ∅ 1 (parsed sample_file ++ r)
    ∧ log_wf (list_to_set run_users) (log_lines (parsed sample_file)) (log_next 1 (parsed sample_file)) offline_batch
    ∧ N.of_nat (length (parsed sample_file) + length r + length offline_batch) + 1 < 2 ^ 64.
Proof.
  destruct (proj1 (check_integrity_spec _ _) remote_text_clean) as (f & Hf & Hlog).
  destruct (proj1 (validate_append_spec _ _ _ _) offline_text_valid) as (f0 & g & Hf0 & Hg & Hl & _).
  destruct (render_parses offline_batch offline_batch_printable) as [Hg' _].
  assert (Ok (MkThreadFile offline_batch) = Ok g) as [= <-] by (rewrite <-Hg; exact (eq_sym Hg')).
  assert (Ok (MkThreadFile (parsed sample_file)) = Ok f0) as [= <-]
    by (rewrite <-Hf0; exact (eq_sym sample_file_parsed)).
  pose proof (eq_trans (eq_sym remote_text_parsed) Hf) as [= <-].
  exists (drop 2 (parsed remote_text)).
  split_and!; [right; by vm_compute|exact remote_text_parsed|exact Hlog|exact Hl|by vm_compute].
Qed.

Lemma run_diverged : diverged (list_to_set run_users) offline_text remote_text.
Proof.
  destruct run_logs as (r & H1 & H2 & H3 & H4 & H5). destruct (render_parses offline_batch offline_batch_printable) as [Hg _].
  exists (parsed sample_file), r, offline_batch. by split_and!; [..|exact offline_batch_printable| |].
Qed.

Lemma renumber_batch_exact_witness :
  ∃ text es', renumber_batch offline_text 7 = Ok text ∧ parse_thread text = Ok (MkThreadFile es')
    ∧ ∃ e', es' !! 1%nat = Some e' ∧ entry_line_number e' = 9.
Proof.
  destruct (renumber_batch_exact offline_batch 7 offline_batch_printable) as (text & es' & Ht & Hp & _ & He).
  - repeat constructor; set_solver.
  - done.
  - exists text, es'. split; [exact Ht|]. split; [exact Hp|].
    destruct (He 1%nat _ eq_refl) as (e' & Hi & _ & Hn & _). exists e'. split; [exact Hi|exact Hn].
Defined.

Lemma resolve_content_clean_witness :
  ∃ files mappings,
    resolve_content_pure {[run_path := offline_text]} {[run_path := remote_text]} = Ok (files, mappings)
    ∧ ∃ file, files = [file] ∧ rf_path file = run_path.
Proof.
  destruct (resolve_content_clean (list_to_set run_users) {[run_path := offline_text]} {[run_path := remote_text]})
    as (files & mappings & items & Hr & Hp & Hf).
  - intros path local Hl. apply lookup_singleton_Some in Hl as [<- <-].
    rewrite lookup_singleton_eq. exact run_diverged.
  - exists files, mappings. split; [exact Hr|]. rewrite map_to_list_singleton in Hp.
    apply Permutation_singleton_r in Hp as ->. inversion Hf as [|item file ? ? [Hpath _] Hnil]. subst.
    apply Forall2_nil_inv_l in Hnil as ->. exists file. split; [done|exact Hpath].
Defined.

Definition meta_of (members : list str) : ChannelMeta :=
  MkChannelMeta (lit "ops") (lit "alice") (lit "20260101T000000Z") [] members None.

Lemma merge_channel_meta_converges_witness :
  cm_members (merge_channel_meta (meta_of [lit "alice"; lit "carol"]) (meta_of [lit "alice"; lit "bob"]))
  = cm_members (merge_channel_meta (meta_of [lit "alice"; lit "bob"]) (meta_of [lit "alice"; lit "carol"])).
Proof.
  refine (proj1 (proj2 (proj2 (merge_channel_meta_converges _ _ _ _))));
    apply (bool_decide_unpack _); vm_compute; exact I.
Defined.

(** The agent answers on one node while another node still has the claim. *)
Definition session_thread : str :=
  lit "[L000001][P000000][@alice][20260101T000000Z] hi
[L000002][P000001][@agent][20260101T000100Z] done
".

Lemma merge_quick_session_safe_witness :
  ∃ m, merge_quick_session_meta ex_titled ex_answered session_thread [] run_path = Ok m
    ∧ validate_quick_session_meta m = Ok tt ∧ qs_status m ≠ Archived.
Proof.
  eexists.
  assert (merge_quick_session_meta ex_titled ex_answered session_thread [] run_path = Ok _) as Hm
    by (vm_compute; reflexivity).
  split; [exact Hm|]. split; [exact (proj1 (merge_quick_session_safe _ _ _ _ _ _ Hm))|done].
Defined.
End runs.
