(* ===== verification/Recipients.v ===== *)
(** * Recipients

    Who is notified of a message ([gitim-core/src/recipients.rs]): for a channel the
    owner, the participants along the reply chain and the mentioned users; for a
    card its reporter, its assignee and the mentioned users. *)

From S2P Require Import Prelude RustStr StrFacts Names Asset Links Thread Meta.
From stdpp Require Import options.
Open Scope N_scope.
Open Scope list_scope.

(** A [BTreeSet<String>] is its sorted list of elements. *)
Definition insert_all (hs : list Handler) (recipients : list str) : list str :=
  fold_left (λ acc h, btree_insert (handler_str h) acc) hs recipients.

Definition insert_nonempty (s : str) (recipients : list str) : list str :=
  if is_empty s then recipients else btree_insert s recipients.

(** The [while] loop.  [fuel] bounds the iterations; [None] means it ran out. *)
Fixpoint parent_chain (fuel : nat) (all_messages : list Message) (cursor : N) (visited : gset N)
  (recipients : list str) : option (list str) :=
  match fuel with
  | O => None
  | S fuel' =>
      if cursor =? 0 then Some recipients
      else if bool_decide (cursor ∈ visited) then Some recipients
      else match List.find (λ m, m_line_number m =? cursor) all_messages with
           | Some ancestor =>
               parent_chain fuel' all_messages (m_point_to ancestor) ({[cursor]} ∪ visited)
                 (insert_all (m_mentions ancestor) (btree_insert (handler_str (m_author ancestor)) recipients))
           | None => Some recipients
           end
  end.

Definition compute_recipients (message : Message) (channel_meta : ChannelMeta) (all_messages : list Message)
  : option (list str) :=
  let recipients := insert_nonempty (cm_created_by channel_meta) [] in
  match parent_chain (S (length all_messages)) all_messages (m_point_to message) ∅ recipients with
  | Some recipients => Some (insert_all (m_mentions message) recipients)
  | None => None
  end.

Definition compute_card_thread_recipients (message : Message) (card_meta : CardMeta) : list str :=
  let recipients := insert_nonempty (card_created_by card_meta) [] in
  let recipients := match card_assignee card_meta with
                    | Some assignee => insert_nonempty assignee recipients
                    | None => recipients
                    end in
  insert_all (m_mentions message) recipients.

(** ** The contract *)

(** [a] is an ancestor met by following replies from line [cursor]. *)
Inductive ancestor (all_messages : list Message) : N → Message → Prop :=
  | ancestor_here cursor a :
      cursor ≠ 0 → List.find (λ m, m_line_number m =? cursor) all_messages = Some a →
      ancestor all_messages cursor a
  | ancestor_up cursor a b :
      cursor ≠ 0 → List.find (λ m, m_line_number m =? cursor) all_messages = Some a →
      ancestor all_messages (m_point_to a) b → ancestor all_messages cursor b.

Definition participant (m : Message) (u : str) : Prop :=
  u = handler_str (m_author m) ∨ u ∈ map handler_str (m_mentions m).

(** ** Sets *)

Lemma elem_of_insert_all hs l u : u ∈ insert_all hs l ↔ u ∈ map handler_str hs ∨ u ∈ l.
Proof.
  unfold insert_all. revert l. induction hs as [|h hs IH]; intros l; simpl; [set_solver|].
  rewrite IH, btree_insert_elem, elem_of_cons. tauto.
Qed.

Lemma insert_all_sorted hs l : StronglySorted str_lt l → StronglySorted str_lt (insert_all hs l).
Proof.
  unfold insert_all. revert l. induction hs as [|h hs IH]; intros l Hl; simpl; [done|].
  by apply IH, btree_insert_sorted.
Qed.

Lemma elem_of_insert_nonempty s l u : u ∈ insert_nonempty s l ↔ (u = s ∧ s ≠ []) ∨ u ∈ l.
Proof.
  unfold insert_nonempty. destruct (is_empty s) eqn:E.
  - apply is_empty_true in E as ->. naive_solver.
  - rewrite btree_insert_elem. destruct s; naive_solver.
Qed.

Lemma insert_nonempty_sorted s l : StronglySorted str_lt l → StronglySorted str_lt (insert_nonempty s l).
Proof. unfold insert_nonempty. destruct (is_empty s); [done|]. apply btree_insert_sorted. Qed.

#[local] Hint Resolve insert_all_sorted insert_nonempty_sorted btree_insert_sorted SSorted_nil : rust.

(** ** The loop *)

Section chain.
Context (all_messages : list Message).

Definition message_lines : gset N := list_to_set (map m_line_number all_messages).

Lemma find_line cursor a :
  List.find (λ m, m_line_number m =? cursor) all_messages = Some a → cursor ∈ message_lines.
Proof.
  intros [Ha%list_elem_of_In Hc%N.eqb_eq]%List.find_some. unfold message_lines.
  apply elem_of_list_to_set, list_elem_of_fmap. by exists a.
Qed.

(** Every iteration visits a new line of the thread. *)
Lemma parent_chain_returns fuel cursor visited recipients :
  (size (message_lines ∖ visited) < fuel)%nat →
  ∃ r, parent_chain fuel all_messages cursor visited recipients = Some r.
Proof.
  revert cursor visited recipients. induction fuel as [|fuel IH]; intros cursor visited recipients Hlt; [lia|].
  simpl. destruct (cursor =? 0); [by eexists|]. case_bool_decide as Hv; [by eexists|].
  destruct (List.find _ _) as [a|] eqn:Hf; [|by eexists]. apply IH.
  apply find_line in Hf.
  assert (size (message_lines ∖ ({[cursor]} ∪ visited)) < size (message_lines ∖ visited))%nat; [|lia].
  apply subset_size. set_solver.
Qed.

(** The lines visited so far: their participants are collected, their parents are
    visited or next. *)
Definition collected (cursor : N) (visited : gset N) (recipients : list str) : Prop :=
  ∀ v a, v ∈ visited → List.find (λ m, m_line_number m =? v) all_messages = Some a →
    (∀ u, participant a u → u ∈ recipients)
    ∧ (m_point_to a = cursor ∨ m_point_to a ∈ visited).

Lemma collected_ancestors cursor visited recipients v a u :
  collected cursor visited recipients →
  cursor = 0 ∨ cursor ∈ visited ∨ List.find (λ m, m_line_number m =? cursor) all_messages = None →
  ancestor all_messages v a → v = cursor ∨ v ∈ visited → participant a u → u ∈ recipients.
Proof.
  intros Hc Hend Ha. induction Ha as [v a Hnz Hf|v a b Hnz Hf Hb IH]; intros Hv Hu.
  - assert (v ∈ visited) as Hin by naive_solver. by apply (Hc v a Hin Hf).
  - assert (v ∈ visited) as Hin by naive_solver. apply IH; [|done].
    by apply (Hc v a Hin Hf).
Qed.

Lemma parent_chain_complete fuel cursor visited recipients r start :
  parent_chain fuel all_messages cursor visited recipients = Some r →
  collected cursor visited recipients → start = cursor ∨ start ∈ visited →
  (∀ u, u ∈ recipients → u ∈ r) ∧ ∀ a u, ancestor all_messages start a → participant a u → u ∈ r.
Proof.
  revert cursor visited recipients. induction fuel as [|fuel IH]; intros cursor visited recipients; [done|].
  simpl. intros Hr Hc Hs. destruct (N.eqb_spec cursor 0) as [->|Hnz].
  { injection Hr as <-. split; [done|]. intros a u Ha. by eapply collected_ancestors; [exact Hc|by left|..]. }
  case_bool_decide as Hv.
  { injection Hr as <-. split; [done|]. intros a u Ha. by eapply collected_ancestors; [exact Hc|by right; left|..]. }
  destruct (List.find _ _) as [a|] eqn:Hf; last first.
  { injection Hr as <-. split; [done|]. intros a u Ha. by eapply collected_ancestors; [exact Hc|by right; right|..]. }
  destruct (IH _ _ _ Hr) as [Hmono Hanc].
  - intros v b Hin Hb. destruct (decide (v = cursor)) as [->|Hne].
    + rewrite Hf in Hb. injection Hb as <-. split; [|by left]. intros u Hu.
      rewrite elem_of_insert_all, btree_insert_elem. unfold participant in Hu. tauto.
    + destruct (Hc v b ltac:(set_solver) Hb) as [Hp Hpt]. split.
      * intros u Hu. rewrite elem_of_insert_all, btree_insert_elem. auto.
      * right. set_solver.
  - right. set_solver.
  - split; [|done]. intros u Hu. apply Hmono. rewrite elem_of_insert_all, btree_insert_elem. auto.
Qed.

Lemma parent_chain_sound fuel cursor visited recipients r :
  parent_chain fuel all_messages cursor visited recipients = Some r →
  (∀ u, u ∈ r → u ∈ recipients ∨ ∃ a, ancestor all_messages cursor a ∧ participant a u)
  ∧ (StronglySorted str_lt recipients → StronglySorted str_lt r).
Proof.
  revert cursor visited recipients. induction fuel as [|fuel IH]; intros cursor visited recipients; [done|].
  simpl. destruct (N.eqb_spec cursor 0) as [->|Hnz]; [intros [= <-]; auto|].
  case_bool_decide as Hv; [intros [= <-]; auto|].
  destruct (List.find _ _) as [a|] eqn:Hf; [|intros [= <-]; auto]. intros [Hs Hsort]%IH. split.
  - intros u [Hu|(b & Hb & Hu)]%Hs.
    + rewrite elem_of_insert_all, btree_insert_elem in Hu. destruct Hu as [Hu|[->|Hu]]; [| |by left];
        right; exists a; (split; [by apply ancestor_here|]); [by right|by left].
    + right. exists b. split; [|done]. by eapply ancestor_up.
  - intros H. apply Hsort. auto with rust.
Qed.
End chain.

Lemma compute_recipients_spec message channel_meta all_messages :
  ∃ r, compute_recipients message channel_meta all_messages = Some r ∧ StronglySorted str_lt r
    ∧ ∀ u, u ∈ r ↔ (u = cm_created_by channel_meta ∧ u ≠ [])
                  ∨ (∃ a, ancestor all_messages (m_point_to message) a ∧ participant a u)
                  ∨ u ∈ map handler_str (m_mentions message).
Proof.
  unfold compute_recipients.
  destruct (parent_chain_returns all_messages (S (length all_messages)) (m_point_to message) ∅
              (insert_nonempty (cm_created_by channel_meta) [])) as [r Hr].
  { rewrite difference_empty_L. unfold message_lines.
    rewrite <-(length_map m_line_number all_messages). apply Nat.lt_succ_r, size_list_to_set_le. }
  rewrite Hr. eexists. split; [reflexivity|].
  destruct (parent_chain_sound _ _ _ _ _ _ Hr) as [Hs Hsort].
  destruct (parent_chain_complete _ _ _ _ _ _ (m_point_to message) Hr) as [Hmono Hanc].
  { intros v a Hv. set_solver. }
  { by left. }
  split; [auto with rust|]. intros u. rewrite elem_of_insert_all. split.
  - intros [Hu|[Hu|Hu]%Hs]; [auto|..|auto].
    rewrite elem_of_insert_nonempty in Hu. set_solver.
  - intros [[-> Hne]|[(a & Ha & Hu)|Hu]]; [right|right|by left].
    + apply Hmono. rewrite elem_of_insert_nonempty. auto.
    + by eapply Hanc.
Qed.

(** C35: channel recipients are exact.  On any list of messages, also one whose
    replies form a cycle, [compute_recipients] returns, strictly sorted, exactly the
    non-empty channel owner, the author and mentions of every ancestor along the
    reply chain, and the mentions of the message. *)
Theorem compute_recipients_exact (message : Message) (channel_meta : ChannelMeta) (all_messages : list Message) :
  ∃ r, compute_recipients message channel_meta all_messages = Some r ∧ StronglySorted str_lt r
    ∧ ∀ u, u ∈ r ↔ (u = cm_created_by channel_meta ∧ u ≠ [])
                  ∨ (∃ a, ancestor all_messages (m_point_to message) a ∧ participant a u)
                  ∨ u ∈ map handler_str (m_mentions message).
Proof. apply compute_recipients_spec. Qed.

(** Card recipients are exact: strictly sorted, the reporter and the assignee
    where not empty, and the mentions of the message. *)
Theorem compute_card_thread_recipients_exact (message : Message) (card_meta : CardMeta) :
  StronglySorted str_lt (compute_card_thread_recipients message card_meta)
  ∧ ∀ u, u ∈ compute_card_thread_recipients message card_meta ↔
      (u ≠ [] ∧ (u = card_created_by card_meta ∨ card_assignee card_meta = Some u))
      ∨ u ∈ map handler_str (m_mentions message).
Proof.
  unfold compute_card_thread_recipients. split.
  - destruct (card_assignee card_meta); auto with rust.
  - intros u. rewrite elem_of_insert_all. destruct (card_assignee card_meta) as [s|];
      rewrite ?elem_of_insert_nonempty; set_solver.
Qed.

(** Two messages that reply to each other. *)
Example cyclic_replies_return :
  let msg n p a := MkMessage n p (MkHandler a) [] [] [] [] in
  compute_recipients (msg 3 2 (lit "carol")) (MkChannelMeta [] (lit "dave") [] [] [] None)
    [msg 1 2 (lit "bob"); msg 2 1 (lit "alice")]
  = Some [lit "alice"; lit "bob"; lit "dave"].
Proof. reflexivity. Qed.
