(* ===== verification/Additions.v ===== *)
(** * What a diff says was appended to a log

    A poll and the replay of a conflict both learn what was written to a thread from
    [git diff] ([diff_range] and [diff_since_merge_base] of [gitim-sync/src/git.rs]).
    Here the text the diff gives for a path is related to the entries that were
    appended to the file. *)

From S2P Require Import Prelude RustStr StrFacts Names Asset Links Thread GitText.
From stdpp Require Import options.
Open Scope N_scope.
Open Scope list_scope.

Section additions.
Context `{UC : !Unicode} `{PE : !PercentEncoding} `{SJ : !SerdeJson}.

Lemma lines_snoc s : cr ∉ s → s ≠ [] → ends_with s [nl] = false → lines (s ++ [nl]) = lines s.
Proof.
  induction s as [a Ha|a b Ha IH] using text_ind; intros Hcr Hne Hend.
  - rewrite (lines_last a) by done. rewrite lines_cons by done. by rewrite lines_nil.
  - apply not_elem_of_app in Hcr as [Hcra [_ Hcrb]%not_elem_of_cons].
    rewrite <-app_assoc. cbn [app]. rewrite (lines_cons a (b ++ [nl])), (lines_cons a b) by done. f_equal.
    assert (b ≠ []) as Hb. { intros ->. apply not_true_iff_false in Hend. apply Hend, ends_with_true. by exists a. }
    apply IH; [done|done|]. apply not_true_iff_false. intros (r & ->)%ends_with_true.
    apply not_true_iff_false in Hend. apply Hend, ends_with_true. exists (a ++ nl :: r). by rewrite <-app_assoc.
Qed.

Lemma join_snoc_empty (l : list str) : l ≠ [] → ends_with (join [nl] (l ++ [[]])) [nl] = true.
Proof.
  intros Hl. apply ends_with_true. induction l as [|a l IH]; [done|]. destruct l as [|b l].
  - exists a. cbn. done.
  - destruct IH as [r Hr]; [done|]. exists (a ++ nl :: r).
    change (join [nl] ((a :: b :: l) ++ [[]])) with (a ++ [nl] ++ join [nl] ((b :: l) ++ [[]])). rewrite Hr. by rewrite <-app_assoc.
Qed.

Lemma payload_end e : printable e → ends_with (entry_payload e) [nl] = false.
Proof.
  intros (_ & _ & _ & _ & He). destruct e as [m|ev]; cbn [entry_payload].
  - by destruct He as ((_ & Hend & _) & _).
  - destruct He as (_ & _ & Hx). destruct (json_print _ Hx) as (t & Ht & _ & _ & Hnl & _). rewrite Ht. cbn [unwrap_or].
    apply not_true_iff_false. intros (r & ->)%ends_with_true. apply Hnl, elem_of_app. right. by left.
Qed.

(** The last line of a written entry is not empty. *)
Lemma render_entry_end e : printable e → ∃ x c, render_entry e = x ++ [c; nl] ∧ c ≠ nl.
Proof.
  intros Hp. destruct (printable_payload e Hp) as (Hcr & first & rest & Hl & Hne & Hrest & Hjoin & Hr).
  assert (∀ l, l ∈ first :: rest → (nl ∉ l)) as Hclean.
  { intros l Hin. rewrite <-Hl in Hin. by apply (lines_clean _ _ Hcr Hin). }
  assert (∃ ls l, header_line e first :: map escaped rest = ls ++ [l] ∧ l ≠ [] ∧ (nl ∉ l)) as (ls & l & El & Hlne & Hnl).
  { destruct rest as [|r rest] using rev_ind.
    - exists [], (header_line e first). split_and!; [done|done|]. apply header_line_no; [done|done|done|]. apply Hclean. by left.
    - clear IHrest. exists (header_line e first :: map escaped rest), (escaped r). rewrite map_app. split_and!; [done| |].
      + intros Hesc. apply app_eq_nil in Hesc as [_ ->]. pose proof (payload_end e Hp) as Hend. rewrite <-Hjoin in Hend.
        change (first :: rest ++ [[]]) with ((first :: rest) ++ [[]]) in Hend. by rewrite join_snoc_empty in Hend.
      + unfold escaped. apply not_elem_of_app. split; [destruct (MSG_PREFIX_RE r); set_solver|]. apply Hclean. right. apply elem_of_app. right. by left. }
  destruct (exists_last Hlne) as (x & c & ->). rewrite Hr, El, map_app, concat_app. cbn. rewrite app_nil_r, <-!app_assoc.
  eexists _, c. split; [by rewrite app_assoc|]. intros ->. apply Hnl, elem_of_app. right. by left.
Qed.

(** What was appended, without its last line break, parses to the entries. *)
Lemma added_entries_parse (es : list ThreadEntry) (text : str) :
  Forall printable es → text ++ [nl] = concat (map render_entry es) → parse_thread text = Ok (MkThreadFile es).
Proof.
  intros Hes Ht. destruct (render_parses es Hes) as [Hp _]. rewrite <-Ht in Hp. rewrite parse_thread_lines in Hp |- *.
  assert (cr ∉ concat (map render_entry es)) as Hcr.
  { clear -Hes. induction Hes as [|e es He _ IH]; cbn; [apply not_elem_of_nil|]. apply not_elem_of_app. split; [|done].
    by apply render_entry_lines in He as [? _]. }
  rewrite <-Ht in Hcr. assert (cr ∉ text) as Hcr' by (by apply not_elem_of_app in Hcr as [? _]).
  assert (text ≠ [] ∧ ends_with text [nl] = false) as [Hne Hend].
  { destruct es as [|e es _] using rev_ind; [by destruct text|]. apply Forall_app in Hes as [_ [He _]%Forall_cons].
    destruct (render_entry_end e He) as (x & c & Hr & Hc). rewrite map_app, concat_app in Ht. cbn in Ht. rewrite app_nil_r, Hr in Ht.
    change [c; nl] with ([c] ++ [nl]) in Ht. rewrite !app_assoc in Ht. apply app_inj_tail in Ht as [-> _].
    split; [by intros []%app_eq_nil|]. apply not_true_iff_false. intros (r & Hr')%ends_with_true. apply app_inj_tail in Hr' as [_ ->]. done. }
  rewrite !replace_crlf_id in Hp by done. rewrite replace_crlf_id by done. by rewrite lines_snoc in Hp.
Qed.

Lemma rendered_no_cr es : Forall printable es → cr ∉ concat (map render_entry es).
Proof.
  induction 1 as [|e es He _ IH]; cbn; [apply not_elem_of_nil|]. apply not_elem_of_app. split; [|done].
  by apply render_entry_lines in He as [? _].
Qed.

Lemma rendered_first_line es : Forall printable es → es ≠ [] → hd [] (lines (concat (map render_entry es))) ≠ [].
Proof.
  intros Hes Hne. destruct es as [|e es]; [done|]. apply Forall_cons in Hes as [He _].
  apply render_entry_lines in He as (_ & (r & Hr)%ends_with_true & first & rest & Hl & _). cbn [map concat].
  rewrite Hr, <-app_assoc. cbn [app]. rewrite lines_app, <-Hr, Hl. cbn. unfold header_line, message_header. by destruct e.
Qed.

(** The text of entries, without its last line break. *)
Lemma rendered_text es :
  Forall printable es → es ≠ [] →
  ∃ text, text ++ [nl] = concat (map render_entry es) ∧ (cr ∉ text) ∧ text ≠ [] ∧ ends_with text [nl] = false.
Proof.
  intros Hes Hne. destruct (exists_last Hne) as (es0 & e & ->). pose proof (rendered_no_cr _ Hes) as Hcr.
  apply Forall_app in Hes as [_ [He _]%Forall_cons]. destruct (render_entry_end e He) as (x & c & Hr & Hc).
  rewrite map_app, concat_app in Hcr |- *. cbn in *. rewrite app_nil_r, Hr in *.
  change [c; nl] with ([c] ++ [nl]) in *. rewrite !app_assoc in *. eexists. split; [done|].
  apply not_elem_of_app in Hcr as [Hcr _]. split_and!; [done|by intros []%app_eq_nil|].
  apply not_true_iff_false. intros (r & Hr')%ends_with_true. apply app_inj_tail in Hr' as [_ ->]. done.
Qed.

Lemma skip_empty_id ls : hd [] ls ≠ [] → skip_empty ls = ls.
Proof. by destruct ls as [|[|c l] ls]. Qed.

(** The lines a diff adds to a path are those of entries the formatter can write and the
    parser read back, and none of them starts with two plus signs. *)
Record appended (ds : list FileDiff) (path : str) (es : list ThreadEntry) : Prop := {
  ap_printable : Forall printable es;
  ap_some : es ≠ [];
  ap_lines : added_to path ds = lines (concat (map render_entry es));
  ap_plain : Forall (λ l, plus_plus l = false) (added_to path ds);
}.

(** Then the diff gives their text, less the last line break. *)
Lemma appended_text (ds : list FileDiff) (path : str) (es : list ThreadEntry) :
  diff_ok ds → appended ds path es →
  ∃ text, parse_diff_output (diff_text ds) !! path = Some text ∧ text ++ [nl] = concat (map render_entry es).
Proof.
  intros Hok [Hes Hne Hadd Hplus]. pose proof (rendered_first_line es Hes Hne) as Hfirst.
  destruct (rendered_text es Hes Hne) as (text & Ht & Hcr & Htne & Hend). exists text. split; [|done].
  rewrite (parse_diff_lookup ds path Hok).
  assert (kept (added_to path ds) = added_to path ds) as ->.
  { clear -Hplus. unfold kept. induction Hplus as [|l ls Hl _ IH]; [done|]. rewrite filter_cons, decide_True by done. by rewrite IH. }
  rewrite Hadd, <-Ht in *. rewrite lines_snoc in * by done.
  destruct (lines text) as [|l ls] eqn:El; [done|]. rewrite skip_empty_id by done. by rewrite <-El, join_lines.
Qed.
End additions.
