(* ===== verification/Poll.v ===== *)
(** * Polling for changes

    [handle_poll] ([gitim-daemon/src/handlers/poll.rs]): a client keeps the commit it has
    seen and asks for what came since.  The answer is built from the lines git reports as
    added, path by path, and from the work tree: what belongs to a channel or a direct
    message the user has no part in is left out, and each message is given the users it is
    meant for.

    The answer depends on nothing the user has no part in, and a message added to a channel
    or a direct message of his is in it, with everybody it mentions. *)

From S2P Require Import Prelude RustStr StrFacts Names QuickSession Asset Links Thread Compliance Meta Git Daemon Cards Recipients GitText Additions.
From stdpp Require Import options.
Open Scope N_scope.
Open Scope list_scope.

(** ** The answer *)

Inductive PollKind :=
  | PollBoard
  | PollQuickSessionMeta
  | PollQuickSessionThread
  | PollCardMeta
  | PollCardThread
  | PollChannel
  | PollChannelMeta
  | PollDm
  | PollDmArchived
  | PollCronThread
  | PollUserArchived.

Inductive PollError :=
  | SelfDeparted
  | NoCommit
  | InvalidCommitHash
  | DiffFailed.

(** ** Paths *)

Definition board_handler_from_path (path : str) : option str :=
  rest ← strip_prefix (lit "showboards/") path;
  '(handler, file) ← split_once (lit "/") rest;
  if (file =?? lit "board.md") && is_ok (Handler_new handler) then Some handler else None.

Definition session_meta_file : str := lit "session.meta.yaml".
Definition discussion_file : str := lit "discussion.thread".

Definition quick_session_path (path : str) : option (bool * str * str) :=
  '(archived, rest) ← match strip_prefix (lit "quick-sessions/") path with
                      | Some rest => Some (false, rest)
                      | None => rest ← strip_prefix (lit "archive/quick-sessions/") path; Some (true, rest)
                      end;
  '(session_id, file) ← split_once (lit "/") rest;
  if contains file (lit "/") || negb (is_ok (validate_quick_session_id session_id)) then None
  else if (file =?? session_meta_file) || (file =?? discussion_file) then Some (archived, session_id, file) else None.

(** [str::replace]: the matches from left to right; each takes at least one character. *)
Fixpoint replace_fuel (fuel : nat) (pat to s : str) : str :=
  match fuel with
  | O => s
  | S fuel' => match split_once pat s with
               | Some (a, b) => a ++ to ++ replace_fuel fuel' pat to b
               | None => s
               end
  end.
Definition replace (pat to s : str) : str := replace_fuel (length s) pat to s.

(** The channel that owns a path: its two files, and what lies in the directory of its cards. *)
Definition extract_channel (path : str) : option str :=
  rest ← strip_prefix (lit "channels/") path;
  let stem := match strip_suffix (lit ".thread") rest with
              | Some s => Some s
              | None => strip_suffix (lit ".meta.yaml") rest
              end in
  match (s ← stem; if contains s (lit "/") then None else Some s) with
  | Some s => Some s
  | None =>
      '(c, tail) ← split_once (lit "/") rest;
      if starts_with tail (lit "cards/") then Some c else None
  end.

(** [serde_yaml::from_str::<Value>(text)], then [get(key)] and [as_str]: [None] is a text
    that is not YAML. *)
Class YamlField := { yaml_str_field : str → str → option (option str) }.

Section poll.
Context `{UC : !Unicode} `{PE : !PercentEncoding} `{SJ : !SerdeJson}.
Context `{YC : !Yaml ChannelMeta} `{YM : !Yaml CardMeta} `{YQ : !Yaml QuickSessionMeta} `{YF : !YamlField}.

(** The JSON of an entry: a thread entry as [entry_to_json] writes it, with its recipients;
    the state of a quick session; a card's assignment or the mentions in its title. *)
Inductive PollEntry :=
  | PollThreadEntry (e : ThreadEntry) (recipients : option (list str))
  | PollSessionMeta (session_id agent_id : str) (status : QuickSessionStatus) (revision : N) (recipients : option (list str))
  | PollCardEvent (event_type body : str) (mentions : list str) (assignee : option str).

Record PollChange := MkPollChange { pc_channel : str; pc_kind : PollKind; pc_entries : list PollEntry }.
Record PollResponse := MkPollResponse { pr_commit_id : str; pr_changes : list PollChange }.

(** What a poll sees of the machine: the work tree with the files that can be read, who is
    asking, the answers of git, with what its two diff commands print between two commits,
    and the order in which a [HashMap] of paths happens to be walked. *)
Record PollWorld := MkPollWorld {
  pw_tree : tree;
  pw_read_ok : str → bool;
  pw_user : option str;
  pw_admin : bool;
  pw_guest : bool;
  pw_has_remote : bool;
  pw_rev_parse : str → option str;
  pw_diff_out : str → str → option str;
  pw_names_out : str → str → option str;
  pw_walk : gmap str str → list (str * str);
}.

(** What a path of the diff comes to: a change to tell, or a panic of the thread parser. *)
Inductive Said := Says (change : PollChange) | Panics.

Section step.
Context (w : PollWorld).

Definition poll_read (p : str) : option str := if pw_read_ok w p then pw_tree w !! p else None.

(** [diff_range], [changed_files_range] and both of them, one after the other. *)
Definition diff_range (from to : str) : option (gmap str str) :=
  stdout ← pw_diff_out w from to; Some (parse_diff_output stdout).
Definition changed_files_range (from to : str) : option (list str) :=
  stdout ← pw_names_out w from to; Some (List.filter (λ line, negb (is_empty line)) (lines stdout)).
Definition pw_diff (since current : str) : option (list (str * str) * list str) :=
  diff ← diff_range since current; files ← changed_files_range since current; Some (pw_walk w diff, files).

Definition skip_filter : bool := pw_admin w || pw_guest w.

(** [current_user.as_ref().is_some_and(..)]. *)
Definition is_me (h : str) : bool := is_some_and (pw_user w) (λ me, me =?? h).

(** *** Channels *)

Definition is_member (channel : str) : bool :=
  match (content ← poll_read (channel_meta_path channel); yaml_from_str content) with
  | Some meta => if is_empty (cm_members meta) then true else existsb is_me (cm_members meta)
  | None => true
  end.

Definition channel_membership (diff : list (str * str)) : gmap str bool :=
  if skip_filter then ∅
  else fold_left (λ seen (entry : str * str),
         match extract_channel entry.1 with
         | Some c => if is_some (seen !! c) then seen else <[c := is_member c]> seen
         | None => seen
         end) diff ∅.

(** *** Entries *)

Definition has_field (field added : str) : bool :=
  existsb (λ line, starts_with (trim_start line) field) (lines added).

Definition card_meta_entries_for_poll (path added : str) : list PollEntry :=
  let assignee_changed := has_field (lit "assignee:") added in
  let title_changed := has_field (lit "title:") added in
  if negb assignee_changed && negb title_changed then []
  else
    match (content ← poll_read path; yaml_from_str content) with
    | None => []
    | Some meta =>
        let mentions := if title_changed then map handler_str (extract_mentions (card_title meta)) else [] in
        let assignee := if assignee_changed then card_assignee meta else None in
        if negb (is_some assignee) && is_empty mentions then []
        else
          let event_type := if is_some assignee then lit "card_assignment" else lit "card_mention" in
          let body := match assignee with
                      | Some handler => lit "card assigned to " ++ handler ++ lit ": " ++ card_title meta
                      | None => lit "card created: " ++ card_title meta
                      end in
          [PollCardEvent event_type body mentions assignee]
    end.

(** The entries in JSON, each message with its recipients. *)
Definition with_recipients (recipients : Message → option (list str)) (es : list ThreadEntry) : list PollEntry :=
  map (λ e, PollThreadEntry e match e with EntryMessage msg => recipients msg | EntryEvent _ => None end) es.

Definition non_empty (l : list str) : option (list str) := if is_empty l then None else Some l.

Definition enrich_card_thread_entries_with_recipients (es : list ThreadEntry) (channel card_id : str) : list PollEntry :=
  let card_meta := content ← poll_read (card_meta_of (card_rel channel card_id)); yaml_from_str content in
  with_recipients (λ msg, meta ← card_meta; non_empty (compute_card_thread_recipients msg meta)) es.

Definition messages_of (es : list ThreadEntry) : list Message :=
  omap (λ e, match e with EntryMessage m => Some m | EntryEvent _ => None end) es.

(** The channel's metadata and the messages of its whole thread. *)
Definition channel_context (channel : str) : option (ChannelMeta * list Message) :=
  meta ← (content ← poll_read (channel_meta_path channel); yaml_from_str content);
  let messages := match poll_read (channel_thread_path channel) with
                  | Some content => match parse_thread content with Ok f => messages_of (entries f) | _ => [] end
                  | None => []
                  end in
  Some (meta, messages).

Definition channel_recipients (channel : str) (msg : Message) : option (list str) :=
  '(meta, messages) ← channel_context channel;
  r ← compute_recipients msg meta messages;
  non_empty r.

Definition dm_members (path : str) : option (list str) :=
  name ← strip_prefix (lit "dm/") path;
  stem ← strip_suffix (lit ".thread") name;
  '(a, b) ← parse_dm_filename stem;
  Some (sort_strings [a; b]).

Definition enrich_channel_entries (es : list ThreadEntry) (channel : str) : list PollEntry :=
  with_recipients (channel_recipients channel) es.

Definition enrich_dm_entries (es : list ThreadEntry) (path : str) : list PollEntry :=
  with_recipients (λ _, dm_members path) es.

(** Added lines that parse to at least one entry, and what is said of it. *)
Definition with_entries (added : str) (k : list ThreadEntry → Said) : option Said :=
  match parse_thread added with
  | Ok f => if is_empty (entries f) then None else Some (k (entries f))
  | Err _ => None
  | Panicked => Some Panics
  end.

(** The thread that is read again for the chain of replies stops the parser. *)
Definition context_panics (channel : str) : bool :=
  match poll_read (channel_thread_path channel) with
  | Some content => match parse_thread content with Panicked => true | _ => false end
  | None => false
  end.

(** *** One path of the diff *)

Definition session_change (archived : bool) (session_id file added : str) : option Said :=
  let base := (if archived then lit "archive/quick-sessions/" else lit "quick-sessions/") ++ session_id in
  let meta := content ← poll_read (base ++ lit "/" ++ session_meta_file);
              m ← yaml_from_str content;
              if is_ok (validate_quick_session_meta m) then Some m else None in
  let agent := if archived then None else m ← meta; if bool_decide (qs_status m = Archived) then None else Some [qs_agent_id m] in
  if file =?? session_meta_file then
    m ← meta;
    Some (Says (MkPollChange session_id PollQuickSessionMeta
                  [PollSessionMeta (qs_id m) (qs_agent_id m) (qs_status m) (qs_revision m) agent]))
  else
    with_entries added (λ es,
      Says (MkPollChange session_id PollQuickSessionThread (with_recipients (λ _, agent) es))).

Definition card_path (path : str) : option (str * str * str) :=
  rest ← strip_prefix (lit "channels/") path;
  '(c, tail) ← split_once (lit "/") rest;
  card_rest ← strip_prefix (lit "cards/") tail;
  '(card_id, file) ← split_once (lit "/") card_rest;
  Some (c, card_id, file).

Definition card_change (c card_id file path added : str) : option Said :=
  let card_key := lit "card:" ++ c ++ lit "/" ++ card_id in
  if file =?? lit "card.meta.yaml" then
    Some (Says (MkPollChange card_key PollCardMeta (card_meta_entries_for_poll path added)))
  else if file =?? discussion_file then
    with_entries added (λ es,
      Says (MkPollChange card_key PollCardThread (enrich_card_thread_entries_with_recipients es c card_id)))
  else None.

(** The membership found for the diff; a channel that is not in it is open. *)
Definition open_in (membership : gmap str bool) (c : str) : bool := skip_filter || unwrap_or (membership !! c) true.

(** The user takes part in the direct message. *)
Definition my_pair (a b : str) : bool := skip_filter || is_me a || is_me b.

Definition channel_change (membership : gmap str bool) (name added : str) : option Said :=
  if contains name (lit "/") then None
  else match strip_suffix (lit ".thread") name with
       | Some c =>
           if negb (open_in membership c) then None
           else with_entries added (λ es,
                  if context_panics c then Panics
                  else Says (MkPollChange c PollChannel (enrich_channel_entries es c)))
       | None =>
           c ← strip_suffix (lit ".meta.yaml") name;
           if negb (open_in membership c) then None else Some (Says (MkPollChange c PollChannelMeta []))
       end.

Definition dm_change (name path added : str) : option Said :=
  let stem := strip_suffix (lit ".thread") name in
  let channel := lit "dm:" ++ replace (lit "--") (lit ",") (unwrap_or stem name) in
  let hidden := is_some_and (s ← stem; parse_dm_filename s) (λ '(a, b), negb (my_pair a b)) in
  if hidden then None
  else with_entries added (λ es, Says (MkPollChange channel PollDm (enrich_dm_entries es path))).

Definition archived_channel_change (name : str) : option Said :=
  if contains name (lit "/") then None
  else
    c ← match strip_suffix (lit ".thread") name with Some c => Some c | None => strip_suffix (lit ".meta.yaml") name end;
    Some (Says (MkPollChange c PollChannelMeta [])).

Definition archived_dm_change (name : str) : option Said :=
  if contains name (lit "/") then None
  else
    stem ← strip_suffix (lit ".thread") name;
    '(a, b) ← parse_dm_filename stem;
    if my_pair a b then Some (Says (MkPollChange (lit "dm:" ++ a ++ lit "," ++ b) PollDmArchived [])) else None.

Definition cron_thread_change (rest added : str) : option Said :=
  '(cron_name, _) ← split_once (lit "/") rest;
  spec_str ← poll_read (lit "crons/" ++ cron_name ++ lit "/spec.yaml");
  field ← yaml_str_field spec_str (lit "target");
  let spec_target := unwrap_or field [] in
  if is_empty spec_target || negb (is_me spec_target) then None
  else with_entries added (λ es,
         Says (MkPollChange (lit "cron:" ++ cron_name) PollCronThread (with_recipients (λ _, None) es))).

Definition archived_user_change (name : str) : option Said :=
  if contains name (lit "/") then None
  else handler ← strip_suffix (lit ".meta.yaml") name; Some (Says (MkPollChange handler PollUserArchived [])).

Definition poll_path (membership : gmap str bool) (path added : str) : option Said :=
  if is_some (board_handler_from_path path) then None
  else match quick_session_path path with
  | Some (archived, session_id, file) => session_change archived session_id file added
  | None =>
  match card_path path with
  | Some (c, card_id, file) => if negb (open_in membership c) then None else card_change c card_id file path added
  | None =>
  match strip_prefix (lit "channels/") path with
  | Some name => channel_change membership name added
  | None =>
  match strip_prefix (lit "dm/") path with
  | Some name => dm_change name path added
  | None =>
  match strip_prefix (lit "archive/channels/") path with
  | Some name => archived_channel_change name
  | None =>
  match strip_prefix (lit "archive/dm/") path with
  | Some name => archived_dm_change name
  | None =>
  if starts_with path (lit "crons/") && ends_with path (lit ".thread") && negb (starts_with path (lit "archive/")) then
    rest ← strip_prefix (lit "crons/") path; cron_thread_change rest added
  else
    name ← strip_prefix (lit "archive/users/") path; archived_user_change name
  end end end end end end.

(** *** All of it *)

(** Each board that has changed, once. *)
Definition board_changes (changed_files : list str) : list PollChange :=
  let handlers := fold_left (λ seen path,
    match board_handler_from_path path with
    | Some h => if bool_decide (h ∈ seen) then seen else seen ++ [h]
    | None => seen
    end) changed_files [] in
  map (λ h, MkPollChange h PollBoard []) handlers.

Definition said_change (s : Said) : option PollChange := match s with Says change => Some change | Panics => None end.

Definition poll_changes (diff : list (str * str)) (changed_files : list str) : res (list PollChange) PollError :=
  let membership := channel_membership diff in
  let said := omap (λ entry : str * str, poll_path membership entry.1 entry.2) diff in
  if existsb (λ s, is_none (said_change s)) said then Panicked
  else Ok (board_changes changed_files ++ omap said_change said).

Definition is_commit_hash (s : str) : bool := (len s =? 40) && forallb is_ascii_hexdigit s.

(** The changes between two commits. *)
Definition poll_range (since current : str) : res PollResponse PollError :=
  if negb (is_commit_hash since) then Err InvalidCommitHash
  else if since =?? current then Ok (MkPollResponse current [])
  else
    let? '(diff, changed_files) := ok_or (pw_diff since current) DiffFailed in
    let? changes := poll_changes diff changed_files in
    Ok (MkPollResponse current changes).

Definition handle_poll (since : option str) : res PollResponse PollError :=
  try? guard_err (is_some_and (pw_user w) (λ me, path_exists (pw_tree w) (archived_user_meta_path me))) SelfDeparted then
  let upstream_ok := pw_has_remote w && is_some (pw_rev_parse w (lit "@{upstream}")) in
  let ref_name := if upstream_ok then lit "@{upstream}" else lit "HEAD" in
  let? current := ok_or (pw_rev_parse w ref_name) NoCommit in
  match (s ← since; if is_empty s then None else Some s) with
  | Some s => poll_range s current
  | None =>
      match pw_rev_parse w (ref_name ++ lit "~1") with
      | Some parent => poll_range parent current
      | None => Ok (MkPollResponse current [])
      end
  end.

End step.

(** ** What is private *)

(** A channel whose readable metadata names members, and not the user. *)
Definition shut_out (w : PollWorld) (c : str) : Prop :=
  ∃ text meta, poll_read w (channel_meta_path c) = Some text ∧ yaml_from_str text = Some meta
    ∧ cm_members meta ≠ [] ∧ ∀ me, pw_user w = Some me → me ∉ cm_members meta.

Definition other_pair (w : PollWorld) (a b : str) : Prop := pw_user w ≠ Some a ∧ pw_user w ≠ Some b.

(** The files of such channels and their cards, and the direct messages of others. *)
Inductive private_to (w : PollWorld) : str → Prop :=
  | private_thread c : slash ∉ c → shut_out w c → private_to w (channel_thread_path c)
  | private_meta c : slash ∉ c → shut_out w c → private_to w (channel_meta_path c)
  | private_card c rest : slash ∉ c → shut_out w c → private_to w (lit "channels/" ++ c ++ lit "/cards/" ++ rest)
  | private_dm stem a b : parse_dm_filename stem = Some (a, b) → other_pair w a b → private_to w (dm_thread_path stem)
  | private_archived_dm stem a b :
      parse_dm_filename stem = Some (a, b) → other_pair w a b → private_to w (archived_dm_thread_path stem).

Lemma is_me_true w h : is_me w h = true ↔ pw_user w = Some h.
Proof. unfold is_me. destruct (pw_user w) as [me|]; cbn; [|done]. rewrite bool_decide_eq_true. naive_solver. Qed.

Lemma is_me_false w h : is_me w h = false ↔ pw_user w ≠ Some h.
Proof. rewrite <-is_me_true. by destruct (is_me w h). Qed.

Lemma my_pair_false w a b : skip_filter w = false → my_pair w a b = false ↔ other_pair w a b.
Proof. intros Hs. unfold my_pair, other_pair. rewrite Hs. cbn [orb]. by rewrite orb_false_iff, !is_me_false. Qed.

Lemma is_member_false w c : is_member w c = false ↔ shut_out w c.
Proof.
  unfold is_member, shut_out. destruct (poll_read w (channel_meta_path c)) as [text|]; cbn; [|split; [done|by intros (? & ? & ? & _)]].
  destruct (yaml_from_str text) as [meta|] eqn:Em; cbn; [|split; [done|intros (? & ? & [= <-] & ? & _); congruence]].
  split.
  - intros H. exists text, meta. destruct (cm_members meta) as [|m ms] eqn:El; [done|]. cbn [is_empty] in H. rewrite <-El in *.
    split_and!; [done|done|by rewrite El|]. intros me Hme Hin. apply not_true_iff_false in H. apply H, existsb_exists.
    exists me. split; [by apply list_elem_of_In|by apply is_me_true].
  - intros (text' & meta' & [= <-] & Hm & Hne & Hno). rewrite Em in Hm. injection Hm as <-.
    destruct (cm_members meta) as [|m ms] eqn:El; [done|]. cbn [is_empty]. rewrite <-El in *.
    apply not_true_iff_false. intros (me & Hin%list_elem_of_In & Hme%is_me_true)%existsb_exists. by apply (Hno me).
Qed.

(** *** The channel of a path *)

Lemma meta_not_thread c : strip_suffix (lit ".thread") (c ++ lit ".meta.yaml") = None.
Proof.
  destruct (strip_suffix _ _) as [r|] eqn:E; [|done]. apply strip_suffix_Some in E.
  apply (f_equal reverse) in E. rewrite !reverse_app in E. done.
Qed.

Lemma no_slash_contains c : slash ∉ c ↔ contains c (lit "/") = false.
Proof. rewrite <-not_true_iff_false. change (lit "/") with [slash]. by rewrite contains_char_true. Qed.

Lemma extract_thread c : slash ∉ c → extract_channel (channel_thread_path c) = Some c.
Proof.
  intros Hc%no_slash_contains. unfold extract_channel, channel_thread_path, thread_path.
  change (strip_prefix _ _) with (Some (c ++ lit ".thread")). cbn [mbind option_bind].
  rewrite (proj2 (strip_suffix_Some _ _ c) eq_refl). cbn [mbind option_bind]. by rewrite Hc.
Qed.

Lemma extract_meta c : slash ∉ c → extract_channel (channel_meta_path c) = Some c.
Proof.
  intros Hc%no_slash_contains. unfold extract_channel, channel_meta_path, meta_path.
  change (strip_prefix _ _) with (Some (c ++ lit ".meta.yaml")). cbn [mbind option_bind].
  rewrite meta_not_thread, (proj2 (strip_suffix_Some _ _ c) eq_refl). cbn [mbind option_bind]. by rewrite Hc.
Qed.

Lemma thread_suffix_no_slash : slash ∉ lit ".thread".
Proof. apply (bool_decide_unpack _). by vm_compute. Qed.
Lemma meta_suffix_no_slash : slash ∉ lit ".meta.yaml".
Proof. apply (bool_decide_unpack _). by vm_compute. Qed.

Lemma stem_with_slash (suffix s r : str) : slash ∉ suffix → slash ∈ s → strip_suffix suffix s = Some r → contains r (lit "/") = true.
Proof.
  intros Hn Hs ->%strip_suffix_Some. change (lit "/") with [slash]. apply contains_char_true.
  apply elem_of_app in Hs as [?|?]; done.
Qed.

Lemma extract_card c rest : slash ∉ c → extract_channel (lit "channels/" ++ c ++ lit "/cards/" ++ rest) = Some c.
Proof.
  intros Hc. unfold extract_channel. rewrite strip_prefix_app. cbn [mbind option_bind].
  set (r := c ++ lit "/cards/" ++ rest). assert (slash ∈ r) as Hr by (apply elem_of_app; right; by left).
  set (stem := match strip_suffix (lit ".thread") r with Some s => Some s | None => _ end).
  assert ((stem ≫= λ s, if contains s (lit "/") then None else Some s) = None) as ->.
  { unfold stem. destruct (strip_suffix (lit ".thread") r) as [s'|] eqn:E; cbn [mbind option_bind].
    - by rewrite (stem_with_slash _ _ _ thread_suffix_no_slash Hr E).
    - destruct (strip_suffix (lit ".meta.yaml") r) as [s'|] eqn:E'; cbn [mbind option_bind]; [|done].
      by rewrite (stem_with_slash _ _ _ meta_suffix_no_slash Hr E'). }
  unfold r. change (c ++ lit "/cards/" ++ rest) with (c ++ slash :: (lit "cards/" ++ rest)).
  rewrite split_once_char by done. cbn [mbind option_bind]. unfold starts_with. by rewrite strip_prefix_app.
Qed.

Lemma split_once_slash s a b : split_once (lit "/") s = Some (a, b) → slash ∉ a.
Proof.
  intros H Ha. apply list_elem_of_split in Ha as (a1 & a2 & ->). pose proof (split_once_Some _ _ _ _ H) as Hs.
  pose proof (split_once_first _ _ _ _ H a1 (a2 ++ lit "/" ++ b)) as Hlen. rewrite Hs, <-app_assoc, length_app in Hlen.
  specialize (Hlen eq_refl). cbn in Hlen. lia.
Qed.

Lemma extract_channel_Some p c :
  extract_channel p = Some c →
  (slash ∉ c) ∧ (p = channel_thread_path c ∨ p = channel_meta_path c ∨ ∃ rest, p = lit "channels/" ++ c ++ lit "/cards/" ++ rest).
Proof.
  unfold extract_channel. destruct (strip_prefix _ p) as [r|] eqn:Ep; cbn [mbind option_bind]; [|done].
  apply strip_prefix_Some in Ep as ->. set (stem := match strip_suffix (lit ".thread") r with Some s => Some s | None => _ end).
  destruct (stem ≫= (λ s, if contains s (lit "/") then None else Some s)) as [s|] eqn:Es.
  - intros [= ->]. destruct stem as [s|] eqn:E; cbn in Es; [|done]. destruct (contains s _) eqn:Hc; [done|]. injection Es as ->.
    split; [by apply no_slash_contains|]. unfold stem in E.
    destruct (strip_suffix (lit ".thread") r) as [s'|] eqn:E1; [injection E as ->; apply strip_suffix_Some in E1 as ->; by left|].
    apply strip_suffix_Some in E as ->. right. by left.
  - destruct (split_once _ r) as [[c' tail]|] eqn:E; cbn; [|done]. destruct (starts_with tail _) eqn:Et; [|done]. intros [= ->].
    pose proof (split_once_Some _ _ _ _ E) as ->. unfold starts_with in Et.
    destruct (strip_prefix (lit "cards/") tail) as [rest|] eqn:Er; [|done]. apply strip_prefix_Some in Er as ->.
    split; [by eapply split_once_slash|]. right. right. by exists rest.
Qed.

Lemma card_path_Some p c card_id file :
  card_path p = Some (c, card_id, file) → (slash ∉ c) ∧ p = lit "channels/" ++ c ++ lit "/cards/" ++ card_id ++ slash :: file.
Proof.
  unfold card_path. destruct (strip_prefix _ p) as [r|] eqn:Ep; cbn [mbind option_bind]; [|done]. apply strip_prefix_Some in Ep as ->.
  destruct (split_once _ r) as [[c' tail]|] eqn:E; cbn [mbind option_bind]; [|done].
  destruct (strip_prefix _ tail) as [cr|] eqn:Et; cbn [mbind option_bind]; [|done]. apply strip_prefix_Some in Et as ->.
  destruct (split_once _ cr) as [[i f]|] eqn:E2; cbn [mbind option_bind]; [|done]. intros [= -> -> ->].
  split; [by eapply split_once_slash|]. apply split_once_Some in E as ->, E2 as ->. done.
Qed.

Lemma card_path_channel p c card_id file : card_path p = Some (c, card_id, file) → extract_channel p = Some c.
Proof. intros [Hc ->]%card_path_Some. by apply extract_card. Qed.

(** *** The membership table *)

Lemma membership_found w diff c b : channel_membership w diff !! c = Some b → b = is_member w c.
Proof.
  unfold channel_membership. destruct (skip_filter w); [by rewrite lookup_empty|].
  assert (∀ m : gmap str bool, (∀ c b, m !! c = Some b → b = is_member w c) → ∀ c b,
    fold_left (λ seen (entry : str * str), match extract_channel entry.1 with
      | Some c => if is_some (seen !! c) then seen else <[c := is_member w c]> seen | None => seen end) diff m !! c = Some b →
    b = is_member w c) as H; [|by apply H; intros ? ?; rewrite lookup_empty].
  induction diff as [|e diff IH]; intros m Hm; [done|]. cbn [fold_left]. apply IH. intros c' b'.
  destruct (extract_channel e.1) as [c0|]; [|apply Hm]. destruct (is_some (m !! c0)); [apply Hm|].
  destruct (decide (c0 = c')) as [->|Hne]; [rewrite lookup_insert_eq; by intros [= <-]|rewrite lookup_insert_ne by done; apply Hm].
Qed.

Lemma membership_complete w diff p v c :
  skip_filter w = false → (p, v) ∈ diff → extract_channel p = Some c → is_Some (channel_membership w diff !! c).
Proof.
  intros Hs Hin Hc. unfold channel_membership. rewrite Hs. generalize (∅ : gmap str bool).
  assert (∀ diff (m : gmap str bool), is_Some (m !! c) →
    is_Some (fold_left (λ seen (entry : str * str), match extract_channel entry.1 with
      | Some c => if is_some (seen !! c) then seen else <[c := is_member w c]> seen | None => seen end) diff m !! c)) as Hkeep.
  { clear Hin. intros diff'. induction diff' as [|e diff' IH]; intros m Hm; [done|]. cbn [fold_left]. apply IH.
    destruct (extract_channel e.1) as [c0|]; [|done]. destruct (is_some (m !! c0)); [done|].
    destruct (decide (c0 = c)) as [->|Hne]; [by rewrite lookup_insert_eq|by rewrite lookup_insert_ne]. }
  induction diff as [|e diff IH]; intros m; [by apply elem_of_nil in Hin|]. cbn [fold_left]. apply elem_of_cons in Hin as [<-|Hin]; [|by apply IH].
  cbn [fst]. rewrite Hc. apply Hkeep. destruct (m !! c) eqn:E; cbn [is_some]; [by rewrite E|by rewrite lookup_insert_eq].
Qed.

Lemma open_in_diff w diff p v c :
  (p, v) ∈ diff → extract_channel p = Some c → open_in w (channel_membership w diff) c = skip_filter w || is_member w c.
Proof.
  intros Hin Hc. unfold open_in. destruct (skip_filter w) eqn:Hs; [done|]. cbn [orb].
  destruct (membership_complete w diff p v c Hs Hin Hc) as [b Hb]. rewrite Hb. cbn [unwrap_or]. by eapply membership_found.
Qed.

(** *** A path on its own *)

(** The table counts only for the path's own channel. *)
Lemma poll_path_membership w m1 m2 p v :
  (∀ c, extract_channel p = Some c → open_in w m1 c = open_in w m2 c) → poll_path w m1 p v = poll_path w m2 p v.
Proof.
  intros H. unfold poll_path. destruct (is_some _); [done|]. destruct (quick_session_path p) as [[[? ?] ?]|]; [done|].
  destruct (card_path p) as [[[c card_id] file]|] eqn:Ec.
  - rewrite (H c); [done|]. by eapply card_path_channel.
  - destruct (strip_prefix (lit "channels/") p) as [name|] eqn:Ep; [|done]. apply strip_prefix_Some in Ep as ->.
    unfold channel_change. destruct (contains name (lit "/")) eqn:Hn; [done|].
    destruct (strip_suffix (lit ".thread") name) as [c|] eqn:Et.
    + apply strip_suffix_Some in Et as ->. rewrite (H c); [done|]. apply extract_thread.
      apply no_slash_contains in Hn. by apply not_elem_of_app in Hn as [? _].
    + destruct (strip_suffix (lit ".meta.yaml") name) as [c|] eqn:Em; cbn [mbind option_bind]; [|done].
      apply strip_suffix_Some in Em as ->. rewrite (H c); [done|]. apply extract_meta.
      apply no_slash_contains in Hn. by apply not_elem_of_app in Hn as [? _].
Qed.

(** A path below [channels/] is not of a board or a quick session. *)
Lemma poll_path_channels w m name v :
  poll_path w m (lit "channels/" ++ name) v =
  match card_path (lit "channels/" ++ name) with
  | Some (c, card_id, file) =>
      if negb (open_in w m c) then None else card_change w c card_id file (lit "channels/" ++ name) v
  | None => channel_change w m name v
  end.
Proof. unfold poll_path. rewrite strip_prefix_app. reflexivity. Qed.

Lemma card_path_flat name : slash ∉ name → card_path (lit "channels/" ++ name) = None.
Proof.
  intros Hn. unfold card_path. rewrite strip_prefix_app. cbn [mbind option_bind].
  pose proof (proj2 (split_once_char_None slash name) Hn) as E. change [slash] with (lit "/") in E. by rewrite E.
Qed.

Lemma flat_channel_change w m name v :
  slash ∉ name → poll_path w m (lit "channels/" ++ name) v = channel_change w m name v.
Proof. intros Hn. by rewrite poll_path_channels, card_path_flat. Qed.

Lemma channel_thread_change w m c v :
  slash ∉ c → poll_path w m (channel_thread_path c) v =
  if negb (open_in w m c) then None
  else with_entries v (λ es, if context_panics w c then Panics
                             else Says (MkPollChange c PollChannel (enrich_channel_entries w es c))).
Proof.
  intros Hc. assert (slash ∉ c ++ lit ".thread") as Hn by (apply not_elem_of_app; split; [done|apply thread_suffix_no_slash]).
  change (channel_thread_path c) with (lit "channels/" ++ (c ++ lit ".thread")). rewrite flat_channel_change by done.
  unfold channel_change. apply no_slash_contains in Hn. rewrite Hn. by rewrite (proj2 (strip_suffix_Some _ _ c) eq_refl).
Qed.

Lemma channel_meta_change w m c v :
  slash ∉ c → poll_path w m (channel_meta_path c) v = if negb (open_in w m c) then None else Some (Says (MkPollChange c PollChannelMeta [])).
Proof.
  intros Hc. assert (slash ∉ c ++ lit ".meta.yaml") as Hn by (apply not_elem_of_app; split; [done|apply meta_suffix_no_slash]).
  change (channel_meta_path c) with (lit "channels/" ++ (c ++ lit ".meta.yaml")). rewrite flat_channel_change by done.
  unfold channel_change. apply no_slash_contains in Hn. rewrite Hn, meta_not_thread. by rewrite (proj2 (strip_suffix_Some _ _ c) eq_refl).
Qed.

Lemma dm_thread_change w m stem v :
  poll_path w m (dm_thread_path stem) v = dm_change w (stem ++ lit ".thread") (dm_thread_path stem) v.
Proof. reflexivity. Qed.

Lemma archived_dm_thread_change w m stem v :
  poll_path w m (archived_dm_thread_path stem) v = archived_dm_change w (stem ++ lit ".thread").
Proof. reflexivity. Qed.

(** Nothing is said of what is private. *)
Lemma poll_path_private w diff p v :
  skip_filter w = false → private_to w p → (p, v) ∈ diff → poll_path w (channel_membership w diff) p v = None.
Proof.
  intros Hs Hp Hin.
  assert (∀ c, extract_channel p = Some c → shut_out w c → open_in w (channel_membership w diff) c = false) as Hshut.
  { intros c Hc Hc'%is_member_false. by rewrite (open_in_diff w diff p v c Hin Hc), Hs, Hc'. }
  destruct Hp as [c Hc Hsh|c Hc Hsh|c rest Hc Hsh|stem a b Hd Ho|stem a b Hd Ho].
  - rewrite channel_thread_change, Hshut; [done|by apply extract_thread|done|done].
  - rewrite channel_meta_change, Hshut; [done|by apply extract_meta|done|done].
  - rewrite poll_path_channels. destruct (card_path _) as [[[c' i] f]|] eqn:E.
    + rewrite Hshut; [done|by eapply card_path_channel|].
      apply card_path_channel in E. rewrite extract_card in E by done. by injection E as <-.
    + unfold channel_change. assert (contains (c ++ lit "/cards/" ++ rest) (lit "/") = true) as ->; [|done].
      change (lit "/") with [slash]. apply contains_char_true. apply elem_of_app. right. by left.
  - rewrite dm_thread_change. unfold dm_change. rewrite (proj2 (strip_suffix_Some _ _ stem) eq_refl). cbn [mbind option_bind].
    rewrite Hd. cbn [is_some_and]. by rewrite (proj2 (my_pair_false w a b Hs) Ho).
  - rewrite archived_dm_thread_change. unfold archived_dm_change. destruct (contains _ _); [done|].
    rewrite (proj2 (strip_suffix_Some _ _ stem) eq_refl). cbn [mbind option_bind]. rewrite Hd. cbn [mbind option_bind].
    by rewrite (proj2 (my_pair_false w a b Hs) Ho).
Qed.

(** *** Two machines that look alike *)

(** Diffs with the same paths and lines, but for the private ones, and the same boards. *)
Definition diffs_alike (w : PollWorld) (d1 d2 : option (list (str * str) * list str)) : Prop :=
  match d1, d2 with
  | Some (diff1, files1), Some (diff2, files2) =>
      (∀ p v, ¬ private_to w p → (p, v) ∈ diff1 ↔ (p, v) ∈ diff2) ∧ board_changes files1 = board_changes files2
  | None, None => True
  | _, _ => False
  end.

(** They differ at most in what is private to the user, in the tree and in the diffs; who is
    a member of what is the same, and so are the commits. *)
Record polls_alike (w1 w2 : PollWorld) : Prop := MkAlike {
  al_remote : pw_has_remote w1 = pw_has_remote w2;
  al_rev : ∀ r, pw_rev_parse w1 r = pw_rev_parse w2 r;
  al_diff : ∀ since current, diffs_alike w1 (pw_diff w1 since current) (pw_diff w2 since current);
  al_read : pw_read_ok w1 = pw_read_ok w2;
  al_user : pw_user w1 = pw_user w2;
  al_admin : pw_admin w1 = pw_admin w2;
  al_guest : pw_guest w1 = pw_guest w2;
  al_tree : ∀ p, ¬ private_to w1 p ∨ (∃ c, p = channel_meta_path c) → pw_tree w1 !! p = pw_tree w2 !! p;
}.

Lemma alike_read w1 w2 p : polls_alike w1 w2 → ¬ private_to w1 p ∨ (∃ c, p = channel_meta_path c) → poll_read w1 p = poll_read w2 p.
Proof. intros Ha Hp. unfold poll_read. by rewrite (al_read _ _ Ha), (al_tree _ _ Ha). Qed.

Lemma alike_me w1 w2 : polls_alike w1 w2 → is_me w1 = is_me w2.
Proof. intros Ha. unfold is_me. by rewrite (al_user _ _ Ha). Qed.

Lemma alike_skip w1 w2 : polls_alike w1 w2 → skip_filter w1 = skip_filter w2.
Proof. intros Ha. unfold skip_filter. by rewrite (al_admin _ _ Ha), (al_guest _ _ Ha). Qed.

Lemma alike_pair w1 w2 a b : polls_alike w1 w2 → my_pair w1 a b = my_pair w2 a b.
Proof. intros Ha. unfold my_pair. by rewrite (alike_me _ _ Ha), (alike_skip _ _ Ha). Qed.

Lemma alike_member w1 w2 c : polls_alike w1 w2 → is_member w1 c = is_member w2 c.
Proof.
  intros Ha. unfold is_member. rewrite (alike_read w1 w2) by (done || right; by exists c). by rewrite (alike_me _ _ Ha).
Qed.

Lemma alike_shut_out w1 w2 c : polls_alike w1 w2 → shut_out w1 c ↔ shut_out w2 c.
Proof. intros Ha. by rewrite <-!is_member_false, (alike_member w1 w2). Qed.

Lemma private_mono w1 w2 p :
  (∀ c, shut_out w1 c → shut_out w2 c) → (∀ a b, other_pair w1 a b → other_pair w2 a b) → private_to w1 p → private_to w2 p.
Proof.
  intros Hs Ho Hp. destruct Hp; [apply private_thread|apply private_meta|apply private_card|eapply private_dm|eapply private_archived_dm]; eauto.
Qed.

Lemma alike_private w1 w2 p : polls_alike w1 w2 → private_to w1 p ↔ private_to w2 p.
Proof.
  intros Ha. split; apply private_mono; intros *; try (unfold other_pair; by rewrite (al_user _ _ Ha)); by rewrite (alike_shut_out w1 w2).
Qed.

(** *** The same answer *)

Lemma session_change_alike w1 w2 archived id file v : polls_alike w1 w2 → session_change w1 archived id file v = session_change w2 archived id file v.
Proof.
  intros Ha. unfold session_change. rewrite (alike_read w1 w2); [done|done|]. left. intros Hp. destruct archived; inversion Hp; discriminate.
Qed.

Lemma cron_change_alike w1 w2 rest v : polls_alike w1 w2 → cron_thread_change w1 rest v = cron_thread_change w2 rest v.
Proof.
  intros Ha. unfold cron_thread_change. destruct (split_once _ rest) as [[name ?]|]; cbn [mbind option_bind]; [|done].
  rewrite (alike_read w1 w2); [by rewrite (alike_me _ _ Ha)|done|]. left. intros Hp. inversion Hp; discriminate.
Qed.

Lemma private_extract w p c : private_to w p → extract_channel p = Some c → shut_out w c.
Proof.
  intros [c' Hc Hsh|c' Hc Hsh|c' rest Hc Hsh|stem a b Hd Ho|stem a b Hd Ho].
  - rewrite extract_thread by done. by intros [= <-].
  - rewrite extract_meta by done. by intros [= <-].
  - rewrite extract_card by done. by intros [= <-].
  - discriminate.
  - discriminate.
Qed.

Lemma open_not_private w p c : extract_channel p = Some c → is_member w c = true → ¬ private_to w p.
Proof. intros Hc Hm Hp. apply (private_extract w p c Hp), is_member_false in Hc. congruence. Qed.

Lemma card_change_alike w1 w2 c card_id file p v :
  polls_alike w1 w2 → slash ∉ c → is_member w1 c = true → extract_channel p = Some c →
  card_change w1 c card_id file p v = card_change w2 c card_id file p v.
Proof.
  intros Ha Hc Hm Hp. unfold card_change, card_meta_entries_for_poll, enrich_card_thread_entries_with_recipients.
  rewrite (alike_read w1 w2 p) by (done || left; by eapply open_not_private).
  rewrite (alike_read w1 w2 (card_meta_of (card_rel c card_id))); [done|done|]. left. eapply open_not_private; [|exact Hm].
  unfold card_meta_of, card_rel. rewrite <-!app_assoc. by apply extract_card.
Qed.

Lemma channel_entries_alike w1 w2 es c :
  polls_alike w1 w2 → slash ∉ c → is_member w1 c = true → enrich_channel_entries w1 es c = enrich_channel_entries w2 es c.
Proof.
  intros Ha Hc Hm. unfold enrich_channel_entries, channel_recipients, channel_context.
  rewrite (alike_read w1 w2 (channel_meta_path c)) by (done || right; by exists c).
  rewrite (alike_read w1 w2 (channel_thread_path c)); [done|done|]. left. eapply open_not_private; [by apply extract_thread|done].
Qed.

Lemma context_panics_alike w1 w2 c :
  polls_alike w1 w2 → slash ∉ c → is_member w1 c = true → context_panics w1 c = context_panics w2 c.
Proof.
  intros Ha Hc Hm. unfold context_panics. rewrite (alike_read w1 w2 (channel_thread_path c)); [done|done|].
  left. eapply open_not_private; [by apply extract_thread|done].
Qed.

Lemma with_entries_ext v k1 k2 : (∀ es, k1 es = k2 es) → with_entries v k1 = with_entries v k2.
Proof. intros H. unfold with_entries. destruct (parse_thread v); [|done..]. destruct (is_empty _); [done|]. by rewrite H. Qed.

Lemma poll_path_alike w1 w2 diff1 diff2 p v :
  polls_alike w1 w2 → skip_filter w1 = false → ¬ private_to w1 p → (p, v) ∈ diff1 → (p, v) ∈ diff2 →
  poll_path w1 (channel_membership w1 diff1) p v = poll_path w2 (channel_membership w2 diff2) p v.
Proof.
  intros Ha Hs Hp H1 H2.
  assert (∀ c, extract_channel p = Some c → open_in w1 (channel_membership w1 diff1) c = open_in w2 (channel_membership w2 diff2) c) as Hopen.
  { intros c Hc. rewrite (open_in_diff w1 diff1 p v c H1 Hc), (open_in_diff w2 diff2 p v c H2 Hc).
    by rewrite (alike_skip _ _ Ha), (alike_member w1 w2). }
  assert (∀ c, extract_channel p = Some c → open_in w1 (channel_membership w1 diff1) c = true → is_member w1 c = true) as Hmem.
  { intros c Hc. by rewrite (open_in_diff w1 diff1 p v c H1 Hc), Hs. }
  unfold poll_path. destruct (is_some _); [done|].
  destruct (quick_session_path p) as [[[? ?] ?]|]; [by apply session_change_alike|].
  destruct (card_path p) as [[[c card_id] file]|] eqn:Ec.
  { pose proof (card_path_channel _ _ _ _ Ec) as Hc. rewrite <-(Hopen c Hc). destruct (open_in w1 _ c) eqn:Eo; cbn [negb]; [|done].
    apply card_path_Some in Ec as [Hsl _]. apply card_change_alike; auto. }
  destruct (strip_prefix (lit "channels/") p) as [name|] eqn:Ep.
  { apply strip_prefix_Some in Ep as ->. destruct (contains name (lit "/")) eqn:Hn; [unfold channel_change; by rewrite Hn|].
    unfold channel_change. rewrite Hn. apply no_slash_contains in Hn.
    destruct (strip_suffix (lit ".thread") name) as [c|] eqn:Et.
    - apply strip_suffix_Some in Et as ->. apply not_elem_of_app in Hn as [Hn _]. pose proof (extract_thread c Hn) as Hc.
      rewrite <-(Hopen c Hc). destruct (open_in w1 _ c) eqn:Eo; cbn [negb]; [|done].
      apply with_entries_ext. intros es. by rewrite (context_panics_alike w1 w2), (channel_entries_alike w1 w2) by auto.
    - destruct (strip_suffix (lit ".meta.yaml") name) as [c|] eqn:Em; cbn [mbind option_bind]; [|done].
      apply strip_suffix_Some in Em as ->. apply not_elem_of_app in Hn as [Hn _]. by rewrite <-(Hopen c (extract_meta c Hn)). }
  destruct (strip_prefix (lit "dm/") p) as [name|].
  { unfold dm_change. destruct (is_some_and _ _) eqn:E1, (is_some_and (_ ≫= parse_dm_filename) (λ '(a, b), negb (my_pair w2 a b))) eqn:E2; try done.
    all: destruct (strip_suffix (lit ".thread") name ≫= parse_dm_filename) as [[a b]|]; cbn in E1, E2; try done.
    all: rewrite (alike_pair w1 w2) in E1 by done; congruence. }
  destruct (strip_prefix (lit "archive/channels/") p); [done|].
  destruct (strip_prefix (lit "archive/dm/") p) as [name|].
  { unfold archived_dm_change. destruct (contains name _); [done|]. destruct (strip_suffix _ name) as [stem|]; cbn [mbind option_bind]; [|done].
    destruct (parse_dm_filename stem) as [[a b]|]; cbn [mbind option_bind]; [|done]. by rewrite (alike_pair w1 w2). }
  destruct (_ && _ && _); [|done]. destruct (strip_prefix (lit "crons/") p); cbn [mbind option_bind]; [|done]. by apply cron_change_alike.
Qed.

(** What is said of the paths of a diff. *)
Definition said_of (w : PollWorld) (diff : list (str * str)) : list Said :=
  omap (λ entry : str * str, poll_path w (channel_membership w diff) entry.1 entry.2) diff.

Lemma said_alike w1 w2 diff1 diff2 :
  polls_alike w1 w2 → skip_filter w1 = false → (∀ p v, ¬ private_to w1 p → (p, v) ∈ diff1 ↔ (p, v) ∈ diff2) →
  ∀ s, s ∈ said_of w1 diff1 ↔ s ∈ said_of w2 diff2.
Proof.
  intros Halike Hordinary Hdiff s. unfold said_of. rewrite !list_elem_of_omap.
  assert (skip_filter w2 = false) as Hordinary2 by by rewrite <-(alike_skip _ _ Halike).
  split; intros ([p v] & Hin & Hc); cbn [fst snd] in Hc.
  - assert (¬ private_to w1 p) as Hp by (intros Hp; rewrite poll_path_private in Hc; done).
    assert ((p, v) ∈ diff2) as Hin2 by by apply Hdiff. exists (p, v). split; [done|]. cbn [fst snd].
    by rewrite <-(poll_path_alike w1 w2 diff1 diff2).
  - assert (¬ private_to w1 p) as Hp by (rewrite (alike_private w1 w2) by done; intros Hp; rewrite poll_path_private in Hc; done).
    assert ((p, v) ∈ diff1) as Hin1 by by apply Hdiff. exists (p, v). split; [done|]. cbn [fst snd].
    by rewrite (poll_path_alike w1 w2 diff1 diff2).
Qed.

Lemma existsb_same {A} (f : A → bool) (l1 l2 : list A) : (∀ x, x ∈ l1 ↔ x ∈ l2) → existsb f l1 = existsb f l2.
Proof.
  intros H. apply eq_iff_eq_true. rewrite !existsb_exists. setoid_rewrite <-list_elem_of_In. by setoid_rewrite H.
Qed.

Lemma alike_departed w1 w2 me :
  polls_alike w1 w2 → path_exists (pw_tree w1) (archived_user_meta_path me) = path_exists (pw_tree w2) (archived_user_meta_path me).
Proof.
  intros Ha. apply path_exists_agree. intros k [rest Hk]%below_true. apply strip_dir_Some in Hk as [-> _].
  apply (al_tree _ _ Ha). left. intros Hp. inversion Hp; discriminate.
Qed.

(** The same error, a panic in both, or the same commit and the same changes. *)
Definition same_answer (r1 r2 : res PollResponse PollError) : Prop :=
  match r1, r2 with
  | Ok a, Ok b => pr_commit_id a = pr_commit_id b ∧ ∀ change, change ∈ pr_changes a ↔ change ∈ pr_changes b
  | Err e1, Err e2 => e1 = e2
  | Panicked, Panicked => True
  | _, _ => False
  end.

Lemma poll_range_alike w1 w2 since current :
  polls_alike w1 w2 → skip_filter w1 = false → same_answer (poll_range w1 since current) (poll_range w2 since current).
Proof.
  intros Ha Hs. unfold poll_range. destruct (is_commit_hash since); cbn [negb]; [|done]. case_bool_decide; [done|].
  pose proof (al_diff _ _ Ha since current) as Hd. unfold diffs_alike in Hd.
  destruct (pw_diff w1 since current) as [[diff1 files1]|], (pw_diff w2 since current) as [[diff2 files2]|]; try done.
  destruct Hd as [Hd Hf]. pose proof (said_alike w1 w2 diff1 diff2 Ha Hs Hd) as Hsaid. cbn [ok_or res_bind]. unfold poll_changes.
  fold (said_of w1 diff1) (said_of w2 diff2). rewrite (existsb_same _ _ _ Hsaid). destruct (existsb _ _); [done|].
  cbn. split; [done|]. intros change. rewrite Hf, !elem_of_app, !list_elem_of_omap. by setoid_rewrite Hsaid.
Qed.

(** C10: A poll tells nothing of what is private.  If two machines look alike to an ordinary
    user, that is, they differ only in the threads and cards of channels whose metadata
    shuts him out and in direct messages between others, in what is there and in what has
    changed, then the answers to his poll are the same. *)
Theorem poll_noninterference (w1 w2 : PollWorld) (since : option str)
    (Halike : polls_alike w1 w2) (Hordinary : skip_filter w1 = false) :
  same_answer (handle_poll w1 since) (handle_poll w2 since).
Proof.
  unfold handle_poll. rewrite (al_user _ _ Halike), (al_remote _ _ Halike), !(al_rev _ _ Halike).
  assert (is_some_and (pw_user w2) (λ me, path_exists (pw_tree w1) (archived_user_meta_path me))
          = is_some_and (pw_user w2) (λ me, path_exists (pw_tree w2) (archived_user_meta_path me))) as ->.
  { destruct (pw_user w2) as [me|]; [|done]. cbn [is_some_and]. by apply alike_departed. }
  destruct (is_some_and _ _); cbn [guard_err res_bind]; [done|].
  match goal with |- context [ok_or (pw_rev_parse w2 ?r) _] => generalize r; intros ref end.
  destruct (pw_rev_parse w2 ref) as [current|]; cbn [ok_or res_bind]; [|done].
  destruct (since ≫= (λ s, if is_empty s then None else Some s)) as [s|]; [by apply poll_range_alike|].
  destruct (pw_rev_parse w2 (ref ++ lit "~1")); [by apply poll_range_alike|done].
Qed.

(** ** What is delivered *)

Lemma parsed_added es text k :
  Forall printable es → es ≠ [] → text ++ [nl] = concat (map render_entry es) → with_entries text k = Some (k es).
Proof. intros Hp Hne Ht. unfold with_entries. rewrite (added_entries_parse es text Hp Ht). cbn [entries]. by destruct es. Qed.

(** What is said of a path is among the changes, unless the parser stopped. *)
Lemma poll_changes_elem w diff files p v s cs :
  poll_changes w diff files = Ok cs → (p, v) ∈ diff → poll_path w (channel_membership w diff) p v = Some s →
  ∃ change, s = Says change ∧ change ∈ cs.
Proof.
  intros H Hin Hc. unfold poll_changes in H. fold (said_of w diff) in H. destruct (existsb _ _) eqn:E; [done|]. injection H as <-.
  assert (s ∈ said_of w diff) as Hs by (apply list_elem_of_omap; by exists (p, v)).
  destruct s as [change|].
  - exists change. split; [done|]. apply elem_of_app. right. apply list_elem_of_omap. by exists (Says change).
  - exfalso. apply not_true_iff_false in E. apply E, existsb_exists. exists Panics. split; [by apply list_elem_of_In|done].
Qed.

Lemma handle_poll_Ok w since resp :
  handle_poll w (Some since) = Ok resp → since ≠ [] → since ≠ pr_commit_id resp →
  ∃ diff files, pw_diff w since (pr_commit_id resp) = Some (diff, files) ∧ poll_changes w diff files = Ok (pr_changes resp).
Proof.
  unfold handle_poll. intros H Hne Hs. apply res_bind_Ok in H as ([] & _ & H). cbv zeta in H. apply res_bind_Ok in H as (current & _ & H).
  cbn [mbind option_bind] in H. destruct (is_empty since) eqn:E; [by destruct since|]. unfold poll_range in H.
  destruct (is_commit_hash since); cbn [negb] in H; [|done]. case_bool_decide as Heq.
  { injection H as <-. by subst since. }
  apply res_bind_Ok in H as ([diff files] & Hd & H). apply res_bind_Ok in H as (cs & Hcs & [= <-]). cbn in *. exists diff, files.
  split; [|done]. by destruct (pw_diff w since current); simplify_eq/=.
Qed.

Lemma channel_recipients_reach w c meta messages msg u :
  channel_context w c = Some (meta, messages) →
  (u = cm_created_by meta ∧ u ≠ []) ∨ (∃ a, ancestor messages (m_point_to msg) a ∧ participant a u)
    ∨ u ∈ map handler_str (m_mentions msg) →
  ∃ r, channel_recipients w c msg = Some r ∧ u ∈ r.
Proof.
  intros Hctx Hu. unfold channel_recipients. rewrite Hctx. cbn [mbind option_bind].
  destruct (compute_recipients_spec msg meta messages) as (r & -> & _ & Hr). cbn [mbind option_bind].
  apply Hr in Hu. exists r. split; [|done]. destruct r; [by apply elem_of_nil in Hu|done].
Qed.

Lemma dm_filename_pair ha hb :
  protocol_handler ha → protocol_handler hb →
  ∃ x y, dm_filename ha hb = x ++ lit "--" ++ y ∧ slug x ∧ slug y ∧ [x; y] ≡ₚ [handler_str ha; handler_str hb].
Proof.
  intros Ha Hb. unfold dm_filename. destruct (str_leb _ _); eexists _, _; (split; [reflexivity|split_and!; [done|done|]]); [done|constructor].
Qed.

Lemma replace_once x y : slug x → slug y → replace (lit "--") (lit ",") (x ++ lit "--" ++ y) = x ++ lit "," ++ y.
Proof.
  intros Hx Hy. unfold replace. destruct (length (x ++ lit "--" ++ y)) as [|n] eqn:Hn.
  { rewrite !length_app in Hn. cbn in Hn. lia. }
  cbn [replace_fuel]. rewrite (split_once_dashes x y Hx). do 2 f_equal. destruct n as [|n]; [done|]. cbn [replace_fuel].
  destruct (split_once (lit "--") y) as [[a b]|] eqn:E; [|done]. apply split_once_Some in E. exfalso. apply (slug_no_double _ Hy). by exists a, b.
Qed.

(** What the diff has of a channel, or of a direct message, is in the changes. *)
Lemma channel_delivered w diff files cs c text es :
  poll_changes w diff files = Ok cs →
  slash ∉ c → ¬ shut_out w c → Forall printable es → es ≠ [] → text ++ [nl] = concat (map render_entry es) →
  (channel_thread_path c, text) ∈ diff →
  MkPollChange c PollChannel (with_recipients (channel_recipients w c) es) ∈ cs.
Proof.
  intros Hcs Hc Hopen Hp Hne Ht Hin. edestruct (poll_changes_elem w diff files) as (change & Hsaid & Hch); [exact Hcs|exact Hin| |].
  - rewrite channel_thread_change by done. rewrite (open_in_diff w diff _ _ c Hin (extract_thread c Hc)).
    assert (is_member w c = true) as -> by (apply not_false_iff_true; by rewrite is_member_false).
    rewrite orb_true_r. cbn [negb]. by rewrite (parsed_added es text _ Hp Hne Ht).
  - cbn in Hsaid. destruct (context_panics w c); [done|]. by injection Hsaid as <-.
Qed.

Lemma dm_delivered w diff files cs ha hb text es :
  poll_changes w diff files = Ok cs →
  protocol_handler ha → protocol_handler hb → pw_user w = Some (handler_str ha) ∨ pw_user w = Some (handler_str hb) →
  Forall printable es → es ≠ [] → text ++ [nl] = concat (map render_entry es) → (dm_thread_path (dm_filename ha hb), text) ∈ diff →
  ∃ x y r, [x; y] ≡ₚ [handler_str ha; handler_str hb] ∧ r ≡ₚ [x; y]
    ∧ MkPollChange (lit "dm:" ++ x ++ lit "," ++ y) PollDm (with_recipients (λ _, Some r) es) ∈ cs.
Proof.
  intros Hcs Ha Hb Hme Hp Hne Ht Hin. destruct (dm_filename_pair ha hb Ha Hb) as (x & y & Hf & Hx & Hy & Hxy).
  exists x, y, (sort_strings [x; y]). split_and!; [done|apply sort_by_key_perm|].
  enough (poll_path w (channel_membership w diff) (dm_thread_path (dm_filename ha hb)) text
          = Some (Says (MkPollChange (lit "dm:" ++ x ++ lit "," ++ y) PollDm (with_recipients (λ _, Some (sort_strings [x; y])) es)))) as Hsay
    by by destruct (poll_changes_elem _ _ _ _ _ _ _ Hcs Hin Hsay) as (change & [= <-] & Hch).
  assert (is_me w x || is_me w y = true) as Hmine.
  { apply orb_true_iff. rewrite !is_me_true.
    assert (∀ h, h ∈ [handler_str ha; handler_str hb] → h = x ∨ h = y) as Hcase.
    { intros h. rewrite <-Hxy, elem_of_cons, list_elem_of_singleton. done. }
    assert (∀ h, pw_user w = Some h → h ∈ [handler_str ha; handler_str hb] → pw_user w = Some x ∨ pw_user w = Some y) as Hgo.
    { intros h -> Hh%Hcase. destruct Hh as [-> | ->]; auto. }
    destruct Hme as [Hme|Hme]; apply (Hgo _ Hme); [by left|right; by left]. }
  rewrite dm_thread_change. unfold dm_change, enrich_dm_entries, dm_members. rewrite Hf.
  change (dm_thread_path (x ++ lit "--" ++ y)) with (lit "dm/" ++ ((x ++ lit "--" ++ y) ++ lit ".thread")).
  rewrite strip_prefix_app. cbn [mbind option_bind]. rewrite !(proj2 (strip_suffix_Some _ _ (x ++ lit "--" ++ y)) eq_refl). cbn [mbind option_bind unwrap_or].
  rewrite parse_dm_filename_app by done. cbn [is_some_and mbind option_bind]. unfold my_pair. rewrite <-orb_assoc, Hmine, orb_true_r. cbn [negb].
  rewrite (parsed_added es text _ Hp Hne Ht). cbn [mbind option_bind]. by rewrite replace_once.
Qed.


End poll.

(** ** Runs *)

Section runs.
#[local] Existing Instance ascii_unicode.
#[local] Existing Instance std_percent_encoding.
#[local] Existing Instance keyword_json.
#[local] Existing Instance channel_meta_yaml.
#[local] Existing Instance card_meta_yaml.

(** There are no quick sessions and no cron triggers in the runs. *)
Definition no_sessions_yaml : Yaml QuickSessionMeta.
Proof. by refine {| yaml_to_string := λ _, None; yaml_from_str := λ _, None |}. Defined.
#[local] Existing Instance no_sessions_yaml.
Definition no_cron_specs : YamlField := {| yaml_str_field := λ _ _, None |}.
#[local] Existing Instance no_cron_specs.

Definition old_commit : str := lit "0000000000000000000000000000000000000000".
Definition new_commit : str := lit "1111111111111111111111111111111111111111".

Definition ops_text : str :=
  unwrap_or (yaml_to_string (MkChannelMeta (lit "ops") (lit "alice") (lit "20260101T000000Z") [] [lit "alice"; lit "bob"] None)) [].

Definition greeting : ThreadEntry :=
  EntryMessage (MkMessage 1 0 (MkHandler (lit "alice")) (lit "20260101T000000Z") (lit "hi <@bob>") [MkHandler (lit "bob")] []).
Definition greeting_text : str := lit "[L000001][P000000][@alice][20260101T000000Z] hi <@bob>".

Definition ops_world (me thread : str) (ds : list FileDiff) : PollWorld :=
  MkPollWorld (<[channel_thread_path (lit "ops") := thread]> {[channel_meta_path (lit "ops") := ops_text]}) (λ _, true) (Some me) false false
    false (λ r, if r =?? lit "HEAD" then Some new_commit else None)
    (λ _ _, Some (diff_text ds)) (λ _ _, Some (channel_thread_path (lit "ops") ++ [nl])) map_to_list.

(** The diff after lines were added to the channel. *)
Definition ops_diff (added : list str) : list FileDiff :=
  let path := channel_thread_path (lit "ops") in
  [MkFileDiff [lit "diff --git a/channels/ops.thread b/channels/ops.thread"; lit "index 1111111..2222222 100644"]
     (Some (MkPatch (Some path) (Some path) [MkHunk (lit "-0,0 +1") (map Added added)]))].

Lemma ops_shut_out thread ds : shut_out (ops_world (lit "dave") thread ds) (lit "ops").
Proof.
  exists ops_text, (MkChannelMeta (lit "ops") (lit "alice") (lit "20260101T000000Z") [] [lit "alice"; lit "bob"] None).
  split_and!; [|by vm_compute|done|].
  - unfold poll_read. cbn [ops_world pw_read_ok pw_tree]. rewrite lookup_insert_ne by done. by rewrite lookup_singleton_eq.
  - intros me [= <-]. apply (bool_decide_unpack _); by vm_compute.
Qed.

(** What dave is told does not depend on what is said in the channel he is not in. *)
Lemma ops_worlds_alike text1 text2 ds1 ds2 added1 added2 :
  parse_diff_output (diff_text ds1) = {[channel_thread_path (lit "ops") := added1]} →
  parse_diff_output (diff_text ds2) = {[channel_thread_path (lit "ops") := added2]} →
  polls_alike (ops_world (lit "dave") text1 ds1) (ops_world (lit "dave") text2 ds2).
Proof.
  intros H1 H2. set (w1 := ops_world (lit "dave") text1 _).
  assert (private_to w1 (channel_thread_path (lit "ops"))) as Hpriv.
  { apply private_thread; [apply (bool_decide_unpack _); by vm_compute|apply ops_shut_out]. }
  split; [done|done| |done|done|done|done|].
  - intros since current. unfold diffs_alike, pw_diff, diff_range. cbn [ops_world pw_diff_out mbind option_bind w1].
    rewrite H1, H2. cbn [w1 ops_world pw_walk changed_files_range pw_names_out mbind option_bind].
    change (pw_walk w1) with (map_to_list (K := str) (A := str) (M := gmap str str)). rewrite !map_to_list_singleton.
    split; [|done]. intros p v Hp. rewrite !list_elem_of_singleton.
    split; intros [= -> ->]; by destruct Hp.
  - intros p Hp. destruct (decide (p = channel_thread_path (lit "ops"))) as [->|Hne].
    + destruct Hp as [Hp|[c Hc]]; [done|]. by apply thread_meta_disjoint in Hc.
    + unfold w1, ops_world. cbn [pw_tree]. by rewrite !lookup_insert_ne by congruence.
Qed.

Lemma poll_noninterference_witness :
  same_answer (handle_poll (ops_world (lit "dave") greeting_text (ops_diff [greeting_text])) (Some old_commit))
              (handle_poll (ops_world (lit "dave") [] (ops_diff [lit "gone"])) (Some old_commit)).
Proof.
  refine (poll_noninterference _ _ (Some old_commit) (ops_worlds_alike _ _ _ _ greeting_text (lit "gone") _ _) eq_refl);
    apply (bool_decide_unpack _); by vm_compute.
Defined.

Definition bob_world : PollWorld := ops_world (lit "bob") (greeting_text ++ [nl]) (ops_diff [greeting_text]).

Definition bob_told : PollResponse :=
  MkPollResponse new_commit
    [MkPollChange (lit "ops") PollChannel [PollThreadEntry greeting (Some [lit "alice"; lit "bob"])]].

Lemma bob_polls : handle_poll bob_world (Some old_commit) = Ok bob_told.
Proof. by vm_compute. Qed.

Lemma greeting_printable : printable greeting.
Proof.
  unfold printable. split_and!; [done|done|by right|by vm_compute|]. split_and!; [|by vm_compute|by vm_compute]. split_and!; [|by vm_compute|].
  - simpl. intros H. repeat (apply elem_of_cons in H as [H|H]; [done|]). by apply not_elem_of_nil in H.
  - do 2 eexists. split; [by vm_compute|]. split; [done|]. repeat constructor.
Qed.

Lemma ops_diff_ok : diff_ok (ops_diff [greeting_text]).
Proof.
  split.
  - repeat constructor; by apply (bool_decide_unpack _).
  - by repeat constructor.
  - constructor; [|constructor]. intros p [= <-]. split; [done|]. by repeat constructor.
Qed.

Lemma greeting_appended : appended (ops_diff [greeting_text]) (channel_thread_path (lit "ops")) [greeting].
Proof. split; [by constructor; [apply greeting_printable|]|done|by vm_compute|by repeat constructor]. Qed.


(** A message of three lines, the second of which is a piece of a patch: whoever polls gets
    it without that line. *)
Example plus_line_lost_in_poll :
  let message text := EntryMessage (MkMessage 2 0 (MkHandler (lit "alice")) (lit "20260101T000100Z") text [] []) in
  let world := ops_world (lit "bob")
    (render_entry (message (lit "the patch:" ++ [nl] ++ lit "++counter;" ++ [nl] ++ lit "done"))) plus_diff in
  match handle_poll world (Some old_commit) with
  | Ok resp => pr_changes resp = [MkPollChange (lit "ops") PollChannel
                 [PollThreadEntry (message (lit "the patch:" ++ [nl] ++ lit "done")) (Some [lit "alice"])]]
  | _ => False
  end.
Proof. by vm_compute. Qed.

(** A line number of more than 64 bits stops the poll of everybody who may see it. *)
Example oversized_line_stops_poll :
  handle_poll (ops_world (lit "bob") [] (ops_diff [lit "[L99999999999999999999][P000000][@alice][20260101T000000Z] hello"]))
    (Some old_commit) = Panicked.
Proof. by vm_compute. Qed.

End runs.
