(* ===== verification/Flow.v ===== *)
(** * Flow templates

    The nodes of a flow document, its validator with the cycle check, the storage
    warnings, and the Markdown form ([gitim-core/src/flow/{types,validator,parser}.rs]).
    The validator is the contract of the run handlers: a flow it accepts can be
    executed in an order that respects [needs]. *)

From S2P Require Import Prelude RustStr StrFacts Names.
From stdpp Require Import options.
Open Scope N_scope.
Open Scope list_scope.

(** ** Data *)

Definition flow_path (slug : FlowSlug) : str := lit "flows/" ++ flow_slug_str slug ++ lit "/index.md".

Inductive NodeType := AgentMention | ChannelThread | HumanReview | WaitForSignal.

#[export] Instance NodeType_eq_dec : EqDecision NodeType.
Proof. solve_decision. Defined.

Record FlowNode := MkFlowNode {
  fn_id : str;
  fn_node_type : NodeType;
  fn_owner : option str;
  fn_participants : list str;
  fn_signal : option str;
  fn_needs : list str;
  fn_exits : list str;
  fn_required_labels : list str;
  fn_prompt : str;
}.

Record FlowMeta := MkFlowMeta {
  fm_schema_version : N;
  fm_slug : str;
  fm_name : str;
  fm_description : str;
  fm_created_by : str;
  fm_created_at : str;
  fm_updated_at : option str;
  fm_nodes : list FlowNode;
}.

Record FlowDocument := MkFlowDocument { fd_meta : FlowMeta }.

Inductive FlowError :=
  | FlowInvalidSlug (e : FlowSlugError)
  | FlowMissingFrontmatter
  | FlowYamlParse
  | FlowSchemaVersion (v : N)
  | FlowSlugMismatch (frontmatter path : str)
  | FlowInvalidNodeId (id : str) (reason : NodeIdError)
  | FlowDuplicateNodeId (id : str)
  | FlowUnknownNeed (node missing : str)
  | FlowCycle
  | FlowMissingRequiredField (node : str) (t : NodeType) (field : str)
  | FlowInvalidNodeField (node field : str) (inner : LabelError).

Inductive FlowWarning :=
  | BodySectionMissing (id : str)
  | OrphanBodySection (id : str)
  | OversizedFile (actual limit : N)
  | TooManyNodes (count limit : N)
  | Phase2NodeType (node_id : str) (t : NodeType).

Definition MAX_FILE_SIZE : N := 256 * 1024.
Definition MAX_NODE_COUNT : N := 50.

(** ** [has_cycle] *)

Inductive Mark := White | Gray | Black.

#[export] Instance Mark_eq_dec : EqDecision Mark.
Proof. solve_decision. Defined.

(** [iter().map(|n| (key, value)).collect()] into a map: a later entry wins. *)
Definition collect_map {A} (l : list (str * A)) : gmap str A :=
  fold_left (λ m p, <[p.1 := p.2]> m) l ∅.

Definition needs_map (nodes : list FlowNode) : gmap str (list str) :=
  collect_map (map (λ n, (fn_id n, fn_needs n)) nodes).

(** The loop that stops at the first cycle. *)
Fixpoint dfs_each (visit : str → gmap str Mark → option (bool * gmap str Mark)) (ids : list str)
  (marks : gmap str Mark) : option (bool * gmap str Mark) :=
  match ids with
  | [] => Some (false, marks)
  | n :: ids' => match visit n marks with
                 | Some (false, marks') => dfs_each visit ids' marks'
                 | r => r
                 end
  end.

(** [fuel] bounds the depth of the recursion; [None] means it ran out. *)
Fixpoint dfs (fuel : nat) (adj : gmap str (list str)) (id : str) (marks : gmap str Mark)
  : option (bool * gmap str Mark) :=
  match fuel with
  | O => None
  | S fuel' =>
      match unwrap_or (marks !! id) Black with
      | Gray => Some (true, marks)
      | Black => Some (false, marks)
      | White =>
          let marks := <[id := Gray]> marks in
          match match adj !! id with
                | Some needs => dfs_each (dfs fuel' adj) needs marks
                | None => Some (false, marks)
                end with
          | Some (false, marks') => Some (false, <[id := Black]> marks')
          | r => r
          end
      end
  end.

Definition has_cycle (nodes : list FlowNode) : option bool :=
  let adj := needs_map nodes in
  let marks := collect_map (map (λ n, (fn_id n, White)) nodes) in
  fst <$> dfs_each (dfs (S (length nodes)) adj) (map fn_id nodes) marks.

(** ** Validation *)

Definition check_node_ids (nodes : list FlowNode) : res unit FlowError :=
  for_each nodes (λ n, map_err (FlowInvalidNodeId (fn_id n)) (validate_node_id (fn_id n))).

(** The duplicate check; the set of ids it collects is used below. *)
Definition collect_node_ids (nodes : list FlowNode) : res (gset str) FlowError :=
  for_fold nodes ∅ (λ seen n,
    if bool_decide (fn_id n ∈ seen) then Err (FlowDuplicateNodeId (fn_id n)) else Ok ({[fn_id n]} ∪ seen)).

Definition check_needs (seen : gset str) (nodes : list FlowNode) : res unit FlowError :=
  for_each nodes (λ n, for_each (fn_needs n) (λ need,
    guard_err (negb (bool_decide (need ∈ seen))) (FlowUnknownNeed (fn_id n) need))).

Definition check_node_fields (n : FlowNode) : res unit FlowError :=
  let missing field := FlowMissingRequiredField (fn_id n) (fn_node_type n) field in
  try? match fn_node_type n with
       | AgentMention => guard_err (is_none (fn_owner n)) (missing (lit "owner"))
       | ChannelThread => guard_err (is_empty (fn_participants n)) (missing (lit "participants"))
       | HumanReview => Ok tt
       | WaitForSignal => guard_err (is_none (fn_signal n)) (missing (lit "signal"))
       end then
  map_err (FlowInvalidNodeField (fn_id n) (lit "required_labels"))
    (validate_labels (fn_required_labels n) FLOW_NODE_MAX_LABELS).

(** The last branch is never taken: the depth is bounded by the number of nodes. *)
Definition validate_flow_document (doc : FlowDocument) (slug_in_path : str) : res unit FlowError :=
  let nodes := fm_nodes (fd_meta doc) in
  let slug := fm_slug (fd_meta doc) in
  try? map_err FlowInvalidSlug (FlowSlug_new slug) then
  try? map_err FlowInvalidSlug (FlowSlug_new slug_in_path) then
  try? guard_err (negb (slug =?? slug_in_path)) (FlowSlugMismatch slug slug_in_path) then
  try? check_node_ids nodes then
  let? seen := collect_node_ids nodes in
  try? check_needs seen nodes then
  try? for_each nodes check_node_fields then
  match has_cycle nodes with
  | Some cyclic => guard_err cyclic FlowCycle
  | None => Panicked
  end.

Definition validate_flow_for_storage (doc : FlowDocument) (file_size : N) : list FlowWarning :=
  let nodes := fm_nodes (fd_meta doc) in
  let count := N.of_nat (length nodes) in
  (if MAX_FILE_SIZE <? file_size then [OversizedFile file_size MAX_FILE_SIZE] else [])
  ++ (if MAX_NODE_COUNT <? count then [TooManyNodes count MAX_NODE_COUNT] else [])
  ++ flat_map (λ n, match fn_node_type n with
                    | HumanReview | WaitForSignal => [Phase2NodeType (fn_id n) (fn_node_type n)]
                    | _ => []
                    end) nodes.

(** ** The cycle check is exact *)

Section dfs.
Context (adj : gmap str (list str)).

(** [x] needs [y]. *)
Definition edge (x y : str) : Prop := ∃ needs, adj !! x = Some needs ∧ y ∈ needs.

Definition whites (marks : gmap str Mark) : gset str := dom (filter (λ p, p.2 = White) marks).

Lemma elem_of_whites marks x : x ∈ whites marks ↔ marks !! x = Some White.
Proof.
  unfold whites. rewrite elem_of_dom. unfold is_Some. setoid_rewrite map_lookup_filter_Some. naive_solver.
Qed.

(** Marks cover the nodes; everything that can be reached from a finished node is
    finite. *)
Record marks_ok (marks : gmap str Mark) : Prop := {
  mk_dom : ∀ x, is_Some (marks !! x) ↔ is_Some (adj !! x);
  mk_black : ∀ x, marks !! x = Some Black → Acc (flip edge) x;
}.

(** What a visit that finds no cycle leaves. *)
Record visited (marks marks' : gmap str Mark) : Prop := {
  vi_ok : marks_ok marks';
  vi_gray : ∀ x, marks' !! x = Some Gray ↔ marks !! x = Some Gray;
  vi_white : whites marks' ⊆ whites marks;
}.

Definition on_stack_reaches (marks : gmap str Mark) (id : str) : Prop :=
  ∀ g, marks !! g = Some Gray → tc edge g id.

(** The contract of one visit: it returns, and either a cycle exists or [id] and
    everything it reaches is finished. *)
Definition visit_ok (marks : gmap str Mark) (id : str) (r : option (bool * gmap str Mark)) : Prop :=
  ∃ b marks', r = Some (b, marks')
    ∧ if b then ∃ c, tc edge c c else visited marks marks' ∧ Acc (flip edge) id.

Lemma visited_refl marks : marks_ok marks → visited marks marks.
Proof. intros H. by constructor. Qed.

Lemma visited_trans m1 m2 m3 : visited m1 m2 → visited m2 m3 → visited m1 m3.
Proof.
  intros [H1 G1 W1] [H2 G2 W2]. constructor; [done| |set_solver]. intros x. by rewrite G2.
Qed.

Lemma dfs_each_ok visit ids marks :
  (∀ m id, id ∈ ids → visited marks m → visit_ok m id (visit id m)) → marks_ok marks →
  ∃ b marks', dfs_each visit ids marks = Some (b, marks')
    ∧ if b then ∃ c, tc edge c c else visited marks marks' ∧ ∀ id, id ∈ ids → Acc (flip edge) id.
Proof.
  revert marks. induction ids as [|n ids IH]; intros marks Hv Hok; simpl.
  - exists false, marks. split; [done|]. split; [by apply visited_refl|set_solver].
  - destruct (Hv marks n) as (b & marks' & -> & Hb); [set_solver|by apply visited_refl|].
    destruct b; [by exists true, marks'|]. destruct Hb as [Hvis Hacc].
    destruct (IH marks') as (b & m2 & -> & Hb).
    + intros m id Hid Hm. apply Hv; [set_solver|by eapply visited_trans].
    + apply Hvis.
    + exists b, m2. split; [done|]. destruct b; [done|]. destruct Hb as [Hvis2 Hacc2].
      split; [by eapply visited_trans|]. set_solver.
Qed.

Lemma absent_acc marks x : marks_ok marks → marks !! x = None → Acc (flip edge) x.
Proof.
  intros Hok Hx. constructor. intros y (needs & Hn & _).
  assert (is_Some (marks !! x)) as [? ?] by (apply (mk_dom marks Hok); by eexists). congruence.
Qed.

Lemma gray_ok marks id :
  marks_ok marks → marks !! id = Some White → marks_ok (<[id := Gray]> marks).
Proof.
  intros [Hd Hb] Hid. constructor.
  - intros x. rewrite <-Hd, lookup_insert_is_Some'. naive_solver.
  - intros x [[_ ?]|[_ Hx]]%lookup_insert_Some; [done|]. by apply Hb.
Qed.

Lemma dfs_ok fuel id marks :
  (size (whites marks) < fuel)%nat → marks_ok marks → on_stack_reaches marks id →
  visit_ok marks id (dfs fuel adj id marks).
Proof.
  revert id marks. induction fuel as [|fuel IH]; intros id marks Hfuel Hok Hstack; [lia|].
  simpl. destruct (marks !! id) as [[]|] eqn:Hid; simpl.
  - set (m1 := <[id := Gray]> marks).
    assert (marks_ok m1) as Hok1 by by apply gray_ok.
    assert (whites m1 ⊂ whites marks) as Hw.
    { split.
      - intros x. rewrite !elem_of_whites. unfold m1. by intros [[_ ?]|[_ ?]]%lookup_insert_Some.
      - intros H. specialize (H id). rewrite !elem_of_whites in H. unfold m1 in H.
        rewrite lookup_insert_eq in H. by specialize (H Hid). }
    pose proof (subset_size _ _ Hw) as Hsize.
    assert (match adj !! id with Some needs => dfs_each (dfs fuel adj) needs m1 | None => Some (false, m1) end
            = dfs_each (dfs fuel adj) (default [] (adj !! id)) m1) as -> by by destruct (adj !! id).
    destruct (dfs_each_ok (dfs fuel adj) (default [] (adj !! id)) m1) as (b & m2 & -> & Hb); [|done|].
    { intros m n Hn Hm. apply IH; [|apply Hm|].
      - pose proof (subseteq_size _ _ (vi_white _ _ Hm)). lia.
      - assert (edge id n) as He.
        { destruct (adj !! id) as [needs|] eqn:Ha; [by exists needs|]. simpl in Hn. set_solver. }
        intros g Hg. apply (vi_gray _ _ Hm) in Hg. unfold m1 in Hg.
        apply lookup_insert_Some in Hg as [[<- _]|[_ Hg]]; [by apply tc_once|].
        eapply tc_r; [by apply Hstack|done]. }
    destruct b; [by exists true, m2|]. destruct Hb as [Hvis Hacc].
    assert (Acc (flip edge) id) as Hid_acc.
    { constructor. intros y (needs & Hn & Hy). rewrite Hn in Hacc. by apply Hacc. }
    exists false, (<[id := Black]> m2). split; [done|]. split; [|done]. destruct Hvis as [Hok2 Hg2 Hw2].
    constructor.
    + constructor.
      * intros x. rewrite <-(mk_dom _ Hok), lookup_insert_is_Some', (mk_dom _ Hok2), (mk_dom _ Hok).
        split; [|by right]. intros [<-|?]; [|done]. apply (mk_dom _ Hok). by eexists.
      * intros x [[<- _]|[_ Hx]]%lookup_insert_Some; [done|]. by apply (mk_black _ Hok2).
    + intros x. destruct (decide (x = id)) as [->|Hne].
      * rewrite lookup_insert_eq, Hid. naive_solver.
      * rewrite lookup_insert_ne by done. rewrite Hg2. unfold m1. by rewrite lookup_insert_ne.
    + intros x. rewrite elem_of_whites. intros [[_ ?]|[_ Hx]]%lookup_insert_Some; [done|].
      apply Hw, Hw2. by apply elem_of_whites.
  - exists true, marks. split; [done|]. exists id. by apply Hstack.
  - exists false, marks. split; [done|]. split; [by apply visited_refl|]. by apply (mk_black _ Hok).
  - exists false, marks. split; [done|]. split; [by apply visited_refl|]. by eapply absent_acc.
Qed.

Lemma acc_no_cycle x : Acc (flip edge) x → ¬ tc edge x x.
Proof.
  intros Hacc. induction Hacc as [x _ IH]. intros Hc.
  assert (∃ y, edge x y ∧ rtc edge y x) as (y & Hxy & Hyx).
  { apply tc_nsteps in Hc as (n & Hn & Hsteps). destruct n; [lia|].
    inversion Hsteps; subst. eexists. split; [done|]. apply rtc_nsteps. by eexists. }
  apply (IH y Hxy). eapply tc_rtc_l; [exact Hyx|]. by apply tc_once.
Qed.
End dfs.

Lemma collect_map_snoc {A} (l : list (str * A)) p : collect_map (l ++ [p]) = <[p.1 := p.2]> (collect_map l).
Proof. unfold collect_map. by rewrite fold_left_app. Qed.

Lemma collect_map_is_Some {A} (l : list (str * A)) x : is_Some (collect_map l !! x) ↔ x ∈ map fst l.
Proof.
  induction l as [|p l IH] using rev_ind.
  - unfold collect_map. simpl. rewrite lookup_empty. split; [by intros []|set_solver].
  - rewrite collect_map_snoc, lookup_insert_is_Some', IH, map_app. set_solver.
Qed.

Lemma collect_map_in {A} (l : list (str * A)) x a : collect_map l !! x = Some a → (x, a) ∈ l.
Proof.
  induction l as [|p l IH] using rev_ind; [done|]. rewrite collect_map_snoc, elem_of_app.
  intros [[<- <-]|[_ Hx]]%lookup_insert_Some; [right|left; auto]. destruct p. set_solver.
Qed.

Lemma collect_map_lookup {A} (l : list (str * A)) x a :
  NoDup (map fst l) → (x, a) ∈ l → collect_map l !! x = Some a.
Proof.
  induction l as [|[y b] l IH] using rev_ind; [set_solver|]. rewrite map_app, NoDup_app, elem_of_app.
  intros (Hnd & Hdis & _) [Hx|Hx]; rewrite collect_map_snoc; simpl.
  - rewrite lookup_insert_ne; [by apply IH|]. intros ->. apply (Hdis x); [|simpl; set_solver].
    apply list_elem_of_fmap. by exists (x, a).
  - apply list_elem_of_singleton in Hx as [= -> ->]. apply lookup_insert_eq.
Qed.

Lemma has_cycle_spec (nodes : list FlowNode) :
  ∃ b, has_cycle nodes = Some b ∧ if b then ∃ x, tc (edge (needs_map nodes)) x x
                                  else ∀ x, x ∈ map fn_id nodes → Acc (flip (edge (needs_map nodes))) x.
Proof.
  unfold has_cycle. set (adj := needs_map nodes). set (marks := collect_map _).
  assert (∀ x, marks !! x = Some White ∨ marks !! x = None) as Hwhite.
  { intros x. destruct (marks !! x) as [k|] eqn:E; [|by right]. left.
    apply collect_map_in, list_elem_of_fmap in E as (n & [= -> ->] & _). done. }
  assert (marks_ok adj marks) as Hok.
  { constructor.
    - intros x. unfold marks, adj, needs_map. rewrite !collect_map_is_Some, !map_map. done.
    - intros x Hx. destruct (Hwhite x); congruence. }
  assert (size (whites marks) < S (length nodes))%nat as Hsize.
  { rewrite <-(length_map fn_id nodes). apply Nat.lt_succ_r. etrans; [|apply size_list_to_set_le].
    apply subseteq_size. intros x Hx%elem_of_whites. apply elem_of_list_to_set.
    assert (is_Some (marks !! x)) as Hs by by eexists. unfold marks in Hs.
    by rewrite collect_map_is_Some, map_map in Hs. }
  destruct (dfs_each_ok adj (dfs (S (length nodes)) adj) (map fn_id nodes) marks) as (b & m' & -> & Hb); [|done|].
  { intros m id _ Hm. apply dfs_ok; [|apply Hm|].
    - pose proof (subseteq_size _ _ (vi_white _ _ _ Hm)). lia.
    - intros g Hg%(vi_gray _ _ _ Hm). destruct (Hwhite g); congruence. }
  exists b. split; [done|]. destruct b; [done|apply Hb].
Qed.

(** ** Execution orders *)

Lemma NoDup_map_inj {A B} (f : A → B) (l : list A) x y :
  NoDup (map f l) → x ∈ l → y ∈ l → f x = f y → x = y.
Proof.
  intros Hnd [i Hi]%list_elem_of_lookup [j Hj]%list_elem_of_lookup Heq.
  assert (i = j) as ->; [|congruence]. apply (NoDup_lookup _ _ _ (f x) Hnd).
  - by rewrite list_lookup_fmap, Hi.
  - by rewrite list_lookup_fmap, Hj, Heq.
Qed.

(** Every node stands after the nodes it needs. *)
Definition executable_order (order : list FlowNode) : Prop :=
  ∀ i n, order !! i = Some n → ∀ need, need ∈ fn_needs n →
    ∃ j m, (j < i)%nat ∧ order !! j = Some m ∧ fn_id m = need.

Section order.
Context (nodes : list FlowNode) (Hnodup : NoDup (map fn_id nodes)).

Lemma edge_needs x y : edge (needs_map nodes) x y ↔ ∃ n, n ∈ nodes ∧ fn_id n = x ∧ y ∈ fn_needs n.
Proof using Hnodup.
  unfold edge, needs_map. split.
  - intros (needs & Hx%collect_map_in & Hy). apply list_elem_of_fmap in Hx as (n & [= -> ->] & Hn). by exists n.
  - intros (n & Hn & <- & Hy). exists (fn_needs n). split; [|done]. apply collect_map_lookup.
    + by rewrite map_map.
    + apply list_elem_of_fmap. by exists n.
Qed.

Lemma order_acc order :
  order ≡ₚ nodes → executable_order order → ∀ x, x ∈ map fn_id nodes → Acc (flip (edge (needs_map nodes))) x.
Proof using Hnodup.
  intros Hperm Hord.
  assert (∀ k i n, (i < k)%nat → order !! i = Some n → Acc (flip (edge (needs_map nodes))) (fn_id n)) as Hacc.
  { induction k as [|k IH]; intros i n Hik Hi; [lia|]. constructor. intros y Hy.
    apply edge_needs in Hy as (n' & Hn' & Hid & Hy).
    assert (n' = n) as ->.
    { apply (NoDup_map_inj fn_id nodes); [done|done| |done].
      rewrite <-Hperm. by eapply list_elem_of_lookup_2. }
    destruct (Hord i n Hi y Hy) as (j & m & Hji & Hj & <-). apply (IH j); [lia|done]. }
  intros x Hx. apply list_elem_of_fmap in Hx as (n & -> & Hn). rewrite <-Hperm in Hn.
  apply list_elem_of_lookup in Hn as [i Hi]. apply (Hacc (S i) i); [lia|done].
Qed.

(** While nodes are left, one of them has all its needs behind it. *)
Lemma next_ready finished rest n :
  finished ++ rest ≡ₚ nodes → (∀ n need, n ∈ nodes → need ∈ fn_needs n → need ∈ map fn_id nodes) →
  Acc (flip (edge (needs_map nodes))) (fn_id n) → n ∈ rest →
  ∃ n', n' ∈ rest ∧ ∀ need, need ∈ fn_needs n' → need ∈ map fn_id finished.
Proof using Hnodup.
  intros Hperm Hneeds Hacc. remember (fn_id n) as x eqn:Hx. revert n Hx.
  induction Hacc as [x _ IH]. intros n -> Hn.
  destruct (decide (Forall (λ need, need ∈ map fn_id finished) (fn_needs n))) as [Hall|Hnot].
  { exists n. split; [done|]. by apply Forall_forall. }
  apply not_Forall_Exists in Hnot; [|intros ?; apply _]. apply Exists_exists in Hnot as (y & Hy & Hyn).
  assert (n ∈ nodes) as Hn' by (rewrite <-Hperm; set_solver).
  pose proof (Hneeds n y Hn' Hy) as Hin. apply list_elem_of_fmap in Hin as (m & -> & Hm).
  apply (IH (fn_id m)) with m; [|done|].
  - apply edge_needs. by exists n.
  - rewrite <-Hperm in Hm. apply elem_of_app in Hm as [Hm|Hm]; [|done]. destruct Hyn.
    apply list_elem_of_fmap. by exists m.
Qed.

Lemma executable_snoc finished n :
  executable_order finished → (∀ need, need ∈ fn_needs n → need ∈ map fn_id finished) →
  executable_order (finished ++ [n]).
Proof.
  intros Hord Hn i m Hi need Hneed. apply lookup_app_Some in Hi as [Hi|[Hle Hi]].
  - destruct (Hord i m Hi need Hneed) as (j & m' & Hji & Hj & Hid). exists j, m'.
    split_and!; [done|by apply lookup_app_l_Some|done].
  - apply list_lookup_singleton_Some in Hi as [Hi <-].
    pose proof (Hn need Hneed) as Hin. apply list_elem_of_fmap in Hin as (m' & -> & Hm').
    apply list_elem_of_lookup in Hm' as [j Hj]. pose proof (lookup_lt_Some _ _ _ Hj).
    exists j, m'. split_and!; [lia|by apply lookup_app_l_Some|done].
Qed.

Lemma acc_order :
  (∀ n need, n ∈ nodes → need ∈ fn_needs n → need ∈ map fn_id nodes) →
  (∀ x, x ∈ map fn_id nodes → Acc (flip (edge (needs_map nodes))) x) →
  ∃ order, order ≡ₚ nodes ∧ executable_order order.
Proof using Hnodup.
  intros Hneeds Hacc.
  assert (∀ k finished rest, length rest = k → finished ++ rest ≡ₚ nodes → executable_order finished →
            ∃ order, order ≡ₚ nodes ∧ executable_order order) as Hgen.
  { induction k as [|k IH]; intros finished rest Hlen Hperm Hord.
    - apply nil_length_inv in Hlen as ->. rewrite app_nil_r in Hperm. by exists finished.
    - destruct rest as [|n rest]; [done|].
      destruct (next_ready finished (n :: rest) n) as (n' & Hn' & Hready); [done|done| |by left|].
      { apply Hacc, list_elem_of_fmap. exists n. split; [done|]. rewrite <-Hperm. set_solver. }
      apply elem_of_Permutation in Hn' as [rest' Hrest]. apply (IH (finished ++ [n']) rest').
      + apply Permutation_length in Hrest. simpl in *. lia.
      + by rewrite <-app_assoc, <-Hrest.
      + by apply executable_snoc. }
  apply (Hgen (length nodes) [] nodes); [done|done|]. intros i n Hi. done.
Qed.
End order.

(** ** The validator *)

(** What a node must carry for its type. *)
Definition node_fields_ok (n : FlowNode) : Prop :=
  match fn_node_type n with
  | AgentMention => fn_owner n ≠ None
  | ChannelThread => fn_participants n ≠ []
  | HumanReview => True
  | WaitForSignal => fn_signal n ≠ None
  end ∧ validate_labels (fn_required_labels n) FLOW_NODE_MAX_LABELS = Ok tt.

Lemma check_node_fields_Ok n : check_node_fields n = Ok tt ↔ node_fields_ok n.
Proof.
  unfold check_node_fields, node_fields_ok. rewrite try_Ok, map_err_Ok.
  assert (∀ A (o : option A), is_none o = false ↔ o ≠ None) as Hnone by (intros ? []; naive_solver).
  destruct (fn_node_type n); rewrite ?guard_err_Ok, ?Hnone, ?is_empty_false; tauto.
Qed.

Lemma collect_node_ids_Ok (nodes : list FlowNode) (seen0 seen : gset str) :
  for_fold nodes seen0 (λ seen n,
    if bool_decide (fn_id n ∈ seen) then Err (FlowDuplicateNodeId (fn_id n)) else Ok ({[fn_id n]} ∪ seen)) = Ok seen ↔
  NoDup (map fn_id nodes) ∧ (∀ x, x ∈ map fn_id nodes → x ∉ seen0) ∧ seen = list_to_set (map fn_id nodes) ∪ seen0.
Proof.
  revert seen0. induction nodes as [|n nodes IH]; intros seen0; simpl.
  - rewrite (left_id_L ∅ (∪)). split; [intros [= ->]; split_and!; [constructor|set_solver|done]|by intros (_ & _ & ->)].
  - rewrite NoDup_cons. case_bool_decide as Hin; simpl.
    + split; [done|]. intros (_ & Hn & _). destruct (Hn (fn_id n)); [set_solver|done].
    + rewrite IH. split.
      * intros (Hnd & Hdis & ->). split_and!; [set_solver|done|set_solver|set_solver].
      * intros ((Hni & Hnd) & Hdis & ->). split_and!; [done|set_solver|set_solver].
Qed.

Lemma check_needs_Ok seen nodes :
  check_needs seen nodes = Ok tt ↔ ∀ n need, n ∈ nodes → need ∈ fn_needs n → need ∈ seen.
Proof.
  unfold check_needs. rewrite for_each_Ok, Forall_forall.
  setoid_rewrite for_each_Ok. setoid_rewrite Forall_forall. setoid_rewrite guard_err_Ok.
  setoid_rewrite negb_false_iff. setoid_rewrite bool_decide_eq_true. naive_solver.
Qed.

Lemma validate_flow_nodup doc slug u :
  validate_flow_document doc slug = Ok u → NoDup (map fn_id (fm_nodes (fd_meta doc))).
Proof.
  unfold validate_flow_document. intros H. do 4 apply res_bind_Ok in H as (_ & _ & H).
  apply res_bind_Ok in H as (seen & Hseen & _). by apply collect_node_ids_Ok in Hseen as [? _].
Qed.

Lemma cycle_in_ids nodes x : tc (edge (needs_map nodes)) x x → x ∈ map fn_id nodes.
Proof.
  intros Hx. assert (∃ y, edge (needs_map nodes) x y) as (y & needs & Hn & _) by (inversion Hx; eauto).
  assert (is_Some (needs_map nodes !! x)) as Hs by by eexists.
  unfold needs_map in Hs. by rewrite collect_map_is_Some, map_map in Hs.
Qed.

(** The cycle check is exact.  [has_cycle] returns on every list of nodes, and says
    [true] exactly when some node needs itself through a chain of needs. *)
Theorem has_cycle_exact (nodes : list FlowNode) :
  ∃ b, has_cycle nodes = Some b ∧ (b = true ↔ ∃ x, tc (edge (needs_map nodes)) x x).
Proof.
  destruct (has_cycle_spec nodes) as (b & Hb & Hspec). exists b. split; [done|].
  destruct b; [by split|]. split; [done|]. intros (x & Hx). exfalso.
  apply (acc_no_cycle (needs_map nodes) x); [|done]. by apply Hspec, cycle_in_ids.
Qed.

(** C36: validation is exact.  A document is accepted for a path exactly when its slug is
    a slug and the path's, its node ids are valid and distinct, every node carries
    what its type requires, and the nodes can be put in an order in which each one
    comes after all it needs. *)
Theorem validate_flow_exact (doc : FlowDocument) (slug_in_path : str) :
  let nodes := fm_nodes (fd_meta doc) in
  validate_flow_document doc slug_in_path = Ok tt ↔
  is_ok (FlowSlug_new slug_in_path) = true ∧ fm_slug (fd_meta doc) = slug_in_path
  ∧ Forall (λ n, validate_node_id (fn_id n) = Ok tt) nodes ∧ NoDup (map fn_id nodes)
  ∧ Forall node_fields_ok nodes ∧ ∃ order, order ≡ₚ nodes ∧ executable_order order.
Proof.
  intros nodes. unfold validate_flow_document. fold nodes. destruct (has_cycle_spec nodes) as (b & -> & Hb).
  split.
  - intros Hrun. run_ok Hrun. repeat match goal with u : unit |- _ => destruct u end.
    match goal with H : negb _ = false |- _ => apply negb_false_iff, bool_decide_eq_true in H as <- end.
    match goal with H : collect_node_ids _ = Ok _ |- _ => apply collect_node_ids_Ok in H as (Hnd & _ & ->) end.
    match goal with H : check_needs _ _ = Ok _ |- _ => rename H into Hneeds end.
    match goal with H : check_node_ids _ = Ok _ |- _ => apply for_each_Ok in H; rename H into Hids end.
    match goal with H : for_each _ check_node_fields = Ok _ |- _ => apply for_each_Ok in H; rename H into Hfields end.
    split_and!; [by apply is_ok_Ok; eexists|done| |done| |].
    + eapply Forall_impl; [exact Hids|]. intros n. by rewrite map_err_Ok.
    + eapply Forall_impl; [exact Hfields|]. intros n. apply check_node_fields_Ok.
    + apply acc_order; [done| |done]. rewrite (right_id_L ∅ (∪)) in Hneeds.
      intros n need Hn Hneed. by apply (elem_of_list_to_set (C:=gset str)), (proj1 (check_needs_Ok _ _) Hneeds n).
  - intros (Hslug & Heq & Hids & Hnd & Hfields & order & Hperm & Hord).
    apply is_ok_Ok in Hslug as [slug Hslug]. rewrite Heq, Hslug. simpl.
    rewrite bool_decide_eq_true_2 by done. simpl.
    assert (check_node_ids nodes = Ok tt) as ->.
    { apply for_each_Ok. eapply Forall_impl; [exact Hids|]. simpl. by intros n ->. }
    assert (collect_node_ids nodes = Ok (list_to_set (map fn_id nodes) ∪ ∅)) as ->
      by (apply collect_node_ids_Ok; split_and!; [done|set_solver|done]).
    simpl. rewrite (proj2 (check_needs_Ok _ _)); last first.
    { intros n need Hn Hneed. rewrite <-Hperm in Hn. apply list_elem_of_lookup in Hn as [i Hi].
      destruct (Hord i n Hi need Hneed) as (j & m & _ & Hj & <-). apply elem_of_union_l, elem_of_list_to_set.
      rewrite <-Hperm. apply list_elem_of_fmap. exists m. split; [done|]. by eapply list_elem_of_lookup_2. }
    simpl. rewrite (proj2 (for_each_Ok nodes check_node_fields));
      [|eapply Forall_impl; [exact Hfields|]; apply check_node_fields_Ok].
    simpl. apply guard_err_Ok. destruct b; [|done]. exfalso. destruct Hb as [x Hx].
    apply (acc_no_cycle (needs_map nodes) x); [|done]. eapply order_acc; [done..|]. by apply cycle_in_ids.
Qed.
