(* ===== verification/FlowMarkdown.v ===== *)
(** * Flow documents as Markdown

    A flow is stored as YAML front matter followed by one [## id] section per node
    that holds its prompt ([gitim-core/src/flow/parser.rs]).  [serde_yaml] is a
    parameter: the prompts are not part of the front matter. *)

From S2P Require Import Prelude RustStr StrFacts Names Thread Flow Meta.
From stdpp Require Import options.
Open Scope N_scope.
Open Scope list_scope.

Definition set_prompt (prompt : str) (n : FlowNode) : FlowNode :=
  MkFlowNode (fn_id n) (fn_node_type n) (fn_owner n) (fn_participants n) (fn_signal n) (fn_needs n) (fn_exits n)
    (fn_required_labels n) prompt.

Definition set_nodes (nodes : list FlowNode) (m : FlowMeta) : FlowMeta :=
  MkFlowMeta (fm_schema_version m) (fm_slug m) (fm_name m) (fm_description m) (fm_created_by m) (fm_created_at m)
    (fm_updated_at m) nodes.

(** The fields [serde] sees: [prompt] is skipped. *)
Definition front_matter (m : FlowMeta) : FlowMeta := set_nodes (map (set_prompt []) (fm_nodes m)) m.

(** [serde_yaml] on front matter: the text it writes is read back, also without the
    whitespace around it, and has no line that starts a new document. *)
Class FlowYaml := {
  flow_to_yaml : FlowMeta → option str;
  flow_from_yaml : str → option FlowMeta;
  flow_yaml_roundtrip : ∀ m t, flow_to_yaml m = Some t → flow_from_yaml (trim t) = Some (front_matter m);
  flow_yaml_one_document : ∀ m t, flow_to_yaml m = Some t → contains (nl :: t) (nl :: lit "---") = false;
}.

Definition FRONTMATTER_DELIM : str := lit "---".
Definition BOM : char := 65279.

(** ** Sections *)

Definition section_line (st : gmap str str * option str * str) (line : str) : gmap str str * option str * str :=
  let '(sections, current_id, buf) := st in
  match strip_prefix (lit "## ") line with
  | Some rest =>
      match current_id with
      | Some id => (<[id := trim buf]> sections, Some (trim rest), [])
      | None => (sections, Some (trim rest), buf)
      end
  | None => if is_some current_id then (sections, current_id, buf ++ line ++ [nl]) else st
  end.

(** The section that is open at the end of the text. *)
Definition close_section (st : gmap str str * option str * str) : gmap str str :=
  let '(sections, current_id, buf) := st in
  match current_id with
  | Some id => <[id := trim buf]> sections
  | None => sections
  end.

Definition split_body_sections (body : str) : gmap str str :=
  close_section (fold_left section_line (lines body) (∅, None, [])).

(** The keys of a [BTreeMap] in order. *)
Definition sorted_keys (m : gmap str str) : list str := sort_by_key str_leb (map fst (map_to_list m)).

Section markdown.
Context `{FY : !FlowYaml}.

Definition inject_prompt (sections : gmap str str) (node : FlowNode) : FlowNode * list FlowWarning :=
  match sections !! fn_id node with
  | Some text => (set_prompt text node, [])
  | None => (node, [BodySectionMissing (fn_id node)])
  end.

Definition parse_flow_markdown_with_warnings (content : str) : res (FlowDocument * list FlowWarning) FlowError :=
  let trimmed := trim_start_matches BOM content in
  let? after_open := ok_or (strip_prefix FRONTMATTER_DELIM trimmed) FlowMissingFrontmatter in
  let? split := ok_or (split_once (nl :: FRONTMATTER_DELIM) after_open) FlowMissingFrontmatter in
  let '(yaml_body, body_after) := split in
  let? meta := ok_or (flow_from_yaml (trim yaml_body)) FlowYamlParse in
  try? guard_err (negb (fm_schema_version meta =? 1)) (FlowSchemaVersion (fm_schema_version meta)) then
  let section_map := split_body_sections body_after in
  let frontmatter_ids : gset str := list_to_set (map fn_id (fm_nodes meta)) in
  let injected := map (inject_prompt section_map) (fm_nodes meta) in
  let orphans := filter (λ id, id ∉ frontmatter_ids) (sorted_keys section_map) in
  Ok (MkFlowDocument (set_nodes (map fst injected) meta), flat_map snd injected ++ map OrphanBodySection orphans).

Definition parse_flow_markdown (content : str) : res FlowDocument FlowError :=
  let? r := parse_flow_markdown_with_warnings content in
  Ok r.1.

Definition node_section (node : FlowNode) : str :=
  lit "
## " ++ fn_id node ++ [nl; nl] ++ (if is_empty (fn_prompt node) then [] else trim (fn_prompt node) ++ [nl]).

Definition stringify_flow_markdown (doc : FlowDocument) : res str FlowError :=
  let? frontmatter := ok_or (flow_to_yaml (fd_meta doc)) FlowYamlParse in
  Ok (lit "---
" ++ trim_end frontmatter ++ lit "
---
" ++ concat (map node_section (fm_nodes (fd_meta doc)))).

(** ** Trimming *)

Lemma drop_while_app_all p a s : Forall (λ c, p c = true) a → drop_while p (a ++ s) = drop_while p s.
Proof. induction 1 as [|c a Hc _ IH]; simpl; [done|]. by rewrite Hc. Qed.

Lemma trim_end_app s b : Forall (λ c, is_whitespace c = true) b → trim_end (s ++ b) = trim_end s.
Proof.
  intros Hb. unfold trim_end. rewrite reverse_app, drop_while_app_all; [done|]. by rewrite Forall_reverse.
Qed.

Lemma trim_app s b : Forall (λ c, is_whitespace c = true) b → trim (s ++ b) = trim s.
Proof.
  intros Hb. unfold trim, trim_start. destruct (drop_while is_whitespace s) as [|c r] eqn:E.
  - apply drop_while_empty in E. rewrite drop_while_app_all by done.
    apply drop_while_empty in Hb as ->. done.
  - destruct (drop_while_split is_whitespace s) as (a & Hs & Ha). rewrite E in Hs. subst s.
    rewrite <-app_assoc, drop_while_app_all by done. simpl. rewrite (drop_while_head _ _ _ _ E).
    by rewrite app_comm_cons, trim_end_app.
Qed.

Lemma trim_ws a s b :
  Forall (λ c, is_whitespace c = true) a → Forall (λ c, is_whitespace c = true) b → trim (a ++ s ++ b) = trim s.
Proof.
  intros Ha Hb. rewrite app_assoc, trim_app by done. unfold trim, trim_start. by rewrite drop_while_app_all.
Qed.

Lemma trim_trim_end s : trim (trim_end s) = trim s.
Proof. destruct (trim_end_split s) as (b & Hs & Hb). rewrite Hs at 2. by rewrite trim_app. Qed.

Lemma nl_ws : Forall (λ c, is_whitespace c = true) [nl].
Proof. by repeat constructor. Qed.

(** ** The front matter is found *)

Lemma front_matter_split pre rest :
  contains pre (nl :: lit "---") = false →
  split_once (nl :: FRONTMATTER_DELIM) (pre ++ (nl :: FRONTMATTER_DELIM) ++ nl :: rest) = Some (pre, nl :: rest).
Proof.
  intros Hno. apply split_once_intro. intros a' b' Heq.
  destruct (decide (length pre ≤ length a')%nat) as [|Hlt]; [done|]. exfalso.
  assert (∃ r, pre = a' ++ r ∧ r ≠ []) as (r & -> & Hr).
  { exists (drop (length a') pre). split.
    - rewrite <-(take_drop (length a') pre) at 1. f_equal.
      apply (f_equal (take (length a'))) in Heq. rewrite take_app_le in Heq by lia. by rewrite take_app_length in Heq.
    - intros Hd. apply (f_equal length) in Hd. rewrite length_drop in Hd. simpl in Hd. lia. }
  rewrite <-app_assoc in Heq. apply app_inv_head in Heq.
  apply not_true_iff_false in Hno. apply Hno, contains_true.
  destruct r as [|c1 [|c2 [|c3 [|c4 r]]]]; simpl in Heq; try done; simplify_eq.
  exists a', r. done.
Qed.

(** ** The sections are read back *)

(** Prompts that survive the format: trimmed, without carriage returns, and with no
    line that opens a section. *)
Definition prompt_ok (p : str) : Prop :=
  trim p = p ∧ (cr ∉ p) ∧ Forall (λ l, starts_with l (lit "## ") = false) (lines p).

Definition flow_node_ok (n : FlowNode) : Prop := validate_node_id (fn_id n) = Ok tt ∧ prompt_ok (fn_prompt n).

Definition section_lines (n : FlowNode) : list str := [] :: (lit "## " ++ fn_id n) :: [] :: lines (fn_prompt n).

Definition unlines (ls : list str) : str := concat (map (λ l, l ++ [nl]) ls).

Lemma unlines_join ls : ls ≠ [] → unlines ls = join [nl] ls ++ [nl].
Proof.
  induction ls as [|l ls IH]; [done|]. intros _. destruct ls as [|l2 ls].
  - unfold unlines. simpl. by rewrite app_nil_r.
  - change (unlines (l :: l2 :: ls)) with ((l ++ [nl]) ++ unlines (l2 :: ls)). rewrite IH by done.
    change (join [nl] (l :: l2 :: ls)) with (l ++ [nl] ++ join [nl] (l2 :: ls)). by rewrite <-!app_assoc.
Qed.

Lemma trimmed_no_final_nl p : trim p = p → ends_with p [nl] = false.
Proof.
  intros Ht. apply not_true_iff_false. intros (r & Hr)%ends_with_true. rewrite Hr in Ht.
  unfold trim in Ht. by pose proof (trim_end_last _ _ _ Ht).
Qed.

Lemma lines_not_nil s : s ≠ [] → lines s ≠ [].
Proof.
  intros Hs H. unfold lines in H. apply map_eq_nil in H. apply (f_equal (@concat N)) in H.
  by rewrite split_inclusive_concat in H.
Qed.

Lemma prompt_unlines p : prompt_ok p → p ≠ [] → unlines (lines p) = p ++ [nl].
Proof.
  intros (Ht & Hcr & _) Hne. rewrite unlines_join by by apply lines_not_nil.
  by rewrite join_lines; [|done|apply trimmed_no_final_nl].
Qed.

Lemma node_section_lines n : flow_node_ok n → node_section n = unlines (section_lines n).
Proof.
  intros (_ & Hp). unfold node_section, section_lines, unlines. simpl. do 4 f_equal. rewrite <-app_assoc.
  f_equal. simpl. do 2 f_equal. destruct (is_empty (fn_prompt n)) eqn:E.
  - by apply is_empty_true in E as ->.
  - apply is_empty_false in E. fold (unlines (lines (fn_prompt n))). rewrite prompt_unlines by done.
    by destruct Hp as [-> _].
Qed.

Lemma node_id_chars id : validate_node_id id = Ok tt → Forall (λ c, is_label_char c = true) id.
Proof.
  unfold validate_node_id. intros H. by run_ok H.
Qed.

Lemma label_char_not_ws c : is_label_char c = true → is_whitespace c = false.
Proof.
  unfold is_label_char, is_ascii_lowercase, is_ascii_digit, is_whitespace, in_range.
  change (ch "-") with 45. change (ch "_") with 95. lia.
Qed.

Lemma label_text_trim s : Forall (λ c, is_label_char c = true) s → trim s = s.
Proof.
  intros Hs. rewrite Forall_forall in Hs. unfold trim, trim_start. rewrite drop_while_id.
  - apply trim_end_id. intros a c ->. apply label_char_not_ws, Hs. set_solver.
  - intros c r ->. apply label_char_not_ws, Hs. set_solver.
Qed.

Lemma label_char_not_break c : is_label_char c = true → c ≠ nl ∧ c ≠ cr.
Proof. intros H%label_char_not_ws. split; intros ->; done. Qed.

Lemma section_lines_clean n : flow_node_ok n → Forall (λ l, (nl ∉ l) ∧ (cr ∉ l)) (section_lines n).
Proof.
  intros (Hid%node_id_chars & _ & Hcr & _). rewrite Forall_forall in Hid.
  assert (∀ c, c ∈ lit "## " ++ fn_id n → c ≠ nl ∧ c ≠ cr) as Hhead.
  { intros c [Hc|Hc]%elem_of_app; [|by apply label_char_not_break, Hid].
    repeat (apply elem_of_cons in Hc as [->|Hc]; [done|]). by apply not_elem_of_nil in Hc. }
  unfold section_lines. repeat apply Forall_cons_2.
  - split; apply not_elem_of_nil.
  - split; intros [? ?]%Hhead; done.
  - split; apply not_elem_of_nil.
  - apply Forall_forall. intros l Hl. by apply (lines_clean (fn_prompt n)).
Qed.

(** Text lines are added to the open section. *)
Lemma section_text sections id buf ls :
  Forall (λ l, starts_with l (lit "## ") = false) ls →
  fold_left section_line ls (sections, Some id, buf) = (sections, Some id, buf ++ unlines ls).
Proof.
  intros Hls. revert buf. induction Hls as [|l ls Hl _ IH]; intros buf; simpl; [by rewrite app_nil_r|].
  unfold starts_with in Hl. apply is_some_false in Hl. simpl in Hl. rewrite Hl, IH.
  unfold unlines. simpl. by rewrite <-!app_assoc.
Qed.

Definition no_text_before_section (st : gmap str str * option str * str) : Prop := st.1.2 = None → st.2 = [].

Lemma section_open st n :
  flow_node_ok n → no_text_before_section st →
  ∃ st', fold_left section_line (section_lines n) st = st' ∧ no_text_before_section st'
    ∧ close_section st' = <[fn_id n := fn_prompt n]> (close_section st).
Proof.
  intros (Hid%node_id_chars & Hp) Hst. destruct st as [[sections cur] buf]. eexists. split; [reflexivity|].
  set (old := close_section (sections, cur, buf)).
  assert (fold_left section_line [[]; lit "## " ++ fn_id n] (sections, cur, buf) = (old, Some (fn_id n), [])) as Hopen.
  { unfold old. destruct cur as [id|]; simpl.
    - rewrite (label_text_trim (fn_id n)) by done. by rewrite trim_app by apply nl_ws.
    - rewrite (label_text_trim (fn_id n)) by done. pose proof (Hst eq_refl) as Hbuf. simpl in Hbuf. by rewrite Hbuf. }
  change (section_lines n) with ([[]; lit "## " ++ fn_id n] ++ [] :: lines (fn_prompt n)).
  rewrite fold_left_app, Hopen, section_text; [|constructor; [done|apply Hp]].
  split; [done|]. simpl. f_equal. change (unlines ([] :: lines (fn_prompt n))) with ([nl] ++ unlines (lines (fn_prompt n))).
  destruct (decide (fn_prompt n = [])) as [->|Hne]; [done|]. rewrite prompt_unlines by done.
  rewrite trim_ws by apply nl_ws. apply Hp.
Qed.

Lemma sections_fold nodes st :
  Forall flow_node_ok nodes → no_text_before_section st →
  close_section (fold_left section_line (concat (map section_lines nodes)) st)
  = fold_left (λ m p, <[p.1 := p.2]> m) (map (λ n, (fn_id n, fn_prompt n)) nodes) (close_section st).
Proof.
  intros Hn. revert st. induction Hn as [|n nodes Hn _ IH]; intros st Hst; [done|].
  cbn [map concat]. rewrite fold_left_app. destruct (section_open st n Hn Hst) as (st' & -> & Hst' & Hclose).
  rewrite IH by done. simpl. by rewrite Hclose.
Qed.

Lemma sections_of_body nodes :
  Forall flow_node_ok nodes →
  split_body_sections (nl :: concat (map node_section nodes)) = collect_map (map (λ n, (fn_id n, fn_prompt n)) nodes).
Proof.
  intros Hn. unfold split_body_sections.
  assert (concat (map node_section nodes) = unlines (concat (map section_lines nodes))) as ->.
  { induction Hn as [|n nodes Hn _ IH]; [done|]. cbn [map concat]. rewrite IH, (node_section_lines n Hn).
    unfold unlines. by rewrite map_app, concat_app. }
  assert (Forall (λ l, (nl ∉ l) ∧ (cr ∉ l)) (concat (map section_lines nodes))) as Hclean.
  { apply Forall_concat, Forall_map. eapply Forall_impl; [exact Hn|]. apply section_lines_clean. }
  pose proof (lines_of_chunks _ [] Hclean) as Hl. rewrite app_nil_r, lines_nil, app_nil_r in Hl.
  change (nl :: unlines (concat (map section_lines nodes)))
    with ([] ++ nl :: unlines (concat (map section_lines nodes))).
  rewrite lines_cons by apply not_elem_of_nil. unfold unlines. rewrite Hl. simpl fold_left.
  by rewrite sections_fold.
Qed.

(** ** The document is read back *)

Lemma inject_all nodes :
  NoDup (map fn_id nodes) →
  map (inject_prompt (collect_map (map (λ n, (fn_id n, fn_prompt n)) nodes))) (map (set_prompt []) nodes)
  = map (λ n, (n, [])) nodes.
Proof.
  intros Hnd. rewrite map_map. apply list_fmap_ext. intros i n Hi. unfold inject_prompt. simpl.
  rewrite (collect_map_lookup _ (fn_id n) (fn_prompt n)).
  - by destruct n.
  - by rewrite map_map.
  - apply list_elem_of_fmap. exists n. split; [done|]. by eapply list_elem_of_lookup_2.
Qed.

Lemma no_orphans nodes :
  filter (λ id, id ∉ (list_to_set (map fn_id (map (set_prompt []) nodes)) : gset str))
    (sorted_keys (collect_map (map (λ n, (fn_id n, fn_prompt n)) nodes))) = [].
Proof.
  apply filter_none, Forall_forall. intros id Hid Hni. unfold sorted_keys in Hid.
  rewrite sort_by_key_perm in Hid. apply list_elem_of_fmap in Hid as ([id' p] & -> & Hp%elem_of_map_to_list).
  apply collect_map_in, list_elem_of_fmap in Hp as (n & [= -> ->] & Hn). apply Hni.
  apply elem_of_list_to_set. rewrite map_map. apply list_elem_of_fmap. by exists n.
Qed.

Lemma no_warnings (nodes : list FlowNode) : flat_map snd (map (λ n, (n, @nil FlowWarning)) nodes) = [].
Proof. by induction nodes. Qed.

Lemma contains_prefix a b p : contains (a ++ b) p = false → contains a p = false.
Proof.
  rewrite !contains_false. intros H (x & y & ->). apply H. exists x, (y ++ b). by rewrite <-!app_assoc.
Qed.

(** What is read back of any document: the front matter, with the prompts its sections
    give. *)
Lemma stringify_flow_found (doc : FlowDocument) (text : str) :
  fm_schema_version (fd_meta doc) = 1 → stringify_flow_markdown doc = Ok text →
  let sections := split_body_sections (nl :: concat (map node_section (fm_nodes (fd_meta doc)))) in
  let injected := map (inject_prompt sections) (map (set_prompt []) (fm_nodes (fd_meta doc))) in
  let ids : gset str := list_to_set (map fn_id (map (set_prompt []) (fm_nodes (fd_meta doc)))) in
  parse_flow_markdown_with_warnings text =
  Ok (MkFlowDocument (set_nodes (map fst injected) (front_matter (fd_meta doc))),
      flat_map snd injected ++ map OrphanBodySection (filter (λ id, id ∉ ids) (sorted_keys sections))).
Proof.
  intros Hversion Hwrite sections injected ids. unfold stringify_flow_markdown in Hwrite. run_ok Hwrite.
  match goal with H : flow_to_yaml _ = Some ?t |- _ => rename H into Hyaml; rename t into yaml end.
  unfold parse_flow_markdown_with_warnings. set (nodes := fm_nodes (fd_meta doc)) in *.
  set (after_open := (nl :: trim_end yaml) ++ (nl :: FRONTMATTER_DELIM) ++ nl :: concat (map node_section nodes)).
  replace (strip_prefix _ _) with (Some after_open) by reflexivity. cbn [ok_or res_bind].
  unfold after_open. rewrite front_matter_split; last first.
  { apply flow_yaml_one_document in Hyaml. destruct (trim_end_split yaml) as (b & Hb & _). rewrite Hb in Hyaml.
    by apply (contains_prefix (nl :: trim_end yaml) b). }
  cbn [ok_or res_bind]. change (nl :: trim_end yaml) with ([nl] ++ trim_end yaml).
  rewrite <-(app_nil_r (trim_end yaml)), trim_ws, trim_trim_end; [|apply nl_ws|constructor].
  rewrite (flow_yaml_roundtrip _ _ Hyaml). cbn [ok_or res_bind].
  change (fm_schema_version (front_matter (fd_meta doc))) with (fm_schema_version (fd_meta doc)).
  by rewrite Hversion.
Qed.

Lemma stringify_flow_parse (doc : FlowDocument) (text : str) :
  fm_schema_version (fd_meta doc) = 1 → Forall flow_node_ok (fm_nodes (fd_meta doc)) →
  NoDup (map fn_id (fm_nodes (fd_meta doc))) → stringify_flow_markdown doc = Ok text →
  parse_flow_markdown_with_warnings text = Ok (doc, []).
Proof.
  intros Hversion Hnodes Hdistinct Hwrite. rewrite (stringify_flow_found doc text Hversion Hwrite).
  rewrite sections_of_body, inject_all, no_orphans, map_map, no_warnings by done. cbn [app map fst]. rewrite map_id.
  by destruct doc as [[]].
Qed.

(** A flow document is read back as it was written.  For schema version 1, valid and
    distinct node ids, and prompts that are trimmed and have no carriage return and
    no line starting with [## ], parsing the Markdown gives the document, prompts
    included, and no warnings. *)
Theorem flow_markdown_roundtrip (doc : FlowDocument) (text : str)
    (Hversion : fm_schema_version (fd_meta doc) = 1)
    (Hnodes : Forall flow_node_ok (fm_nodes (fd_meta doc)))
    (Hdistinct : NoDup (map fn_id (fm_nodes (fd_meta doc))))
    (Hwrite : stringify_flow_markdown doc = Ok text) :
  parse_flow_markdown_with_warnings text = Ok (doc, []).
Proof. by apply stringify_flow_parse. Qed.
End markdown.

(** ** Runs

    A concrete front matter: length-prefixed fields between two marks, refused when it
    would look like a document start. *)

Definition node_fields (n : FlowNode) : list (list str) :=
  [[fn_id n];
   match fn_node_type n with
   | AgentMention => [] | ChannelThread => [[]] | HumanReview => [[]; []] | WaitForSignal => [[]; []; []]
   end;
   option_list (fn_owner n); fn_participants n; option_list (fn_signal n); fn_needs n; fn_exits n;
   fn_required_labels n].

Fixpoint build_nodes (fs : list (list str)) : option (list FlowNode) :=
  match fs with
  | [id] :: t :: o :: p :: s :: nd :: ex :: rl :: fs' =>
      let t := match t with
               | [] => AgentMention | [_] => ChannelThread | [_; _] => HumanReview | _ => WaitForSignal
               end in
      cons (MkFlowNode id t (head o) p (head s) nd ex rl []) <$> build_nodes fs'
  | [] => Some []
  | _ => None
  end.

Definition flow_fields (m : FlowMeta) : list (list str) :=
  [[[fm_schema_version m]]; [fm_slug m]; [fm_name m]; [fm_description m]; [fm_created_by m]; [fm_created_at m];
   option_list (fm_updated_at m)] ++ concat (map node_fields (fm_nodes m)).

Definition build_flow (fs : list (list str)) : option FlowMeta :=
  match fs with
  | [[v]] :: [a] :: [b] :: [c] :: [d] :: [e] :: u :: fs' => MkFlowMeta v a b c d e (head u) <$> build_nodes fs'
  | _ => None
  end.

Lemma build_nodes_fields nodes : build_nodes (concat (map node_fields nodes)) = Some (map (set_prompt []) nodes).
Proof. induction nodes as [|[i [] o p sg nd ex rl pr] nodes IH]; [done|..]; simpl; rewrite IH; by destruct o, sg. Qed.

Lemma build_flow_fields m : build_flow (flow_fields m) = Some (front_matter m).
Proof. destruct m as [v a b c d e [] nodes]; simpl; by rewrite build_nodes_fields. Qed.

Definition flow_text (m : FlowMeta) : str := ch "{" :: print_fields (flow_fields m) ++ [ch "}"].

Lemma flow_text_trim m : trim (flow_text m) = flow_text m.
Proof.
  unfold trim, trim_start. rewrite drop_while_id by (by intros c r [= <- _]).
  apply trim_end_id. intros a c Hc. unfold flow_text in Hc. rewrite app_comm_cons in Hc.
  by apply app_inj_tail in Hc as [_ <-].
Qed.

Lemma flow_text_inner m : drop 1 (take (length (flow_text m) - 1) (flow_text m)) = print_fields (flow_fields m).
Proof.
  unfold flow_text. rewrite app_comm_cons, length_app. simpl length at 2. rewrite Nat.add_sub.
  by rewrite take_app_length.
Qed.

Definition framed_flow_yaml : FlowYaml.
Proof.
  refine {| flow_to_yaml := λ m, if contains (nl :: flow_text m) (nl :: lit "---") then None else Some (flow_text m);
            flow_from_yaml := λ t, build_flow (read_fields (length t) (drop 1 (take (length t - 1) t))) |}.
  - intros m t Ht. case_match; [done|]. injection Ht as <-. rewrite flow_text_trim, flow_text_inner.
    rewrite read_print_fields; [apply build_flow_fields|]. etrans; [apply print_fields_length|].
    unfold flow_text. cbn [length]. rewrite (length_app (print_fields _)). lia.
  - intros m t Ht. case_match eqn:Hc; [done|]. by injection Ht as <-.
Defined.

Section runs.
#[local] Existing Instance framed_flow_yaml.

Definition sample_flow (prompt : str) : FlowDocument :=
  MkFlowDocument (MkFlowMeta 1 (lit "release") (lit "Release") [] (lit "alice") (lit "20260101T000000Z") None
    [ MkFlowNode (lit "build") AgentMention (Some (lit "bob")) [] None [] [] [] (lit "Build it.
Then test it.");
      MkFlowNode (lit "ship") ChannelThread None [lit "alice"] None [lit "build"] [] [lit "ops"] prompt ]).

Definition sample_flow_text (prompt : str) : str :=
  match stringify_flow_markdown (sample_flow prompt) with Ok t => t | _ => [] end.

Lemma flow_markdown_roundtrip_witness :
  parse_flow_markdown_with_warnings (sample_flow_text (lit "Ship it.")) = Ok (sample_flow (lit "Ship it."), []).
Proof.
  apply (flow_markdown_roundtrip (sample_flow (lit "Ship it."))).
  - reflexivity.
  - repeat constructor; try (by vm_compute); apply (bool_decide_unpack _); vm_compute; exact I.
  - apply (bool_decide_unpack _). vm_compute. exact I.
  - vm_compute. reflexivity.
Defined.

(** A prompt with a second-level heading does not survive: the heading opens a section
    of its own and the rest of the prompt is lost. *)
Example prompt_heading_lost :
  parse_flow_markdown_with_warnings (sample_flow_text (lit "Steps:
## first
do it"))
  = Ok (sample_flow (lit "Steps:"), [OrphanBodySection (lit "first")]).
Proof. vm_compute. reflexivity. Qed.
End runs.
