(* ===== verification/FlowHandlers.v ===== *)
(** * The flow handlers

    The requests of [gitim-daemon/src/flow_handlers.rs] over the clone's three trees: listing,
    showing and checking flows, creating, changing and replacing one, and moving one with
    its runs to the trash.

    A change reads the flow before it takes the commit lock: the handlers that do so are
    given the clone at the time they read and the clone at the time they write. *)

From S2P Require Import Prelude RustStr StrFacts Names Thread Flow Meta Git Daemon Cards CommitOnly FlowMarkdown.
From stdpp Require Import options.
Open Scope N_scope.
Open Scope list_scope.

(** ** Answers *)

Inductive FlowFailure :=
  | FlowBadSlug (e : FlowSlugError)
  | FlowDaemon (e : DaemonError)
  | FlowMissing (slug : str)
  | FlowNodeMissing (node_id : str)
  | FlowAlreadyExists (slug : str)
  | FlowInvalid (e : FlowError)
  | FlowRead
  | FlowMkdir
  | FlowWrite
  | FlowCommit
  | FlowTrashDir
  | FlowTrashClear
  | FlowTrashMove
  | FlowRemoveCommit
  | FlowRemoveHead
  | FlowListFailed.

Inductive FlowEffect := FlowChanged (slug : str) | FlowPushNotify.

Record CommittedFlow := MkCommittedFlow { cf_slug : str; cf_path : str; cf_commit_id : str }.
Record WriteFlowResponse := MkWriteFlowResponse { wf_slug : str; wf_path : str; wf_status : str; wf_commit_id : str }.
Record FlowSummary := MkFlowSummary {
  fs_slug : str; fs_name : str; fs_description : str; fs_node_count : N; fs_updated_at : option str }.
Record FlowNodeSummary := MkFlowNodeSummary {
  ns_id : str; ns_node_type : NodeType; ns_owner : option str; ns_participants : list str; ns_signal : option str;
  ns_needs : list str; ns_exits : list str; ns_required_labels : list str; ns_prompt : str }.
Record ShowFlowResponse := MkShowFlowResponse {
  sf_slug : str; sf_name : str; sf_description : str; sf_created_by : str; sf_created_at : str;
  sf_updated_at : option str; sf_nodes : list FlowNodeSummary; sf_raw_markdown : str }.

(** The messages are kept as the errors and warnings they are made of. *)
Inductive FlowValidationItem := FlowItemSlug (e : FlowSlugError) | FlowItemError (e : FlowError) | FlowItemWarning (w : FlowWarning).
Record ValidateFlowResponse := MkValidateFlowResponse { vf_slug : str; vf_ok : bool; vf_items : list FlowValidationItem }.

Record FlowNodeInput := MkFlowNodeInput {
  ni_id : str; ni_node_type : NodeType; ni_owner : option str; ni_participants : list str; ni_signal : option str;
  ni_needs : list str; ni_exits : list str; ni_required_labels : list str; ni_prompt : str }.

Definition into_flow_node (i : FlowNodeInput) : FlowNode :=
  MkFlowNode (ni_id i) (ni_node_type i) (ni_owner i) (ni_participants i) (ni_signal i) (ni_needs i) (ni_exits i)
    (ni_required_labels i) (ni_prompt i).

Definition node_summary (n : FlowNode) : FlowNodeSummary :=
  MkFlowNodeSummary (fn_id n) (fn_node_type n) (fn_owner n) (fn_participants n) (fn_signal n) (fn_needs n) (fn_exits n)
    (fn_required_labels n) (fn_prompt n).

Definition flow_dir (slug : str) : str := lit "flows/" ++ slug.
Definition trash_dir (slug : str) : str := lit ".trash/flows/" ++ slug.

(** [iter_mut().find(..)], then the prompt is assigned: [None] where no node has the id. *)
Fixpoint set_node_prompt (node_id prompt : str) (nodes : list FlowNode) : option (list FlowNode) :=
  match nodes with
  | [] => None
  | n :: nodes' =>
      if fn_id n =?? node_id then Some (set_prompt prompt n :: nodes')
      else rest ← set_node_prompt node_id prompt nodes'; Some (n :: rest)
  end.

Definition with_flow_time (now : str) (doc : FlowDocument) : FlowDocument :=
  let m := fd_meta doc in
  MkFlowDocument (MkFlowMeta (fm_schema_version m) (fm_slug m) (fm_name m) (fm_description m) (fm_created_by m) (fm_created_at m)
                    (Some now) (fm_nodes m)).

Section flows.
Context `{FY : !FlowYaml} `{GI : !Git} `{GO : !GitOnly}.

Record FlowEnv := MkFlowEnv {
  fe_now : str;
  fe_read_ok : str → bool;
  fe_mkdir_ok : bool;
  fe_write_ok : bool;
  fe_commit : OnlyEnv;
  fe_read_dir : option (list str);
}.

(** ** Reading *)

Definition read_flow (env : FlowEnv) (r : Repo) (slug : FlowSlug) : res str FlowFailure :=
  match r_work r !! flow_path slug with
  | Some content => if fe_read_ok env (flow_path slug) then Ok content else Err FlowRead
  | None => if path_exists (r_work r) (flow_path slug) then Err FlowRead else Err (FlowMissing (flow_slug_str slug))
  end.

Definition flow_summary (env : FlowEnv) (d : GDaemon) (name : str) : option FlowSummary :=
  match FlowSlug_new name with
  | Ok slug =>
      content ← if fe_read_ok env (flow_path slug) then r_work (g_repo d) !! flow_path slug else None;
      match parse_flow_markdown content with
      | Ok doc =>
          if is_ok (validate_flow_document doc (flow_slug_str slug)) then
            let m := fd_meta doc in
            Some (MkFlowSummary (flow_slug_str slug) (fm_name m) (fm_description m) (N.of_nat (length (fm_nodes m))) (fm_updated_at m))
          else None
      | _ => None
      end
  | _ => None
  end.

Definition handle_flow_list (env : FlowEnv) (d : GDaemon) : res (list FlowSummary) FlowFailure :=
  if negb (path_exists (r_work (g_repo d)) (lit "flows")) then Ok []
  else
    let? entries := ok_or (fe_read_dir env) FlowListFailed in
    Ok (sort_by_key (λ a b, str_leb (fs_slug a) (fs_slug b)) (omap (flow_summary env d) entries)).

Definition handle_flow_show (env : FlowEnv) (d : GDaemon) (slug : str) : res ShowFlowResponse FlowFailure :=
  let? slug := map_err FlowBadSlug (FlowSlug_new slug) in
  let? content := read_flow env (g_repo d) slug in
  let? doc := map_err FlowInvalid (parse_flow_markdown content) in
  let m := fd_meta doc in
  Ok (MkShowFlowResponse (fm_slug m) (fm_name m) (fm_description m) (fm_created_by m) (fm_created_at m) (fm_updated_at m)
        (map node_summary (fm_nodes m)) content).

Definition handle_flow_validate (env : FlowEnv) (d : GDaemon) (slug : str) : res ValidateFlowResponse FlowFailure :=
  match FlowSlug_new slug with
  | Ok s =>
      let? content := match (if fe_read_ok env (flow_path s) then r_work (g_repo d) !! flow_path s else None) with
                      | Some c => Ok c | None => Err (FlowMissing (flow_slug_str s)) end in
      match parse_flow_markdown_with_warnings content with
      | Ok (doc, warnings) =>
          let items := map FlowItemWarning warnings in
          match validate_flow_document doc (flow_slug_str s) with
          | Ok _ => Ok (MkValidateFlowResponse (flow_slug_str s) true (items ++ map FlowItemWarning (validate_flow_for_storage doc (len content))))
          | Err e => Ok (MkValidateFlowResponse (flow_slug_str s) false (items ++ [FlowItemError e]))
          | Panicked => Panicked
          end
      | Err e => Ok (MkValidateFlowResponse (flow_slug_str s) false [FlowItemError e])
      | Panicked => Panicked
      end
  | Err e => Ok (MkValidateFlowResponse slug false [FlowItemSlug e])
  | Panicked => Panicked
  end.

(** ** Writing *)

Definition FlowOutcome (A : Type) : Type := GDaemon * list FlowEffect * res A FlowFailure.

Definition commit_flow_document_locked (env : FlowEnv) (r : Repo) (slug : FlowSlug) (doc : FlowDocument)
  : Repo * res CommittedFlow FlowFailure :=
  let doc := with_flow_time (fe_now env) doc in
  match (try? map_err FlowInvalid (validate_flow_document doc (flow_slug_str slug)) then
         map_err FlowInvalid (stringify_flow_markdown doc)) with
  | Ok rendered =>
      if negb (fe_mkdir_ok env) then (r, Err FlowMkdir)
      else if negb (fe_write_ok env) then (r, Err FlowWrite)
      else let '(r', commit_id) := add_and_commit_only_as (fe_commit env) (flow_path slug) (wrote_file (flow_path slug) rendered r) in
           (r', match commit_id with
                | Some id => Ok (MkCommittedFlow (flow_slug_str slug) (flow_path slug) id)
                | None => Err FlowCommit
                end)
  | Err e => (r, Err e)
  | Panicked => (r, Panicked)
  end.

Definition flow_write_success (committed : CommittedFlow) : list FlowEffect * WriteFlowResponse :=
  ([FlowChanged (cf_slug committed); FlowPushNotify],
   MkWriteFlowResponse (cf_slug committed) (cf_path committed) (lit "committed") (cf_commit_id committed)).

(** A prepared document is committed in the clone as it is when the lock is taken. *)
Definition write_flow (env : FlowEnv) (d : GDaemon) (prepared : res (FlowSlug * FlowDocument) FlowFailure) : FlowOutcome WriteFlowResponse :=
  match prepared with
  | Ok (slug, doc) =>
      let '(r', result) := commit_flow_document_locked env (g_repo d) slug doc in
      match result with
      | Ok committed => let '(effects, response) := flow_write_success committed in (with_repo d r', effects, Ok response)
      | Err e => (with_repo d r', [], Err e)
      | Panicked => (with_repo d r', [], Panicked)
      end
  | Err e => (d, [], Err e)
  | Panicked => (d, [], Panicked)
  end.

Definition flow_author_ok (d : GDaemon) (author : str) : res unit FlowFailure :=
  map_err FlowDaemon (ensure_author_not_departed (as_daemon d) author).

Definition prepare_flow_create (env : FlowEnv) (d : GDaemon) (slug name description author : str)
  : res (FlowSlug * FlowDocument) FlowFailure :=
  let? slug := map_err FlowBadSlug (FlowSlug_new slug) in
  try? flow_author_ok d author then
  try? guard_err (path_exists (r_work (g_repo d)) (flow_path slug)) (FlowAlreadyExists (flow_slug_str slug)) then
  Ok (slug, MkFlowDocument (MkFlowMeta 1 (flow_slug_str slug) name description author (fe_now env) None [])).

Definition prepare_flow_update_node (env : FlowEnv) (d : GDaemon) (slug node_id prompt author : str)
  : res (FlowSlug * FlowDocument) FlowFailure :=
  let? slug := map_err FlowBadSlug (FlowSlug_new slug) in
  try? flow_author_ok d author then
  let? content := read_flow env (g_repo d) slug in
  let? doc := map_err FlowInvalid (parse_flow_markdown content) in
  let? nodes := ok_or (set_node_prompt node_id (trim_end prompt) (fm_nodes (fd_meta doc))) (FlowNodeMissing node_id) in
  Ok (slug, MkFlowDocument (set_nodes nodes (fd_meta doc))).

Definition prepare_flow_replace (env : FlowEnv) (d : GDaemon) (slug : str) (name description : option str)
    (nodes : list FlowNodeInput) (author : str) : res (FlowSlug * FlowDocument) FlowFailure :=
  let? slug := map_err FlowBadSlug (FlowSlug_new slug) in
  try? flow_author_ok d author then
  let? content := read_flow env (g_repo d) slug in
  let? old := map_err FlowInvalid (parse_flow_markdown content) in
  let m := fd_meta old in
  Ok (slug, MkFlowDocument (MkFlowMeta 1 (flow_slug_str slug) (unwrap_or name (fm_name m)) (unwrap_or description (fm_description m))
                              (fm_created_by m) (fm_created_at m) (fm_updated_at m) (map into_flow_node nodes))).

(** The clone [seen] is the one the request reads, [d] the one it finds under the lock. *)
Definition handle_flow_create (env : FlowEnv) (seen d : GDaemon) (slug name description author : str) : FlowOutcome WriteFlowResponse :=
  write_flow env d (prepare_flow_create env seen slug name description author).
Definition handle_flow_update_node (env : FlowEnv) (seen d : GDaemon) (slug node_id prompt author : str) : FlowOutcome WriteFlowResponse :=
  write_flow env d (prepare_flow_update_node env seen slug node_id prompt author).
Definition handle_flow_replace (env : FlowEnv) (seen d : GDaemon) (slug : str) (name description : option str)
    (nodes : list FlowNodeInput) (author : str) : FlowOutcome WriteFlowResponse :=
  write_flow env d (prepare_flow_replace env seen slug name description nodes author).

(** ** The trash *)

Record RemoveEnv := MkRemoveEnv {
  re_mkdir_ok : bool;
  re_clear_ok : bool;
  re_rename_ok : bool;
  re_delete : CommitEnv;
  re_head : option str;
  re_trash : CommitEnv;
  re_trash_head : option str;
}.

(** [std::fs::remove_dir_all]. *)
Definition remove_dir (p : str) (t : tree) : tree := filter (λ kv : str * str, strip_dir p kv.1 = None) t.

Definition set_worktree (t : tree) (r : Repo) : Repo := MkRepo t (r_index r) (r_head r).

(** The move in the work tree. *)
Definition trash_flow (env : RemoveEnv) (r : Repo) (slug : str) : Repo * res unit FlowFailure :=
  if negb (re_mkdir_ok env) then (r, Err FlowTrashDir)
  else if path_exists (r_work r) (trash_dir slug) && negb (re_clear_ok env) then (r, Err FlowTrashClear)
  else
    let r1 := if path_exists (r_work r) (trash_dir slug) then set_worktree (remove_dir (trash_dir slug) (r_work r)) r else r in
    if negb (re_rename_ok env) then (r1, Err FlowTrashMove)
    else (set_worktree (move_tree (flow_dir slug) (trash_dir slug) (r_work r1)) r1, Ok tt).

(** The two commits: the deletion, then the trash, whose failure is passed over. *)
Definition commit_removal (env : RemoveEnv) (r : Repo) (slug : str) : Repo * res str FlowFailure :=
  let '(r1, deleted) := add_and_commit_as (re_delete env) [flow_dir slug] r in
  if negb deleted then (r1, Err FlowRemoveCommit)
  else match re_head env with
       | None => (r1, Err FlowRemoveHead)
       | Some commit_id_from =>
           let '(r2, trashed) := add_and_commit_as (re_trash env) [trash_dir slug] r1 in
           (r2, Ok (if trashed then unwrap_or (re_trash_head env) commit_id_from else commit_id_from))
       end.

Definition handle_flow_remove (env : RemoveEnv) (d : GDaemon) (slug author : str) : FlowOutcome (str * str) :=
  match (let? slug := map_err FlowBadSlug (FlowSlug_new slug) in
         try? flow_author_ok d author then
         try? guard_err (negb (path_exists (r_work (g_repo d)) (flow_dir (flow_slug_str slug)))) (FlowMissing (flow_slug_str slug)) then
         Ok (flow_slug_str slug)) with
  | Ok slug =>
      let '(r1, moved) := trash_flow env (g_repo d) slug in
      match moved with
      | Ok _ =>
          let '(r2, result) := commit_removal env r1 slug in
          match result with
          | Ok commit_id => (with_repo d r2, [FlowChanged slug; FlowPushNotify], Ok (slug, commit_id))
          | Err e => (with_repo d r2, [], Err e)
          | Panicked => (with_repo d r2, [], Panicked)
          end
      | Err e => (with_repo d r1, [], Err e)
      | Panicked => (with_repo d r1, [], Panicked)
      end
  | Err e => (d, [], Err e)
  | Panicked => (d, [], Panicked)
  end.

(** ** Validity does not depend on the prompts *)

Definition no_prompt (n : FlowNode) : FlowNode := set_prompt [] n.

Lemma for_each_map {A B E} (f : A → B) (g : B → res unit E) l : for_each (map f l) g = for_each l (λ x, g (f x)).
Proof. induction l as [|x l IH]; [done|]. cbn. by rewrite IH. Qed.

Lemma for_fold_map {A B S E} (f : A → B) (g : S → B → res S E) l acc : for_fold (map f l) acc g = for_fold l acc (λ s x, g s (f x)).
Proof. revert acc. induction l as [|x l IH]; intros acc; [done|]. cbn. by destruct (g acc (f x)); cbn; rewrite ?IH. Qed.

Lemma validate_no_prompts m slug :
  validate_flow_document (MkFlowDocument (front_matter m)) slug = validate_flow_document (MkFlowDocument m) slug.
Proof.
  unfold validate_flow_document. cbn [fd_meta front_matter set_nodes fm_slug fm_nodes].
  assert (has_cycle (map (set_prompt []) (fm_nodes m)) = has_cycle (fm_nodes m)) as ->.
  { unfold has_cycle, needs_map. by rewrite !map_map, length_map. }
  set (nodes := fm_nodes m).
  assert (check_node_ids (map (set_prompt []) nodes) = check_node_ids nodes) as -> by apply for_each_map.
  assert (collect_node_ids (map (set_prompt []) nodes) = collect_node_ids nodes) as -> by apply for_fold_map.
  assert (∀ seen, check_needs seen (map (set_prompt []) nodes) = check_needs seen nodes) as Hneeds by (intros; apply for_each_map).
  assert (for_each (map (set_prompt []) nodes) check_node_fields = for_each nodes check_node_fields) as Hfields by exact (for_each_map (set_prompt []) check_node_fields nodes).
  do 3 (destruct (map_err _ _) || destruct (guard_err _ _); cbn [res_bind]; [|done..]).
  destruct (check_node_ids nodes); cbn [res_bind]; [|done..]. destruct (collect_node_ids nodes); cbn [res_bind]; [|done..].
  by rewrite Hneeds, Hfields.
Qed.

Lemma validate_same_front m1 m2 slug :
  front_matter m1 = front_matter m2 →
  validate_flow_document (MkFlowDocument m1) slug = validate_flow_document (MkFlowDocument m2) slug.
Proof. intros H. by rewrite <-(validate_no_prompts m1), H, validate_no_prompts. Qed.

Lemma inject_front sections nodes : map (set_prompt []) (map fst (map (inject_prompt sections) (map (set_prompt []) nodes))) = map (set_prompt []) nodes.
Proof.
  rewrite !map_map. apply map_ext. intros n. unfold inject_prompt. by destruct (sections !! _).
Qed.

(** The text is a flow with the slug. *)
Definition flow_of (slug text : str) : Prop :=
  ∃ doc, parse_flow_markdown text = Ok doc ∧ validate_flow_document doc slug = Ok tt.

Lemma stored_flow_of doc slug text :
  fm_schema_version (fd_meta doc) = 1 → validate_flow_document doc slug = Ok tt → stringify_flow_markdown doc = Ok text → flow_of slug text.
Proof.
  intros Hv Hok Ht. unfold flow_of, parse_flow_markdown. rewrite (stringify_flow_found doc text Hv Ht). cbn [res_bind fst].
  eexists. split; [done|]. destruct doc as [m]. cbn [fd_meta]. rewrite <-Hok. apply validate_same_front.
  unfold front_matter. cbn [set_nodes fm_nodes]. by rewrite inject_front.
Qed.

Lemma parsed_version content doc : parse_flow_markdown content = Ok doc → fm_schema_version (fd_meta doc) = 1.
Proof.
  unfold parse_flow_markdown, parse_flow_markdown_with_warnings. intros H. apply res_bind_Ok in H as ([doc' ws] & H & [= <-]).
  apply res_bind_Ok in H as (a & _ & H). apply res_bind_Ok in H as ([y b] & _ & H). apply res_bind_Ok in H as (m & _ & H).
  apply res_bind_Ok in H as ([] & Hg & [= <- <-]). apply guard_err_Ok in Hg. cbn. apply negb_false_iff, N.eqb_eq in Hg. done.
Qed.

(** ** What the handlers keep *)

(** A prepared document has the version that can be read. *)
Definition version_one (prepared : res (FlowSlug * FlowDocument) FlowFailure) : Prop :=
  ∀ slug doc, prepared = Ok (slug, doc) → fm_schema_version (fd_meta doc) = 1.

Lemma create_version env d slug name description author : version_one (prepare_flow_create env d slug name description author).
Proof.
  intros s doc H. unfold prepare_flow_create in H. apply res_bind_Ok in H as (s' & _ & H). apply res_bind_Ok in H as (? & _ & H).
  by apply res_bind_Ok in H as (? & _ & [= <- <-]).
Qed.

Lemma update_version env d slug node_id prompt author : version_one (prepare_flow_update_node env d slug node_id prompt author).
Proof.
  intros s doc H. unfold prepare_flow_update_node in H. apply res_bind_Ok in H as (s' & _ & H). apply res_bind_Ok in H as (? & _ & H).
  apply res_bind_Ok in H as (content & _ & H). apply res_bind_Ok in H as (old & Hp%map_err_Ok & H).
  apply res_bind_Ok in H as (nodes & _ & [= <- <-]). cbn. by apply parsed_version in Hp.
Qed.

Lemma replace_version env d slug name description nodes author : version_one (prepare_flow_replace env d slug name description nodes author).
Proof.
  intros s doc H. unfold prepare_flow_replace in H. apply res_bind_Ok in H as (s' & _ & H). apply res_bind_Ok in H as (? & _ & H).
  apply res_bind_Ok in H as (content & _ & H). by apply res_bind_Ok in H as (old & _ & [= <- <-]).
Qed.

(** A write, whether it succeeds or not. *)
Lemma write_flow_spec env d prepared d' effects result :
  write_flow env d prepared = (d', effects, result) →
  (g_repo d' = g_repo d ∧ ∀ c, result ≠ Ok c)
  ∨ ∃ slug doc text, prepared = Ok (slug, doc)
      ∧ validate_flow_document (with_flow_time (fe_now env) doc) (flow_slug_str slug) = Ok tt
      ∧ stringify_flow_markdown (with_flow_time (fe_now env) doc) = Ok text
      ∧ only_wrote (flow_path slug) text (g_repo d) (g_repo d')
      ∧ ∀ c, result = Ok c → r_head (g_repo d') = sync_paths [flow_path slug] (r_work (g_repo d')) (r_head (g_repo d))
          ∧ effects = [FlowChanged (flow_slug_str slug); FlowPushNotify].
Proof.
  unfold write_flow. destruct prepared as [[slug doc]| |]; [|by intros [= <- <- <-]; left..]. unfold commit_flow_document_locked.
  destruct (res_bind _ _) as [text|e|] eqn:E; [|by intros [= <- <- <-]; left..].
  apply res_bind_Ok in E as ([] & Hv%map_err_Ok & Ht%map_err_Ok).
  destruct (fe_mkdir_ok env); [|by intros [= <- <- <-]; left]. destruct (fe_write_ok env); [|by intros [= <- <- <-]; left]. cbn [negb].
  destruct (add_and_commit_only_as _ _ _) as [r2 id] eqn:Ec. apply commit_only_spec in Ec as [How Hid].
  intros H. right. exists slug, doc, text. destruct id as [id|]; injection H as <- <- <-; (split_and!; [done..|]); intros c [= <-].
  split; [|done]. by apply Hid.
Qed.

Definition flows_ok (t : tree) : Prop := ∀ slug text, t !! flow_path (MkFlowSlug slug) = Some text → flow_of slug text.
Definition clone_flows_ok (r : Repo) : Prop := flows_ok (r_work r) ∧ flows_ok (r_index r) ∧ flows_ok (r_head r).

Lemma flows_ok_sync ps t1 t2 : flows_ok t1 → flows_ok t2 → flows_ok (sync_paths ps t1 t2).
Proof. intros H1 H2 slug text. rewrite lookup_sync_paths. destruct (in_paths _ _); [apply H1|apply H2]. Qed.

Lemma flow_path_inj s1 s2 : flow_path s1 = flow_path s2 → s1 = s2.
Proof. unfold flow_path. intros H%app_inv_head. apply app_inv_tail in H. destruct s1, s2. cbn in H. by subst. Qed.

Lemma only_wrote_flows slug text r r' :
  only_wrote (flow_path slug) text r r' → flow_of (flow_slug_str slug) text → clone_flows_ok r → clone_flows_ok r'.
Proof.
  intros [Hw Hi Hh] Hb (Okw & Oki & Okh). assert (flows_ok (r_work r')) as Hwork.
  { intros s t. rewrite Hw. destruct (decide (s = flow_slug_str slug)) as [->|Hne].
    - destruct slug. rewrite lookup_insert_eq. by intros [= <-].
    - rewrite lookup_insert_ne by (intros Heq%flow_path_inj; apply Hne; by rewrite Heq). by apply Okw. }
  split_and!; [done|destruct Hi as [-> | ->]|destruct Hh as [-> | ->]]; [done|by apply flows_ok_sync|done|by apply flows_ok_sync].
Qed.

(** *** Removing *)

Lemma dirs_apart s : apart (flow_dir s) (trash_dir s).
Proof. apply apart_head. done. Qed.

Lemma trash_not_flow s slug : below (trash_dir s) (flow_path slug) = false.
Proof. done. Qed.

Lemma lookup_remove_dir p t k : remove_dir p t !! k = if below p k then None else t !! k.
Proof.
  unfold remove_dir. destruct (below p k) eqn:E.
  - apply map_lookup_filter_None. right. intros v _. cbn. rewrite strip_dir_None_below. congruence.
  - apply option_eq. intros v. rewrite map_lookup_filter_Some. cbn. rewrite strip_dir_None_below. tauto.
Qed.

Lemma flows_ok_move s t : flows_ok t → flows_ok (move_tree (flow_dir s) (trash_dir s) t).
Proof.
  intros Ht slug text. rewrite lookup_move_tree. pose proof (trash_not_flow s (MkFlowSlug slug)) as Hn.
  apply strip_dir_None_below in Hn. rewrite Hn. cbn [mbind option_bind]. destruct (below _ _); [done|]. apply Ht.
Qed.

Lemma flows_ok_remove s t : flows_ok t → flows_ok (remove_dir (trash_dir s) t).
Proof. intros Ht slug text. rewrite lookup_remove_dir, trash_not_flow. apply Ht. Qed.

Lemma trash_flow_ok env r s r' res : trash_flow env r s = (r', res) → clone_flows_ok r → clone_flows_ok r'.
Proof.
  unfold trash_flow. intros H (Hw & Hi & Hh). destruct (re_mkdir_ok env); [|by injection H as <- <-]. cbn [negb] in H.
  destruct (path_exists (r_work r) (trash_dir s)); cbn [andb] in H; [destruct (re_clear_ok env); [|by injection H as <- <-]; cbn [negb] in H|];
    (destruct (re_rename_ok env); cbn [negb] in H; injection H as <- <-);
    (split_and!; cbn [r_work r_index r_head set_worktree]; [|done|done]); auto using flows_ok_move, flows_ok_remove.
Qed.

Lemma commit_flows_ok g ps r r' ok : add_and_commit_as g ps r = (r', ok) → clone_flows_ok r → clone_flows_ok r'.
Proof.
  intros H (Hw & Hi & Hh). apply add_and_commit_spec in H. assert (flows_ok (r_index (stage ps r))) by by apply flows_ok_sync.
  destruct ok; [by subst r'|]. by destruct H as [-> | ->].
Qed.

Lemma remove_flows_ok env d slug author d' effects result :
  handle_flow_remove env d slug author = (d', effects, result) → clone_flows_ok (g_repo d) → clone_flows_ok (g_repo d').
Proof.
  unfold handle_flow_remove. intros H Hok. destruct (res_bind _ _) as [s|e|]; [|by injection H as <- <- <-..].
  destruct (trash_flow env (g_repo d) s) as [r1 moved] eqn:Et. pose proof (trash_flow_ok _ _ _ _ _ Et Hok) as H1.
  destruct moved as [[]| |]; [|by injection H as <- <- <-..]. unfold commit_removal in H.
  destruct (add_and_commit_as (re_delete env) _ r1) as [r2 deleted] eqn:Ed. pose proof (commit_flows_ok _ _ _ _ _ Ed H1) as H2.
  destruct deleted; cbn [negb] in H; [|by injection H as <- <- <-]. destruct (re_head env); [|by injection H as <- <- <-].
  destruct (add_and_commit_as (re_trash env) _ r2) as [r3 trashed] eqn:Eh. injection H as <- <- <-. by eapply commit_flows_ok.
Qed.

(** A request of anybody; what it read may be older than what it finds under the lock. *)
Inductive flow_request (d : GDaemon) : GDaemon → Prop :=
  | request_create env seen slug name description author d' effects result :
      handle_flow_create env seen d slug name description author = (d', effects, result) → flow_request d d'
  | request_update env seen slug node_id prompt author d' effects result :
      handle_flow_update_node env seen d slug node_id prompt author = (d', effects, result) → flow_request d d'
  | request_replace env seen slug name description nodes author d' effects result :
      handle_flow_replace env seen d slug name description nodes author = (d', effects, result) → flow_request d d'
  | request_remove env slug author d' effects result :
      handle_flow_remove env d slug author = (d', effects, result) → flow_request d d'.

Lemma write_flows_ok env d prepared d' effects result :
  version_one prepared → write_flow env d prepared = (d', effects, result) → clone_flows_ok (g_repo d) → clone_flows_ok (g_repo d').
Proof.
  intros Hv H Hok. apply write_flow_spec in H as [[-> _]|(slug & doc & text & Hp & Hval & Ht & How & _)]; [done|].
  eapply only_wrote_flows; [exact How| |done]. eapply stored_flow_of; [|done|exact Ht]. by apply (Hv slug doc).
Qed.

(** C30: Stored flows stay flows.  From a clone in which every flow, in the work tree, the
    index and [HEAD], can be read and is valid for its slug, that is still so after any
    sequence of requests to create, change, replace and remove flows, also when they fail
    at any command and when they write what they read before others wrote. *)
Theorem flows_stay_valid (d d' : GDaemon) (Hok : clone_flows_ok (g_repo d)) (Hsteps : rtc flow_request d d') : clone_flows_ok (g_repo d').
Proof.
  induction Hsteps as [|d d1 d2 Hstep _ IH]; [done|]. apply IH.
  destruct Hstep as [env seen ? ? ? ? ? ? ? H|env seen ? ? ? ? ? ? ? H|env seen ? ? ? ? ? ? ? ? H|env ? ? ? ? ? H];
    [eapply write_flows_ok; [apply create_version|exact H|done]|eapply write_flows_ok; [apply update_version|exact H|done]
    |eapply write_flows_ok; [apply replace_version|exact H|done]|by eapply remove_flows_ok].
Qed.

(** ** Changing a prompt *)

Definition change_prompt (node_id prompt : str) (n : FlowNode) : FlowNode :=
  if fn_id n =?? node_id then set_prompt prompt n else n.

Lemma change_prompt_ids node_id prompt nodes : map fn_id (map (change_prompt node_id prompt) nodes) = map fn_id nodes.
Proof. rewrite map_map. apply map_ext. intros n. unfold change_prompt. by case_bool_decide. Qed.

Lemma set_node_prompt_spec node_id prompt nodes nodes' :
  set_node_prompt node_id prompt nodes = Some nodes' →
  map fn_id nodes' = map fn_id nodes ∧ (NoDup (map fn_id nodes) → nodes' = map (change_prompt node_id prompt) nodes).
Proof.
  revert nodes'. induction nodes as [|n nodes IH]; intros nodes'; cbn [set_node_prompt]; [done|]. case_bool_decide as Hn.
  - intros [= <-]. split; [done|]. cbn. intros [Hni _]%NoDup_cons. unfold change_prompt at 1. rewrite bool_decide_true by done. f_equal.
    symmetry. rewrite <-(map_id nodes) at 2. apply map_ext_in. intros x Hx. unfold change_prompt. rewrite bool_decide_false; [done|].
    intros Heq. apply Hni. rewrite Hn, <-Heq. apply list_elem_of_fmap. exists x. split; [done|]. by apply list_elem_of_In.
  - destruct (set_node_prompt node_id prompt nodes) as [rest|]; [|done]. intros [= <-]. destruct (IH rest eq_refl) as [Hids Hmap]. cbn.
    split; [by rewrite Hids|]. intros [_ Hnd]%NoDup_cons. unfold change_prompt at 1. rewrite bool_decide_false by done. by rewrite Hmap.
Qed.

Lemma validated_ids doc slug : validate_flow_document doc slug = Ok tt → Forall (λ n, validate_node_id (fn_id n) = Ok tt) (fm_nodes (fd_meta doc)).
Proof.
  unfold validate_flow_document. intros H. do 3 apply res_bind_Ok in H as (_ & _ & H). apply res_bind_Ok in H as ([] & Hids & _).
  apply for_each_Ok in Hids. eapply Forall_impl; [exact Hids|]. intros n. by rewrite map_err_Ok.
Qed.

(** C31: Changing the prompt of a node changes that prompt.  When nobody writes in between,
    the flow's prompts can all be read back and so can the new one (trimmed, no carriage
    return, no line that starts with two number signs and a space), then after a change that
    succeeds the flow in [HEAD] reads back, without warnings, as it was with the new prompt,
    without its trailing whitespace, at the node and with the time of the change; no other
    path changes in the work tree, the index or [HEAD], the flow's event is sent and the
    sync loop woken. *)
Theorem flow_prompt_changed (env : FlowEnv) (d d' : GDaemon) (slug node_id prompt author old_text : str) (old : FlowDocument)
    (effects : list FlowEffect) (resp : WriteFlowResponse)
    (Hold : r_work (g_repo d) !! flow_path (MkFlowSlug slug) = Some old_text) (Hparse : parse_flow_markdown old_text = Ok old)
    (Hprompts : Forall (λ n, prompt_ok (fn_prompt n)) (fm_nodes (fd_meta old))) (Hprompt : prompt_ok (trim_end prompt))
    (Hrun : handle_flow_update_node env d d slug node_id prompt author = (d', effects, Ok resp)) :
  (∃ text, r_head (g_repo d') !! flow_path (MkFlowSlug slug) = Some text
     ∧ parse_flow_markdown_with_warnings text
       = Ok (with_flow_time (fe_now env)
               (MkFlowDocument (set_nodes (map (change_prompt node_id (trim_end prompt)) (fm_nodes (fd_meta old))) (fd_meta old))), []))
  ∧ effects = [FlowChanged slug; FlowPushNotify]
  ∧ ∀ k, below (flow_path (MkFlowSlug slug)) k = false →
      r_work (g_repo d') !! k = r_work (g_repo d) !! k ∧ r_index (g_repo d') !! k = r_index (g_repo d) !! k
      ∧ r_head (g_repo d') !! k = r_head (g_repo d) !! k.
Proof.
  apply write_flow_spec in Hrun as [[_ Hno]|(s & doc & text & Hprep & Hval & Ht & How & Hc)]; [by destruct (Hno resp)|].
  destruct (Hc resp eq_refl) as [Hhead ->]. pose proof (update_version _ _ _ _ _ _ _ _ Hprep) as Hver.
  unfold prepare_flow_update_node in Hprep. apply res_bind_Ok in Hprep as (s' & Hs%map_err_Ok & Hprep).
  apply FlowSlug_new_iff in Hs as [-> _]. apply res_bind_Ok in Hprep as (? & _ & Hprep).
  apply res_bind_Ok in Hprep as (content & Hread & Hprep). unfold read_flow in Hread. rewrite Hold in Hread.
  destruct (fe_read_ok env _); [|done]. injection Hread as <-. apply res_bind_Ok in Hprep as (old' & Hp%map_err_Ok & Hprep).
  rewrite Hparse in Hp. injection Hp as <-. apply res_bind_Ok in Hprep as (nodes & Hn & [= <- <-]).
  destruct (set_node_prompt _ _ _) as [nodes'|] eqn:En; [|done]. injection Hn as ->. apply set_node_prompt_spec in En as [Hids Hmap].
  pose proof (validate_flow_nodup _ _ _ Hval) as Hnd. pose proof (validated_ids _ _ Hval) as Hvids.
  cbn [with_flow_time fd_meta set_nodes fm_nodes] in Hnd, Hvids. rewrite Hids in Hnd. rewrite (Hmap Hnd) in *.
  assert (r_work (g_repo d') !! flow_path (MkFlowSlug slug) = Some text) as Hwork by (rewrite (ow_work _ _ _ _ How); apply lookup_insert_eq).
  split; [|split; [done|intros k Hk; by apply (lookup_only_wrote _ _ _ _ k How)]]. exists text.
  split; [rewrite Hhead; by apply lookup_recorded|]. apply stringify_flow_parse; [done| | |done]; cbn [with_flow_time fd_meta set_nodes fm_nodes].
  - apply Forall_forall. intros n Hn. rewrite Forall_forall in Hvids. split; [by apply Hvids|].
    apply list_elem_of_fmap in Hn as (y & -> & Hy). unfold change_prompt. case_bool_decide; [done|]. rewrite Forall_forall in Hprompts. by apply Hprompts.
  - by rewrite change_prompt_ids.
Qed.

(** ** The trash *)

(** A removal that succeeds has moved every file of the flow, its runs included, to the same
    place in the trash, and recorded that they are gone. *)
Theorem flow_removed (env : RemoveEnv) (d d' : GDaemon) (slug author id : str) (effects : list FlowEffect)
    (Hrun : handle_flow_remove env d slug author = (d', effects, Ok (slug, id))) :
  (∀ rest, rest = [] ∨ (∃ r, rest = slash :: r) →
     r_work (g_repo d') !! (trash_dir slug ++ rest) = r_work (g_repo d) !! (flow_dir slug ++ rest))
  ∧ (∀ k, below (flow_dir slug) k = true → r_work (g_repo d') !! k = None ∧ r_head (g_repo d') !! k = None)
  ∧ (∀ k, below (flow_dir slug) k = false → below (trash_dir slug) k = false → r_work (g_repo d') !! k = r_work (g_repo d) !! k)
  ∧ effects = [FlowChanged slug; FlowPushNotify].
Proof.
  unfold handle_flow_remove in Hrun. destruct (res_bind _ _) as [s|e|]; [|done..].
  destruct (trash_flow env (g_repo d) s) as [r1 [[]| |]] eqn:Et; [|done..]. unfold commit_removal in Hrun.
  destruct (add_and_commit_as (re_delete env) _ r1) as [r2 [|]] eqn:Ed; cbn [negb] in Hrun; [|done]. destruct (re_head env); [|done].
  destruct (add_and_commit_as (re_trash env) _ r2) as [r3 trashed] eqn:Eh. injection Hrun as <- <- -> _. cbn [g_repo with_repo].
  assert (∃ t, path_exists t (trash_dir slug) = false ∧ r_work r1 = move_tree (flow_dir slug) (trash_dir slug) t
    ∧ ∀ k, below (trash_dir slug) k = false → t !! k = r_work (g_repo d) !! k) as (t & Hfree & Hw1 & Hsame).
  { unfold trash_flow in Et. destruct (re_mkdir_ok env); [|done]. cbn [negb] in Et. destruct (path_exists (r_work (g_repo d)) (trash_dir slug)) eqn:Ex; cbn [andb] in Et.
    - destruct (re_clear_ok env); [|done]. cbn [negb] in Et. destruct (re_rename_ok env); [|done]. injection Et as <-.
      exists (remove_dir (trash_dir slug) (r_work (g_repo d))). split_and!; [|done|].
      + apply path_exists_false. intros k [v Hv]. rewrite lookup_remove_dir in Hv. apply strip_dir_None_below. by destruct (below _ k).
      + intros k Hk. by rewrite lookup_remove_dir, Hk.
    - destruct (re_rename_ok env); [|done]. injection Et as <-. by exists (r_work (g_repo d)). }
  apply add_and_commit_spec in Ed as ->. apply add_and_commit_spec in Eh.
  assert (r_work r3 = r_work r1 ∧ ∀ k, below (flow_dir slug) k = true → r_head r3 !! k = r_work r1 !! k) as [Hw3 Hh3].
  { split; [destruct trashed; [by subst r3|by destruct Eh as [-> | ->]]|]. intros k Hk.
    assert (in_paths [flow_dir slug] k = true) as Hin by (unfold in_paths; cbn [existsb]; by rewrite Hk).
    assert (in_paths [trash_dir slug] k = false) as Hout by (unfold in_paths; cbn [existsb]; rewrite (apart_not_below _ _ _ (dirs_apart slug) Hk); done).
    destruct trashed; [subst r3|destruct Eh as [-> | ->]]; cbn [r_head r_index r_work stage]; by rewrite !lookup_sync_paths, ?Hin, ?Hout, ?lookup_sync_paths, ?Hin. }
  split_and!; [| | |done].
  - intros rest Hr. rewrite Hw3, Hw1, lookup_move_to by done. apply Hsame. apply strip_dir_None_below.
    eapply apart_below; [apply dirs_apart|by apply strip_dir_app].
  - intros k Hk. rewrite Hw3, Hh3, Hw1 by done. by rewrite lookup_move_from by (done || apply dirs_apart).
  - intros k Hf Ht. rewrite Hw3, Hw1, lookup_move_other by done. by apply Hsame.
Qed.

End flows.

(** ** Runs *)

Section runs.
#[local] Existing Instance framed_flow_yaml.
#[local] Existing Instance plain_git.
#[local] Existing Instance plain_git_only.

Definition flow_git (ok : bool) : PlainEnv := MkPlainEnv ok Pushed None.
Definition flow_env (ok : bool) : FlowEnv :=
  MkFlowEnv (lit "20260102T000000Z") (λ _, true) true true (MkOnlyEnv (flow_git true) (flow_git ok) (Some (lit "c1"))) None.

Definition release : str := lit "release".
Definition release_path : str := flow_path (MkFlowSlug release).
Definition no_flows : GDaemon := MkGDaemon (MkRepo ∅ ∅ ∅) [lit "alice"] [] false.
Definition release_tree : tree := {[ release_path := sample_flow_text (lit "Ship it.") ]}.
Definition with_release : GDaemon := MkGDaemon (MkRepo release_tree release_tree release_tree) [lit "alice"] [] false.

(** What the handlers read of the flow, prompt by prompt. *)
Definition prompts_in (t : tree) : option (list (str * str)) :=
  text ← t !! release_path;
  match parse_flow_markdown text with
  | Ok doc => Some (map (λ n, (fn_id n, fn_prompt n)) (fm_nodes (fd_meta doc)))
  | _ => None
  end.

Lemma flows_stay_valid_witness :
  clone_flows_ok (g_repo (handle_flow_create (flow_env true) no_flows no_flows release (lit "Release") [] (lit "alice")).1.1).
Proof.
  set (out := handle_flow_create (flow_env true) no_flows no_flows release (lit "Release") [] (lit "alice")).
  refine (flows_stay_valid no_flows out.1.1 _ _).
  - split_and!; intros slug text H; change ((∅ : tree) !! flow_path (MkFlowSlug slug) = Some text) in H; by rewrite lookup_empty in H.
  - apply rtc_once, (request_create _ (flow_env true) no_flows release (lit "Release") [] (lit "alice") _ out.1.2 out.2). fold out.
    by destruct out as [[? ?] ?].
Defined.

Definition ship_changed : GDaemon * list FlowEffect * res WriteFlowResponse FlowFailure :=
  handle_flow_update_node (flow_env true) with_release with_release release (lit "ship") (lit "Ship now.
") (lit "alice").

Lemma flow_prompt_changed_witness : ship_changed.1.2 = [FlowChanged release; FlowPushNotify].
Proof.
  refine (proj1 (proj2 (flow_prompt_changed (flow_env true) with_release ship_changed.1.1 release (lit "ship") (lit "Ship now.
") (lit "alice") (sample_flow_text (lit "Ship it.")) (sample_flow (lit "Ship it.")) ship_changed.1.2
    (MkWriteFlowResponse release release_path (lit "committed") (lit "c1")) _ _ _ _ _))).
  - by vm_compute.
  - by vm_compute.
  - repeat constructor; try (by vm_compute); apply (bool_decide_unpack _); vm_compute; exact I.
  - split_and!; [by vm_compute|apply (bool_decide_unpack _); vm_compute; exact I..].
  - by vm_compute.
Defined.

Example ship_prompt_stored :
  prompts_in (r_head (g_repo ship_changed.1.1)) = Some [(lit "build", lit "Build it.
Then test it."); (lit "ship", lit "Ship now.")].
Proof. by vm_compute. Qed.

(** Two changes that read the flow before either wrote it: the second undoes the first. *)
Example update_lost :
  let second := handle_flow_update_node (flow_env true) with_release ship_changed.1.1 release (lit "build") (lit "Build.") (lit "alice") in
  is_ok second.2 = true
  ∧ prompts_in (r_head (g_repo second.1.1)) = Some [(lit "build", lit "Build."); (lit "ship", lit "Ship it.")].
Proof. vm_compute. auto. Qed.

(** A prompt with the heading of another node takes that node's prompt over. *)
Example prompt_takes_over :
  let changed := handle_flow_update_node (flow_env true) with_release with_release release (lit "ship") (lit "Ship.
## build
Skip the tests.") (lit "alice") in
  is_ok changed.2 = true
  ∧ prompts_in (r_head (g_repo changed.1.1)) = Some [(lit "build", lit "Skip the tests."); (lit "ship", lit "Ship.")].
Proof. vm_compute. auto. Qed.

(** A removal whose commit fails has moved the flow all the same: asking again is refused,
    and [HEAD] still has it. *)
Example failed_removal_not_undone :
  let env := MkRemoveEnv true true true (flow_git true, flow_git false) None (flow_git true, flow_git true) None in
  let failed := handle_flow_remove env with_release release (lit "alice") in
  failed.2 = Err FlowRemoveCommit
  ∧ (handle_flow_remove env failed.1.1 release (lit "alice")).2 = Err (FlowMissing release)
  ∧ is_some (r_head (g_repo failed.1.1) !! release_path) = true ∧ r_index (g_repo failed.1.1) !! release_path = None.
Proof. vm_compute. auto. Qed.

End runs.
