(* ===== verification/FlowRun.v ===== *)
(** * Flow runs

    The state of a run, its node state machine ([gitim-core/src/flow/run.rs]) and the
    handlers that start, advance and cancel runs ([gitim-daemon/src/flow_run_handlers.rs]).
    The repository is the file map of [Daemon]; every handler returns the events it
    broadcasts.  Files that exist can be read. *)

From S2P Require Import Prelude RustStr StrFacts Names Meta Daemon Flow FlowMarkdown.
From stdpp Require Import options.
Open Scope N_scope.
Open Scope list_scope.

(** ** Data *)

Inductive RunStatus := RunInProgress | RunDone | RunFailed | RunCancelled.
Inductive NodeStatus := NodePending | NodeInProgress | NodeDone | NodeFailed | NodeSkipped.

#[export] Instance RunStatus_eq_dec : EqDecision RunStatus.
Proof. solve_decision. Defined.
#[export] Instance NodeStatus_eq_dec : EqDecision NodeStatus.
Proof. solve_decision. Defined.

Definition RunStatus_is_terminal (s : RunStatus) : bool :=
  match s with RunDone | RunFailed | RunCancelled => true | RunInProgress => false end.

Definition RunStatus_as_str (s : RunStatus) : str :=
  match s with
  | RunInProgress => lit "in_progress"
  | RunDone => lit "done"
  | RunFailed => lit "failed"
  | RunCancelled => lit "cancelled"
  end.

Definition NodeStatus_is_terminal (s : NodeStatus) : bool :=
  match s with NodeDone | NodeFailed | NodeSkipped => true | _ => false end.

Definition NodeStatus_as_str (s : NodeStatus) : str :=
  match s with
  | NodePending => lit "pending"
  | NodeInProgress => lit "in_progress"
  | NodeDone => lit "done"
  | NodeFailed => lit "failed"
  | NodeSkipped => lit "skipped"
  end.

Definition parse_node_status (s : str) : option NodeStatus :=
  if s =?? lit "pending" then Some NodePending
  else if s =?? lit "in_progress" then Some NodeInProgress
  else if s =?? lit "done" then Some NodeDone
  else if s =?? lit "failed" then Some NodeFailed
  else if s =?? lit "skipped" then Some NodeSkipped
  else None.

Record FlowRunNode := MkFlowRunNode {
  rn_id : str;
  rn_status : NodeStatus;
  rn_actor : option str;
  rn_started_at : option str;
  rn_completed_at : option str;
  rn_result_ref : option str;
}.

Record FlowRun := MkFlowRun {
  run_schema_version : N;
  run_run_id : str;
  run_flow_slug : str;
  run_channel : str;
  run_started_at : str;
  run_started_by : str;
  run_status : RunStatus;
  run_nodes : list FlowRunNode;
  run_updated_at : str;
}.

Inductive FlowRunError :=
  | InvalidRunId (e : RunIdError)
  | RunYamlParse
  | RunSchemaVersion (v : N)
  | UnknownNodeId (id : str)
  | InvalidTransition (from to : NodeStatus)
  | RunTerminal (status : RunStatus).

Definition run_path (slug : str) (run_id : RunId) : str :=
  lit "flows/" ++ slug ++ lit "/runs/" ++ run_id_str run_id ++ lit "/state.yaml".

Definition validate_node_transition (from to : NodeStatus) : res unit FlowRunError :=
  if from =?? to then Ok tt
  else
    let allowed :=
      match from with
      | NodePending => match to with NodeInProgress | NodeDone | NodeFailed | NodeSkipped => true | _ => false end
      | NodeInProgress => match to with NodeDone | NodeFailed | NodeSkipped => true | _ => false end
      | NodeDone | NodeFailed | NodeSkipped => false
      end in
    if allowed then Ok tt else Err (InvalidTransition from to).

Inductive RunEvent :=
  | FlowRunStarted (run_id flow_slug channel : str)
  | FlowRunNodeUpdated (run_id node_id status : str)
  | FlowRunCompleted (run_id status : str).

(** What the environment answers: the clock in the two formats used, the random bytes
    of a new id, the file system, git, and the listing of [flows/]: absent,
    unreadable, or its entries in the order [read_dir] gives them. *)
Inductive FlowsDir := FlowsMissing | FlowsUnreadable | FlowsEntries (slugs : list str).

Record RunEnv := MkRunEnv {
  re_now : str;
  re_id_time : str;
  re_hash_bytes : list N;
  re_mkdir_ok : bool;
  re_write_ok : bool;
  re_commit : option str;
  re_flows : FlowsDir;
}.

(** Error responses. *)
Inductive RunResponseError :=
  | RunUserDeparted (author : str)
  | RunInvalidSlug (e : FlowSlugError)
  | RunInvalidChannel (e : ChannelNameError)
  | RunInvalidId (e : RunIdError)
  | RunInvalidStatus (status : str)
  | FlowNotFound (slug : str)
  | FlowTemplateUnparsable (e : FlowError)
  | FlowTemplateInvalid (e : FlowError)
  | RunChannelNotFound (channel : str)
  | RunNotFound (run_id : str)
  | RunListFailed
  | RunUnparsable (e : FlowRunError)
  | RunIsTerminal (status : RunStatus)
  | RunUnknownNode (node_id : str)
  | RunTransition (e : FlowRunError)
  | RunStringify
  | RunMkdir
  | RunWrite
  | RunCommit.

Section runs.
Context `{FY : !FlowYaml} `{YR : !Yaml FlowRun}.

Definition parse_run_state (content : str) : res FlowRun FlowRunError :=
  let? run := ok_or (yaml_from_str content) RunYamlParse in
  try? guard_err (negb (run_schema_version run =? 1)) (RunSchemaVersion (run_schema_version run)) then
  Ok run.

Definition stringify_run_state (run : FlowRun) : res str FlowRunError := ok_or (yaml_to_string run) RunYamlParse.

(** ** Starting a run *)

Definition new_run_node (n : FlowNode) : FlowRunNode := MkFlowRunNode (fn_id n) NodePending None None None None.

Definition new_run (env : RunEnv) (run_id : RunId) (slug channel author : str) (template : FlowDocument) : FlowRun :=
  let nodes := map new_run_node (fm_nodes (fd_meta template)) in
  MkFlowRun 1 (run_id_str run_id) slug channel (re_now env) author
    (if is_empty nodes then RunDone else RunInProgress) nodes (re_now env).

(** Checks and template of [handle_flow_run_start]. *)
Definition prepare_run (d : Daemon) (slug channel author : str)
  : res (FlowSlug * ChannelName * FlowDocument) RunResponseError :=
  try? guard_err (exists_file d (archived_user_meta_path author)) (RunUserDeparted author) then
  let? slug := map_err RunInvalidSlug (FlowSlug_new slug) in
  let? channel := map_err RunInvalidChannel (ChannelName_new channel) in
  let? content := ok_or (d_files d !! flow_path slug) (FlowNotFound (flow_slug_str slug)) in
  let? template := map_err FlowTemplateUnparsable (parse_flow_markdown content) in
  try? map_err FlowTemplateInvalid (validate_flow_document template (flow_slug_str slug)) then
  try? guard_err (negb (exists_file d (channel_meta_path (channel_name_str channel))))
         (RunChannelNotFound (channel_name_str channel)) then
  Ok (slug, channel, template).

(** Writing a state file and committing it: the file stays when the commit fails. *)
Definition write_run (env : RunEnv) (d : Daemon) (path : str) (run : FlowRun) (mkdir : bool)
  : Daemon * res str RunResponseError :=
  match stringify_run_state run with
  | Ok rendered =>
      if mkdir && negb (re_mkdir_ok env) then (d, Err RunMkdir)
      else if negb (re_write_ok env) then (d, Err RunWrite)
      else (write_file path rendered d, ok_or (re_commit env) RunCommit)
  | _ => (d, Err RunStringify)
  end.

Record StartFlowRunResponse := MkStartFlowRunResponse {
  start_run_id : str;
  start_flow_slug : str;
  start_channel : str;
  start_path : str;
  start_commit_id : str;
}.

Definition handle_flow_run_start (env : RunEnv) (d : Daemon) (slug channel author : str)
  : Daemon * list RunEvent * res StartFlowRunResponse RunResponseError :=
  match prepare_run d slug channel author with
  | Err e => (d, [], Err e)
  | Panicked => (d, [], Panicked)
  | Ok (slug, channel, template) =>
      let run_id := RunId_generate (re_id_time env) (re_hash_bytes env) in
      let run := new_run env run_id (flow_slug_str slug) (channel_name_str channel) author template in
      let path := run_path (flow_slug_str slug) run_id in
      let '(d', r) := write_run env d path run true in
      match r with
      | Ok commit_id =>
          (d', FlowRunStarted (run_id_str run_id) (run_flow_slug run) (run_channel run)
               :: (if run_status run =?? RunDone
                   then [FlowRunCompleted (run_id_str run_id) (RunStatus_as_str RunDone)] else []),
           Ok (MkStartFlowRunResponse (run_id_str run_id) (run_flow_slug run) (run_channel run) path commit_id))
      | Err e => (d', [], Err e)
      | Panicked => (d', [], Panicked)
      end
  end.

(** ** Advancing and cancelling *)

(** The first directory of the listing that has the run. *)
Fixpoint find_run_in (d : Daemon) (run_id : RunId) (slugs : list str) : res (str * FlowRun) RunResponseError :=
  match slugs with
  | [] => Err (RunNotFound (run_id_str run_id))
  | slug :: slugs' =>
      match d_files d !! run_path slug run_id with
      | Some content =>
          let? run := map_err RunUnparsable (parse_run_state content) in
          Ok (run_path slug run_id, run)
      | None => find_run_in d run_id slugs'
      end
  end.

Definition find_run (env : RunEnv) (d : Daemon) (run_id : RunId) : res (str * FlowRun) RunResponseError :=
  match re_flows env with
  | FlowsMissing => Err (RunNotFound (run_id_str run_id))
  | FlowsUnreadable => Err RunListFailed
  | FlowsEntries slugs => find_run_in d run_id slugs
  end.

Definition update_node (now : str) (new_status : NodeStatus) (actor result_ref : option str) (node : FlowRunNode)
  : FlowRunNode :=
  let started_at := if (rn_status node =?? NodePending) && (new_status =?? NodeInProgress)
                    then Some now else rn_started_at node in
  let '(started_at, completed_at) :=
    if NodeStatus_is_terminal new_status && is_none (rn_completed_at node)
    then (if is_none started_at then Some now else started_at, Some now)
    else (started_at, rn_completed_at node) in
  MkFlowRunNode (rn_id node) new_status
    (if is_some actor then actor else rn_actor node) started_at completed_at
    (if is_some result_ref then result_ref else rn_result_ref node).

(** The automatic completion. *)
Definition completed_status (nodes : list FlowRunNode) (status : RunStatus) : RunStatus :=
  if forallb (λ n, NodeStatus_is_terminal (rn_status n)) nodes
  then if existsb (λ n, rn_status n =?? NodeFailed) nodes then RunFailed else RunDone
  else status.

Definition set_run (status : RunStatus) (nodes : list FlowRunNode) (now : str) (run : FlowRun) : FlowRun :=
  MkFlowRun (run_schema_version run) (run_run_id run) (run_flow_slug run) (run_channel run) (run_started_at run)
    (run_started_by run) status nodes now.

Fixpoint position {A} (p : A → bool) (l : list A) : option nat :=
  match l with
  | [] => None
  | x :: l' => if p x then Some O else S <$> position p l'
  end.

(** The change [handle_flow_node_set] makes to a run. *)
Definition set_node (now : str) (node_id : str) (new_status : NodeStatus) (actor result_ref : option str)
  (run : FlowRun) : res FlowRun RunResponseError :=
  try? guard_err (RunStatus_is_terminal (run_status run)) (RunIsTerminal (run_status run)) then
  let? node_idx := ok_or (position (λ n, rn_id n =?? node_id) (run_nodes run)) (RunUnknownNode node_id) in
  match run_nodes run !! node_idx with
  | None => Panicked
  | Some node =>
      try? map_err RunTransition (validate_node_transition (rn_status node) new_status) then
      let nodes := <[node_idx := update_node now new_status actor result_ref node]> (run_nodes run) in
      Ok (set_run (completed_status nodes (run_status run)) nodes now run)
  end.

Definition cancel_run (now : str) (run : FlowRun) : res FlowRun RunResponseError :=
  try? guard_err (RunStatus_is_terminal (run_status run)) (RunIsTerminal (run_status run)) then
  Ok (set_run RunCancelled (run_nodes run) now run).

Definition prepare_node_set (env : RunEnv) (d : Daemon) (run_id node_id status_str : str)
  (actor result_ref : option str) (author : str) : res (str * NodeStatus * FlowRun) RunResponseError :=
  try? guard_err (exists_file d (archived_user_meta_path author)) (RunUserDeparted author) then
  let? run_id := map_err RunInvalidId (RunId_new run_id) in
  let? new_status := ok_or (parse_node_status status_str) (RunInvalidStatus status_str) in
  let? found := find_run env d run_id in
  let? run := set_node (re_now env) node_id new_status actor result_ref found.2 in
  Ok (found.1, new_status, run).

Record UpdateFlowNodeResponse := MkUpdateFlowNodeResponse {
  upd_run_id : str;
  upd_node_id : str;
  upd_status : NodeStatus;
  upd_run_status : RunStatus;
  upd_commit_id : str;
}.

Definition handle_flow_node_set (env : RunEnv) (d : Daemon) (run_id node_id status_str : str)
  (actor result_ref : option str) (author : str)
  : Daemon * list RunEvent * res UpdateFlowNodeResponse RunResponseError :=
  match prepare_node_set env d run_id node_id status_str actor result_ref author with
  | Err e => (d, [], Err e)
  | Panicked => (d, [], Panicked)
  | Ok (path, new_status, run) =>
      let '(d', r) := write_run env d path run false in
      match r with
      | Ok commit_id =>
          (d', FlowRunNodeUpdated (run_run_id run) node_id (NodeStatus_as_str new_status)
               :: (if RunStatus_is_terminal (run_status run)
                   then [FlowRunCompleted (run_run_id run) (RunStatus_as_str (run_status run))] else []),
           Ok (MkUpdateFlowNodeResponse (run_run_id run) node_id new_status (run_status run) commit_id))
      | Err e => (d', [], Err e)
      | Panicked => (d', [], Panicked)
      end
  end.

Definition prepare_cancel (env : RunEnv) (d : Daemon) (run_id author : str) : res (str * FlowRun) RunResponseError :=
  try? guard_err (exists_file d (archived_user_meta_path author)) (RunUserDeparted author) then
  let? run_id := map_err RunInvalidId (RunId_new run_id) in
  let? found := find_run env d run_id in
  let? run := cancel_run (re_now env) found.2 in
  Ok (found.1, run).

Definition handle_flow_run_cancel (env : RunEnv) (d : Daemon) (run_id author : str)
  : Daemon * list RunEvent * res (str * str) RunResponseError :=
  match prepare_cancel env d run_id author with
  | Err e => (d, [], Err e)
  | Panicked => (d, [], Panicked)
  | Ok (path, run) =>
      let '(d', r) := write_run env d path run false in
      match r with
      | Ok commit_id => (d', [FlowRunCompleted (run_run_id run) (lit "cancelled")], Ok (run_run_id run, commit_id))
      | Err e => (d', [], Err e)
      | Panicked => (d', [], Panicked)
      end
  end.

Definition handle_flow_run_show (env : RunEnv) (d : Daemon) (run_id : str) : res FlowRun RunResponseError :=
  let? run_id := map_err RunInvalidId (RunId_new run_id) in
  let? found := find_run env d run_id in
  Ok found.2.

(** ** The contract of a run *)

Definition node_times_ok (n : FlowRunNode) : Prop :=
  match rn_status n with
  | NodePending => rn_started_at n = None ∧ rn_completed_at n = None
  | NodeInProgress => rn_started_at n ≠ None ∧ rn_completed_at n = None
  | _ => rn_started_at n ≠ None ∧ rn_completed_at n ≠ None
  end.

Definition all_terminal (nodes : list FlowRunNode) : Prop :=
  Forall (λ n, NodeStatus_is_terminal (rn_status n) = true) nodes.

(** A run is done or failed exactly when all its nodes are finished. *)
Definition run_status_ok (status : RunStatus) (nodes : list FlowRunNode) : Prop :=
  match status with
  | RunInProgress | RunCancelled => ¬ all_terminal nodes
  | RunDone => all_terminal nodes ∧ Forall (λ n, rn_status n ≠ NodeFailed) nodes
  | RunFailed => all_terminal nodes ∧ Exists (λ n, rn_status n = NodeFailed) nodes
  end.

Record run_ok (run : FlowRun) : Prop := {
  ro_version : run_schema_version run = 1;
  ro_ids : NoDup (map rn_id (run_nodes run));
  ro_times : Forall node_times_ok (run_nodes run);
  ro_status : run_status_ok (run_status run) (run_nodes run);
}.

Lemma position_Some {A} (p : A → bool) l i :
  position p l = Some i → ∃ x, l !! i = Some x ∧ p x = true.
Proof.
  revert i. induction l as [|x l IH]; intros i; simpl; [done|]. destruct (p x) eqn:E.
  - intros [= <-]. by exists x.
  - intros (j & Hj & ->)%fmap_Some. by apply IH.
Qed.

Lemma position_unique {A B} `{!EqDecision B} (f : A → B) l i x :
  NoDup (map f l) → l !! i = Some x → position (λ y, f y =?? f x) l = Some i.
Proof.
  revert i. induction l as [|y l IH]; intros i; [done|]. simpl. rewrite NoDup_cons. intros [Hni Hnd] Hi.
  destruct i as [|i]; simplify_eq/=; [by rewrite bool_decide_eq_true_2|].
  rewrite bool_decide_eq_false_2, (IH i); [done|done|done|]. intros Heq. apply Hni. rewrite Heq.
  apply list_elem_of_fmap. exists x. split; [done|]. by eapply list_elem_of_lookup_2.
Qed.

Lemma completed_status_ok nodes status :
  status = RunInProgress → run_status_ok (completed_status nodes status) nodes.
Proof.
  intros ->. unfold completed_status. destruct (forallb _ nodes) eqn:Ht.
  - apply forallb_Forall in Ht. destruct (existsb _ nodes) eqn:Hf; (split; [exact Ht|]).
    + apply existsb_Exists in Hf. eapply Exists_impl; [exact Hf|]. intros n. by rewrite bool_decide_eq_true.
    + apply existsb_false in Hf. eapply Forall_impl; [exact Hf|]. intros n. by rewrite bool_decide_eq_false.
  - simpl. unfold all_terminal. rewrite <-forallb_Forall, Ht. done.
Qed.

Lemma completed_status_terminal nodes :
  RunStatus_is_terminal (completed_status nodes RunInProgress) = true ↔ all_terminal nodes.
Proof.
  unfold completed_status, all_terminal. rewrite <-forallb_Forall.
  destruct (forallb _ nodes); [by destruct (existsb _ nodes)|done].
Qed.

Lemma transition_Ok from to u :
  validate_node_transition from to = Ok u → from = to ∨ NodeStatus_is_terminal from = false ∧ to ≠ NodePending.
Proof. unfold validate_node_transition. destruct from, to; simpl; try done; auto. Qed.

Lemma transition_to_done from :
  NodeStatus_is_terminal from = false → validate_node_transition from NodeDone = Ok tt.
Proof. by destruct from. Qed.

Lemma update_node_times now st actor r n :
  node_times_ok n → (rn_status n = st ∨ NodeStatus_is_terminal (rn_status n) = false ∧ st ≠ NodePending) →
  node_times_ok (update_node now st actor r n).
Proof.
  destruct n as [id status a s c res0]. unfold node_times_ok, update_node. simpl.
  intros Ht [->|[Hnt Hst]].
  - destruct st, s, c; simpl in *; naive_solver.
  - destruct status, st, s, c; simpl in *; naive_solver.
Qed.

Lemma update_node_frame now st actor r n :
  rn_id (update_node now st actor r n) = rn_id n ∧ rn_status (update_node now st actor r n) = st.
Proof. unfold update_node. by destruct (_ && is_none (rn_completed_at n)). Qed.

(** What a successful [set_node] does. *)
Lemma set_node_Ok now node_id st actor r run run' :
  set_node now node_id st actor r run = Ok run' →
  ∃ i n, run_status run = RunInProgress ∧ run_nodes run !! i = Some n ∧ rn_id n = node_id
    ∧ (rn_status n = st ∨ NodeStatus_is_terminal (rn_status n) = false ∧ st ≠ NodePending)
    ∧ run' = (let nodes := <[i := update_node now st actor r n]> (run_nodes run) in
              set_run (completed_status nodes RunInProgress) nodes now run).
Proof.
  unfold set_node. intros H. run_ok H.
  match goal with H : position _ _ = Some ?i |- _ => destruct (position_Some _ _ _ H) as (n & Hn & Hid); exists i, n end.
  apply bool_decide_eq_true in Hid. rewrite Hn in H. run_ok H.
  match goal with H : RunStatus_is_terminal _ = false |- _ => rename H into Hst end.
  assert (run_status run = RunInProgress) as Hrun by by destruct (run_status run).
  rewrite Hrun. split_and!; try done. by eapply transition_Ok.
Qed.

Lemma insert_ids i n n' (l : list FlowRunNode) :
  l !! i = Some n → rn_id n' = rn_id n → map rn_id (<[i := n']> l) = map rn_id l.
Proof.
  intros Hi Hid. change (rn_id <$> <[i := n']> l = rn_id <$> l). rewrite list_fmap_insert, Hid.
  apply list_insert_id. by rewrite list_lookup_fmap, Hi.
Qed.

Lemma set_node_ok now node_id st actor r run run' :
  run_ok run → set_node now node_id st actor r run = Ok run' → run_ok run'.
Proof.
  intros [Hv Hids Ht Hs] (i & n & Hrun & Hi & Hid & Hst & ->)%set_node_Ok. constructor; simpl.
  - done.
  - rewrite (insert_ids i n); [done|done|apply update_node_frame].
  - apply Forall_insert; [done|]. apply update_node_times; [|done]. by eapply Forall_lookup_1.
  - by apply completed_status_ok.
Qed.

Lemma cancel_run_Ok now run run' :
  cancel_run now run = Ok run' →
  run_status run = RunInProgress ∧ run' = set_run RunCancelled (run_nodes run) now run.
Proof.
  unfold cancel_run. intros H. run_ok H. split; [|done]. by destruct (run_status run).
Qed.

Lemma cancel_run_ok now run run' : run_ok run → cancel_run now run = Ok run' → run_ok run'.
Proof.
  intros [Hv Hids Ht Hs] [Hrun ->]%cancel_run_Ok. rewrite Hrun in Hs. by constructor.
Qed.

(** ** Histories of a run *)

Definition run_step (run run' : FlowRun) : Prop :=
  (∃ now node_id st actor r, set_node now node_id st actor r run = Ok run') ∨ (∃ now, cancel_run now run = Ok run').

Definition status_rank (s : NodeStatus) : nat :=
  match s with NodePending => 0 | NodeInProgress => 1 | _ => 2 end.

(** A node only moves towards a terminal status and keeps it. *)
Definition node_advances (n n' : FlowRunNode) : Prop :=
  rn_id n' = rn_id n ∧ (status_rank (rn_status n) ≤ status_rank (rn_status n'))%nat
  ∧ (NodeStatus_is_terminal (rn_status n) = true → rn_status n' = rn_status n).

Definition run_advances (run run' : FlowRun) : Prop :=
  run_run_id run' = run_run_id run ∧ run_flow_slug run' = run_flow_slug run ∧ run_channel run' = run_channel run
  ∧ run_started_at run' = run_started_at run ∧ run_started_by run' = run_started_by run
  ∧ Forall2 node_advances (run_nodes run) (run_nodes run').

#[local] Instance node_advances_preorder : PreOrder node_advances.
Proof.
  split.
  - done.
  - intros n1 n2 n3 (I1 & R1 & T1) (I2 & R2 & T2). split_and!; [congruence|lia|].
    intros Ht. rewrite T2; [by apply T1|]. by rewrite T1.
Qed.

#[local] Instance run_advances_preorder : PreOrder run_advances.
Proof.
  split.
  - intros run. by split_and!.
  - intros r1 r2 r3 (? & ? & ? & ? & ? & ?) (? & ? & ? & ? & ? & ?). split_and!; [congruence..|by etrans].
Qed.

Lemma update_node_advances now st actor r n :
  (rn_status n = st ∨ NodeStatus_is_terminal (rn_status n) = false ∧ st ≠ NodePending) →
  node_advances n (update_node now st actor r n).
Proof.
  intros Hst. destruct (update_node_frame now st actor r n) as [Hid Hs]. unfold node_advances. rewrite Hid, Hs.
  destruct Hst as [->|[Hnt Hst]]; [done|]. split_and!; [done| |by rewrite Hnt].
  destruct (rn_status n), st; simpl in *; (done || lia).
Qed.

Lemma Forall2_insert_r {A} (R : A → A → Prop) `{!Reflexive R} l i x y :
  l !! i = Some x → R x y → Forall2 R l (<[i := y]> l).
Proof.
  intros Hi HR. rewrite <-(list_insert_id l i x Hi) at 1. apply Forall2_insert; [reflexivity|done].
Qed.

Lemma run_step_advances run run' : run_step run run' → run_status run = RunInProgress ∧ run_advances run run'.
Proof.
  intros [(now & nid & st & a & r & (i & n & Hrun & Hi & Hid & Hst & ->)%set_node_Ok)|(now & [Hrun ->]%cancel_run_Ok)];
    (split; [done|]); unfold run_advances; simpl; split_and!; try done.
  eapply Forall2_insert_r; [apply _|done|]. by apply update_node_advances.
Qed.

(** A step that changes some status. *)
Definition status_step (run run' : FlowRun) : Prop :=
  run_step run run'
  ∧ (run_status run' ≠ run_status run ∨ map rn_status (run_nodes run') ≠ map rn_status (run_nodes run)).

(** The measure of progress. *)
Definition progress (run : FlowRun) : nat :=
  sum_list_with (λ n, status_rank (rn_status n)) (run_nodes run)
  + (if RunStatus_is_terminal (run_status run) then 1 else 0).

Lemma progress_bound run : (progress run ≤ 2 * length (run_nodes run) + 1)%nat.
Proof.
  unfold progress.
  assert (sum_list_with (λ n, status_rank (rn_status n)) (run_nodes run) ≤ 2 * length (run_nodes run))%nat.
  { induction (run_nodes run) as [|n l IH]; simpl; [lia|]. destruct (rn_status n); simpl; lia. }
  destruct (RunStatus_is_terminal _); lia.
Qed.

Lemma advances_sum l l' :
  Forall2 node_advances l l' →
  (sum_list_with (λ n, status_rank (rn_status n)) l ≤ sum_list_with (λ n, status_rank (rn_status n)) l')%nat
  ∧ (map rn_status l' ≠ map rn_status l →
     sum_list_with (λ n, status_rank (rn_status n)) l < sum_list_with (λ n, status_rank (rn_status n)) l')%nat.
Proof.
  induction 1 as [|n n' l l' (_ & Hr & Ht) _ [IH1 IH2]]; simpl; [done|]. split; [lia|]. intros Hne.
  destruct (decide (rn_status n' = rn_status n)) as [Heq|Hn].
  { assert (map rn_status l' ≠ map rn_status l) as Hl by congruence. specialize (IH2 Hl). rewrite Heq. lia. }
  assert (status_rank (rn_status n) ≠ status_rank (rn_status n')); [|lia].
  destruct (rn_status n), (rn_status n'); simpl in *; naive_solver.
Qed.

Lemma status_step_progress run run' : status_step run run' → (progress run < progress run')%nat.
Proof.
  intros [[Hrun (_ & _ & _ & _ & _ & Hadv)]%run_step_advances Hne].
  apply advances_sum in Hadv as [Hle Hlt]. unfold progress. rewrite Hrun in *. simpl.
  destruct (RunStatus_is_terminal (run_status run')) eqn:Ht; [lia|].
  destruct Hne as [Hne|Hne]; [by destruct (run_status run')|]. specialize (Hlt Hne). lia.
Qed.

(** While a run is in progress some node can be finished. *)
Lemma open_run_step run : run_ok run → run_status run = RunInProgress → ∃ run', status_step run run'.
Proof.
  intros [Hv Hids Ht Hs] Hrun. rewrite Hrun in Hs. simpl in Hs. unfold all_terminal in Hs.
  apply not_Forall_Exists in Hs; [|intros ?; apply _]. apply Exists_exists in Hs as (n & Hn & Hnt).
  apply list_elem_of_lookup in Hn as [i Hi].
  assert (∃ run', set_node [] (rn_id n) NodeDone None None run = Ok run') as [run' Hset].
  { unfold set_node. rewrite Hrun. simpl. rewrite (position_unique rn_id _ i n) by done. simpl. rewrite Hi.
    rewrite transition_to_done by by apply not_true_is_false. simpl. by eexists. }
  exists run'. split; [left; by do 5 eexists|]. right.
  apply set_node_Ok in Hset as (j & n' & _ & Hj & Hid & Hst & ->). simpl. intros Heq.
  apply (f_equal (.!! j)) in Heq. rewrite !list_lookup_fmap, list_lookup_insert_eq in Heq by by eapply lookup_lt_Some.
  rewrite Hj in Heq. simpl in Heq. injection Heq as Heq.
  destruct (update_node_frame [] NodeDone None None n') as [_ Hs']. rewrite Hs' in Heq.
  assert (n' = n) as -> by (eapply NoDup_map_inj; [exact Hids|by eapply list_elem_of_lookup_2..|done]).
  simpl in Hnt. by rewrite <-Heq in Hnt.
Qed.

Lemma run_step_ok run run' : run_ok run → run_step run run' → run_ok run'.
Proof.
  intros Hok [(now & nid & st & a & r & Hs)|(now & Hs)]; [by eapply set_node_ok|by eapply cancel_run_ok].
Qed.

(** The history of a run.  After [n] updates or a cancellation the run is consistent:
    nodes have the times their status demands, and it is done or failed exactly when
    all nodes are finished; identity and node ids are unchanged, every node has only
    moved towards a terminal status and kept it; a terminal run admits no update. *)
Theorem run_history (run run' : FlowRun) (n : nat)
    (Hok : run_ok run) (Hsteps : nsteps run_step n run run') :
  run_ok run' ∧ run_advances run run' ∧ (RunStatus_is_terminal (run_status run) = true → n = 0%nat ∧ run' = run).
Proof.
  induction Hsteps as [run|n run run1 run' Hstep Hsteps IH]; [done|].
  destruct (run_step_advances _ _ Hstep) as [Hrun Hadv].
  destruct (IH (run_step_ok _ _ Hok Hstep)) as (Hok' & Hadv' & _). split_and!; [done|by etrans|by rewrite Hrun].
Qed.

(** Runs end.  A run with [k] nodes goes through at most [2 k + 1] steps that change a
    status, and from every consistent run a terminal status can be reached. *)
Theorem runs_terminate (run : FlowRun) (Hok : run_ok run) :
  (∀ n run', nsteps status_step n run run' → (n ≤ 2 * length (run_nodes run) + 1)%nat)
  ∧ ∃ n run', nsteps status_step n run run' ∧ RunStatus_is_terminal (run_status run') = true.
Proof.
  assert (∀ n r r', nsteps status_step n r r' → (n + progress r ≤ progress r')%nat
            ∧ length (run_nodes r') = length (run_nodes r)) as Hprog.
  { induction 1 as [r|n r r1 r' Hstep Hsteps [IH IHlen]]; [simpl; lia|].
    pose proof (status_step_progress _ _ Hstep). destruct Hstep as [[_ (_ & _ & _ & _ & _ & Hadv)]%run_step_advances _].
    apply Forall2_length in Hadv. split; [lia|congruence]. }
  split.
  - intros n run' [Hn Hlen]%Hprog. pose proof (progress_bound run'). lia.
  - remember (2 * length (run_nodes run) + 1 - progress run)%nat as k eqn:Hk.
    revert run Hok Hk. induction (lt_wf k) as [k _ IH]. intros run Hok ->.
    destruct (RunStatus_is_terminal (run_status run)) eqn:Hterm; [exists 0%nat, run; by split; [constructor|]|].
    destruct (open_run_step run Hok) as [run1 Hstep]; [by destruct (run_status run)|].
    pose proof (status_step_progress _ _ Hstep). pose proof (progress_bound run1).
    destruct (Hprog 1%nat run run1) as [_ Hlen]; [by apply nsteps_once|].
    destruct (IH (2 * length (run_nodes run1) + 1 - progress run1)%nat) with (run := run1) as (n & run' & Hn & Ht);
      [lia|by eapply run_step_ok, Hstep|done|].
    exists (S n), run'. split; [by econstructor|done].
Qed.

(** ** The stored runs *)

Definition runs_stored_ok (d : Daemon) : Prop :=
  ∀ slug run_id content, d_files d !! run_path slug run_id = Some content →
    ∃ run, parse_run_state content = Ok run ∧ run_ok run.

(** One request of any of the three handlers, in any environment. *)
Inductive flow_step (d : Daemon) : Daemon → Prop :=
  | step_run_start env slug channel author : flow_step d (handle_flow_run_start env d slug channel author).1.1
  | step_node_set env run_id node_id status actor r author :
      flow_step d (handle_flow_node_set env d run_id node_id status actor r author).1.1
  | step_run_cancel env run_id author : flow_step d (handle_flow_run_cancel env d run_id author).1.1.

(** Files that are not run states. *)
Definition other_files_kept (d d' : Daemon) : Prop :=
  ∀ path, (∀ slug run_id, path ≠ run_path slug run_id) → d_files d' !! path = d_files d !! path.

Lemma rendered_parses run rendered :
  run_schema_version run = 1 → stringify_run_state run = Ok rendered → parse_run_state rendered = Ok run.
Proof.
  unfold stringify_run_state, parse_run_state. intros Hv H%ok_or_Ok. rewrite (yaml_roundtrip _ _ H). simpl.
  by rewrite Hv.
Qed.

Lemma write_run_cases env d path run mk d' r :
  write_run env d path run mk = (d', r) →
  (d' = d ∧ ∃ e, r = Err e)
  ∨ ∃ rendered, stringify_run_state run = Ok rendered ∧ d' = write_file path rendered d.
Proof.
  unfold write_run. destruct (stringify_run_state run) as [rendered|e|] eqn:E; [|intros [= <- <-]; eauto..].
  destruct (mk && _); [intros [= <- <-]; eauto|]. destruct (negb _); [intros [= <- <-]; eauto|].
  intros [= <- <-]. eauto.
Qed.

Lemma write_run_stored env d slug run_id run mk d' r :
  runs_stored_ok d → run_ok run → write_run env d (run_path slug run_id) run mk = (d', r) →
  runs_stored_ok d' ∧ other_files_kept d d'.
Proof.
  intros Hd Hok [[-> _]|(rendered & Hr & ->)]%write_run_cases; [done|]. split.
  - intros slug' id' content. simpl. intros [[_ <-]|[_ Hc]]%lookup_insert_Some; [|by eapply Hd].
    exists run. split; [|done]. apply rendered_parses; [apply Hok|done].
  - intros path Hpath. simpl. rewrite lookup_insert_ne; [done|]. intros <-. by eapply Hpath.
Qed.

Lemma find_run_Ok env d run_id path run :
  find_run env d run_id = Ok (path, run) →
  ∃ slug content, path = run_path slug run_id ∧ d_files d !! path = Some content ∧ parse_run_state content = Ok run.
Proof.
  unfold find_run. destruct (re_flows env) as [| |slugs]; try done.
  induction slugs as [|slug slugs IH]; simpl; [done|].
  destruct (d_files d !! run_path slug run_id) as [content|] eqn:E; [|apply IH].
  intros H. run_ok H. by exists slug, content.
Qed.

Lemma find_run_stored env d run_id path run :
  runs_stored_ok d → find_run env d run_id = Ok (path, run) → (∃ slug, path = run_path slug run_id) ∧ run_ok run.
Proof.
  intros Hd (slug & content & -> & Hc & Hp)%find_run_Ok. split; [by eexists|].
  destruct (Hd _ _ _ Hc) as (run' & Hp' & Hok). congruence.
Qed.

Lemma new_run_ok env run_id slug channel author template :
  NoDup (map fn_id (fm_nodes (fd_meta template))) → run_ok (new_run env run_id slug channel author template).
Proof.
  intros Hnd. unfold new_run. set (nodes := fm_nodes (fd_meta template)) in *. constructor; simpl.
  - done.
  - by rewrite map_map.
  - apply Forall_map, Forall_forall. intros n _. done.
  - destruct nodes as [|n nodes']; simpl; [by repeat constructor|]. unfold all_terminal. rewrite Forall_cons. by intros [? _].
Qed.

Lemma prepare_run_nodup d slug channel author r :
  prepare_run d slug channel author = Ok r → NoDup (map fn_id (fm_nodes (fd_meta r.2))).
Proof.
  unfold prepare_run. intros H. run_ok H.
  match goal with H : validate_flow_document _ _ = Ok _ |- _ => by apply validate_flow_nodup in H end.
Qed.

Lemma flow_step_stored d d' : runs_stored_ok d → flow_step d d' → runs_stored_ok d' ∧ other_files_kept d d'.
Proof.
  intros Hd [env slug channel author|env rid nid st a r author|env rid author].
  - unfold handle_flow_run_start. destruct (prepare_run d slug channel author) as [[[s c] t]|e|] eqn:Hp; [|done..].
    apply prepare_run_nodup in Hp. simpl in Hp.
    destruct (write_run _ _ _ _ _) as [d1 r] eqn:Hw. apply write_run_stored in Hw; [|done|by apply new_run_ok].
    by destruct r.
  - unfold handle_flow_node_set. destruct (prepare_node_set _ _ _ _ _ _ _ _) as [[[p s] run']|e|] eqn:Hp; [|done..].
    unfold prepare_node_set in Hp. run_ok Hp.
    match goal with H : find_run _ _ _ = Ok ?x |- _ => destruct x as [p run]; apply find_run_stored in H as [[slug ->] Hok]; [|done] end.
    match goal with H : set_node _ _ _ _ _ _ = Ok _ |- _ => apply set_node_ok in H; [|done] end.
    destruct (write_run _ _ _ _ _) as [d1 r1] eqn:Hw. apply write_run_stored in Hw; [|done..]. by destruct r1.
  - unfold handle_flow_run_cancel. destruct (prepare_cancel _ _ _ _) as [[p run']|e|] eqn:Hp; [|done..].
    unfold prepare_cancel in Hp. run_ok Hp.
    match goal with H : find_run _ _ _ = Ok ?x |- _ => destruct x as [p run]; apply find_run_stored in H as [[slug ->] Hok]; [|done] end.
    match goal with H : cancel_run _ _ = Ok _ |- _ => apply cancel_run_ok in H; [|done] end.
    destruct (write_run _ _ _ _ _) as [d1 r1] eqn:Hw. apply write_run_stored in Hw; [|done..]. by destruct r1.
Qed.

(** C37: run files stay consistent.  Whatever sequence of start, node and cancel requests
    is served, in whatever environment (also failing writes and commits), every
    stored run state parses and is a consistent run, and no other file changes. *)
Theorem stored_runs_consistent (d d' : Daemon)
    (Hstart : runs_stored_ok d) (Hserved : rtc flow_step d d') :
  runs_stored_ok d' ∧ other_files_kept d d'.
Proof.
  induction Hserved as [d|d d1 d' Hstep _ IH]; [done|].
  destruct (flow_step_stored _ _ Hstart Hstep) as [Hok Hkept]. destruct (IH Hok) as [Hok' Hkept'].
  split; [done|]. intros path Hpath. by rewrite Hkept', Hkept.
Qed.

(** A node update does what it says.  When [handle_flow_node_set] succeeds, the run
    it found was in progress; exactly the named node has changed, to the requested
    status; the response carries the new run status, which is terminal exactly when
    all nodes are finished, and exactly then the completion is broadcast. *)
Theorem node_set_effect (env : RunEnv) (d d' : Daemon) (run_id node_id status : str) (actor r : option str)
    (author : str) (events : list RunEvent) (resp : UpdateFlowNodeResponse)
    (Hstored : runs_stored_ok d)
    (Hcall : handle_flow_node_set env d run_id node_id status actor r author = (d', events, Ok resp)) :
  ∃ path content run run' i n n',
    d_files d !! path = Some content ∧ parse_run_state content = Ok run ∧ run_status run = RunInProgress
    ∧ run_nodes run !! i = Some n ∧ rn_id n = node_id
    ∧ parse_node_status status = Some (rn_status n') ∧ rn_id n' = node_id
    ∧ run_nodes run' = <[i := n']> (run_nodes run) ∧ run_advances run run'
    ∧ (∃ content', d' = write_file path content' d ∧ parse_run_state content' = Ok run')
    ∧ upd_run_status resp = run_status run'
    ∧ (RunStatus_is_terminal (run_status run') = true ↔ all_terminal (run_nodes run'))
    ∧ (FlowRunCompleted (run_run_id run') (RunStatus_as_str (run_status run')) ∈ events ↔ all_terminal (run_nodes run')).
Proof.
  unfold handle_flow_node_set in Hcall.
  destruct (prepare_node_set _ _ _ _ _ _ _ _) as [[[p s] run']|e|] eqn:Hp; [|done..].
  unfold prepare_node_set in Hp. run_ok Hp.
  match goal with H : find_run _ _ _ = Ok ?x |- _ => destruct x as [p run]; rename H into Hfind end.
  destruct (find_run_stored _ _ _ _ _ Hstored Hfind) as [_ Hok].
  match goal with H : set_node _ _ _ _ _ _ = Ok _ |- _ => rename H into Hset end. simpl in Hset.
  pose proof (set_node_ok _ _ _ _ _ _ _ Hok Hset) as Hok'.
  assert (run_step run run') as [_ Hadv]%run_step_advances by (left; by do 5 eexists).
  apply find_run_Ok in Hfind as (slug & content & -> & Hc & Hparse).
  apply set_node_Ok in Hset as (i & n & Hrun & Hi & Hid & Hst & Heq).
  destruct (write_run _ _ _ _ _) as [d1 r1] eqn:Hw. destruct r1 as [commit| |]; simplify_eq/=.
  apply write_run_cases in Hw as [[_ [e ?]]|(rendered & Hr & ->)]; [done|].
  destruct (update_node_frame (re_now env) s actor r n) as [Hid' Hs'].
  set (nodes := <[i := update_node (re_now env) s actor r n]> (run_nodes run)) in *.
  pose proof (completed_status_terminal nodes) as Hterm.
  exists (run_path slug v0), content, run, (set_run (completed_status nodes RunInProgress) nodes (re_now env) run), i, n,
    (update_node (re_now env) s actor r n). rewrite Hs', Hid'. simpl.
  split_and!; [exact Hc|done..|exact Hadv| |done|exact Hterm|].
  - exists rendered. split; [done|]. apply rendered_parses; [apply Hok'|done].
  - rewrite <-Hterm, elem_of_cons. destruct (RunStatus_is_terminal _); set_solver.
Qed.
End runs.

(** ** Runs of the handlers *)

Definition run_node_fields (n : FlowRunNode) : list (list str) :=
  [[rn_id n; NodeStatus_as_str (rn_status n)]; option_list (rn_actor n); option_list (rn_started_at n);
   option_list (rn_completed_at n); option_list (rn_result_ref n)].

Fixpoint build_run_nodes (fs : list (list str)) : option (list FlowRunNode) :=
  match fs with
  | [id; st] :: a :: s :: c :: r :: fs' =>
      st ← parse_node_status st;
      cons (MkFlowRunNode id st (head a) (head s) (head c) (head r)) <$> build_run_nodes fs'
  | [] => Some []
  | _ => None
  end.

Definition parse_run_status (s : str) : RunStatus :=
  if s =?? lit "done" then RunDone else if s =?? lit "failed" then RunFailed
  else if s =?? lit "cancelled" then RunCancelled else RunInProgress.

Lemma build_run_nodes_fields nodes : build_run_nodes (concat (map run_node_fields nodes)) = Some nodes.
Proof. induction nodes as [|[id [] [] [] [] []] nodes IH]; [done|..]; simpl; by rewrite IH. Qed.

Definition flow_run_yaml : Yaml FlowRun.
Proof.
  refine (fields_yaml (λ m, [[[run_schema_version m]; run_run_id m; run_flow_slug m; run_channel m; run_started_at m;
                              run_started_by m; RunStatus_as_str (run_status m); run_updated_at m]]
                            ++ concat (map run_node_fields (run_nodes m)))
            (λ fs, match fs with
                   | [[v]; a; b; c; e; f; st; u] :: fs' =>
                       (λ nodes, MkFlowRun v a b c e f (parse_run_status st) nodes u) <$> build_run_nodes fs'
                   | _ => None
                   end) _).
  intros [v a b c e f [] nodes u]; simpl; by rewrite build_run_nodes_fields.
Defined.

Section samples.
#[local] Existing Instance framed_flow_yaml.
#[local] Existing Instance flow_run_yaml.

Definition run_env (now : str) : RunEnv :=
  MkRunEnv now (lit "20260101T000000") [1; 2; 3] true true (Some (lit "abc123")) (FlowsEntries [lit "other"; lit "release"]).

Definition flow_repo : Daemon :=
  MkDaemon {[ flow_path (MkFlowSlug (lit "release")) := sample_flow_text (lit "Ship it.");
              channel_meta_path (lit "ops") := lit "meta" ]} [lit "alice"; lit "bob"] [].

Definition flow_started : Daemon :=
  (handle_flow_run_start (run_env (lit "t1")) flow_repo (lit "release") (lit "ops") (lit "alice")).1.1.

Definition started_id : str := lit "20260101T000000-010203".

Definition set_build (d : Daemon) :=
  handle_flow_node_set (run_env (lit "t2")) d started_id (lit "build") (lit "done") (Some (lit "bob")) None (lit "bob").

Definition started_run : FlowRun :=
  new_run (run_env (lit "t1")) (MkRunId started_id) (lit "release") (lit "ops") (lit "alice")
    (sample_flow (lit "Ship it.")).

Lemma flow_repo_stored : runs_stored_ok flow_repo.
Proof.
  intros slug run_id content Hc. exfalso. unfold flow_repo in Hc. simpl in Hc.
  apply lookup_insert_Some in Hc as [[Hp _]|[_ Hc]].
  - apply (f_equal last) in Hp. unfold run_path in Hp. rewrite !app_assoc, last_app in Hp. done.
  - apply lookup_singleton_Some in Hc as [Hp _]. done.
Qed.

Lemma flow_started_stored : runs_stored_ok flow_started.
Proof. apply (flow_step_stored flow_repo); [exact flow_repo_stored|constructor]. Qed.

Lemma started_run_ok : run_ok started_run.
Proof. apply new_run_ok. apply (bool_decide_unpack _). vm_compute. exact I. Qed.

Lemma stored_runs_consistent_witness :
  runs_stored_ok (set_build flow_started).1.1.
Proof.
  refine (proj1 (stored_runs_consistent flow_repo _ flow_repo_stored _)).
  eapply rtc_l; [apply (step_run_start _ (run_env (lit "t1")) (lit "release") (lit "ops") (lit "alice"))|].
  apply rtc_once. exact (step_node_set flow_started (run_env (lit "t2")) started_id (lit "build") (lit "done")
                           (Some (lit "bob")) None (lit "bob")).
Defined.

Lemma run_history_witness :
  ∃ run', set_node (lit "t2") (lit "build") NodeDone None None started_run = Ok run' ∧ run_ok run'.
Proof.
  eexists. assert (set_node (lit "t2") (lit "build") NodeDone None None started_run = Ok _) as Hset
    by (vm_compute; reflexivity).
  split; [exact Hset|]. refine (proj1 (run_history started_run _ 1 started_run_ok _)).
  apply nsteps_once. left. do 5 eexists. exact Hset.
Defined.

Lemma runs_terminate_witness :
  ∃ n run', nsteps status_step n started_run run' ∧ RunStatus_is_terminal (run_status run') = true.
Proof. exact (proj2 (runs_terminate started_run started_run_ok)). Defined.

Definition build_response : UpdateFlowNodeResponse :=
  MkUpdateFlowNodeResponse started_id (lit "build") NodeDone RunInProgress (lit "abc123").

Lemma set_build_response :
  (set_build flow_started).1.2 = [FlowRunNodeUpdated started_id (lit "build") (lit "done")]
  ∧ (set_build flow_started).2 = Ok build_response.
Proof. split; vm_compute; reflexivity. Qed.

Lemma set_build_run :
  set_build flow_started = ((set_build flow_started).1.1, (set_build flow_started).1.2, Ok build_response).
Proof. rewrite <-(proj2 set_build_response). by destruct (set_build flow_started) as [[??]?]. Qed.

Lemma node_set_effect_witness :
  ∃ path content run, d_files flow_started !! path = Some content ∧ parse_run_state content = Ok run
    ∧ run_status run = RunInProgress.
Proof.
  destruct (node_set_effect _ _ _ _ _ _ _ _ _ _ _ flow_started_stored set_build_run)
    as (path & content & run & _ & _ & _ & _ & Hc & Hp & Hs & _).
  exists path, content, run. split; [exact Hc|]. split; [exact Hp|exact Hs].
Defined.
End samples.
