(* ===== verification/Timer.v ===== *)
(** * One-shot timers

    The per-agent timer file ([gitim-core/src/timer.rs]): registering, cancelling and
    popping timers under the file lock, with the failures of the file system as
    outcomes.  Times are nanoseconds. *)

From S2P Require Import Prelude RustStr StrFacts Names Meta.
From stdpp Require Import options.
Open Scope N_scope.
Open Scope list_scope.

Definition MIN_DURATION_SECS : Z := 10.
Definition MAX_DURATION_SECS : Z := 24 * 60 * 60.
Definition MAX_PENDING_PER_AGENT : nat := 3.

Inductive TimerError :=
  | TimerIo
  | TimerJson
  | InvalidDuration (input : str)
  | EmptyAnchor
  | CapReached
  | NoMatch (prefix : str)
  | AmbiguousPrefix (prefix : str) (count : N) (ids : str)
  | NotInClone
  | TimerRandom.

Record Timer := MkTimer {
  t_id : str;
  t_fire_at : Z;
  t_created_at : Z;
  t_anchor : str;
  t_note : option str;
}.

Record TimersFile := MkTimersFile {
  tf_version : N;
  tf_timers : list Timer;
}.

Definition TimersFile_empty : TimersFile := MkTimersFile 1 [].

(** [serde_json] on the timer file. *)
Class TimersJson := {
  timers_to_json : TimersFile → option (list N);
  timers_from_json : list N → option TimersFile;
  timers_json_roundtrip : ∀ f t, timers_to_json f = Some t → timers_from_json t = Some f;
}.

(** The [humantime] crate: whole seconds of a parsed duration, which are a [u64], and
    the text of a duration. *)
Class Humantime := {
  humantime_parse : str → option N;
  humantime_format : N → str;
  humantime_parse_u64 : ∀ s n, humantime_parse s = Some n → n ≤ u64_MAX;
}.

(** The clone: whether [.gitim/] is a directory, and the bytes of [timers.json]. *)
Record Clone := MkClone {
  c_gitim_dir : bool;
  c_timers : option (list N);
}.

(** What one call meets: the clock, its text, the random bytes, and whether locking,
    reading, and staging and renaming succeed. *)
Record TimerEnv := MkTimerEnv {
  te_now : Z;
  te_timestamp : str;
  te_random : option (list N);
  te_lock_ok : bool;
  te_read_ok : bool;
  te_write_ok : bool;
}.

(** ** Pure parts *)

Definition new_id (env : TimerEnv) : res str TimerError :=
  let? hash_bytes := ok_or (te_random env) TimerRandom in
  Ok (te_timestamp env ++ lit "-" ++ hex_encode hash_bytes).

(** [DateTime<Utc>] reaches from the first day of the year -262143 to the last of the year
    262142; [now + duration] panics outside. *)
Definition DATETIME_MIN : Z := -8334601228800 * 1000000000.
Definition DATETIME_MAX : Z := 8210266876799 * 1000000000 + 999999999.
Definition in_datetime (t : Z) : bool := (DATETIME_MIN <=? t)%Z && (t <=? DATETIME_MAX)%Z.

Definition Timer_new (env : TimerEnv) (duration : Z) (anchor : str) (note : option str) : res Timer TimerError :=
  let trimmed := trim anchor in
  try? guard_err (is_empty trimmed) EmptyAnchor then
  let? id := new_id env in
  if negb (in_datetime (te_now env + duration)) then Panicked
  else Ok (MkTimer id (te_now env + duration)%Z (te_now env) trimmed note).

(** [Vec::remove(i)]. *)
Fixpoint remove_at {A} (i : nat) (l : list A) : list A :=
  match l, i with
  | [], _ => []
  | _ :: l', O => l'
  | x :: l', S i' => x :: remove_at i' l'
  end.

Fixpoint matching_from (i : nat) (prefix : str) (timers : list Timer) : list nat :=
  match timers with
  | [] => []
  | t :: timers' => if contains (t_id t) prefix then i :: matching_from (S i) prefix timers'
                    else matching_from (S i) prefix timers'
  end.

Definition cancel_by_id_or_prefix (timers : list Timer) (prefix : str) : list Timer * res str TimerError :=
  let matches := matching_from 0 prefix timers in
  match matches with
  | [] => (timers, Err (NoMatch prefix))
  | [idx] => match timers !! idx with
             | Some t => (remove_at idx timers, Ok (t_id t))
             | None => (timers, Panicked)
             end
  | _ => (timers, Err (AmbiguousPrefix prefix (N.of_nat (length matches))
                         (join (lit ", ") (map t_id (omap (λ i, timers !! i) matches)))))
  end.

Definition partition_fired (timers : list Timer) (now : Z) : list Timer * list Timer :=
  let sorted := sort_by_key (λ a b, (t_fire_at a <=? t_fire_at b)%Z) timers in
  fold_left (λ acc t, if (t_fire_at t <=? now)%Z then (acc.1 ++ [t], acc.2) else (acc.1, acc.2 ++ [t])) sorted ([], []).

(** ** The file *)

Section timers.
Context `{TJ : !TimersJson} `{HT : !Humantime}.

Definition read_timers (env : TimerEnv) (c : Clone) : res TimersFile TimerError :=
  match c_timers c with
  | None => Ok TimersFile_empty
  | Some bytes =>
      if negb (te_read_ok env) then Err TimerIo
      else match timers_from_json bytes with
           | Some f => if tf_version f =? 1 then Ok f else Ok TimersFile_empty
           | None => Ok TimersFile_empty
           end
  end.

Definition write_timers (env : TimerEnv) (c : Clone) (file : TimersFile) : Clone * res unit TimerError :=
  if negb (c_gitim_dir c) then (c, Err NotInClone)
  else match timers_to_json file with
       | None => (c, Err TimerJson)
       | Some json => if te_write_ok env then (MkClone true (Some json), Ok tt) else (c, Err TimerIo)
       end.

Definition with_timers_lock {T} (env : TimerEnv) (c : Clone) (f : Clone → Clone * res T TimerError)
  : Clone * res T TimerError :=
  if negb (c_gitim_dir c) then (c, Err NotInClone)
  else if negb (te_lock_ok env) then (c, Err TimerIo)
  else f c.

Definition pop_fired_timers (env : TimerEnv) (c : Clone) (now : Z) : Clone * res (list Timer) TimerError :=
  with_timers_lock env c (λ c,
    match read_timers env c with
    | Ok current =>
        let '(fired, pending) := partition_fired (tf_timers current) now in
        if is_empty fired then (c, Ok [])
        else let '(c', r) := write_timers env c (MkTimersFile 1 pending) in
             (c', try? r then Ok fired)
    | Err e => (c, Err e)
    | Panicked => (c, Panicked)
    end).

(** [iter().map(..).min()]. *)
Definition peek_next_due (env : TimerEnv) (c : Clone) : res (option Z) TimerError :=
  let? f := read_timers env c in
  Ok (fold_left (λ acc t, Some (match acc with Some a => Z.min a (t_fire_at t) | None => t_fire_at t end))
        (tf_timers f) None).

Definition register_timer (env : TimerEnv) (c : Clone) (duration : Z) (anchor : str) (note : option str)
  : Clone * res Timer TimerError :=
  with_timers_lock env c (λ c,
    match (let? current := read_timers env c in
           try? guard_err (MAX_PENDING_PER_AGENT <=? length (tf_timers current))%nat CapReached then
           let? timer := Timer_new env duration anchor note in
           Ok (current, timer)) with
    | Ok (current, timer) =>
        let '(c', r) := write_timers env c (MkTimersFile (tf_version current) (tf_timers current ++ [timer])) in
        (c', try? r then Ok timer)
    | Err e => (c, Err e)
    | Panicked => (c, Panicked)
    end).

Definition cancel_timer (env : TimerEnv) (c : Clone) (id_or_prefix : str) : Clone * res str TimerError :=
  with_timers_lock env c (λ c,
    match read_timers env c with
    | Ok current =>
        let '(timers, r) := cancel_by_id_or_prefix (tf_timers current) id_or_prefix in
        match r with
        | Ok cancelled =>
            let '(c', w) := write_timers env c (MkTimersFile (tf_version current) timers) in
            (c', try? w then Ok cancelled)
        | Err e => (c, Err e)
        | Panicked => (c, Panicked)
        end
    | Err e => (c, Err e)
    | Panicked => (c, Panicked)
    end).

(** ** Prompt and duration texts *)

(** [split_whitespace]. *)
Fixpoint split_whitespace_from (word : str) (s : str) : list str :=
  match s with
  | [] => if is_empty word then [] else [word]
  | c :: s' => if is_whitespace c
               then (if is_empty word then [] else [word]) ++ split_whitespace_from [] s'
               else split_whitespace_from (word ++ [c]) s'
  end.

Definition split_whitespace (s : str) : list str := split_whitespace_from [] s.

Definition prompt_item (now : Z) (i : N) (t : Timer) : str :=
  let elapsed := Z.to_N (Z.max ((now - t_created_at t) ÷ 1000000000) 0) in
  let ago_trimmed := join (lit " ") (take 2 (split_whitespace (humantime_format elapsed))) in
  fmt_N (i + 1) ++ lit ". Set " ++ ago_trimmed ++ lit " ago" ++ [nl]
  ++ lit "   anchor: " ++ t_anchor t ++ [nl]
  ++ match t_note t with Some note => lit "   note: " ++ note ++ [nl] | None => [] end
  ++ [nl].

Definition format_fired_for_prompt (timers : list Timer) (now : Z) : str :=
  if is_empty timers then []
  else lit "## ⏰ Timer reminder(s) fired

" ++ concat (map (λ p, prompt_item now p.1 p.2) (enumerate_from 0 timers))
  ++ lit "Use the `gitim` CLI to fetch context at the anchor(s) above.
".

(** [x as i64] for a [u64]. *)
Definition as_i64 (n : N) : Z := if n <? 2 ^ 63 then Z.of_N n else (Z.of_N n - 2 ^ 64)%Z.

Definition parse_duration (s : str) : res Z TimerError :=
  try? guard_err (existsb is_whitespace s) (InvalidDuration s) then
  let? std_secs := ok_or (humantime_parse s) (InvalidDuration s) in
  let secs := as_i64 std_secs in
  try? guard_err (negb ((MIN_DURATION_SECS <=? secs)%Z && (secs <=? MAX_DURATION_SECS)%Z)) (InvalidDuration s) then
  Ok (secs * 1000000000)%Z.

(** [find_clone_root] on the components of an absolute path, the last one first;
    [is_clone] says which directories contain [.gitim/]. *)
Fixpoint find_clone_root (is_clone : list str → bool) (current : list str) : res (list str) TimerError :=
  if is_clone current then Ok current
  else match current with
       | _ :: parent => find_clone_root is_clone parent
       | [] => Err NotInClone
       end.

(** ** The stored timers *)

(** What a reader of the file sees. *)
Definition pending (c : Clone) : list Timer :=
  match c_timers c with
  | Some bytes => match timers_from_json bytes with
                  | Some f => if tf_version f =? 1 then tf_timers f else []
                  | None => []
                  end
  | None => []
  end.

Lemma read_timers_Ok env c f : read_timers env c = Ok f → tf_timers f = pending c ∧ tf_version f = 1.
Proof.
  unfold read_timers, pending. destruct (c_timers c) as [bytes|]; [|by intros [= <-]].
  destruct (negb _); [done|]. destruct (timers_from_json bytes) as [g|]; [|by intros [= <-]].
  destruct (N.eqb_spec (tf_version g) 1); by intros [= <-].
Qed.

Lemma write_timers_cases env c file c' r :
  write_timers env c file = (c', r) →
  (c' = c ∧ ∃ e, r = Err e) ∨ (r = Ok tt ∧ (tf_version file = 1 → pending c' = tf_timers file)).
Proof.
  unfold write_timers. destruct (negb _); [intros [= <- <-]; eauto|].
  destruct (timers_to_json file) as [json|] eqn:E; [|intros [= <- <-]; eauto].
  destruct (te_write_ok env); intros [= <- <-]; [right|eauto]. split; [done|]. intros Hv.
  unfold pending. simpl. rewrite (timers_json_roundtrip _ _ E). by rewrite Hv.
Qed.

Lemma with_timers_lock_cases {T} env c (f : Clone → Clone * res T TimerError) c' r :
  with_timers_lock env c f = (c', r) → (c' = c ∧ ∃ e, r = Err e) ∨ f c = (c', r).
Proof. unfold with_timers_lock. destruct (negb _); [|destruct (negb _)]; try intros [= <- <-]; eauto. Qed.

Definition due (now : Z) (t : Timer) : Prop := (t_fire_at t ≤ now)%Z.
#[local] Instance due_dec now t : Decision (due now t).
Proof. unfold due. apply _. Defined.

Definition by_fire_at (timers : list Timer) : list Timer :=
  sort_by_key (λ a b, (t_fire_at a <=? t_fire_at b)%Z) timers.

(** The loop splits the sorted list in two. *)
Lemma partition_fired_filter timers now :
  partition_fired timers now = (filter (due now) (by_fire_at timers), filter (λ t, ¬ due now t) (by_fire_at timers)).
Proof.
  unfold partition_fired. fold (by_fire_at timers). generalize (by_fire_at timers). intros l.
  assert (∀ a b, fold_left (λ acc t, if (t_fire_at t <=? now)%Z then (acc.1 ++ [t], acc.2) else (acc.1, acc.2 ++ [t])) l (a, b)
                 = (a ++ filter (due now) l, b ++ filter (λ t, ¬ due now t) l)) as H; [|by rewrite H].
  induction l as [|t l IH]; intros a b; simpl; [by rewrite !app_nil_r|].
  destruct (Z.leb_spec (t_fire_at t) now) as [Ht|Ht]; rewrite IH; simpl.
  - rewrite (filter_cons_True (due now)), (filter_cons_False (λ t, ¬ due now t)) by (unfold due; lia || (intros Hn; apply Hn; unfold due; lia)).
    by rewrite <-app_assoc.
  - rewrite (filter_cons_False (due now)), (filter_cons_True (λ t, ¬ due now t)) by (unfold due; lia).
    by rewrite <-app_assoc.
Qed.

Definition fires_before (a b : Timer) : Prop := (t_fire_at a ≤ t_fire_at b)%Z.

Lemma by_fire_at_sorted timers : StronglySorted fires_before (by_fire_at timers).
Proof.
  assert (StronglySorted (λ a b, (t_fire_at a <=? t_fire_at b)%Z = true) (by_fire_at timers)) as H.
  { apply sort_by_key_sorted; intros *; lia. }
  induction H as [|t l _ IH Ht]; constructor; [done|]. eapply Forall_impl; [exact Ht|].
  unfold fires_before. simpl. intros; lia.
Qed.

Lemma filter_sorted {A} (R : A → A → Prop) (P : A → Prop) `{!∀ x, Decision (P x)} l :
  StronglySorted R l → StronglySorted R (filter P l).
Proof.
  induction 1 as [|x l _ IH Hx]; [constructor|]. rewrite filter_cons. case_decide; [|done].
  constructor; [done|]. rewrite Forall_forall in Hx |- *. intros y [_ Hy]%list_elem_of_filter. by apply Hx.
Qed.

Lemma filter_split {A} (P : A → Prop) `{!∀ x, Decision (P x)} (l : list A) :
  filter P l ++ filter (λ x, ¬ P x) l ≡ₚ l.
Proof.
  induction l as [|x l IH]; [done|]. rewrite !filter_cons. destruct (decide (P x)), (decide (¬ P x)); try done; simpl.
  - by rewrite IH.
  - by rewrite <-Permutation_middle, IH.
Qed.

(** What a successful pop returns and leaves. *)
Lemma pop_Ok env c now c' fired :
  pop_fired_timers env c now = (c', Ok fired) →
  fired = filter (due now) (by_fire_at (pending c))
  ∧ (pending c' = filter (λ t, ¬ due now t) (by_fire_at (pending c)) ∨ fired = [] ∧ c' = c).
Proof.
  unfold pop_fired_timers. intros [[_ [e ?]]|Hf]%with_timers_lock_cases; [done|]. revert Hf.
  destruct (read_timers env c) as [f|e|] eqn:Hr; [|done..]. apply read_timers_Ok in Hr as [-> Hv].
  rewrite partition_fired_filter. destruct (filter (due now) _) as [|t l] eqn:Hd; simpl; [intros [= <- <-]; auto|].
  destruct (write_timers _ _ _) as [c1 r] eqn:Hw. intros [= <- Hrun].
  apply write_timers_cases in Hw as [[_ [e ->]]|[-> Hp]]; [done|]. simpl in Hrun. simplify_eq.
  split; [done|]. left. by apply Hp.
Qed.

Lemma pop_failed env c now c' r :
  pop_fired_timers env c now = (c', r) → (∃ fired, r = Ok fired) ∨ c' = c.
Proof.
  unfold pop_fired_timers. intros [[-> _]|Hf]%with_timers_lock_cases; [by right|]. revert Hf.
  destruct (read_timers env c); [|intros [= <- _]; by right..]. destruct (partition_fired _ _) as [fd pd].
  destruct (is_empty fd); [intros [= <- _]; by right|]. destruct (write_timers _ _ _) as [c1 w] eqn:Hw.
  intros [= <- <-]. apply write_timers_cases in Hw as [[-> _]|[-> _]]; [by right|left; by eexists].
Qed.

Lemma pop_pending env c now c' fired :
  pop_fired_timers env c now = (c', Ok fired) →
  (∀ t, t ∈ pending c' ↔ t ∈ pending c ∧ ¬ due now t) ∧ fired ++ pending c' ≡ₚ pending c.
Proof.
  intros [Hf Hp]%pop_Ok. assert (by_fire_at (pending c) ≡ₚ pending c) as Hperm by apply sort_by_key_perm.
  destruct Hp as [Hp|[Hnil ->]].
  - rewrite Hp, Hf. split; [|by rewrite filter_split]. intros t. rewrite list_elem_of_filter, Hperm. tauto.
  - subst fired. split; [|by rewrite Hnil]. intros t. split; [|tauto]. intros Ht. split; [done|]. intros Hdue.
    apply (not_elem_of_nil t). rewrite <-Hnil. apply list_elem_of_filter. by rewrite Hperm.
Qed.

(** Popping fires every due timer once and keeps the rest.  A pop that succeeds at
    time [now] returns exactly the pending timers with [fire_at <= now], earliest
    first; what stays in the file is exactly the others; a second pop at a time not
    later returns nothing.  A pop that fails leaves the file as it was. *)
Theorem pop_fires_due_once (env : TimerEnv) (c c' : Clone) (now : Z) (r : res (list Timer) TimerError)
    (Hpop : pop_fired_timers env c now = (c', r)) :
  match r with
  | Ok fired =>
      StronglySorted fires_before fired ∧ (∀ t, t ∈ fired ↔ t ∈ pending c ∧ due now t)
      ∧ fired ++ pending c' ≡ₚ pending c ∧ (∀ t, t ∈ pending c' ↔ t ∈ pending c ∧ ¬ due now t)
      ∧ (∀ env' now' c'' fired', (now' ≤ now)%Z → pop_fired_timers env' c' now' = (c'', Ok fired') → fired' = [])
  | _ => c' = c
  end.
Proof.
  destruct (pop_failed _ _ _ _ _ Hpop) as [[fired ->]|Hsame]; [|destruct r; [|done..]].
  all: destruct (pop_pending _ _ _ _ _ Hpop) as [Hrest Hperm]; destruct (pop_Ok _ _ _ _ _ Hpop) as [Hf _].
  all: assert (by_fire_at (pending c) ≡ₚ pending c) as Hsort by apply sort_by_key_perm.
  all: split_and!; [rewrite Hf; apply filter_sorted, by_fire_at_sorted| |exact Hperm|exact Hrest|].
  all: try by (intros t; rewrite Hf, list_elem_of_filter, Hsort; tauto).
  all: intros env' now' c'' fired' Hle [Hf' _]%pop_Ok; rewrite Hf'; apply filter_none, Forall_forall;
    intros t Ht Hdue; unfold by_fire_at in Ht; rewrite sort_by_key_perm in Ht; apply Hrest in Ht as [_ Ht];
    apply Ht; unfold due in *; lia.
Qed.

(** ** Nothing is lost *)

Inductive TimerOp :=
  | OpRegister (duration : Z) (anchor : str) (note : option str)
  | OpCancel (id_or_prefix : str)
  | OpPop (now : Z).

(** The clone with the ids that callers were told about: registered, fired and
    cancelled. *)
Record Ledger := MkLedger {
  l_clone : Clone;
  l_registered : list str;
  l_fired : list str;
  l_cancelled : list str;
}.

Definition serve_timer (l : Ledger) (call : TimerEnv * TimerOp) : Ledger :=
  let '(env, op) := call in
  match op with
  | OpRegister duration anchor note =>
      let '(c, r) := register_timer env (l_clone l) duration anchor note in
      MkLedger c (l_registered l ++ match r with Ok t => [t_id t] | _ => [] end) (l_fired l) (l_cancelled l)
  | OpCancel prefix =>
      let '(c, r) := cancel_timer env (l_clone l) prefix in
      MkLedger c (l_registered l) (l_fired l) (l_cancelled l ++ match r with Ok id => [id] | _ => [] end)
  | OpPop now =>
      let '(c, r) := pop_fired_timers env (l_clone l) now in
      MkLedger c (l_registered l) (l_fired l ++ match r with Ok ts => map t_id ts | _ => [] end) (l_cancelled l)
  end.

Record ledger_ok (l : Ledger) : Prop := {
  lo_cap : (length (pending (l_clone l)) ≤ MAX_PENDING_PER_AGENT)%nat;
  lo_conserved : l_registered l ≡ₚ map t_id (pending (l_clone l)) ++ l_fired l ++ l_cancelled l;
}.

Lemma register_cases env c duration anchor note c' r :
  register_timer env c duration anchor note = (c', r) →
  (c' = c ∧ ∀ t, r ≠ Ok t)
  ∨ ∃ t, r = Ok t ∧ pending c' = pending c ++ [t] ∧ (length (pending c) < MAX_PENDING_PER_AGENT)%nat.
Proof.
  unfold register_timer. intros [[-> [e ->]]|Hf]%with_timers_lock_cases; [by left|]. revert Hf.
  destruct (res_bind _ _) as [[cur t]|e|] eqn:Hb; [|intros [= <- <-]; by left..].
  run_ok Hb. match goal with H : read_timers _ _ = Ok _ |- _ => apply read_timers_Ok in H as [Ht Hv] end.
  destruct (write_timers _ _ _) as [c1 w] eqn:Hw. intros [= <- <-].
  apply write_timers_cases in Hw as [[-> [e ->]]|[-> Hp]]; [by left|]. right. exists t.
  split; [done|]. rewrite Hp by done. rewrite <-Ht. split; [done|].
  unfold MAX_PENDING_PER_AGENT. repeat case_match; try done; lia.
Qed.

Lemma matching_from_lookup prefix timers i j :
  j ∈ matching_from i prefix timers → ∃ k t, j = (i + k)%nat ∧ timers !! k = Some t ∧ contains (t_id t) prefix = true.
Proof.
  revert i. induction timers as [|t timers IH]; intros i; simpl; [by intros ?%not_elem_of_nil|].
  destruct (contains (t_id t) prefix) eqn:E; [intros [->|Hj]%elem_of_cons|intros Hj].
  - exists 0%nat, t. split_and!; [lia|done|done].
  - apply IH in Hj as (k & t' & -> & Hk & Hc). exists (S k), t'. split_and!; [lia|done|done].
  - apply IH in Hj as (k & t' & -> & Hk & Hc). exists (S k), t'. split_and!; [lia|done|done].
Qed.

Lemma remove_at_perm {A} i (l : list A) x : l !! i = Some x → l ≡ₚ x :: remove_at i l.
Proof.
  revert i. induction l as [|y l IH]; intros [|i] Hi; simplify_eq/=; [done|].
  rewrite (IH i Hi) at 1. apply Permutation_swap.
Qed.

(** A cancellation that succeeds removes the timer whose id it returns. *)
Lemma cancel_by_cases timers prefix timers' r :
  cancel_by_id_or_prefix timers prefix = (timers', r) →
  (timers' = timers ∧ ∃ e, r = Err e)
  ∨ ∃ t, r = Ok (t_id t) ∧ contains (t_id t) prefix = true ∧ timers ≡ₚ t :: timers'.
Proof.
  unfold cancel_by_id_or_prefix. destruct (matching_from 0 prefix timers) as [|idx [|j rest]] eqn:E;
    [intros [= <- <-]; eauto| |intros [= <- <-]; eauto].
  destruct (matching_from_lookup prefix timers 0 idx) as (k & t & -> & Hk & Hc); [rewrite E; set_solver|].
  simpl. rewrite Hk. intros [= <- <-]. right. exists t. split_and!; [done|done|by apply remove_at_perm].
Qed.

Lemma cancel_cases env c prefix c' r :
  cancel_timer env c prefix = (c', r) →
  (c' = c ∧ ∀ id, r ≠ Ok id) ∨ ∃ t, r = Ok (t_id t) ∧ pending c ≡ₚ t :: pending c'.
Proof.
  unfold cancel_timer. intros [[-> [e ->]]|Hf]%with_timers_lock_cases; [by left|]. revert Hf.
  destruct (read_timers env c) as [f|e|] eqn:Hr; [|intros [= <- <-]; by left..]. apply read_timers_Ok in Hr as [Ht Hv].
  destruct (cancel_by_id_or_prefix _ _) as [timers x] eqn:Hc.
  apply cancel_by_cases in Hc as [[-> [e ->]]|(t & -> & _ & Hperm)]; [intros [= <- <-]; by left|].
  destruct (write_timers _ _ _) as [c1 w] eqn:Hw. intros [= <- <-].
  apply write_timers_cases in Hw as [[-> [e ->]]|[-> Hp]]; [by left|]. right. exists t. split; [done|].
  rewrite Hp by done. simpl. by rewrite <-Ht.
Qed.

Lemma serve_timer_ok l call : ledger_ok l → ledger_ok (serve_timer l call).
Proof.
  intros [Hcap Hcons]. destruct call as [env [duration anchor note|prefix|now]]; simpl.
  - destruct (register_timer _ _ _ _ _) as [c r] eqn:E.
    apply register_cases in E as [[-> Hr]|(t & -> & Hp & Hlt)]; constructor; simpl.
    + done.
    + destruct r; [by destruct (Hr a)|by rewrite app_nil_r..].
    + rewrite Hp, length_app. simpl. lia.
    + rewrite Hp, map_app, Hcons, <-!app_assoc. apply Permutation_app_head.
      by rewrite app_assoc, Permutation_app_comm.
  - destruct (cancel_timer _ _ _) as [c r] eqn:E.
    apply cancel_cases in E as [[-> Hr]|(t & -> & Hp)]; constructor; simpl.
    + done.
    + destruct r; [by destruct (Hr a)|by rewrite app_nil_r..].
    + apply Permutation_length in Hp. simpl in Hp. lia.
    + rewrite Hcons, Hp. simpl. rewrite !app_assoc. apply Permutation_cons_append.
  - destruct (pop_fired_timers _ _ _) as [c r] eqn:E. constructor; simpl.
    + destruct (pop_failed _ _ _ _ _ E) as [[fired ->]|Hsame]; [|by rewrite Hsame].
      apply pop_pending in E as [_ Hp]. apply Permutation_length in Hp. rewrite length_app in Hp. lia.
    + destruct r as [fired|e|].
      * apply pop_pending in E as [_ Hp]. rewrite Hcons, <-Hp, map_app, (Permutation_app_comm (map t_id fired)).
        rewrite <-!app_assoc. apply Permutation_app_head. rewrite !app_assoc. apply Permutation_app_tail.
        apply Permutation_app_comm.
      * destruct (pop_failed _ _ _ _ _ E) as [[? ?]|Hsame]; [done|]. by rewrite Hsame, app_nil_r.
      * destruct (pop_failed _ _ _ _ _ E) as [[? ?]|Hsame]; [done|]. by rewrite Hsame, app_nil_r.
Qed.

(** C38: timers are conserved.  Starting from a clone without timers, after any sequence
    of registrations, cancellations and pops, with failing locks, reads and writes
    among them, the ids handed out are exactly those still pending, those fired and
    those cancelled, each once; and at most three timers are pending. *)
Theorem timers_conserved (gitim_dir : bool) (calls : list (TimerEnv * TimerOp)) :
  let l := fold_left serve_timer calls (MkLedger (MkClone gitim_dir None) [] [] []) in
  (length (pending (l_clone l)) ≤ MAX_PENDING_PER_AGENT)%nat
  ∧ l_registered l ≡ₚ map t_id (pending (l_clone l)) ++ l_fired l ++ l_cancelled l.
Proof.
  intros l. assert (ledger_ok l) as [Hcap Hcons]; [|done].
  unfold l. assert (ledger_ok (MkLedger (MkClone gitim_dir None) [] [] [])) as H0 by (constructor; simpl; [lia|done]).
  clear l. revert H0. generalize (MkLedger (MkClone gitim_dir None) [] [] []).
  induction calls as [|call calls IH]; intros l Hl; [done|]. by apply IH, serve_timer_ok.
Qed.

(** Durations are bounded.  [parse_duration] accepts a text exactly when it has no
    whitespace and [humantime] reads it as between 10 seconds and 24 hours; seconds
    that do not fit in [i64] are refused like any other. *)
Theorem parse_duration_bounds (s : str) (d : Z) :
  parse_duration s = Ok d ↔
  Forall (λ c, is_whitespace c = false) s
  ∧ ∃ secs, humantime_parse s = Some secs ∧ 10 ≤ secs ≤ 86400 ∧ d = (Z.of_N secs * 1000000000)%Z.
Proof.
  unfold parse_duration. rewrite try_Ok, guard_err_Ok, existsb_false, res_bind_Ok. setoid_rewrite ok_or_Ok.
  setoid_rewrite try_Ok. setoid_rewrite guard_err_Ok. setoid_rewrite negb_false_iff.
  apply and_iff_compat_l. split.
  - intros (n & Hn & Hb & [= <-]). exists n. split; [done|]. pose proof (humantime_parse_u64 _ _ Hn) as Hu.
    unfold as_i64, MIN_DURATION_SECS, MAX_DURATION_SECS, u64_MAX in *.
    destruct (N.ltb_spec n (2 ^ 63)); [split; [lia|done]|lia].
  - intros (n & Hn & Hb & ->). exists n. split; [done|]. unfold as_i64, MIN_DURATION_SECS, MAX_DURATION_SECS.
    destruct (N.ltb_spec n (2 ^ 63)); [split; [lia|done]|lia].
Qed.
End timers.

(** ** Runs *)

Definition z_fields (z : Z) : str := [if (z <? 0)%Z then 1 else 0; Z.to_N (Z.abs z)].
Definition z_of_fields (s : str) : Z :=
  match s with [sg; n] => if sg =? 1 then (- Z.of_N n)%Z else Z.of_N n | _ => 0%Z end.

Lemma z_of_z_fields z : z_of_fields (z_fields z) = z.
Proof. unfold z_fields. simpl. destruct (Z.ltb_spec z 0); simpl; lia. Qed.

Definition timer_fields (t : Timer) : list (list str) :=
  [[t_id t; t_anchor t; z_fields (t_fire_at t); z_fields (t_created_at t)]; option_list (t_note t)].

Fixpoint build_timers (fs : list (list str)) : option (list Timer) :=
  match fs with
  | [id; anchor; f; cr] :: n :: fs' =>
      cons (MkTimer id (z_of_fields f) (z_of_fields cr) anchor (head n)) <$> build_timers fs'
  | [] => Some []
  | _ => None
  end.

Lemma build_timer_fields ts : build_timers (concat (map timer_fields ts)) = Some ts.
Proof.
  induction ts as [|[id f cr a n] ts IH]; [done|]. cbn [map concat app timer_fields t_id t_anchor t_fire_at t_created_at t_note].
  cbn [build_timers]. rewrite IH, !z_of_z_fields. by destruct n.
Qed.

Definition fields_timers_json : TimersJson.
Proof.
  refine {| timers_to_json := λ f, Some (print_fields ([[[tf_version f]]] ++ concat (map timer_fields (tf_timers f))));
            timers_from_json := λ t, match read_fields (length t) t with
                                     | [[v]] :: fs => MkTimersFile v <$> build_timers fs
                                     | _ => None
                                     end |}.
  intros f t Ht. apply (inj Some) in Ht as <-. cbv beta. rewrite read_print_fields by apply print_fields_length.
  cbn [app]. rewrite build_timer_fields. by destruct f.
Defined.

(** A humantime that reads and writes plain seconds. *)
Definition seconds_humantime : Humantime.
Proof.
  refine {| humantime_parse := λ s, n ← strip_suffix (lit "s") s; parse_unsigned u64_MAX n;
            humantime_format := λ n, fmt_N n ++ lit "s" |}.
  intros s n. destruct (strip_suffix (lit "s") s) as [d|]; [|done]. simpl.
  unfold parse_unsigned. repeat (case_match; simplify_eq/=; try done); intros; simplify_eq/=; lia.
Defined.

Section samples.
#[local] Existing Instance fields_timers_json.
#[local] Existing Instance seconds_humantime.

Definition timer_env (now : Z) (seed : N) : TimerEnv :=
  MkTimerEnv now (lit "20260101T000000") (Some [seed; 0; 255]) true true true.

Definition two_timers : Clone :=
  l_clone (fold_left serve_timer
    [(timer_env 0 1, OpRegister 50 (lit " channels/ops ") None); (timer_env 1 2, OpRegister 20 (lit "x") (Some (lit "n")))]
    (MkLedger (MkClone true None) [] [] [])).

Lemma pop_fires_due_once_witness :
  ∃ c' fired, pop_fired_timers (timer_env 30 0) two_timers 30 = (c', Ok fired) ∧ fired ++ pending c' ≡ₚ pending two_timers.
Proof.
  do 2 eexists.
  assert (pop_fired_timers (timer_env 30 0) two_timers 30 = (_, Ok _)) as Hpop by (vm_compute; reflexivity).
  split; [exact Hpop|]. exact (proj1 (proj2 (proj2 (pop_fires_due_once _ _ _ _ _ Hpop)))).
Defined.

(** The timer registered second fires first: [fired] is ordered by [fire_at]. *)
Example fired_is_sorted :
  map t_anchor (partition_fired (pending two_timers) 100).1 = [lit "x"; lit "channels/ops"].
Proof. vm_compute. reflexivity. Qed.
End samples.
