(* ===== verification/Reading.v ===== *)
(** * Reading and searching

    The requests of [gitim-daemon/src/handlers/read.rs] and [search.rs]: the entries of a
    channel or direct message, one thread of replies, the lists of channels, users and
    archived things with their pages, and the newest messages that contain a text.

    They see of the machine what a poll sees ([Poll]); the directories are listed in any
    order. *)

From S2P Require Import Prelude RustStr StrFacts Names QuickSession Asset Links Thread Compliance Meta Git Daemon Cards ChannelArchive Recipients GitText Poll.
From stdpp Require Import options.
Open Scope N_scope.
Open Scope list_scope.

(** [trim_end_matches] for a string: every copy of it at the end. *)
Fixpoint trim_end_fuel (fuel : nat) (pat s : str) : str :=
  match fuel with
  | O => s
  | S fuel' => match strip_suffix pat s with Some r => trim_end_fuel fuel' pat r | None => s end
  end.
Definition trim_end_str (pat s : str) : str := trim_end_fuel (length s) pat s.

(** [s.split(pat)] for a string. *)
Fixpoint split_str_fuel (fuel : nat) (pat s : str) : list str :=
  match fuel with
  | O => [s]
  | S fuel' => match split_once pat s with
               | Some (a, b) => a :: split_str_fuel fuel' pat b
               | None => [s]
               end
  end.
Definition split_str (pat s : str) : list str := split_str_fuel (S (length s)) pat s.

(** [skip(offset).take(limit + 1)], cut to the limit, and whether there was one more. *)
Definition page {A} (offset limit : nat) (l : list A) : list A * bool :=
  let window := take (limit + 1) (drop offset l) in
  (take limit window, (limit <? length window)%nat).

Lemma page_spec {A} offset limit (l : list A) :
  page offset limit l = (take limit (drop offset l), (offset + limit <? length l)%nat).
Proof.
  unfold page. f_equal; [by rewrite take_take, Nat.min_l by lia|].
  rewrite length_take, length_drop. apply eq_iff_eq_true. rewrite !Nat.ltb_lt. lia.
Qed.

(** Asking for page after page, as long as there is more. *)
Fixpoint pages {A} (fuel offset limit : nat) (l : list A) : list A :=
  match fuel with
  | O => []
  | S fuel' => let '(shown, more) := page offset limit l in shown ++ if more then pages fuel' (offset + limit) limit l else []
  end.

(** The pages together are the whole list, in order, each row once. *)
Lemma pages_cover {A} fuel offset limit (l : list A) :
  (0 < limit)%nat → (length l - offset < fuel)%nat → pages fuel offset limit l = drop offset l.
Proof.
  intros Hlim. revert offset. induction fuel as [|fuel IH]; intros offset Hf; [lia|]. cbn [pages]. rewrite page_spec.
  destruct (offset + limit <? length l)%nat eqn:E.
  - apply Nat.ltb_lt in E. rewrite IH by lia. rewrite <-(drop_drop l limit offset). apply take_drop.
  - apply Nat.ltb_ge in E. rewrite app_nil_r. apply take_ge. rewrite length_drop. lia.
Qed.


(** ** Threads of replies *)

Section threads.
Context `{SJ : !SerdeJson}.

(** [by_line]: of several entries with one number, the last. *)
Definition by_line (es : list ThreadEntry) (n : N) : option ThreadEntry :=
  last (List.filter (λ e, entry_line_number e =? n) es).

(** The walk up to the root.  [fuel] bounds the iterations; [None] means it ran out. *)
Fixpoint walk_up (fuel : nat) (es : list ThreadEntry) (root_line : N) (seen_up : gset N) : option N :=
  match fuel with
  | O => None
  | S fuel' =>
      match by_line es root_line with
      | None => Some root_line
      | Some entry =>
          if bool_decide (root_line ∈ seen_up) then Some root_line
          else
            let parent := entry_point_to entry in
            if (parent =? 0) || negb (is_some (by_line es parent)) then Some root_line
            else walk_up fuel' es parent ({[root_line]} ∪ seen_up)
      end
  end.

(** The entry with the number, and the entries that reply to it. *)
Definition related (es : list ThreadEntry) (target : N) : list ThreadEntry :=
  List.filter (λ e, (entry_line_number e =? target) || (entry_point_to e =? target)) es.

(** What is pushed for a target; the stack's top is the list's head. *)
Definition replies (es : list ThreadEntry) (target : N) : list N :=
  map entry_line_number (List.filter (λ e, negb (entry_line_number e =? target)) (related es target)).

Fixpoint walk_down (fuel : nat) (es : list ThreadEntry) (stack : list N) (visited : gset N) (found : list ThreadEntry)
  : option (list ThreadEntry) :=
  match fuel with
  | O => None
  | S fuel' =>
      match stack with
      | [] => Some found
      | target :: stack' =>
          if bool_decide (target ∈ visited) then walk_down fuel' es stack' visited found
          else walk_down fuel' es (reverse (replies es target) ++ stack') ({[target]} ∪ visited) (found ++ related es target)
      end
  end.

(** [dedup_by_key]: of neighbours with the same number, the first. *)
Fixpoint dedup_by_line (es : list ThreadEntry) : list ThreadEntry :=
  match es with
  | [] => []
  | e :: es' =>
      e :: match dedup_by_line es' with
           | e' :: rest => if entry_line_number e' =? entry_line_number e then rest else e' :: rest
           | [] => []
           end
  end.

Definition line_leb (a b : ThreadEntry) : bool := entry_line_number a <=? entry_line_number b.

Definition up_fuel (es : list ThreadEntry) : nat := S (S (length es)).
Definition down_fuel (es : list ThreadEntry) : nat := S (S (S (length es) * S (length es))).

(** The root line and the entries of the thread around a line. *)
Definition thread_of (es : list ThreadEntry) (line_number : N) : option (N * list ThreadEntry) :=
  root_line ← walk_up (up_fuel es) es line_number ∅;
  found ← walk_down (down_fuel es) es [root_line] ∅ [];
  Some (root_line, dedup_by_line (sort_by_key line_leb found)).

(** *** What a thread is *)

(** A log: the numbers grow, and replies point back. *)
Record log (es : list ThreadEntry) : Prop := MkLog {
  log_sorted : StronglySorted (λ a b, entry_line_number a < entry_line_number b) es;
  log_replies : ∀ e, e ∈ es → entry_point_to e < entry_line_number e;
}.

(** The line [n] is [root], or belongs to a reply to a line of the thread. *)
Inductive in_thread (es : list ThreadEntry) (root : N) : N → Prop :=
  | thread_root : in_thread es root root
  | thread_reply e : e ∈ es → in_thread es root (entry_point_to e) → in_thread es root (entry_line_number e).

Lemma elem_of_bfilter {A} (f : A → bool) (l : list A) x : x ∈ List.filter f l ↔ x ∈ l ∧ f x = true.
Proof. rewrite !list_elem_of_In. apply filter_In. Qed.

Lemma log_unique es a b : log es → a ∈ es → b ∈ es → entry_line_number a = entry_line_number b → a = b.
Proof.
  intros [Hs _]. induction Hs as [|x l Hs IH Hx]; [by intros ?%elem_of_nil|]. rewrite Forall_forall in Hx.
  intros [->|Ha]%elem_of_cons [->|Hb]%elem_of_cons Heq; [done|specialize (Hx b Hb)|specialize (Hx a Ha)|by apply IH]; lia.
Qed.

Lemma by_line_Some es n e : by_line es n = Some e → e ∈ es ∧ entry_line_number e = n.
Proof.
  unfold by_line. intros H. assert (e ∈ List.filter (λ e, entry_line_number e =? n) es) as Hin.
  { apply last_Some in H as [l ->]. apply elem_of_app. right. by left. }
  apply elem_of_bfilter in Hin as [? ?%N.eqb_eq]. done.
Qed.

Lemma by_line_None es n : by_line es n = None ↔ ∀ e, e ∈ es → entry_line_number e ≠ n.
Proof.
  unfold by_line. rewrite last_None. split.
  - intros H e He Hn. assert (e ∈ List.filter (λ e, entry_line_number e =? n) es) as Hin by (apply elem_of_bfilter; split; [done|by apply N.eqb_eq]).
    rewrite H in Hin. by apply elem_of_nil in Hin.
  - intros H. destruct (List.filter _ es) as [|e l] eqn:E; [done|].
    assert (e ∈ List.filter (λ e, entry_line_number e =? n) es) as [He ?%N.eqb_eq]%elem_of_bfilter by (rewrite E; by left). by destruct (H e He).
Qed.

(** *** The way up *)

Definition line_set (es : list ThreadEntry) : gset N := list_to_set (map entry_line_number es).

Lemma line_set_size es : (size (line_set es) ≤ length es)%nat.
Proof. unfold line_set. rewrite <-(length_map entry_line_number es). apply size_list_to_set_le. Qed.

Lemma elem_of_line_set es n : n ∈ line_set es ↔ ∃ e, e ∈ es ∧ entry_line_number e = n.
Proof. unfold line_set. rewrite elem_of_list_to_set, list_elem_of_fmap. naive_solver. Qed.

Lemma unseen_shrinks (U seen : gset N) n : n ∈ U → n ∉ seen → (size (U ∖ ({[n]} ∪ seen)) < size (U ∖ seen))%nat.
Proof. intros Hn Hs. apply subset_size. set_solver. Qed.

(** No parent of the line is in the log. *)
Definition is_top (es : list ThreadEntry) (root : N) : Prop :=
  ∀ e, e ∈ es → entry_line_number e = root → entry_point_to e = 0 ∨ ∀ e', e' ∈ es → entry_line_number e' ≠ entry_point_to e.

Lemma walk_up_spec es fuel n seen :
  log es → (∀ s, s ∈ seen → n < s) → (size (line_set es ∖ seen) < fuel)%nat →
  ∃ root, walk_up fuel es n seen = Some root ∧ in_thread es root n ∧ is_top es root.
Proof.
  intros Hlog. revert n seen. induction fuel as [|fuel IH]; intros n seen Hseen Hlt; [lia|]. cbn [walk_up].
  destruct (by_line es n) as [e|] eqn:E.
  - apply by_line_Some in E as [He Hn]. rewrite bool_decide_false by (intros Hin%Hseen; lia).
    destruct ((entry_point_to e =? 0) || negb (is_some (by_line es (entry_point_to e)))) eqn:Et.
    + exists n. split; [done|]. split; [constructor|]. intros e' He' Hn'.
      assert (e' = e) as -> by (apply (log_unique es); [done..|congruence]).
      apply orb_true_iff in Et as [?%N.eqb_eq|Hnone]; [by left|]. right. apply by_line_None. by destruct (by_line es _).
    + destruct (IH (entry_point_to e) ({[n]} ∪ seen)) as (root & Hr & Hin & Htop).
      * pose proof (log_replies es Hlog e He). intros s [->%elem_of_singleton|Hs%Hseen]%elem_of_union; lia.
      * assert (n ∈ line_set es) by (apply elem_of_line_set; by exists e).
        assert (n ∉ seen) by (intros Hin%Hseen; lia). pose proof (unseen_shrinks (line_set es) seen n ltac:(done) ltac:(done)). lia.
      * exists root. split; [done|]. split; [|done]. rewrite <-Hn. by constructor.
  - exists n. split; [done|]. split; [constructor|]. intros e He Hn. by destruct (proj1 (by_line_None es n) E e He).
Qed.

(** *** The way down *)

Lemma elem_of_related es t e : e ∈ related es t ↔ e ∈ es ∧ (entry_line_number e = t ∨ entry_point_to e = t).
Proof. unfold related. by rewrite elem_of_bfilter, orb_true_iff, !N.eqb_eq. Qed.

Lemma elem_of_replies es t n :
  n ∈ replies es t ↔ ∃ e, e ∈ es ∧ entry_line_number e = n ∧ n ≠ t ∧ entry_point_to e = t.
Proof.
  unfold replies. rewrite list_elem_of_fmap. setoid_rewrite elem_of_bfilter. setoid_rewrite elem_of_related.
  setoid_rewrite negb_true_iff. setoid_rewrite N.eqb_neq. split.
  - intros (e & -> & (He & [?|?]) & Hne); [done|]. by exists e.
  - intros (e & He & <- & Hne & Hp). exists e. auto.
Qed.

Lemma replies_length es t : (length (replies es t) ≤ length es)%nat.
Proof.
  unfold replies. rewrite length_map. etrans; [apply List.filter_length_le|]. apply List.filter_length_le.
Qed.

(** What holds while the search goes on. *)
Record going (es : list ThreadEntry) (root : N) (stack : list N) (visited : gset N) (found : list ThreadEntry) : Prop := MkGoing {
  go_sound : ∀ n, n ∈ stack ∨ n ∈ visited → in_thread es root n;
  go_closed : ∀ e, e ∈ es → entry_point_to e ∈ visited → entry_line_number e ∈ visited ∨ entry_line_number e ∈ stack;
  go_found : ∀ e, e ∈ found ↔ e ∈ es ∧ (entry_line_number e ∈ visited ∨ entry_point_to e ∈ visited);
  go_root : root ∈ visited ∨ root ∈ stack;
}.

Lemma going_skip es root t stack visited found :
  t ∈ visited → going es root (t :: stack) visited found → going es root stack visited found.
Proof.
  intros Ht [Hs Hc Hf Hr]. split; [| |done|].
  - intros n [Hn|Hn]; apply Hs; [left; by right|by right].
  - intros e He Hp. destruct (Hc e He Hp) as [?|[->|?]%elem_of_cons]; auto.
  - destruct Hr as [?|[->|?]%elem_of_cons]; auto.
Qed.

Lemma going_visit es root t stack visited found :
  going es root (t :: stack) visited found →
  going es root (reverse (replies es t) ++ stack) ({[t]} ∪ visited) (found ++ related es t).
Proof.
  intros [Hs Hc Hf Hr]. assert (in_thread es root t) as Ht by (apply Hs; left; by left). split.
  - intros n [[Hn|Hn]%elem_of_app|[->%elem_of_singleton|Hn]%elem_of_union]; [|apply Hs; left; by right|done|apply Hs; by right].
    rewrite elem_of_reverse, elem_of_replies in Hn. destruct Hn as (e & He & <- & _ & Hp). constructor; [done|]. by rewrite Hp.
  - intros e He [Hp%elem_of_singleton|Hp]%elem_of_union.
    + destruct (decide (entry_line_number e = t)) as [Heq|Hne]; [left; set_solver|]. right. apply elem_of_app. left.
      rewrite elem_of_reverse, elem_of_replies. by exists e.
    + destruct (Hc e He Hp) as [?|[->|?]%elem_of_cons]; [left; set_solver|left; set_solver|right]. apply elem_of_app. by right.
  - intros e. rewrite elem_of_app, Hf, elem_of_related, !elem_of_union, !elem_of_singleton. naive_solver.
  - destruct Hr as [?|[->|?]%elem_of_cons]; [left; set_solver|left; set_solver|right; apply elem_of_app; by right].
Qed.

Lemma walk_down_spec es root fuel stack visited found :
  going es root stack visited found → (∀ n, n ∈ stack → n ∈ {[root]} ∪ line_set es) →
  (size (({[root]} ∪ line_set es) ∖ visited) * S (length es) + length stack < fuel)%nat →
  ∃ r, walk_down fuel es stack visited found = Some r ∧ ∀ e, e ∈ r ↔ e ∈ es ∧ in_thread es root (entry_line_number e).
Proof.
  revert stack visited found. induction fuel as [|fuel IH]; intros stack visited found Hg HU Hlt; [lia|]. cbn [walk_down].
  destruct stack as [|t stack].
  - exists found. split; [done|]. destruct Hg as [Hs Hc Hf Hr].
    assert (∀ n, in_thread es root n → n ∈ visited) as Hall.
    { induction 1 as [|e He _ IHt]; [by destruct Hr as [?|?%elem_of_nil]|]. by destruct (Hc e He IHt) as [?|?%elem_of_nil]. }
    intros e. rewrite Hf. split.
    + intros [He [Hv|Hv]]; (split; [done|]); [apply Hs; by right|]. constructor; [done|]. apply Hs. by right.
    + intros [He Ht]. split; [done|]. left. by apply Hall.
  - case_bool_decide as Ht.
    + apply IH; [by eapply going_skip|intros n Hn; apply HU; by right|]. cbn in Hlt. lia.
    + apply IH; [by apply going_visit| |].
      * intros n [Hn|Hn]%elem_of_app; [|apply HU; by right]. rewrite elem_of_reverse, elem_of_replies in Hn.
        destruct Hn as (e & He & <- & _). apply elem_of_union. right. apply elem_of_line_set. by exists e.
      * rewrite length_app, length_reverse. pose proof (replies_length es t). cbn in Hlt.
        pose proof (unseen_shrinks ({[root]} ∪ line_set es) visited t (HU t ltac:(by left)) Ht). nia.
Qed.

Lemma walk_down_thread es root :
  ∃ r, walk_down (down_fuel es) es [root] ∅ [] = Some r ∧ ∀ e, e ∈ r ↔ e ∈ es ∧ in_thread es root (entry_line_number e).
Proof.
  apply walk_down_spec.
  - split; [|set_solver|set_solver|right; by left]. intros n [->%list_elem_of_singleton|?]; [constructor|set_solver].
  - intros n ->%list_elem_of_singleton. set_solver.
  - rewrite difference_empty_L. unfold down_fuel. cbn [length].
    assert (size ({[root]} ∪ line_set es) ≤ S (length es))%nat as Hsize; [|nia].
    pose proof (size_list_to_set_le (root :: map entry_line_number es)) as H. cbn in H. by rewrite length_map in H.
Qed.

(** *** In order, each once *)

Lemma dedup_spec es l :
  log es → (∀ e, e ∈ l → e ∈ es) → StronglySorted (λ a b, line_leb a b = true) l →
  StronglySorted (λ a b, entry_line_number a < entry_line_number b) (dedup_by_line l) ∧ ∀ e, e ∈ dedup_by_line l ↔ e ∈ l.
Proof.
  intros Hlog Hin Hs. induction Hs as [|x l Hs IH Hx]; [by split; [constructor|]|].
  destruct IH as [IHs IHe]; [intros e He; apply Hin; by right|]. cbn [dedup_by_line].
  rewrite Forall_forall in Hx.
  assert (∀ e, e ∈ dedup_by_line l → entry_line_number x ≤ entry_line_number e) as Hle.
  { intros e He%IHe%Hx. by apply N.leb_le in He. }
  destruct (dedup_by_line l) as [|y rest] eqn:Ed.
  - split; [by repeat constructor|]. intros e. rewrite !elem_of_cons, <-IHe. done.
  - destruct (entry_line_number y =? entry_line_number x) eqn:Exy.
    + apply N.eqb_eq in Exy. assert (y = x) as ->.
      { apply (log_unique es); [done|apply Hin; right; apply IHe; by left|apply Hin; by left|done]. }
      split; [done|]. intros e. rewrite (elem_of_cons l), <-IHe, !elem_of_cons. tauto.
    + apply N.eqb_neq in Exy. split.
      * constructor; [done|]. apply Forall_forall. intros e He. pose proof (Hle y ltac:(by left)) as Hy.
        apply elem_of_cons in He as [->|He]; [lia|]. inversion IHs as [|? ? _ Hy']; subst. rewrite Forall_forall in Hy'.
        specialize (Hy' e He). cbn in Hy'. lia.
      * intros e. rewrite elem_of_cons, IHe. by rewrite elem_of_cons.
Qed.

Lemma thread_of_exact es n :
  log es →
  ∃ root found, thread_of es n = Some (root, found)
    ∧ StronglySorted (λ a b, entry_line_number a < entry_line_number b) found
    ∧ (∀ e, e ∈ found ↔ e ∈ es ∧ in_thread es root (entry_line_number e))
    ∧ in_thread es root n ∧ is_top es root.
Proof.
  intros Hlog. unfold thread_of.
  destruct (walk_up_spec es (up_fuel es) n ∅ Hlog) as (root & -> & Hn & Htop).
  { set_solver. }
  { rewrite difference_empty_L. pose proof (line_set_size es). unfold up_fuel. lia. }
  cbn [mbind option_bind]. destruct (walk_down_thread es root) as (r & -> & Hr). cbn [mbind option_bind].
  eexists root, _. split; [reflexivity|].
  destruct (dedup_spec es (sort_by_key line_leb r) Hlog) as [Hs He].
  { intros e. rewrite sort_by_key_perm. by intros [? _]%Hr. }
  { apply sort_by_key_sorted; unfold line_leb; intros *; rewrite ?N.leb_le, ?N.leb_gt; lia. }
  split_and!; [done| |done|done]. intros e. by rewrite He, sort_by_key_perm.
Qed.

End threads.

(** ** Search results *)

Record SearchMessage := MkSearchMessage {
  sm_channel : str;
  sm_channel_type : str;
  sm_line_number : N;
  sm_parent_line : N;
  sm_author : str;
  sm_timestamp : str;
  sm_body : str;
}.

Definition SEARCH_RESULT_LIMIT : nat := 10.

(** [newest_first] is not [Greater]: the later time, then the channel, then the later line. *)
Definition newest_leb (a b : SearchMessage) : bool :=
  match str_compare (sm_timestamp b) (sm_timestamp a) with
  | Lt => true
  | Gt => false
  | Eq => match str_compare (sm_channel a) (sm_channel b) with
          | Lt => true
          | Gt => false
          | Eq => sm_line_number b <=? sm_line_number a
          end
  end.

Definition insert_latest_match (matches : list SearchMessage) (message : SearchMessage) : list SearchMessage :=
  take SEARCH_RESULT_LIMIT (sort_by_key newest_leb (matches ++ [message])).

(** *** The newest of many *)

(** [result] is, newest first, the first [k] of [all]. *)
Definition newest (k : nat) (all result : list SearchMessage) : Prop :=
  ∃ rest, all ≡ₚ result ++ rest ∧ StronglySorted (λ a b, newest_leb a b = true) result
    ∧ length result = (k `min` length all)%nat
    ∧ ∀ r s, r ∈ result → s ∈ rest → newest_leb r s = true.

Lemma newest_leb_spec a b :
  newest_leb a b = true ↔
  str_compare (sm_timestamp b) (sm_timestamp a) = Lt
  ∨ sm_timestamp b = sm_timestamp a
    ∧ (str_compare (sm_channel a) (sm_channel b) = Lt
       ∨ sm_channel a = sm_channel b ∧ sm_line_number b ≤ sm_line_number a).
Proof.
  unfold newest_leb. rewrite <-!str_compare_eq, <-N.leb_le.
  destruct (str_compare (sm_timestamp b) (sm_timestamp a)), (str_compare (sm_channel a) (sm_channel b)); naive_solver.
Qed.

Lemma newest_leb_total a b : newest_leb a b = false → newest_leb b a = true.
Proof.
  unfold newest_leb. rewrite (str_compare_antisym (sm_timestamp a)), (str_compare_antisym (sm_channel a)).
  destruct (str_compare (sm_timestamp a) (sm_timestamp b)); cbn; [|done|done].
  destruct (str_compare (sm_channel a) (sm_channel b)); cbn; [|done|done]. rewrite N.leb_gt, N.leb_le. lia.
Qed.

Lemma newest_leb_trans a b c : newest_leb a b = true → newest_leb b c = true → newest_leb a c = true.
Proof.
  rewrite !newest_leb_spec. intros [H1|[E1 C1]] [H2|[E2 C2]].
  - left. by eapply str_compare_lt_trans.
  - left. by rewrite E2.
  - left. by rewrite <-E1.
  - right. split; [congruence|]. destruct C1 as [H1|[F1 H1]], C2 as [H2|[F2 H2]].
    + left. by eapply str_compare_lt_trans.
    + left. by rewrite <-F2.
    + left. by rewrite F1.
    + right. split; [congruence|lia].
Qed.

Lemma sorted_take_drop {A} (R : A → A → Prop) k (l : list A) x y :
  StronglySorted R l → x ∈ take k l → y ∈ drop k l → R x y.
Proof.
  revert k. induction l as [|a l IH]; intros k Hs Hx Hy; [by rewrite take_nil in Hx; apply elem_of_nil in Hx|].
  inversion Hs as [|? ? Hs' Ha]; subst. destruct k as [|k]; cbn in Hx, Hy; [by apply elem_of_nil in Hx|].
  apply elem_of_cons in Hx as [->|Hx]; [|by apply (IH k)]. rewrite Forall_forall in Ha. apply Ha.
  rewrite <-(take_drop k l). apply elem_of_app. by right.
Qed.

Lemma sorted_take {A} (R : A → A → Prop) k (l : list A) : StronglySorted R l → StronglySorted R (take k l).
Proof.
  intros Hs. revert k. induction Hs as [|a l Hs IH Ha]; intros k; [by rewrite take_nil; constructor|].
  destruct k as [|k]; cbn; [constructor|]. constructor; [apply IH|]. apply Forall_forall. intros x Hx. rewrite Forall_forall in Ha.
  apply Ha. rewrite <-(take_drop k l). apply elem_of_app. by left.
Qed.

Lemma newest_step k all result m :
  newest k all result → newest k (all ++ [m]) (take k (sort_by_key newest_leb (result ++ [m]))).
Proof.
  intros (rest & Hp & Hs & Hlen & Hle). set (S := sort_by_key newest_leb (result ++ [m])).
  assert (S ≡ₚ result ++ [m]) as HS by apply sort_by_key_perm.
  assert (StronglySorted (λ a b, newest_leb a b = true) S) as Hsort.
  { apply sort_by_key_sorted; [apply newest_leb_total|apply newest_leb_trans]. }
  exists (drop k S ++ rest). split; [|split; [by apply sorted_take|split]].
  - rewrite app_assoc, take_drop, HS, Hp, <-!app_assoc. f_equiv. apply Permutation_app_comm.
  - rewrite length_take, HS, !length_app, Hlen. cbn. lia.
  - intros r s Hr [Hd|Hrest]%elem_of_app; [exact (sorted_take_drop _ k S r s Hsort Hr Hd)|].
    assert (r ∈ result ∨ r = m) as [Hin| ->].
    { assert (r ∈ S) as Hin by (rewrite <-(take_drop k S); apply elem_of_app; by left).
      rewrite HS, elem_of_app, list_elem_of_singleton in Hin. done. }
    { by apply Hle. }
    destruct (drop k S) as [|d ds] eqn:Ed.
    + exfalso. apply (f_equal length) in Ed. rewrite length_drop, HS, length_app, Hlen in Ed. cbn in Ed.
      apply Permutation_length in Hp. rewrite length_app, Hlen in Hp. destruct rest; [by apply elem_of_nil in Hrest|]. cbn in Hp. lia.
    + assert (newest_leb m d = true) as Hmd by (apply (sorted_take_drop _ k S m d Hsort Hr); rewrite Ed; by left).
      assert (d ∈ result ∨ d = m) as [Hd|Hd].
      { assert (d ∈ S) as Hin by (rewrite <-(take_drop k S), Ed; apply elem_of_app; right; by left).
        rewrite HS, elem_of_app, list_elem_of_singleton in Hin. done. }
      { eapply newest_leb_trans; [exact Hmd|by apply Hle]. }
      apply Hle; [|done]. subst d. assert (take k S ++ ds ≡ₚ result) as Hres.
      { apply (Permutation_app_inv_r [m]). rewrite <-HS. rewrite <-(take_drop k S) at 2. rewrite Ed, <-app_assoc. f_equiv.
        symmetry. apply Permutation_cons_append. }
      rewrite <-Hres. apply elem_of_app. by left.
Qed.

Section reading.
Context `{UC : !Unicode} `{PE : !PercentEncoding} `{SJ : !SerdeJson} `{LC : !Lowercase}.
Context `{YC : !Yaml ChannelMeta} `{YM : !Yaml CardMeta} `{YQ : !Yaml QuickSessionMeta} `{YU : !Yaml UserMeta} `{YF : !YamlField}.
Context (w : PollWorld).

(** [read_dir] in the order it happens to list; a directory that cannot be listed is empty. *)
Context (list_dir : str → list str).

(** ** [handle_read] *)

Inductive ReadError :=
  | ReadDaemon (e : DaemonError)
  | NotMember
  | ReadParse
  | ReadInvalidChannel
  | InvalidLimit.

Record ReadResponse := MkReadResponse { rr_channel : str; rr_entries : list PollEntry; rr_archived : bool }.

Definition check_reader (channel name : str) : res unit ReadError :=
  if negb (starts_with channel (lit "dm:")) && negb (pw_admin w) && negb (pw_guest w)
     && path_exists (pw_tree w) (channel_meta_path name) then
    match pw_user w with
    | Some me =>
        let member := match (content ← poll_read w (channel_meta_path name); yaml_from_str content) with
                      | Some meta => bool_decide (me ∈ cm_members meta)
                      | None => true
                      end in
        guard_err (negb member) NotMember
    | None => Ok tt
    end
  else Ok tt.

(** The active file, or the one in the archive where only that is there. *)
Definition readable_path (active archived : str) : str * bool :=
  if negb (path_exists (pw_tree w) active) && path_exists (pw_tree w) archived then (archived, true) else (active, false).

Definition selected_entries (limit : option nat) (since : option N) (es : list ThreadEntry) : list ThreadEntry :=
  let es := match since with Some s => List.filter (λ e, s <? entry_line_number e) es | None => es end in
  match limit with
  | None => es
  | Some lim => if is_some since then take lim es else drop (length es - lim) es
  end.

Definition read_entries (path : str) : res (list ThreadEntry) ReadError :=
  match parse_thread (unwrap_or (poll_read w path) []) with
  | Ok f => Ok (entries f)
  | Err _ => Err ReadParse
  | Panicked => Panicked
  end.

Definition handle_read (channel : str) (limit : option nat) (since : option N) : res ReadResponse ReadError :=
  let? '(thread_path, name) := map_err ReadDaemon (resolve_thread_path channel) in
  try? check_reader channel name then
  let is_dm := starts_with channel (lit "dm:") in
  let archived := if is_dm then archived_dm_thread_path name else archived_channel_thread_path name in
  let '(path, is_archived) := readable_path thread_path archived in
  let? es := read_entries path in
  let selected := selected_entries limit since es in
  let shown := if is_dm then enrich_dm_entries selected (dm_thread_path name) else enrich_channel_entries w selected name in
  Ok (MkReadResponse channel shown is_archived).

(** ** [handle_get_thread] *)

Record GetThreadResponse := MkGetThreadResponse { gt_channel : str; gt_root_line : N; gt_entries : list PollEntry }.

Definition handle_get_thread (channel : str) (line_number : N) : res GetThreadResponse ReadError :=
  try? guard_err (negb (is_ok (ChannelName_new channel))) ReadInvalidChannel then
  let '(path, _) := readable_path (channel_thread_path channel) (archived_channel_thread_path channel) in
  let? es := read_entries path in
  match thread_of es line_number with
  | Some (root_line, found) => Ok (MkGetThreadResponse channel root_line (enrich_channel_entries w found channel))
  | None => Panicked
  end.

(** ** The lists *)

Record ChannelSummary := MkChannelSummary {
  cs_name : str;
  cs_display_name : option str;
  cs_kind : str;
  cs_members : list str;
  cs_created_by : option str;
  cs_project : option str;
}.

Definition summary_name_leb (a b : ChannelSummary) : bool := str_leb (cs_name a) (cs_name b).

Definition channel_summary (kind dir fname : str) : ChannelSummary :=
  let meta := content ← poll_read w (under dir fname); yaml_from_str content in
  MkChannelSummary (trim_end_str (lit ".meta.yaml") fname) (cm_display_name <$> meta) kind
    (match meta with Some m => cm_members m | None => [] end) (cm_created_by <$> meta) (meta ≫= cm_project).

Definition dm_summary (fname : str) : ChannelSummary :=
  let name := trim_end_str (lit ".thread") fname in
  MkChannelSummary name None (lit "dm") (split_str (lit "--") name) None None.

Definition handle_list_channels : list ChannelSummary :=
  let channels := map (channel_summary (lit "channel") (lit "channels"))
                    (List.filter (λ f, ends_with f (lit ".meta.yaml")) (list_dir (lit "channels"))) in
  let dms := map dm_summary (List.filter (λ f, ends_with f (lit ".thread")) (list_dir (lit "dm"))) in
  sort_by_key summary_name_leb (channels ++ dms).

(** The prefix filter, without regard to the case of ASCII letters. *)
Definition matches_prefix (prefix : option str) (name : str) : bool :=
  let needle := map ascii_lower (unwrap_or prefix []) in
  is_empty needle || starts_with (map ascii_lower name) needle.

Definition check_limit (limit : nat) : res unit ReadError := guard_err ((limit =? 0)%nat || (100 <? limit)%nat) InvalidLimit.

Definition archived_channels (prefix : option str) : list ChannelSummary :=
  sort_by_key summary_name_leb
    (map (channel_summary (lit "archived_channel") (lit "archive/channels"))
       (List.filter (λ f, ends_with f (lit ".meta.yaml") && matches_prefix prefix (trim_end_str (lit ".meta.yaml") f))
          (list_dir (lit "archive/channels")))).

Definition handle_list_archived_channels (prefix : option str) (offset limit : nat) : res (list ChannelSummary * bool) ReadError :=
  try? check_limit limit then Ok (page offset limit (archived_channels prefix)).

Record ActiveUserEntry := MkActiveUserEntry { au_handler : str; au_display_name : option str; au_kind : UserKind }.
Record ArchivedUserEntry := MkArchivedUserEntry { ar_handler : str; ar_display_name : option str }.
Record ListUsersResponse := MkListUsersResponse {
  lu_users : list str;
  lu_archived_users : option (list str);
  lu_user_infos : option (list ActiveUserEntry);
}.

Definition user_meta_at (path : str) : option UserMeta := content ← poll_read w path; yaml_from_str content.

Definition active_user_entry (handler : str) : ActiveUserEntry :=
  match user_meta_at (user_meta_path handler) with
  | Some m => MkActiveUserEntry handler (Some (um_display_name m)) (um_kind m)
  | None => MkActiveUserEntry handler None KindUnknown
  end.

Definition handle_list_users (users : list str) (include_archived : bool) : ListUsersResponse :=
  let sorted := sort_strings users in
  let archived := sort_strings (omap (strip_suffix (lit ".meta.yaml")) (list_dir (lit "archive/users"))) in
  MkListUsersResponse sorted (if include_archived then Some archived else None) (Some (map active_user_entry sorted)).

Definition handle_list_archived_users : list ArchivedUserEntry :=
  sort_by_key (λ a b, str_leb (ar_handler a) (ar_handler b))
    (omap (λ fname,
       handler ← strip_suffix (lit ".meta.yaml") fname;
       Some (MkArchivedUserEntry handler (um_display_name <$> user_meta_at (under (lit "archive/users") fname))))
     (list_dir (lit "archive/users"))).

Record ArchivedDmEntry := MkArchivedDmEntry { ad_peer : str; ad_dm_pair_stem : str }.

Definition archived_dm_entry (author : str) (prefix : option str) (fname : str) : option ArchivedDmEntry :=
  stem ← strip_suffix (lit ".thread") fname;
  '(first, second) ← parse_dm_filename stem;
  peer ← if first =?? author then Some second else if second =?? author then Some first else None;
  if matches_prefix prefix peer then Some (MkArchivedDmEntry peer stem) else None.

Definition archived_dms (author : str) (prefix : option str) : list ArchivedDmEntry :=
  sort_by_key (λ a b, str_leb (ad_peer a) (ad_peer b)) (omap (archived_dm_entry author prefix) (list_dir (lit "archive/dm"))).

Definition handle_list_archived_dms (author : str) (prefix : option str) (offset limit : nat)
  : res (list ArchivedDmEntry * bool) ReadError :=
  try? check_limit limit then Ok (page offset limit (archived_dms author prefix)).

(** ** [handle_search] *)

Definition search_message (channel channel_type : str) (m : Message) : SearchMessage :=
  MkSearchMessage channel channel_type (m_line_number m) (m_point_to m) (handler_str (m_author m)) (m_timestamp m) (m_body m).

(** The messages of a thread file that contain the text. *)
Definition thread_matches (query path channel channel_type : str) : list SearchMessage :=
  match poll_read w path with
  | None => []
  | Some content =>
      match parse_thread content with
      | Ok f => map (search_message channel channel_type)
                  (List.filter (λ m, contains (to_lowercase (m_body m)) query) (messages_of (entries f)))
      | _ => []
      end
  end.

Definition scan_thread (query path channel channel_type : str) (matches : list SearchMessage) : list SearchMessage :=
  fold_left insert_latest_match (thread_matches query path channel channel_type) matches.

(** [path.extension() == Some("thread")], and [path.file_stem()]. *)
Definition thread_stem (name : str) : option str :=
  stem ← strip_suffix (lit ".thread") name; if is_empty stem then None else Some stem.

Definition scan_flat_threads (query dir channel_type : str) (shown : str → bool) (matches : list SearchMessage) : list SearchMessage :=
  fold_left (λ matches name,
    match thread_stem name with
    | Some stem => if shown stem then scan_thread query (under dir name) stem channel_type matches else matches
    | None => matches
    end) (list_dir dir) matches.

Definition card_threads : list (str * str) :=
  flat_map (λ channel,
    if negb (is_dir (pw_tree w) (under (lit "channels") channel)) then []
    else
      let cards := lit "channels/" ++ channel ++ lit "/cards" in
      omap (λ card_id, if is_dir (pw_tree w) (under cards card_id) then Some (channel, card_id) else None) (list_dir cards))
    (list_dir (lit "channels")).

Definition scan_card_threads (query : str) (matches : list SearchMessage) : list SearchMessage :=
  fold_left (λ matches '(channel, card_id),
    scan_thread query (card_thread_of (card_rel channel card_id)) (card_rel channel card_id) (lit "card") matches)
    card_threads matches.

(** The user takes part in the direct message. *)
Definition my_dm_stem (me stem : str) : bool :=
  is_some_and (parse_dm_filename stem) (λ '(a, b), (a =?? me) || (b =?? me)).

Definition search_messages (query : str) : list SearchMessage :=
  let query := to_lowercase query in
  let matches := scan_flat_threads query (lit "channels") (lit "channel") (λ _, true) [] in
  let matches := scan_card_threads query matches in
  match pw_user w with
  | Some me => scan_flat_threads query (lit "dm") (lit "dm") (my_dm_stem me) matches
  | None => matches
  end.

Definition handle_search (query : str) : option (list SearchMessage) :=
  if is_empty (trim query) then None else Some (search_messages query).

(** ** What a search finds *)

(** The threads a search looks at: path, name and type. *)
Definition searched_threads : list (str * str * str) :=
  omap (λ name, stem ← thread_stem name; Some (under (lit "channels") name, stem, lit "channel")) (list_dir (lit "channels"))
  ++ map (λ '(channel, card_id), (card_thread_of (card_rel channel card_id), card_rel channel card_id, lit "card")) card_threads
  ++ match pw_user w with
     | Some me => omap (λ name, stem ← thread_stem name;
                          if my_dm_stem me stem then Some (under (lit "dm") name, stem, lit "dm") else None) (list_dir (lit "dm"))
     | None => []
     end.

(** Every message in them that contains the text. *)
Definition all_matches (query : str) : list SearchMessage :=
  flat_map (λ '(path, channel, channel_type), thread_matches (to_lowercase query) path channel channel_type) searched_threads.

Definition scan_all (query : str) (threads : list (str * str * str)) (matches : list SearchMessage) : list SearchMessage :=
  fold_left (λ matches '(path, channel, channel_type), scan_thread query path channel channel_type matches) threads matches.

Lemma scan_all_app query l1 l2 matches : scan_all query (l1 ++ l2) matches = scan_all query l2 (scan_all query l1 matches).
Proof. unfold scan_all. apply fold_left_app. Qed.

Lemma scan_flat_all query dir channel_type shown matches :
  scan_flat_threads query dir channel_type shown matches =
  scan_all query (omap (λ name, stem ← thread_stem name; if shown stem then Some (under dir name, stem, channel_type) else None) (list_dir dir)) matches.
Proof.
  unfold scan_flat_threads, scan_all. generalize (list_dir dir). intros l. revert matches. induction l as [|name l IH]; intros matches; [done|].
  cbn [fold_left omap list_omap]. destruct (thread_stem name) as [stem|]; cbn [mbind option_bind]; [|apply IH].
  destruct (shown stem); apply IH.
Qed.

Lemma scan_cards_all query matches :
  scan_card_threads query matches =
  scan_all query (map (λ '(channel, card_id), (card_thread_of (card_rel channel card_id), card_rel channel card_id, lit "card")) card_threads) matches.
Proof.
  unfold scan_card_threads, scan_all. generalize card_threads. intros l. revert matches.
  induction l as [|[c i] l IH]; intros matches; [done|]. cbn [fold_left map]. apply IH.
Qed.

Lemma search_scans query : search_messages query = scan_all (to_lowercase query) searched_threads [].
Proof.
  unfold search_messages, searched_threads. rewrite !scan_all_app, scan_cards_all, scan_flat_all. destruct (pw_user w) as [me|]; [|done].
  by rewrite scan_flat_all.
Qed.

Lemma scan_all_newest query threads all matches :
  newest SEARCH_RESULT_LIMIT all matches →
  newest SEARCH_RESULT_LIMIT (all ++ flat_map (λ '(path, channel, channel_type), thread_matches query path channel channel_type) threads)
    (scan_all query threads matches).
Proof.
  revert all matches. induction threads as [|[[path channel] ty] threads IH]; intros all matches H; cbn [scan_all fold_left flat_map].
  { by rewrite app_nil_r. }
  rewrite app_assoc. apply IH. unfold scan_thread. generalize (thread_matches query path channel ty). intros l. clear IH.
  revert all matches H. induction l as [|m l IH]; intros all matches H; cbn [fold_left]; [by rewrite app_nil_r|].
  change (all ++ m :: l) with (all ++ [m] ++ l). rewrite app_assoc. apply IH. by apply newest_step.
Qed.

Lemma match_origin query m :
  m ∈ all_matches query → ∃ path channel ty, (path, channel, ty) ∈ searched_threads ∧ sm_channel m = channel ∧ sm_channel_type m = ty.
Proof.
  unfold all_matches. rewrite list_elem_of_In, in_flat_map. intros ([[path channel] ty] & Hin & Hm). apply list_elem_of_In in Hin, Hm.
  exists path, channel, ty. split; [done|]. unfold thread_matches in Hm. destruct (poll_read w path) as [content|]; [|by apply elem_of_nil in Hm].
  destruct (parse_thread content) as [f| |]; [|by apply elem_of_nil in Hm..]. apply list_elem_of_fmap in Hm as (msg & -> & _). done.
Qed.

(** A search finds the newest messages with the text, and no direct message of others.
    The answer is the ten newest, newest first, of all messages in the threads of channels,
    of cards and of the user's own direct messages that contain the text without regard to
    case, or all of them where there are fewer; the order in which the directories are
    listed does not matter to that. *)
Theorem search_exact (query : str) (result : list SearchMessage) (Hrun : handle_search query = Some result) :
  newest SEARCH_RESULT_LIMIT (all_matches query) result
  ∧ ∀ m, m ∈ result → sm_channel_type m = lit "dm" →
      ∃ me a b, pw_user w = Some me ∧ parse_dm_filename (sm_channel m) = Some (a, b) ∧ (me = a ∨ me = b).
Proof.
  unfold handle_search in Hrun. destruct (is_empty (trim query)); [done|]. injection Hrun as <-.
  assert (newest SEARCH_RESULT_LIMIT (all_matches query) (search_messages query)) as Hnew.
  { rewrite search_scans. apply (scan_all_newest _ searched_threads []). exists [].
    split; [done|]. split; [apply SSorted_nil|]. split; [done|]. intros r s Hr. by apply elem_of_nil in Hr. }
  split; [done|]. intros m Hm Hdm. destruct Hnew as (rest & Hp & _).
  assert (m ∈ all_matches query) as Hin by (rewrite Hp; apply elem_of_app; by left).
  destruct (match_origin query m Hin) as (path & channel & ty & Ht & <- & <-). rewrite Hdm in Ht.
  unfold searched_threads in Ht. rewrite !elem_of_app, !list_elem_of_omap in Ht. destruct Ht as [(name & _ & Hn)|[Hc|Hd]].
  - by destruct (thread_stem name).
  - apply list_elem_of_fmap in Hc as ([c i] & Hc & _). done.
  - destruct (pw_user w) as [me|]; [|by apply elem_of_nil in Hd]. apply list_elem_of_omap in Hd as (name & _ & Hn).
    destruct (thread_stem name) as [stem|]; cbn in Hn; [|done]. unfold my_dm_stem in Hn.
    destruct (parse_dm_filename stem) as [[a b]|] eqn:Ep; cbn in Hn; [|done]. destruct ((a =?? me) || (b =?? me)) eqn:Eh; [|done].
    injection Hn as _ <-. exists me, a, b. split_and!; [done|done|]. rewrite orb_true_iff, !bool_decide_eq_true in Eh. naive_solver.
Qed.

(** C13: A thread of replies is shown whole, and nothing else.  Around any line of a channel
    whose file is a log, the walk ends, and it shows, by line number and each once, exactly
    the entries whose chain of replies leads to the root, where the root is the end of the
    chain of the line asked for: it replies to nothing the file has. *)
Theorem get_thread_exact (channel : str) (line_number : N) (es : list ThreadEntry)
    (Hname : is_ok (ChannelName_new channel) = true)
    (Hread : read_entries (readable_path (channel_thread_path channel) (archived_channel_thread_path channel)).1 = Ok es)
    (Hlog : log es) :
  ∃ root found, handle_get_thread channel line_number = Ok (MkGetThreadResponse channel root (enrich_channel_entries w found channel))
    ∧ StronglySorted (λ a b, entry_line_number a < entry_line_number b) found
    ∧ (∀ e, e ∈ found ↔ e ∈ es ∧ in_thread es root (entry_line_number e))
    ∧ in_thread es root line_number ∧ is_top es root.
Proof.
  destruct (thread_of_exact es line_number Hlog) as (root & found & Ht & Hrest). exists root, found. split; [|done].
  unfold handle_get_thread. rewrite Hname. cbn [negb guard_err res_bind].
  destruct (readable_path _ _) as [path b]. cbn [fst] in Hread. rewrite Hread. cbn [res_bind]. by rewrite Ht.
Qed.

(** ** Reading on *)

(** A client that reads on from the last line it has seen. *)
Fixpoint read_on (fuel : nat) (limit : nat) (since : N) (es : list ThreadEntry) : list ThreadEntry :=
  match fuel with
  | O => []
  | S fuel' =>
      let got := selected_entries (Some limit) (Some since) es in
      match last got with
      | Some e => got ++ read_on fuel' limit (entry_line_number e) es
      | None => []
      end
  end.

Lemma sorted_lines_filter n es :
  StronglySorted (λ a b, entry_line_number a < entry_line_number b) es →
  StronglySorted (λ a b, entry_line_number a < entry_line_number b) (List.filter (λ e, n <? entry_line_number e) es).
Proof.
  induction 1 as [|x l Hs IH Hx]; cbn; [constructor|]. destruct (n <? entry_line_number x); [|done]. constructor; [done|].
  rewrite Forall_forall in Hx |- *. intros e [He _]%elem_of_bfilter. by apply Hx.
Qed.

Lemma filter_after es k e :
  StronglySorted (λ a b, entry_line_number a < entry_line_number b) es → es !! k = Some e →
  List.filter (λ x, entry_line_number e <? entry_line_number x) es = drop (S k) es.
Proof.
  intros Hs. revert k. induction Hs as [|x l Hs IH Hx]; intros k; [done|]. rewrite Forall_forall in Hx. destruct k as [|k]; cbn.
  - intros [= ->]. rewrite N.ltb_irrefl, drop_0. clear -Hx. induction l as [|y l IH]; [done|]. cbn.
    pose proof (Hx y ltac:(by left)) as Hy. apply N.ltb_lt in Hy. rewrite Hy. f_equal. apply IH. intros z Hz. apply Hx. by right.
  - intros Hk. pose proof (Hx e (list_elem_of_lookup_2 _ _ _ Hk)) as He. rewrite (proj2 (N.ltb_ge _ _)) by (cbn in He; lia).
    by apply IH.
Qed.

Lemma filter_filter_after n m (es : list ThreadEntry) :
  n ≤ m → List.filter (λ e, m <? entry_line_number e) es
          = List.filter (λ e, m <? entry_line_number e) (List.filter (λ e, n <? entry_line_number e) es).
Proof.
  intros Hle. induction es as [|x l IH]; [done|]. cbn. destruct (n <? entry_line_number x) eqn:En; cbn; [by rewrite IH|].
  apply N.ltb_ge in En. rewrite (proj2 (N.ltb_ge _ _)) by lia. done.
Qed.

(** Reading on in steps of any size gives everything after the line, in order and each
    entry once. *)
Theorem read_on_complete (fuel limit : nat) (since : N) (es : list ThreadEntry) (Hlog : log es) (Hlim : (0 < limit)%nat)
    (Hfuel : (length (List.filter (λ e, (since <? entry_line_number e)%N) es) < fuel)%nat) :
  read_on fuel limit since es = selected_entries None (Some since) es.
Proof.
  revert since Hfuel. induction fuel as [|fuel IH]; intros since Hfuel; [lia|]. cbn [read_on selected_entries is_some].
  set (F := List.filter (λ e, since <? entry_line_number e) es) in *.
  assert (StronglySorted (λ a b, entry_line_number a < entry_line_number b) F) as HF by apply sorted_lines_filter, (log_sorted es Hlog).
  destruct (last (take limit F)) as [e|] eqn:El.
  - rewrite last_lookup, length_take in El.
    assert (length F ≠ 0)%nat as Hne by (intros ->%nil_length_inv; by rewrite take_nil in El).
    set (k := Nat.pred (limit `min` length F)) in El. assert (F !! k = Some e) as Hk.
    { rewrite lookup_take_lt in El; [done|]. unfold k. lia. }
    assert (since ≤ entry_line_number e) as Hse.
    { apply list_elem_of_lookup_2, elem_of_bfilter in Hk as [_ H%N.ltb_lt]. lia. }
    assert (List.filter (λ x, entry_line_number e <? entry_line_number x) es = drop limit F) as Hnext.
    { rewrite (filter_filter_after since) by done. fold F. rewrite (filter_after F k e HF Hk).
      unfold k. destruct (decide (limit ≤ length F)%nat).
      - f_equal. lia.
      - rewrite !drop_ge; [done|lia|lia]. }
    rewrite IH; [cbn [selected_entries]; rewrite Hnext; apply take_drop|].
    rewrite Hnext, length_drop. lia.
  - apply last_None in El. destruct F as [|x F']; [done|]. destruct limit; [lia|done].
Qed.

End reading.

(** ** Runs *)

Section runs.
#[local] Existing Instance ascii_unicode.
#[local] Existing Instance std_percent_encoding.
#[local] Existing Instance keyword_json.
#[local] Existing Instance ascii_lowercase.
#[local] Existing Instance channel_meta_yaml.
#[local] Existing Instance card_meta_yaml.
#[local] Existing Instance no_sessions_yaml.
#[local] Existing Instance user_meta_yaml.
#[local] Existing Instance no_cron_specs.

(** The greeting with a reply and another message. *)
Definition reply : ThreadEntry :=
  EntryMessage (MkMessage 2 1 (MkHandler (lit "bob")) (lit "20260101T000100Z") (lit "Hi Alice") [] []).
Definition remark : ThreadEntry :=
  EntryMessage (MkMessage 3 0 (MkHandler (lit "alice")) (lit "20260101T000200Z") (lit "lunch") [] []).
Definition ops_entries : list ThreadEntry := [greeting; reply; remark].
Definition ops_thread : str := concat (map render_entry ops_entries).

Definition ops_dir (dir : str) : list str :=
  if dir =?? lit "channels" then [lit "ops.meta.yaml"; lit "ops.thread"]
  else if dir =?? lit "dm" then [lit "alice--bob.thread"] else [].

Definition reader_world (me : str) (members : list str) : PollWorld :=
  MkPollWorld
    (<[channel_meta_path (lit "ops") := unwrap_or (yaml_to_string (MkChannelMeta (lit "ops") (lit "alice") (lit "20260101T000000Z") [] members None)) []]>
     (<[channel_thread_path (lit "ops") := ops_thread]>
      {[dm_thread_path (lit "alice--bob") := ops_thread]}))
    (λ _, true) (Some me) false false false (λ _, Some new_commit)
    (λ _ _, Some (diff_text (ops_diff [greeting_text]))) (λ _ _, Some []) map_to_list.

Lemma ops_log : log ops_entries.
Proof.
  split.
  - repeat constructor.
  - intros e He. repeat (apply elem_of_cons in He as [->|He]; [done|]). by apply elem_of_nil in He.
Qed.

Lemma get_thread_exact_witness :
  ∃ root found, handle_get_thread (reader_world (lit "bob") [lit "bob"]) (lit "ops") 2
                = Ok (MkGetThreadResponse (lit "ops") root (enrich_channel_entries (reader_world (lit "bob") [lit "bob"]) found (lit "ops")))
    ∧ in_thread ops_entries root 2.
Proof.
  destruct (get_thread_exact (reader_world (lit "bob") [lit "bob"]) (lit "ops") 2 ops_entries) as (root & found & H & _ & _ & Hin & _).
  - by vm_compute.
  - by vm_compute.
  - apply ops_log.
  - exists root, found. exact (conj H Hin).
Defined.

Definition found_hi : list SearchMessage :=
  unwrap_or (handle_search (reader_world (lit "bob") [lit "bob"]) ops_dir (lit "HI")) [].

Lemma search_exact_witness :
  newest SEARCH_RESULT_LIMIT (all_matches (reader_world (lit "bob") [lit "bob"]) ops_dir (lit "HI")) found_hi
  ∧ length found_hi = 4%nat.
Proof.
  split; [|by vm_compute]. refine (proj1 (search_exact (reader_world (lit "bob") [lit "bob"]) ops_dir (lit "HI") found_hi _)). by vm_compute.
Defined.

(** Who is not in a direct message cannot search it but can read it, and who is not in a
    channel cannot read it but can search it and read its threads. *)
Example others_dm_readable :
  let w := reader_world (lit "dave") [lit "alice"; lit "bob"] in
  is_ok (handle_read w (lit "dm:alice,bob") None None) = true
  ∧ handle_read w (lit "ops") None None = Err NotMember
  ∧ is_ok (handle_get_thread w (lit "ops") 2) = true
  ∧ map sm_channel (unwrap_or (handle_search w ops_dir (lit "HI")) []) = [lit "ops"; lit "ops"].
Proof. vm_compute. auto. Qed.

(** A channel without a list of members is open to a poll and closed to a read. *)
Example no_members_polled_not_read :
  let w := reader_world (lit "dave") [] in
  handle_read w (lit "ops") None None = Err NotMember
  ∧ match handle_poll w (Some old_commit) with Ok r => map pc_channel (pr_changes r) = [lit "ops"] | _ => False end.
Proof. vm_compute. auto. Qed.

End runs.
