(* ===== verification/Onboard.v ===== *)
(** * Onboarding

    How a clone gets its user ([gitim-daemon/src/onboard.rs]): the identity is taken from the
    request or asked of the server ([gitim-daemon/src/identity.rs],
    [gitim-core/src/identity.rs]), remembered in [.gitim/me.json]
    ([gitim-core/src/me_json.rs]), the repository gets its first files, the user a record
    and a place in the general channel.

    [serde_json] and [curl] are parameters.  The steps share the clone and stop at the first
    error; what the steps before it did stays done. *)

From S2P Require Import Prelude RustStr StrFacts Names QuickSession Asset Links Thread Compliance Meta Git Daemon Cards ChannelArchive Users GitText.
From stdpp Require Import options.
Open Scope N_scope.
Open Scope list_scope.

(** ** [me.json] *)

Record MeJson := MkMeJson {
  me_handler : option str;
  me_display_name : option str;
  me_git_server : option str;
  me_onboarded_at : option str;
  me_github_email : option str;
  me_guest : option bool;
  me_admin : option bool;
  me_provider : option str;
  me_model : option str;
  me_effort : option str;
  me_system_prompt : option str;
  me_env : option (gmap str str);
  me_llm_provider : option str;
  me_llm_model : option str;
  me_extra : gmap str str;
}.

Definition MeJson_default : MeJson :=
  MkMeJson None None None None None None None None None None None None None None ∅.

(** [if patch.is_some() { self = patch }]. *)
Definition over {A} (patch old : option A) : option A := match patch with Some _ => patch | None => old end.

Definition merged_with (self patch : MeJson) : MeJson :=
  MkMeJson (over (me_handler patch) (me_handler self)) (over (me_display_name patch) (me_display_name self))
    (over (me_git_server patch) (me_git_server self)) (over (me_onboarded_at patch) (me_onboarded_at self))
    (over (me_github_email patch) (me_github_email self)) (over (me_guest patch) (me_guest self))
    (over (me_admin patch) (me_admin self)) (over (me_provider patch) (me_provider self)) (over (me_model patch) (me_model self))
    (over (me_effort patch) (me_effort self)) (over (me_system_prompt patch) (me_system_prompt self))
    (over (me_env patch) (me_env self)) (over (me_llm_provider patch) (me_llm_provider self))
    (over (me_llm_model patch) (me_llm_model self)) (me_extra patch ∪ me_extra self).

Definition clear_guest (m : MeJson) : MeJson :=
  MkMeJson (me_handler m) (me_display_name m) (me_git_server m) (me_onboarded_at m) (me_github_email m) None (me_admin m)
    (me_provider m) (me_model m) (me_effort m) (me_system_prompt m) (me_env m) (me_llm_provider m) (me_llm_model m) (me_extra m).

(** [serde_json] on [me.json]: what is written is read back; and on the answer of a server:
    its text fields and its numbers. *)
Class MeFormat := {
  me_to_string : MeJson → option str;
  me_from_str : str → option MeJson;
  me_roundtrip : ∀ m t, me_to_string m = Some t → me_from_str t = Some m;
}.
Class ApiJson := {
  api_value : Type;
  api_from_str : str → option api_value;
  api_str : api_value → str → option str;
  api_u64 : api_value → str → option N;
}.

(** ** Identities *)

Inductive AuthPayload :=
  | AuthGit (handler display_name : str) (github_email : option str)
  | AuthGitHub (token : str)
  | AuthGitea (token url : str)
  | AuthGitLab (token url : str).

Inductive GitServer := ServerGit | ServerGitHub | ServerGitea | ServerGitLab.

Definition GitServer_parse (s : str) : option GitServer :=
  if s =?? lit "git" then Some ServerGit
  else if s =?? lit "github" then Some ServerGitHub
  else if s =?? lit "gitea" then Some ServerGitea
  else if s =?? lit "gitlab" then Some ServerGitLab
  else None.

Record InferredIdentity := MkInferredIdentity { id_handler : Handler; id_display_name : str; id_email : option str }.

Inductive IdentityError :=
  | CurlFailed
  | IdentityParse
  | IdentityMissingField (field : str)
  | IdentityHandler (e : HandlerError).

Definition non_empty_str (s : str) : option str := if is_empty s then None else Some s.

Section identity.
Context `{UC : !Unicode} `{LC : !Lowercase} `{AJ : !ApiJson}.

Definition github_email_from_user_json (v : api_value) : option str :=
  match (s ← api_str v (lit "email"); non_empty_str s) with
  | Some email => Some email
  | None =>
      match api_u64 v (lit "id"), (s ← api_str v (lit "login"); non_empty_str s) with
      | Some id, Some login => Some (fmt_N id ++ lit "+" ++ login ++ lit "@users.noreply.github.com")
      | _, _ => None
      end
  end.

(** The field a server names the account by, in lower case. *)
Definition login_of (field : str) (body : str) : res (api_value * str) IdentityError :=
  let? v := ok_or (api_from_str body) IdentityParse in
  let? login := ok_or (api_str v field) (IdentityMissingField field) in
  Ok (v, to_lowercase login).

Definition github_identity_from_user_json (body : str) : res InferredIdentity IdentityError :=
  let? '(v, login) := login_of (lit "login") body in
  let display_name := unwrap_or (api_str v (lit "name")) login in
  let email := github_email_from_user_json v in
  let? handler := map_err IdentityHandler (Handler_new login) in
  Ok (MkInferredIdentity handler display_name email).

Definition gitea_identity_from_user_json (body : str) : res InferredIdentity IdentityError :=
  let? '(v, login) := login_of (lit "login") body in
  let display_name := unwrap_or (s ← api_str v (lit "full_name"); non_empty_str s) login in
  let? handler := map_err IdentityHandler (Handler_new login) in
  Ok (MkInferredIdentity handler display_name None).

Definition gitlab_identity_from_user_json (body : str) : res InferredIdentity IdentityError :=
  let? '(v, username) := login_of (lit "username") body in
  let display_name := unwrap_or (api_str v (lit "name")) username in
  let? handler := map_err IdentityHandler (Handler_new username) in
  Ok (MkInferredIdentity handler display_name None).

(** [curl] with a header and a URL: its output where it exits well; [api_base] is the
    environment variable. *)
Definition infer_identity (curl : str → str → option str) (api_base : option str) (auth : AuthPayload)
  : res InferredIdentity IdentityError :=
  match auth with
  | AuthGit handler display_name github_email =>
      let? validated := map_err IdentityHandler (Handler_new handler) in
      Ok (MkInferredIdentity validated display_name (s ← github_email; non_empty_str s))
  | AuthGitHub token =>
      let base := unwrap_or api_base (lit "https://api.github.com") in
      let? body := ok_or (curl (lit "Authorization: token " ++ token) (trim_end_matches slash base ++ lit "/user")) CurlFailed in
      github_identity_from_user_json body
  | AuthGitea token url =>
      let? body := ok_or (curl (lit "Authorization: token " ++ token) (trim_end_matches slash url ++ lit "/api/v1/user")) CurlFailed in
      gitea_identity_from_user_json body
  | AuthGitLab token url =>
      let? body := ok_or (curl (lit "Authorization: Bearer " ++ token) (trim_end_matches slash url ++ lit "/api/v4/user")) CurlFailed in
      gitlab_identity_from_user_json body
  end.

End identity.

(** ** The steps *)

Inductive OnboardError :=
  | MissingAuth
  | UnknownServer (s : str)
  | InferFailed (e : IdentityError)
  | MeDir
  | MeSerialize
  | MeWrite
  | GitignoreWrite
  | ChannelsDir
  | GeneralSerialize
  | GeneralWrite
  | GeneralHandler (e : HandlerError)
  | InitCommit
  | InitPush
  | InitDiscard
  | Reserved (h : str)
  | UsersDir
  | UserMetaSerialize
  | UserMetaWrite
  | RegisterCommit
  | RegisterPush (e : PushFailure)
  | JoinRead
  | JoinParse
  | JoinThread (e : ParseError)
  | JoinWrite
  | JoinSerialize.

Inductive OnboardResponse := OnboardGuest | OnboardUser (handler : str) (created : bool).

Definition me_path : str := lit ".gitim/me.json".
Definition gitignore : str := lit ".gitignore".
Definition general_meta : str := channel_meta_path (lit "general").
Definition general_thread : str := channel_thread_path (lit "general").

(** A step on the clone that may stop. *)
Definition RepoStep (A : Type) : Type := Repo → Repo * res A OnboardError.
Definition done {A} (a : A) : RepoStep A := λ r, (r, Ok a).
Definition stop {A} (e : OnboardError) : RepoStep A := λ r, (r, Err e).
Definition next {A B} (s : RepoStep A) (k : A → RepoStep B) : RepoStep B := λ r,
  match s r with
  | (r', Ok a) => k a r'
  | (r', Err e) => (r', Err e)
  | (r', Panicked) => (r', Panicked)
  end.
Definition with_clone {A} (k : Repo → RepoStep A) : RepoStep A := λ r, k r r.
Definition check {A} (a : res A OnboardError) : RepoStep A := λ r, (r, a).

Notation "'step' x := s 'in' k" := (next s (λ x, k)) (at level 10, x pattern, s at level 100, k at level 200).
Notation "'step!' s 'in' k" := (next s (λ _, k)) (at level 10, s at level 100, k at level 200).

Section onboard.
Context `{UC : !Unicode} `{PE : !PercentEncoding} `{SJ : !SerdeJson} `{LC : !Lowercase} `{AJ : !ApiJson} `{MF : !MeFormat} `{YC : !Yaml ChannelMeta} `{YU : !Yaml UserMeta} `{GI : !Git}.

(** What the environment answers. *)
Record OnboardEnv := MkOnboardEnv {
  ob_now_me : str;
  ob_now_init : str;
  ob_now_join : str;
  ob_read_ok : str → bool;
  ob_write_ok : str → bool;
  ob_mkdir_ok : str → bool;
  ob_remove_ok : bool;
  ob_curl : str → str → option str;
  ob_api_base : option str;
  ob_init_commit : CommitEnv;
  ob_init_push : git_env;
  ob_discard : option Repo;
  ob_register_commit : CommitEnv;
  ob_register_push : nat → PushEnv;
  ob_join_commit : CommitEnv;
}.

Context (env : OnboardEnv).

Definition read_file (r : Repo) (p : str) : option str := if ob_read_ok env p then r_work r !! p else None.
Definition put_file (p content : str) (e : OnboardError) : RepoStep unit := λ r,
  if ob_write_ok env p then (write_work p content r, Ok tt) else (r, Err e).
Definition create_dir_all (p : str) (e : OnboardError) : RepoStep unit := check (guard_err (negb (ob_mkdir_ok env p)) e).

Definition infer (git_server : str) (auth : AuthPayload) : res InferredIdentity OnboardError :=
  let? _ := ok_or (GitServer_parse git_server) (UnknownServer git_server) in
  map_err InferFailed (infer_identity (ob_curl env) (ob_api_base env) auth).

(** *** [me.json] *)

Definition read_existing_me (r : Repo) : MeJson :=
  unwrap_or (content ← read_file r me_path; me_from_str content) MeJson_default.

Definition me_patch (handler display_name git_server : str) (admin : bool) (github_email : option str) : MeJson :=
  MkMeJson (Some handler) (Some display_name) (Some git_server) (Some (ob_now_me env)) github_email None (Some admin)
    None None None None None None None ∅.

Definition write_me_json (handler display_name git_server : str) (admin : bool) (github_email : option str) : RepoStep unit :=
  step! create_dir_all (lit ".gitim") MeDir in
  with_clone (λ r,
    let merged := clear_guest (merged_with (read_existing_me r) (me_patch handler display_name git_server admin github_email)) in
    step content := check (ok_or (me_to_string merged) MeSerialize) in
    put_file me_path content MeWrite).

Definition guest_me : MeJson :=
  MkMeJson None None None (Some (ob_now_me env)) None (Some true) None None None None None None None None ∅.

Definition write_guest_me_json : RepoStep unit :=
  step! create_dir_all (lit ".gitim") MeDir in
  step content := check (ok_or (me_to_string guest_me) MeSerialize) in
  put_file me_path content MeWrite.

(** *** The first files *)

Definition ignores_gitim (content : str) : bool := existsb (λ line, trim line =?? lit ".gitim/") (lines content).

Definition ensure_gitignore : RepoStep (list str) := with_clone (λ r,
  let content := unwrap_or (read_file r gitignore) [] in
  if ignores_gitim content then done []
  else
    let content := if negb (is_empty content) && negb (ends_with content [nl]) then content ++ [nl] else content in
    step! put_file gitignore (content ++ lit ".gitim/" ++ [nl]) GitignoreWrite in
    done [gitignore]).

Definition first_general_meta (handler : str) : ChannelMeta :=
  MkChannelMeta (lit "General") handler (ob_now_init env) (lit "默认频道") [handler] None.

Definition ensure_general (handler : str) : RepoStep (list str) :=
  step! create_dir_all (lit "channels") ChannelsDir in
  with_clone (λ r,
    if path_exists (r_work r) general_meta then done []
    else
      step meta_str := check (ok_or (yaml_to_string (first_general_meta handler)) GeneralSerialize) in
      step! put_file general_meta meta_str GeneralWrite in
      if path_exists (r_work r) general_thread then done [general_meta]
      else
        step h := check (map_err GeneralHandler (Handler_new handler)) in
        step! put_file general_thread (format_event 1 h (ob_now_init env) (lit "join") (json_obj [])) GeneralWrite in
        done [general_meta; general_thread]).

(** [add_and_commit], then the push; somebody else's first files win. *)
Definition commit_first_files (has_remote : bool) (changed_paths : list str) : RepoStep unit := λ r,
  if is_empty changed_paths then (r, Ok tt)
  else
    let '(r1, ok) := add_and_commit_as (ob_init_commit env) changed_paths r in
    if negb ok then (r1, Err InitCommit)
    else if negb has_remote then (r1, Ok tt)
    else match git_push (ob_init_push env) r1 with
         | Git.Pushed => (r1, Ok tt)
         | Git.PushConflict => match ob_discard env with Some r2 => (r2, Ok tt) | None => (r1, Err InitDiscard) end
         | Git.PushError => (r1, Err InitPush)
         end.

Definition ensure_repo (has_remote : bool) (handler : str) : RepoStep unit :=
  step paths1 := ensure_gitignore in
  step paths2 := ensure_general handler in
  commit_first_files has_remote (paths1 ++ paths2).

(** *** The record *)

Definition new_user_meta (display_name : str) (kind : UserKind) : UserMeta :=
  MkUserMeta display_name (lit "member") (lit "GitIM user") [] kind.

Definition commit_user (has_remote : bool) (handler : str) : RepoStep bool := λ r,
  let path := user_meta_path handler in
  let '(r1, ok) := add_and_commit_as (ob_register_commit env) [path] r in
  if negb ok then ((if ob_remove_ok env then delete_work path r1 else r1), Err RegisterCommit)
  else let '(r2, pushed) := push_with_retry has_remote (ob_register_push env) r1 in
       (r2, match pushed with Ok _ => Ok true | Err e => Err (RegisterPush e) | Panicked => Panicked end).

Definition register_user (has_remote : bool) (handler display_name : str) (kind : UserKind) : RepoStep bool := with_clone (λ r,
  if path_exists (r_work r) (archived_user_meta_path handler) then stop (Reserved handler)
  else
    step! create_dir_all (lit "users") UsersDir in
    if path_exists (r_work r) (user_meta_path handler) then done false
    else
      step meta_str := check (ok_or (yaml_to_string (new_user_meta display_name kind)) UserMetaSerialize) in
      step! put_file (user_meta_path handler) meta_str UserMetaWrite in
      commit_user has_remote handler).

(** *** The general channel *)

(** The commit's failure is passed over. *)
Definition commit_join : RepoStep unit := λ r, ((add_and_commit_as (ob_join_commit env) [general_thread; general_meta] r).1, Ok tt).

Definition auto_join_general (handler : str) : RepoStep unit := with_clone (λ r,
  if negb (path_exists (r_work r) general_meta) then done tt
  else
    step meta_content := check (ok_or (read_file r general_meta) JoinRead) in
    step meta := check (ok_or (yaml_from_str meta_content) JoinParse) in
    if bool_decide (handler ∈ cm_members meta) then done tt
    else
      step f := check (map_err JoinThread (parse_thread (unwrap_or (read_file r general_thread) []))) in
      let next_line := wrapping_add (last_line_number f) 1 in
      step h := check (map_err GeneralHandler (Handler_new handler)) in
      let event_line := format_event next_line h (ob_now_join env) (lit "join") (json_obj []) in
      step! put_file general_thread (unwrap_or (r_work r !! general_thread) [] ++ event_line) JoinWrite in
      let members := sort_strings (cm_members meta ++ [handler]) in
      step meta_str := check (ok_or (yaml_to_string (set_members meta members)) JoinSerialize) in
      step! put_file general_meta meta_str JoinWrite in
      commit_join).

(** ** [handle_onboard] *)

Record OnboardState := MkOnboardState {
  os_daemon : GDaemon;
  os_current_user : option str;
  os_github_email : option str;
  os_is_admin : bool;
  os_is_guest : bool;
  os_sync_loop : bool;
  os_cron_engine : bool;
}.

Definition set_clone (st : OnboardState) (r : Repo) : OnboardState :=
  MkOnboardState (with_repo (os_daemon st) r) (os_current_user st) (os_github_email st) (os_is_admin st) (os_is_guest st)
    (os_sync_loop st) (os_cron_engine st).

Definition onboard_guest (st : OnboardState) : OnboardState * res OnboardResponse OnboardError :=
  let '(r, result) := write_guest_me_json (g_repo (os_daemon st)) in
  match result with
  | Ok _ => (MkOnboardState (with_repo (os_daemon st) r) None (os_github_email st) false true true (os_cron_engine st), Ok OnboardGuest)
  | Err e => (set_clone st r, Err e)
  | Panicked => (set_clone st r, Panicked)
  end.

(** The steps after [me.json]: the repository, the record, the general channel. *)
Definition enter_repo (has_remote : bool) (identity : InferredIdentity) (join_general : bool) (kind : UserKind) : RepoStep bool :=
  let handler := handler_str (id_handler identity) in
  step! ensure_repo has_remote handler in
  step created := register_user has_remote handler (id_display_name identity) kind in
  if created && join_general then step! auto_join_general handler in done created else done created.

Definition handle_onboard (st : OnboardState) (git_server : str) (auth : option AuthPayload) (admin guest join_general : bool) (kind : UserKind)
  : OnboardState * res OnboardResponse OnboardError :=
  if guest then onboard_guest st
  else
    match (let? auth := ok_or auth MissingAuth in infer git_server auth) with
    | Ok identity =>
        let handler := handler_str (id_handler identity) in
        let '(r1, written) := write_me_json handler (id_display_name identity) git_server admin (id_email identity) (g_repo (os_daemon st)) in
        match written with
        | Ok _ =>
            let st1 := MkOnboardState (with_repo (os_daemon st) r1) (Some handler) (over (id_email identity) (os_github_email st))
                         (os_is_admin st) (os_is_guest st) (os_sync_loop st) (os_cron_engine st) in
            let '(r2, entered) := enter_repo (g_has_remote (os_daemon st)) identity join_general kind r1 in
            match entered with
            | Ok created =>
                let d := with_users (with_repo (os_daemon st) r2) (add_user handler (g_users (os_daemon st))) in
                (MkOnboardState d (Some handler) (os_github_email st1) admin false true true, Ok (OnboardUser handler created))
            | Err e => (set_clone st1 r2, Err e)
            | Panicked => (set_clone st1 r2, Panicked)
            end
        | Err e => (set_clone st r1, Err e)
        | Panicked => (set_clone st r1, Panicked)
        end
    | Err e => (st, Err e)
    | Panicked => (st, Panicked)
    end.

End onboard.

(** ** What a success has settled *)

Section onboarded.
Context `{UC : !Unicode} `{PE : !PercentEncoding} `{SJ : !SerdeJson} `{LC : !Lowercase} `{AJ : !ApiJson} `{MF : !MeFormat} `{YC : !Yaml ChannelMeta} `{YU : !Yaml UserMeta} `{GI : !Git}.

(** The work tree of a clone whose user is [h]. *)
Record Settled (h : str) (t : tree) : Prop := MkSettled {
  se_ignore : ∃ c, t !! gitignore = Some c ∧ ignores_gitim c = true;
  se_general : path_exists t general_meta = true;
  se_user : path_exists t (user_meta_path h) = true;
  se_active : path_exists t (archived_user_meta_path h) = false;
}.

(** The part that holds once the first files are there. *)
Definition founded (t : tree) : Prop :=
  (∃ c, t !! gitignore = Some c ∧ ignores_gitim c = true) ∧ path_exists t general_meta = true.

(** No push meets a conflict. *)
Definition calm (env : OnboardEnv) : Prop :=
  (∀ r, git_push (ob_init_push env) r ≠ Git.PushConflict)
  ∧ ∀ n r, git_push (pe_push (ob_register_push env n)) r ≠ Git.PushConflict.

Lemma next_Ok {A B} (s : RepoStep A) (k : A → RepoStep B) r r' b :
  next s k r = (r', Ok b) → ∃ a r1, s r = (r1, Ok a) ∧ k a r1 = (r', Ok b).
Proof. unfold next. destruct (s r) as [r1 [a| |]] eqn:E; [|done..]. intros H. by exists a, r1. Qed.

Lemma check_Ok {A} (a : res A OnboardError) r r' x : check a r = (r', Ok x) → r' = r ∧ a = Ok x.
Proof. by intros [= <- ->]. Qed.

Lemma write_file_Ok env p content e r r' u : put_file env p content e r = (r', Ok u) → r' = write_work p content r.
Proof. unfold put_file. destruct (ob_write_ok env p); [|done]. by intros [= <-]. Qed.

Lemma mkdir_Ok env p e r r' u : create_dir_all env p e r = (r', Ok u) → r' = r.
Proof. by intros [-> _]%check_Ok. Qed.

Lemma line_ignored content : content = [] ∨ ends_with content [nl] = true → ignores_gitim (content ++ lit ".gitim/" ++ [nl]) = true.
Proof.
  intros Hc. unfold ignores_gitim. apply existsb_exists. exists (lit ".gitim/"). split; [|by vm_compute]. apply list_elem_of_In.
  assert (lines (lit ".gitim/" ++ [nl]) = [lit ".gitim/"]) as Hl by by vm_compute.
  destruct Hc as [->|(a & ->)%ends_with_true]; [change (lit ".gitim/" ∈ lines (lit ".gitim/" ++ [nl])); rewrite Hl; by left|].
  unfold lines. rewrite <-app_assoc. cbn [app]. rewrite (split_inclusive_app nl a). rewrite map_app. apply elem_of_app. right.
  change (lit ".gitim/" ∈ lines (lit ".gitim/" ++ [nl])). rewrite Hl. by left.
Qed.

(** Where a step may write. *)
Definition writes_only (ps : list str) (r r' : Repo) : Prop := ∀ k, k ∉ ps → r_work r' !! k = r_work r !! k.

Lemma ensure_gitignore_Ok env r r' ps :
  ensure_gitignore env r = (r', Ok ps) →
  (∃ c, r_work r' !! gitignore = Some c ∧ ignores_gitim c = true) ∧ writes_only [gitignore] r r'.
Proof.
  unfold ensure_gitignore, with_clone. set (content := unwrap_or (read_file env r gitignore) []).
  destruct (ignores_gitim content) eqn:E.
  - intros [= <- <-]. split; [|done]. exists content. split; [|done]. unfold content, read_file in *.
    destruct (ob_read_ok env gitignore); [|by vm_compute in E]. by destruct (r_work r !! gitignore); [|by vm_compute in E].
  - intros (? & r1 & ->%write_file_Ok & [= <- <-])%next_Ok. split.
    + eexists. split; [apply lookup_insert_eq|]. apply line_ignored.
      destruct (is_empty content) eqn:Ee; [destruct content; [by left|done]|]. cbn [negb andb]. right.
      destruct (ends_with content [nl]) eqn:En; [done|]. cbn [negb]. apply ends_with_true. by exists content.
    + intros k Hk. cbn. rewrite lookup_insert_ne; [done|]. intros <-. apply Hk. by left.
Qed.

Lemma ensure_general_Ok env h r r' ps :
  ensure_general env h r = (r', Ok ps) → path_exists (r_work r') general_meta = true ∧ writes_only [general_meta; general_thread] r r'.
Proof.
  unfold ensure_general. intros (? & r1 & ->%mkdir_Ok & H)%next_Ok. unfold with_clone in H.
  destruct (path_exists (r_work r) general_meta) eqn:E; [by injection H as <- <-|].
  apply next_Ok in H as (meta_str & r1' & [-> _]%check_Ok & H). apply next_Ok in H as (? & r2 & ->%write_file_Ok & H).
  destruct (path_exists (r_work r) general_thread).
  - injection H as <- <-. split; [apply lookup_path_exists; eexists; apply lookup_insert_eq|].
    intros k Hk. cbn. rewrite lookup_insert_ne; [done|]. intros <-. apply Hk. by left.
  - apply next_Ok in H as (hd & r3 & [-> _]%check_Ok & H). apply next_Ok in H as (? & r4 & ->%write_file_Ok & [= <- <-]). split.
    + apply path_exists_insert_mono, lookup_path_exists. eexists. apply lookup_insert_eq.
    + intros k Hk. cbn. rewrite !lookup_insert_ne; [done| |]; intros <-; apply Hk; [by left|right; by left].
Qed.

Lemma ensure_repo_Ok env has_remote h r r' :
  calm env → ensure_repo env has_remote h r = (r', Ok tt) →
  founded (r_work r') ∧ writes_only [gitignore; general_meta; general_thread] r r'.
Proof.
  intros [Hcalm _]. unfold ensure_repo. intros (p1 & r1 & [Hc1 Hw1]%ensure_gitignore_Ok & H)%next_Ok.
  apply next_Ok in H as (p2 & r2 & [Hg Hw2]%ensure_general_Ok & H).
  assert (r_work r' = r_work r2) as Hsame.
  { unfold commit_first_files in H. destruct (is_empty (p1 ++ p2)); [by injection H as <-|].
    destruct (add_and_commit_as _ _ r2) as [r3 ok] eqn:Ec. apply add_and_commit_spec in Ec. destruct ok; [|done]. subst r3. cbn [negb] in H.
    destruct has_remote; [|by injection H as <-]. cbn [negb] in H. pose proof (Hcalm (MkRepo (r_work r2) (r_index (stage (p1 ++ p2) r2)) (r_index (stage (p1 ++ p2) r2)))) as Hpush.
    destruct (git_push (ob_init_push env) _); [by injection H as <-|done|done]. }
  rewrite Hsame. split; [split; [|done]|].
  - destruct Hc1 as (c & Hc & Hi). exists c. split; [|done]. rewrite Hw2; [done|]. apply (bool_decide_unpack _); by vm_compute.
  - intros k Hk. rewrite Hsame, Hw2 by set_solver. apply Hw1. set_solver.
Qed.

Lemma register_user_Ok env has_remote h display_name kind r r' created :
  calm env → register_user env has_remote h display_name kind r = (r', Ok created) →
  path_exists (r_work r') (user_meta_path h) = true ∧ path_exists (r_work r) (archived_user_meta_path h) = false
  ∧ writes_only [user_meta_path h] r r'.
Proof.
  intros [_ Hcalm]. unfold register_user, with_clone. destruct (path_exists (r_work r) (archived_user_meta_path h)) eqn:Ea; [done|].
  intros (? & r1 & ->%mkdir_Ok & H)%next_Ok. destruct (path_exists (r_work r) (user_meta_path h)) eqn:Eu; [by injection H as <- <-|].
  apply next_Ok in H as (meta_str & r1 & [-> _]%check_Ok & H). apply next_Ok in H as (? & r2 & ->%write_file_Ok & H).
  unfold commit_user in H. destruct (add_and_commit_as _ _ _) as [r3 ok] eqn:Ec. apply add_and_commit_spec in Ec. destruct ok; [|done]. cbn [negb] in H.
  destruct (push_with_retry _ _ r3) as [r4 pushed] eqn:Ep. pose proof (push_no_conflict has_remote (ob_register_push env) r3 Hcalm) as Hsame.
  rewrite Ep in Hsame. cbn in Hsame. subst r4. injection H as <- _. subst r3. cbn [r_work write_work]. split_and!; [|done|].
  - apply lookup_path_exists. eexists. apply lookup_insert_eq.
  - intros k Hk. cbn. rewrite lookup_insert_ne; [done|]. intros <-. apply Hk. by left.
Qed.

Lemma auto_join_Ok env h r r' :
  auto_join_general env h r = (r', Ok tt) →
  writes_only [general_meta; general_thread] r r' ∧ (path_exists (r_work r) general_meta = true → path_exists (r_work r') general_meta = true).
Proof.
  unfold auto_join_general, with_clone. destruct (path_exists (r_work r) general_meta) eqn:E; cbn [negb]; [|by intros [= <-]].
  intros (mc & r1 & [-> _]%check_Ok & H)%next_Ok. apply next_Ok in H as (meta & r1 & [-> _]%check_Ok & H).
  case_bool_decide; [by injection H as <-|]. apply next_Ok in H as (f & r1 & [-> _]%check_Ok & H).
  apply next_Ok in H as (hd & r1 & [-> _]%check_Ok & H). apply next_Ok in H as (? & r2 & ->%write_file_Ok & H).
  apply next_Ok in H as (meta_str & r3 & [-> _]%check_Ok & H). apply next_Ok in H as (? & r4 & ->%write_file_Ok & H).
  unfold commit_join in H. destruct (add_and_commit_as _ _ _) as [r5 ok] eqn:Ec. injection H as <-. apply add_and_commit_spec in Ec.
  assert (r_work r5 = <[general_meta := meta_str]> (<[general_thread := unwrap_or (r_work r !! general_thread) [] ++ format_event (wrapping_add (last_line_number f) 1) hd (ob_now_join env) (lit "join") (json_obj [])]> (r_work r))) as Hw.
  { destruct ok; [by subst r5|]. by destruct Ec as [-> | ->]. }
  cbn [fst]. split.
  - intros k Hk. rewrite Hw, !lookup_insert_ne; [done| |]; intros <-; apply Hk; [right; by left|by left].
  - intros _. rewrite Hw. apply lookup_path_exists. eexists. apply lookup_insert_eq.
Qed.

Lemma exists_kept ps q r r' :
  writes_only ps r r' → (∀ p, p ∈ ps → below q p = false) → path_exists (r_work r') q = path_exists (r_work r) q.
Proof. intros Hw Hq. apply path_exists_agree. intros k Hk. apply Hw. intros Hin. specialize (Hq k Hin). congruence. Qed.

Ltac elsewhere := let p := fresh in let H := fresh in
  intros p H; repeat (apply elem_of_cons in H as [->|H]; [done|]); by apply elem_of_nil in H.

Lemma settled_kept h ps r r' :
  writes_only ps r r' → (gitignore ∉ ps) → (∀ p, p ∈ ps → below general_meta p = false) → (∀ p, p ∈ ps → below (user_meta_path h) p = false) →
  (∀ p, p ∈ ps → below (archived_user_meta_path h) p = false) → Settled h (r_work r) → Settled h (r_work r').
Proof.
  intros Hw Hi Hg Hu Ha [(c & Hc & Hig) Hgen Huser Hact].
  split; [exists c; by rewrite Hw|by rewrite (exists_kept ps _ r)|by rewrite (exists_kept ps _ r)|by rewrite (exists_kept ps _ r)].
Qed.

Lemma enter_repo_Ok env has_remote identity join_general kind r r' created :
  calm env → enter_repo env has_remote identity join_general kind r = (r', Ok created) →
  Settled (handler_str (id_handler identity)) (r_work r') ∧ r_work r' !! me_path = r_work r !! me_path.
Proof.
  intros Hcalm. unfold enter_repo. set (h := handler_str (id_handler identity)).
  intros ([] & r1 & [[(c & Hc & Hi) Hg] Hw1]%ensure_repo_Ok & H)%next_Ok; [|done].
  apply next_Ok in H as (cr & r2 & (Hu & Ha & Hw)%register_user_Ok & H); [|done].
  assert (Settled h (r_work r2)) as Hset.
  { split.
    - exists c. split; [|done]. rewrite Hw; [done|]. intros ?%list_elem_of_singleton. done.
    - rewrite (exists_kept _ _ _ _ Hw); [done|elsewhere].
    - done.
    - rewrite (exists_kept _ _ _ _ Hw); [done|elsewhere]. }
  assert (r_work r2 !! me_path = r_work r !! me_path) as Hme.
  { rewrite Hw by (intros ?%list_elem_of_singleton; done). apply Hw1. apply (bool_decide_unpack _); by vm_compute. }
  destruct (cr && join_general); [|by injection H as <- <-]. apply next_Ok in H as ([] & r3 & [Hw3 Hgen]%auto_join_Ok & [= <- <-]).
  split; [|rewrite Hw3; [done|]; apply (bool_decide_unpack _); by vm_compute].
  destruct Hset as [(c' & Hc' & Hi') Hg' Hu' Ha']. split.
  - exists c'. split; [|done]. rewrite Hw3; [done|]. apply (bool_decide_unpack _); by vm_compute.
  - by apply Hgen.
  - rewrite (exists_kept _ _ _ _ Hw3); [done|elsewhere].
  - rewrite (exists_kept _ _ _ _ Hw3); [done|elsewhere].
Qed.

(** In a settled clone there is nothing to do. *)
Lemma enter_settled env has_remote identity join_general kind r :
  Settled (handler_str (id_handler identity)) (r_work r) →
  ob_read_ok env gitignore = true → ob_mkdir_ok env (lit "channels") = true → ob_mkdir_ok env (lit "users") = true →
  enter_repo env has_remote identity join_general kind r = (r, Ok false).
Proof.
  intros [(c & Hc & Hi) Hg Hu Ha] Hread Hch Hus. unfold enter_repo, ensure_repo, ensure_gitignore, ensure_general, register_user, create_dir_all, next, with_clone, read_file, check.
  rewrite Hread, Hc. cbn [unwrap_or]. rewrite Hi. cbn [done]. rewrite Hch. cbn [negb guard_err]. rewrite Hg. cbn [done app].
  unfold commit_first_files. cbn [is_empty]. rewrite Ha, Hus. cbn [negb guard_err]. by rewrite Hu.
Qed.

Lemma write_me_Ok env h display_name server admin email r r' :
  write_me_json env h display_name server admin email r = (r', Ok tt) →
  ∃ content, me_to_string (clear_guest (merged_with (read_existing_me env r) (me_patch env h display_name server admin email))) = Some content
    ∧ r' = write_work me_path content r.
Proof.
  unfold write_me_json. intros (? & r1 & ->%mkdir_Ok & H)%next_Ok. unfold with_clone in H.
  apply next_Ok in H as (content & r1 & [-> Hc]%check_Ok & ->%write_file_Ok). exists content. split; [|done].
  by destruct (me_to_string _); simplify_eq/=.
Qed.

(** The fields onboarding does not set. *)
Definition kept_fields (m : MeJson) :=
  (me_provider m, me_model m, me_effort m, me_system_prompt m, me_env m, me_llm_provider m, me_llm_model m, me_extra m).

Lemma patched_fields env m h display_name server admin email :
  let m' := clear_guest (merged_with m (me_patch env h display_name server admin email)) in
  me_handler m' = Some h ∧ me_guest m' = None ∧ kept_fields m' = kept_fields m.
Proof. split_and!; [done|done|]. unfold kept_fields. cbn. by rewrite (left_id_L ∅ (∪)). Qed.

(** The answer of [handle_onboard] when it succeeds, in parts. *)
Lemma handle_onboard_Ok env st server auth admin join_general kind st' h created :
  handle_onboard env st server (Some auth) admin false join_general kind = (st', Ok (OnboardUser h created)) →
  ∃ identity r1 r2, infer env server auth = Ok identity ∧ h = handler_str (id_handler identity)
    ∧ write_me_json env h (id_display_name identity) server admin (id_email identity) (g_repo (os_daemon st)) = (r1, Ok tt)
    ∧ enter_repo env (g_has_remote (os_daemon st)) identity join_general kind r1 = (r2, Ok created)
    ∧ st' = MkOnboardState (with_users (with_repo (os_daemon st) r2) (add_user h (g_users (os_daemon st)))) (Some h)
              (over (id_email identity) (os_github_email st)) admin false true true.
Proof.
  unfold handle_onboard. cbn [ok_or res_bind]. destruct (infer env server auth) as [identity| |]; [|done..].
  destruct (write_me_json _ _ _ _ _ _ _) as [r1 [[]| |]] eqn:E1; [|done..].
  destruct (enter_repo _ _ _ _ _ _) as [r2 [c| |]] eqn:E2; [|done..]. intros [= <- <- <-]. by exists identity, r1, r2.
Qed.

(** The environment lets a settled clone be entered. *)
Definition enterable (env : OnboardEnv) : Prop :=
  ob_read_ok env gitignore = true ∧ ob_read_ok env me_path = true ∧ ob_write_ok env me_path = true
  ∧ ∀ p, p ∈ [lit ".gitim"; lit "channels"; lit "users"] → ob_mkdir_ok env p = true.

Lemma add_user_again h us : add_user h (add_user h us) = add_user h us.
Proof.
  unfold add_user at 1. rewrite bool_decide_true; [done|]. unfold add_user. case_bool_decide; [done|].
  unfold sort_strings. rewrite sort_by_key_perm. apply elem_of_app. right. by left.
Qed.


(** C12: Onboarding again is harmless.  Onboarding that succeeded without a push conflict has
    settled the clone: [.gitignore] hides [.gitim/], the general channel and the user's
    record are there and the user is not in the archive.  Asked for again, with the same
    account and whatever else, it succeeds, says that nothing was created, leaves index,
    [HEAD] and the list of users as they were and in the work tree changes [me.json] only;
    there the handler is set, the guest flag is gone, and what the runtime and the user had
    put in before the first time is still there. *)
Theorem onboard_again (env env' : OnboardEnv) (st st1 : OnboardState) (server h : str) (auth : AuthPayload)
    (admin join_general created admin' join_general' : bool) (kind kind' : UserKind)
    (Hcalm : calm env)
    (Hrun : handle_onboard env st server (Some auth) admin false join_general kind = (st1, Ok (OnboardUser h created)))
    (Hcurl : ob_curl env' = ob_curl env) (Hbase : ob_api_base env' = ob_api_base env)
    (Henv : enterable env') (Hser : ∀ m, is_Some (me_to_string m)) :
  Settled h (r_work (g_repo (os_daemon st1)))
  ∧ ∃ st2 text me,
      handle_onboard env' st1 server (Some auth) admin' false join_general' kind' = (st2, Ok (OnboardUser h false))
      ∧ r_index (g_repo (os_daemon st2)) = r_index (g_repo (os_daemon st1)) ∧ r_head (g_repo (os_daemon st2)) = r_head (g_repo (os_daemon st1))
      ∧ g_users (os_daemon st2) = g_users (os_daemon st1)
      ∧ (∀ p, p ≠ me_path → r_work (g_repo (os_daemon st2)) !! p = r_work (g_repo (os_daemon st1)) !! p)
      ∧ r_work (g_repo (os_daemon st2)) !! me_path = Some text ∧ me_from_str text = Some me
      ∧ me_handler me = Some h ∧ me_guest me = None ∧ kept_fields me = kept_fields (read_existing_me env (g_repo (os_daemon st))).
Proof.
  apply handle_onboard_Ok in Hrun as (identity & r1 & r2 & Hinf & -> & Hme & Henter & ->). cbn [os_daemon g_repo with_users with_repo g_users].
  apply write_me_Ok in Hme as (content & Hcontent & ->). apply enter_repo_Ok in Henter as [Hset Hfile]; [|done].
  cbn [r_work write_work] in Hfile. rewrite lookup_insert_eq in Hfile. split; [done|].
  destruct Henv as (Hr1 & Hr2 & Hw & Hmk). set (h := handler_str (id_handler identity)) in *.
  pose proof (me_roundtrip _ _ Hcontent) as Hback.
  assert (read_existing_me env' r2 = clear_guest (merged_with (read_existing_me env (g_repo (os_daemon st))) (me_patch env h (id_display_name identity) server admin (id_email identity)))) as Hread.
  { unfold read_existing_me at 1, read_file. rewrite Hr2, Hfile. cbn [mbind option_bind]. by rewrite Hback. }
  set (m2 := clear_guest (merged_with (read_existing_me env' r2) (me_patch env' h (id_display_name identity) server admin' (id_email identity)))).
  destruct (Hser m2) as [text Htext].
  assert (infer env' server auth = Ok identity) as Hinf' by (rewrite <-Hinf; unfold infer; by rewrite Hcurl, Hbase).
  assert (write_me_json env' h (id_display_name identity) server admin' (id_email identity) r2 = (write_work me_path text r2, Ok tt)) as Hwrite.
  { unfold write_me_json, next, with_clone, create_dir_all, check, put_file. rewrite (Hmk (lit ".gitim")) by (by left). cbn [negb guard_err].
    fold m2. rewrite Htext. cbn [ok_or]. by rewrite Hw. }
  assert (Settled h (r_work (write_work me_path text r2))) as Hset2.
  { apply (settled_kept h [me_path] r2); [|apply (bool_decide_unpack _); by vm_compute|elsewhere|elsewhere|elsewhere|done].
    intros k Hk. cbn. rewrite lookup_insert_ne; [done|]. intros <-. apply Hk. by left. }
  pose proof (enter_settled env' (g_has_remote (os_daemon st)) identity join_general' kind' _ Hset2 Hr1
    (Hmk _ ltac:(right; by left)) (Hmk _ ltac:(right; right; by left))) as Hagain.
  eexists _, text, m2. split.
  { unfold handle_onboard. cbn [ok_or res_bind]. rewrite Hinf'. fold h. cbn [os_daemon g_repo with_users with_repo g_has_remote].
    rewrite Hwrite, Hagain. reflexivity. }
  cbn [os_daemon g_repo with_users with_repo g_users]. split; [done|]. split; [done|].
  split; [apply add_user_again|]. split; [intros p Hp; cbn; by rewrite lookup_insert_ne by congruence|].
  split; [apply lookup_insert_eq|]. split; [by apply me_roundtrip|].
  destruct (patched_fields env' (read_existing_me env' r2) h (id_display_name identity) server admin' (id_email identity)) as (H1 & H2 & H3).
  split; [done|]. split; [done|]. unfold m2. rewrite H3, Hread.
  apply (patched_fields env (read_existing_me env (g_repo (os_daemon st))) h (id_display_name identity) server admin (id_email identity)).
Qed.

End onboarded.

(** ** Runs *)

Section runs.
#[local] Existing Instance ascii_unicode.
#[local] Existing Instance std_percent_encoding.
#[local] Existing Instance keyword_json.
#[local] Existing Instance ascii_lowercase.
#[local] Existing Instance channel_meta_yaml.
#[local] Existing Instance user_meta_yaml.
#[local] Existing Instance plain_git.

Definition bool_strs (b : option bool) : list str := match b with None => [] | Some true => [[1]] | Some false => [[0]] end.
Definition strs_bool (l : list str) : option bool := match l with [[1]] => Some true | [[0]] => Some false | _ => None end.
Definition env_strs (e : option (gmap str str)) : list str := match e with None => [] | Some m => [] :: map_strs m end.
Definition strs_env (l : list str) : option (gmap str str) := match l with [] => None | _ :: l' => Some (list_to_map (pairs_of l')) end.

Definition me_fields (m : MeJson) : list (list str) :=
  [option_list (me_handler m); option_list (me_display_name m); option_list (me_git_server m); option_list (me_onboarded_at m);
   option_list (me_github_email m); bool_strs (me_guest m); bool_strs (me_admin m); option_list (me_provider m); option_list (me_model m);
   option_list (me_effort m); option_list (me_system_prompt m); env_strs (me_env m); option_list (me_llm_provider m);
   option_list (me_llm_model m); map_strs (me_extra m)].

Definition build_me (fs : list (list str)) : option MeJson :=
  match fs with
  | [a; b; c; d; e; f; g; h; i; j; k; l; m; n; o] =>
      Some (MkMeJson (head a) (head b) (head c) (head d) (head e) (strs_bool f) (strs_bool g) (head h) (head i) (head j) (head k)
              (strs_env l) (head m) (head n) (list_to_map (pairs_of o)))
  | _ => None
  end.

Definition fields_me : MeFormat.
Proof.
  refine {| me_to_string := λ m, Some (print_fields (me_fields m)); me_from_str := λ t, build_me (read_fields (length t) t) |}.
  intros m t Ht. apply (inj Some) in Ht as <-. cbv beta. rewrite read_print_fields by apply print_fields_length. destruct m as [a b c d e f g h i j k l mm n o]. cbn.
  rewrite map_of_strs. assert (∀ x : option str, head (option_list x) = x) as Ho by by intros [].
  assert (strs_bool (bool_strs f) = f ∧ strs_bool (bool_strs g) = g) as [-> ->] by by destruct f as [[]|], g as [[]|].
  assert (strs_env (env_strs l) = l) as -> by (destruct l; cbn; by rewrite ?map_of_strs). by rewrite !Ho.
Defined.
#[local] Existing Instance fields_me.

(** No server is asked in the runs. *)
Definition no_api : ApiJson := {| api_value := unit; api_from_str := λ _, None; api_str := λ _ _, None; api_u64 := λ _ _, None |}.
#[local] Existing Instance no_api.

Definition ob_ok : PlainEnv := MkPlainEnv true Pushed None.
Definition ob_fails : PlainEnv := MkPlainEnv false Pushed None.
Definition ob_env (init join : PlainEnv) : OnboardEnv :=
  MkOnboardEnv (lit "20260101T000000Z") (lit "20260101T000000Z") (lit "20260101T000000Z") (λ _, true) (λ _, true) (λ _, true) true
    (λ _ _, None) None (init, ob_ok) ob_ok None (ob_ok, ob_ok) (λ _, MkPushEnv ob_ok ob_ok ob_ok) (join, ob_ok).

Definition fresh (t : tree) : OnboardState := MkOnboardState (MkGDaemon (MkRepo t t t) [] [] false) None None false false false false.
Definition alice_auth : AuthPayload := AuthGit (lit "alice") (lit "Alice") None.
Definition onboard_alice (env : OnboardEnv) (st : OnboardState) := handle_onboard env st (lit "git") (Some alice_auth) false false true KindHuman.

Lemma onboard_again_witness : Settled (lit "alice") (r_work (g_repo (os_daemon (onboard_alice (ob_env ob_ok ob_ok) (fresh ∅)).1))).
Proof.
  refine (proj1 (onboard_again (ob_env ob_ok ob_ok) (ob_env ob_ok ob_ok) (fresh ∅) _ (lit "git") (lit "alice") alice_auth false true true false false
    KindHuman KindHuman _ _ eq_refl eq_refl _ _)).
  - by split.
  - by vm_compute.
  - split_and!; [done|done|done|]. by intros.
  - intros m. by eexists.
Defined.

(** When the first files cannot be added to the index, they stay in the work tree; the next
    time they are there already, and nothing ever commits them. *)
Example first_files_never_committed :
  let failed := onboard_alice (ob_env ob_fails ob_ok) (fresh ∅) in
  let again := onboard_alice (ob_env ob_ok ob_ok) failed.1 in
  failed.2 = Err InitCommit ∧ again.2 = Ok (OnboardUser (lit "alice") true)
  ∧ is_some (r_work (g_repo (os_daemon again.1)) !! general_meta) = true
  ∧ r_head (g_repo (os_daemon again.1)) !! general_meta = None ∧ r_index (g_repo (os_daemon again.1)) !! general_meta = None.
Proof. vm_compute. auto 6. Qed.

(** A handler whose user has departed is refused, after the daemon has taken it on. *)
Example refused_handler_taken_on :
  let out := onboard_alice (ob_env ob_ok ob_ok) (fresh {[archived_user_meta_path (lit "alice") := []]}) in
  out.2 = Err (Reserved (lit "alice")) ∧ os_current_user out.1 = Some (lit "alice").
Proof. vm_compute. auto. Qed.

(** A join whose commit fails is reported like any other. *)
Example join_not_committed :
  let bob_first := handle_onboard (ob_env ob_ok ob_ok) (fresh ∅) (lit "git") (Some (AuthGit (lit "bob") (lit "Bob") None)) false false true KindHuman in
  let out := onboard_alice (ob_env ob_ok ob_fails) bob_first.1 in
  let members t := content ← t !! general_meta; meta ← yaml_from_str content; Some (cm_members meta) in
  out.2 = Ok (OnboardUser (lit "alice") true)
  ∧ members (r_work (g_repo (os_daemon out.1))) = Some [lit "alice"; lit "bob"]
  ∧ members (r_head (g_repo (os_daemon out.1))) = Some [lit "bob"].
Proof. vm_compute. auto. Qed.

End runs.
