(* ===== verification/Epoch.v ===== *)
(** * Epoch files

    [gitim.epoch.yaml] as [gitim-core/src/epoch.rs] has it: its two shapes, the
    validation, the constructors the rotation uses, loading and saving. *)

From S2P Require Import Prelude RustStr StrFacts Meta Git.
From stdpp Require Import options.
Open Scope N_scope.
Open Scope list_scope.

Inductive EpochStatus := Active | Redirected.

#[export] Instance EpochStatus_eq_dec : EqDecision EpochStatus.
Proof. solve_decision. Defined.

Record SnapshotInfo := MkSnapshotInfo {
  si_source_branch : str;
  si_source_commit : str;
  si_commit : str;
  si_created_at : str;
}.

Record RedirectInfo := MkRedirectInfo {
  ri_target_epoch : N;
  ri_target_branch : str;
  ri_target_commit : str;
  ri_snapshot_of : str;
  ri_created_at : str;
}.

Record ArchiveInfo := MkArchiveInfo { ai_tag : str; ai_bundle_sha256 : str }.

Record EpochFile := MkEpochFile {
  ef_schema_version : N;
  ef_status : EpochStatus;
  ef_epoch : N;
  ef_branch : str;
  ef_snapshot : option SnapshotInfo;
  ef_redirect : option RedirectInfo;
  ef_archive : option ArchiveInfo;
}.

Inductive EpochError :=
  | UnsupportedSchemaVersion (v : N)
  | MissingSnapshot
  | MissingRedirect
  | EpochParse
  | EpochIo
  | EpochSerialize.

Definition validate (f : EpochFile) : res unit EpochError :=
  if negb (ef_schema_version f =? 1) then Err (UnsupportedSchemaVersion (ef_schema_version f))
  else match ef_status f with
       | Active => if is_none (ef_snapshot f) then Err MissingSnapshot else Ok tt
       | Redirected => if is_none (ef_redirect f) then Err MissingRedirect else Ok tt
       end.

Definition archive_of (archive : option (str * str)) : option ArchiveInfo :=
  (λ a : str * str, MkArchiveInfo a.1 a.2) <$> archive.

Definition new_active (epoch : N) (branch source_branch source_commit commit created_at : str)
    (archive : option (str * str)) : EpochFile :=
  MkEpochFile 1 Active epoch branch
    (Some (MkSnapshotInfo source_branch source_commit commit created_at)) None (archive_of archive).

Definition new_redirect (epoch : N) (branch : str) (target_epoch : N)
    (target_branch target_commit snapshot_of created_at : str) (archive : option (str * str)) : EpochFile :=
  MkEpochFile 1 Redirected epoch branch None
    (Some (MkRedirectInfo target_epoch target_branch target_commit snapshot_of created_at)) (archive_of archive).

Section files.
Context `{YE : !Yaml EpochFile}.

(** [File::open] and reading: the file may be missing, or the disk may fail. *)
Definition load_from_path (readable : bool) (p : str) (t : tree) : res (option EpochFile) EpochError :=
  match t !! p with
  | None => Ok None
  | Some content =>
      if negb readable then Err EpochIo
      else let? parsed := ok_or (yaml_from_str content) EpochParse in
           try? validate parsed then Ok (Some parsed)
  end.

(** What the disk does: the write of the temporary file may fail and leave any text
    there, the rename may fail. *)
Inductive SaveFault := SaveWorks | WriteFails (left_behind : option str) | RenameFails.

(** [path.with_extension("yaml.tmp")] on a path that ends in [.yaml]. *)
Definition tmp_path (path : str) : str := path ++ lit ".tmp".

(** The states of the directory during the save, in order, and the result. *)
Definition save_to_path (f : EpochFile) (fault : SaveFault) (path : str) (t : tree) : list tree * res unit EpochError :=
  match validate f with
  | Err e => ([t], Err e)
  | Panicked => ([t], Panicked)
  | Ok _ =>
      match yaml_to_string f with
      | None => ([t], Err EpochSerialize)
      | Some yaml =>
          let tmp := tmp_path path in
          match fault with
          | WriteFails left_behind => ([t; match left_behind with Some s => <[tmp := s]> t | None => t end], Err EpochIo)
          | RenameFails => ([t; <[tmp := yaml]> t], Err EpochIo)
          | SaveWorks => ([t; <[tmp := yaml]> t; <[path := yaml]> (delete tmp t)], Ok tt)
          end
      end
  end.

Lemma tmp_path_ne path : tmp_path path ≠ path.
Proof. unfold tmp_path. intros H%(f_equal length). rewrite length_app in H. simpl in H. lia. Qed.

(** A validated file has the block its status asks for. *)
Lemma validate_Ok f :
  validate f = Ok tt →
  ef_schema_version f = 1
  ∧ match ef_status f with Active => is_Some (ef_snapshot f) | Redirected => is_Some (ef_redirect f) end.
Proof.
  unfold validate. destruct (N.eqb_spec (ef_schema_version f) 1) as [->|]; [|done]. simpl. intros H. split; [done|].
  by destruct (ef_status f), (ef_snapshot f), (ef_redirect f); simpl in H.
Qed.

(** Saving an epoch file: at every moment the path holds what it held before or the
    whole new file; when the save succeeds the file loads as it was saved, and when
    it fails the path is untouched. *)
Theorem epoch_save_atomic (f : EpochFile) (fault : SaveFault) (path : str) (t : tree) :
  let '(states, r) := save_to_path f fault path t in
  Forall (λ t' : tree, t' !! path = t !! path ∨ load_from_path true path t' = Ok (Some f)) states
  ∧ match r with
    | Ok _ => ∃ t', last states = Some t' ∧ load_from_path true path t' = Ok (Some f)
    | _ => Forall (λ t' : tree, t' !! path = t !! path) states
    end.
Proof.
  unfold save_to_path. destruct (validate f) as [[]|e|] eqn:Hv; [|by repeat constructor..].
  destruct (yaml_to_string f) as [yaml|] eqn:Hy; [|by repeat constructor].
  assert (∀ s, (<[tmp_path path := s]> t : tree) !! path = t !! path) as Ht by (intros s; apply lookup_insert_ne, tmp_path_ne).
  assert (load_from_path true path (<[path := yaml]> (delete (tmp_path path) t)) = Ok (Some f)) as Hl.
  { unfold load_from_path. rewrite lookup_insert_eq. simpl. rewrite (yaml_roundtrip _ _ Hy). simpl. by rewrite Hv. }
  destruct fault as [|[s|]|]; (split; [by repeat constructor; auto|]); [by eexists|by repeat constructor..].
Qed.
End files.
