(* ===== verification/GitRefs.v ===== *)
(** * Branches, the remote, and the git commands of a rotation

    A clone with its branches, the refs it tracks of [origin], the epoch file in the
    work tree and the index, and what is changed but not committed.  The git program
    is the class [GitRefs]: for a command line it gives how the process ended and the
    clone after it, and its law says what the command does when it exits with
    success.  [origin] changes under the clone's feet: every command sees the origin
    of its own moment.  On top are the methods of [GitStorage]
    ([gitim-sync/src/git.rs]) that the rotation calls. *)

From S2P Require Import Prelude RustStr StrFacts GitText.
From stdpp Require Import options.
Open Scope N_scope.
Open Scope list_scope.

(** ** Commits

    A commit has a subject, the text it gives the epoch file if it writes it, and the
    other things it adds to the tree: messages, metadata.  A history is the list of
    commits from the root; GitIM rebases and never merges, so histories have no
    forks, and a commit is identified by the history that ends in it. *)
Record Commit := MkCommit {
  c_subject : str;
  c_epoch : option str;
  c_items : list str;
}.

#[export] Instance Commit_eq_dec : EqDecision Commit.
Proof. solve_decision. Defined.
#[export] Instance Commit_countable : Countable Commit.
Proof.
  refine (inj_countable' (λ c, (c_subject c, c_epoch c, c_items c)) (λ t, MkCommit t.1.1 t.1.2 t.2) _). by intros [].
Defined.

Abbreviation History := (list Commit).
Abbreviation refs := (@gmap str list_eq_dec list_countable (list Commit)).

(** Everything the tree at the end of the history holds, and its epoch file. *)
Definition items (h : History) : list str := flat_map c_items h.
Definition epoch_text (h : History) : option str := last (omap c_epoch h).

(** The commits of [l] that are not in [o]: [o..l]. *)
Fixpoint ahead (o l : History) : History :=
  match o, l with
  | c :: o', d :: l' => if decide (c = d) then ahead o' l' else l
  | _, _ => l
  end.

(** ** The clone *)

Inductive HeadState := On (branch : str) | Detached (h : History).

Record Clone := MkClone {
  cl_heads : refs;
  cl_tracking : refs;
  cl_head : HeadState;
  cl_upstream : gset str;
  cl_work : option str;
  cl_index : option str;
  cl_staged : list str;
  cl_changes : list str;
  cl_rebase : option str;
}.

Definition eta_Clone (cl : Clone) : Clone :=
  MkClone (cl_heads cl) (cl_tracking cl) (cl_head cl) (cl_upstream cl) (cl_work cl) (cl_index cl)
    (cl_staged cl) (cl_changes cl) (cl_rebase cl).

Definition set_heads (v : refs) (cl : Clone) : Clone := ltac:(set_field eta_Clone cl_heads v cl).
Definition set_tracking (v : refs) (cl : Clone) : Clone := ltac:(set_field eta_Clone cl_tracking v cl).
Definition set_head (v : HeadState) (cl : Clone) : Clone := ltac:(set_field eta_Clone cl_head v cl).
Definition set_upstream (v : gset str) (cl : Clone) : Clone := ltac:(set_field eta_Clone cl_upstream v cl).
Definition set_work (v : option str) (cl : Clone) : Clone := ltac:(set_field eta_Clone cl_work v cl).
Definition set_index (v : option str) (cl : Clone) : Clone := ltac:(set_field eta_Clone cl_index v cl).
Definition set_staged (v : list str) (cl : Clone) : Clone := ltac:(set_field eta_Clone cl_staged v cl).
Definition set_changes (v : list str) (cl : Clone) : Clone := ltac:(set_field eta_Clone cl_changes v cl).
Definition set_rebase (v : option str) (cl : Clone) : Clone := ltac:(set_field eta_Clone cl_rebase v cl).

(** The revisions the sources name: [HEAD], a branch, and [origin/<branch>]. *)
Inductive Rev := RHead | RBranch (b : str) | ROrigin (b : str).

Definition resolve (cl : Clone) (r : Rev) : option History :=
  match r with
  | RHead => match cl_head cl with On b => cl_heads cl !! b | Detached h => Some h end
  | RBranch b => cl_heads cl !! b
  | ROrigin b => cl_tracking cl !! b
  end.

Definition epoch_at (cl : Clone) (r : Rev) : option str := resolve cl r ≫= epoch_text.

(** What [git status --untracked-files=no] has nothing to report about. *)
Definition is_clean (cl : Clone) : bool :=
  is_empty (cl_staged cl) && is_empty (cl_changes cl) && (cl_index cl =?? epoch_at cl RHead)
  && ((cl_index cl =?? None) || (cl_work cl =?? cl_index cl)).

(** The work tree and the index after a forced switch to the tree of [h]: what was
    not committed is gone; an untracked epoch file stays if [h] has none. *)
Definition switch_tree (h : History) (cl : Clone) : Clone :=
  let work := match epoch_text h with
              | Some y => Some y
              | None => if is_some (cl_index cl) then None else cl_work cl
              end in
  set_work work (set_index (epoch_text h) (set_staged [] (set_changes [] cl))).

(** The tree in the index. *)
Record Tree := MkTree { t_epoch : option str; t_items : list str }.

#[export] Instance Tree_eq_dec : EqDecision Tree.
Proof. solve_decision. Defined.
#[export] Instance Tree_countable : Countable Tree.
Proof. refine (inj_countable' (λ t, (t_epoch t, t_items t)) (λ t, MkTree t.1 t.2) _). by intros []. Defined.

(** The subject of a commit is the first line of its message. *)
Definition subject_of (message : str) : str := unwrap_or (head (lines message)) [].

(** ** The command lines *)

Inductive Cmd :=
  | LogAhead (b : str)               (* log --reverse --format=%s origin/b..b *)
  | StatusTracked                    (* status --porcelain --untracked-files=no *)
  | RevListCount (b : str)           (* rev-list --count b -- *)
  | FetchOrigin                      (* fetch origin *)
  | ShowEpoch (r : Rev)              (* show r:gitim.epoch.yaml *)
  | RevParse (r : Rev)               (* rev-parse r *)
  | SymbolicRef                      (* symbolic-ref HEAD, quiet or short *)
  | AddEpoch                         (* add gitim.epoch.yaml *)
  | WriteTree                        (* write-tree *)
  | CommitTree (tree message : str)  (* commit-tree tree -m message *)
  | UpdateRef (b id : str)           (* update-ref refs/heads/b id *)
  | ResetMixed                       (* reset --mixed HEAD *)
  | CheckoutEpoch                    (* checkout HEAD -- gitim.epoch.yaml *)
  | CommitOnlyEpoch (message : str)  (* commit --only -m message -- gitim.epoch.yaml *)
  | PushAtomic (old new : str)       (* push --atomic origin new:refs/heads/new old:refs/heads/old *)
  | CheckoutForce (b : str)          (* checkout -f b *)
  | ResetHard (b : str)              (* reset --hard origin/b *)
  | BranchDelete (b : str)           (* branch -D b *)
  | BranchForce (b : str) (r : Rev)  (* branch -f b r *)
  | BranchUpstream (b : str)         (* branch --set-upstream-to origin/b b *)
  | RebaseOnto (new_base old_base : Rev)  (* rebase --onto new_base old_base *)
  | RebaseAbort                      (* rebase --abort *)
  | TagCreate (tag id : str)         (* tag tag id *)
  | PushTag (tag : str)              (* push origin tag *)
  | BundleCreate (path tag : str).   (* bundle create path tag *)

(** A branch may move from [old] to [new] without losing commits. *)
Definition fast_forward (old : option History) (new : History) : Prop :=
  match old with Some o => o `prefix_of` new | None => True end.

(** A process that ended well. *)
Definition succeeded (p : ProcessResult) : bool :=
  match p with Exited o => o_success o | _ => false end.
Definition stdout_of (p : ProcessResult) : str := match p with Exited o => o_stdout o | _ => [] end.
Definition stderr_of (p : ProcessResult) : str := match p with Exited o => o_stderr o | _ => [] end.

(** git's wording for a path or a revision that does not exist. *)
Definition names_missing (stderr : str) : bool :=
  contains stderr (lit "does not exist") || contains stderr (lit "exists on disk, but not in")
  || contains stderr (lit "invalid object name").

Section effect.
Variables (sha : History → str) (tree_id : Tree → str) (origin : refs).

(** What a command that succeeded printed and did. *)
Definition effect (c : Cmd) (cl : Clone) (out : str) (cl' : Clone) : Prop :=
  match c with
  | LogAhead b =>
      ∃ o l, cl_tracking cl !! b = Some o ∧ cl_heads cl !! b = Some l
             ∧ lines out = map c_subject (ahead o l) ∧ cl' = cl
  | StatusTracked => is_empty out = is_clean cl ∧ cl' = cl
  | RevListCount b => ∃ h, cl_heads cl !! b = Some h ∧ trim out = fmt_N (N.of_nat (length h)) ∧ cl' = cl
  | FetchOrigin => cl' = set_tracking (origin ∪ cl_tracking cl) cl
  | ShowEpoch r => epoch_at cl r = Some out ∧ cl' = cl
  | RevParse r => ∃ h, resolve cl r = Some h ∧ trim out = sha h ∧ cl' = cl
  | SymbolicRef => ∃ b, cl_head cl = On b ∧ trim out = b ∧ cl' = cl
  | AddEpoch => cl' = set_index (cl_work cl) cl
  | WriteTree =>
      ∃ h, resolve cl RHead = Some h
           ∧ trim out = tree_id (MkTree (cl_index cl) (items h ++ cl_staged cl)) ∧ cl' = cl
  | CommitTree tree message =>
      ∃ t, tree_id t = tree ∧ trim out = sha [MkCommit (subject_of message) (t_epoch t) (t_items t)] ∧ cl' = cl
  | UpdateRef b id => ∃ h, sha h = id ∧ cl' = set_heads (<[b := h]> (cl_heads cl)) cl
  | ResetMixed =>
      cl' = set_index (epoch_at cl RHead) (set_changes (cl_staged cl ++ cl_changes cl) (set_staged [] cl))
  | CheckoutEpoch =>
      ∃ y, epoch_at cl RHead = Some y ∧ cl' = set_work (Some y) (set_index (Some y) cl)
  | CommitOnlyEpoch message =>
      ∃ b h y, cl_head cl = On b ∧ cl_heads cl !! b = Some h ∧ cl_work cl = Some y
               ∧ cl' = set_index (Some y) (set_heads (<[b := h ++ [MkCommit (subject_of message) (Some y) []]]> (cl_heads cl)) cl)
  | PushAtomic old new =>
      ∃ ho hn, cl_heads cl !! old = Some ho ∧ cl_heads cl !! new = Some hn
               ∧ fast_forward (origin !! old) ho ∧ fast_forward (origin !! new) hn
               ∧ cl' = set_tracking (<[old := ho]> (<[new := hn]> (cl_tracking cl))) cl
  | CheckoutForce b => ∃ h, cl_heads cl !! b = Some h ∧ cl' = set_head (On b) (switch_tree h cl)
  | ResetHard b =>
      ∃ b' o, cl_head cl = On b' ∧ cl_tracking cl !! b = Some o
              ∧ cl' = switch_tree o (set_heads (<[b' := o]> (cl_heads cl)) cl)
  | BranchDelete b => cl_head cl ≠ On b ∧ cl' = set_heads (delete b (cl_heads cl)) cl
  | BranchForce b r =>
      cl_head cl ≠ On b ∧ ∃ h, resolve cl r = Some h ∧ cl' = set_heads (<[b := h]> (cl_heads cl)) cl
  | BranchUpstream b =>
      is_Some (cl_heads cl !! b) ∧ is_Some (cl_tracking cl !! b) ∧ cl' = set_upstream ({[b]} ∪ cl_upstream cl) cl
  | RebaseOnto new_base old_base =>
      is_clean cl = true
      ∧ ∃ b h n o replayed, cl_head cl = On b ∧ cl_heads cl !! b = Some h ∧ resolve cl new_base = Some n
          ∧ resolve cl old_base = Some o ∧ replayed `sublist_of` ahead o h
          ∧ (∀ c, c ∈ ahead o h → c ∈ replayed ∨ c_items c ⊆ items n ++ items o)
          ∧ cl' = switch_tree (n ++ replayed) (set_heads (<[b := n ++ replayed]> (cl_heads cl)) cl)
  | RebaseAbort =>
      ∃ b h, cl_rebase cl = Some b ∧ cl_heads cl !! b = Some h
             ∧ cl' = set_head (On b) (set_rebase None (switch_tree h cl))
  | TagCreate _ _ | PushTag _ | BundleCreate _ _ => cl' = cl
  end.

(** A command that did not succeed leaves the clone as it was, but a rebase may stop
    half way, with the branches as they were; a file or a revision that git says it
    cannot find is not there. *)
Definition failure (c : Cmd) (cl : Clone) (p : ProcessResult) (cl' : Clone) : Prop :=
  match c with
  | RebaseOnto _ _ =>
      cl' = cl ∨ ∃ b, cl_head cl = On b ∧ is_clean cl = true ∧ cl_rebase cl' = Some b ∧ cl_heads cl' = cl_heads cl
                      ∧ cl_tracking cl' = cl_tracking cl ∧ cl_upstream cl' = cl_upstream cl
  | ShowEpoch r => cl' = cl ∧ (names_missing (stderr_of p) = true → epoch_at cl r = None)
  | _ => cl' = cl
  end.
End effect.

Class GitRefs := {
  genv : Type;
  ge_origin : genv → refs;
  ge_lock : genv → LockAttempt;
  ge_disk : genv → bool;
  sha : History → str;
  tree_id : Tree → str;
  git : genv → Cmd → Clone → ProcessResult * Clone;
  sha_inj : Inj (=) (=) sha;
  tree_id_inj : Inj (=) (=) tree_id;
  git_law : ∀ g c cl p cl', git g c cl = (p, cl') →
    if succeeded p then effect sha tree_id (ge_origin g) c cl (stdout_of p) cl' else failure c cl p cl';
}.
#[export] Existing Instance sha_inj.
#[export] Existing Instance tree_id_inj.

(** ** Sequences of commands

    The state of a run: the clone, and the number of commands run so far, which picks
    the surroundings the next one meets. *)

Definition Act (E A : Type) : Type := Clone * nat → (Clone * nat) * res A E.

Definition ret {E A} (a : A) : Act E A := λ s, (s, Ok a).
Definition throw {E A} (e : E) : Act E A := λ s, (s, Err e).
Definition bind {E A B} (m : Act E A) (k : A → Act E B) : Act E B :=
  λ s, let '(s', r) := m s in
       match r with
       | Ok a => k a s'
       | Err e => (s', Err e)
       | Panicked => (s', Panicked)
       end.

(** [?] with a conversion of the error, and [match r { Ok(a) => .., Err(e) => .. }]. *)
Definition convert {E F A} (f : E → F) (m : Act E A) : Act F A :=
  λ s, let '(s', r) := m s in (s', map_err f r).
Definition handle {E F A B} (m : Act E A) (ok : A → Act F B) (err : E → Act F B) : Act F B :=
  λ s, let '(s', r) := m s in
       match r with
       | Ok a => ok a s'
       | Err e => err e s'
       | Panicked => (s', Panicked)
       end.

Notation "'do?' x ':=' m 'in' k" := (bind m (λ x, k))
  (at level 10, x binder, m at level 100, k at level 200) : rust_scope.
Notation "'run?' m 'then' k" := (bind m (λ _, k))
  (at level 10, m at level 100, k at level 200) : rust_scope.
(** [let _ = m;]: the result is dropped. *)
Notation "'drop?' m 'then' k" := (handle m (λ _, k) (λ _, k))
  (at level 10, m at level 100, k at level 200) : rust_scope.

Section storage.
Context `{GR : !GitRefs} `{LC : !Lowercase}.
Variable env : nat → genv.

(** Run a command and look at how the process ended. *)
Definition exec {A} (c : Cmd) (look : ProcessResult → res A GitError) : Act GitError A :=
  λ s, let '(p, cl) := git (env s.2) c s.1 in ((cl, S s.2), look p).

Definition local (c : Cmd) : Act GitError str := exec c (λ p, let? o := run_git p in Ok (o_stdout o)).
Definition local_ (c : Cmd) : Act GitError unit := run? local c then ret tt.

Definition remote (c : Cmd) : Act GitError unit :=
  λ s, match with_remote_slot (ge_lock (env s.2)) (Ok tt) with
       | Ok _ => exec c run_git_remote s
       | Err e => ((s.1, S s.2), Err e)
       | Panicked => (s, Panicked)
       end.

(** [std::fs::write] of the epoch file, and the best-effort [remove_file]. *)
Definition write_epoch (content : str) : Act GitError unit :=
  λ s, if ge_disk (env s.2) then ((set_work (Some content) s.1, S s.2), Ok tt)
       else ((s.1, S s.2), Err (CommandFailed (lit "write epoch.yaml"))).
Definition remove_epoch : Act GitError unit :=
  λ s, if ge_disk (env s.2) then ((set_work None s.1, S s.2), Ok tt) else ((s.1, S s.2), Err Io).

Definition subjects_ahead_of_origin (branch : str) : Act GitError (list str) :=
  do? out := local (LogAhead branch) in ret (lines out).

Definition has_dirty_tracked_files : Act GitError bool :=
  do? out := local StatusTracked in ret (negb (is_empty out)).

Definition count_commits_on_branch (branch : str) : Act GitError N :=
  do? out := local (RevListCount branch) in
  match parse_unsigned u64_MAX (trim out) with
  | Some n => ret n
  | None => throw (CommandFailed (lit "parse count"))
  end.

Definition fetch : Act GitError unit := remote FetchOrigin.

Definition show_file_at_ref (reference : Rev) : Act GitError (option str) :=
  exec (ShowEpoch reference) (λ p,
    match run_git p with
    | Ok o => Ok (Some (o_stdout o))
    | Err (CommandFailed stderr) => if names_missing stderr then Ok None else Err (CommandFailed stderr)
    | Err e => Err e
    | Panicked => Panicked
    end).

Definition rev_parse (reference : Rev) : Act GitError str :=
  do? out := local (RevParse reference) in ret (trim out).

Definition head_is_on_branch : Act GitError bool :=
  exec SymbolicRef (λ p,
    let? o := run_git_command p in
    if o_success o then Ok true
    else if is_empty (o_stderr o) && is_empty (o_stdout o) then Ok false
    else if is_disk_full (o_stderr o) then Err (DiskFull (o_stderr o))
    else Err (CommandFailed (o_stderr o))).

Definition current_branch : Act GitError str :=
  do? on := head_is_on_branch in
  if negb on then throw DetachedHead
  else do? out := local SymbolicRef in ret (trim out).

Definition create_orphan_commit (new_branch yaml message : str) : Act GitError str :=
  run? write_epoch yaml then
  run? local_ AddEpoch then
  do? tree := local WriteTree in
  do? commit := local (CommitTree (trim tree) message) in
  let commit := trim commit in
  run? local_ (UpdateRef new_branch commit) then
  run? local_ ResetMixed then
  handle (local_ CheckoutEpoch) (λ _, ret commit) (λ _, drop? remove_epoch then ret commit).

Definition write_redirect_commit (yaml message : str) : Act GitError str :=
  run? write_epoch yaml then
  run? local_ AddEpoch then
  run? local_ (CommitOnlyEpoch message) then
  do? sha := local (RevParse RHead) in ret (trim sha).

Definition atomic_push_two_refs (old_branch new_branch : str) : Act GitError unit :=
  remote (PushAtomic old_branch new_branch).
Definition rebase_onto (new_base old_base : Rev) : Act GitError unit := local_ (RebaseOnto new_base old_base).
Definition reset_branch_to_origin (branch : str) : Act GitError unit :=
  run? local_ (CheckoutForce branch) then local_ (ResetHard branch).
Definition delete_local_branch (branch : str) : Act GitError unit := local_ (BranchDelete branch).
Definition checkout_branch (branch : str) : Act GitError unit := local_ (CheckoutForce branch).
Definition tag_archive (tag id : str) : Act GitError unit := local_ (TagCreate tag id).
Definition push_tag (tag : str) : Act GitError unit := remote (PushTag tag).

(** The directory of the bundle is created first. *)
Definition bundle_to_path (path tag : str) : Act GitError unit :=
  λ s, if ge_disk (env s.2) then local_ (BundleCreate path tag) (s.1, S s.2) else ((s.1, S s.2), Err Io).

Definition create_or_repoint_branch (branch : str) : Act GitError unit := local_ (BranchForce branch (ROrigin branch)).
Definition repoint_branch_to_head (branch : str) : Act GitError unit := local_ (BranchForce branch RHead).
Definition set_upstream_to_origin (branch : str) : Act GitError unit := local_ (BranchUpstream branch).
Definition reset_to_origin_without_checkout (branch : str) : Act GitError unit :=
  do? origin_sha := rev_parse (ROrigin branch) in local_ (UpdateRef branch origin_sha).

Definition has_stale_rebase_state : Act GitError bool := λ s, (s, Ok (is_some (cl_rebase s.1))).
Definition abort_rebase : Act GitError unit :=
  drop? exec RebaseAbort (λ p, Ok (run_git_best_effort p)) then
  do? stale := has_stale_rebase_state in
  if stale then throw (CommandFailed (lit "rebase state persisted after abort")) else ret tt.
End storage.

(** ** Histories *)

Lemma ahead_split o l : ∃ common, common `prefix_of` o ∧ l = common ++ ahead o l.
Proof.
  revert l. induction o as [|c o IH]; intros l; [exists []; by split; [apply prefix_nil|]|].
  destruct l as [|d l]; [exists []; by split; [apply prefix_nil|]|]. simpl.
  destruct (decide (c = d)) as [->|]; [|exists []; by split; [apply prefix_nil|]].
  destruct (IH l) as (common & Hp & Hl). exists (d :: common). split; [by apply prefix_cons|]. by rewrite Hl at 1.
Qed.

Lemma items_app a b : items (a ++ b) = items a ++ items b.
Proof. apply flat_map_app. Qed.

Lemma elem_of_items m h : m ∈ items h ↔ ∃ c, c ∈ h ∧ m ∈ c_items c.
Proof.
  unfold items. rewrite list_elem_of_In, in_flat_map. by setoid_rewrite list_elem_of_In.
Qed.

Lemma items_prefix o o' : o `prefix_of` o' → items o ⊆ items o'.
Proof. intros [k ->]. rewrite items_app. set_solver. Qed.

(** What a branch holds is on the other side or in the commits ahead of it. *)
Lemma items_ahead o l : items l ⊆ items o ++ items (ahead o l).
Proof.
  destruct (ahead_split o l) as (common & Hp & Hl). rewrite Hl at 1. rewrite items_app.
  pose proof (items_prefix _ _ Hp). set_solver.
Qed.

Lemma ahead_nil o l : ahead o l = [] → l `prefix_of` o.
Proof. intros H. destruct (ahead_split o l) as (common & Hp & Hl). rewrite H, app_nil_r in Hl. by subst. Qed.

Lemma ahead_app o k : ahead o (o ++ k) = k.
Proof. induction o as [|c o IH]; [done|]. simpl. by rewrite decide_True. Qed.

Lemma epoch_text_snoc h c : epoch_text (h ++ [c]) = match c_epoch c with Some y => Some y | None => epoch_text h end.
Proof.
  unfold epoch_text. rewrite omap_app. simpl. destruct (c_epoch c) as [y|]; [by rewrite last_snoc|by rewrite app_nil_r].
Qed.

Lemma line_of_chunk_prefix p r : nl ∉ p → cr ∉ p → ∃ x, line_of_chunk (p ++ r) = p ++ x.
Proof.
  intros Hn Hc. unfold line_of_chunk. destruct (strip_suffix [nl] (p ++ r)) as [l|] eqn:E; [|by exists r].
  apply strip_suffix_Some in E. destruct r as [|c r _] using rev_ind.
  { rewrite app_nil_r in E. exfalso. apply Hn. rewrite E. set_solver. }
  rewrite app_assoc in E. apply app_inj_tail in E as [<- _].
  destruct (strip_suffix [cr] (p ++ r)) as [l|] eqn:E2; simpl; [|by exists r].
  apply strip_suffix_Some in E2. destruct r as [|d r _] using rev_ind.
  { rewrite app_nil_r in E2. exfalso. apply Hc. rewrite E2. set_solver. }
  rewrite app_assoc in E2. apply app_inj_tail in E2 as [<- _]. by exists r.
Qed.

Lemma split_inclusive_prefix p r :
  p ≠ [] → nl ∉ p → ∃ r' t, split_inclusive nl (p ++ r) = (p ++ r') :: t.
Proof.
  induction p as [|c p IH]; [done|]. intros _ [Hc Hp]%not_elem_of_cons. simpl.
  destruct (N.eqb_spec c nl) as [->|_]; [done|]. destruct p as [|d p].
  - simpl. destruct (split_inclusive nl r) as [|x t]; [by exists [], []|by exists x, t].
  - destruct IH as (r' & t & ->); [done..|]. by exists r', t.
Qed.

(** The subject starts as the message does. *)
Lemma subject_of_prefix p r : p ≠ [] → nl ∉ p → cr ∉ p → starts_with (subject_of (p ++ r)) p = true.
Proof.
  intros Hne Hn Hc. apply starts_with_true. unfold subject_of, lines.
  destruct (split_inclusive_prefix p r Hne Hn) as (r' & t & ->). by apply line_of_chunk_prefix.
Qed.

Definition in_refs (r : refs) (m : str) : Prop := ∃ b h, r !! b = Some h ∧ m ∈ items h.

(** Every ref of [r] is still there in [r'], possibly moved forward. *)
Definition refs_le (r r' : refs) : Prop := ∀ b h, r !! b = Some h → ∃ h', r' !! b = Some h' ∧ h `prefix_of` h'.

#[export] Instance refs_le_preorder : PreOrder refs_le.
Proof.
  split.
  - intros r b h H. by exists h.
  - intros r1 r2 r3 H12 H23 b h H. destruct (H12 _ _ H) as (h2 & H2 & Hp).
    destruct (H23 _ _ H2) as (h3 & H3 & Hp'). exists h3. split; [done|]. by trans h2.
Qed.

Lemma in_refs_le r r' m : refs_le r r' → in_refs r m → in_refs r' m.
Proof.
  intros H (b & h & Hb & Hm). destruct (H _ _ Hb) as (h' & Hb' & Hp). exists b, h'. split; [done|].
  by apply (items_prefix _ _ Hp).
Qed.

Lemma refs_le_insert r b h : (∀ o, r !! b = Some o → o `prefix_of` h) → refs_le r (<[b := h]> r).
Proof.
  intros H b' h' Hb'. destruct (decide (b = b')) as [->|Hne].
  - exists h. rewrite lookup_insert_eq. auto.
  - exists h'. by rewrite lookup_insert_ne.
Qed.

(** ** Facts kept by a sequence of commands *)

Section keeps.
Context `{GR : !GitRefs} `{LC : !Lowercase}.
Variable env : nat → genv.

Definition keeps {E A} (I : Clone * nat → Prop) (m : Act E A) : Prop := ∀ s, I s → I (m s).1.

Lemma keeps_ret {E A} I (a : A) : keeps I (@ret E A a).
Proof. by intros s. Qed.
Lemma keeps_throw {E A} I (e : E) : keeps I (@throw E A e).
Proof. by intros s. Qed.
Lemma keeps_bind {E A B} I (m : Act E A) (k : A → Act E B) : keeps I m → (∀ a, keeps I (k a)) → keeps I (bind m k).
Proof. intros Hm Hk s Hs. unfold bind. specialize (Hm s Hs). destruct (m s) as [s' []]; simpl in *; [by apply Hk|done..]. Qed.
Lemma keeps_convert {E F A} I (f : E → F) (m : Act E A) : keeps I m → keeps I (convert f m).
Proof. intros Hm s Hs. unfold convert. specialize (Hm s Hs). by destruct (m s). Qed.
Lemma keeps_handle {E F A B} I (m : Act E A) (ok : A → Act F B) (err : E → Act F B) :
  keeps I m → (∀ a, keeps I (ok a)) → (∀ e, keeps I (err e)) → keeps I (handle m ok err).
Proof.
  intros Hm Hok Herr s Hs. unfold handle. specialize (Hm s Hs).
  destruct (m s) as [s' []]; simpl in *; [by apply Hok|by apply Herr|done].
Qed.

(** From one fact to a weaker one. *)
Definition leads {E A} (I : Clone * nat → Prop) (m : Act E A) (I' : Clone * nat → Prop) : Prop := ∀ s, I s → I' (m s).1.

Lemma leads_keeps {E A} (I I' : Clone * nat → Prop) (m : Act E A) : (∀ s, I s → I' s) → keeps I m → leads I m I'.
Proof. intros H Hm s Hs. by apply H, Hm. Qed.
Lemma leads_bind {E A B} (I I' : Clone * nat → Prop) (m : Act E A) (k : A → Act E B) :
  (∀ s, I s → I' s) → keeps I m → (∀ a, leads I (k a) I') → leads I (bind m k) I'.
Proof.
  intros H Hm Hk s Hs. unfold bind. specialize (Hm s Hs).
  destruct (m s) as [s' []]; simpl in *; [by apply Hk|by apply H..].
Qed.
Lemma leads_handle {E F A B} (I I' : Clone * nat → Prop) (m : Act E A) (ok : A → Act F B) (err : E → Act F B) :
  (∀ s, I s → I' s) → keeps I m → (∀ a, leads I (ok a) I') → (∀ e, leads I (err e) I') → leads I (handle m ok err) I'.
Proof.
  intros H Hm Hok Herr s Hs. unfold handle. specialize (Hm s Hs).
  destruct (m s) as [s' []]; simpl in *; [by apply Hok|by apply Herr|by apply H].
Qed.
Lemma leads_then {E F A B} (I I' : Clone * nat → Prop) (m : Act E A) (ok : A → Act F B) (err : E → Act F B) :
  leads I m I' → (∀ a, keeps I' (ok a)) → (∀ e, keeps I' (err e)) → leads I (handle m ok err) I'.
Proof.
  intros Hm Hok Herr s Hs. unfold handle. specialize (Hm s Hs).
  destruct (m s) as [s' []]; simpl in *; [by apply Hok|by apply Herr|done].
Qed.

(** A fact about the clone that a command keeps, however the process ends. *)
Lemma keeps_exec {A} (I : Clone * nat → Prop) c (look : ProcessResult → res A GitError) :
  (∀ s p cl', git (env s.2) c s.1 = (p, cl') → I s → I (cl', S s.2)) → keeps I (exec env c look).
Proof. intros H s Hs. unfold exec. destruct (git (env s.2) c s.1) as [p cl'] eqn:E. by eapply H. Qed.

Lemma keeps_local I c :
  (∀ s p cl', git (env s.2) c s.1 = (p, cl') → I s → I (cl', S s.2)) → keeps I (local env c).
Proof. apply keeps_exec. Qed.
Lemma keeps_local_ I c :
  (∀ s p cl', git (env s.2) c s.1 = (p, cl') → I s → I (cl', S s.2)) → keeps I (local_ env c).
Proof. intros H. apply keeps_bind; [by apply keeps_exec|]. intros a. apply keeps_ret. Qed.
Lemma keeps_remote I c :
  (∀ s p cl', git (env s.2) c s.1 = (p, cl') → I s → I (cl', S s.2)) → (∀ s, I s → I (s.1, S s.2)) →
  keeps I (remote env c).
Proof.
  intros H Hs s Hi. unfold remote. destruct (ge_lock (env s.2)); simpl; [by apply keeps_exec..|by apply Hs|by apply Hs].
Qed.

(** *** Commands that change nothing, and commands that leave [origin]'s refs alone *)

Definition reads (c : Cmd) : bool :=
  match c with
  | LogAhead _ | StatusTracked | RevListCount _ | ShowEpoch _ | RevParse _ | SymbolicRef | WriteTree | CommitTree _ _
  | TagCreate _ _ | PushTag _ | BundleCreate _ _ => true
  | _ => false
  end.

Lemma git_reads g c cl p cl' : reads c = true → git g c cl = (p, cl') → cl' = cl.
Proof.
  intros Hc H%git_law. destruct (succeeded p), c; simpl in Hc, H; try done; naive_solver.
Qed.

Definition keeps_tracking (c : Cmd) : bool :=
  match c with
  | FetchOrigin | PushAtomic _ _ => false
  | _ => true
  end.

Lemma switch_tree_refs h cl :
  cl_heads (switch_tree h cl) = cl_heads cl ∧ cl_tracking (switch_tree h cl) = cl_tracking cl
  ∧ cl_head (switch_tree h cl) = cl_head cl ∧ cl_rebase (switch_tree h cl) = cl_rebase cl.
Proof. done. Qed.

Lemma git_keeps_tracking g c cl p cl' :
  keeps_tracking c = true → git g c cl = (p, cl') → cl_tracking cl' = cl_tracking cl.
Proof.
  intros Hc H%git_law. destruct (succeeded p), c; simpl in Hc, H; try done; naive_solver.
Qed.
End keeps.
