(* ===== verification/GitPlain.v ===== *)
(** * A git that follows its documentation

    An instance of [GitRefs]: every command does what the law says whenever it is
    asked to succeed and its arguments are in order.  Object ids are readable back,
    so that no two objects share one. *)

From S2P Require Import Prelude RustStr StrFacts Meta GitText Epoch GitRefs.
From stdpp Require Import options.
Open Scope N_scope.
Open Scope list_scope.

(** ** Object ids *)

Definition fields_id (fs : list (list str)) : str := ch "x" :: print_fields fs ++ [ch "x"].
Definition id_fields (id : str) : list (list str) :=
  let body := removelast (drop 1 id) in read_fields (length body) body.

Lemma id_fields_id fs : id_fields (fields_id fs) = fs.
Proof.
  unfold id_fields, fields_id. change (drop 1 (ch "x" :: print_fields fs ++ [ch "x"])) with (print_fields fs ++ [ch "x"]).
  rewrite (removelast_last (print_fields fs)). apply read_print_fields, print_fields_length.
Qed.

Lemma trim_fields_id fs : trim (fields_id fs) = fields_id fs.
Proof.
  unfold trim, fields_id. assert (∀ r, trim_start (ch "x" :: r) = ch "x" :: r) as -> by done.
  apply trim_end_id. intros a c E. rewrite app_comm_cons in E. apply app_inj_tail in E as [_ <-]. done.
Qed.

Definition commit_fields (c : Commit) : list (list str) := [[c_subject c]; option_list (c_epoch c); c_items c].

Fixpoint fields_history (fs : list (list str)) : option History :=
  match fs with
  | [] => Some []
  | [s] :: e :: i :: fs' => h ← fields_history fs'; Some (MkCommit s (head e) i :: h)
  | _ => None
  end.

Lemma fields_history_flat h : fields_history (flat_map commit_fields h) = Some h.
Proof. induction h as [|[s [e|] i] h IH]; [done|..]; simpl; by rewrite IH. Qed.

Definition plain_sha (h : History) : str := fields_id (flat_map commit_fields h).
Definition plain_history (id : str) : option History := fields_history (id_fields id).
Definition plain_tree_id (t : Tree) : str := fields_id [option_list (t_epoch t); t_items t].
Definition plain_tree (id : str) : option Tree :=
  match id_fields id with [e; i] => Some (MkTree (head e) i) | _ => None end.

Lemma plain_history_sha h : plain_history (plain_sha h) = Some h.
Proof. unfold plain_history, plain_sha. rewrite id_fields_id. apply fields_history_flat. Qed.
Lemma plain_tree_tree_id t : plain_tree (plain_tree_id t) = Some t.
Proof. unfold plain_tree, plain_tree_id. rewrite id_fields_id. by destruct t as [[]]. Qed.

(** ** The commands *)

Record RefsEnv := MkRefsEnv {
  re_origin : refs;
  re_ok : bool;
  re_lock : LockAttempt;
  re_disk : bool;
}.

(** The answer when a command is in order: what it prints and the clone after it. *)
Definition subjects_text (h : History) : option str :=
  if forallb (λ c, negb (contains (c_subject c) [nl]) && negb (contains (c_subject c) [cr])) h
  then Some (flat_map (λ c, c_subject c ++ [nl]) h) else None.

Definition is_fast_forward (old : option History) (new : History) : bool :=
  match old with Some o => bool_decide (o `prefix_of` new) | None => true end.

Definition plain_answer (g : RefsEnv) (c : Cmd) (cl : Clone) : option (str * Clone) :=
  match c with
  | LogAhead b => o ← cl_tracking cl !! b; l ← cl_heads cl !! b; out ← subjects_text (ahead o l); Some (out, cl)
  | StatusTracked => Some (if is_clean cl then [] else lit " M", cl)
  | RevListCount b => h ← cl_heads cl !! b; Some (fmt_N (N.of_nat (length h)), cl)
  | FetchOrigin => Some ([], set_tracking (re_origin g ∪ cl_tracking cl) cl)
  | ShowEpoch r => y ← epoch_at cl r; Some (y, cl)
  | RevParse r => h ← resolve cl r; Some (plain_sha h, cl)
  | SymbolicRef => match cl_head cl with
                   | On b => if trim b =?? b then Some (b, cl) else None
                   | Detached _ => None
                   end
  | AddEpoch => Some ([], set_index (cl_work cl) cl)
  | WriteTree => h ← resolve cl RHead; Some (plain_tree_id (MkTree (cl_index cl) (items h ++ cl_staged cl)), cl)
  | CommitTree tree message =>
      t ← plain_tree tree;
      if plain_tree_id t =?? tree
      then Some (plain_sha [MkCommit (subject_of message) (t_epoch t) (t_items t)], cl) else None
  | UpdateRef b id =>
      h ← plain_history id;
      if plain_sha h =?? id then Some ([], set_heads (<[b := h]> (cl_heads cl)) cl) else None
  | ResetMixed =>
      Some ([], set_index (epoch_at cl RHead) (set_changes (cl_staged cl ++ cl_changes cl) (set_staged [] cl)))
  | CheckoutEpoch => y ← epoch_at cl RHead; Some ([], set_work (Some y) (set_index (Some y) cl))
  | CommitOnlyEpoch message =>
      match cl_head cl with
      | On b => h ← cl_heads cl !! b; y ← cl_work cl;
                Some ([], set_index (Some y)
                            (set_heads (<[b := h ++ [MkCommit (subject_of message) (Some y) []]]> (cl_heads cl)) cl))
      | Detached _ => None
      end
  | PushAtomic old new =>
      ho ← cl_heads cl !! old; hn ← cl_heads cl !! new;
      if is_fast_forward (re_origin g !! old) ho && is_fast_forward (re_origin g !! new) hn
      then Some ([], set_tracking (<[old := ho]> (<[new := hn]> (cl_tracking cl))) cl) else None
  | CheckoutForce b => h ← cl_heads cl !! b; Some ([], set_head (On b) (switch_tree h cl))
  | ResetHard b =>
      match cl_head cl with
      | On b' => o ← cl_tracking cl !! b; Some ([], switch_tree o (set_heads (<[b' := o]> (cl_heads cl)) cl))
      | Detached _ => None
      end
  | BranchDelete b =>
      match cl_head cl with
      | On b' => if b' =?? b then None else Some ([], set_heads (delete b (cl_heads cl)) cl)
      | Detached _ => Some ([], set_heads (delete b (cl_heads cl)) cl)
      end
  | BranchForce b r =>
      h ← resolve cl r;
      match cl_head cl with
      | On b' => if b' =?? b then None else Some ([], set_heads (<[b := h]> (cl_heads cl)) cl)
      | Detached _ => Some ([], set_heads (<[b := h]> (cl_heads cl)) cl)
      end
  | BranchUpstream b =>
      if is_some (cl_heads cl !! b) && is_some (cl_tracking cl !! b)
      then Some ([], set_upstream ({[b]} ∪ cl_upstream cl) cl) else None
  | RebaseOnto new_base old_base =>
      if is_clean cl then
        match cl_head cl with
        | On b => h ← cl_heads cl !! b; n ← resolve cl new_base; o ← resolve cl old_base;
                  let h' := n ++ ahead o h in
                  Some ([], switch_tree h' (set_heads (<[b := h']> (cl_heads cl)) cl))
        | Detached _ => None
        end
      else None
  | RebaseAbort =>
      b ← cl_rebase cl; h ← cl_heads cl !! b; Some ([], set_head (On b) (set_rebase None (switch_tree h cl)))
  | TagCreate _ _ | PushTag _ | BundleCreate _ _ => Some ([], cl)
  end.

(** What git says when it refuses. *)
Definition refusal (g : RefsEnv) (c : Cmd) : str :=
  match c with
  | ShowEpoch _ => if re_ok g then lit "fatal: path 'gitim.epoch.yaml' does not exist" else lit "fatal"
  | PushAtomic _ _ => if re_ok g then lit "! [rejected] (non-fast-forward)" else lit "fatal: unable to connect"
  | _ => lit "fatal"
  end.

Definition refs_git (g : RefsEnv) (c : Cmd) (cl : Clone) : ProcessResult * Clone :=
  match (if re_ok g then plain_answer g c cl else None) with
  | Some (out, cl') => (Exited (MkOutput true out []), cl')
  | None => (Exited (MkOutput false [] (refusal g c)), cl)
  end.

Lemma subjects_text_lines h out : subjects_text h = Some out → lines out = map c_subject h.
Proof.
  unfold subjects_text. destruct (forallb _ h) eqn:E; [|done]. intros [= <-].
  apply forallb_Forall in E. induction E as [|c h Hc _ IH]; [done|]. simpl. rewrite <-app_assoc. simpl.
  apply andb_true_iff in Hc as [H1%negb_true_iff H2%negb_true_iff].
  rewrite lines_cons, IH; [done|..]; intros Hin; by apply contains_char_true in Hin; rewrite Hin in *.
Qed.

Lemma trim_digits s : all_digits s → trim s = s.
Proof.
  intros H. assert (∀ c, c ∈ s → is_whitespace c = false) as Hw.
  { intros c Hc. unfold all_digits in H. rewrite Forall_forall in H. specialize (H c Hc).
    unfold is_ascii_digit, in_range in H. unfold is_whitespace, in_range. lia. }
  unfold trim, trim_start. rewrite drop_while_id by (intros c r ->; apply Hw; left).
  apply trim_end_id. intros a c ->. apply Hw. set_solver.
Qed.

Lemma is_fast_forward_true old new : is_fast_forward old new = true → fast_forward old new.
Proof. destruct old; [|done]. simpl. by intros ?%bool_decide_eq_true. Qed.

(** Take apart a chain of lookups that gave an answer. *)
Ltac answer H :=
  repeat match type of H with
         | (?o ≫= _) = Some _ => let x := fresh "x" in let E := fresh "E" in
             destruct o as [x|] eqn:E; [simpl in H|done]
         | (if ?b then _ else _) = Some _ => let E := fresh "E" in destruct b eqn:E; try done
         | match ?x with On _ => _ | Detached _ => _ end = Some _ => let E := fresh "E" in destruct x eqn:E; try done
         end; try (injection H as <- <-).

Lemma head_ne cl b b' : cl_head cl = On b' → (b' =?? b) = false → cl_head cl ≠ On b.
Proof. intros -> H. apply bool_decide_eq_false in H. congruence. Qed.

Lemma plain_answer_effect g c cl out cl' :
  plain_answer g c cl = Some (out, cl') → effect plain_sha plain_tree_id (re_origin g) c cl out cl'.
Proof.
  intros H. destruct c; cbn [plain_answer] in H; answer H; cbn [effect]; try done.
  - exists x, x0. by rewrite (subjects_text_lines _ _ E1).
  - by destruct (is_clean cl).
  - exists x. split; [done|]. split; [|done]. apply trim_digits. by destruct (fmt_N_spec (N.of_nat (length x))) as (_ & ? & _).
  - exists x. split; [done|]. split; [apply trim_fields_id|done].
  - apply bool_decide_eq_true in E0. by exists branch.
  - exists x. split; [done|]. split; [apply trim_fields_id|done].
  - apply bool_decide_eq_true in E0. exists x. split; [done|]. split; [apply trim_fields_id|done].
  - apply bool_decide_eq_true in E0. by exists x.
  - by exists x.
  - by exists branch, x, x0.
  - apply andb_true_iff in E1 as [H1%is_fast_forward_true H2%is_fast_forward_true]. by exists x, x0.
  - by exists x.
  - by exists branch, x.
  - split; [by eapply head_ne|done].
  - split; [by rewrite E|done].
  - split; [by eapply head_ne|by exists x].
  - split; [by rewrite E0|by exists x].
  - apply andb_true_iff in E as [[h Hh]%is_some_true [o Ho]%is_some_true]. split; [by eexists|]. split; [by eexists|done].
  - split; [done|]. exists branch, x, x0, x1, (ahead x1 x). repeat split; try done. intros c Hc. by left.
  - by exists x, x0.
Qed.

Lemma refusal_missing g r : names_missing (refusal g (ShowEpoch r)) = re_ok g.
Proof. unfold refusal. by destruct (re_ok g). Qed.

Definition plain_refs : GitRefs.
Proof.
  refine {| genv := RefsEnv; ge_origin := re_origin; ge_lock := re_lock; ge_disk := re_disk;
            sha := plain_sha; tree_id := plain_tree_id; git := refs_git |}.
  - intros h1 h2 H%(f_equal plain_history). rewrite !plain_history_sha in H. by injection H.
  - intros t1 t2 H%(f_equal plain_tree). rewrite !plain_tree_tree_id in H. by injection H.
  - intros g c cl p cl' H. unfold refs_git in H.
    destruct (re_ok g) eqn:Eok; [destruct (plain_answer g c cl) as [[out cl1]|] eqn:Ea|]; injection H as <- <-; cbn [succeeded o_success].
    + by apply plain_answer_effect.
    + destruct c; simpl; try done; [|by left]. split; [done|]. intros _. simpl in Ea. by destruct (epoch_at cl r).
    + destruct c; simpl; try done; [|by left]. rewrite Eok. by split.
Defined.

(** Epoch files as length-prefixed fields; a number is one character. *)
Definition epoch_yaml : Yaml EpochFile.
Proof.
  refine (fields_yaml
    (λ f, [[[ef_schema_version f]]; [[match ef_status f with Active => 0 | Redirected => 1 end]]; [[ef_epoch f]];
           [ef_branch f];
           match ef_snapshot f with
           | Some i => [si_source_branch i; si_source_commit i; si_commit i; si_created_at i]
           | None => []
           end;
           match ef_redirect f with
           | Some i => [[ri_target_epoch i]; ri_target_branch i; ri_target_commit i; ri_snapshot_of i; ri_created_at i]
           | None => []
           end;
           match ef_archive f with Some i => [ai_tag i; ai_bundle_sha256 i] | None => [] end])
    (λ fs, match fs with
           | [[[v]]; [[st]]; [[e]]; [b]; sn; rd; ar] =>
               Some (MkEpochFile v (if st =? 0 then Active else Redirected) e b
                       match sn with [a1; a2; a3; a4] => Some (MkSnapshotInfo a1 a2 a3 a4) | _ => None end
                       match rd with [[n]; a1; a2; a3; a4] => Some (MkRedirectInfo n a1 a2 a3 a4) | _ => None end
                       match ar with [a1; a2] => Some (MkArchiveInfo a1 a2) | _ => None end)
           | _ => None
           end) _).
  by intros [v [] e b [[]|] [[]|] [[]|]].
Defined.
