(* ===== verification/Rotate.v ===== *)
(** * Epoch rotation

    [gitim-sync/src/rotate.rs]: firing a rotation, cleaning up after one that failed,
    following a redirect, and the places of the daemon that run them
    ([gitim-daemon/src/state.rs] [try_rotate_inner], the recovery at boot in
    [gitim-daemon/src/main.rs]). *)

From S2P Require Import Prelude RustStr StrFacts Meta Git GitText Epoch GitRefs GitPlain.
From stdpp Require Import options.
Open Scope N_scope.
Open Scope list_scope.

Definition MAX_FOLLOW_HOPS : nat := 32.
Definition SEAL_SUBJECT_PREFIX : str := lit "seal: redirect".

Definition seal_commit_message (current_epoch : N) (new_branch orphan_short : str) : str :=
  SEAL_SUBJECT_PREFIX ++ lit " epoch " ++ fmt_N current_epoch ++ lit " -> " ++ new_branch ++ lit "@" ++ orphan_short.

Record ArchivePlan := MkArchivePlan {
  ap_tag : str;
  ap_sealed_commit_sha : str;
  ap_bundle_path : str;
}.

Record Win := MkWin {
  win_archive : ArchivePlan;
  win_sealed_branch : str;
  win_new_branch : str;
  win_new_epoch : N;
  win_sealed_commit_sha : str;
  win_orphan_commit_sha : str;
}.

Inductive RotationOutcome := NotReady | Won (w : Win) | Lost.

(** The texts of [RotationError::Epoch], by the place that builds them. *)
Inductive RotationError :=
  | RGit (e : GitError)
  | RParse (reference : Rev)
  | RValidate (reference : Rev) (e : EpochError)
  | RSerialize
  | RNoRedirectBlock
  | RTooManyHops (start : str).

(** [s.get(..n)]: the first [n] bytes, when they end on a character. *)
Definition get_to (n : N) (s : str) : option str :=
  let p := slice_to n s in if len p =? n then Some p else None.

Definition short (id : str) : str := unwrap_or (get_to 7 id) id.

(** [a + 1] on [u32] in a release build. *)
Definition u32_succ (n : N) : N := (n + 1) mod 2 ^ 32.

Definition epoch_branch (epoch : N) : str := lit "main-epoch-" ++ fmt_N epoch.

Section rotate.
Context `{GR : !GitRefs} `{LC : !Lowercase} `{YE : !Yaml EpochFile}.
Variable env : nat → genv.

(** The two pushes of [run_archive] are best effort. *)
Definition run_archive (archive : ArchivePlan) : Act RotationError unit :=
  drop? handle (tag_archive env (ap_tag archive) (ap_sealed_commit_sha archive))
          (λ _, convert RGit (push_tag env (ap_tag archive))) (λ e, throw (RGit e)) then
  drop? bundle_to_path env (ap_bundle_path archive) (ap_tag archive) then
  ret tt.

Definition epoch_file_at_ref (reference : Rev) : Act RotationError (option EpochFile) :=
  do? content := convert RGit (show_file_at_ref env reference) in
  match content with
  | None => ret None
  | Some content =>
      match yaml_from_str content with
      | None => throw (RParse reference)
      | Some file =>
          match validate file with
          | Ok _ => ret (Some file)
          | Err e => throw (RValidate reference e)
          | Panicked => λ s, (s, Panicked)
          end
      end
  end.

Definition epoch_status_at_ref (reference : Rev) : Act RotationError (option EpochStatus) :=
  do? f := epoch_file_at_ref reference in ret (ef_status <$> f).

Definition cleanup_failed_fire (old_branch orphan_branch : str) : Act RotationError unit :=
  do? subjects := convert RGit (subjects_ahead_of_origin env old_branch) in
  if existsb (λ s, negb (starts_with s SEAL_SUBJECT_PREFIX)) subjects then ret tt
  else do? dirty := convert RGit (has_dirty_tracked_files env) in
       if (dirty : bool) then ret tt
       else run? convert RGit (reset_branch_to_origin env old_branch) then
            drop? delete_local_branch env orphan_branch then
            ret tt.

(** The end of a fire whose push won. *)
Definition fire_won (w : Win) : Act RotationError RotationOutcome :=
  run? convert RGit (checkout_branch env (win_new_branch w)) then
  handle (set_upstream_to_origin env (win_new_branch w)) (λ _, ret (Won w))
    (λ _, drop? set_upstream_to_origin env (win_new_branch w) then ret (Won w)).

(** The second half of [try_fire_rotation], after the guards. *)
Definition fire (current archive_dir created_at : str) : Act RotationError RotationOutcome :=
  drop? fetch env then
  do? origin_epoch := epoch_file_at_ref (ROrigin current) in
  if is_some_and origin_epoch (λ f, ef_status f =?? Redirected) then ret Lost else
  let current_epoch := unwrap_or (ef_epoch <$> origin_epoch) 1 in
  let new_epoch := u32_succ current_epoch in
  let new_branch := epoch_branch new_epoch in
  do? sealed := convert RGit (rev_parse env (RBranch current)) in
  let sealed_commit_sha := trim sealed in
  let sealed_short := short sealed_commit_sha in
  let archive_tag := lit "archive/epoch-" ++ fmt_N current_epoch ++ lit "/" ++ sealed_short in
  let active := new_active new_epoch new_branch current sealed_commit_sha sealed_commit_sha created_at None in
  match yaml_to_string active with
  | None => throw RSerialize
  | Some active_yaml =>
      let redirect := new_redirect current_epoch current new_epoch new_branch sealed_commit_sha sealed_commit_sha
                        created_at None in
      match yaml_to_string redirect with
      | None => throw RSerialize
      | Some redirect_yaml =>
          do? orphan_commit_sha := convert RGit (create_orphan_commit env new_branch active_yaml
              (lit "snapshot: open epoch " ++ fmt_N new_epoch ++ lit " from " ++ current ++ lit "@" ++ sealed_short)) in
          run? convert RGit (write_redirect_commit env redirect_yaml
              (seal_commit_message current_epoch new_branch (short orphan_commit_sha))) then
          handle (atomic_push_two_refs env current new_branch)
            (λ _, fire_won (MkWin
               (MkArchivePlan archive_tag sealed_commit_sha
                  (archive_dir ++ lit "/epoch-" ++ fmt_N current_epoch ++ lit ".bundle"))
               current new_branch new_epoch sealed_commit_sha orphan_commit_sha))
            (λ e, run? cleanup_failed_fire current new_branch then
                  match e with
                  | PushConflict => ret Lost
                  | e => throw (RGit e)
                  end)
      end
  end.

Definition try_fire_rotation (current : str) (threshold : N) (archive_dir created_at : str)
    : Act RotationError RotationOutcome :=
  do? subjects := convert RGit (subjects_ahead_of_origin env current) in
  if negb (is_empty subjects) then ret NotReady else
  do? dirty := convert RGit (has_dirty_tracked_files env) in
  if (dirty : bool) then ret NotReady else
  do? n := convert RGit (count_commits_on_branch env current) in
  if n <? threshold then ret NotReady else
  fire current archive_dir created_at.

Fixpoint follow_hops (hops : nat) (start branch : str) : Act RotationError str :=
  match hops with
  | O => throw (RTooManyHops start)
  | S hops =>
      do? f := epoch_file_at_ref (ROrigin branch) in
      match f with
      | Some f =>
          match ef_status f with
          | Redirected =>
              match ef_redirect f with
              | Some r => follow_hops hops start (ri_target_branch r)
              | None => throw RNoRedirectBlock
              end
          | Active => ret branch
          end
      | None => ret branch
      end
  end.

Definition resolve_active_branch (start_branch : str) : Act RotationError str :=
  follow_hops MAX_FOLLOW_HOPS start_branch start_branch.

Definition check_push_fence : Act RotationError bool :=
  do? status := epoch_status_at_ref RHead in ret (status =?? Some Redirected).

Definition migrate_unpushed (from_branch target_branch : str) : Act RotationError unit :=
  convert RGit (rebase_onto env (ROrigin target_branch) (ROrigin from_branch)).

(** The second half of [follow_redirect]: the switch to a target that differs. *)
Definition switch_to (current target : str) (has_unpushed : bool) : Act RotationError bool :=
  run? convert RGit (create_or_repoint_branch env target) then
  run? convert RGit (set_upstream_to_origin env target) then
  run? (if has_unpushed then
          run? handle (migrate_unpushed current target) ret (λ e, drop? abort_rebase env then throw e) then
          convert RGit (repoint_branch_to_head env target)
        else ret tt) then
  run? convert RGit (checkout_branch env target) then
  drop? reset_to_origin_without_checkout env current then
  ret true.

Definition follow_redirect (current : str) : Act RotationError bool :=
  run? convert RGit (fetch env) then
  do? target := resolve_active_branch current in
  if target =?? current then ret false else
  do? subjects := convert RGit (subjects_ahead_of_origin env current) in
  switch_to current target (negb (is_empty subjects)).

(** ** The daemon *)

(** [AppState::try_rotate_inner_with_archiver]; the cached status the daemon refreshes
    afterwards is not part of the clone. *)
Definition try_rotate_inner (threshold : N) (archive_dir created_at : str) : Act RotationError bool :=
  do? branch := convert RGit (current_branch env) in
  do? outcome := try_fire_rotation branch threshold archive_dir created_at in
  match outcome with
  | Won w => run? run_archive (win_archive w) then ret true
  | Lost => run? follow_redirect branch then ret false
  | NotReady => ret false
  end.

(** [matches!(.., Ok(Some(Redirected)))] *)
Definition is_redirected (reference : Rev) : Act RotationError bool :=
  handle (epoch_status_at_ref reference) (λ st, ret (st =?? Some Redirected)) (λ _, ret false).

(** The recovery at boot, for a clone with a remote, once [origin] is fetched. *)
Definition recover (branch : str) : Act RotationError unit :=
  do? origin_redirected := is_redirected (ROrigin branch) in
  do? head_redirected := is_redirected RHead in
  if head_redirected && negb origin_redirected then
    do? orphan := handle (epoch_file_at_ref RHead)
                    (λ f, ret (unwrap_or (f ≫= λ f, ri_target_branch <$> ef_redirect f) []))
                    (λ _, ret []) in
    drop? cleanup_failed_fire branch orphan then ret tt
  else if origin_redirected then drop? follow_redirect branch then ret tt
  else ret tt.

Definition boot_recovery : Act RotationError unit :=
  handle (current_branch env) (λ branch, drop? fetch env then recover branch) (λ _, ret tt).
End rotate.

(** ** Reading a run *)

Section runs.
Context `{GR : !GitRefs} `{LC : !Lowercase} `{YE : !Yaml EpochFile}.
Variable env : nat → genv.

Lemma bind_run {E A B} (m : Act E A) (k : A → Act E B) s s' r :
  bind m k s = (s', r) →
  (∃ s1 a, m s = (s1, Ok a) ∧ k a s1 = (s', r))
  ∨ (∃ e, m s = (s', Err e) ∧ r = Err e) ∨ (m s = (s', Panicked) ∧ r = Panicked).
Proof.
  unfold bind. destruct (m s) as [s1 [a|e|]]; [by left; exists s1, a|intros [= <- <-]; right; left; by exists e|].
  intros [= <- <-]. by right; right.
Qed.

Lemma handle_run {E F A B} (m : Act E A) (ok : A → Act F B) (err : E → Act F B) s s' r :
  handle m ok err s = (s', r) →
  (∃ s1 a, m s = (s1, Ok a) ∧ ok a s1 = (s', r))
  ∨ (∃ s1 e, m s = (s1, Err e) ∧ err e s1 = (s', r)) ∨ (m s = (s', Panicked) ∧ r = Panicked).
Proof.
  unfold handle. destruct (m s) as [s1 [a|e|]]; [by left; exists s1, a|intros H; right; left; by exists s1, e|].
  intros [= <- <-]. by right; right.
Qed.

Lemma convert_run {E F A} (f : E → F) (m : Act E A) s s' r :
  convert f m s = (s', r) → ∃ r0, m s = (s', r0) ∧ r = map_err f r0.
Proof. unfold convert. destruct (m s) as [s1 r0]. intros [= <- <-]. by exists r0. Qed.

Lemma run_git_Ok p o : run_git p = Ok o → p = Exited o ∧ o_success o = true.
Proof.
  unfold run_git, run_git_command. destruct p as [o'| | |]; simpl; try done.
  destruct (is_disk_full _); simpl; [done|]. destruct (o_success o') eqn:E; [by intros [= <-]|by destruct (is_disk_full _)].
Qed.

Lemma run_git_no_panic p : run_git p ≠ Panicked.
Proof.
  unfold run_git, run_git_command. destruct p as [o| | |]; simpl; try done.
  destruct (is_disk_full _); simpl; [done|]. destruct (o_success o); [done|by destruct (is_disk_full _)].
Qed.

(** A local command whose caller saw success had its effect. *)
Lemma local_run c s s' r :
  local env c s = (s', r) →
  s'.2 = S s.2 ∧ r ≠ Panicked
  ∧ (∃ p, git (env s.2) c s.1 = (p, s'.1)
          ∧ ∀ out, r = Ok out → effect sha tree_id (ge_origin (env s.2)) c s.1 out s'.1).
Proof.
  unfold local, exec. destruct (git (env s.2) c s.1) as [p cl'] eqn:E. intros [= <- <-].
  split; [done|]. pose proof (run_git_no_panic p) as Hp. split; [by destruct (run_git p)|].
  exists p. split; [done|]. intros out. destruct (run_git p) as [o|e|] eqn:Er; simpl; [|done..]. intros [= <-].
  apply run_git_Ok in Er as [-> Ho]. pose proof (git_law _ _ _ _ _ E) as H. simpl in H. by rewrite Ho in H.
Qed.

Lemma local__run c s s' r :
  local_ env c s = (s', r) →
  s'.2 = S s.2 ∧ r ≠ Panicked
  ∧ (∃ p, git (env s.2) c s.1 = (p, s'.1)
          ∧ (r = Ok tt → ∃ out, effect sha tree_id (ge_origin (env s.2)) c s.1 out s'.1)).
Proof.
  unfold local_. intros [(s1 & out & Hl & [= <- <-])|[(e & Hl & ->)|[Hl ->]]]%bind_run;
    destruct (local_run _ _ _ _ Hl) as (Ht & Hp & p & Hg & He); (split; [done|]); (split; [done|]); exists p.
  - split; [done|]. intros _. exists out. by apply He.
  - by split.
  - done.
Qed.

Lemma read_run c s s' r :
  reads c = true → local env c s = (s', r) →
  s' = (s.1, S s.2) ∧ r ≠ Panicked
  ∧ ∀ out, r = Ok out → effect sha tree_id (ge_origin (env s.2)) c s.1 out s.1.
Proof.
  intros Hc Hl. destruct (local_run _ _ _ _ Hl) as (Ht & Hp & p & Hg & He).
  pose proof (git_reads _ _ _ _ _ Hc Hg) as Heq. destruct s' as [cl' t']. simpl in *. subst cl' t'.
  split; [done|]. split; [done|exact He].
Qed.

Lemma subjects_run b s s' r :
  subjects_ahead_of_origin env b s = (s', r) →
  s' = (s.1, S s.2)
  ∧ ∀ subjects, r = Ok subjects → ∃ o l, cl_tracking s.1 !! b = Some o ∧ cl_heads s.1 !! b = Some l
                                         ∧ subjects = map c_subject (ahead o l).
Proof.
  unfold subjects_ahead_of_origin. intros [(s1 & out & Hl & [= <- <-])|[(e & Hl & ->)|[Hl ->]]]%bind_run;
    destruct (read_run (LogAhead b) _ _ _ eq_refl Hl) as (-> & Hp & He); (split; [done|]); [|done..].
  intros subjects [= <-]. destruct (He out eq_refl) as (o & l & Ho & Hh & Hs & _). by exists o, l.
Qed.

Lemma dirty_run s s' r :
  has_dirty_tracked_files env s = (s', r) → s' = (s.1, S s.2) ∧ ∀ d, r = Ok d → d = negb (is_clean s.1).
Proof.
  unfold has_dirty_tracked_files. intros [(s1 & out & Hl & [= <- <-])|[(e & Hl & ->)|[Hl ->]]]%bind_run;
    destruct (read_run StatusTracked _ _ _ eq_refl Hl) as (-> & Hp & He); (split; [done|]); [|done..].
  intros d [= <-]. destruct (He out eq_refl) as [-> _]. done.
Qed.

Lemma count_run b s s' r : count_commits_on_branch env b s = (s', r) → s' = (s.1, S s.2).
Proof.
  unfold count_commits_on_branch. intros [(s1 & out & Hl & Hk)|[(e & Hl & ->)|[Hl ->]]]%bind_run;
    destruct (read_run (RevListCount b) _ _ _ eq_refl Hl) as (-> & Hp & He); [|done..].
  destruct (parse_unsigned _ _); by injection Hk as <- <-.
Qed.

(** ** What the clone tracks of [origin] only grows *)

(** The things [T] names are on tracked branches; if [later], what is tracked is on
    [origin] from now on. *)
Definition tracked (later : bool) (T : str → Prop) (s : Clone * nat) : Prop :=
  (∀ m, T m → in_refs (cl_tracking s.1) m)
  ∧ (later = true → ∀ t, (s.2 ≤ t)%nat → refs_le (cl_tracking s.1) (ge_origin (env t))).

Lemma tracked_weaken T s : tracked true T s → tracked false T s.
Proof. intros [H _]. by split. Qed.

Lemma tracked_same later T s cl' : tracked later T s → cl_tracking cl' = cl_tracking s.1 → tracked later T (cl', S s.2).
Proof. intros [H1 H2] E. split; simpl; rewrite E; [done|]. intros Hl t Ht. apply H2; [done|lia]. Qed.

Lemma tracked_cmd later T c s p cl' :
  keeps_tracking c = true → git (env s.2) c s.1 = (p, cl') → tracked later T s → tracked later T (cl', S s.2).
Proof. intros Hc Hg Hs. eapply tracked_same; [done|]. by eapply git_keeps_tracking. Qed.

Lemma tracked_exec {A} later T c (look : ProcessResult → res A GitError) :
  keeps_tracking c = true → keeps (tracked later T) (exec env c look).
Proof. intros Hc. apply keeps_exec. intros s p cl' Hg Hs. by eapply tracked_cmd. Qed.
Lemma tracked_local later T c : keeps_tracking c = true → keeps (tracked later T) (local env c).
Proof. apply tracked_exec. Qed.
Lemma tracked_local_ later T c : keeps_tracking c = true → keeps (tracked later T) (local_ env c).
Proof. intros Hc. apply keeps_bind; [by apply tracked_local|]. intros a. apply keeps_ret. Qed.
Lemma tracked_write later T y : keeps (tracked later T) (write_epoch env y).
Proof.
  intros s Hs. unfold write_epoch. destruct (ge_disk _); simpl; (eapply tracked_same; [done|done]).
Qed.
Lemma tracked_remove later T : keeps (tracked later T) (remove_epoch env).
Proof.
  intros s Hs. unfold remove_epoch. destruct (ge_disk _); simpl; (eapply tracked_same; [done|done]).
Qed.
End runs.

Create HintDb keeps.
#[export] Hint Resolve keeps_ret keeps_throw tracked_exec tracked_local tracked_local_ tracked_write tracked_remove : keeps.

(** Discharge [keeps] goals of a sequence of commands. *)
Ltac solve_keeps :=
  repeat first
    [ progress intros
    | solve [auto with keeps]
    | apply keeps_bind | apply keeps_handle | apply keeps_convert
    | case_match ].

Section loss.
Context `{GR : !GitRefs} `{LC : !Lowercase} `{YE : !Yaml EpochFile}.
Variable env : nat → genv.

Lemma tracked_show later T r : keeps (tracked env later T) (epoch_file_at_ref env r).
Proof. unfold epoch_file_at_ref, show_file_at_ref. solve_keeps. by intros s. Qed.
Lemma tracked_rev_parse later T r : keeps (tracked env later T) (rev_parse env r).
Proof. unfold rev_parse. solve_keeps. Qed.
Lemma tracked_orphan later T b y m : keeps (tracked env later T) (create_orphan_commit env b y m).
Proof. unfold create_orphan_commit. solve_keeps. Qed.
Lemma tracked_redirect later T y m : keeps (tracked env later T) (write_redirect_commit env y m).
Proof. unfold write_redirect_commit. solve_keeps. Qed.
Lemma tracked_cleanup later T b o : keeps (tracked env later T) (cleanup_failed_fire env b o).
Proof.
  unfold cleanup_failed_fire, subjects_ahead_of_origin, has_dirty_tracked_files, reset_branch_to_origin, delete_local_branch.
  solve_keeps.
Qed.
Lemma tracked_won later T w : keeps (tracked env later T) (fire_won env w).
Proof. unfold fire_won, checkout_branch, set_upstream_to_origin. solve_keeps. Qed.

(** [origin] is append-only: no branch goes away or back. *)
Definition grows : Prop := ∀ t t', (t ≤ t')%nat → refs_le (ge_origin (env t)) (ge_origin (env t')).

Lemma fetch_tracking s cl' :
  (∀ t, (s.2 ≤ t)%nat → refs_le (cl_tracking s.1) (ge_origin (env t))) →
  cl' = set_tracking (ge_origin (env s.2) ∪ cl_tracking s.1) s.1 → cl_tracking cl' = ge_origin (env s.2).
Proof.
  intros Hseen ->. simpl. apply map_eq. intros b. rewrite lookup_union.
  destruct (cl_tracking s.1 !! b) as [o|] eqn:E; [|by rewrite (right_id None _)].
  destruct (Hseen s.2 ltac:(lia) b o E) as (o' & -> & _). done.
Qed.

Lemma tracked_fetch T : grows → keeps (tracked env true T) (fetch env).
Proof.
  intros Hg. apply keeps_remote; [|by intros s Hs; eapply tracked_same].
  intros s p cl' H Hs. pose proof (git_law _ _ _ _ _ H) as He. destruct (succeeded p); simpl in He.
  - destruct Hs as [H1 H2]. specialize (H2 eq_refl). apply (fetch_tracking s cl' H2) in He.
    split; simpl; rewrite He.
    + intros m Hm. eapply in_refs_le; [apply (H2 s.2); lia|by apply H1].
    + intros _ t Ht. apply Hg. lia.
  - subst cl'. by eapply tracked_same.
Qed.

(** A push moves the refs the clone tracks forward. *)
Lemma push_tracking_le s old new p cl' :
  (∀ t, (s.2 ≤ t)%nat → refs_le (cl_tracking s.1) (ge_origin (env t))) →
  git (env s.2) (PushAtomic old new) s.1 = (p, cl') → refs_le (cl_tracking s.1) (cl_tracking cl').
Proof.
  intros Hseen H%git_law. destruct (succeeded p); simpl in H; [|by subst].
  destruct H as (ho & hn & Ho & Hn & Hfo & Hfn & ->). simpl. specialize (Hseen s.2 ltac:(lia)).
  assert (∀ b h, fast_forward (ge_origin (env s.2) !! b) h → ∀ o, cl_tracking s.1 !! b = Some o → o `prefix_of` h) as Hff.
  { intros b h Hf o Hb. destruct (Hseen b o Hb) as (o' & Ho' & Hp). rewrite Ho' in Hf. by trans o'. }
  trans (<[new := hn]> (cl_tracking s.1)); [by apply refs_le_insert, Hff|].
  apply refs_le_insert. intros o. destruct (decide (old = new)) as [->|Hne].
  - rewrite lookup_insert_eq. intros [= <-]. by simplify_eq.
  - rewrite lookup_insert_ne by done. by apply Hff.
Qed.

Lemma tracked_push T old new : leads (tracked env true T) (atomic_push_two_refs env old new) (tracked env false T).
Proof.
  intros s Hs. unfold atomic_push_two_refs, remote, exec. destruct (ge_lock (env s.2)); simpl;
    try (by apply tracked_weaken; eapply tracked_same);
    (destruct (git (env s.2) (PushAtomic old new) s.1) as [p cl'] eqn:E; simpl; split; [|done]; simpl;
     destruct Hs as [H1 H2]; intros m Hm; eapply in_refs_le; [by eapply push_tracking_le; [apply H2|]|by apply H1]).
Qed.

Hint Resolve tracked_show tracked_rev_parse tracked_orphan tracked_redirect tracked_cleanup tracked_won tracked_weaken : keeps.

Lemma fire_tracked T current archive_dir created_at :
  grows → leads (tracked env true T) (fire env current archive_dir created_at) (tracked env false T).
Proof.
  intros Hg. pose proof (tracked_weaken env T) as Hw. unfold fire.
  apply leads_handle; [done|by apply tracked_fetch| |];
    intros _; (apply leads_bind; [done|by auto with keeps|]); intros origin_epoch;
    (destruct (is_some_and _ _); [by apply leads_keeps; [|apply keeps_ret]|]);
    (apply leads_bind; [done|by apply keeps_convert, tracked_rev_parse|]); intros sealed; cbn zeta;
    (destruct (yaml_to_string (new_active _ _ _ _ _ _ _)) as [active_yaml|];
       [|by apply leads_keeps; [|apply keeps_throw]]);
    (destruct (yaml_to_string (new_redirect _ _ _ _ _ _ _ _)) as [redirect_yaml|];
       [|by apply leads_keeps; [|apply keeps_throw]]);
    (apply leads_bind; [done|by apply keeps_convert, tracked_orphan|]); intros orphan;
    (apply leads_bind; [done|by apply keeps_convert, tracked_redirect|]); intros _;
    (apply leads_then; [apply tracked_push|by intros; apply tracked_won|]);
    intros e; (apply keeps_bind; [apply tracked_cleanup|]); intros _; by destruct e; auto with keeps.
Qed.

(** ** Zero loss *)

(** A thing is held by the clone: it is committed, tracked, or in a tracked file that
    is not committed yet. *)
Definition committed (cl : Clone) (m : str) : Prop := in_refs (cl_heads cl) m ∨ in_refs (cl_tracking cl) m.
Definition held (cl : Clone) (m : str) : Prop := committed cl m ∨ m ∈ cl_staged cl ++ cl_changes cl.

(** Only [branch] may have something that is not published. *)
Definition only_unpublished (branch : str) (cl : Clone) : Prop :=
  ∀ b h m, cl_heads cl !! b = Some h → b ≠ branch → m ∈ items h →
           in_refs (cl_tracking cl) m ∨ ∃ hb, cl_heads cl !! branch = Some hb ∧ m ∈ items hb.

Lemma is_clean_true cl : is_clean cl = true → cl_staged cl = [] ∧ cl_changes cl = [].
Proof.
  unfold is_clean. intros [[[H1 H2]%andb_true_iff _]%andb_true_iff _]%andb_true_iff.
  by apply is_empty_true in H1, H2.
Qed.

(** A clean clone whose branch is not ahead of [origin] holds nothing unpublished. *)
Lemma all_published branch cl o l m :
  only_unpublished branch cl → cl_tracking cl !! branch = Some o → cl_heads cl !! branch = Some l →
  items (ahead o l) = [] → is_clean cl = true → held cl m → in_refs (cl_tracking cl) m.
Proof.
  intros Hothers Ho Hl Ha [Hs Hc]%is_clean_true Hm.
  assert (∀ m', m' ∈ items l → in_refs (cl_tracking cl) m') as Hbranch.
  { intros m' Hm'%(items_ahead o). rewrite Ha, app_nil_r in Hm'. by exists branch, o. }
  destruct Hm as [[(b & h & Hb & Hm)|Hm]|Hm]; [|done|rewrite Hs, Hc in Hm; by apply not_elem_of_nil in Hm].
  destruct (decide (b = branch)) as [->|Hne]; [simplify_eq; by apply Hbranch|].
  destruct (Hothers b h m Hb Hne Hm) as [Ht|(hb & Hhb & Hm')]; [done|]. simplify_eq. by apply Hbranch.
Qed.

Definition seen (s : Clone * nat) : Prop :=
  ∀ t, (s.2 ≤ t)%nat → refs_le (cl_tracking s.1) (ge_origin (env t)).

(** Either the attempt stops before it touches anything, or everything is published
    when the second half starts. *)
Lemma fire_guards current threshold archive_dir created_at s s' r :
  try_fire_rotation env current threshold archive_dir created_at s = (s', r) →
  (s'.1 = s.1 ∧ r ≠ Ok Lost ∧ ∀ w, r ≠ Ok (Won w))
  ∨ ∃ s1 o l, s1.1 = s.1 ∧ (s.2 ≤ s1.2)%nat ∧ cl_tracking s.1 !! current = Some o ∧ cl_heads s.1 !! current = Some l
              ∧ ahead o l = [] ∧ is_clean s.1 = true ∧ fire env current archive_dir created_at s1 = (s', r).
Proof.
  unfold try_fire_rotation. intros H.
  apply bind_run in H as [(s1 & subjects & Hrun & H)|[(e & Hrun & ->)|[Hrun ->]]];
    apply convert_run in Hrun as (r0 & Hrun & Hr0); destruct (subjects_run env _ _ _ _ Hrun) as [-> Hsub]; [|by left; repeat split..].
  destruct (is_empty subjects) eqn:Es; simpl in H; [|injection H as <- <-; by left; repeat split].
  destruct r0 as [subjects'| |]; simpl in Hr0; try done. injection Hr0 as <-.
  destruct (Hsub subjects eq_refl) as (o & l & Ho & Hl & ->). apply is_empty_true, map_eq_nil in Es.
  apply bind_run in H as [(s1 & dirty & Hrun2 & H)|[(e & Hrun2 & ->)|[Hrun2 ->]]];
    apply convert_run in Hrun2 as (r1 & Hrun2 & Hr1); destruct (dirty_run env _ _ _ Hrun2) as [-> Hdirty]; [|by left; repeat split..].
  destruct r1 as [d| |]; simpl in Hr1; try done. injection Hr1 as <-. specialize (Hdirty dirty eq_refl). simpl in Hdirty.
  destruct dirty; [injection H as <- <-; by left; repeat split|]. symmetry in Hdirty. apply negb_false_iff in Hdirty.
  apply bind_run in H as [(s1 & n & Hrun3 & H)|[(e & Hrun3 & ->)|[Hrun3 ->]]];
    apply convert_run in Hrun3 as (r2 & Hrun3 & Hr2); pose proof (count_run env _ _ _ _ Hrun3) as ->; [|by left; repeat split..].
  destruct (n <? threshold); [injection H as <- <-; by left; repeat split|].
  right. eexists (_, _), o, l. split; [|split; [|repeat split; done]]; simpl; [done|lia].
Qed.

Lemma fire_keeps_held current threshold archive_dir created_at s m :
  grows → seen s → only_unpublished current s.1 → held s.1 m →
  held (try_fire_rotation env current threshold archive_dir created_at s).1.1 m.
Proof.
  intros Hg Hseen Hothers Hm. destruct (try_fire_rotation _ _ _ _ _ s) as [s' r] eqn:E. simpl.
  apply fire_guards in E as [[-> _]|(s1 & o & l & Hs1 & Ht & Ho & Hl & Ha & Hc & Hf)]; [done|].
  left; right. destruct (fire_tracked (held s.1) current archive_dir created_at Hg s1) as [H _].
  - split; rewrite Hs1.
    + intros m' Hm'. eapply all_published; try done. by rewrite Ha.
    + intros _ t Ht'. apply Hseen. lia.
  - rewrite Hf in H. by apply H.
Qed.

(** Seal commits, by their subject, carry nothing but the epoch file. *)
Definition seals_empty (cl : Clone) : Prop :=
  ∀ b h c, cl_heads cl !! b = Some h → c ∈ h → starts_with (c_subject c) SEAL_SUBJECT_PREFIX = true → c_items c = [].

Lemma sealed_items_nil cl b o l :
  seals_empty cl → cl_heads cl !! b = Some l →
  existsb (λ s, negb (starts_with s SEAL_SUBJECT_PREFIX)) (map c_subject (ahead o l)) = false → items (ahead o l) = [].
Proof.
  intros Hs Hl Hall. destruct (ahead_split o l) as (common & _ & Hsplit).
  assert (∀ c, c ∈ ahead o l → c_items c = []) as Hc.
  { intros c Hc. apply (Hs b l); [done|rewrite Hsplit; set_solver|].
    apply existsb_false in Hall. rewrite Forall_forall in Hall.
    specialize (Hall (c_subject c) ltac:(by apply list_elem_of_fmap_2)). by apply negb_false_iff in Hall. }
  clear -Hc. induction (ahead o l) as [|c k IH]; [done|]. unfold items. simpl. rewrite Hc by left.
  apply IH. intros c' Hc'. apply Hc. by right.
Qed.

Lemma cleanup_keeps_held old orphan s m :
  seals_empty s.1 → only_unpublished old s.1 → held s.1 m → held (cleanup_failed_fire env old orphan s).1.1 m.
Proof.
  intros Hseals Hothers Hm. destruct (cleanup_failed_fire env old orphan s) as [s' r] eqn:E. simpl.
  unfold cleanup_failed_fire in E.
  apply bind_run in E as [(s1 & subjects & Hrun & H)|[(e & Hrun & ->)|[Hrun ->]]];
    apply convert_run in Hrun as (r0 & Hrun & Hr0); destruct (subjects_run env _ _ _ _ Hrun) as [-> Hsub]; [|done..].
  destruct r0 as [subjects'| |]; simpl in Hr0; try done. injection Hr0 as <-.
  destruct (Hsub subjects eq_refl) as (o & l & Ho & Hl & ->).
  destruct (existsb _ _) eqn:Hex; [by injection H as <- <-|].
  apply bind_run in H as [(s1 & dirty & Hrun2 & H)|[(e & Hrun2 & ->)|[Hrun2 ->]]];
    apply convert_run in Hrun2 as (r1 & Hrun2 & Hr1); destruct (dirty_run env _ _ _ Hrun2) as [-> Hdirty]; [|done..].
  destruct r1 as [d| |]; simpl in Hr1; try done. injection Hr1 as <-. specialize (Hdirty dirty eq_refl). simpl in Hdirty.
  destruct dirty; [by injection H as <- <-|]. symmetry in Hdirty. apply negb_false_iff in Hdirty.
  assert (tracked env false (held s.1) ((s.1, S s.2).1, S (s.1, S s.2).2)) as Ht.
  { split; [|done]. intros m' Hm'. simpl. eapply all_published; try done. by eapply sealed_items_nil. }
  left; right.
  assert (keeps (tracked env false (held s.1))
            (run? convert RGit (reset_branch_to_origin env old) then
             drop? delete_local_branch env orphan then @ret RotationError _ tt)) as Hk.
  { unfold reset_branch_to_origin, delete_local_branch. solve_keeps. }
  destruct (Hk _ Ht) as [H1 _]. rewrite H in H1. by apply H1.
Qed.

(** ** Following a redirect *)

(** A read-only sequence leaves the clone and lets time pass. *)
Definition same_clone (s0 s : Clone * nat) : Prop := s.1 = s0.1 ∧ (s0.2 ≤ s.2)%nat.

Lemma same_exec {A} s0 c (look : ProcessResult → res A GitError) : reads c = true → keeps (same_clone s0) (exec env c look).
Proof.
  intros Hc. apply keeps_exec. intros s p cl' Hg [Hs Ht]. apply git_reads in Hg; [|done]. subst cl'.
  split; [done|]. simpl. lia.
Qed.
Lemma same_show s0 r : keeps (same_clone s0) (epoch_file_at_ref env r).
Proof.
  unfold epoch_file_at_ref, show_file_at_ref. apply keeps_bind; [by apply keeps_convert, same_exec|].
  intros [content|]; [|apply keeps_ret]. destruct (yaml_from_str content) as [f|]; [|apply keeps_throw].
  destruct (validate f); [apply keeps_ret|apply keeps_throw|by intros s].
Qed.
Lemma same_hops s0 hops start b : keeps (same_clone s0) (follow_hops env hops start b).
Proof.
  revert b. induction hops as [|hops IH]; intros b; simpl; [apply keeps_throw|].
  apply keeps_bind; [apply same_show|]. intros [f|]; [|apply keeps_ret]. destruct (ef_status f); [apply keeps_ret|].
  destruct (ef_redirect f); [apply IH|apply keeps_throw].
Qed.

(** Everything [T] names is published or on branch [b]. *)
Definition carries (b : str) (T : str → Prop) (cl : Clone) : Prop :=
  ∃ l, cl_heads cl !! b = Some l ∧ ∀ m, T m → in_refs (cl_tracking cl) m ∨ m ∈ items l.

Lemma carries_committed b T cl m : carries b T cl → T m → committed cl m.
Proof. intros (l & Hl & H) Hm. destruct (H m Hm) as [Ht|Hi]; [by right|left]. by exists b, l. Qed.

Lemma carries_start b cl l : cl_heads cl !! b = Some l → only_unpublished b cl → carries b (committed cl) cl.
Proof.
  intros Hl Hothers. exists l. split; [done|]. intros m [(b' & h & Hb & Hm)|Hm]; [|by left].
  destruct (decide (b' = b)) as [->|Hne]; [simplify_eq; by right|].
  destruct (Hothers b' h m Hb Hne Hm) as [Ht|(hb & Hhb & Hm')]; [by left|simplify_eq; by right].
Qed.

Lemma carries_other b b' h T cl : b' ≠ b → carries b T cl → carries b T (set_heads (<[b' := h]> (cl_heads cl)) cl).
Proof. intros Hne (l & Hl & H). exists l. simpl. by rewrite lookup_insert_ne. Qed.

Lemma git_same_refs g c cl p cl' :
  match c with
  | BranchUpstream _ | CheckoutForce _ | RebaseAbort => True
  | _ => reads c = true
  end → git g c cl = (p, cl') → cl_heads cl' = cl_heads cl ∧ cl_tracking cl' = cl_tracking cl.
Proof.
  intros Hc H%git_law. destruct (succeeded p), c; simpl in Hc, H; try done; naive_solver.
Qed.

(** Transplanting the commits ahead of [origin] keeps what the branch carries. *)
Lemma rebase_carries current target T s p cl' :
  git (env s.2) (RebaseOnto (ROrigin target) (ROrigin current)) s.1 = (p, cl') → cl_head s.1 = On current →
  carries current T s.1 → carries current T cl'.
Proof.
  intros Hg%git_law Hh (l & Hl & HT). destruct (succeeded p); simpl in Hg.
  - destruct Hg as (_ & b & h & n & o & replayed & Hb & Hhb & Hn & Ho & _ & Hre & ->).
    rewrite Hh in Hb. injection Hb as <-. rewrite Hl in Hhb. injection Hhb as <-. simpl in Hn, Ho.
    exists (n ++ replayed). simpl. rewrite lookup_insert_eq. split; [done|]. intros m Hm.
    destruct (HT m Hm) as [Ht|Hi]; [by left|]. rewrite items_app.
    apply (items_ahead o), elem_of_app in Hi as [Hi|Hi]; [left; by exists current, o|].
    apply elem_of_items in Hi as (c & Hc & Hmc). destruct (Hre c Hc) as [Hr|Hsub].
    + right. apply elem_of_app. right. apply elem_of_items. by exists c.
    + apply Hsub, elem_of_app in Hmc as [Hmc|Hmc]; [right; set_solver|left; by exists current, o].
  - destruct Hg as [->|(b & _ & _ & _ & Hheads & Htrack & _)]; [by exists l|].
    exists l. by rewrite Hheads, Htrack.
Qed.

(** What a command leaves of the things carried, whether its caller saw success or not. *)
Lemma same_refs_carries b T c s p cl' :
  match c with
  | BranchUpstream _ | CheckoutForce _ | RebaseAbort => True
  | _ => reads c = true
  end → git (env s.2) c s.1 = (p, cl') → carries b T s.1 → carries b T cl'.
Proof. intros Hc Hg (l & Hl & H). destruct (git_same_refs _ _ _ _ _ Hc Hg) as [E1 E2]. exists l. by rewrite E1, E2. Qed.

Lemma move_branch_carries b b' T c s p cl' :
  match c with
  | BranchForce x _ | UpdateRef x _ => x = b'
  | _ => False
  end → b' ≠ b → git (env s.2) c s.1 = (p, cl') → carries b T s.1 → carries b T cl' ∧ cl_head cl' = cl_head s.1.
Proof.
  intros Hc Hne Hg%git_law Hcar.
  destruct (succeeded p), c; simpl in Hc, Hg; try done; subst; try (by subst).
  - destruct Hg as (h & _ & ->). split; [by apply carries_other|done].
  - destruct Hg as (_ & h & _ & ->). split; [by apply carries_other|done].
Qed.

Lemma abort_carries b T : keeps (λ s, carries b T s.1) (abort_rebase env).
Proof.
  unfold abort_rebase. apply keeps_handle.
  - apply keeps_exec. intros s p cl' Hg Hs. exact (same_refs_carries b T RebaseAbort s p cl' I Hg Hs).
  - intros _. apply keeps_bind; [by intros s|]. intros []; [apply keeps_throw|apply keeps_ret].
  - intros _. apply keeps_bind; [by intros s|]. intros []; [apply keeps_throw|apply keeps_ret].
Qed.

Lemma align_carries current target T :
  current ≠ target → keeps (λ s, carries target T s.1 ∧ cl_head s.1 = On target) (reset_to_origin_without_checkout env current).
Proof.
  intros Hne. unfold reset_to_origin_without_checkout, rev_parse.
  apply keeps_bind; [apply keeps_bind; [|intros; apply keeps_ret]|intros id].
  - apply keeps_local. intros s p cl' Hg Hs. apply git_reads in Hg; [|done]. by subst cl'.
  - apply keeps_local_. intros s p cl' Hg [Hs Hh]. rewrite <-Hh.
    exact (move_branch_carries target current T (UpdateRef current id) s p cl' eq_refl Hne Hg Hs).
Qed.

Lemma migrate_carries current target T s s' r :
  target ≠ current → cl_head s.1 = On current → carries current T s.1 →
  (run? handle (migrate_unpushed env current target) ret (λ e, drop? abort_rebase env then throw e) then
   convert RGit (repoint_branch_to_head env target)) s = (s', r) →
  match r with Ok _ => carries target T s'.1 | _ => carries current T s'.1 end.
Proof.
  intros Hne Hh Hc H. assert (∀ s1 r1, migrate_unpushed env current target s = (s1, r1) → carries current T s1.1) as Hmig.
  { intros s1 r1 (r0 & Hr & _)%convert_run. destruct (local__run env _ _ _ _ Hr) as (_ & _ & p & Hg & _).
    by eapply rebase_carries. }
  apply bind_run in H as [(s1 & [] & Hm & H)|[(e & Hm & ->)|[Hm ->]]].
  - apply handle_run in Hm as [(s2 & [] & Hm & [= <-])|[(s2 & e & _ & Hm)|[_ Hm]]]; [| |done].
    2:{ apply handle_run in Hm as [(s3 & a & _ & Hm)|[(s3 & a & _ & Hm)|[_ Hm]]]; done. }
    pose proof (Hmig _ _ Hm) as Hc2. apply convert_run in Hm as ([[]| |] & Hm & Hr); try done.
    destruct (local__run env _ _ _ _ Hm) as (_ & _ & p & Hg & He). destruct (He eq_refl) as (out & Heff). simpl in Heff.
    destruct Heff as (_ & b & h & n & o & replayed & Hb & _ & _ & _ & _ & _ & Hcl).
    assert (cl_head s2.1 = On current) as Hh2 by (by rewrite Hcl, <-Hh).
    apply convert_run in H as (r0 & H & ->). destruct (local__run env _ _ _ _ H) as (_ & Hnp & p2 & Hg2 & He2).
    destruct (move_branch_carries current target T (BranchForce target RHead) s2 p2 s'.1 eq_refl Hne Hg2 Hc2) as [Hc3 _].
    destruct r0 as [[]| |]; simpl; [|done..]. destruct (He2 eq_refl) as (out2 & _ & h' & Hres & Hcl').
    destruct Hc2 as (l & Hl & HT). unfold resolve in Hres. rewrite Hh2, Hl in Hres. injection Hres as <-.
    exists l. rewrite Hcl'. simpl. by rewrite lookup_insert_eq.
  - apply handle_run in Hm as [(s2 & a & _ & [=])|[(s2 & e' & Hm & H2)|[_ [=]]]]. pose proof (Hmig _ _ Hm) as Hc2.
    pose proof (abort_carries current T s2 Hc2) as Ha.
    apply handle_run in H2 as [(s3 & a & Hab & [= <- _])|[(s3 & a & Hab & [= <- _])|[Hab _]]]; by rewrite Hab in Ha.
  - apply handle_run in Hm as [(s2 & a & _ & [=])|[(s2 & e' & Hm & H2)|[Hm _]]]; [|by eapply Hmig].
    pose proof (Hmig _ _ Hm) as Hc2. pose proof (abort_carries current T s2 Hc2) as Ha.
    apply handle_run in H2 as [(s3 & a & Hab & [=])|[(s3 & a & Hab & [=])|[Hab _]]]; by rewrite Hab in Ha.
Qed.

(** The tail of the switch, once the target branch carries everything. *)
Lemma checkout_carries current target T s s' r :
  target ≠ current → carries target T s.1 →
  (run? convert RGit (checkout_branch env target) then
   drop? reset_to_origin_without_checkout env current then @ret RotationError _ true) s = (s', r) →
  match r with Ok b => b = true ∧ carries target T s'.1 ∧ cl_head s'.1 = On target | _ => carries target T s'.1 end.
Proof.
  intros Hne Hc H. apply bind_run in H as [(s1 & [] & Hr & H)|[(e & Hr & ->)|[Hr ->]]];
    apply convert_run in Hr as (r0 & Hr & Hr0); destruct (local__run env _ _ _ _ Hr) as (_ & _ & p & Hg & He);
    pose proof (same_refs_carries target T (CheckoutForce target) s p _ I Hg Hc) as Hc1; [|done..].
  destruct r0 as [[]| |]; try done. destruct (He eq_refl) as (out & h & _ & Hcl).
  assert (cl_head s1.1 = On target) as Hh by (by rewrite Hcl).
  pose proof (align_carries current target T (not_eq_sym Hne) s1 (conj Hc1 Hh)) as Ha.
  apply handle_run in H as [(s2 & a & Hal & [= <- <-])|[(s2 & a & Hal & [= <- <-])|[Hal ->]]]; rewrite Hal in Ha;
    simpl in Ha; [by split|by split|apply Ha].
Qed.

Lemma switch_carries current target T unpushed s s' r :
  target ≠ current → cl_head s.1 = On current → carries current T s.1 →
  (unpushed = false → ∀ m, T m → in_refs (cl_tracking s.1) m) →
  switch_to env current target unpushed s = (s', r) →
  match r with
  | Ok b => b = true ∧ carries target T s'.1 ∧ cl_head s'.1 = On target
  | _ => carries current T s'.1 ∨ carries target T s'.1
  end.
Proof.
  intros Hne Hh Hc Hpub H. unfold switch_to in H.
  apply bind_run in H as [(s1 & [] & Hr & H)|[(e & Hr & ->)|[Hr ->]]];
    apply convert_run in Hr as (r0 & Hr & Hr0); destruct (local__run env _ _ _ _ Hr) as (_ & _ & p & Hg & He);
    destruct (move_branch_carries current target T (BranchForce target (ROrigin target)) s p _ eq_refl Hne Hg Hc) as [Hc1 Hh1];
    [|by left..].
  destruct r0 as [[]| |]; try done. destruct (He eq_refl) as (out & _ & ht & _ & Hcl). clear He Hr0.
  apply bind_run in H as [(s2 & [] & Hr2 & H)|[(e & Hr2 & ->)|[Hr2 ->]]];
    apply convert_run in Hr2 as (r0 & Hr2 & Hr0); destruct (local__run env _ _ _ _ Hr2) as (_ & _ & p2 & Hg2 & He2);
    pose proof (same_refs_carries current T (BranchUpstream target) s1 p2 _ I Hg2 Hc1) as Hc2; [|by left..].
  destruct r0 as [[]| |]; try done. destruct (He2 eq_refl) as (out2 & _ & _ & Hcl2).
  assert (cl_head s2.1 = On current) as Hh2 by (rewrite Hcl2; simpl; congruence).
  apply bind_run in H as [(s3 & [] & Hr3 & H)|Hfail].
  - assert (carries target T s3.1) as Hc3.
    { destruct unpushed; [exact (migrate_carries current target T s2 s3 (Ok tt) Hne Hh2 Hc2 Hr3)|].
      injection Hr3 as <-. exists ht. rewrite Hcl2, Hcl. simpl. rewrite lookup_insert_eq. split; [done|].
      intros m Hm. left. by apply Hpub. }
    pose proof (checkout_carries current target T s3 s' r Hne Hc3 H) as Hend. destruct r; [done|by right..].
  - assert (carries current T s'.1 ∧ (∃ e, r = Err e) ∨ carries current T s'.1 ∧ r = Panicked) as Hend; [|naive_solver].
    destruct unpushed; [|destruct Hfail as [(e & [=] & _)|[[=] _]]].
    destruct Hfail as [(e & Hr3 & ->)|[Hr3 ->]];
      pose proof (migrate_carries current target T s2 s' _ Hne Hh2 Hc2 Hr3) as Hc3; simpl in Hc3; eauto.
Qed.

Lemma fetch_run s s' r :
  seen s → fetch env s = (s', r) →
  s'.2 = S s.2 ∧ s'.1 = set_tracking (cl_tracking s'.1) s.1 ∧ refs_le (cl_tracking s.1) (cl_tracking s'.1)
  ∧ (r = Ok tt → cl_tracking s'.1 = ge_origin (env s.2)).
Proof.
  intros Hseen. unfold fetch, remote, exec.
  assert (∀ (a b : Clone * nat * res unit GitError), a = b → a.1.2 = S s.2 ∧ a.1.1 = s.1 ∧ a.2 ≠ Ok tt →
          b.1.2 = S s.2 ∧ b.1.1 = set_tracking (cl_tracking b.1.1) s.1 ∧ refs_le (cl_tracking s.1) (cl_tracking b.1.1)
          ∧ (b.2 = Ok tt → cl_tracking b.1.1 = ge_origin (env s.2))) as Hsame.
  { intros a b <- (H1 & H2 & H3). rewrite H2. by destruct s as [[] ?]. }
  destruct (ge_lock (env s.2)) eqn:El; simpl; intros H; try (by apply Hsame in H).
  all: destruct (git (env s.2) FetchOrigin s.1) as [p cl'] eqn:Eg; injection H as <- <-; simpl; split; [done|].
  all: pose proof (git_law _ _ _ _ _ Eg) as Hl; destruct (succeeded p) eqn:Ep; simpl in Hl.
  all: try (subst cl'; split; [by destruct s as [[] ?]|]; split; [done|]; unfold run_git_remote, run_git_command;
            destruct p as [o| | |]; simpl; try done; simpl in Ep; destruct (is_disk_full _); simpl; [done|by rewrite Ep]).
  all: pose proof (fetch_tracking s cl' Hseen Hl) as Ht; subst cl'; split; [by destruct s as [[] ?]|];
       rewrite Ht; split; [apply Hseen; lia|done].
Qed.

(** ** The redirect chain *)

(** What the epoch file on a tracked branch says, when it is readable. *)
Definition epoch_of (cl : Clone) (b : str) (f : EpochFile) : Prop :=
  ∃ y, epoch_at cl (ROrigin b) = Some y ∧ yaml_from_str y = Some f ∧ validate f = Ok tt.
Definition unsealed (cl : Clone) (b : str) : Prop :=
  epoch_at cl (ROrigin b) = None ∨ ∃ f, epoch_of cl b f ∧ ef_status f = Active.
Definition redirects (cl : Clone) (b b' : str) : Prop :=
  ∃ f r, epoch_of cl b f ∧ ef_status f = Redirected ∧ ef_redirect f = Some r ∧ ri_target_branch r = b'.

Inductive chain (cl : Clone) : nat → str → str → Prop :=
  | chain_here b : chain cl 0 b b
  | chain_hop n b b1 b2 : redirects cl b b1 → chain cl n b1 b2 → chain cl (S n) b b2.

(** git can read the refs: [git show] prints the file, or says that it is missing. *)
Definition readable : Prop :=
  ∀ t r cl p cl', git (env t) (ShowEpoch r) cl = (p, cl') →
    match epoch_at cl r with
    | Some y => ∃ o, p = Exited o ∧ o_success o = true ∧ is_disk_full (o_stderr o) = false
    | None => ∃ o, p = Exited o ∧ o_success o = false ∧ is_disk_full (o_stderr o) = false
                   ∧ names_missing (o_stderr o) = true
    end.

Lemma show_run r s s' x :
  show_file_at_ref env r s = (s', x) → s' = (s.1, S s.2) ∧ ∀ c, x = Ok c → c = epoch_at s.1 r.
Proof.
  unfold show_file_at_ref, exec. destruct (git (env s.2) (ShowEpoch r) s.1) as [p cl'] eqn:E. intros [= <- <-].
  pose proof (git_reads _ (ShowEpoch r) _ _ _ eq_refl E) as ->. split; [done|]. intros c. pose proof (git_law _ _ _ _ _ E) as Hl.
  destruct (run_git p) as [o|[]|] eqn:Er; try done.
  - apply run_git_Ok in Er as [-> Ho]. simpl in Hl. rewrite Ho in Hl. intros [= <-]. by destruct Hl as [-> _].
  - destruct (names_missing stderr) eqn:Em; [|done]. intros [= <-].
    destruct p as [o| | |]; unfold run_git, run_git_command in Er; simpl in Er; try done.
    + destruct (is_disk_full (o_stderr o)) eqn:Ed; simpl in Er; [done|]. simpl in Hl.
      destruct (o_success o) eqn:Eo; [done|]. rewrite Ed in Er. injection Er as <-.
      destruct Hl as [_ Hl]. symmetry. by apply Hl.
    + injection Er as <-. by vm_compute in Em.
Qed.

Lemma epoch_file_run b s s' x :
  epoch_file_at_ref env (ROrigin b) s = (s', x) →
  s' = (s.1, S s.2)
  ∧ match x with
    | Ok None => epoch_at s.1 (ROrigin b) = None
    | Ok (Some f) => epoch_of s.1 b f
    | Err (RTooManyHops _) | Err RNoRedirectBlock => False
    | _ => True
    end.
Proof.
  unfold epoch_file_at_ref. intros [(s1 & c & Hr & H)|[(e & Hr & ->)|[Hr ->]]]%bind_run;
    apply convert_run in Hr as (r0 & Hr & Hr0); destruct (show_run _ _ _ _ Hr) as [-> Hc].
  - destruct r0 as [c'| |]; try done. injection Hr0 as <-. specialize (Hc c eq_refl). subst c.
    destruct (epoch_at s.1 (ROrigin b)) as [y|] eqn:Ey; [|injection H as <- <-; done].
    destruct (yaml_from_str y) as [f|] eqn:Ef; [|injection H as <- <-; done].
    destruct (validate f) as [[]|e|] eqn:Ev; injection H as <- <-; split; try done. by exists y.
  - split; [done|]. by destruct r0; simplify_eq/=.
  - done.
Qed.

Lemma epoch_file_reads b s :
  readable →
  (epoch_at s.1 (ROrigin b) = None → epoch_file_at_ref env (ROrigin b) s = ((s.1, S s.2), Ok None))
  ∧ (∀ f, epoch_of s.1 b f → epoch_file_at_ref env (ROrigin b) s = ((s.1, S s.2), Ok (Some f))).
Proof.
  intros Hread. unfold epoch_file_at_ref, bind, convert, show_file_at_ref, exec.
  destruct (git (env s.2) (ShowEpoch (ROrigin b)) s.1) as [p cl'] eqn:E.
  pose proof (git_reads _ (ShowEpoch (ROrigin b)) _ _ _ eq_refl E) as ->. pose proof (Hread _ _ _ _ _ E) as Hp.
  pose proof (git_law _ _ _ _ _ E) as Hl. split.
  - intros Hnone. rewrite Hnone in Hp. destruct Hp as (o & -> & Ho & Hd & Hm).
    unfold run_git, run_git_command. by rewrite Hd; simpl; rewrite Ho, Hd; simpl; rewrite Hm.
  - intros f (y & Hy & Hf & Hv). rewrite Hy in Hp. destruct Hp as (o & -> & Ho & Hd).
    unfold run_git, run_git_command. rewrite Hd. simpl. rewrite Ho. simpl. simpl in Hl. rewrite Ho in Hl.
    destruct Hl as [Hout _]. assert (o_stdout o = y) as -> by (simpl in Hout; congruence). by rewrite Hf, Hv.
Qed.

Lemma follow_hops_sound hops start b s s' r :
  follow_hops env hops start b s = (s', r) →
  match r with
  | Ok b' => ∃ n, (n < hops)%nat ∧ chain s.1 n b b' ∧ unsealed s.1 b'
  | Err (RTooManyHops _) => ∃ b', chain s.1 hops b b'
  | _ => True
  end.
Proof.
  revert b s. induction hops as [|hops IH]; intros b s; simpl.
  { intros [= <- <-]. exists b. constructor. }
  intros [(s1 & f & Hr & H)|[(e & Hr & ->)|[Hr ->]]]%bind_run; destruct (epoch_file_run _ _ _ _ Hr) as [-> Hx];
    [|by destruct e|done].
  destruct f as [f|]; [|injection H as <- <-; exists 0%nat; split; [lia|]; split; [constructor|by left]].
  destruct (ef_status f) eqn:Es.
  { injection H as <- <-. exists 0%nat. split; [lia|]. split; [constructor|right; by exists f]. }
  destruct (ef_redirect f) as [ri|] eqn:Er; [|by injection H as <- <-].
  assert (redirects s.1 b (ri_target_branch ri)) as Hred by (by exists f, ri).
  specialize (IH _ _ H). simpl in IH. destruct r as [b'|[]|]; try done.
  - destruct IH as (n & Hn & Hch & Hun). exists (S n). split; [lia|]. split; [by econstructor|done].
  - destruct IH as (b' & Hch). exists b'. by econstructor.
Qed.

Lemma follow_hops_step hops start b b1 s :
  readable → redirects s.1 b b1 → follow_hops env (S hops) start b s = follow_hops env hops start b1 (s.1, S s.2).
Proof.
  intros Hread (f & ri & Hf & Hs & Hr & <-). simpl. unfold bind.
  rewrite (proj2 (epoch_file_reads b s Hread) f Hf), Hs, Hr. done.
Qed.

Lemma follow_hops_complete n hops start b b' s :
  readable → chain s.1 n b b' →
  ((n < hops)%nat → unsealed s.1 b' → (follow_hops env hops start b s).2 = Ok b')
  ∧ (n = hops → (follow_hops env hops start b s).2 = Err (RTooManyHops start)).
Proof.
  intros Hread Hc. remember s.1 as cl eqn:Ecl. revert hops s Ecl. induction Hc as [b|n b b1 b2 Hred Hc IH]; intros hops s ->.
  - split; [|by intros <-]. intros Hn Hun. destruct hops as [|hops]; [lia|]. simpl. unfold bind.
    destruct Hun as [Hnone|(f & Hf & Hs)].
    + by rewrite (proj1 (epoch_file_reads b s Hread) Hnone).
    + by rewrite (proj2 (epoch_file_reads b s Hread) f Hf), Hs.
  - destruct hops as [|hops]; [split; [lia|done]|]. rewrite (follow_hops_step hops start b b1 s Hread Hred).
    destruct (IH hops (s.1, S s.2) eq_refl) as [H1 H2]. split; [intros Hn; apply H1; lia|intros Hn; apply H2; lia].
Qed.

Lemma carries_fetch b T cl r :
  refs_le (cl_tracking cl) r → carries b T cl → carries b T (set_tracking r cl).
Proof.
  intros Hle (l & Hl & H). exists l. split; [done|]. intros m Hm.
  destruct (H m Hm) as [Ht|Hi]; [left; by eapply in_refs_le|by right].
Qed.

Lemma follow_carries T current s s' r :
  seen s → cl_head s.1 = On current → carries current T s.1 → follow_redirect env current s = (s', r) →
  match r with
  | Ok true => ∃ target n cl1, target ≠ current ∧ cl_tracking cl1 = ge_origin (env s.2) ∧ chain cl1 n current target
                ∧ unsealed cl1 target ∧ cl_head s'.1 = On target ∧ carries target T s'.1
  | Ok false => cl_heads s'.1 = cl_heads s.1 ∧ cl_head s'.1 = On current ∧ carries current T s'.1
  | _ => ∃ b, carries b T s'.1
  end.
Proof.
  intros Hseen Hh Hc0 H. unfold follow_redirect in H.
  apply bind_run in H as [(s1 & [] & Hr & H)|[(e & Hr & ->)|[Hr ->]]];
    apply convert_run in Hr as (r0 & Hr & Hr0); destruct (fetch_run _ _ _ Hseen Hr) as (Ht1 & E1 & Hle & Hfresh);
    pose proof (carries_fetch _ _ _ _ Hle Hc0) as Hc; rewrite <-E1 in Hc; [|by exists current..].
  pose proof (same_hops s1 MAX_FOLLOW_HOPS current current s1 (conj eq_refl (le_n _))) as Hsame.
  apply bind_run in H as [(s2 & target & Hr2 & H)|[(e & Hr2 & ->)|[Hr2 ->]]];
    unfold resolve_active_branch in Hr2; rewrite Hr2 in Hsame; destruct Hsame as [Hs2 _];
    simpl in Hs2; [|exists current; by rewrite Hs2..].
  destruct (bool_decide_reflect (target = current)) as [->|Hne].
  { injection H as <- <-. rewrite Hs2. split; [by rewrite E1|]. split; [by rewrite E1|done]. }
  apply bind_run in H as [(s3 & subjects & Hr3 & H)|[(e & Hr3 & ->)|[Hr3 ->]]];
    apply convert_run in Hr3 as (r3 & Hr3 & Hr03); destruct (subjects_run env _ _ _ _ Hr3) as [-> Hsub];
    [|exists current; simpl; by rewrite Hs2..].
  destruct r3 as [subjects'| |]; simpl in Hr03; try done. injection Hr03 as <-.
  destruct (Hsub subjects eq_refl) as (o & l & Ho & Hl & ->). rewrite Hs2 in *.
  apply (switch_carries current target T) in H; simpl; try done.
  - destruct r as [b|e|]; [|destruct H as [H|H]; by eexists..]. destruct H as (-> & Hcar & Hht).
    apply follow_hops_sound in Hr2 as (n & _ & Hch & Hun). exists target, n, s1.1. by rewrite Hfresh by (by destruct r0; simplify_eq/=).
  - by rewrite E1.
  - intros He m Hm. destruct (ahead o l) as [|c k] eqn:Ea; [|done]. apply ahead_nil in Ea.
    destruct Hc as (l' & Hl' & HT). simplify_eq. destruct (HT m Hm) as [Ht|Hi]; [done|].
    exists current, o. split; [done|]. by apply (items_prefix _ _ Ea).
Qed.

Lemma follow_committed T current s s' r m :
  seen s → cl_head s.1 = On current → carries current T s.1 → follow_redirect env current s = (s', r) →
  T m → committed s'.1 m.
Proof.
  intros Hseen Hh Hc H Hm. pose proof (follow_carries T current s s' r Hseen Hh Hc H) as Hf.
  destruct r as [[]|e|].
  - destruct Hf as (target & n & cl1 & _ & _ & _ & _ & _ & Hf). by eapply carries_committed.
  - destruct Hf as (_ & _ & Hf). by eapply carries_committed.
  - destruct Hf as (b & Hf). by eapply carries_committed.
  - destruct Hf as (b & Hf). by eapply carries_committed.
Qed.

(** ** A rotation that won *)

Lemma bind_Ok {E A B} (m : Act E A) (k : A → Act E B) s s' b :
  bind m k s = (s', Ok b) → ∃ s1 a, m s = (s1, Ok a) ∧ k a s1 = (s', Ok b).
Proof. by intros [H|[(e & _ & [=])|[_ [=]]]]%bind_run. Qed.

Lemma drop_Ok {E F A B} (m : Act E A) (k : Act F B) s s' b :
  (drop? m then k) s = (s', Ok b) → ∃ s1 r1, m s = (s1, r1) ∧ k s1 = (s', Ok b).
Proof. intros [(s1 & a & H1 & H2)|[(s1 & e & H1 & H2)|[_ [=]]]]%handle_run; by eauto. Qed.

Lemma convert_Ok {E F A} (f : E → F) (m : Act E A) s s' a : convert f m s = (s', Ok a) → m s = (s', Ok a).
Proof. intros ([a'| |] & H & [=])%convert_run. by subst. Qed.

Lemma local_Ok c s s' out :
  local env c s = (s', Ok out) → effect sha tree_id (ge_origin (env s.2)) c s.1 out s'.1.
Proof. intros (_ & _ & p & _ & H)%local_run. by apply H. Qed.

Lemma local__Ok c s s' : local_ env c s = (s', Ok tt) → ∃ out, effect sha tree_id (ge_origin (env s.2)) c s.1 out s'.1.
Proof. intros (_ & _ & p & _ & H)%local__run. by apply H. Qed.

Lemma write_Ok y s s' : write_epoch env y s = (s', Ok tt) → s'.1 = set_work (Some y) s.1.
Proof. unfold write_epoch. destruct (ge_disk _); [by intros [= <-]|done]. Qed.

Lemma remote_Ok c s s' : remote env c s = (s', Ok tt) → ∃ out, effect sha tree_id (ge_origin (env s.2)) c s.1 out s'.1.
Proof.
  unfold remote, exec. destruct (ge_lock (env s.2)); simpl; try done.
  all: destruct (git (env s.2) c s.1) as [p cl'] eqn:E; intros H; injection H as <- Hr;
       pose proof (git_law _ _ _ _ _ E) as Hl; unfold run_git_remote, run_git_command in Hr;
       destruct p as [o| | |]; simpl in Hr; try done; destruct (is_disk_full _); simpl in Hr; [done|];
       destruct (o_success o) eqn:Eo; [|done]; simpl in Hl; rewrite Eo in Hl; by eexists.
Qed.

(** Only the work tree and the index differ. *)
Definition same_branches (cl cl' : Clone) : Prop :=
  cl_heads cl' = cl_heads cl ∧ cl_tracking cl' = cl_tracking cl ∧ cl_head cl' = cl_head cl.

#[local] Instance same_branches_preorder : PreOrder same_branches.
Proof.
  split; [by intros cl|]. intros a b c (H1 & H2 & H3) (H4 & H5 & H6).
  split; [by rewrite H4|]. split; [by rewrite H5|by rewrite H6].
Qed.

Lemma checkout_epoch_same s s' r : local_ env CheckoutEpoch s = (s', r) → same_branches s.1 s'.1.
Proof.
  intros (_ & _ & p & Hg%git_law & _)%local__run. destruct (succeeded p); simpl in Hg; [|by rewrite Hg].
  by destruct Hg as (y & _ & ->).
Qed.

Lemma remove_epoch_same s s' r : remove_epoch env s = (s', r) → same_branches s.1 s'.1.
Proof. unfold remove_epoch. by destruct (ge_disk _); intros [= <- <-]. Qed.

(** [create_orphan_commit] opens the branch with one commit that holds the whole tree. *)
Lemma orphan_Ok current new yaml message s s' id h :
  cl_head s.1 = On current → new ≠ current → cl_heads s.1 !! current = Some h → cl_staged s.1 = [] →
  create_orphan_commit env new yaml message s = (s', Ok id) →
  same_branches (set_heads (<[new := [MkCommit (subject_of message) (Some yaml) (items h)]]> (cl_heads s.1)) s.1) s'.1
  ∧ id = sha [MkCommit (subject_of message) (Some yaml) (items h)].
Proof.
  intros Hh Hne Hl Hst H. unfold create_orphan_commit in H.
  apply bind_Ok in H as (s1 & [] & H1%write_Ok & H). apply bind_Ok in H as (s2 & [] & (out2 & H2)%local__Ok & H).
  apply bind_Ok in H as (s3 & tree & (h3 & Hh3 & Htree & H3)%local_Ok & H).
  apply bind_Ok in H as (s4 & commit & (t & Ht & Hcommit & H4)%local_Ok & H).
  apply bind_Ok in H as (s5 & [] & (out5 & h5 & Hh5 & H5)%local__Ok & H).
  apply bind_Ok in H as (s6 & [] & (out6 & H6)%local__Ok & H). simpl in H2, H6.
  assert (h3 = h) as ->.
  { unfold resolve in Hh3. rewrite H2, H1 in Hh3. simpl in Hh3. rewrite Hh, Hl in Hh3. congruence. }
  rewrite Htree in Ht. apply (inj tree_id) in Ht. subst t.
  rewrite H2, H1 in Hcommit. simpl in Hcommit. rewrite Hst, app_nil_r in Hcommit.
  rewrite Hcommit in Hh5. apply (inj sha) in Hh5. subst h5.
  assert (same_branches (set_heads (<[new := [MkCommit (subject_of message) (Some yaml) (items h)]]> (cl_heads s.1)) s.1) s6.1) as H7.
  { rewrite H6, H5, H4, H3, H2, H1. by repeat split. }
  apply handle_run in H as [(s7 & [] & H8%checkout_epoch_same & [= <- <-])|[(s7 & e & H8%checkout_epoch_same & H)|[_ [=]]]].
  - split; [by trans s6.1|done].
  - apply handle_run in H as [(s8 & a & H9%remove_epoch_same & [= <- <-])|[(s8 & a & H9%remove_epoch_same & [= <- <-])|[_ [=]]]];
      (split; [trans s6.1; [done|by trans s7.1]|done]).
Qed.

(** [write_redirect_commit] puts the seal on top of the current branch. *)
Lemma redirect_Ok current yaml message s s' id h :
  cl_head s.1 = On current → cl_heads s.1 !! current = Some h → write_redirect_commit env yaml message s = (s', Ok id) →
  same_branches (set_heads (<[current := h ++ [MkCommit (subject_of message) (Some yaml) []]]> (cl_heads s.1)) s.1) s'.1.
Proof.
  intros Hh Hl H. unfold write_redirect_commit in H.
  apply bind_Ok in H as (s1 & [] & H1%write_Ok & H). apply bind_Ok in H as (s2 & [] & (out2 & H2)%local__Ok & H).
  apply bind_Ok in H as (s3 & [] & (out3 & b & h3 & y & Hb & Hh3 & Hy & H3)%local__Ok & H).
  apply bind_Ok in H as (s4 & id4 & (h4 & _ & _ & H4)%local_Ok & [= <- _]). simpl in H2.
  rewrite H2, H1 in Hb, Hh3, Hy. simpl in Hb, Hh3, Hy. rewrite Hh in Hb. injection Hb as <-. injection Hy as <-.
  rewrite Hl in Hh3. injection Hh3 as <-. by rewrite H4, H3, H2, H1.
Qed.

Lemma fire_won_Ok w s s' o :
  fire_won env w s = (s', Ok o) →
  o = Won w ∧ cl_heads s'.1 = cl_heads s.1 ∧ cl_tracking s'.1 = cl_tracking s.1 ∧ cl_head s'.1 = On (win_new_branch w).
Proof.
  unfold fire_won. intros (s1 & [] & (out & h & _ & H1)%convert_Ok%local__Ok & H)%bind_Ok.
  assert (∀ s2 s3 r, set_upstream_to_origin env (win_new_branch w) s2 = (s3, r) → same_branches s2.1 s3.1) as Hup.
  { intros s2 s3 r (_ & _ & p & Hg%git_law & _)%local__run. destruct (succeeded p); simpl in Hg; [|by rewrite Hg].
    by destruct Hg as (_ & _ & ->). }
  assert (o = Won w ∧ same_branches s1.1 s'.1) as [-> (E1 & E2 & E3)].
  { apply handle_run in H as [(s2 & a & H2%Hup & [= <- <-])|[(s2 & e & H2%Hup & H)|[_ [=]]]]; [done|].
    apply handle_run in H as [(s3 & a & H3%Hup & [= <- <-])|[(s3 & a & H3%Hup & [= <- <-])|[_ [=]]]];
      (split; [done|by trans s2.1]). }
  rewrite E1, E2, E3, H1. done.
Qed.

Lemma fetch_any s s' r : fetch env s = (s', r) → ∃ tr, s'.1 = set_tracking tr s.1.
Proof.
  assert (s.1 = set_tracking (cl_tracking s.1) s.1) as Hid by (by destruct s as [[] ?]).
  unfold fetch, remote, exec. destruct (ge_lock (env s.2)); simpl; try (intros [= <- <-]; by eexists).
  all: destruct (git (env s.2) FetchOrigin s.1) as [p cl'] eqn:E; intros [= <- <-];
       apply git_law in E; destruct (succeeded p); simpl in E; subst cl'; by eexists.
Qed.

Lemma rev_parse_Ok r s s' id : rev_parse env r s = (s', Ok id) → ∃ h, resolve s.1 r = Some h ∧ trim id = sha h ∧ s'.1 = s.1.
Proof.
  unfold rev_parse. intros (s1 & out & (h & Hh & Ht & Hs)%local_Ok & [= <- <-])%bind_Ok. exists h. by rewrite trim_idem.
Qed.

(** The epoch the branch is in. *)
Definition epoch_number (cl : Clone) (b : str) (e : N) : Prop :=
  (epoch_at cl (ROrigin b) = None ∧ e = 1) ∨ ∃ f, epoch_of cl b f ∧ ef_status f = Active ∧ e = ef_epoch f.

(** The two commits of a rotation of [current], whose history is [h], out of epoch [e]. *)
Record rotation (current created_at : str) (h : History) (e : N) (seal snapshot : Commit) : Prop := {
  rt_seal_items : c_items seal = [];
  rt_seal_subject : starts_with (c_subject seal) SEAL_SUBJECT_PREFIX = true;
  rt_seal_epoch : ∃ y, c_epoch seal = Some y ∧ yaml_from_str y = Some
    (new_redirect e current (u32_succ e) (epoch_branch (u32_succ e)) (sha h) (sha h) created_at None);
  rt_snapshot_items : c_items snapshot = items h;
  rt_snapshot_epoch : ∃ y, c_epoch snapshot = Some y ∧ yaml_from_str y = Some
    (new_active (u32_succ e) (epoch_branch (u32_succ e)) current (sha h) (sha h) created_at None);
}.

Lemma fire_Ok current archive_dir created_at s s' w h :
  cl_head s.1 = On current → cl_heads s.1 !! current = Some h → cl_staged s.1 = [] → win_new_branch w ≠ current →
  fire env current archive_dir created_at s = (s', Ok (Won w)) →
  ∃ cl1 e seal snapshot t,
    cl1 = set_tracking (cl_tracking cl1) s.1 ∧ epoch_number cl1 current e
    ∧ rotation current created_at h e seal snapshot
    ∧ win_sealed_branch w = current ∧ win_new_epoch w = u32_succ e ∧ win_new_branch w = epoch_branch (u32_succ e)
    ∧ win_sealed_commit_sha w = sha h ∧ win_orphan_commit_sha w = sha [snapshot]
    ∧ cl_tracking s'.1 !! current = Some (h ++ [seal]) ∧ cl_tracking s'.1 !! win_new_branch w = Some [snapshot]
    ∧ fast_forward (ge_origin (env t) !! current) (h ++ [seal])
    ∧ fast_forward (ge_origin (env t) !! win_new_branch w) [snapshot]
    ∧ cl_head s'.1 = On (win_new_branch w) ∧ cl_heads s'.1 !! win_new_branch w = Some [snapshot].
Proof.
  intros Hh Hl Hst Hne H. unfold fire in H.
  apply drop_Ok in H as (s1 & r1 & (tr & E1)%fetch_any & H).
  apply bind_Ok in H as (s2 & origin_epoch & [-> Hoe]%epoch_file_run & H).
  destruct (is_some_and origin_epoch _) eqn:Hred; [done|].
  set (e := unwrap_or (ef_epoch <$> origin_epoch) 1) in *.
  assert (epoch_number s1.1 current e) as He.
  { destruct origin_epoch as [f|]; [right|by left]. exists f. split; [done|]. split; [|done].
    simpl in Hred. apply bool_decide_eq_false in Hred. by destruct (ef_status f). }
  apply bind_Ok in H as (s3 & sealed & (h' & Hh' & Hsha & E3)%convert_Ok%rev_parse_Ok & H). cbn zeta in H.
  assert (h' = h) as ->. { simpl in Hh'. rewrite E1 in Hh'. simpl in Hh'. congruence. }
  rewrite Hsha in H.
  destruct (yaml_to_string (new_active _ _ _ _ _ _ _)) as [ya|] eqn:Eya; [|done].
  destruct (yaml_to_string (new_redirect _ _ _ _ _ _ _ _)) as [yr|] eqn:Eyr; [|done].
  apply bind_Ok in H as (s4 & orphan & H4%convert_Ok & H). apply bind_Ok in H as (s5 & seal_id & H5%convert_Ok & H).
  apply handle_run in H as [(s6 & [] & (out & H6)%remote_Ok & H)|[(s6 & er & _ & H)|[_ [=]]]].
  2:{ apply bind_Ok in H as (s7 & [] & _ & H). by destruct er. }
  apply fire_won_Ok in H as ([= ->] & Ehd & Etr & Ehead). cbn [win_new_branch win_sealed_branch win_new_epoch
    win_sealed_commit_sha win_orphan_commit_sha] in *.
  simpl in E3. apply (orphan_Ok current _ _ _ _ _ _ h) in H4 as [(B1 & B2 & B3) Hid];
    [|by rewrite E3, E1|done|by rewrite E3, E1|by rewrite E3, E1].
  apply (redirect_Ok current _ _ _ _ _ h) in H5 as (C1 & C2 & C3);
    [|by rewrite B3; simpl; rewrite E3, E1|rewrite B1; simpl; rewrite lookup_insert_ne by done; by rewrite E3, E1].
  destruct H6 as (ho & hn & Hho & Hhn & Ffo & Ffn & E6).
  rewrite C1 in Hho, Hhn. simpl in Hho, Hhn. rewrite lookup_insert_eq in Hho. injection Hho as <-.
  rewrite lookup_insert_ne, B1 in Hhn by done. simpl in Hhn.
  rewrite lookup_insert_eq in Hhn. injection Hhn as <-.
  match type of Hid with _ = sha [?c] => set (snap := c) in * end.
  match type of C1 with context [h ++ [?c]] => set (seal := c) in * end.
  exists s1.1, e, seal, snap, s5.2. split; [by rewrite E1|]. split; [done|]. split.
  { split; [done| |by exists yr; split; [done|apply yaml_roundtrip]|done|by exists ya; split; [done|apply yaml_roundtrip]].
    simpl. apply subject_of_prefix; [done|by apply (bool_decide_unpack _)..]. }
  do 4 (split; [done|]). split; [exact Hid|].
  rewrite Etr, E6. simpl. rewrite lookup_insert_eq. split; [done|].
  rewrite lookup_insert_ne, lookup_insert_eq by done. split; [done|]. split; [exact Ffo|]. split; [exact Ffn|].
  split; [done|]. rewrite Ehd, E6. simpl. rewrite C1. simpl. rewrite lookup_insert_ne, B1 by done. simpl. by rewrite lookup_insert_eq.
Qed.

(** ** Losing the race, then following *)

Definition at_branch (b : str) (cl : Clone) : Prop := cl_head cl = On b ∧ is_Some (cl_heads cl !! b).

Definition stays (b : str) (c : Cmd) : bool :=
  match c with
  | FetchOrigin | PushAtomic _ _ | RebaseOnto _ _ | RebaseAbort => false
  | CheckoutForce b' => b' =?? b
  | _ => true
  end.

Lemma insert_is_Some (r : refs) b b' h : is_Some (r !! b) → is_Some (<[b' := h]> r !! b).
Proof.
  intros H. destruct (decide (b' = b)) as [->|Hne]; [rewrite lookup_insert_eq; by eexists|by rewrite lookup_insert_ne].
Qed.

Lemma git_stays b g c cl p cl' : stays b c = true → git g c cl = (p, cl') → at_branch b cl → at_branch b cl'.
Proof.
  intros Hc H%git_law [Hh Hs].
  destruct (succeeded p), c; simpl in Hc, H; try done; try (destruct_and?; by subst cl'); unfold at_branch.
  - by destruct H as (o & l & _ & _ & _ & ->).
  - by destruct H as (h & _ & _ & ->).
  - by destruct H as (h & _ & _ & ->).
  - by destruct H as (bx & _ & _ & ->).
  - by destruct H as (h & _ & _ & ->).
  - by destruct H as (t & _ & _ & ->).
  - destruct H as (h & _ & ->). simpl. split; [done|]. by apply insert_is_Some.
  - by destruct H as (y & _ & ->).
  - destruct H as (bx & h & y & _ & _ & _ & ->). simpl. split; [done|]. by apply insert_is_Some.
  - apply bool_decide_eq_true in Hc as ->. destruct H as (h & _ & ->). by split.
  - destruct H as (bx & o & _ & _ & ->). simpl. split; [done|]. by apply insert_is_Some.
  - destruct H as [Hne ->]. simpl. split; [done|]. rewrite lookup_delete_ne; [done|congruence].
  - destruct H as (_ & h & _ & ->). simpl. split; [done|]. by apply insert_is_Some.
Qed.

(** Everything is published, the refs are fresh, and the clone stands on [b]. *)
Definition settled (b : str) (T : str → Prop) (s : Clone * nat) : Prop := tracked env true T s ∧ at_branch b s.1.

Lemma settled_cmd b T c s p cl' :
  stays b c = true → git (env s.2) c s.1 = (p, cl') → settled b T s → settled b T (cl', S s.2).
Proof.
  intros Hc Hg [Ht Hb]. split; [|by eapply git_stays]. eapply tracked_cmd; [|done|done]. by destruct c.
Qed.
Lemma settled_exec {A} b T c (look : ProcessResult → res A GitError) : stays b c = true → keeps (settled b T) (exec env c look).
Proof. intros Hc. apply keeps_exec. intros s p cl' Hg Hs. by eapply settled_cmd. Qed.
Lemma settled_local b T c : stays b c = true → keeps (settled b T) (local env c).
Proof. apply settled_exec. Qed.
Lemma settled_local_ b T c : stays b c = true → keeps (settled b T) (local_ env c).
Proof. intros Hc. apply keeps_bind; [by apply settled_local|]. intros a. apply keeps_ret. Qed.
Lemma settled_write b T y : keeps (settled b T) (write_epoch env y).
Proof. intros s [Ht Hb]. split; [by apply tracked_write|]. unfold write_epoch. by destruct (ge_disk _). Qed.
Lemma settled_remove b T : keeps (settled b T) (remove_epoch env).
Proof. intros s [Ht Hb]. split; [by apply tracked_remove|]. unfold remove_epoch. by destruct (ge_disk _). Qed.
Lemma settled_fetch b T : grows → keeps (settled b T) (fetch env).
Proof.
  intros Hg s [Ht Hb]. split; [by apply tracked_fetch|]. destruct (fetch env s) as [s' r] eqn:E.
  apply fetch_any in E as [tr E]. simpl. by rewrite E.
Qed.
End loss.

#[export] Hint Resolve settled_exec settled_local settled_local_ settled_write settled_remove : keeps.
#[export] Hint Extern 1 (stays _ (CheckoutForce _) = true) => apply bool_decide_eq_true; reflexivity : keeps.

Section daemon.
Context `{GR : !GitRefs} `{LC : !Lowercase} `{YE : !Yaml EpochFile}.
Variable env : nat → genv.

Lemma settled_show b T r : keeps (settled env b T) (epoch_file_at_ref env r).
Proof. unfold epoch_file_at_ref, show_file_at_ref. solve_keeps. by intros s. Qed.
Lemma settled_rev_parse b T r : keeps (settled env b T) (rev_parse env r).
Proof. unfold rev_parse. solve_keeps. Qed.
Lemma settled_orphan b T nb y m : keeps (settled env b T) (create_orphan_commit env nb y m).
Proof. unfold create_orphan_commit. solve_keeps. Qed.
Lemma settled_redirect b T y m : keeps (settled env b T) (write_redirect_commit env y m).
Proof. unfold write_redirect_commit. solve_keeps. Qed.
Lemma settled_cleanup b T o : keeps (settled env b T) (cleanup_failed_fire env b o).
Proof.
  unfold cleanup_failed_fire, subjects_ahead_of_origin, has_dirty_tracked_files, reset_branch_to_origin, delete_local_branch.
  solve_keeps.
Qed.

(** A command of a run that went well kept its fact. *)
Lemma keeps_run {E A} I (m : Act E A) s s' r : keeps I m → I s → m s = (s', r) → I s'.
Proof. intros Hm Hs H. specialize (Hm s Hs). by rewrite H in Hm. Qed.

Lemma push_conflict_same old new s s' :
  atomic_push_two_refs env old new s = (s', Err PushConflict) → s'.1 = s.1 ∧ s'.2 = S s.2.
Proof.
  unfold atomic_push_two_refs, remote, exec. destruct (ge_lock (env s.2)); simpl; try done.
  all: destruct (git (env s.2) (PushAtomic old new) s.1) as [p cl'] eqn:E; intros H; injection H as <- Hr;
       apply git_law in E; unfold run_git_remote, run_git_command in Hr; destruct p as [o| | |]; simpl in Hr; try done;
       destruct (is_disk_full _); simpl in Hr; [done|]; simpl in E; destruct (o_success o); [done|by simpl in E].
Qed.

Lemma fire_Lost T current archive_dir created_at s s' :
  grows env → settled env current T s → fire env current archive_dir created_at s = (s', Ok Lost) → settled env current T s'.
Proof.
  intros Hg Hs H. unfold fire in H. apply drop_Ok in H as (s1 & r1 & H1 & H).
  eapply keeps_run in H1; [|by apply settled_fetch|done].
  apply bind_Ok in H as (s2 & origin_epoch & H2 & H). eapply keeps_run in H2; [|apply settled_show|done].
  destruct (is_some_and _ _); [by injection H as <-|].
  apply bind_Ok in H as (s3 & sealed & H3%convert_Ok & H). eapply keeps_run in H3; [|apply settled_rev_parse|done].
  cbn zeta in H. destruct (yaml_to_string (new_active _ _ _ _ _ _ _)); [|done].
  destruct (yaml_to_string (new_redirect _ _ _ _ _ _ _ _)); [|done].
  apply bind_Ok in H as (s4 & orphan & H4%convert_Ok & H). eapply keeps_run in H4; [|apply settled_orphan|done].
  apply bind_Ok in H as (s5 & id & H5%convert_Ok & H). eapply keeps_run in H5; [|apply settled_redirect|done].
  apply handle_run in H as [(s6 & a & _ & (E & _)%fire_won_Ok)|[(s6 & er & H6 & H)|[_ [=]]]]; [done|].
  apply bind_Ok in H as (s7 & [] & H7 & H). destruct er; try done. injection H as <-.
  apply push_conflict_same in H6 as [E6 T6]. destruct s6 as [cl6 t6]. simpl in E6, T6. subst cl6 t6.
  eapply keeps_run in H7; [done|apply settled_cleanup|]. destruct H5 as [Ht Hb]. split; [by eapply tracked_same|done].
Qed.

Lemma current_branch_run s s' r :
  current_branch env s = (s', r) → s'.1 = s.1 ∧ (s.2 ≤ s'.2)%nat ∧ ∀ b, r = Ok b → cl_head s.1 = On b.
Proof.
  unfold current_branch. intros H.
  assert (∀ {A} (look : ProcessResult → res A GitError) s0, same_clone s0 (exec env SymbolicRef look s0).1) as Hsame.
  { intros A look s0. apply (same_exec env s0 SymbolicRef); [done|]. by split. }
  apply bind_run in H as [(s1 & on & Hr & H)|[(e & Hr & ->)|[Hr ->]]];
    pose proof (Hsame _ (λ p, let? o := run_git_command p in
      if o_success o then Ok true
      else if is_empty (o_stderr o) && is_empty (o_stdout o) then Ok false
      else if is_disk_full (o_stderr o) then Err (DiskFull (o_stderr o))
      else Err (CommandFailed (o_stderr o))) s) as H1; unfold head_is_on_branch in Hr; rewrite Hr in H1; destruct H1 as [E1 T1];
    [|by repeat split..].
  destruct on; simpl in H; [|injection H as <- <-; by repeat split].
  apply bind_run in H as [(s2 & out & Hl & [= <- <-])|[(e & Hl & ->)|[Hl ->]]];
    destruct (read_run env SymbolicRef _ _ _ eq_refl Hl) as (-> & _ & He); simpl in *;
    (split; [done|]); (split; [lia|]); [|done..].
  intros b [= <-]. destruct (He out eq_refl) as (b & Hb & Ho & _). simpl in E1. rewrite E1 in Hb. by rewrite Ho.
Qed.

Lemma archive_same s plan : same_clone s (run_archive env plan s).1.
Proof.
  assert (∀ (s : Clone * nat), same_clone s s) as Hrefl by done.
  assert (∀ c s0, reads c = true → keeps (same_clone s0) (local_ env c)) as Hl.
  { intros c s0 Hc. apply keeps_bind; [by apply same_exec|]. intros a. apply keeps_ret. }
  assert (keeps (same_clone s) (run_archive env plan)) as H; [|by apply H].
  unfold run_archive, tag_archive, push_tag, remote, bundle_to_path.
  apply keeps_handle; [apply keeps_handle; [by apply Hl|intros _; apply keeps_convert|intros; apply keeps_throw]|intros _|intros _].
  { intros s1 [E1 T1]. destruct (ge_lock (env s1.2)); simpl; [by apply (same_exec env s (PushTag _))..| |];
      (split; [done|simpl; lia]). }
  all: apply keeps_handle; [|intros; apply keeps_ret|intros; apply keeps_ret].
  all: intros s1 [E1 T1]; destruct (ge_disk (env s1.2)); simpl; [apply (Hl (BundleCreate _ _) s eq_refl)|];
       (split; [done|simpl; lia]).
Qed.

Lemma rotate_keeps_held current threshold archive_dir created_at s m :
  grows env → seen env s → cl_head s.1 = On current → only_unpublished current s.1 → held s.1 m →
  held (try_rotate_inner env threshold archive_dir created_at s).1.1 m.
Proof.
  intros Hg Hseen Hh Hothers Hm. destruct (try_rotate_inner _ _ _ _ s) as [s' r] eqn:E. simpl. unfold try_rotate_inner in E.
  apply bind_run in E as [(s1 & b & Hb & E)|[(e & Hb & ->)|[Hb ->]]];
    apply convert_run in Hb as (r0 & Hb & Hr0); destruct (current_branch_run _ _ _ Hb) as (E1 & T1 & Hcur);
    [|by rewrite E1..].
  destruct r0 as [b'| |]; try done. injection Hr0 as <-. specialize (Hcur b eq_refl). rewrite Hh in Hcur. injection Hcur as <-.
  assert (seen env s1) as Hseen1. { intros t Ht. rewrite E1. apply Hseen. lia. }
  pose proof (fire_keeps_held env current threshold archive_dir created_at s1 m Hg Hseen1) as Hkeep. rewrite E1 in Hkeep.
  specialize (Hkeep Hothers Hm).
  apply bind_run in E as [(s2 & outcome & Hf & E)|[(e & Hf & ->)|[Hf ->]]]; rewrite Hf in Hkeep; simpl in Hkeep; [|done..].
  destruct outcome as [|w|]; [by injection E as <- <-| |].
  - pose proof (archive_same s2 (win_archive w)) as Ha.
    apply bind_run in E as [(s3 & [] & Hr & [= <- <-])|[(e & Hr & ->)|[Hr ->]]]; rewrite Hr in Ha; destruct Ha as [Ha _]; simpl in Ha; by rewrite Ha.
  - apply fire_guards in Hf as [(_ & Hnl & _)|(s3 & o & l & E3 & T3 & Ho & Hl & Ha & Hc & Hf)]; [done|].
    rewrite E1 in *. apply (fire_Lost (held s.1) current) in Hf; [|done|].
    + destruct Hf as [[Ht Hs2] [Hhead [l2 Hl2]]]. left.
      assert (∀ s' r, follow_redirect env current s2 = (s', r) → committed s'.1 m) as Hfollow.
      { intros s4 r4 Hr. eapply (follow_committed env (held s.1)); [|exact Hhead| |exact Hr|done].
        - intros t Ht'. by apply Hs2.
        - exists l2. split; [done|]. intros m' Hm'. left. by apply Ht. }
      apply bind_run in E as [(s4 & b4 & Hr & [= <- <-])|[(e & Hr & ->)|[Hr ->]]]; by eapply Hfollow.
    + split; [split|]; rewrite E3.
      * intros m' Hm'. eapply all_published; try done. by rewrite Ha.
      * intros _ t Ht. apply Hseen. lia.
      * split; [done|by eexists].
Qed.
(** ** Recovery at boot *)

Lemma fetch_seen s s' r : grows env → seen env s → fetch env s = (s', r) → seen env s'.
Proof.
  intros Hg Hs H. destruct (tracked_fetch env (λ _, False) Hg s) as [_ H2]; [by split|].
  rewrite H in H2. intros t Ht. by apply H2.
Qed.

Lemma same_redirected s0 r : keeps (same_clone s0) (is_redirected env r).
Proof.
  unfold is_redirected, epoch_status_at_ref. apply keeps_handle; [|intros; apply keeps_ret|intros; apply keeps_ret].
  apply keeps_bind; [apply same_show|intros; apply keeps_ret].
Qed.

Lemma recover_keeps current s m :
  seen env s → at_branch current s.1 → only_unpublished current s.1 → seals_empty s.1 → committed s.1 m →
  held (recover env current s).1.1 m.
Proof.
  intros Hseen [Hh [l Hl]] Hothers Hseals Hm.
  assert (leads (same_clone s) (recover env current) (λ s', held s'.1 m)) as H; [|by apply H].
  assert (∀ s1, same_clone s s1 → held s1.1 m) as Hsame by (intros s1 [-> _]; by left).
  unfold recover. apply leads_bind; [done|apply same_redirected|intros o_red].
  apply leads_bind; [done|apply same_redirected|intros h_red]. destruct (h_red && negb o_red); [|destruct o_red].
  - apply leads_bind; [done| |intros orphan].
    { apply keeps_handle; [apply same_show|intros; apply keeps_ret|intros; apply keeps_ret]. }
    intros s1 [E1 T1]. pose proof (cleanup_keeps_held env current orphan s1 m) as Hk. rewrite E1 in Hk.
    specialize (Hk Hseals Hothers (or_introl Hm)). unfold handle. by destruct (cleanup_failed_fire env current orphan s1) as [s2 []].
  - intros s1 [E1 T1]. unfold handle. destruct (follow_redirect env current s1) as [s2 r2] eqn:Ef.
    assert (committed s2.1 m) as Hc; [|by left; destruct r2].
    eapply (follow_committed env (committed s.1)); [|by rewrite E1| |exact Ef|done].
    + intros t Ht. rewrite E1. apply Hseen. lia.
    + rewrite E1. by eapply carries_start.
  - by apply leads_keeps, keeps_ret.
Qed.

(** What the clone had committed survives the recovery, whichever way it goes. *)
Lemma boot_keeps_committed current s m :
  grows env → seen env s → at_branch current s.1 → only_unpublished current s.1 → seals_empty s.1 → committed s.1 m →
  held (boot_recovery env s).1.1 m.
Proof.
  intros Hg Hseen [Hh Hl] Hothers Hseals Hm. unfold boot_recovery, handle.
  destruct (current_branch env s) as [s1 r1] eqn:Hb. destruct (current_branch_run _ _ _ Hb) as (E1 & T1 & Hcur).
  destruct r1 as [b|e|]; [|left; simpl; by rewrite E1..].
  specialize (Hcur b eq_refl). rewrite Hh in Hcur. injection Hcur as <-.
  assert (seen env s1) as Hseen1. { intros t Ht. rewrite E1. apply Hseen. lia. }
  destruct (fetch env s1) as [s2 r2] eqn:Hf. pose proof (fetch_seen _ _ _ Hg Hseen1 Hf) as Hseen2.
  destruct (fetch_run env _ _ _ Hseen1 Hf) as (_ & Ecl & Hle & _). rewrite E1 in Ecl, Hle. clear Hf.
  destruct s2 as [cl2 t2]. simpl in *. revert Hseen2 Hle. rewrite Ecl. generalize (cl_tracking cl2). intros tr Hseen2 Hle.
  assert (committed (set_tracking tr s.1) m) as Hm2.
  { destruct Hm as [Hm|Hm]; [by left|right; by eapply in_refs_le]. }
  assert (held (recover env current (set_tracking tr s.1, t2)).1.1 m) as Hr.
  { apply recover_keeps; try done. intros b' h m' Hb' Hne Hm'.
    destruct (Hothers b' h m' Hb' Hne Hm') as [Ht|Hr]; [left; by eapply in_refs_le|by right]. }
  destruct r2; [exact Hr|exact Hr|by left].
Qed.
End daemon.

(** ** Theorems *)

Section theorems.
Context `{GR : !GitRefs} `{LC : !Lowercase} `{YE : !Yaml EpochFile}.

(** C14: rotation loses nothing.  As long as [origin] only grows, and only the current
    branch has anything unpublished, everything the clone held before
    [try_rotate_inner] it holds afterwards, committed, tracked or in the work tree,
    whatever the outcome and whichever commands fail on the way. *)
Theorem rotation_zero_loss (env : nat → genv) (current : str) (threshold : N) (archive_dir created_at : str)
    (s : Clone * nat) (m : str)
    (Hgrows : grows env) (Hseen : seen env s) (Hhead : cl_head s.1 = On current)
    (Hothers : only_unpublished current s.1) (Hm : held s.1 m) :
  held (try_rotate_inner env threshold archive_dir created_at s).1.1 m.
Proof. by eapply rotate_keeps_held. Qed.

(** C15: a rotation that won: the branch was published as it stood, [origin] took in one
    step the seal on top of it and a new branch of one commit that holds the same
    tree, the seal redirects to that branch and the new branch is the active next
    epoch, and the clone stands on it. *)
Theorem rotation_won (env : nat → genv) (current : str) (threshold : N) (archive_dir created_at : str)
    (s s' : Clone * nat) (w : Win)
    (Hhead : cl_head s.1 = On current) (Hnew : win_new_branch w ≠ current)
    (Hrun : try_fire_rotation env current threshold archive_dir created_at s = (s', Ok (Won w))) :
  ∃ h o e seal snapshot t,
    cl_heads s.1 !! current = Some h ∧ cl_tracking s.1 !! current = Some o ∧ h `prefix_of` o
    ∧ rotation current created_at h e seal snapshot
    ∧ win_new_epoch w = u32_succ e ∧ win_new_branch w = epoch_branch (u32_succ e)
    ∧ cl_tracking s'.1 !! current = Some (h ++ [seal]) ∧ cl_tracking s'.1 !! win_new_branch w = Some [snapshot]
    ∧ fast_forward (ge_origin (env t) !! current) (h ++ [seal])
    ∧ fast_forward (ge_origin (env t) !! win_new_branch w) [snapshot]
    ∧ redirects s'.1 current (win_new_branch w) ∧ unsealed s'.1 (win_new_branch w)
    ∧ cl_head s'.1 = On (win_new_branch w) ∧ cl_heads s'.1 !! win_new_branch w = Some [snapshot].
Proof.
  apply fire_guards in Hrun as [(_ & _ & Hw)|(s1 & o & h & E1 & T1 & Ho & Hh & Ha & Hc & Hf)]; [by destruct (Hw w)|].
  apply is_clean_true in Hc as [Hst _].
  apply (fire_Ok env _ _ _ _ _ _ h) in Hf
    as (cl1 & e & seal & snap & t & _ & _ & Hrot & Hsb & Hne & Hnb & _ & _ & Ht1 & Ht2 & F1 & F2 & Hd & Hhd);
    [|by rewrite E1|by rewrite E1|by rewrite E1|done].
  exists h, o, e, seal, snap, t. apply ahead_nil in Ha. do 10 (split; [done|]).
  destruct Hrot as [_ _ (yr & Hyr & Pr) _ (ya & Hya & Pa)]. split; [|split; [|done]].
  - eexists (new_redirect e current (u32_succ e) (epoch_branch (u32_succ e)) (sha h) (sha h) created_at None), _.
    split; [|split; [reflexivity|split; [reflexivity|by rewrite Hnb]]]. exists yr.
    split; [unfold epoch_at, resolve; rewrite Ht1; simpl; by rewrite epoch_text_snoc, Hyr|split; [exact Pr|done]].
  - right. exists (new_active (u32_succ e) (epoch_branch (u32_succ e)) current (sha h) (sha h) created_at None). split; [|reflexivity]. exists ya.
    split; [unfold epoch_at, resolve; rewrite Ht2; unfold epoch_text; simpl; by rewrite Hya|split; [exact Pa|done]].
Qed.

(** C16: no two rotations open the same epoch differently.  If a rotation won and its
    refs are on [origin] while another one runs, the other can win the same epoch
    branch only with the very same snapshot commit, made at the same instant. *)
Theorem one_rotation_wins (env1 env2 : nat → genv) (current1 current2 : str) (threshold1 threshold2 : N)
    (dir1 dir2 created1 created2 : str) (s1 s1' s2 s2' : Clone * nat) (w1 w2 : Win)
    (Hhead1 : cl_head s1.1 = On current1) (Hhead2 : cl_head s2.1 = On current2)
    (Hnew1 : win_new_branch w1 ≠ current1) (Hnew2 : win_new_branch w2 ≠ current2)
    (Hrun1 : try_fire_rotation env1 current1 threshold1 dir1 created1 s1 = (s1', Ok (Won w1)))
    (Hrun2 : try_fire_rotation env2 current2 threshold2 dir2 created2 s2 = (s2', Ok (Won w2)))
    (Hsame : win_new_branch w1 = win_new_branch w2)
    (Hpub : ∀ t, refs_le (cl_tracking s1'.1) (ge_origin (env2 t))) :
  cl_tracking s2'.1 !! win_new_branch w2 = cl_tracking s1'.1 !! win_new_branch w1 ∧ created1 = created2.
Proof.
  assert (∀ env current threshold dir created s s' w,
    cl_head s.1 = On current → win_new_branch w ≠ current →
    try_fire_rotation env current threshold dir created s = (s', Ok (Won w)) →
    ∃ snap y f t, cl_tracking s'.1 !! win_new_branch w = Some [snap] ∧ c_epoch snap = Some y ∧ yaml_from_str y = Some f
                  ∧ si_created_at <$> ef_snapshot f = Some created
                  ∧ fast_forward (ge_origin (env t) !! win_new_branch w) [snap]) as Hwin.
  { intros env current threshold dir created s s' w Hh Hn
      [(_ & _ & Hw)|(s0 & o & h & E1 & T1 & Ho & Hl & Ha & Hc & Hf)]%fire_guards; [by destruct (Hw w)|].
    apply is_clean_true in Hc as [Hst _].
    apply (fire_Ok env _ _ _ _ _ _ h) in Hf
      as (cl1 & e & seal & snap & t & _ & _ & [_ _ _ _ (y & Hy & Hp)] & _ & _ & _ & _ & _ & _ & Ht2 & _ & F2 & _);
      [|by rewrite E1|by rewrite E1|by rewrite E1|done].
    by eexists snap, y, _, t. }
  destruct (Hwin _ _ _ _ _ _ _ _ Hhead1 Hnew1 Hrun1) as (snap1 & y1 & f1 & t1 & Ht1 & Hy1 & Hp1 & Hc1 & _).
  destruct (Hwin _ _ _ _ _ _ _ _ Hhead2 Hnew2 Hrun2) as (snap2 & y2 & f2 & t2 & Ht2 & Hy2 & Hp2 & Hc2 & F2).
  destruct (Hpub t2 _ _ Ht1) as (k & Hk & Hpre). rewrite <-Hsame, Hk in F2. simpl in F2.
  assert (snap2 = snap1) as ->.
  { pose proof (transitivity Hpre F2) as [r Hr]. by injection Hr. }
  rewrite Ht1, Ht2. split; [done|]. rewrite Hy1 in Hy2. injection Hy2 as <-. rewrite Hp1 in Hp2. injection Hp2 as <-. congruence.
Qed.

(** C17: following a redirect.  When it switches, the clone ends on the unsealed branch
    at the end of the redirect chain of the [origin] it fetched, and that branch
    carries everything that was committed and is not on [origin]; when it does not
    switch or fails, at whatever command, everything committed is still there. *)
Theorem follow_redirect_carries (env : nat → genv) (current : str) (s s' : Clone * nat) (r : res bool RotationError)
    (l : History) (Hseen : seen env s) (Hhead : cl_head s.1 = On current) (Hl : cl_heads s.1 !! current = Some l)
    (Hothers : only_unpublished current s.1)
    (Hrun : follow_redirect env current s = (s', r)) :
  (∀ m, committed s.1 m → committed s'.1 m)
  ∧ match r with
    | Ok true => ∃ target n cl1, target ≠ current ∧ cl_tracking cl1 = ge_origin (env s.2) ∧ chain cl1 n current target
                   ∧ unsealed cl1 target ∧ cl_head s'.1 = On target ∧ carries target (committed s.1) s'.1
    | Ok false => cl_heads s'.1 = cl_heads s.1 ∧ cl_head s'.1 = On current
    | _ => True
    end.
Proof.
  pose proof (carries_start current s.1 l Hl Hothers) as Hc. split.
  - intros m Hm. by eapply follow_committed.
  - pose proof (follow_carries env (committed s.1) current s s' r Hseen Hhead Hc Hrun) as Hf.
    destruct r as [[]|e|]; [done| |done..]. by destruct Hf as (? & ? & _).
Qed.

(** C38: [resolve_active_branch] on readable refs: it answers with a branch exactly when
    fewer than 32 redirects lead there and it is not sealed, and it gives up exactly
    when there are 32 redirects in a row, a cycle for instance. *)
Theorem resolve_active_branch_exact (env : nat → genv) (start : str) (s s' : Clone * nat)
    (r : res str RotationError)
    (Hread : readable env) (Hrun : resolve_active_branch env start s = (s', r)) :
  s'.1 = s.1
  ∧ (∀ b, r = Ok b ↔ ∃ n, (n < MAX_FOLLOW_HOPS)%nat ∧ chain s.1 n start b ∧ unsealed s.1 b)
  ∧ (r = Err (RTooManyHops start) ↔ ∃ b, chain s.1 MAX_FOLLOW_HOPS start b).
Proof.
  unfold resolve_active_branch in Hrun. split; [|split].
  - pose proof (same_hops env s MAX_FOLLOW_HOPS start start s (conj eq_refl (le_n _))) as [H _]. by rewrite Hrun in H.
  - intros b. split.
    + intros ->. exact (follow_hops_sound env _ _ _ _ _ _ Hrun).
    + intros (n & Hn & Hc & Hu). destruct (follow_hops_complete env n MAX_FOLLOW_HOPS start start b s Hread Hc) as [H _].
      specialize (H Hn Hu). by rewrite Hrun in H.
  - split.
    + intros ->. exact (follow_hops_sound env _ _ _ _ _ _ Hrun).
    + intros (b & Hc). destruct (follow_hops_complete env _ MAX_FOLLOW_HOPS start start b s Hread Hc) as [_ H].
      specialize (H eq_refl). by rewrite Hrun in H.
Qed.
End theorems.

(** ** Witnesses *)

Definition hello : Commit := MkCommit (lit "msg: @alice -> #general L000001") None [lit "hello"].
Definition draft : Commit := MkCommit (lit "msg: @bob -> #general L000002") None [lit "draft"].

Definition clone_on_main (local tracking : History) : Clone :=
  MkClone {[lit "main" := local]} {[lit "main" := tracking]} (On (lit "main")) {[lit "main"]} None None [] [] None.

Definition steady (origin : refs) (t : nat) : @genv plain_refs := MkRefsEnv origin true NoLockFile true.

Lemma steady_grows origin : @grows plain_refs (steady origin).
Proof. by intros t t' _. Qed.

Lemma clone_only_unpublished local tracking : only_unpublished (lit "main") (clone_on_main local tracking).
Proof.
  intros b h m Hb Hne _. exfalso. simpl in Hb. apply lookup_singleton_Some in Hb as [E _]. by symmetry in E.
Qed.

Definition start_state : Clone * nat := (clone_on_main [hello] [hello], 0%nat).
Definition start_env : nat → @genv plain_refs := steady {[lit "main" := [hello]]}.
Definition stamp : str := lit "2026-01-01T00:00:00Z".

Definition winning_run : (Clone * nat) * res RotationOutcome RotationError :=
  @try_fire_rotation plain_refs ascii_lowercase epoch_yaml start_env (lit "main") 1 (lit "archive") stamp start_state.

Definition win_of (r : res RotationOutcome RotationError) : option Win :=
  match r with Ok (Won w) => Some w | _ => None end.

Definition no_win : Win := MkWin (MkArchivePlan [] [] []) [] [] 0 [] [].
Definition winning_win : Win := unwrap_or (win_of winning_run.2) no_win.
Definition won_refs : refs := cl_tracking winning_run.1.1.

Lemma winning_run_wins : winning_run = (winning_run.1, Ok (Won winning_win)) ∧ win_new_branch winning_win = lit "main-epoch-2".
Proof.
  assert (win_new_branch <$> win_of winning_run.2 = Some (lit "main-epoch-2")) as H by by vm_compute.
  unfold winning_win. revert H. destruct winning_run as [st [[|w|]| |]]; simpl; try done. by intros [= ->].
Qed.

Lemma rotation_zero_loss_witness :
  held (@try_rotate_inner plain_refs ascii_lowercase epoch_yaml start_env 1 (lit "archive") stamp start_state).1.1 (lit "hello").
Proof.
  refine (@rotation_zero_loss plain_refs ascii_lowercase epoch_yaml start_env (lit "main") 1 (lit "archive") stamp
            start_state (lit "hello") (steady_grows _) _ eq_refl (clone_only_unpublished _ _) _).
  - intros t _. simpl. done.
  - left; left. exists (lit "main"), [hello]. split; [apply lookup_singleton_eq|by left].
Defined.

Lemma rotation_won_witness :
  ∃ h o e seal snapshot t,
    cl_heads start_state.1 !! lit "main" = Some h ∧ cl_tracking start_state.1 !! lit "main" = Some o ∧ h `prefix_of` o
    ∧ @rotation plain_refs epoch_yaml (lit "main") stamp h e seal snapshot
    ∧ win_new_epoch winning_win = u32_succ e ∧ win_new_branch winning_win = epoch_branch (u32_succ e)
    ∧ cl_tracking winning_run.1.1 !! lit "main" = Some (h ++ [seal])
    ∧ cl_tracking winning_run.1.1 !! win_new_branch winning_win = Some [snapshot]
    ∧ fast_forward (ge_origin (start_env t) !! lit "main") (h ++ [seal])
    ∧ fast_forward (ge_origin (start_env t) !! win_new_branch winning_win) [snapshot]
    ∧ @redirects epoch_yaml winning_run.1.1 (lit "main") (win_new_branch winning_win)
    ∧ @unsealed epoch_yaml winning_run.1.1 (win_new_branch winning_win)
    ∧ cl_head winning_run.1.1 = On (win_new_branch winning_win)
    ∧ cl_heads winning_run.1.1 !! win_new_branch winning_win = Some [snapshot].
Proof.
  refine (@rotation_won plain_refs ascii_lowercase epoch_yaml start_env (lit "main") 1 (lit "archive") stamp
            start_state winning_run.1 winning_win eq_refl _ (proj1 winning_run_wins)).
  by rewrite (proj2 winning_run_wins).
Defined.

(** A second daemon with the same clock whose fetch fails pushes the same commits. *)
Definition late_env (t : nat) : @genv plain_refs := MkRefsEnv won_refs (negb (Nat.eqb t 3)) NoLockFile true.
Definition late_run : (Clone * nat) * res RotationOutcome RotationError :=
  @try_fire_rotation plain_refs ascii_lowercase epoch_yaml late_env (lit "main") 1 (lit "archive") stamp start_state.
Definition late_win : Win := unwrap_or (win_of late_run.2) no_win.

Lemma late_run_wins : late_run = (late_run.1, Ok (Won late_win)) ∧ win_new_branch late_win = lit "main-epoch-2".
Proof.
  assert (win_new_branch <$> win_of late_run.2 = Some (lit "main-epoch-2")) as H by by vm_compute.
  unfold late_win. revert H. destruct late_run as [st [[|w|]| |]]; simpl; try done. by intros [= ->].
Qed.

Lemma one_rotation_wins_witness :
  cl_tracking late_run.1.1 !! win_new_branch late_win = cl_tracking winning_run.1.1 !! win_new_branch winning_win
  ∧ stamp = stamp.
Proof.
  refine (@one_rotation_wins plain_refs ascii_lowercase epoch_yaml start_env late_env (lit "main") (lit "main") 1 1
            (lit "archive") (lit "archive") stamp stamp start_state winning_run.1 start_state late_run.1
            winning_win late_win eq_refl eq_refl _ _ (proj1 winning_run_wins) (proj1 late_run_wins) _ _).
  - by rewrite (proj2 winning_run_wins).
  - by rewrite (proj2 late_run_wins).
  - by rewrite (proj2 winning_run_wins), (proj2 late_run_wins).
  - intros t. done.
Defined.

(** A third clone has an unpublished message when the redirect arrives. *)
Definition bob_state : Clone * nat := (clone_on_main [hello; draft] [hello], 0%nat).
Definition follow_run : (Clone * nat) * res bool RotationError :=
  @follow_redirect plain_refs ascii_lowercase epoch_yaml (steady won_refs) (lit "main") bob_state.

Lemma follow_run_switches : follow_run.2 = Ok true ∧ cl_head follow_run.1.1 = On (lit "main-epoch-2").
Proof. by vm_compute. Qed.

Lemma won_refs_main : refs_le {[lit "main" := [hello]]} won_refs.
Proof.
  intros b h [<- <-]%lookup_singleton_Some.
  assert (match won_refs !! lit "main" with Some h' => bool_decide ([hello] `prefix_of` h') | None => false end = true) as H
    by by vm_compute.
  destruct (won_refs !! lit "main") as [h'|]; [|done]. exists h'. split; [done|]. by apply bool_decide_eq_true in H.
Qed.

Lemma follow_redirect_carries_witness :
  (∀ m, committed bob_state.1 m → committed follow_run.1.1 m)
  ∧ ∃ target n cl1, target ≠ lit "main" ∧ cl_tracking cl1 = won_refs ∧ @chain epoch_yaml cl1 n (lit "main") target
      ∧ @unsealed epoch_yaml cl1 target ∧ cl_head follow_run.1.1 = On target
      ∧ carries target (committed bob_state.1) follow_run.1.1.
Proof.
  assert (follow_run = (follow_run.1, Ok true)) as E.
  { pose proof (proj1 follow_run_switches) as H. destruct follow_run as [st r]. simpl in *. by subst r. }
  refine (@follow_redirect_carries plain_refs ascii_lowercase epoch_yaml (steady won_refs) (lit "main") bob_state
            follow_run.1 (Ok true) [hello; draft] _ eq_refl _ (clone_only_unpublished _ _) E).
  - intros t _. exact won_refs_main.
  - apply lookup_singleton_eq.
Defined.

Lemma plain_readable origin : @readable plain_refs ascii_lowercase (steady origin).
Proof.
  intros t r cl p cl' H. simpl in H. unfold refs_git in H. simpl in H.
  destruct (epoch_at cl r) as [y|]; simpl in H; injection H as <- <-; eexists; by repeat split.
Qed.

Definition won_state : Clone * nat := (winning_run.1.1, 0%nat).
Definition resolve_run : (Clone * nat) * res str RotationError :=
  @resolve_active_branch plain_refs ascii_lowercase epoch_yaml (steady won_refs) (lit "main") won_state.

Lemma resolve_active_branch_exact_witness :
  resolve_run.1.1 = won_state.1
  ∧ (∀ b, resolve_run.2 = Ok b ↔ ∃ n, (n < MAX_FOLLOW_HOPS)%nat ∧ @chain epoch_yaml won_state.1 n (lit "main") b
                                    ∧ @unsealed epoch_yaml won_state.1 b)
  ∧ (resolve_run.2 = Err (RTooManyHops (lit "main")) ↔ ∃ b, @chain epoch_yaml won_state.1 MAX_FOLLOW_HOPS (lit "main") b).
Proof.
  refine (@resolve_active_branch_exact plain_refs ascii_lowercase epoch_yaml (steady won_refs) (lit "main") won_state
            resolve_run.1 resolve_run.2 (plain_readable _) (surjective_pairing _)).
Defined.

(** The chain leads to the new epoch. *)
Lemma resolve_run_answer : resolve_run.2 = Ok (lit "main-epoch-2").
Proof. by vm_compute. Qed.
