(* ===== verification/SessionHandlers.v ===== *)
(** * Quick session handlers

    The daemon's handlers for quick sessions
    ([gitim-daemon/src/quick_session_handlers.rs]): creating a session, posting to
    it, claiming a turn, naming, summarising and failing it, archiving and
    restoring it, listing and reading.  A session is a directory with its metadata
    and its thread, [quick-sessions/<id>] or [archive/quick-sessions/<id>]; every
    handler that changes one commits it, and undoes its writes when it cannot. *)

From S2P Require Import Prelude RustStr StrFacts Names QuickSession Asset Links Thread Compliance Meta Daemon Git Cards.
From stdpp Require Import options.
Open Scope N_scope.
Open Scope list_scope.

Definition QUICK_SESSION_MESSAGE_MAX_BYTES : N := 64 * 1024.

Record LocatedQuickSession := MkLocated { lq_rel_dir : str; lq_archived : bool }.

(** The metadata and the thread file of a session directory. *)
Definition session_meta_of (rel : str) : str := rel ++ lit "/session.meta.yaml".
Definition session_thread_of (rel : str) : str := rel ++ lit "/discussion.thread".

Definition user_file (handler : str) : str := meta_path (lit "users") handler.

(** The code a client sees for an error of the state machine. *)
Definition error_code (e : QuickSessionError) : str :=
  match e with
  | UnauthorizedActor => lit "quick_session_forbidden"
  | StaleAttempt => lit "quick_session_stale_attempt"
  | TitleRequired => lit "quick_session_title_required"
  | InvalidState | StaleInputLine | InputLineMismatch | InvalidLineNumber => lit "quick_session_invalid_state"
  | InvalidSessionId => lit "invalid_quick_session_id"
  | _ => lit "invalid_quick_session"
  end.

(** [Event::QuickSessionChanged]. *)
Record SessionChanged := MkSessionChanged {
  sc_session_id : str;
  sc_agent_id : str;
  sc_status : QuickSessionStatus;
  sc_revision : N;
}.

Definition emit_changed (meta : QuickSessionMeta) : SessionChanged :=
  MkSessionChanged (qs_id meta) (qs_agent_id meta) (qs_status meta) (qs_revision meta).

Record QuickSessionListItem := MkListItem {
  qi_id : str;
  qi_title : option str;
  qi_agent_id : str;
  qi_created_by : str;
  qi_status : QuickSessionStatus;
  qi_updated_at : str;
  qi_last_message_preview : str;
  qi_revision : N;
  qi_archived : bool;
  qi_ref : str;
}.

(** [QuickSessionListItem::from_meta]. *)
Definition from_meta (meta : QuickSessionMeta) (archived : bool) : QuickSessionListItem :=
  MkListItem (qs_id meta) (qs_title meta) (qs_agent_id meta) (qs_created_by meta) (qs_status meta)
    (qs_updated_at meta) (qs_last_message_preview meta) (qs_revision meta) archived (ref_string meta).

Record SendSessionResponse := MkSendSessionResponse {
  ssr_session_id : str;
  ssr_line_number : N;
  ssr_status : QuickSessionStatus;
  ssr_revision : N;
  ssr_ref : str;
}.

Record ClaimResponse := MkClaimResponse {
  clr_session_id : str;
  clr_input_line : N;
  clr_attempt_id : str;
  clr_status : QuickSessionStatus;
  clr_revision : N;
}.

(** The answers of the title, summary and error handlers; the text is the title, the
    summary, or nothing. *)
Record MetaResponse := MkMetaResponse {
  mtr_session_id : str;
  mtr_text : str;
  mtr_status : QuickSessionStatus;
  mtr_revision : N;
}.

Inductive MoveResponse :=
  | ArchivedAnswer (session_id : str) (status : QuickSessionStatus) (revision : N) (archived_at : str)
  | UnarchivedAnswer (session_id : str) (status : QuickSessionStatus) (revision : N).

(** The newest line of the session's creator: [filter_map] to line numbers, then [max]. *)
Definition max_line (acc : option N) (n : N) : option N :=
  Some (match acc with Some m => N.max m n | None => n end).

(** [mutate_agent_meta] puts the author into the transition it was given. *)
Definition with_actor (author : str) (t : QuickSessionTransition) : QuickSessionTransition :=
  match t with
  | SetTitle _ attempt_id title now => SetTitle author attempt_id title now
  | SetSummary _ attempt_id summary now => SetSummary author attempt_id summary now
  | MarkError _ attempt_id error now => MarkError author attempt_id error now
  | t => t
  end.

(** [std::fs::remove_dir_all]. *)
Definition remove_dir_all (ok : bool) (dir : str) (r : Repo) : Repo :=
  if ok then MkRepo (filter (λ kv : str * str, below dir kv.1 = false) (r_work r)) (r_index r) (r_head r) else r.

(** [atomic_write_file]: a temporary file in the same directory, renamed over the
    path; when the directory is missing or a step fails nothing changes. *)
Definition atomic_write_file (parent_exists ok : bool) (path content : str) (r : Repo) : Repo * bool :=
  if parent_exists && ok then (write_work path content r, true) else (r, false).

Section sessions.
Context `{UC : !Unicode} `{PE : !PercentEncoding} `{SJ : !SerdeJson}
        `{YQ : !Yaml QuickSessionMeta} `{GI : !Git}.

Inductive SessionReqError :=
  | SessionError (e : QuickSessionError)
  | SessionBodyEmpty
  | SessionBodyTooLong
  | SessionNormalizeParse (e : ParseError)
  | SessionNormalize
  | SessionMetaRead
  | SessionMetaParse
  | SessionMetaSerialize
  | SessionMetaWrite
  | SessionThreadRead
  | SessionThreadParse (e : ParseError)
  | SessionWrite
  | SessionInvalidHandler (role : str) (e : HandlerError)
  | SessionUserDeparted (role handler : str)
  | SessionUserUnknown (role handler : str)
  | SessionDaemon (e : DaemonError)
  | SessionIdCollision
  | SessionMessageInvalid (e : ComplianceError)
  | SessionCommit
  | SessionNotFound
  | SessionRequestIdRequired
  | SessionAttemptIdRequired
  | SessionMkdir
  | SessionMv.

Record QuickSessionDetail := MkDetail {
  qd_meta : QuickSessionMeta;
  qd_entries : list ThreadEntry;
  qd_archived : bool;
}.

Record CreateSessionResponse := MkCreateSessionResponse {
  csr_session : QuickSessionDetail;
  csr_line_number : N;
  csr_ref : str;
}.

(** What the environment answers during one request: the clock, reads (the metadata
    is read a second time before it is replaced), writes, git, and whether the sync
    loop has started. *)
Record SessionEnv := MkSessionEnv {
  se_now : str;
  se_read_ok : str → bool;
  se_reread_ok : bool;
  se_mkdir_ok : bool;
  se_meta_write_ok : bool;
  se_thread_write_ok : bool;
  se_restore_meta_ok : bool;
  se_restore_thread_ok : bool;
  se_remove_ok : bool;
  se_commit : CommitEnv;
  se_reset : git_env;
  se_mv : git_env;
  se_rollback : git_env;
  se_head : option str;
  se_sync_started : bool;
  se_list : str → list str;
}.

(** What a handler leaves: the state, the event it broadcast, whether it woke the
    sync loop, the response. *)
Record SessionOutcome (A : Type) := MkSessionOutcome {
  so_state : GDaemon;
  so_event : option SessionChanged;
  so_notified : bool;
  so_response : res A SessionReqError;
}.
Arguments MkSessionOutcome {_} _ _ _ _.
Arguments so_state {_} _.
Arguments so_event {_} _.
Arguments so_notified {_} _.
Arguments so_response {_} _.

(** An early return. *)
Definition returns {A} (d : GDaemon) (r : res A SessionReqError) : SessionOutcome A := MkSessionOutcome d None false r.

(** [?] on a handler's way out. *)
Definition or_return {A B} (d : GDaemon) (r : res A SessionReqError) (k : A → SessionOutcome B) : SessionOutcome B :=
  match r with
  | Ok a => k a
  | Err e => returns d (Err e)
  | Panicked => returns d Panicked
  end.

Definition schedule_sync (env : SessionEnv) (d : GDaemon) : bool := g_has_remote d && se_sync_started env.

(** ** Checks and reads *)

Definition validate_body (body : str) : res unit SessionReqError :=
  try? guard_err (is_empty (trim body)) SessionBodyEmpty then
  guard_err (QUICK_SESSION_MESSAGE_MAX_BYTES <? len body) SessionBodyTooLong.

(** The body as the thread will give it back. *)
Definition canonical_message_body (author : Handler) (body : str) : res str SessionReqError :=
  let formatted := format_message 1 0 author (lit "19700101T000000Z") body in
  let? parsed := map_err SessionNormalizeParse (parse_thread formatted) in
  match entries parsed with
  | EntryMessage message :: _ => Ok (m_body message)
  | _ => Err SessionNormalize
  end.

Definition session_dir (archived : bool) (session_id : str) : str :=
  (if archived then lit "archive/quick-sessions/" else lit "quick-sessions/") ++ session_id.

Definition session_rel_dir (session_id : str) (archived : bool) : res str SessionReqError :=
  try? map_err SessionError (validate_quick_session_id session_id) then
  Ok (session_dir archived session_id).

Definition locate_session (d : GDaemon) (session_id : str) : res (option LocatedQuickSession) SessionReqError :=
  let? active := session_rel_dir session_id false in
  let? archived := session_rel_dir session_id true in
  let active_exists := exists_file (as_daemon d) (session_meta_of active) in
  let archived_exists := exists_file (as_daemon d) (session_meta_of archived) in
  Ok (if active_exists then Some (MkLocated active false)
      else if archived_exists then Some (MkLocated archived true)
      else None).

(** [read_to_string]. *)
Definition read_session_file (env : SessionEnv) (d : GDaemon) (path : str) : option str :=
  if se_read_ok env path then r_work (g_repo d) !! path else None.

Definition load_meta (env : SessionEnv) (d : GDaemon) (located : LocatedQuickSession)
  : res QuickSessionMeta SessionReqError :=
  let? content := ok_or (read_session_file env d (session_meta_of (lq_rel_dir located))) SessionMetaRead in
  let? meta := ok_or (yaml_from_str content) SessionMetaParse in
  try? map_err SessionError (validate_quick_session_meta meta) then
  Ok meta.

Definition load_thread (env : SessionEnv) (d : GDaemon) (located : LocatedQuickSession)
  : res (str * list ThreadEntry) SessionReqError :=
  let? content := ok_or (read_session_file env d (session_thread_of (lq_rel_dir located))) SessionThreadRead in
  let? parsed := map_err SessionThreadParse (parse_thread content) in
  Ok (content, entries parsed).

(** The second read of the metadata text. *)
Definition reread_meta (env : SessionEnv) (d : GDaemon) (rel : str) : res str SessionReqError :=
  ok_or (if se_reread_ok env then r_work (g_repo d) !! session_meta_of rel else None) SessionMetaRead.

Definition bounded_entries (es : list ThreadEntry) (limit : option nat) (since : option N) : list ThreadEntry :=
  let es := List.filter (λ e, is_none_or since (λ line, line <? entry_line_number e)) es in
  match limit with
  | Some limit => if is_some since then take limit es else drop (length es - limit) es
  | None => es
  end.

Definition detail (env : SessionEnv) (d : GDaemon) (located : LocatedQuickSession) (limit : option nat)
  (since : option N) : res QuickSessionDetail SessionReqError :=
  let? meta := load_meta env d located in
  let? thread := load_thread env d located in
  Ok (MkDetail meta (bounded_entries thread.2 limit since) (lq_archived located)).

Definition ensure_active_user (d : GDaemon) (handler role : str) : res Handler SessionReqError :=
  let? parsed := map_err (SessionInvalidHandler role) (Handler_new handler) in
  try? guard_err (exists_file (as_daemon d) (archived_user_meta_path handler)) (SessionUserDeparted role handler) then
  try? guard_err (negb (exists_file (as_daemon d) (user_file handler))) (SessionUserUnknown role handler) then
  Ok parsed.

Definition meta_yaml (meta : QuickSessionMeta) : res str SessionReqError := ok_or (yaml_to_string meta) SessionMetaSerialize.

(** ** Undoing writes *)

(** A failed reset is only logged. *)
Definition reset_paths (g : git_env) (paths : list str) (r : Repo) : Repo :=
  if is_empty paths then r else unwrap_or (git_reset_paths g paths r) r.

(** One file to restore: whether the write succeeds, the path, the old text. *)
Definition restore_files (g : git_env) (dir : str) (files : list (bool * str * str)) (rel_paths : list str) (r : Repo)
  : Repo :=
  fold_left (λ r '(ok, path, content), (atomic_write_file (path_exists (r_work r) dir) ok path content r).1)
    files (reset_paths g rel_paths r).

(** ** [handle_create_quick_session] *)

(** The checks before the lock: the creator and the canonical first message. *)
Definition check_create (d : GDaemon) (session_id agent_id first_message author : str)
  : res (Handler * str) SessionReqError :=
  try? validate_body first_message then
  try? map_err SessionError (validate_quick_session_id session_id) then
  let? creator := ensure_active_user d author (lit "creator") in
  try? map_err SessionDaemon (ensure_author_not_departed (as_daemon d) author) then
  try? ensure_active_user d agent_id (lit "agent") then
  let? first_message := canonical_message_body creator first_message in
  Ok (creator, first_message).

Definition first_matches (author first_message : str) (es : list ThreadEntry) : bool :=
  match es with
  | EntryMessage message :: _ =>
      (m_line_number message =? 1) && (m_point_to message =? 0)
      && (handler_str (m_author message) =?? author) && (m_body message =?? first_message)
  | _ => false
  end.

(** The answer to a create for an id that is taken. *)
Definition answer_existing (env : SessionEnv) (d : GDaemon) (located : LocatedQuickSession)
  (session_id agent_id first_message author : str) : res CreateSessionResponse SessionReqError :=
  let? existing := detail env d located None None in
  try? guard_err (negb (qs_id (qd_meta existing) =?? session_id)
                  || negb (qs_agent_id (qd_meta existing) =?? agent_id)
                  || negb (qs_created_by (qd_meta existing) =?? author)
                  || negb (first_matches author first_message (qd_entries existing))) SessionIdCollision then
  Ok (MkCreateSessionResponse existing 1 (ref_string (qd_meta existing))).

(** The new session: its directory, metadata, metadata text and thread text. *)
Definition prepare_create_session (env : SessionEnv) (d : GDaemon) (creator : Handler)
  (session_id agent_id first_message author : str) : res (str * QuickSessionMeta * str * str) SessionReqError :=
  let now := se_now env in
  let meta := QuickSessionMeta_new session_id agent_id author now in
  let '(meta, applied) := apply_quick_session_transition meta (HumanMessage author 1 None first_message now) in
  try? map_err SessionError applied then
  let thread := format_message 1 0 creator now first_message in
  try? map_err SessionMessageInvalid (validate_append [] thread (g_users d) [author; agent_id]) then
  let? yaml := meta_yaml meta in
  let? rel_dir := session_rel_dir session_id false in
  Ok (rel_dir, meta, yaml, thread).

(** Writing and committing the new directory, or taking it away again. *)
Definition write_new_session (env : SessionEnv) (rel_dir yaml thread : str) (r : Repo) : Repo * res unit SessionReqError :=
  let meta_rel := session_meta_of rel_dir in
  let thread_rel := session_thread_of rel_dir in
  let '(r1, meta_written) := atomic_write_file (se_mkdir_ok env) (se_meta_write_ok env) meta_rel yaml r in
  let '(r2, thread_written) := atomic_write_file meta_written (se_thread_write_ok env) thread_rel thread r1 in
  if negb thread_written then (remove_dir_all (se_remove_ok env) rel_dir r2, Err SessionWrite)
  else
    let '(r3, committed) := add_and_commit_as (se_commit env) [meta_rel; thread_rel] r2 in
    if negb committed then
      (remove_dir_all (se_remove_ok env) rel_dir (reset_paths (se_reset env) [meta_rel; thread_rel] r3), Err SessionCommit)
    else (r3, Ok tt).

(** [pending_push.push(..)] when [rev_parse] gives the commit. *)
Definition push_pending (env : SessionEnv) (session_id : str) (line_number : N) (d : GDaemon) : GDaemon :=
  match se_head env with
  | Some commit_id =>
      MkGDaemon (g_repo d) (g_users d)
        (g_pending_push d ++ [MkPendingMessage (lit "quick_session:" ++ session_id) line_number commit_id])
        (g_has_remote d)
  | None => d
  end.

Definition thread_entries (thread : str) : list ThreadEntry :=
  match parse_thread thread with Ok parsed => entries parsed | _ => [] end.

Definition handle_create_quick_session (env : SessionEnv) (d : GDaemon)
  (session_id agent_id first_message author : str) : SessionOutcome CreateSessionResponse :=
  or_return d (check_create d session_id agent_id first_message author) (λ '(creator, first_message),
  or_return d (locate_session d session_id) (λ existing,
  match existing with
  | Some located => returns d (answer_existing env d located session_id agent_id first_message author)
  | None =>
      or_return d (prepare_create_session env d creator session_id agent_id first_message author)
        (λ '(rel_dir, meta, yaml, thread),
      let '(r, written) := write_new_session env rel_dir yaml thread (g_repo d) in
      or_return (with_repo d r) written (λ _,
      let d' := push_pending env session_id 1 (with_repo d r) in
      MkSessionOutcome d' (Some (emit_changed meta)) (schedule_sync env d')
        (Ok (MkCreateSessionResponse (MkDetail meta (thread_entries thread) false) 1 (ref_string meta)))))
  end)).

(** ** [handle_list_quick_sessions] and [handle_read_quick_session] *)

Definition newest_creator_line (created_by : str) (es : list ThreadEntry) : option N :=
  fold_left max_line
    (omap (λ e, match e with
                | EntryMessage m => if handler_str (m_author m) =?? created_by then Some (m_line_number m) else None
                | EntryEvent _ => None
                end) es) None.

(** The [continue]s of the listing loop for one directory name. *)
Definition list_one (env : SessionEnv) (d : GDaemon) (archived : bool) (agent_id : option str) (actionable : bool)
  (status : option QuickSessionStatus) (session_id : str) : option QuickSessionListItem :=
  rel_dir ← res_ok (session_rel_dir session_id archived);
  let located := MkLocated rel_dir archived in
  meta ← res_ok (load_meta env d located);
  if is_some_and agent_id (λ agent, negb (agent =?? qs_agent_id meta)) then None else
  if is_some_and status (λ status, negb (status =?? qs_status meta)) then None else
  if negb actionable then Some (from_meta meta archived) else
  if negb ((qs_status meta =?? NeedsTitle) || (qs_status meta =?? Active)) then None else
  thread ← res_ok (load_thread env d located);
  if is_none_or (newest_creator_line (qs_created_by meta) thread.2) (λ line,
       is_some_and (qs_last_completed_input_line meta) (λ completed, line <=? completed))
  then None else Some (from_meta meta archived).

(** Newest first, then by id. *)
Definition item_leb (a b : QuickSessionListItem) : bool :=
  match str_compare (qi_updated_at b) (qi_updated_at a) with
  | Lt => true
  | Gt => false
  | Eq => str_leb (qi_id a) (qi_id b)
  end.

(** [unwrap_or(100).clamp(1, 100)]. *)
Definition list_limit (limit : option nat) : nat := Nat.min 100 (Nat.max 1 (unwrap_or limit 100%nat)).

Definition handle_list_quick_sessions (env : SessionEnv) (d : GDaemon) (archived : bool) (agent_id : option str)
  (actionable : bool) (status : option QuickSessionStatus) (limit : option nat)
  : res (list QuickSessionListItem) SessionReqError :=
  try? if_some agent_id (λ agent_id,
         try? map_err (SessionInvalidHandler (lit "agent")) (Handler_new agent_id) then Ok tt) then
  let root := if archived then lit "archive/quick-sessions" else lit "quick-sessions" in
  let sessions := omap (list_one env d archived agent_id actionable status) (se_list env root) in
  Ok (take (list_limit limit) (sort_by_key item_leb sessions)).

Definition handle_read_quick_session (env : SessionEnv) (d : GDaemon) (session_id : str) (limit : option nat)
  (since : option N) : res QuickSessionDetail SessionReqError :=
  let? located := locate_session d session_id in
  match located with
  | Some located => detail env d located limit since
  | None => Err SessionNotFound
  end.

(** ** [handle_send_quick_session_message] *)

(** [match locate_session { Ok(Some(l)) if !l.archived => l, .. }]. *)
Definition locate_active (d : GDaemon) (session_id : str) : res LocatedQuickSession SessionReqError :=
  let? located := locate_session d session_id in
  match located with
  | Some located => if lq_archived located then Err (SessionError InvalidState) else Ok located
  | None => Err SessionNotFound
  end.

(** Who may send what: the checks between loading the session and the transition. *)
Definition check_sender (meta : QuickSessionMeta) (author : str) (reply_to : option N)
  (request_id attempt_id : option str) : res unit SessionReqError :=
  let is_creator := author =?? qs_created_by meta in
  let is_agent := author =?? qs_agent_id meta in
  try? guard_err (negb is_creator && negb is_agent) (SessionError UnauthorizedActor) then
  try? guard_err (is_creator && is_none_or request_id is_empty) SessionRequestIdRequired then
  try? guard_err (is_agent && is_none_or attempt_id is_empty) SessionAttemptIdRequired then
  let completed_retry := is_agent && (attempt_id =?? qs_last_completed_attempt_id meta)
                         && (reply_to =?? qs_last_completed_input_line meta) in
  try? (if is_agent && negb completed_retry && (qs_status meta =?? Running) then
          let requested_attempt := unwrap_or attempt_id [] in
          try? map_err SessionError (validate_quick_session_attempt_id requested_attempt) then
          guard_err (negb (qs_attempt_id meta =?? Some requested_attempt)) (SessionError StaleAttempt)
        else Ok tt) then
  guard_err (is_agent && negb completed_retry && negb (reply_to =?? qs_processing_input_line meta))
    (SessionError InputLineMismatch).

Definition send_transition (meta : QuickSessionMeta) (author body : str) (reply_to : option N)
  (request_id attempt_id : option str) (next_line : N) (now : str) : QuickSessionTransition :=
  if author =?? qs_created_by meta
  then HumanMessage author next_line request_id body now
  else AgentReply author (unwrap_or reply_to 0) (unwrap_or attempt_id []) next_line body now.

(** A send that found its session: the directory, the metadata and the texts before
    and after, the line number; or the answer to a message that is already there. *)
Record SendPlan := MkSendPlan {
  sp_rel_dir : str;
  sp_meta : QuickSessionMeta;
  sp_old_meta : str;
  sp_old_thread : str;
  sp_new_meta : str;
  sp_new_thread : str;
  sp_line : N;
}.

Definition prepare_session_send (env : SessionEnv) (d : GDaemon) (session_id body : str) (reply_to : option N)
  (request_id attempt_id : option str) (author : str) : res (SendSessionResponse + SendPlan) SessionReqError :=
  try? validate_body body then
  let? handler := ensure_active_user d author (lit "author") in
  try? map_err SessionDaemon (ensure_author_not_departed (as_daemon d) author) then
  let? located := locate_active d session_id in
  let? meta := load_meta env d located in
  let? thread := load_thread env d located in
  let '(old_thread, es) := thread in
  try? check_sender meta author reply_to request_id attempt_id then
  let next_line := match last es with Some e => wrapping_add (entry_line_number e) 1 | None => 1 end in
  let now := se_now env in
  let '(meta, applied) := apply_quick_session_transition meta
                            (send_transition meta author body reply_to request_id attempt_id next_line now) in
  let? outcome := map_err SessionError applied in
  match outcome with
  | Duplicate line_number =>
      Ok (inl (MkSendSessionResponse session_id (unwrap_or line_number next_line) (qs_status meta) (qs_revision meta)
                 (ref_string meta)))
  | Applied =>
      let new_message := format_message next_line (unwrap_or reply_to 0) handler now body in
      try? map_err SessionMessageInvalid
             (validate_append old_thread new_message (g_users d) [qs_created_by meta; qs_agent_id meta]) then
      let? new_meta := meta_yaml meta in
      let? old_meta := reread_meta env d (lq_rel_dir located) in
      Ok (inr (MkSendPlan (lq_rel_dir located) meta old_meta old_thread new_meta (old_thread ++ new_message) next_line))
  end.

(** Writing and committing both files, or writing the old ones back. *)
Definition write_session (env : SessionEnv) (p : SendPlan) (r : Repo) : Repo * res unit SessionReqError :=
  let dir := sp_rel_dir p in
  let meta_rel := session_meta_of dir in
  let thread_rel := session_thread_of dir in
  let olds := [(se_restore_meta_ok env, meta_rel, sp_old_meta p); (se_restore_thread_ok env, thread_rel, sp_old_thread p)] in
  let '(r1, meta_written) := atomic_write_file (path_exists (r_work r) dir) (se_meta_write_ok env) meta_rel (sp_new_meta p) r in
  let '(r2, thread_written) := atomic_write_file meta_written (se_thread_write_ok env) thread_rel (sp_new_thread p) r1 in
  if negb thread_written then (restore_files (se_reset env) dir olds [] r2, Err SessionWrite)
  else
    let '(r3, committed) := add_and_commit_as (se_commit env) [meta_rel; thread_rel] r2 in
    if negb committed then (restore_files (se_reset env) dir olds [meta_rel; thread_rel] r3, Err SessionCommit)
    else (r3, Ok tt).

Definition handle_send_quick_session_message (env : SessionEnv) (d : GDaemon) (session_id body : str)
  (reply_to : option N) (request_id attempt_id : option str) (author : str) : SessionOutcome SendSessionResponse :=
  or_return d (prepare_session_send env d session_id body reply_to request_id attempt_id author) (λ plan,
  match plan with
  | inl answer => returns d (Ok answer)
  | inr p =>
      let '(r, written) := write_session env p (g_repo d) in
      or_return (with_repo d r) written (λ _,
      let d' := push_pending env session_id (sp_line p) (with_repo d r) in
      let meta := sp_meta p in
      MkSessionOutcome d' (Some (emit_changed meta)) (schedule_sync env d')
        (Ok (MkSendSessionResponse session_id (sp_line p) (qs_status meta) (qs_revision meta) (ref_string meta))))
  end).

(** ** [apply_meta_transition] and the handlers on top of it *)

Definition prepare_meta_transition (env : SessionEnv) (d : GDaemon) (session_id : str) (transition : QuickSessionTransition)
  : res (str * QuickSessionMeta * option (str * str)) SessionReqError :=
  let? located := locate_active d session_id in
  let? meta := load_meta env d located in
  let? old_meta := reread_meta env d (lq_rel_dir located) in
  let '(meta, applied) := apply_quick_session_transition meta transition in
  let? outcome := map_err SessionError applied in
  match outcome with
  | Duplicate _ => Ok (lq_rel_dir located, meta, None)
  | Applied => let? new_meta := meta_yaml meta in Ok (lq_rel_dir located, meta, Some (old_meta, new_meta))
  end.

(** Replacing the metadata file; a write that fails has changed nothing. *)
Definition write_meta (env : SessionEnv) (dir old_meta new_meta : str) (r : Repo) : Repo * res unit SessionReqError :=
  let meta_rel := session_meta_of dir in
  let '(r1, written) := atomic_write_file (path_exists (r_work r) dir) (se_meta_write_ok env) meta_rel new_meta r in
  if negb written then (r1, Err SessionMetaWrite)
  else
    let '(r2, committed) := add_and_commit_as (se_commit env) [meta_rel] r1 in
    if negb committed then
      (restore_files (se_reset env) dir [(se_restore_meta_ok env, meta_rel, old_meta)] [meta_rel] r2, Err SessionCommit)
    else (r2, Ok tt).

(** The handlers' tail: an event and a wake-up only when something changed. *)
Definition apply_meta_transition {A} (env : SessionEnv) (d : GDaemon) (session_id : str)
  (transition : QuickSessionTransition) (response : QuickSessionMeta → A) : SessionOutcome A :=
  or_return d (prepare_meta_transition env d session_id transition) (λ '(dir, meta, change),
  match change with
  | None => returns d (Ok (response meta))
  | Some (old_meta, new_meta) =>
      let '(r, written) := write_meta env dir old_meta new_meta (g_repo d) in
      or_return (with_repo d r) written (λ _,
      MkSessionOutcome (with_repo d r) (Some (emit_changed meta)) (schedule_sync env d) (Ok (response meta)))
  end).

(** The checks of a claim that look at the thread. *)
Definition check_claim (env : SessionEnv) (d : GDaemon) (session_id : str) (input_line : N) (attempt_id author : str)
  : res unit SessionReqError :=
  try? ensure_active_user d author (lit "author") then
  let? located := locate_active d session_id in
  let? meta := load_meta env d located in
  try? guard_err (negb (qs_agent_id meta =?? author)) (SessionError UnauthorizedActor) then
  let? thread := load_thread env d located in
  let latest_creator_line := newest_creator_line (qs_created_by meta) thread.2 in
  let is_duplicate := (qs_status meta =?? Running) && (qs_processing_input_line meta =?? Some input_line)
                      && (qs_attempt_id meta =?? Some attempt_id) in
  guard_err (negb is_duplicate && negb (latest_creator_line =?? Some input_line)) (SessionError InputLineMismatch).

Definition handle_claim_quick_session_turn (env : SessionEnv) (d : GDaemon) (session_id : str) (input_line : N)
  (attempt_id author : str) : SessionOutcome ClaimResponse :=
  or_return d (check_claim env d session_id input_line attempt_id author) (λ _,
  apply_meta_transition env d session_id (Claim author input_line attempt_id (se_now env))
    (λ meta, MkClaimResponse session_id input_line attempt_id (qs_status meta) (qs_revision meta))).

Definition mutate_agent_meta {A} (env : SessionEnv) (d : GDaemon) (session_id author : str)
  (transition : QuickSessionTransition) (response : QuickSessionMeta → A) : SessionOutcome A :=
  or_return d (ensure_active_user d author (lit "author")) (λ _,
  apply_meta_transition env d session_id (with_actor author transition) response).

Definition handle_set_quick_session_title (env : SessionEnv) (d : GDaemon) (session_id title attempt_id author : str) :=
  mutate_agent_meta env d session_id author (SetTitle [] attempt_id title (se_now env))
    (λ meta, MkMetaResponse (qs_id meta) (unwrap_or (qs_title meta) []) (qs_status meta) (qs_revision meta)).

Definition handle_set_quick_session_summary (env : SessionEnv) (d : GDaemon) (session_id summary attempt_id author : str) :=
  mutate_agent_meta env d session_id author (SetSummary [] attempt_id summary (se_now env))
    (λ meta, MkMetaResponse (qs_id meta) (unwrap_or (qs_summary meta) []) (qs_status meta) (qs_revision meta)).

Definition handle_mark_quick_session_error (env : SessionEnv) (d : GDaemon) (session_id attempt_id diagnostic author : str) :=
  mutate_agent_meta env d session_id author (MarkError [] attempt_id diagnostic (se_now env))
    (λ meta, MkMetaResponse (qs_id meta) [] (qs_status meta) (qs_revision meta)).

(** ** [move_session] *)

(** The checks: source, target, metadata, and its texts before and after. *)
Definition prepare_move_session (env : SessionEnv) (d : GDaemon) (session_id author : str) (archive : bool)
  : res (str * str * QuickSessionMeta * str * str) SessionReqError :=
  try? ensure_active_user d author (lit "creator") then
  let? located := locate_session d session_id in
  let? located := ok_or located SessionNotFound in
  try? guard_err (eqb (lq_archived located) archive) (SessionError InvalidState) then
  let? meta := load_meta env d located in
  let? old_meta := reread_meta env d (lq_rel_dir located) in
  let now := se_now env in
  let '(meta, applied) := apply_quick_session_transition meta
                            (if archive then Archive author now else Unarchive author now) in
  try? map_err SessionError applied then
  let? new_meta := meta_yaml meta in
  let? target_rel := session_rel_dir session_id archive in
  Ok (lq_rel_dir located, target_rel, meta, old_meta, new_meta).

Definition move_session_dir (env : SessionEnv) (source target old_meta new_meta : str) (r : Repo)
  : Repo * res unit SessionReqError :=
  let source_meta := session_meta_of source in
  let put_back r := (atomic_write_file (path_exists (r_work r) source) (se_restore_meta_ok env) source_meta old_meta r).1 in
  let '(r1, written) := atomic_write_file (path_exists (r_work r) source) (se_meta_write_ok env) source_meta new_meta r in
  if negb written then (r1, Err SessionMetaWrite)
  else if negb (se_mkdir_ok env) then (put_back r1, Err SessionMkdir)
  else
    let '(r2, moved) := mv (se_mv env) source target r1 in
    if negb moved then (put_back r2, Err SessionMv)
    else
      let target_meta := session_meta_of target in
      let target_thread := session_thread_of target in
      let '(r3, committed) := add_and_commit_as (se_commit env) [target_meta; target_thread] r2 in
      if negb committed then
        let '(r4, _) := mv (se_rollback env) target source r3 in
        (put_back (reset_paths (se_reset env) [source_meta; target_meta; target_thread] r4), Err SessionCommit)
      else (r3, Ok tt).

Definition move_session (env : SessionEnv) (d : GDaemon) (session_id author : str) (archive : bool)
  : SessionOutcome MoveResponse :=
  or_return d (prepare_move_session env d session_id author archive) (λ '(source, target, meta, old_meta, new_meta),
  let '(r, moved) := move_session_dir env source target old_meta new_meta (g_repo d) in
  or_return (with_repo d r) moved (λ _,
  MkSessionOutcome (with_repo d r) (Some (emit_changed meta)) (schedule_sync env d)
    (Ok (if archive then ArchivedAnswer session_id (qs_status meta) (qs_revision meta) (unwrap_or (qs_archived_at meta) [])
         else UnarchivedAnswer session_id (qs_status meta) (qs_revision meta))))).

Definition handle_archive_quick_session (env : SessionEnv) (d : GDaemon) (session_id author : str) :=
  move_session env d session_id author true.
Definition handle_unarchive_quick_session (env : SessionEnv) (d : GDaemon) (session_id author : str) :=
  move_session env d session_id author false.

(** ** What the writes leave

    On a clone whose three trees agree, in an environment in which undoing works,
    every write either leaves the three trees equal to the new one or puts the
    clone back as it was. *)

Definition clean (t : tree) : Repo := MkRepo t t t.

Record session_env_ok (env : SessionEnv) : Prop := {
  env_clock : is_timestamp (se_now env) = true;
  env_reset : ∀ ps r, is_Some (git_reset_paths (se_reset env) ps r);
  env_rollback : ∀ from to r, path_exists (r_index r) from = true → path_exists (r_work r) to = false →
                              is_Some (git_mv (se_rollback env) from to r);
  env_restore_meta : se_restore_meta_ok env = true;
  env_restore_thread : se_restore_thread_ok env = true;
  env_remove : se_remove_ok env = true;
}.

(** [t] with the metadata or with both files of the directory replaced. *)
Definition put_meta (dir y : str) (t : tree) : tree := <[session_meta_of dir := y]> t.
Definition put_session (dir y th : str) (t : tree) : tree := <[session_thread_of dir := th]> (put_meta dir y t).

Lemma session_meta_below dir : below dir (session_meta_of dir) = true.
Proof. apply below_true. eexists. apply strip_dir_Some. split; [done|]. right. by eexists. Qed.

Lemma session_thread_below dir : below dir (session_thread_of dir) = true.
Proof. apply below_true. eexists. apply strip_dir_Some. split; [done|]. right. by eexists. Qed.

Lemma session_meta_ne_thread dir : session_meta_of dir ≠ session_thread_of dir.
Proof. intros H. by apply app_inv_head in H. Qed.

Lemma in_paths_self p ps : p ∈ ps → in_paths ps p = true.
Proof. intros Hp. apply existsb_exists. exists p. rewrite <-list_elem_of_In. split; [done|apply below_refl]. Qed.

Lemma put_session_other dir y th t k :
  in_paths [session_meta_of dir; session_thread_of dir] k = false → put_session dir y th t !! k = t !! k.
Proof.
  intros Hk. unfold put_session, put_meta. rewrite !lookup_insert_ne; [done|..]; intros <-;
    rewrite in_paths_self in Hk; set_solver.
Qed.

Lemma put_meta_other dir y t k : in_paths [session_meta_of dir] k = false → put_meta dir y t !! k = t !! k.
Proof. intros Hk. apply lookup_insert_ne. intros <-. rewrite in_paths_self in Hk; set_solver. Qed.

Lemma dir_exists (t : tree) dir v : t !! session_meta_of dir = Some v → path_exists t dir = true.
Proof.
  intros H. pose proof (session_meta_below dir) as [rest Hr]%below_true.
  apply path_exists_true. by exists (session_meta_of dir), v, rest.
Qed.

Lemma put_meta_exists dir y t : path_exists (put_meta dir y t) dir = true.
Proof. apply (dir_exists _ _ y). apply lookup_insert_eq. Qed.

Lemma put_session_exists dir y th t : path_exists (put_session dir y th t) dir = true.
Proof.
  apply (dir_exists _ _ y). unfold put_session. rewrite lookup_insert_ne by apply not_eq_sym, session_meta_ne_thread.
  apply lookup_insert_eq.
Qed.

Lemma reset_paths_spec env ps w i t :
  session_env_ok env → ps ≠ [] → (∀ k, in_paths ps k = false → i !! k = t !! k) →
  reset_paths (se_reset env) ps (MkRepo w i t) = MkRepo w t t.
Proof.
  intros Henv Hps Hi. unfold reset_paths. rewrite (proj2 (is_empty_false ps) Hps).
  destruct (env_reset _ Henv ps (MkRepo w i t)) as [r' Hr']. rewrite Hr'. cbn [unwrap_or].
  rewrite (git_reset_paths_unstages _ _ _ _ Hr'). cbn [r_work r_index r_head]. f_equal.
  apply sync_paths_same. intros k Hk. symmetry. by apply Hi.
Qed.

(** A commit of all that was written, or an index that a reset puts back. *)
Lemma commit_or_reset env ps w t :
  session_env_ok env → ps ≠ [] → (∀ k, in_paths ps k = false → w !! k = t !! k) →
  match add_and_commit_as (se_commit env) ps (MkRepo w t t) with
  | (r, true) => r = clean w
  | (r, false) => reset_paths (se_reset env) ps r = MkRepo w t t
  end.
Proof.
  intros Henv Hps Hw. destruct (add_and_commit_as _ _ _) as [r []] eqn:E; apply add_and_commit_spec in E;
    unfold stage in E; cbn [r_work r_index r_head] in E; rewrite (sync_paths_same ps w t Hw) in E; [done|].
  destruct E as [-> | ->]; by apply reset_paths_spec.
Qed.

Lemma remove_put_session dir t w :
  path_exists t dir = false → (∀ k, below dir k = false → w !! k = t !! k) →
  remove_dir_all true dir (MkRepo w t t) = clean t.
Proof.
  intros Hd Hw. unfold remove_dir_all, clean. cbn [r_work r_index r_head]. f_equal. apply map_eq. intros k.
  destruct (below dir k) eqn:E.
  - transitivity (@None str).
    + apply map_lookup_filter_None. right. intros v _. simpl. congruence.
    + symmetry. apply eq_None_not_Some. intros Hk. rewrite path_exists_false in Hd. specialize (Hd k Hk).
      apply strip_dir_None_below in Hd. congruence.
  - rewrite <-(Hw k E). apply option_eq. intros v. rewrite map_lookup_filter_Some. simpl. tauto.
Qed.

Lemma put_session_outside dir y th t k : below dir k = false → put_session dir y th t !! k = t !! k.
Proof.
  intros Hk. unfold put_session, put_meta. rewrite !lookup_insert_ne; [done|..]; intros <-.
  - by rewrite session_meta_below in Hk.
  - by rewrite session_thread_below in Hk.
Qed.

Lemma put_meta_outside dir y t k : below dir k = false → put_meta dir y t !! k = t !! k.
Proof. intros Hk. apply lookup_insert_ne. intros <-. by rewrite session_meta_below in Hk. Qed.

Lemma write_new_session_spec env dir y th t :
  session_env_ok env → path_exists t dir = false →
  match write_new_session env dir y th (clean t) with
  | (r, Ok _) => r = clean (put_session dir y th t)
  | (r, Err _) => r = clean t
  | (_, Panicked) => False
  end.
Proof.
  intros Henv Hd. unfold write_new_session, atomic_write_file.
  rewrite (env_remove _ Henv).
  destruct (se_mkdir_ok env && se_meta_write_ok env) eqn:E1; cbn [andb].
  2: { cbn [negb]. by apply remove_put_session. }
  destruct (se_thread_write_ok env) eqn:E2; cbn [negb].
  2: { apply remove_put_session; [done|]. intros k. apply put_meta_outside. }
  pose proof (commit_or_reset env [session_meta_of dir; session_thread_of dir] (put_session dir y th t) t Henv
                ltac:(done) (put_session_other dir y th t)) as Hc.
  unfold write_work, clean. cbn [r_work r_index r_head]. fold (put_meta dir y t). fold (put_session dir y th t).
  destruct (add_and_commit_as _ _ _) as [r []]; cbn [negb]; [done|].
  rewrite Hc. apply remove_put_session; [done|]. intros k. apply put_session_outside.
Qed.

(** Writing the old texts back. *)
Lemma restore_session env dir oy oth t w i :
  session_env_ok env → t !! session_meta_of dir = Some oy → t !! session_thread_of dir = Some oth →
  (∀ k, k ≠ session_meta_of dir → k ≠ session_thread_of dir → w !! k = t !! k) → is_Some (w !! session_meta_of dir) →
  fold_left (λ r '(ok, path, content), (atomic_write_file (path_exists (r_work r) dir) ok path content r).1)
    [(se_restore_meta_ok env, session_meta_of dir, oy); (se_restore_thread_ok env, session_thread_of dir, oth)]
    (MkRepo w i t) = MkRepo t i t.
Proof.
  intros Henv Hy Hth Hw [v Hv]. cbn [fold_left]. rewrite (env_restore_meta _ Henv), (env_restore_thread _ Henv).
  unfold atomic_write_file at 2. cbn [r_work]. rewrite (dir_exists w dir v Hv). cbn [andb fst].
  unfold atomic_write_file. unfold write_work. cbn [r_work r_index r_head].
  fold (put_meta dir oy w). rewrite put_meta_exists. unfold put_meta. cbn [andb fst r_work r_index r_head]. f_equal. apply map_eq. intros k.
  destruct (decide (k = session_thread_of dir)) as [->|Ht]; [by rewrite lookup_insert_eq|].
  rewrite lookup_insert_ne by done.
  destruct (decide (k = session_meta_of dir)) as [->|Hm]; [by rewrite lookup_insert_eq|].
  rewrite lookup_insert_ne by done. by apply Hw.
Qed.

Lemma put_session_keys dir y th t k :
  k ≠ session_meta_of dir → k ≠ session_thread_of dir → put_session dir y th t !! k = t !! k.
Proof. intros Hm Ht. unfold put_session, put_meta. by rewrite !lookup_insert_ne. Qed.

Lemma write_session_spec env p t :
  session_env_ok env →
  t !! session_meta_of (sp_rel_dir p) = Some (sp_old_meta p) →
  t !! session_thread_of (sp_rel_dir p) = Some (sp_old_thread p) →
  match write_session env p (clean t) with
  | (r, Ok _) => r = clean (put_session (sp_rel_dir p) (sp_new_meta p) (sp_new_thread p) t)
  | (r, Err _) => r = clean t
  | (_, Panicked) => False
  end.
Proof.
  intros Henv Hy Hth. destruct p as [dir m oy oth y th n]. cbn [sp_rel_dir sp_old_meta sp_old_thread sp_new_meta sp_new_thread] in *.
  unfold write_session. cbn [sp_rel_dir sp_old_meta sp_old_thread sp_new_meta sp_new_thread].
  unfold atomic_write_file at 1. unfold restore_files. cbn [r_work clean].
  rewrite (dir_exists t dir oy Hy). cbn [andb].
  destruct (se_meta_write_ok env) eqn:E1; unfold atomic_write_file at 1; cbn [andb negb].
  2: { apply restore_session; [done..|]. by eexists. }
  destruct (se_thread_write_ok env) eqn:E2; cbn [negb].
  2: { unfold write_work. cbn [r_work r_index r_head clean reset_paths is_empty]. apply restore_session; [done..| |].
       - intros k Hm _. by rewrite lookup_insert_ne.
       - rewrite lookup_insert_eq. by eexists. }
  pose proof (commit_or_reset env [session_meta_of dir; session_thread_of dir] (put_session dir y th t) t Henv
                ltac:(done) (put_session_other dir y th t)) as Hc.
  unfold write_work, clean. cbn [r_work r_index r_head]. fold (put_meta dir y t). fold (put_session dir y th t).
  destruct (add_and_commit_as _ _ _) as [r []]; cbn [negb]; [done|].
  rewrite Hc. apply restore_session; [done..| |].
  - apply put_session_keys.
  - unfold put_session. rewrite lookup_insert_ne by apply not_eq_sym, session_meta_ne_thread.
    unfold put_meta. rewrite lookup_insert_eq. by eexists.
Qed.

Lemma put_meta_back dir oy y t : t !! session_meta_of dir = Some oy → put_meta dir oy (put_meta dir y t) = t.
Proof. intros H. unfold put_meta. by rewrite insert_insert_eq, insert_id. Qed.

Lemma write_meta_spec env dir oy y t :
  session_env_ok env → t !! session_meta_of dir = Some oy →
  match write_meta env dir oy y (clean t) with
  | (r, Ok _) => r = clean (put_meta dir y t)
  | (r, Err _) => r = clean t
  | (_, Panicked) => False
  end.
Proof.
  intros Henv Hy. unfold write_meta, atomic_write_file. cbn [r_work clean]. rewrite (dir_exists t dir oy Hy). cbn [andb].
  destruct (se_meta_write_ok env) eqn:E1; cbn [negb]; [|done].
  pose proof (commit_or_reset env [session_meta_of dir] (put_meta dir y t) t Henv ltac:(done) (put_meta_other dir y t)) as Hc.
  unfold write_work, clean. cbn [r_work r_index r_head]. fold (put_meta dir y t).
  destruct (add_and_commit_as _ _ _) as [r []]; cbn [negb]; [done|].
  unfold restore_files. cbn [fold_left]. rewrite Hc. unfold atomic_write_file. cbn [r_work].
  rewrite put_meta_exists, (env_restore_meta _ Henv). cbn [andb fst]. unfold write_work. cbn [r_work r_index r_head].
  f_equal. by apply put_meta_back.
Qed.
(** The clone after a session has been moved and committed. *)
Definition move_put (source target y : str) (t : tree) : tree := move_tree source target (put_meta source y t).

Lemma apart_session_meta source target : apart source target → below target (session_meta_of source) = false.
Proof.
  intros Ha. pose proof (session_meta_below source) as [rest Hs]%below_true.
  apply strip_dir_None_below. eapply apart_below; eauto.
Qed.

Lemma put_meta_free source target y t :
  apart source target → path_exists t target = false → path_exists (put_meta source y t) target = false.
Proof. intros Ha Ht. unfold put_meta. by rewrite path_exists_insert by by apply apart_session_meta. Qed.

(** Moving and then writing the metadata is writing and then moving. *)
Lemma move_put_alt source target y t :
  apart source target → path_exists t target = false →
  move_put source target y t = put_meta target y (move_tree source target t).
Proof. intros Ha Ht. symmetry. apply insert_move; [|done..]. right. by eexists. Qed.

(** Staging the two target files stages the new metadata. *)
Lemma stage_move_put source target y t :
  apart source target → path_exists t target = false →
  sync_paths [session_meta_of target; session_thread_of target] (move_put source target y t) (move_tree source target t)
  = move_put source target y t.
Proof.
  intros Ha Ht. apply sync_paths_same. intros k Hk. rewrite move_put_alt by done.
  apply put_meta_other. unfold in_paths in *. cbn [existsb] in *. rewrite orb_false_r in *.
  by apply orb_false_iff in Hk as [-> _].
Qed.

Lemma put_back_spec env dir oy y i t :
  session_env_ok env → t !! session_meta_of dir = Some oy →
  (atomic_write_file (path_exists (put_meta dir y t) dir) (se_restore_meta_ok env) (session_meta_of dir) oy
     (MkRepo (put_meta dir y t) i t)).1 = MkRepo t i t.
Proof.
  intros Henv Hy. unfold atomic_write_file. rewrite put_meta_exists, (env_restore_meta _ Henv). cbn [andb fst].
  unfold write_work. cbn [r_work r_index r_head]. f_equal. by apply put_meta_back.
Qed.

(** After a failed commit the index holds the old or the new metadata at the target. *)
Lemma move_rollback env source target oy y t i :
  session_env_ok env → apart source target → path_exists t target = false → t !! session_meta_of source = Some oy →
  i = move_tree source target t ∨ i = move_put source target y t →
  reset_paths (se_reset env) [session_meta_of source; session_meta_of target; session_thread_of target]
    (mv (se_rollback env) target source (MkRepo (move_put source target y t) i t)).1
  = MkRepo (put_meta source y t) t t.
Proof.
  intros Henv Ha Ht Hy Hi. unfold mv.
  assert (∃ u, i = move_tree source target u ∧ path_exists u target = false ∧ path_exists u source = true
               ∧ ∀ k, k ≠ session_meta_of source → u !! k = t !! k) as (u & -> & Hut & Hus & Huk).
  { destruct Hi as [-> | ->].
    - exists t. split_and!; [done|done|by eapply dir_exists|done].
    - exists (put_meta source y t). split_and!; [done|by apply put_meta_free|apply put_meta_exists|].
      intros k Hk. by apply lookup_insert_ne. }
  destruct (env_rollback _ Henv target source (MkRepo (move_put source target y t) (move_tree source target u) t)) as [r' Hr'].
  { by apply path_exists_move. }
  { by apply path_exists_moved. }
  rewrite Hr'. cbn [fst]. apply git_mv_moves in Hr' as [_ Hr']. cbn [r_work r_index r_head] in Hr'. revert Hr'.
  unfold move_put. rewrite path_exists_moved by done. intros ->.
  rewrite !move_tree_back by (try done; by apply put_meta_free).
  apply reset_paths_spec; [done..|]. intros k Hk. apply Huk. intros ->. rewrite in_paths_self in Hk; set_solver.
Qed.

Lemma move_session_dir_spec env source target oy y t :
  session_env_ok env → apart source target → path_exists t target = false → t !! session_meta_of source = Some oy →
  match move_session_dir env source target oy y (clean t) with
  | (r, Ok _) => r = clean (move_put source target y t)
  | (r, Err _) => r = clean t
  | (_, Panicked) => False
  end.
Proof.
  intros Henv Ha Ht Hy. unfold move_session_dir. cbv zeta. cbn [r_work clean].
  rewrite (dir_exists t source oy Hy).
  destruct (se_meta_write_ok env); unfold atomic_write_file at 1; cbn [andb negb]; [|done].
  unfold write_work. cbn [r_work r_index r_head clean]. fold (put_meta source y t).
  destruct (se_mkdir_ok env); cbn [negb]; [|by apply put_back_spec].
  destruct (mv (se_mv env) source target _) as [r2 []] eqn:Emv; cbn [negb];
    [|apply mv_fail in Emv as ->; by apply put_back_spec].
  apply mv_spec in Emv; [|by apply put_meta_free]. subst r2. unfold moved. cbn [r_work r_index r_head].
  fold (move_put source target y t).
  destruct (add_and_commit_as _ _ _) as [r3 []] eqn:Eac; apply add_and_commit_spec in Eac; unfold stage in Eac;
    cbn [r_work r_index r_head] in Eac; rewrite stage_move_put in Eac by done; cbn [negb]; [done|].
  pose proof (λ i, move_rollback env source target oy y t i Henv Ha Ht Hy) as Hrb.
  assert (reset_paths (se_reset env) [session_meta_of source; session_meta_of target; session_thread_of target]
            (mv (se_rollback env) target source r3).1 = MkRepo (put_meta source y t) t t) as Hr.
  { destruct Eac as [-> | ->]; apply Hrb; auto. }
  destruct (mv (se_rollback env) target source r3) as [r4 ?]. cbn [fst] in Hr. rewrite Hr. by apply put_back_spec.
Qed.
End sessions.

Arguments MkSessionOutcome {_} _ _ _ _.
Arguments so_state {_} _.
Arguments so_event {_} _.
Arguments so_notified {_} _.
Arguments so_response {_} _.
