(* ===== verification/SessionStore.v ===== *)
(** * What the stored quick sessions satisfy

    The sessions in a clone the session handlers work on: metadata and thread of
    every session agree with each other and with the place of its directory, a
    request that fails leaves nothing behind, and repeated requests have no second
    effect. *)

From S2P Require Import Prelude RustStr StrFacts Names QuickSession Asset Links Thread Compliance Meta Daemon Git Cards.
From S2P Require Import SessionHandlers.
From stdpp Require Import options.
Open Scope N_scope.
Open Scope list_scope.

(** ** What a transition does to the lines and the status *)

Lemma transition_human_line m t m' :
  apply_transition m t = Ok (m', Applied) →
  match t with
  | HumanMessage actor line _ _ _ =>
      actor = qs_created_by m ∧ line ≠ 0 ∧ qs_last_human_line m' = Some line
      ∧ ∀ l, qs_last_human_line m = Some l → l < line
  | _ => qs_last_human_line m' = qs_last_human_line m
  end.
Proof.
  intros H. destruct t; open_arm H; clear Hrev; simpl; try done.
  - split_and!; [done..|]. intros l Hl. rewrite Hl in G2. by apply N.leb_gt in G2.
  - by case_match.
Qed.

Lemma transition_completed m t m' :
  apply_transition m t = Ok (m', Applied) →
  match t with
  | AgentReply actor input _ output _ _ =>
      actor = qs_agent_id m ∧ qs_last_completed_input_line m' = Some input ∧ qs_last_completed_line m' = Some output
  | _ => qs_last_completed_input_line m' = qs_last_completed_input_line m
         ∧ qs_last_completed_line m' = qs_last_completed_line m
  end.
Proof. intros H. destruct t; open_arm H; clear Hrev; simpl; try done; by case_match. Qed.

Lemma title_derived_live m : title_derived_status m ≠ Archived.
Proof. unfold title_derived_status. by case_match. Qed.

Lemma transition_place m t m' :
  session_ok m → apply_transition m t = Ok (m', Applied) →
  (qs_status m' = Archived ↔ ∃ actor now, t = Archive actor now).
Proof.
  intros Hm H. pose proof (title_derived_live m). destruct t; open_arm H; clear Hrev; simpl.
  all: try (split; [|by intros (? & ? & ?)]).
  - case_bool_decide; simpl; [done|]. done.
  - done.
  - destruct G0 as (_ & -> & _). done.
  - destruct G0 as (_ & -> & _). done.
  - done.
  - case_match; done.
  - intros _. eauto.
  - destruct Hm as [_ _ Ha _ _ _]. unfold archive_ok in Ha. rewrite G0 in Ha.
    destruct Ha as [_ Ha]. destruct (qs_archived_from m) as [[]|]; simpl; done.
Qed.

(** Archiving and restoring are never reported as repeated. *)
Lemma move_not_duplicate m (archive : bool) actor now m' l :
  apply_transition m (if archive then Archive actor now else Unarchive actor now) ≠ Ok (m', Duplicate l).
Proof.
  intros H. destruct archive; cbn [apply_transition] in H; unfold QuickSession.archive, unarchive in H.
  - do 2 apply try_Ok in H as [_ H]. by apply finish_applied_Ok in H as [? _].
  - do 2 apply try_Ok in H as [_ H]. cbv zeta in H. by apply finish_applied_Ok in H as [? _].
Qed.

Lemma log_wf_mono (users users' : gset str) known expected `{SJ : !SerdeJson} (es : list ThreadEntry) :
  users ⊆ users' → log_wf users known expected es → log_wf users' known expected es.
Proof.
  intros Hu. revert known expected. induction es as [|e es IH]; intros known expected; [done|]. cbn [log_wf].
  intros [(Hn & Ha & He) Hl]. split; [|by apply IH]. unfold entry_wf. split_and!; [done|by apply Hu|].
  destruct e as [m|ev]; [|done]. destruct He as (Hp & Hb & Hm). split_and!; [done..|].
  eapply Forall_impl; [exact Hm|]. intros h. apply Hu.
Qed.

(** An ASCII character is among the bytes of the text that holds it. *)
Lemma ascii_in_bytes c s : c < 128 → c ∈ s → c ∈ as_bytes s.
Proof.
  intros Hc Hin. unfold as_bytes. apply list_elem_of_In, in_flat_map. exists c.
  rewrite <-!list_elem_of_In. split; [done|]. unfold utf8_encode. rewrite (proj2 (N.ltb_lt _ _) Hc). by left.
Qed.

(** A valid session id is one path component. *)
Lemma sid_no_slash id : validate_quick_session_id id = Ok tt → slash ∉ id.
Proof.
  unfold validate_quick_session_id, validate_opaque_id. intros H Hin.
  destruct (strip_prefix QUICK_SESSION_ID_PREFIX id) as [v|] eqn:E; [|done]. apply strip_prefix_Some in E as ->.
  destruct (_ && _) eqn:Hv; [|done]. apply andb_true_iff in Hv as [_ Hv]. rewrite forallb_Forall, Forall_forall in Hv.
  apply elem_of_app in Hin as [Hin|Hin]; [vm_compute in Hin; set_solver|].
  by specialize (Hv _ (ascii_in_bytes slash v ltac:(done) Hin)).
Qed.

Lemma session_dirs_apart a b id id' :
  validate_quick_session_id id = Ok tt → validate_quick_session_id id' = Ok tt → (a, id) ≠ (b, id') →
  apart (session_dir a id) (session_dir b id').
Proof.
  intros H H' Hne. destruct a, b.
  3: by apply apart_head.
  2: by apply apart_head.
  all: apply apart_prefix, apart_names; [by apply sid_no_slash..|naive_solver].
Qed.

Section store.
Context `{UC : !Unicode} `{PE : !PercentEncoding} `{SJ : !SerdeJson}
        `{YQ : !Yaml QuickSessionMeta} `{GI : !Git}.

(** ** Metadata and thread agree

    The session [id] stored in the active place or in the archive: valid metadata
    under its own id; archived exactly when it is in the archive; a thread numbered
    from 1, written by the creator and the agent, replying only backwards; the
    newest line of the creator is the one the metadata names, and the answer the
    metadata names is a message of the agent to the line it answered. *)
Record consistent (users : list str) (archived : bool) (id : str) (m : QuickSessionMeta) (es : list ThreadEntry)
  : Prop := {
  con_valid : session_ok m;
  con_id : qs_id m = id;
  con_place : qs_status m = Archived ↔ archived = true;
  con_log : log_wf (list_to_set users) ∅ 1 es;
  con_senders : Forall (sender_ok [qs_created_by m; qs_agent_id m]) es;
  con_newest : newest_creator_line (qs_created_by m) es = qs_last_human_line m;
  con_answer : ∀ i l, qs_last_completed_input_line m = Some i → qs_last_completed_line m = Some l →
    ∃ msg, EntryMessage msg ∈ es ∧ m_line_number msg = l ∧ m_point_to msg = i
           ∧ handler_str (m_author msg) = qs_agent_id m;
}.

Lemma newest_creator_line_snoc creator es e :
  newest_creator_line creator (es ++ [e]) =
  match e with
  | EntryMessage m =>
      if handler_str (m_author m) =?? creator then max_line (newest_creator_line creator es) (m_line_number m)
      else newest_creator_line creator es
  | EntryEvent _ => newest_creator_line creator es
  end.
Proof.
  unfold newest_creator_line. rewrite omap_app, fold_left_app. destruct e as [m|ev]; [|done]. cbn.
  by case_bool_decide.
Qed.

(** A transition that writes no message. *)
Definition silent (t : QuickSessionTransition) : bool :=
  match t with HumanMessage _ _ _ _ _ | AgentReply _ _ _ _ _ _ => false | _ => true end.

Definition archives (t : QuickSessionTransition) : bool := match t with Archive _ _ => true | _ => false end.

Lemma archives_true t : archives t = true ↔ ∃ actor now, t = Archive actor now.
Proof. destruct t; naive_solver. Qed.

Lemma consistent_silent users archived id m es t m' :
  consistent users archived id m es → apply_transition m t = Ok (m', Applied) → silent t = true →
  consistent users (archives t) id m' es.
Proof.
  intros [Hv Hid Hpl Hlog Hs Hn Ha] Ht Hsil.
  pose proof (apply_transition_frame _ _ _ Ht) as (Hi & Hag & Hcr & _).
  pose proof (transition_human_line _ _ _ Ht) as Hh. pose proof (transition_completed _ _ _ Ht) as Hc.
  constructor; rewrite ?Hi, ?Hag, ?Hcr; try done.
  - by eapply apply_transition_ok.
  - by rewrite archives_true, (transition_place m t m').
  - by destruct t; rewrite ?Hh.
  - destruct t; try done; destruct Hc as [-> ->]; done.
Qed.

(** The message a transition goes with. *)
Definition carries (m : QuickSessionMeta) (t : QuickSessionTransition) (msg : Message) : Prop :=
  match t with
  | HumanMessage actor line _ _ _ => handler_str (m_author msg) = actor ∧ m_line_number msg = line
  | AgentReply actor input _ output _ _ =>
      handler_str (m_author msg) = actor ∧ m_line_number msg = output ∧ m_point_to msg = input
      ∧ actor ≠ qs_created_by m
  | _ => False
  end.

Lemma consistent_message users id m es t m' msg :
  consistent users false id m es → apply_transition m t = Ok (m', Applied) → carries m t msg →
  log_wf (list_to_set users) (log_lines es) (log_next 1 es) [EntryMessage msg] →
  sender_ok [qs_created_by m; qs_agent_id m] (EntryMessage msg) →
  consistent users false id m' (es ++ [EntryMessage msg]).
Proof.
  intros [Hv Hid Hpl Hlog Hs Hn Ha] Ht Hcar Hmsg Hsend.
  pose proof (apply_transition_frame _ _ _ Ht) as (Hi & Hag & Hcr & _).
  pose proof (transition_human_line _ _ _ Ht) as Hh. pose proof (transition_completed _ _ _ Ht) as Hc.
  constructor; rewrite ?Hi, ?Hag, ?Hcr; try done.
  - by eapply apply_transition_ok.
  - rewrite (transition_place m t m') by done. split; [|done]. intros (? & ? & ->). done.
  - rewrite log_wf_app. split; [done|]. by rewrite (right_id_L ∅ (∪)).
  - apply Forall_app. auto.
  - rewrite newest_creator_line_snoc, Hn. destruct t; try done.
    + destruct Hcar as [-> ->], Hh as (-> & _ & -> & Hlt). rewrite bool_decide_eq_true_2 by done.
      unfold max_line. destruct (qs_last_human_line m) as [l|]; [|done]. specialize (Hlt l eq_refl). f_equal. lia.
    + destruct Hcar as (-> & _ & _ & Hne). by rewrite bool_decide_eq_false_2, Hh.
  - intros i l Hil Hl. destruct t; try done.
    + destruct Hc as [Hc1 Hc2]. rewrite Hc1 in Hil. rewrite Hc2 in Hl.
      destruct (Ha i l Hil Hl) as (msg' & Hin & ?). exists msg'. split; [|done]. apply elem_of_app. by left.
    + destruct Hc as (Hact & Hc1 & Hc2). simplify_eq. destruct Hcar as (Hau & Hl' & Hp & _). exists msg.
      split_and!; [|congruence..]. apply elem_of_app. right. by left.
Qed.

(** ** The store *)

Definition stored (users : list str) (t : tree) (archived : bool) (id : str) (m : QuickSessionMeta)
  (es : list ThreadEntry) : Prop :=
  (t !! session_meta_of (session_dir archived id) ≫= yaml_from_str) = Some m
  ∧ (∃ th, t !! session_thread_of (session_dir archived id) = Some th ∧ complete_file th
           ∧ parse_thread th = Ok (MkThreadFile es))
  ∧ consistent users archived id m es.

(** Every session directory holds a consistent session, in one place. *)
Definition tree_ok (users : list str) (t : tree) : Prop :=
  (∀ archived id, validate_quick_session_id id = Ok tt → path_exists t (session_dir archived id) = true →
     ∃ m es, stored users t archived id m es)
  ∧ (∀ id, validate_quick_session_id id = Ok tt → path_exists t (session_dir false id) = true →
       path_exists t (session_dir true id) = false).

Definition state_ok (d : GDaemon) : Prop := ∃ t, g_repo d = clean t ∧ tree_ok (g_users d) t.

Lemma stored_ext users t t' archived id m es :
  (∀ k, below (session_dir archived id) k = true → t' !! k = t !! k) →
  stored users t archived id m es → stored users t' archived id m es.
Proof.
  intros Hk (Hm & (th & Hth & Hc) & Hcon). split_and!; [|exists th; split; [|done]|done].
  - by rewrite Hk by apply session_meta_below.
  - by rewrite Hk by apply session_thread_below.
Qed.

Lemma path_exists_ext t t' p : (∀ k, below p k = true → t' !! k = t !! k) → path_exists t' p = path_exists t p.
Proof.
  intros Hk. apply eq_iff_eq_true. rewrite !path_exists_true.
  split; intros (k & v & rest & Hv & Hs); exists k, v, rest; split; try done.
  - rewrite <-Hk; [done|]. apply below_true. by eexists.
  - rewrite Hk; [done|]. apply below_true. by eexists.
Qed.

(** Changing one session keeps the others. *)
Lemma tree_ok_update users t t' archived id m es :
  tree_ok users t → validate_quick_session_id id = Ok tt →
  (∀ k, below (session_dir false id) k = false → below (session_dir true id) k = false → t' !! k = t !! k) →
  path_exists t' (session_dir (negb archived) id) = false →
  stored users t' archived id m es → tree_ok users t'.
Proof.
  intros [Hall Huniq] Hid Hk Hfree Hst.
  assert (Hother : ∀ a id', validate_quick_session_id id' = Ok tt → id' ≠ id →
            ∀ k, below (session_dir a id') k = true → t' !! k = t !! k).
  { intros a id' Hid' Hne k Hb. apply Hk; (eapply apart_not_below; [|exact Hb]);
      apply session_dirs_apart; try done; naive_solver. }
  split.
  - intros a id' Hid' Hex. destruct (decide (id' = id)) as [->|Hne].
    + destruct (decide (a = archived)) as [->|Ha]; [by exists m, es|].
      replace (negb archived) with a in Hfree by by destruct a, archived. congruence.
    + rewrite (path_exists_ext t t') in Hex by by apply Hother.
      destruct (Hall a id' Hid' Hex) as (m' & es' & Hst'). exists m', es'.
      eapply stored_ext; [by apply Hother|done].
  - intros id' Hid' Hex. destruct (decide (id' = id)) as [->|Hne].
    + destruct archived; cbn [negb] in Hfree; congruence.
    + rewrite (path_exists_ext t t') in Hex |- * by by apply Hother. by apply Huniq.
Qed.
(** ** What the reads find *)

Lemma session_rel_dir_Ok id archived rel :
  session_rel_dir id archived = Ok rel ↔ validate_quick_session_id id = Ok tt ∧ rel = session_dir archived id.
Proof. unfold session_rel_dir. rewrite try_Ok, map_err_Ok. naive_solver. Qed.

Section found.
Context (d : GDaemon) (t : tree) (Hrepo : g_repo d = clean t) (Hok : tree_ok (g_users d) t).

Lemma meta_file_exists archived id :
  validate_quick_session_id id = Ok tt →
  exists_file (as_daemon d) (session_meta_of (session_dir archived id)) = path_exists t (session_dir archived id).
Proof using Hrepo Hok.
  intros Hid. unfold exists_file, as_daemon. cbn [d_files]. rewrite Hrepo. cbn [clean r_work].
  destruct (t !! _) as [y|] eqn:E; cbn [is_some]; [by rewrite (dir_exists _ _ y)|].
  destruct (path_exists t _) eqn:Hp; [|done].
  destruct (proj1 Hok archived id Hid Hp) as (m & es & Hm & _). by rewrite E in Hm.
Qed.

Lemma locate_session_Ok id o :
  locate_session d id = Ok o →
  validate_quick_session_id id = Ok tt ∧
  match o with
  | Some loc => lq_rel_dir loc = session_dir (lq_archived loc) id
                ∧ path_exists t (session_dir (negb (lq_archived loc)) id) = false
                ∧ ∃ m es, stored (g_users d) t (lq_archived loc) id m es
  | None => ∀ a, path_exists t (session_dir a id) = false
  end.
Proof using Hrepo Hok.
  unfold locate_session. intros H. apply res_bind_Ok in H as (a & [Hid ->]%session_rel_dir_Ok & H).
  apply res_bind_Ok in H as (b & [_ ->]%session_rel_dir_Ok & [= <-]). split; [done|].
  rewrite !meta_file_exists by done. destruct (path_exists t (session_dir false id)) eqn:E1.
  - cbn [lq_rel_dir lq_archived negb]. split_and!; [done|by apply (proj2 Hok)|by apply (proj1 Hok)].
  - destruct (path_exists t (session_dir true id)) eqn:E2; [|by intros []].
    cbn [lq_rel_dir lq_archived negb]. split_and!; [done..|by apply (proj1 Hok)].
Qed.

Lemma locate_active_Ok id loc :
  locate_active d id = Ok loc →
  validate_quick_session_id id = Ok tt ∧ lq_rel_dir loc = session_dir false id
  ∧ path_exists t (session_dir true id) = false ∧ ∃ m es, stored (g_users d) t false id m es.
Proof using Hrepo Hok.
  unfold locate_active. intros H. apply res_bind_Ok in H as (o & [Hid Ho]%locate_session_Ok & H).
  destruct o as [l|]; [|done]. destruct (lq_archived l) eqn:E; simplify_eq. done.
Qed.

Lemma load_meta_Ok env loc archived id m es m' :
  stored (g_users d) t archived id m es → lq_rel_dir loc = session_dir archived id →
  load_meta env d loc = Ok m' → m' = m.
Proof using Hrepo.
  intros (Hm & _) Hrel. unfold load_meta, read_session_file. rewrite Hrel, Hrepo. cbn [clean r_work].
  intros H. run_ok H. case_match; [|done]. rewrite E in Hm. simpl in Hm. congruence.
Qed.

Lemma load_thread_Ok env loc archived id m es th es' :
  stored (g_users d) t archived id m es → lq_rel_dir loc = session_dir archived id →
  load_thread env d loc = Ok (th, es') →
  es' = es ∧ t !! session_thread_of (session_dir archived id) = Some th ∧ complete_file th
  ∧ parse_thread th = Ok (MkThreadFile es).
Proof using Hrepo.
  intros (_ & (th0 & Hth & Hc & Hp) & _) Hrel. unfold load_thread, read_session_file. rewrite Hrel, Hrepo. cbn [clean r_work].
  intros H. run_ok H. case_match; [|done]. rewrite Hth in E. simplify_eq. by rewrite Hp in E0; simplify_eq.
Qed.

Lemma reread_meta_Ok env rel y : reread_meta env d rel = Ok y → t !! session_meta_of rel = Some y.
Proof using Hrepo. unfold reread_meta. rewrite ok_or_Ok, Hrepo. by case_match. Qed.

(** The state machine's answer for a stored session. *)
Lemma stored_transition archived id m es tr m' r :
  stored (g_users d) t archived id m es → apply_quick_session_transition m tr = (m', r) →
  match r with
  | Ok Applied => apply_transition m tr = Ok (m', Applied)
  | Ok (Duplicate l) => apply_transition m tr = Ok (m, Duplicate l) ∧ m' = m
  | Err e => apply_transition m tr = Err e ∧ m' = m
  | Panicked => apply_transition m tr = Panicked
  end.
Proof.
  intros (_ & _ & Hcon) H. rewrite apply_valid in H by apply (con_valid _ _ _ _ _ Hcon).
  destruct (apply_transition m tr) as [[m1 [|l]]|e|] eqn:E; simplify_eq; try done.
  by apply apply_transition_duplicate in E as ->.
Qed.

Lemma ensure_active_user_Ok h role hd :
  ensure_active_user d h role = Ok hd → hd = MkHandler h ∧ Handler_new h = Ok (MkHandler h).
Proof.
  unfold ensure_active_user. intros H. run_ok H. pose proof (Handler_new_str _ _ E) as Hs. destruct hd. by simplify_eq/=.
Qed.

(** A handler's message appended to a stored thread. *)
Lemma append_stored n p h ts body th es allowed :
  n ≤ u64_MAX → p ≤ u64_MAX → Handler_new h = Ok (MkHandler h) → is_timestamp ts = true →
  complete_file th → parse_thread th = Ok (MkThreadFile es) →
  validate_append th (format_message n p (MkHandler h) ts body) (g_users d) allowed = Ok tt →
  let msg := EntryMessage (stored_message n p (MkHandler h) ts body) in
  parse_thread (th ++ format_message n p (MkHandler h) ts body) = Ok (MkThreadFile (es ++ [msg]))
  ∧ complete_file (th ++ format_message n p (MkHandler h) ts body)
  ∧ log_wf (list_to_set (g_users d)) (log_lines es) (log_next 1 es) [msg] ∧ sender_ok allowed msg.
Proof.
  intros Hn Hp Hh Hts Hc Hth (f & g & Hf & Hg & Hl & Hs)%validate_append_spec msg.
  assert (known_author (MkHandler h)) as Ha by by right.
  pose proof (message_single _ _ _ _ _ _ Hn Hp Ha Hts Hg) as Hsingle.
  rewrite Hth in Hf. simplify_eq/=. rewrite Hsingle in Hl, Hs. apply Forall_cons in Hs as [Hs _].
  split; [|split; [|by split]].
  - rewrite (parse_thread_app _ _ (MkThreadFile es) g) by done. by rewrite Hsingle.
  - apply complete_app, format_message_ends.
Qed.
End found.

(** ** Sending *)

Lemma send_transition_carries m author body reply_to rid att n now :
  carries m (send_transition m author body reply_to rid att n now)
    (stored_message n (unwrap_or reply_to 0) (MkHandler author) now body).
Proof. unfold send_transition. case_bool_decide; simpl; done. Qed.

(** The session a plan found, and what it is about to write. *)
Record plan_ok (env : SessionEnv) (d : GDaemon) (t : tree) (id body : str) (reply_to : option N)
  (rid att : option str) (author : str) (p : SendPlan) (m : QuickSessionMeta) (es : list ThreadEntry) : Prop := {
  pl_id : validate_quick_session_id id = Ok tt;
  pl_dir : sp_rel_dir p = session_dir false id;
  pl_free : path_exists t (session_dir true id) = false;
  pl_stored : stored (g_users d) t false id m es;
  pl_old_meta : t !! session_meta_of (session_dir false id) = Some (sp_old_meta p);
  pl_old_thread : t !! session_thread_of (session_dir false id) = Some (sp_old_thread p);
  pl_line : sp_line p = log_next 1 es;
  pl_step : apply_transition m (send_transition m author body reply_to rid att (sp_line p) (se_now env))
            = Ok (sp_meta p, Applied);
  pl_new : stored (g_users d) (put_session (session_dir false id) (sp_new_meta p) (sp_new_thread p) t) false id (sp_meta p)
             (es ++ [EntryMessage (stored_message (sp_line p) (unwrap_or reply_to 0) (MkHandler author) (se_now env) body)]);
}.

Lemma stored_put_session users t archived id y th m es :
  yaml_from_str y = Some m → complete_file th → parse_thread th = Ok (MkThreadFile es) →
  consistent users archived id m es →
  stored users (put_session (session_dir archived id) y th t) archived id m es.
Proof.
  intros Hy Hc Hth Hcon. unfold stored, put_session, put_meta. split_and!; [|exists th; split; [|done]|done].
  - rewrite lookup_insert_ne by apply not_eq_sym, session_meta_ne_thread. by rewrite lookup_insert_eq.
  - by rewrite lookup_insert_eq.
Qed.

Lemma log_next_le es : log_next 1 es ≤ u64_MAX.
Proof. unfold log_next. destruct (last es); [apply wrapping_add_le|done]. Qed.

Lemma prepare_send_plan env d t id body reply_to rid att author p :
  g_repo d = clean t → tree_ok (g_users d) t → session_env_ok env → unwrap_or reply_to 0 ≤ u64_MAX →
  prepare_session_send env d id body reply_to rid att author = Ok (inr p) →
  ∃ m es, plan_ok env d t id body reply_to rid att author p m es.
Proof.
  intros Hrepo Hok Henv Hreply H. unfold prepare_session_send in H.
  apply try_Ok in H as [_ H]. apply res_bind_Ok in H as (hd & [-> Hh]%ensure_active_user_Ok & H).
  apply try_Ok in H as [_ H]. apply res_bind_Ok in H as (loc & Hloc & H).
  destruct (locate_active_Ok d t Hrepo Hok _ _ Hloc) as (Hid & Hrel & Hfree & m & es & Hst).
  apply res_bind_Ok in H as (m1 & Hm1 & H). pose proof (load_meta_Ok d t Hrepo _ _ _ _ _ _ _ Hst Hrel Hm1) as ->.
  apply res_bind_Ok in H as ([th es1] & Hth & H).
  destruct (load_thread_Ok d t Hrepo _ _ _ _ _ _ _ _ Hst Hrel Hth) as (-> & Hthr & Hc & Hparse).
  apply try_Ok in H as [_ H]. cbv zeta in H.
  change (match last es with Some e => wrapping_add (entry_line_number e) 1 | None => 1 end) with (log_next 1 es) in H.
  destruct (apply_quick_session_transition m _) as [m2 r] eqn:Htr.
  pose proof (stored_transition d t _ _ _ _ _ _ _ Hst Htr) as Hstep.
  apply res_bind_Ok in H as (o & [= ->]%map_err_Ok & H). destruct o as [|l]; [|done].
  apply try_Ok in H as [Hv H]. rewrite map_err_Ok in Hv.
  apply res_bind_Ok in H as (y & [= Hy]%ok_or_Ok & H). apply res_bind_Ok in H as (oy & Hoy & [= <-]).
  apply (reread_meta_Ok d t Hrepo) in Hoy. rewrite Hrel in Hoy.
  destruct Hst as (Hmt & Hths & Hcon).
  destruct (apply_transition_frame _ _ _ Hstep) as (_ & Hag & Hcr & _).
  destruct (append_stored d _ _ _ _ _ _ _ _ (log_next_le es) Hreply Hh (env_clock _ Henv) Hc Hparse Hv)
    as (Hp' & Hc' & Hl' & Hs').
  exists m, es. constructor; cbn [sp_rel_dir sp_meta sp_old_meta sp_old_thread sp_new_meta sp_new_thread sp_line]; try done.
  apply stored_put_session; [by apply yaml_roundtrip|done..|].
  eapply consistent_message; [done|done|apply send_transition_carries|done|by rewrite <-Hag, <-Hcr].
Qed.
Lemma tree_ok_put_session users t id y th m es :
  tree_ok users t → validate_quick_session_id id = Ok tt → path_exists t (session_dir true id) = false →
  stored users (put_session (session_dir false id) y th t) false id m es →
  tree_ok users (put_session (session_dir false id) y th t).
Proof.
  intros Hok Hid Hfree Hst. eapply tree_ok_update; [done|done| | |done].
  - intros k Hk _. by apply put_session_outside.
  - cbn [negb]. rewrite (path_exists_ext t); [done|]. intros k Hk. apply put_session_outside.
    eapply apart_not_below; [|done]. by apply session_dirs_apart.
Qed.

(** What a send leaves: the state it found, or the session with one more message. *)
Lemma send_effect env d t id body reply_to rid att author :
  g_repo d = clean t → tree_ok (g_users d) t → session_env_ok env → unwrap_or reply_to 0 ≤ u64_MAX →
  let o := handle_send_quick_session_message env d id body reply_to rid att author in
  match prepare_session_send env d id body reply_to rid att author, so_response o with
  | Ok (inr p), Ok resp =>
      so_state o = push_pending env id (sp_line p)
                     (with_repo d (clean (put_session (sp_rel_dir p) (sp_new_meta p) (sp_new_thread p) t)))
      ∧ so_event o = Some (emit_changed (sp_meta p))
      ∧ resp = MkSendSessionResponse id (sp_line p) (qs_status (sp_meta p)) (qs_revision (sp_meta p)) (ref_string (sp_meta p))
  | Ok (inl answer), r => r = Ok answer ∧ so_state o = d ∧ so_event o = None
  | _, Ok _ => False
  | _, _ => so_state o = d ∧ so_event o = None
  end.
Proof.
  intros Hrepo Hok Henv Hreply o. subst o. unfold handle_send_quick_session_message.
  destruct (prepare_session_send _ _ _ _ _ _ _ _) as [[answer|p]|e|] eqn:Hprep; cbn [or_return returns so_response so_state so_event];
    [done| |done|done].
  destruct (prepare_send_plan _ _ _ _ _ _ _ _ _ _ Hrepo Hok Henv Hreply Hprep) as (m & es & Hp).
  pose proof (write_session_spec env p t Henv) as Hw. rewrite (pl_dir _ _ _ _ _ _ _ _ _ _ _ _ Hp) in Hw.
  specialize (Hw (pl_old_meta _ _ _ _ _ _ _ _ _ _ _ _ Hp) (pl_old_thread _ _ _ _ _ _ _ _ _ _ _ _ Hp)).
  rewrite Hrepo. rewrite (pl_dir _ _ _ _ _ _ _ _ _ _ _ _ Hp). destruct (write_session env p (clean t)) as [r [[]|e|]]; [|subst r|done].
  - subst r. cbn [or_return so_response so_state so_event]. done.
  - cbn [or_return returns so_response so_state so_event]. rewrite <-Hrepo. by rewrite with_repo_same.
Qed.

Lemma push_pending_repo env id n d : g_repo (push_pending env id n d) = g_repo d ∧ g_users (push_pending env id n d) = g_users d.
Proof. unfold push_pending. by destruct (se_head env). Qed.

Lemma send_keeps env d id body reply_to rid att author :
  state_ok d → session_env_ok env → unwrap_or reply_to 0 ≤ u64_MAX →
  state_ok (so_state (handle_send_quick_session_message env d id body reply_to rid att author)).
Proof.
  intros (t & Hrepo & Hok) Henv Hreply. assert (state_ok d) as Hd by by exists t.
  pose proof (send_effect env d t id body reply_to rid att author Hrepo Hok Henv Hreply) as He. cbv zeta in He.
  destruct (prepare_session_send _ _ _ _ _ _ _ _) as [[answer|p]|e|] eqn:Hprep.
  - by destruct He as (_ & -> & _).
  - destruct (so_response _); [|by destruct He as [-> _]..]. destruct He as [-> _].
    destruct (prepare_send_plan _ _ _ _ _ _ _ _ _ _ Hrepo Hok Henv Hreply Hprep) as (m & es & Hp).
    destruct (push_pending_repo env id (sp_line p)
      (with_repo d (clean (put_session (sp_rel_dir p) (sp_new_meta p) (sp_new_thread p) t)))) as [Hr Hu].
    eexists. split; [exact Hr|]. rewrite Hu. rewrite (pl_dir _ _ _ _ _ _ _ _ _ _ _ _ Hp). cbn [with_repo g_users].
    eapply tree_ok_put_session; [done|apply Hp..].
  - destruct (so_response _); [done|by destruct He as [-> _]..].
  - destruct (so_response _); [done|by destruct He as [-> _]..].
Qed.

(** ** Creating *)

Record created_ok (env : SessionEnv) (d : GDaemon) (t : tree) (id agent first author : str)
  (rel y th : str) (m : QuickSessionMeta) : Prop := {
  cr_dir : rel = session_dir false id;
  cr_yaml : yaml_to_string m = Some y;
  cr_thread : th = format_message 1 0 (MkHandler author) (se_now env) first;
  cr_meta : qs_id m = id ∧ qs_agent_id m = agent ∧ qs_created_by m = author;
  cr_parse : parse_thread th = Ok (MkThreadFile [EntryMessage (stored_message 1 0 (MkHandler author) (se_now env) first)]);
  cr_stored : stored (g_users d) (put_session (session_dir false id) y th t) false id m
                [EntryMessage (stored_message 1 0 (MkHandler author) (se_now env) first)];
}.

Lemma consistent_new users id agent author now :
  session_ok (QuickSessionMeta_new id agent author now) →
  consistent users false id (QuickSessionMeta_new id agent author now) [].
Proof. intros H. by constructor. Qed.

Lemma prepare_create_Ok env d t id agent first author rel m y th :
  session_env_ok env → Handler_new author = Ok (MkHandler author) →
  prepare_create_session env d (MkHandler author) id agent first author = Ok (rel, m, y, th) →
  created_ok env d t id agent first author rel y th m.
Proof.
  intros Henv Hh H. unfold prepare_create_session in H. cbv zeta in H.
  destruct (apply_quick_session_transition _ _) as [m1 r] eqn:Htr.
  apply res_bind_Ok in H as (o & [= ->]%map_err_Ok & H). apply try_Ok in H as [Hv H]. rewrite map_err_Ok in Hv.
  apply res_bind_Ok in H as (y1 & [= Hy]%ok_or_Ok & H). apply res_bind_Ok in H as (rel1 & [Hid ->]%session_rel_dir_Ok & [= <- <- <- <-]).
  assert (Happ : o = Applied).
  { revert Htr. unfold apply_quick_session_transition. repeat case_match; intros; simplify_eq; try done.
    exfalso. match goal with H : apply_transition _ _ = Ok (_, Duplicate _) |- _ => revert H end.
    unfold apply_transition, human_message. simpl. unfold require_creator, finish_applied. simpl. by rewrite bool_decide_eq_true_2. }
  subst o. apply apply_Applied in Htr as [Hnew Htr].
  destruct (append_stored d 1 0 author (se_now env) first [] [] [author; agent]) as (Hp & Hc & Hl & Hs);
    [done|done|done|apply Henv|by left|done|exact Hv|].
  cbn [app] in Hp, Hc. pose proof (apply_transition_frame _ _ _ Htr) as (Hi & Hag & Hcr & _).
  constructor; try done. apply stored_put_session; [by apply yaml_roundtrip|done..|].
  change [EntryMessage ?x] with ([] ++ [EntryMessage x]).
  eapply consistent_message; [by apply consistent_new|exact Htr|done|done|done].
Qed.

Lemma check_create_Ok d id agent first author hd b :
  check_create d id agent first author = Ok (hd, b) →
  validate_quick_session_id id = Ok tt ∧ hd = MkHandler author ∧ Handler_new author = Ok (MkHandler author)
  ∧ canonical_message_body (MkHandler author) first = Ok b.
Proof.
  unfold check_create. intros H. apply try_Ok in H as [_ H]. apply try_Ok in H as [Hid H]. rewrite map_err_Ok in Hid.
  apply res_bind_Ok in H as (h & [-> Hh]%ensure_active_user_Ok & H). apply try_Ok in H as [_ H].
  apply res_bind_Ok in H as (? & _ & H). by apply res_bind_Ok in H as (b' & Hb & [= <- <-]).
Qed.

Lemma create_effect env d t id agent first author :
  g_repo d = clean t → tree_ok (g_users d) t → session_env_ok env →
  let o := handle_create_quick_session env d id agent first author in
  (so_state o = d ∧ so_event o = None
   ∧ (is_ok (so_response o) = true → ∃ loc, locate_session d id = Ok (Some loc)))
  ∨ ∃ b rel m y th, check_create d id agent first author = Ok (MkHandler author, b)
      ∧ locate_session d id = Ok None ∧ validate_quick_session_id id = Ok tt ∧ (∀ a, path_exists t (session_dir a id) = false)
      ∧ created_ok env d t id agent b author rel y th m
      ∧ so_state o = push_pending env id 1 (with_repo d (clean (put_session rel y th t)))
      ∧ so_event o = Some (emit_changed m)
      ∧ so_response o = Ok (MkCreateSessionResponse (MkDetail m (thread_entries th) false) 1 (ref_string m)).
Proof.
  intros Hrepo Hok Henv o. subst o. unfold handle_create_quick_session.
  destruct (check_create d id agent first author) as [[hd b]|e|] eqn:Hc; cbn [or_return returns so_state so_event so_response];
    [|by left..].
  destruct (check_create_Ok _ _ _ _ _ _ _ Hc) as (Hid & -> & Hh & Hb).
  destruct (locate_session d id) as [[loc|]|e|] eqn:Hl; cbn [or_return returns so_state so_event so_response];
    [left; eauto| |by left..].
  destruct (locate_session_Ok d t Hrepo Hok _ _ Hl) as [_ Hfree].
  destruct (prepare_create_session _ _ _ _ _ _ _) as [[[[rel m] y] th]|e|] eqn:Hp;
    cbn [or_return returns so_state so_event so_response]; [|by left..].
  pose proof (prepare_create_Ok env d t _ _ _ _ _ _ _ _ Henv Hh Hp) as Hcr.
  pose proof (write_new_session_spec env rel y th t Henv) as Hw. rewrite (cr_dir _ _ _ _ _ _ _ _ _ _ _ Hcr) in Hw.
  specialize (Hw (Hfree false)). rewrite Hrepo. rewrite (cr_dir _ _ _ _ _ _ _ _ _ _ _ Hcr) in Hp |- *.
  destruct (write_new_session env _ y th (clean t)) as [r [[]|e|]]; [|left|done].
  - subst r. right. rewrite (cr_dir _ _ _ _ _ _ _ _ _ _ _ Hcr) in Hcr. by exists b, (session_dir false id), m, y, th.
  - subst r. cbn [or_return returns so_state so_event so_response]. rewrite <-Hrepo. by rewrite with_repo_same.
Qed.

Lemma create_keeps env d id agent first author :
  state_ok d → session_env_ok env → state_ok (so_state (handle_create_quick_session env d id agent first author)).
Proof.
  intros (t & Hrepo & Hok) Henv. pose proof (create_effect env d t id agent first author Hrepo Hok Henv) as He.
  cbv zeta in He. destruct He as [(-> & _)|(b & rel & m & y & th & _ & _ & Hid & Hfree & Hcr & -> & _)]; [by exists t|].
  destruct (push_pending_repo env id 1 (with_repo d (clean (put_session rel y th t)))) as [Hr Hu].
  eexists. split; [exact Hr|]. rewrite Hu, (cr_dir _ _ _ _ _ _ _ _ _ _ _ Hcr). cbn [with_repo g_users].
  eapply tree_ok_put_session; [done|done|done|apply Hcr].
Qed.
(** ** Changing the metadata alone *)

Lemma tree_ok_put_meta users t id y m es m' tr :
  tree_ok users t → validate_quick_session_id id = Ok tt → path_exists t (session_dir true id) = false →
  stored users t false id m es → yaml_from_str y = Some m' → apply_transition m tr = Ok (m', Applied) →
  silent tr = true → archives tr = false →
  tree_ok users (put_meta (session_dir false id) y t)
  ∧ stored users (put_meta (session_dir false id) y t) false id m' es.
Proof.
  intros Hok Hid Hfree (Hm & (th & Hth & Hc) & Hcon) Hy Htr Hs Ha.
  assert (Hst : stored users (put_meta (session_dir false id) y t) false id m' es).
  { unfold stored, put_meta. split_and!; [by rewrite lookup_insert_eq|exists th; split; [|done]|].
    - by rewrite lookup_insert_ne by apply session_meta_ne_thread.
    - rewrite <-Ha. by eapply consistent_silent. }
  split; [|done]. eapply tree_ok_update; [done|done| | |exact Hst].
  - intros k Hk _. by apply put_meta_outside.
  - cbn [negb]. rewrite (path_exists_ext t); [done|]. intros k Hk. apply put_meta_outside.
    eapply apart_not_below; [|done]. by apply session_dirs_apart.
Qed.

Lemma prepare_meta_Ok env d t id tr rel m' change :
  g_repo d = clean t → tree_ok (g_users d) t →
  prepare_meta_transition env d id tr = Ok (rel, m', change) →
  validate_quick_session_id id = Ok tt ∧ rel = session_dir false id ∧ path_exists t (session_dir true id) = false
  ∧ ∃ m es, stored (g_users d) t false id m es ∧
    match change with
    | None => m' = m ∧ ∃ l, apply_transition m tr = Ok (m, Duplicate l)
    | Some (oy, y) => t !! session_meta_of rel = Some oy ∧ yaml_from_str y = Some m'
                      ∧ apply_transition m tr = Ok (m', Applied)
    end.
Proof.
  intros Hrepo Hok H. unfold prepare_meta_transition in H.
  apply res_bind_Ok in H as (loc & Hloc & H).
  destruct (locate_active_Ok d t Hrepo Hok _ _ Hloc) as (Hid & Hrel & Hfree & m & es & Hst).
  apply res_bind_Ok in H as (m1 & Hm1 & H). pose proof (load_meta_Ok d t Hrepo _ _ _ _ _ _ _ Hst Hrel Hm1) as ->.
  apply res_bind_Ok in H as (oy & Hoy & H). apply (reread_meta_Ok d t Hrepo) in Hoy.
  destruct (apply_quick_session_transition m tr) as [m2 r] eqn:Htr.
  pose proof (stored_transition d t _ _ _ _ _ _ _ Hst Htr) as Hstep.
  apply res_bind_Ok in H as (o & [= ->]%map_err_Ok & H). destruct o as [|l].
  - apply res_bind_Ok in H as (y & [= Hy]%ok_or_Ok & [= <- <- <-]). split_and!; [done..|].
    exists m, es. split_and!; [done..|by apply yaml_roundtrip|done].
  - injection H as <- <- <-. destruct Hstep as [Hstep ->]. split_and!; [done..|]. exists m, es. eauto.
Qed.

Lemma meta_effect {A} env d t id tr (response : QuickSessionMeta → A) :
  g_repo d = clean t → tree_ok (g_users d) t → session_env_ok env →
  let o := apply_meta_transition env d id tr response in
  match prepare_meta_transition env d id tr, so_response o with
  | Ok (rel, m', Some (oy, y)), Ok resp =>
      so_state o = with_repo d (clean (put_meta rel y t)) ∧ so_event o = Some (emit_changed m') ∧ resp = response m'
  | Ok (_, m', None), r => r = Ok (response m') ∧ so_state o = d ∧ so_event o = None
  | _, Ok _ => False
  | _, _ => so_state o = d ∧ so_event o = None
  end.
Proof.
  intros Hrepo Hok Henv o. subst o. unfold apply_meta_transition.
  destruct (prepare_meta_transition env d id tr) as [[[rel m'] [[oy y]|]]|e|] eqn:Hp;
    cbn [or_return returns so_state so_event so_response]; [|done..].
  destruct (prepare_meta_Ok _ _ _ _ _ _ _ _ Hrepo Hok Hp) as (Hid & -> & Hfree & m & es & Hst & Hoy & Hy & Htr).
  pose proof (write_meta_spec env _ _ y t Henv Hoy) as Hw. rewrite Hrepo.
  destruct (write_meta env _ oy y (clean t)) as [r [[]|e|]]; [|subst r|done].
  - subst r. cbn [or_return so_response so_state so_event]. done.
  - cbn [or_return returns so_response so_state so_event]. rewrite <-Hrepo. by rewrite with_repo_same.
Qed.

Lemma meta_keeps {A} env d id tr (response : QuickSessionMeta → A) :
  state_ok d → session_env_ok env → silent tr = true → archives tr = false →
  state_ok (so_state (apply_meta_transition env d id tr response)).
Proof.
  intros (t & Hrepo & Hok) Henv Hs Ha. assert (state_ok d) as Hd by by exists t.
  pose proof (meta_effect env d t id tr response Hrepo Hok Henv) as He. cbv zeta in He.
  destruct (prepare_meta_transition env d id tr) as [[[rel m'] [[oy y]|]]|e|] eqn:Hp.
  - destruct (so_response _); [|by destruct He as [-> _]..]. destruct He as [-> _].
    destruct (prepare_meta_Ok _ _ _ _ _ _ _ _ Hrepo Hok Hp) as (Hid & -> & Hfree & m & es & Hst & Hoy & Hy & Htr).
    eexists. split; [done|]. cbn [with_repo g_users].
    by destruct (tree_ok_put_meta _ _ _ _ _ _ _ _ Hok Hid Hfree Hst Hy Htr Hs Ha) as [? _].
  - by destruct He as (_ & -> & _).
  - destruct (so_response _); [done|by destruct He as [-> _]..].
  - destruct (so_response _); [done|by destruct He as [-> _]..].
Qed.

Lemma claim_keeps env d id line att author :
  state_ok d → session_env_ok env → state_ok (so_state (handle_claim_quick_session_turn env d id line att author)).
Proof.
  intros Hd Henv. unfold handle_claim_quick_session_turn.
  destruct (check_claim env d id line att author) as [[]|e|]; [by apply meta_keeps|done..].
Qed.

Lemma mutate_keeps {A} env d id author tr (response : QuickSessionMeta → A) :
  state_ok d → session_env_ok env → silent tr = true → archives tr = false →
  state_ok (so_state (mutate_agent_meta env d id author tr response)).
Proof.
  intros Hd Henv Hs Ha. unfold mutate_agent_meta. destruct (ensure_active_user d author _); [|done..].
  apply meta_keeps; [done..| |]; by destruct tr.
Qed.

(** ** Moving *)

Lemma stored_move users t archived id y m es m' tr :
  validate_quick_session_id id = Ok tt → path_exists t (session_dir (negb archived) id) = false →
  stored users t archived id m es → yaml_from_str y = Some m' → apply_transition m tr = Ok (m', Applied) →
  silent tr = true → archives tr = negb archived →
  stored users (move_put (session_dir archived id) (session_dir (negb archived) id) y t) (negb archived) id m' es.
Proof.
  intros Hid Hfree (Hm & (th & Hth & Hc) & Hcon) Hy Htr Hs Ha.
  assert (Hap : apart (session_dir archived id) (session_dir (negb archived) id))
    by (apply session_dirs_apart; [done..|by destruct archived]).
  unfold stored. rewrite move_put_alt by done. split_and!; [|exists th; split; [|done]|].
  - unfold put_meta. by rewrite lookup_insert_eq.
  - unfold put_meta. rewrite lookup_insert_ne by apply session_meta_ne_thread.
    unfold session_thread_of. rewrite lookup_move_to; [done|right; by eexists|done].
  - rewrite <-Ha. by eapply consistent_silent.
Qed.

Lemma tree_ok_move users t archived id y m es :
  tree_ok users t → validate_quick_session_id id = Ok tt → path_exists t (session_dir (negb archived) id) = false →
  stored users (move_put (session_dir archived id) (session_dir (negb archived) id) y t) (negb archived) id m es →
  tree_ok users (move_put (session_dir archived id) (session_dir (negb archived) id) y t).
Proof.
  intros Hok Hid Hfree Hst.
  assert (Hap : apart (session_dir archived id) (session_dir (negb archived) id))
    by (apply session_dirs_apart; [done..|by destruct archived]).
  eapply tree_ok_update; [done|done| | |exact Hst].
  - intros k Hk1 Hk2. unfold move_put.
    rewrite lookup_move_other by by destruct archived. apply put_meta_outside. by destruct archived.
  - rewrite negb_involutive. by apply path_exists_moved.
Qed.

Lemma prepare_move_Ok env d t id author archive source target m' oy y :
  g_repo d = clean t → tree_ok (g_users d) t →
  prepare_move_session env d id author archive = Ok (source, target, m', oy, y) →
  validate_quick_session_id id = Ok tt ∧ source = session_dir (negb archive) id ∧ target = session_dir archive id
  ∧ path_exists t (session_dir archive id) = false ∧ t !! session_meta_of source = Some oy ∧ yaml_from_str y = Some m'
  ∧ ∃ m es, stored (g_users d) t (negb archive) id m es
    ∧ apply_transition m (if archive then Archive author (se_now env) else Unarchive author (se_now env)) = Ok (m', Applied).
Proof.
  intros Hrepo Hok H. unfold prepare_move_session in H. apply res_bind_Ok in H as (? & _ & H).
  apply res_bind_Ok in H as (o & Hloc & H). apply (locate_session_Ok d t Hrepo Hok) in Hloc as [Hid Ho].
  apply res_bind_Ok in H as (loc & ->%ok_or_Ok & H). destruct Ho as (Hrel & Hfree & m & es & Hst).
  apply try_Ok in H as [Harch%guard_err_Ok H].
  assert (Hna : lq_archived loc = negb archive) by by destruct (lq_archived loc), archive.
  rewrite Hna in *. rewrite negb_involutive in Hfree.
  apply res_bind_Ok in H as (m1 & Hm1 & H). pose proof (load_meta_Ok d t Hrepo _ _ _ _ _ _ _ Hst Hrel Hm1) as ->.
  apply res_bind_Ok in H as (oy1 & Hoy & H). apply (reread_meta_Ok d t Hrepo) in Hoy. cbv zeta in H.
  destruct (apply_quick_session_transition m _) as [m2 r] eqn:Htr.
  pose proof (stored_transition d t _ _ _ _ _ _ _ Hst Htr) as Hstep.
  apply res_bind_Ok in H as (o & [= ->]%map_err_Ok & H).
  apply res_bind_Ok in H as (y1 & [= Hy]%ok_or_Ok & H).
  apply res_bind_Ok in H as (target1 & [_ ->]%session_rel_dir_Ok & [= <- <- <- <- <-]).
  split_and!; [done..|by apply yaml_roundtrip|]. exists m, es. split; [done|].
  destruct o as [|l]; [done|]. destruct Hstep as [Hd _]. by destruct (move_not_duplicate m archive author (se_now env) m l).
Qed.

Lemma move_effect env d t id author archive :
  g_repo d = clean t → tree_ok (g_users d) t → session_env_ok env →
  let o := move_session env d id author archive in
  match prepare_move_session env d id author archive, so_response o with
  | Ok (source, target, m', oy, y), Ok _ =>
      so_state o = with_repo d (clean (move_put source target y t)) ∧ so_event o = Some (emit_changed m')
  | _, Ok _ => False
  | _, _ => so_state o = d ∧ so_event o = None
  end.
Proof.
  intros Hrepo Hok Henv o. subst o. unfold move_session.
  destruct (prepare_move_session env d id author archive) as [[[[[source target] m'] oy] y]|e|] eqn:Hp;
    cbn [or_return returns so_state so_event so_response]; [|done..].
  destruct (prepare_move_Ok _ _ _ _ _ _ _ _ _ _ _ Hrepo Hok Hp) as (Hid & -> & -> & Hfree & Hoy & _).
  pose proof (move_session_dir_spec env (session_dir (negb archive) id) (session_dir archive id) oy y t Henv) as Hw.
  rewrite Hrepo. destruct (move_session_dir env _ _ oy y (clean t)) as [r [[]|e|]]; cbn [or_return returns so_response so_state so_event].
  - rewrite Hw; [done| |done..]. apply session_dirs_apart; [done..|by destruct archive].
  - rewrite Hw; [rewrite <-Hrepo; by rewrite with_repo_same| |done..]. apply session_dirs_apart; [done..|by destruct archive].
  - destruct Hw; [|done..]. apply session_dirs_apart; [done..|by destruct archive].
Qed.

Lemma move_keeps env d id author archive :
  state_ok d → session_env_ok env → state_ok (so_state (move_session env d id author archive)).
Proof.
  intros (t & Hrepo & Hok) Henv. assert (state_ok d) as Hd by by exists t.
  pose proof (move_effect env d t id author archive Hrepo Hok Henv) as He. cbv zeta in He.
  destruct (prepare_move_session env d id author archive) as [[[[[source target] m'] oy] y]|e|] eqn:Hp.
  2,3: by destruct (so_response _); [|destruct He as [-> _]..].
  destruct (so_response _); [|by destruct He as [-> _]..]. destruct He as [-> _].
  destruct (prepare_move_Ok _ _ _ _ _ _ _ _ _ _ _ Hrepo Hok Hp) as (Hid & -> & -> & Hfree & Hoy & Hy & m & es & Hst & Htr).
  eexists. split; [done|]. cbn [with_repo g_users].
  rewrite <-(negb_involutive archive) at 2. eapply tree_ok_move; [done|done|by rewrite negb_involutive|].
  eapply stored_move; [done|by rewrite negb_involutive|done|done|exact Htr|by destruct archive|by destruct archive].
Qed.
(** ** Runs *)

Inductive SessionRequest :=
  | ReqSessionCreate (id agent first author : str)
  | ReqSessionSend (id body : str) (reply_to : option N) (request_id attempt_id : option str) (author : str)
  | ReqSessionClaim (id : str) (line : N) (attempt_id author : str)
  | ReqSessionTitle (id title attempt_id author : str)
  | ReqSessionSummary (id summary attempt_id author : str)
  | ReqSessionError (id attempt_id diagnostic author : str)
  | ReqSessionArchive (id author : str)
  | ReqSessionUnarchive (id author : str).

(** Line numbers are 64-bit integers. *)
Definition request_ok (req : SessionRequest) : Prop :=
  match req with ReqSessionSend _ _ reply_to _ _ _ => unwrap_or reply_to 0 ≤ u64_MAX | _ => True end.

Definition serve_session (env : SessionEnv) (d : GDaemon) (req : SessionRequest) : GDaemon :=
  match req with
  | ReqSessionCreate id agent first author => so_state (handle_create_quick_session env d id agent first author)
  | ReqSessionSend id body reply_to rid att author =>
      so_state (handle_send_quick_session_message env d id body reply_to rid att author)
  | ReqSessionClaim id line att author => so_state (handle_claim_quick_session_turn env d id line att author)
  | ReqSessionTitle id title att author => so_state (handle_set_quick_session_title env d id title att author)
  | ReqSessionSummary id summary att author => so_state (handle_set_quick_session_summary env d id summary att author)
  | ReqSessionError id att diagnostic author => so_state (handle_mark_quick_session_error env d id att diagnostic author)
  | ReqSessionArchive id author => so_state (handle_archive_quick_session env d id author)
  | ReqSessionUnarchive id author => so_state (handle_unarchive_quick_session env d id author)
  end.

(** The two directories sessions live in. *)
Definition session_area (k : str) : bool := below (lit "quick-sessions") k || below (lit "archive/quick-sessions") k.

(** Whatever else the daemon does: other files are committed, users join. *)
Definition elsewhere (d d' : GDaemon) : Prop :=
  ∃ t t', g_repo d = clean t ∧ g_repo d' = clean t' ∧ g_users d ⊆ g_users d'
          ∧ ∀ k, session_area k = true → t' !! k = t !! k.

(** Any sequence of session requests and of other work, from a clone without sessions. *)
Inductive session_runs : GDaemon → Prop :=
  | run_start d t : g_repo d = clean t → (∀ k, is_Some (t !! k) → session_area k = false) → session_runs d
  | run_serve d env req : session_runs d → session_env_ok env → request_ok req → session_runs (serve_session env d req)
  | run_elsewhere d d' : session_runs d → elsewhere d d' → session_runs d'.

Lemma serve_session_keeps env d req :
  state_ok d → session_env_ok env → request_ok req → state_ok (serve_session env d req).
Proof.
  intros Hd Henv Hreq. destruct req; cbn [serve_session];
    [by apply create_keeps|by apply send_keeps|by apply claim_keeps|by apply mutate_keeps..|by apply move_keeps|by apply move_keeps].
Qed.

Lemma session_dir_area a id k : below (session_dir a id) k = true → session_area k = true.
Proof.
  intros H. unfold session_area. apply orb_true_iff. revert H. unfold session_dir. destruct a; intros H; [right|left]; revert H.
  - refine (below_app (lit "archive/quick-sessions") (slash :: id) k _). right. by eexists.
  - refine (below_app (lit "quick-sessions") (slash :: id) k _). right. by eexists.
Qed.

Lemma stored_users users users' t a id m es : users ⊆ users' → stored users t a id m es → stored users' t a id m es.
Proof.
  intros Hu (Hm & Hth & [Hv Hid Hp Hl Hs Hn Ha]). split_and!; [done..|]. constructor; try done.
  eapply log_wf_mono; [|exact Hl]. set_solver.
Qed.

Lemma elsewhere_keeps d d' : elsewhere d d' → state_ok d → state_ok d'.
Proof.
  intros (t & t' & Ht & Ht' & Hu & Hk) (t0 & Ht0 & Hall & Huniq). rewrite Ht0 in Ht. injection Ht as ->.
  assert (Hk' : ∀ a id k, below (session_dir a id) k = true → t' !! k = t !! k).
  { intros a id k Hb. by apply Hk, (session_dir_area a id). }
  exists t'. split; [done|]. split.
  - intros a id Hid Hex. rewrite (path_exists_ext t) in Hex by apply Hk'.
    destruct (Hall a id Hid Hex) as (m & es & Hst). exists m, es.
    eapply stored_users; [exact Hu|]. eapply stored_ext; [apply Hk'|done].
  - intros id Hid Hex. rewrite (path_exists_ext t) in Hex by apply Hk'. rewrite (path_exists_ext t) by apply Hk'. by apply Huniq.
Qed.

Lemma session_runs_ok d : session_runs d → state_ok d.
Proof.
  induction 1 as [d t Ht Hno|d env req _ IH Henv Hreq|d d' _ IH He].
  - assert (∀ a id, path_exists t (session_dir a id) = false) as Hfree.
    { intros a id. apply path_exists_false. intros k Hk. apply strip_dir_None_below.
      destruct (below (session_dir a id) k) eqn:E; [|done]. apply session_dir_area in E. by rewrite (Hno k Hk) in E. }
    exists t. split; [done|]. split; [|auto]. intros a id _ Hex. by rewrite Hfree in Hex.
  - by apply serve_session_keeps.
  - by eapply elsewhere_keeps.
Qed.

(** ** Messages already there *)

Lemma newest_in creator es l :
  newest_creator_line creator es = Some l →
  ∃ msg, EntryMessage msg ∈ es ∧ handler_str (m_author msg) = creator ∧ m_line_number msg = l.
Proof.
  induction es as [|e es IH] using rev_ind; [done|]. rewrite newest_creator_line_snoc.
  assert (Hold : newest_creator_line creator es = Some l → ∃ msg, EntryMessage msg ∈ es ++ [e]
            ∧ handler_str (m_author msg) = creator ∧ m_line_number msg = l).
  { intros H. destruct (IH H) as (msg & Hin & Hr). exists msg. split; [|done]. apply elem_of_app. by left. }
  destruct e as [m|ev]; [|done]. case_bool_decide as Hau; [|done]. unfold max_line.
  assert (Hnew : m_line_number m = l → ∃ msg, EntryMessage msg ∈ es ++ [EntryMessage m]
            ∧ handler_str (m_author msg) = creator ∧ m_line_number msg = l).
  { intros Hl. exists m. split; [|done]. apply elem_of_app. right. by left. }
  destruct (newest_creator_line creator es) as [k|]; intros [= Hl]; [|auto].
  destruct (N.max_spec k (m_line_number m)) as [[_ E]|[_ E]]; rewrite E in Hl; [auto|]. apply Hold. by rewrite Hl.
Qed.

Lemma send_duplicate m author body reply_to rid att n now l :
  session_ok m → apply_transition m (send_transition m author body reply_to rid att n now) = Ok (m, Duplicate l) →
  (author = qs_created_by m ∧ l = qs_last_human_line m ∧ l ≠ None
   ∧ ∃ r, rid = Some r ∧ qs_last_human_request_id m = Some r)
  ∨ (author ≠ qs_created_by m ∧ author = qs_agent_id m ∧ l = qs_last_completed_line m ∧ l ≠ None
     ∧ qs_last_completed_input_line m ≠ None ∧ attempt_ok (unwrap_or att [])
     ∧ qs_last_completed_attempt_id m = Some (unwrap_or att [])).
Proof.
  intros Hm. unfold send_transition. case_bool_decide as Hau; cbn [apply_transition]; intros H.
  - left. unfold human_message in H. apply try_Ok in H as [_ H].
    destruct (is_some_and rid _) eqn:E.
    + injection H as <-. destruct rid as [r|]; [|done]. apply bool_decide_eq_true in E. split_and!; [done|done| |eauto].
      destruct Hm as [_ _ _ _ _ [_ Hl _ _]]. apply Hl. congruence.
    + do 3 apply try_Ok in H as [_ H]. by apply finish_applied_Ok in H as [? _].
  - right. unfold agent_reply in H. apply try_Ok in H as [Hag%require_agent_Ok H]. apply try_Ok in H as [Hat%attempt_id_Ok H].
    case_bool_decide as E.
    + injection H as <-. destruct Hm as [_ _ _ _ Hc _]. unfold completion_ok in Hc. rewrite E in Hc.
      repeat case_match; try done; split_and!; done.
    + do 4 apply try_Ok in H as [_ H]. by apply finish_applied_Ok in H as [? _].
Qed.
(** ** Reading what is stored *)

Definition reads_ok (env : SessionEnv) : Prop := ∀ p, se_read_ok env p = true.

Section reading.
Context (env : SessionEnv) (d : GDaemon) (t : tree) (Hread : reads_ok env) (Hrepo : g_repo d = clean t).

Lemma locate_active_stored id m es :
  validate_quick_session_id id = Ok tt → stored (g_users d) t false id m es →
  locate_session d id = Ok (Some (MkLocated (session_dir false id) false))
  ∧ locate_active d id = Ok (MkLocated (session_dir false id) false).
Proof using Hrepo.
  intros Hid (Hm & _). assert (locate_session d id = Ok (Some (MkLocated (session_dir false id) false))) as Hl.
  { unfold locate_session, session_rel_dir. rewrite Hid. cbn [res_bind map_err].
    unfold exists_file, as_daemon. cbn [d_files]. rewrite Hrepo. cbn [clean r_work].
    by destruct (t !! session_meta_of (session_dir false id)). }
  split; [done|]. unfold locate_active. by rewrite Hl.
Qed.

Lemma load_meta_stored archived id m es :
  stored (g_users d) t archived id m es → load_meta env d (MkLocated (session_dir archived id) archived) = Ok m.
Proof using Hrepo Hread.
  intros (Hm & _ & Hcon). unfold load_meta, read_session_file. cbn [lq_rel_dir]. rewrite Hread, Hrepo. cbn [clean r_work].
  destruct (t !! _) as [y|]; [|done]. simpl in Hm. cbn [ok_or res_bind]. rewrite Hm. cbn [ok_or res_bind].
  by rewrite (proj2 (validate_quick_session_meta_iff m) (con_valid _ _ _ _ _ Hcon)).
Qed.

Lemma load_thread_stored archived id m es :
  stored (g_users d) t archived id m es →
  ∃ th, load_thread env d (MkLocated (session_dir archived id) archived) = Ok (th, es).
Proof using Hrepo Hread.
  intros (_ & (th & Hth & _ & Hp) & _). exists th. unfold load_thread, read_session_file. cbn [lq_rel_dir].
  rewrite Hread, Hrepo. cbn [clean r_work]. rewrite Hth. cbn [ok_or res_bind]. by rewrite Hp.
Qed.
End reading.

(** The files of users lie outside the session directories. *)
Lemma user_files_same d d' t t' h :
  g_repo d = clean t → g_repo d' = clean t' → (∀ k, below (lit "users") k = true → t' !! k = t !! k) →
  (∀ k, below (lit "archive/users") k = true → t' !! k = t !! k) →
  (∀ role, ensure_active_user d' h role = ensure_active_user d h role)
  ∧ ensure_author_not_departed (as_daemon d') h = ensure_author_not_departed (as_daemon d) h.
Proof.
  intros Hr Hr' Hu Ha.
  assert (Hex : exists_file (as_daemon d') (user_file h) = exists_file (as_daemon d) (user_file h)).
  { unfold exists_file, as_daemon. cbn [d_files]. rewrite Hr, Hr'. cbn [clean r_work]. rewrite Hu; [done|].
    apply below_true. eexists. apply strip_dir_app. right. by eexists. }
  assert (Hax : exists_file (as_daemon d') (archived_user_meta_path h) = exists_file (as_daemon d) (archived_user_meta_path h)).
  { unfold exists_file, as_daemon. cbn [d_files]. rewrite Hr, Hr'. cbn [clean r_work]. rewrite Ha; [done|].
    apply below_true. eexists. apply strip_dir_app. right. by eexists. }
  split; [intros role; unfold ensure_active_user|unfold ensure_author_not_departed]; by rewrite ?Hex, ?Hax.
Qed.

Lemma put_session_users id y th t k :
  below (lit "users") k = true ∨ below (lit "archive/users") k = true → put_session (session_dir false id) y th t !! k = t !! k.
Proof.
  intros Hk. apply put_session_outside. destruct Hk as [Hk|Hk]; (eapply apart_not_below; [|exact Hk]); by apply apart_head.
Qed.

(** ** A repeated send *)

Lemma prepare_send_Ok_inl env d t id body reply_to rid att author answer :
  g_repo d = clean t → tree_ok (g_users d) t →
  prepare_session_send env d id body reply_to rid att author = Ok (inl answer) →
  ∃ m es l n, validate_quick_session_id id = Ok tt ∧ stored (g_users d) t false id m es
    ∧ check_sender m author reply_to rid att = Ok tt
    ∧ apply_transition m (send_transition m author body reply_to rid att n (se_now env)) = Ok (m, Duplicate l)
    ∧ answer = MkSendSessionResponse id (unwrap_or l n) (qs_status m) (qs_revision m) (ref_string m).
Proof.
  intros Hrepo Hok H. unfold prepare_session_send in H.
  apply try_Ok in H as [_ H]. apply res_bind_Ok in H as (hd & _ & H).
  apply try_Ok in H as [_ H]. apply res_bind_Ok in H as (loc & Hloc & H).
  destruct (locate_active_Ok d t Hrepo Hok _ _ Hloc) as (Hid & Hrel & Hfree & m & es & Hst).
  apply res_bind_Ok in H as (m1 & Hm1 & H). pose proof (load_meta_Ok d t Hrepo _ _ _ _ _ _ _ Hst Hrel Hm1) as ->.
  apply res_bind_Ok in H as ([th es1] & _ & H). apply try_Ok in H as [Hcs H]. cbv zeta in H.
  destruct (apply_quick_session_transition m _) as [m2 r] eqn:Htr.
  pose proof (stored_transition d t _ _ _ _ _ _ _ Hst Htr) as Hstep.
  apply res_bind_Ok in H as (o & [= ->]%map_err_Ok & H). destruct o as [|l].
  - apply try_Ok in H as [_ H]. apply res_bind_Ok in H as (? & _ & H). by apply res_bind_Ok in H as (? & _ & H).
  - injection H as <-. destruct Hstep as [Hstep ->]. by eexists m, es, l, _.
Qed.

(** The checks before the session is loaded. *)
Lemma prepare_send_entry env d id body reply_to rid att author p :
  prepare_session_send env d id body reply_to rid att author = Ok p →
  validate_body body = Ok tt ∧ (∃ h, ensure_active_user d author (lit "author") = Ok h)
  ∧ ensure_author_not_departed (as_daemon d) author = Ok tt
  ∧ ∃ loc m, locate_active d id = Ok loc ∧ load_meta env d loc = Ok m ∧ check_sender m author reply_to rid att = Ok tt.
Proof.
  intros H. unfold prepare_session_send in H.
  apply try_Ok in H as [Hb H]. apply res_bind_Ok in H as (hd & Hu & H).
  apply try_Ok in H as [Hdep H]. rewrite map_err_Ok in Hdep. apply res_bind_Ok in H as (loc & Hloc & H).
  apply res_bind_Ok in H as (m1 & Hm1 & H). apply res_bind_Ok in H as ([th es1] & _ & H). apply try_Ok in H as [Hcs H].
  eauto 10.
Qed.

(** When the state machine knows the message, the answer names its line. *)
Lemma prepare_send_known env d t id body reply_to rid att author m es l :
  g_repo d = clean t → reads_ok env → validate_quick_session_id id = Ok tt → stored (g_users d) t false id m es →
  validate_body body = Ok tt → (∃ h, ensure_active_user d author (lit "author") = Ok h) →
  ensure_author_not_departed (as_daemon d) author = Ok tt → check_sender m author reply_to rid att = Ok tt →
  (∀ n now, apply_transition m (send_transition m author body reply_to rid att n now) = Ok (m, Duplicate (Some l))) →
  prepare_session_send env d id body reply_to rid att author
  = Ok (inl (MkSendSessionResponse id l (qs_status m) (qs_revision m) (ref_string m))).
Proof.
  intros Hrepo Hread Hid Hst Hb [h Hu] Hdep Hcs Hdup. unfold prepare_session_send. rewrite Hb. cbn [res_bind].
  rewrite Hu. cbn [res_bind]. rewrite Hdep. cbn [res_bind map_err].
  destruct (locate_active_stored d t Hrepo id m es Hid Hst) as [_ ->]. cbn [res_bind].
  rewrite (load_meta_stored env d t Hread Hrepo false id m es Hst). cbn [res_bind].
  destruct (load_thread_stored env d t Hread Hrepo false id m es Hst) as [th ->]. cbn [res_bind].
  rewrite Hcs. cbn [res_bind]. rewrite (apply_valid m) by apply (con_valid _ _ _ _ _ (proj2 (proj2 Hst))).
  by rewrite Hdup.
Qed.

(** The fields a message leaves for its own replay. *)
Lemma human_fields m actor n rid p now m' :
  apply_transition m (HumanMessage actor n rid p now) = Ok (m', Applied) →
  qs_last_human_request_id m' = rid ∧ qs_last_human_line m' = Some n ∧ qs_attempt_id m' = qs_attempt_id m
  ∧ qs_processing_input_line m' = qs_processing_input_line m
  ∧ qs_last_completed_attempt_id m' = qs_last_completed_attempt_id m
  ∧ qs_last_completed_input_line m' = qs_last_completed_input_line m
  ∧ (qs_status m' = Running → qs_status m = Running).
Proof.
  intros H. open_arm H. clear Hrev. simpl. case_bool_decide; simpl; split_and!; try done.
  unfold title_derived_status. by case_match.
Qed.

Lemma reply_fields m actor i a n p now m' :
  apply_transition m (AgentReply actor i a n p now) = Ok (m', Applied) →
  attempt_ok a ∧ qs_last_completed_attempt_id m ≠ Some a ∧ qs_processing_input_line m = Some i
  ∧ qs_last_completed_attempt_id m' = Some a ∧ qs_last_completed_input_line m' = Some i
  ∧ qs_last_completed_line m' = Some n.
Proof.
  intros H. open_arm H. clear Hrev. simpl. apply bool_decide_eq_false in Heqb. by split_and!.
Qed.

Lemma check_sender_Ok m author reply_to rid att :
  check_sender m author reply_to rid att = Ok tt ↔
  (author = qs_created_by m ∨ author = qs_agent_id m)
  ∧ (author = qs_created_by m → is_none_or rid is_empty = false)
  ∧ (author = qs_agent_id m →
       is_none_or att is_empty = false
       ∧ (att = qs_last_completed_attempt_id m ∧ reply_to = qs_last_completed_input_line m
          ∨ (qs_status m = Running → attempt_ok (unwrap_or att []) ∧ qs_attempt_id m = Some (unwrap_or att []))
            ∧ reply_to = qs_processing_input_line m)).
Proof.
  unfold check_sender. destruct (decide (author = qs_created_by m)) as [Hc|Hc], (decide (author = qs_agent_id m)) as [Ha|Ha].
  all: rewrite ?(bool_decide_eq_true_2 (author = qs_created_by m)), ?(bool_decide_eq_false_2 (author = qs_created_by m)) by done.
  all: rewrite ?(bool_decide_eq_true_2 (author = qs_agent_id m)), ?(bool_decide_eq_false_2 (author = qs_agent_id m)) by done.
  all: cbn [negb andb]; rewrite ?try_Ok, ?guard_err_Ok, ?andb_false_iff.
  all: repeat case_bool_decide; cbn [negb andb]; rewrite ?try_Ok, ?map_err_Ok, ?attempt_id_Ok, ?guard_err_Ok, ?negb_false_iff, ?bool_decide_eq_true.
  all: intuition congruence.
Qed.

(** A message that was stored is known from then on, whatever line and time a
    repeated request would give it. *)
Lemma replay_known m m' author body reply_to rid att n now :
  check_sender m author reply_to rid att = Ok tt →
  apply_transition m (send_transition m author body reply_to rid att n now) = Ok (m', Applied) →
  check_sender m' author reply_to rid att = Ok tt
  ∧ ∀ n' now', apply_transition m' (send_transition m' author body reply_to rid att n' now') = Ok (m', Duplicate (Some n)).
Proof.
  intros (Hwho & Hrid & Hatt)%check_sender_Ok Htr.
  pose proof (apply_transition_frame _ _ _ Htr) as (_ & Hag & Hcr & _).
  unfold send_transition in *. rewrite check_sender_Ok, Hag, Hcr. case_bool_decide as Hau.
  - destruct (human_fields _ _ _ _ _ _ _ Htr) as (Hr & Hn & H1 & H2 & H3 & H4 & H5). rewrite H1, H2, H3, H4.
    split; [naive_solver|]. intros n' now'. cbn [apply_transition]. unfold human_message, require_creator.
    rewrite Hcr, bool_decide_eq_true_2 by done. cbn [res_bind].
    destruct rid as [r|]; [|by specialize (Hrid Hau)]. cbn [is_some_and]. by rewrite bool_decide_eq_true_2, Hn.
  - destruct Hwho as [|Ha]; [done|]. destruct (Hatt Ha) as [Hne Hm].
    destruct (reply_fields _ _ _ _ _ _ _ _ Htr) as (Hok & Hnew & Hproc & H1 & H2 & H3).
    destruct att as [a|]; [|done]. cbn [unwrap_or] in *. rewrite H1, H2.
    assert (reply_to = Some (unwrap_or reply_to 0)) as Hreply.
    { destruct Hm as [[Hm _]|[_ Hm]]; [by rewrite <-Hm in Hnew|by rewrite Hm in Hproc |- *]. }
    split; [naive_solver|]. intros n' now'. cbn [apply_transition]. unfold agent_reply, require_agent.
    rewrite Hag, bool_decide_eq_true_2 by done. cbn [res_bind]. rewrite (proj2 (attempt_id_Ok a tt) Hok). cbn [res_bind].
    by rewrite H1, bool_decide_eq_true_2, H3.
Qed.

(** A known message stays known. *)
Lemma duplicate_known m author body reply_to rid att n now l :
  session_ok m → apply_transition m (send_transition m author body reply_to rid att n now) = Ok (m, Duplicate l) →
  ∃ line, l = Some line
    ∧ ∀ n' now', apply_transition m (send_transition m author body reply_to rid att n' now') = Ok (m, Duplicate (Some line)).
Proof.
  intros Hm Hdup. pose proof (send_duplicate _ _ _ _ _ _ _ _ _ Hm Hdup) as H. unfold send_transition.
  destruct H as [(Ha & -> & Hn & r & -> & Hr)|(Hne & Ha & -> & Hn & _ & Hok & Hat)].
  - destruct (qs_last_human_line m) as [line|] eqn:El; [|done]. exists line. split; [done|]. intros n' now'.
    rewrite bool_decide_eq_true_2 by done. cbn [apply_transition]. unfold human_message, require_creator.
    rewrite bool_decide_eq_true_2 by done. cbn [res_bind is_some_and]. by rewrite bool_decide_eq_true_2, El.
  - destruct (qs_last_completed_line m) as [line|] eqn:El; [|done]. exists line. split; [done|]. intros n' now'.
    rewrite bool_decide_eq_false_2 by done. cbn [apply_transition]. unfold agent_reply, require_agent.
    rewrite bool_decide_eq_true_2 by done. cbn [res_bind]. rewrite (proj2 (attempt_id_Ok _ tt) Hok). cbn [res_bind].
    by rewrite bool_decide_eq_true_2, El.
Qed.

(** ** Claims *)

(** C4: the sessions in the clone are always consistent.  After any sequence of
    session requests, whatever fails in them as long as undoing works, and of other
    work of the daemon, the clone is committed (its three trees agree), and every
    session directory is in one place and holds a session whose metadata is valid,
    archived exactly when it is in the archive, and agrees with its thread: the
    thread is a well-formed log by the creator and the agent, its newest message of
    the creator is the line the metadata calls the last human line, and the answer
    the metadata names is the agent's reply to the line it answered. *)
Theorem stored_sessions_consistent (d : GDaemon) (Hd : session_runs d) :
  ∃ t, g_repo d = clean t ∧
    ∀ archived id, validate_quick_session_id id = Ok tt → path_exists t (session_dir archived id) = true →
      path_exists t (session_dir (negb archived) id) = false ∧ ∃ m es, stored (g_users d) t archived id m es.
Proof.
  destruct (session_runs_ok d Hd) as (t & Hrepo & Hall & Huniq). exists t. split; [done|].
  intros archived id Hid Hex. split; [|by apply Hall]. destruct archived; cbn [negb]; [|by apply Huniq].
  destruct (path_exists t (session_dir false id)) eqn:E; [|done]. by rewrite (Huniq id Hid E) in Hex.
Qed.

(** C5: sending to a session is exact.  A send that is refused or fails, while undoing
    works, changes nothing.  One that succeeds found the active session and either changed nothing,
    because the thread already holds this author's message at the reported line, or
    committed exactly two new files: the thread with one more message, numbered
    after the last, by the author, to the requested line, with the given body, and
    the metadata one revision later, consistent with each other. *)
Theorem session_send_exact (env : SessionEnv) (d : GDaemon) (id body : str) (reply_to : option N) (rid att : option str)
    (author : str) (Hd : session_runs d) (Henv : session_env_ok env) (Hreply : unwrap_or reply_to 0 ≤ u64_MAX) :
  let o := handle_send_quick_session_message env d id body reply_to rid att author in
  match so_response o with
  | Ok resp =>
      ∃ t m es, g_repo d = clean t ∧ stored (g_users d) t false id m es ∧
        ((so_state o = d ∧ so_event o = None
          ∧ ∃ msg, EntryMessage msg ∈ es ∧ handler_str (m_author msg) = author
                   ∧ m_line_number msg = ssr_line_number resp)
         ∨ ∃ t' m', g_repo (so_state o) = clean t' ∧ ssr_line_number resp = log_next 1 es
           ∧ stored (g_users d) t' false id m'
               (es ++ [EntryMessage (stored_message (ssr_line_number resp) (unwrap_or reply_to 0) (MkHandler author)
                                       (se_now env) body)])
           ∧ qs_revision m' = qs_revision m + 1 ∧ so_event o = Some (emit_changed m')
           ∧ ∀ k, k ≠ session_meta_of (session_dir false id) → k ≠ session_thread_of (session_dir false id) →
                  t' !! k = t !! k)
  | _ => so_state o = d ∧ so_event o = None
  end.
Proof.
  intros o. destruct (session_runs_ok d Hd) as (t & Hrepo & Hok).
  pose proof (send_effect env d t id body reply_to rid att author Hrepo Hok Henv Hreply) as He. cbv zeta in He.
  fold o in He. destruct (prepare_session_send _ _ _ _ _ _ _ _) as [[answer|p]|e|] eqn:Hprep.
  - destruct He as (-> & Hs & Hev).
    destruct (prepare_send_Ok_inl _ _ _ _ _ _ _ _ _ _ Hrepo Hok Hprep) as (m & es & l & n & Hid & Hst & _ & Hdup & ->).
    exists t, m, es. split_and!; [done..|]. left. split_and!; [done..|].
    pose proof (proj2 (proj2 Hst)) as [Hv _ _ _ _ Hn Ha]. cbn [ssr_line_number].
    destruct (send_duplicate _ _ _ _ _ _ _ _ _ Hv Hdup) as [(-> & -> & Hne & _)|(_ & -> & -> & Hne & Hi & _)].
    + destruct (qs_last_human_line m) as [line|] eqn:El; [|done]. destruct (newest_in _ _ _ Hn) as (msg & ?). by exists msg.
    + destruct (qs_last_completed_line m) as [line|] eqn:El; [|done].
      destruct (qs_last_completed_input_line m) as [i|] eqn:Ei; [|done].
      destruct (Ha i line eq_refl eq_refl) as (msg & ? & ? & ? & ?). by exists msg.
  - destruct (prepare_send_plan _ _ _ _ _ _ _ _ _ _ Hrepo Hok Henv Hreply Hprep) as (m & es & Hp).
    destruct (so_response o) as [resp|e|]; [|done..]. destruct He as (Hs & Hev & ->).
    exists t, m, es. split_and!; [done|apply Hp|]. right.
    destruct (push_pending_repo env id (sp_line p)
      (with_repo d (clean (put_session (sp_rel_dir p) (sp_new_meta p) (sp_new_thread p) t)))) as [Hr _].
    rewrite (pl_dir _ _ _ _ _ _ _ _ _ _ _ _ Hp) in *. eexists _, (sp_meta p). rewrite Hs. split_and!.
    + exact Hr.
    + apply Hp.
    + apply Hp.
    + by destruct (apply_transition_frame _ _ _ (pl_step _ _ _ _ _ _ _ _ _ _ _ _ Hp)) as (_ & _ & _ & _ & ? & _).
    + done.
    + apply put_session_keys.
  - by destruct (so_response o).
  - by destruct (so_response o).
Qed.

(** A repeated send has no second effect.  When a send was answered, sending the
    same message again (the client saw no answer) is answered with the same line,
    status and revision and changes nothing, in whatever environment the files can be read. *)
Theorem session_send_retry (env env' : SessionEnv) (d : GDaemon) (id body : str) (reply_to : option N)
    (rid att : option str) (author : str) (resp : SendSessionResponse)
    (Hd : session_runs d) (Henv : session_env_ok env) (Hreply : unwrap_or reply_to 0 ≤ u64_MAX) (Hread : reads_ok env')
    (Hfirst : so_response (handle_send_quick_session_message env d id body reply_to rid att author) = Ok resp) :
  let d1 := so_state (handle_send_quick_session_message env d id body reply_to rid att author) in
  handle_send_quick_session_message env' d1 id body reply_to rid att author = returns d1 (Ok resp).
Proof.
  cbv zeta. destruct (session_runs_ok d Hd) as (t & Hrepo & Hok).
  pose proof (send_effect env d t id body reply_to rid att author Hrepo Hok Henv Hreply) as He. cbv zeta in He.
  rewrite Hfirst in He.
  destruct (prepare_session_send env d id body reply_to rid att author) as [pl|e|] eqn:Hprep; [|done..].
  destruct (prepare_send_entry _ _ _ _ _ _ _ _ _ Hprep) as (Hb & Hu & Hdep & loc & m0 & Hloc & Hm0 & Hcs).
  destruct pl as [answer|p].
  - destruct He as ([= <-] & -> & _).
    destruct (prepare_send_Ok_inl _ _ _ _ _ _ _ _ _ _ Hrepo Hok Hprep) as (m & es & l & n & Hid & Hst & Hcs' & Hdup & ->).
    destruct (duplicate_known _ _ _ _ _ _ _ _ _ (con_valid _ _ _ _ _ (proj2 (proj2 Hst))) Hdup) as (line & -> & Hk).
    unfold handle_send_quick_session_message. by rewrite (prepare_send_known env' d t id body reply_to rid att author m es line).
  - destruct (prepare_send_plan _ _ _ _ _ _ _ _ _ _ Hrepo Hok Henv Hreply Hprep) as (m & es & Hp).
    destruct He as (-> & _ & ->). rewrite (pl_dir _ _ _ _ _ _ _ _ _ _ _ _ Hp).
    destruct (locate_active_Ok d t Hrepo Hok _ _ Hloc) as (_ & Hrel & _).
    pose proof (load_meta_Ok d t Hrepo _ _ _ _ _ _ _ (pl_stored _ _ _ _ _ _ _ _ _ _ _ _ Hp) Hrel Hm0) as ->.
    destruct (replay_known _ _ _ _ _ _ _ _ _ Hcs (pl_step _ _ _ _ _ _ _ _ _ _ _ _ Hp)) as [Hcs' Hk].
    set (t' := put_session (session_dir false id) (sp_new_meta p) (sp_new_thread p) t).
    set (d1 := push_pending env id (sp_line p) (with_repo d (clean t'))).
    assert (Hr : g_repo d1 = clean t') by apply push_pending_repo.
    assert (Hus : g_users d1 = g_users d).
    { unfold d1. by rewrite (proj2 (push_pending_repo env id (sp_line p) (with_repo d (clean t')))). }
    destruct (user_files_same d d1 t t' author Hrepo Hr) as [Hau Hde].
    { intros k Hk'. apply put_session_users. by left. }
    { intros k Hk'. apply put_session_users. by right. }
    unfold handle_send_quick_session_message.
    rewrite (prepare_send_known env' d1 t' id body reply_to rid att author (sp_meta p)
               (es ++ [EntryMessage (stored_message (sp_line p) (unwrap_or reply_to 0) (MkHandler author) (se_now env) body)])
               (sp_line p)); try done; [apply Hp| |by rewrite Hau|by rewrite Hde].
    rewrite Hus. apply Hp.
Qed.

Lemma epoch_timestamp : is_timestamp (lit "19700101T000000Z") = true.
Proof. by apply card_timestamp_is_timestamp. Qed.

Lemma canonical_Ok author body b :
  Handler_new author = Ok (MkHandler author) → canonical_message_body (MkHandler author) body = Ok b → b = stored_body body.
Proof.
  intros Hh. unfold canonical_message_body.
  rewrite message_exact; [|done|done|by right|apply epoch_timestamp]. destruct (is_empty _); [done|]. by intros [= <-].
Qed.

(** A body the line format can carry comes back as it is. *)
Lemma stored_body_ok body : body_ok body → stored_body body = body.
Proof using PE SJ.
  intros Hb. pose (msg := MkMessage 1 0 Handler_system (lit "19700101T000000Z") body (extract_mentions body) (extract_links body)).
  destruct (render_parses [EntryMessage msg]) as [Hp _].
  { constructor; [|constructor]. refine (conj _ (conj _ (conj _ (conj _ (conj Hb (conj _ _)))))); try done; [by left|apply epoch_timestamp]. }
  cbn [map concat] in Hp. rewrite app_nil_r in Hp. unfold render_entry in Hp. simpl in Hp.
  rewrite message_exact in Hp; [|done|done|by left|apply epoch_timestamp]. destruct (is_empty _); [done|]. by injection Hp as ->.
Qed.

Lemma bounded_entries_all (es : list ThreadEntry) : bounded_entries es None None = es.
Proof. unfold bounded_entries. induction es as [|e es IH]; [done|]. simpl in *. by rewrite IH. Qed.

Lemma detail_stored env d t archived id m es :
  reads_ok env → g_repo d = clean t → stored (g_users d) t archived id m es →
  detail env d (MkLocated (session_dir archived id) archived) None None = Ok (MkDetail m es archived).
Proof.
  intros Hread Hrepo Hst. unfold detail. rewrite (load_meta_stored env d t Hread Hrepo _ _ _ _ Hst). cbn [res_bind].
  destruct (load_thread_stored env d t Hread Hrepo _ _ _ _ Hst) as [th ->]. cbn [res_bind snd lq_archived].
  by rewrite bounded_entries_all.
Qed.

Lemma check_create_same d d' id agent first author :
  (∀ h role, ensure_active_user d' h role = ensure_active_user d h role) →
  (∀ h, ensure_author_not_departed (as_daemon d') h = ensure_author_not_departed (as_daemon d) h) →
  check_create d' id agent first author = check_create d id agent first author.
Proof. intros Hu Ha. unfold check_create. by rewrite !Hu, Ha. Qed.

(** A repeated create finds the session it made.  After a create that made the
    session, the same request again changes nothing, and is answered with the same
    session whenever writing the first message down a second time does not change it;
    otherwise (a first message ending in blank lines) it is refused as a collision. *)
Theorem session_create_retry (env env' : SessionEnv) (d : GDaemon) (id agent first author : str)
    (resp : CreateSessionResponse) (Hd : session_runs d) (Henv : session_env_ok env) (Hread : reads_ok env')
    (Hnew : locate_session d id = Ok None)
    (Hfirst : so_response (handle_create_quick_session env d id agent first author) = Ok resp) :
  let d1 := so_state (handle_create_quick_session env d id agent first author) in
  handle_create_quick_session env' d1 id agent first author
  = returns d1 (if stored_body (stored_body first) =?? stored_body first then Ok resp else Err SessionIdCollision).
Proof.
  cbv zeta. destruct (session_runs_ok d Hd) as (t & Hrepo & Hok).
  destruct (create_effect env d t id agent first author Hrepo Hok Henv)
    as [(_ & _ & Hloc)|(b & rel & m & y & th & Hc & _ & Hid & Hfree & Hcr & -> & _ & Hresp)].
  { destruct Hloc as [loc Hloc]; [by rewrite Hfirst|]. by rewrite Hnew in Hloc. }
  rewrite Hfirst in Hresp. injection Hresp as ->. destruct Hcr as [-> Hy Hth (Hmid & Hmag & Hmcr) Hparse Hst].
  set (t' := put_session (session_dir false id) y th t) in *.
  set (d1 := push_pending env id 1 (with_repo d (clean t'))).
  destruct (push_pending_repo env id 1 (with_repo d (clean t'))) as [Hr Hus]. fold d1 in Hr, Hus. cbn [with_repo g_repo g_users] in Hr, Hus.
  rewrite <-Hus in Hst.
  assert (Hsame : ∀ h, (∀ role, ensure_active_user d1 h role = ensure_active_user d h role)
            ∧ ensure_author_not_departed (as_daemon d1) h = ensure_author_not_departed (as_daemon d) h).
  { intros h. apply (user_files_same d d1 t t' h Hrepo Hr); intros k Hk; apply put_session_users; auto. }
  destruct (check_create_Ok _ _ _ _ _ _ _ Hc) as (_ & _ & Hh & Hb). apply canonical_Ok in Hb as ->; [|done].
  unfold handle_create_quick_session.
  rewrite (check_create_same d d1), Hc by (intros h; apply Hsame). cbn [or_return].
  destruct (locate_active_stored d1 t' Hr id m _ Hid Hst) as [-> _]. cbn [or_return].
  unfold answer_existing. rewrite (detail_stored env' d1 t' false id m _ Hread Hr Hst). cbn [res_bind qd_meta qd_entries].
  rewrite !bool_decide_eq_true_2 by done. cbn [negb orb]. unfold first_matches. cbn [m_line_number m_point_to m_author m_body stored_message].
  rewrite (bool_decide_eq_true_2 (handler_str _ = _)) by done. cbn [N.eqb Pos.eqb andb].
  unfold thread_entries. rewrite Hparse. cbn [entries]. by case_bool_decide.
Qed.

(** ** Work that is offered can be taken *)

(** Commits of existing files succeed. *)
Definition commits (env : SessionEnv) : Prop :=
  ∀ ps r, Forall (λ p, path_exists (r_work r) p = true) ps → (add_and_commit_as (se_commit env) ps r).2 = true.

Lemma list_one_Some env d archived agent status id item :
  list_one env d archived agent true status id = Some item →
  validate_quick_session_id id = Ok tt ∧
  ∃ m th es line, load_meta env d (MkLocated (session_dir archived id) archived) = Ok m
    ∧ load_thread env d (MkLocated (session_dir archived id) archived) = Ok (th, es)
    ∧ item = from_meta m archived ∧ (∀ a, agent = Some a → qs_agent_id m = a)
    ∧ (qs_status m = NeedsTitle ∨ qs_status m = Active)
    ∧ newest_creator_line (qs_created_by m) es = Some line
    ∧ (∀ c, qs_last_completed_input_line m = Some c → c < line).
Proof.
  unfold list_one. destruct (session_rel_dir id archived) as [rel|e|] eqn:Hrel; [|done..].
  apply session_rel_dir_Ok in Hrel as [Hid ->]. cbn [res_ok mbind option_bind].
  destruct (load_meta _ _ _) as [m|e|] eqn:Hm; cbn [res_ok mbind option_bind]; [|done..].
  destruct (is_some_and agent _) eqn:Hag; [done|]. destruct (is_some_and status _); [done|]. cbn [negb].
  destruct (_ || _) eqn:Hs; cbn [negb]; [|done].
  destruct (load_thread _ _ _) as [[th es]|e|] eqn:Hth; cbn [res_ok mbind option_bind snd]; [|done..].
  destruct (newest_creator_line _ es) as [line|] eqn:Hn; cbn [is_none_or]; [|done].
  destruct (is_some_and (qs_last_completed_input_line m) _) eqn:Hc; [done|]. intros [= <-].
  split; [done|]. exists m, th, es, line. split_and!; [done..| | | |].
  - intros a ->. cbn in Hag. apply negb_false_iff, bool_decide_eq_true in Hag. done.
  - apply orb_true_iff in Hs as [Hs|Hs]; apply bool_decide_eq_true in Hs; auto.
  - done.
  - intros c Hc'. rewrite Hc' in Hc. cbn in Hc. by apply N.leb_gt in Hc.
Qed.

Lemma finish_applied_run m now :
  qs_revision m < u64_MAX → finish_applied m now = Ok (set_revision (qs_revision m + 1) (set_updated_at now m), Applied).
Proof. intros H. apply finish_applied_Ok. split_and!; [done|lia|done]. Qed.

Lemma claim_run m line att now :
  session_ok m → attempt_ok att → qs_status m = NeedsTitle ∨ qs_status m = Active → qs_last_human_line m = Some line →
  (∀ c, qs_last_completed_input_line m = Some c → c < line) → qs_revision m < u64_MAX →
  ∃ m', apply_transition m (Claim (qs_agent_id m) line att now) = Ok (m', Applied)
        ∧ qs_status m' = Running ∧ qs_revision m' = qs_revision m + 1.
Proof.
  intros Hm Hat Hs Hl Hc Hr. cbn [apply_transition]. unfold claim, require_agent.
  rewrite bool_decide_eq_true_2 by done. cbn [res_bind]. rewrite (proj2 (attempt_id_Ok att tt) Hat). cbn [res_bind].
  assert ((qs_status m =?? Running) = false) as ->. { apply bool_decide_eq_false. destruct Hs; congruence. }
  cbn [andb].
  assert (negb ((qs_status m =?? NeedsTitle) || (qs_status m =?? Active)) = false) as ->.
  { apply negb_false_iff, orb_true_iff. destruct Hs; [left|right]; by apply bool_decide_eq_true. }
  cbn [guard_err res_bind]. rewrite Hl, bool_decide_eq_true_2 by done. cbn [negb guard_err res_bind].
  assert ((line =? 0) || is_some_and (qs_last_completed_input_line m) (λ c, line <=? c) = false) as ->.
  { apply orb_false_iff. split.
    - apply N.eqb_neq. intros ->. by destruct (human_positive _ (s_lines _ Hm)).
    - destruct (qs_last_completed_input_line m) as [c|]; [|done]. cbn. apply N.leb_gt. by apply Hc. }
  cbn [guard_err res_bind]. eexists. split; [apply finish_applied_run; exact Hr|]. done.
Qed.

(** A metadata change goes through when everything works. *)
Lemma meta_change_run {A} env d t id tr m es m' (response : QuickSessionMeta → A) :
  session_env_ok env → reads_ok env → se_reread_ok env = true → se_meta_write_ok env = true → commits env →
  is_Some (yaml_to_string m') → g_repo d = clean t → validate_quick_session_id id = Ok tt →
  stored (g_users d) t false id m es → apply_transition m tr = Ok (m', Applied) →
  so_response (apply_meta_transition env d id tr response) = Ok (response m').
Proof.
  intros Henv Hread Hre Hw Hcom [y Hy] Hrepo Hid Hst Htr. unfold apply_meta_transition, prepare_meta_transition.
  destruct (locate_active_stored d t Hrepo id m es Hid Hst) as [_ ->]. cbn [res_bind].
  rewrite (load_meta_stored env d t Hread Hrepo false id m es Hst). cbn [res_bind lq_rel_dir].
  unfold reread_meta. rewrite Hre, Hrepo. cbn [clean r_work].
  destruct (t !! session_meta_of (session_dir false id)) as [oy|] eqn:Hoy; [|destruct Hst as [Hst _]; by rewrite Hoy in Hst].
  cbn [ok_or res_bind]. rewrite (apply_valid m) by apply (con_valid _ _ _ _ _ (proj2 (proj2 Hst))). rewrite Htr.
  cbn [map_err res_bind]. unfold meta_yaml. rewrite Hy. cbn [ok_or res_bind or_return].
  unfold write_meta, atomic_write_file. cbn [clean r_work]. rewrite (dir_exists t _ oy Hoy), Hw. cbn [andb negb].
  destruct (add_and_commit_as _ _ _) as [r2 ok] eqn:Hc.
  assert (ok = true) as ->; [|done]. rewrite <-(Hcom [session_meta_of (session_dir false id)]
    (write_work (session_meta_of (session_dir false id)) y (clean t))); [by rewrite Hc|].
  constructor; [|constructor]. apply lookup_path_exists. cbn. rewrite lookup_insert_eq. by eexists.
Qed.

(** C6: work that is offered can be taken.  A session the actionable listing returns
    to its agent, while the agent is an active user and the revision is below 2^64 - 1,
    can be claimed: there is a line of the creator, newer than every
    answered one, for which the agent's claim with any valid attempt id succeeds as
    soon as files can be written and committed, and sets the session running. *)
Theorem actionable_sessions_claimable (env env' : SessionEnv) (d : GDaemon) (agent : option str)
    (status : option QuickSessionStatus) (limit : option nat) (items : list QuickSessionListItem)
    (item : QuickSessionListItem) (attempt : str)
    (Hd : session_runs d) (Henv : session_env_ok env') (Hread : reads_ok env') (Hreread : se_reread_ok env' = true)
    (Hwrite : se_meta_write_ok env' = true) (Hcommit : commits env')
    (Hyaml : ∀ m : QuickSessionMeta, is_Some (yaml_to_string m)) (Hattempt : attempt_ok attempt)
    (Hlist : handle_list_quick_sessions env d false agent true status limit = Ok items) (Hin : item ∈ items)
    (Huser : is_ok (ensure_active_user d (qi_agent_id item) (lit "author")) = true) (Hrev : qi_revision item < u64_MAX) :
  ∃ line, so_response (handle_claim_quick_session_turn env' d (qi_id item) line attempt (qi_agent_id item))
          = Ok (MkClaimResponse (qi_id item) line attempt Running (qi_revision item + 1)).
Proof.
  destruct (session_runs_ok d Hd) as (t & Hrepo & Hok).
  unfold handle_list_quick_sessions in Hlist. apply try_Ok in Hlist as [_ [= <-]].
  apply elem_of_take in Hin as (i & Hi & _). apply list_elem_of_lookup_2 in Hi. rewrite sort_by_key_perm in Hi.
  apply list_elem_of_omap in Hi as (id & _ & Hone).
  destruct (list_one_Some _ _ _ _ _ _ _ Hone) as (Hid & m & th & es & line & Hm & Hth & -> & _ & Hs & Hn & Hc).
  assert (Hex : path_exists t (session_dir false id) = true).
  { unfold load_meta, read_session_file in Hm. cbn [lq_rel_dir] in Hm. rewrite Hrepo in Hm. cbn [clean r_work] in Hm.
    apply res_bind_Ok in Hm as (y & Hy%ok_or_Ok & _). case_match; [|done]. by apply (dir_exists t _ y). }
  destruct (proj1 Hok false id Hid Hex) as (m0 & es0 & Hst).
  pose proof (load_meta_Ok d t Hrepo env (MkLocated (session_dir false id) false) _ _ _ _ _ Hst eq_refl Hm) as ->.
  destruct (load_thread_Ok d t Hrepo env (MkLocated (session_dir false id) false) _ _ _ _ _ _ Hst eq_refl Hth) as (-> & _).
  pose proof (proj2 (proj2 Hst)) as Hcon. pose proof (con_newest _ _ _ _ _ Hcon) as Hnew. rewrite Hn in Hnew.
  cbn [from_meta qi_id qi_agent_id qi_revision] in *. rewrite (con_id _ _ _ _ _ Hcon).
  destruct (claim_run m0 line attempt (se_now env') (con_valid _ _ _ _ _ Hcon) Hattempt Hs (eq_sym Hnew) Hc Hrev)
    as (m' & Htr & Hs' & Hr').
  exists line. apply is_ok_Ok in Huser as [h Hu]. unfold handle_claim_quick_session_turn, check_claim. rewrite Hu. cbn [res_bind].
  destruct (locate_active_stored d t Hrepo id m0 es0 Hid Hst) as [_ ->]. cbn [res_bind].
  rewrite (load_meta_stored env' d t Hread Hrepo false id m0 es0 Hst). cbn [res_bind].
  rewrite (bool_decide_eq_true_2 (qs_agent_id m0 = qs_agent_id m0)) by done. cbn [negb guard_err res_bind].
  destruct (load_thread_stored env' d t Hread Hrepo false id m0 es0 Hst) as [th' ->]. cbn [res_bind snd].
  rewrite Hn. rewrite (bool_decide_eq_true_2 (Some line = Some line)) by done. cbn [negb]. rewrite andb_false_r. cbn [guard_err or_return].
  by rewrite (meta_change_run env' d t id _ m0 es0 m'), Hs', Hr'.
Qed.
End store.

(** ** A run *)

Definition status_code (s : QuickSessionStatus) : str :=
  match s with NeedsTitle => [0] | Running => [1] | Active => [2] | Error => [3] | Archived => [4] end.

Definition status_of_code (s : str) : QuickSessionStatus :=
  match s with [0] => NeedsTitle | [1] => Running | [2] => Active | [3] => Error | _ => Archived end.

Lemma status_code_back s : status_of_code (status_code s) = s.
Proof. by destruct s. Qed.

Definition opt_text (o : option str) : list str := option_list o.
Definition opt_line (o : option N) : list str := option_list ((λ n, [n]) <$> o).
Definition opt_status (o : option QuickSessionStatus) : list str := option_list (status_code <$> o).

Lemma opt_text_back o : head (opt_text o) = o.
Proof. by destruct o. Qed.
Lemma opt_line_back o : (head (opt_line o) ≫= head) = o.
Proof. by destruct o. Qed.
Lemma opt_status_back o : status_of_code <$> head (opt_status o) = o.
Proof. destruct o as [s|]; [|done]. cbn. by rewrite status_code_back. Qed.

Definition session_meta_yaml : Yaml QuickSessionMeta.
Proof.
  refine (fields_yaml
    (λ m, [[qs_id m]; opt_text (qs_title m); [qs_agent_id m]; [qs_created_by m]; [status_code (qs_status m)];
           [qs_created_at m]; [qs_updated_at m]; opt_text (qs_archived_at m); opt_status (qs_archived_from m);
           opt_text (qs_summary m); opt_text (qs_summary_updated_at m); [qs_last_message_preview m]; opt_text (qs_error m);
           opt_line (qs_processing_input_line m); opt_text (qs_processing_started_at m); opt_text (qs_attempt_id m);
           opt_text (qs_last_completed_attempt_id m); opt_line (qs_last_completed_input_line m);
           opt_line (qs_last_completed_line m); opt_text (qs_last_failed_attempt_id m);
           opt_text (qs_last_human_request_id m); opt_line (qs_last_human_line m); [[qs_revision m]]])
    (λ fs, match fs with
           | [[a]; b; [c]; [e]; [f]; [g]; [h]; i; j; k; l; [n]; o; p; q; r; s; t; u; v; w; x; [[y]]] =>
               Some (MkQuickSessionMeta a (head b) c e (status_of_code f) g h (head i) (status_of_code <$> head j) (head k)
                       (head l) n (head o) (head p ≫= head) (head q) (head r) (head s) (head t ≫= head) (head u ≫= head)
                       (head v) (head w) (head x ≫= head) y)
           | _ => None
           end) _).
  intros m. rewrite !opt_text_back, !opt_line_back, opt_status_back, status_code_back. by destruct m.
Defined.

Section runs.
#[local] Existing Instance ascii_unicode.
#[local] Existing Instance std_percent_encoding.
#[local] Existing Instance keyword_json.
#[local] Existing Instance session_meta_yaml.
#[local] Existing Instance plain_git.

Definition session_env (commit_env : PlainEnv) : SessionEnv :=
  MkSessionEnv (lit "20260101T000000Z") (λ _, true) true true true true true true true (works, commit_env) works works works
    (Some (lit "abc123")) true (λ _, [ex_id]).
Definition working_env : SessionEnv := session_env works.
Definition failing_env : SessionEnv := session_env breaks.

Lemma session_env_works commit_env : session_env_ok (session_env commit_env).
Proof.
  constructor; try reflexivity.
  - intros ps r. eexists. reflexivity.
  - intros from to r Hf Ht. cbn. unfold plain_mv. rewrite Hf, Ht. by eexists.
Qed.

Lemma session_env_reads commit_env : reads_ok (session_env commit_env).
Proof. done. Qed.

Lemma working_commits : commits working_env.
Proof.
  intros ps r Hps. unfold add_and_commit_as. cbn. unfold plain_add. cbn.
  assert (forallb (λ p, path_exists (r_work r) p || path_exists (r_index r) p) ps = true) as ->; [|done].
  apply forallb_Forall. eapply Forall_impl; [exact Hps|]. intros p Hp. simpl in *. by rewrite Hp.
Qed.

Definition session_start : GDaemon :=
  let t : tree := <[user_file (lit "alice") := []]> (<[user_file (lit "bot") := []]> ∅) in
  MkGDaemon (clean t) [lit "alice"; lit "bot"] [] true.

Lemma session_start_runs : session_runs session_start.
Proof.
  eapply run_start; [done|]. intros k Hk. rewrite lookup_insert_is_Some', lookup_insert_is_Some' in Hk.
  destruct Hk as [<-|[<-|Hk]]; [by vm_compute..|]. by rewrite lookup_empty in Hk; destruct Hk.
Qed.

Definition hello : str := lit "please help".
Definition session_created : GDaemon :=
  serve_session working_env session_start (ReqSessionCreate ex_id (lit "bot") hello (lit "alice")).
Definition session_claimed : GDaemon :=
  serve_session working_env session_created (ReqSessionClaim ex_id 1 ex_attempt (lit "bot")).
Definition session_titled : GDaemon :=
  serve_session working_env session_claimed (ReqSessionTitle ex_id (lit "Help") ex_attempt (lit "bot")).
Definition session_answered : GDaemon :=
  serve_session working_env session_titled (ReqSessionSend ex_id (lit "done") (Some 1) None (Some ex_attempt) (lit "bot")).

Lemma session_created_runs : session_runs session_created.
Proof. apply run_serve; [apply session_start_runs|apply session_env_works|done]. Qed.

Lemma session_titled_runs : session_runs session_titled.
Proof.
  apply run_serve; [|apply session_env_works|done]. apply run_serve; [|apply session_env_works|done].
  apply session_created_runs.
Qed.

Lemma session_answered_runs : session_runs session_answered.
Proof. apply run_serve; [apply session_titled_runs|apply session_env_works|done]. Qed.

Lemma stored_sessions_consistent_witness :
  ∃ t m es, g_repo session_answered = clean t ∧ stored (g_users session_answered) t false ex_id m es.
Proof.
  destruct (stored_sessions_consistent session_answered session_answered_runs) as (t & Hrepo & Hall).
  destruct (Hall false ex_id) as (_ & m & es & Hst).
  - vm_compute. reflexivity.
  - change t with (r_work (clean t)). rewrite <-Hrepo. vm_compute. reflexivity.
  - exists t, m, es. split; [exact Hrepo|exact Hst].
Defined.

(** The reply of the run, and one whose commit fails. *)
Lemma session_send_exact_witness :
  g_repo (so_state (handle_send_quick_session_message failing_env session_titled ex_id (lit "done") (Some 1) None
                      (Some ex_attempt) (lit "bot"))) = g_repo session_titled
  ∧ ∃ t' m' es', g_repo session_answered = clean t' ∧ stored (g_users session_titled) t' false ex_id m' es'.
Proof.
  split.
  - pose proof (session_send_exact failing_env session_titled ex_id (lit "done") (Some 1) None (Some ex_attempt) (lit "bot")
                  session_titled_runs (session_env_works _) ltac:(vm_compute; discriminate)) as H. cbv zeta in H.
    assert (so_response (handle_send_quick_session_message failing_env session_titled ex_id (lit "done") (Some 1) None
                      (Some ex_attempt) (lit "bot")) = Err SessionCommit) as E by (vm_compute; reflexivity).
    rewrite E in H. by destruct H as [-> _].
  - pose proof (session_send_exact working_env session_titled ex_id (lit "done") (Some 1) None (Some ex_attempt) (lit "bot")
                  session_titled_runs (session_env_works _) ltac:(vm_compute; discriminate)) as H. cbv zeta in H.
    destruct (so_response _) as [resp|e|] eqn:E; [|vm_compute in E; discriminate E..].
    destruct H as (t & m & es & _ & _ & [(_ & Hev & _)|(t' & m' & Hr & _ & Hst & _)]); [vm_compute in Hev; discriminate Hev|].
    eexists t', m', _. split; [exact Hr|exact Hst].
Defined.

Definition answer_resp : SendSessionResponse := MkSendSessionResponse ex_id 2 Active 5 (lit "session:" ++ ex_id).

Lemma session_send_retry_witness :
  handle_send_quick_session_message failing_env session_answered ex_id (lit "done") (Some 1) None (Some ex_attempt) (lit "bot")
  = returns session_answered (Ok answer_resp).
Proof.
  refine (session_send_retry working_env failing_env session_titled ex_id (lit "done") (Some 1) None (Some ex_attempt) (lit "bot")
            answer_resp session_titled_runs (session_env_works _) _ (session_env_reads _) _).
  - vm_compute. discriminate.
  - vm_compute. reflexivity.
Defined.

Lemma session_create_retry_witness :
  ∃ resp, handle_create_quick_session failing_env session_created ex_id (lit "bot") hello (lit "alice")
          = returns session_created (Ok resp).
Proof.
  destruct (so_response (handle_create_quick_session working_env session_start ex_id (lit "bot") hello (lit "alice")))
    as [resp|e|] eqn:E; [|vm_compute in E; discriminate E..].
  exists resp. etransitivity.
  - refine (session_create_retry working_env failing_env session_start ex_id (lit "bot") hello (lit "alice") resp
              session_start_runs (session_env_works _) (session_env_reads _) _ E). vm_compute. reflexivity.
  - reflexivity.
Defined.

(** A first message that ends in a blank line is stored without it, so that the same
    request again is refused. *)
Definition hello_blank : str := lit "please help

".

Example create_retry_collides :
  let d1 := so_state (handle_create_quick_session working_env session_start ex_id (lit "bot") hello_blank (lit "alice")) in
  is_ok (so_response (handle_create_quick_session working_env session_start ex_id (lit "bot") hello_blank (lit "alice"))) = true
  ∧ so_response (handle_create_quick_session working_env d1 ex_id (lit "bot") hello_blank (lit "alice"))
    = Err SessionIdCollision.
Proof. by vm_compute. Qed.

Definition listed : list QuickSessionListItem :=
  match handle_list_quick_sessions working_env session_created false (Some (lit "bot")) true None None with
  | Ok items => items
  | _ => []
  end.
Definition listed_item : QuickSessionListItem :=
  MkListItem ex_id None (lit "bot") (lit "alice") NeedsTitle (lit "20260101T000000Z") hello 2 false (lit "session:" ++ ex_id).

Lemma actionable_sessions_claimable_witness :
  ∃ line, so_response (handle_claim_quick_session_turn working_env session_created ex_id line ex_attempt (lit "bot"))
          = Ok (MkClaimResponse ex_id line ex_attempt Running 3).
Proof.
  refine (actionable_sessions_claimable working_env working_env session_created (Some (lit "bot")) None None listed listed_item
            ex_attempt session_created_runs (session_env_works _) (session_env_reads _) eq_refl eq_refl working_commits _ _ _ _ _ _).
  - intros m. by eexists.
  - vm_compute. reflexivity.
  - vm_compute. reflexivity.
  - assert (listed = [listed_item]) as -> by (vm_compute; reflexivity). by left.
  - vm_compute. reflexivity.
  - vm_compute. reflexivity.
Defined.
End runs.
