(* ===== verification/Cron.v ===== *)
(** * Cron triggers

    A cron trigger is a directory [crons/<name>] with a specification and one thread
    file per firing, named by the time it was due; deleting one moves the directory
    to [archive/crons/<name>].  The file holds the specification and its validation
    ([gitim-core/src/types/cron.rs]), the names of thread files
    ([gitim-daemon/src/cron_paths.rs]), the engine that scans and fires
    ([gitim-daemon/src/cron_engine.rs]), its loop ([state.rs]) and the handlers
    ([gitim-daemon/src/handlers/cron.rs]).

    An instant is an integer that orders like [chrono::DateTime<Utc>]: seconds times
    2·10^9 plus the nanosecond field, which reaches 2·10^9 only in a leap second. *)

From S2P Require Import Prelude RustStr StrFacts Names QuickSession Asset Links Thread Compliance Meta Git Daemon Cards.
From stdpp Require Import options.
Open Scope N_scope.
Open Scope list_scope.

Definition MAX_PROMPT_BYTES : N := 8 * 1024.
Definition CURRENT_VERSION : N := 1.

(** ** Time *)

Definition seconds (n : Z) : Z := (n * 2000000000)%Z.

Definition GRACE_WINDOW : Z := seconds 120.

Definition whole_second (t : Z) : Prop := (t mod seconds 1 = 0)%Z.

(** The years 0000 to 9999, which RFC 3339 writes with four digits. *)
Definition rfc3339_range (t : Z) : Prop := (seconds (-62167219200) ≤ t < seconds 253402300800)%Z.

Definition colon : char := ch ":".
Definition dash : char := ch "-".

(** [chrono]: reading RFC 3339, writing it to the second with [Z], and the compact form
    [%Y%m%dT%H%M%SZ]. *)
Class Chrono := {
  parse_from_rfc3339 : str → res Z str;
  to_rfc3339_secs : Z → str;
  format_compact : Z → str;
  rfc3339_form : ∀ t, rfc3339_range t →
    ∃ date time, to_rfc3339_secs t = date ++ ch "T" :: time
                 ∧ (ch "T" ∉ date) ∧ (colon ∉ date) ∧ (dash ∉ time) ∧ (slash ∉ date ++ time);
  rfc3339_roundtrip : ∀ t, rfc3339_range t → whole_second t → parse_from_rfc3339 (to_rfc3339_secs t) = Ok t;
  rfc3339_utc : ∀ t, ends_with (to_rfc3339_secs t) (lit "Z") = true;
  compact_form : ∀ t, rfc3339_range t →
    ∃ date time, format_compact t = date ++ lit "T" ++ time ++ lit "Z"
                 ∧ length date = 8%nat ∧ length time = 6%nat ∧ all_digits date ∧ all_digits time;
}.

(** [croner] and [chrono_tz]: schedules, zones, and the first occurrence strictly after
    an instant. *)
Class Croner := {
  schedule : Type;
  zone : Type;
  Cron_from_str : str → res schedule str;
  Tz_from_str : str → res zone str;
  Tz_UTC : zone;
  find_next_occurrence : schedule → zone → Z → res Z str;
  next_is_later : ∀ c tz a t, find_next_occurrence c tz a = Ok t → (a < t)%Z;
  next_is_whole : ∀ c tz a t, find_next_occurrence c tz a = Ok t → whole_second t;
}.

(** [s.replace(a, b)] for single characters. *)
Definition replace_char (a b : char) (s : str) : str := map (λ c, if c =? a then b else c) s.

(** [str::eq_ignore_ascii_case]. *)
Definition eq_ignore_ascii_case (a b : str) : bool := map ascii_lower a =?? map ascii_lower b.

Definition CRONS : str := lit "crons".
Definition ARCHIVE_CRONS : str := lit "archive/crons".
Definition cron_dir (name : str) : str := under CRONS name.
Definition archive_dir (name : str) : str := under ARCHIVE_CRONS name.
Definition spec_of (dir : str) : str := under dir (lit "spec.yaml").

Section cron.
Context `{UC : !Unicode} `{PE : !PercentEncoding} `{SJ : !SerdeJson} `{CH : !Chrono} `{CR : !Croner} `{GI : !Git}.

(** ** Specifications *)

Record CronSpec := MkCronSpec {
  cs_version : N;
  cs_schedule : str;
  cs_timezone : option str;
  cs_target : Handler;
  cs_prompt : str;
  cs_enabled : bool;
  cs_created_by : Handler;
  cs_created_at : str;
  cs_extra : list (str * json);
}.

Definition set_enabled (b : bool) (s : CronSpec) : CronSpec :=
  MkCronSpec (cs_version s) (cs_schedule s) (cs_timezone s) (cs_target s) (cs_prompt s) b
    (cs_created_by s) (cs_created_at s) (cs_extra s).

(** [serde_yaml] on specifications, and as untyped values.  [spec_exact] holds of the
    values whose text gives them back: those read from text, also with the flag
    changed, and those with valid handlers and no further fields. *)
Class CronYaml := {
  spec_to_string : CronSpec → option str;
  spec_from_str : str → option CronSpec;
  spec_exact : CronSpec → Prop;
  yaml_value : Type;
  yaml_value_from_str : str → option yaml_value;
  spec_read_exact : ∀ t s b, spec_from_str t = Some s → spec_exact (set_enabled b s);
  spec_new_exact : ∀ s h1 h2, Handler_new h1 = Ok (cs_target s) → Handler_new h2 = Ok (cs_created_by s) →
    cs_extra s = [] → spec_exact s;
  spec_roundtrip : ∀ s t, spec_exact s → spec_to_string s = Some t → spec_from_str t = Some s;
}.

Context `{CY : !CronYaml}.

Inductive CronSpecError :=
  | InvalidVersion (v : N)
  | InvalidSchedule (e : str)
  | InvalidTimezone (e : str)
  | EmptyPrompt
  | OversizedPrompt (n : N)
  | InvalidCreatedAt (e : str)
  | CreatedAtNotUtc (s : str)
  | SpecYaml.

Definition validate (s : CronSpec) : res unit CronSpecError :=
  try? guard_err (negb (cs_version s =? CURRENT_VERSION)) (InvalidVersion (cs_version s)) then
  try? map_err InvalidSchedule (Cron_from_str (cs_schedule s)) then
  try? if_some (cs_timezone s) (λ tz,
         try? map_err (λ e, InvalidTimezone (tz ++ lit ": " ++ e)) (Tz_from_str tz) then Ok tt) then
  try? guard_err (is_empty (cs_prompt s)) EmptyPrompt then
  try? guard_err (MAX_PROMPT_BYTES <? len (cs_prompt s)) (OversizedPrompt (len (cs_prompt s))) then
  try? map_err (λ e, InvalidCreatedAt (cs_created_at s ++ lit ": " ++ e)) (parse_from_rfc3339 (cs_created_at s)) then
  guard_err (negb (ends_with (cs_created_at s) (lit "Z"))) (CreatedAtNotUtc (cs_created_at s)).

Definition from_yaml (text : str) : res CronSpec CronSpecError :=
  let? spec := ok_or (spec_from_str text) SpecYaml in
  try? validate spec then
  Ok spec.

Definition to_yaml (s : CronSpec) : res str CronSpecError := ok_or (spec_to_string s) SpecYaml.

Definition is_active (s : CronSpec) : bool := cs_enabled s.

Definition next_fire_after (spec : CronSpec) (after : Z) : res Z CronSpecError :=
  let? cron := map_err InvalidSchedule (Cron_from_str (cs_schedule spec)) in
  let? tz := match cs_timezone spec with
             | Some s => map_err (λ e, InvalidTimezone (s ++ lit ": " ++ e)) (Tz_from_str s)
             | None => Ok Tz_UTC
             end in
  map_err InvalidSchedule (find_next_occurrence cron tz after).

(** ** Names of thread files *)

Definition parse_thread_filename_ts (stem : str) : option Z :=
  '(date_part, time_part) ← split_once (lit "T") stem;
  let time_with_colons := replace_char dash colon time_part in
  res_ok (parse_from_rfc3339 (date_part ++ lit "T" ++ time_with_colons)).

Definition format_thread_filename_ts (ts : Z) : str := replace_char colon dash (to_rfc3339_secs ts).

Definition thread_name (ts : Z) : str := format_thread_filename_ts ts ++ lit ".thread".

(** ** What the environment answers

    The clock, directory listings (in any order, possibly without some entries),
    reads, writes and git. *)
Record CronEnv := MkCronEnv {
  cv_now : Z;
  cv_read_dir_ok : str → bool;
  cv_entry_ok : str → bool;
  cv_order : list str → list str;
  cv_read_ok : str → bool;
  cv_reread_ok : bool;
  cv_mkdir_ok : bool;
  cv_write_ok : bool;
  cv_remove_ok : bool;
  cv_restore_ok : bool;
  cv_commit : CommitEnv;
  cv_mv : git_env;
  cv_rollback : git_env;
}.

Inductive ReadDir := DirEntries (names : list str) | DirMissing | DirError.

(** [read_dir] with [flatten] over its entries. *)
Definition read_dir (env : CronEnv) (t : tree) (dir : str) : ReadDir :=
  if negb (cv_read_dir_ok env dir) || is_some (t !! dir) then DirError
  else if path_exists t dir
       then DirEntries (List.filter (λ name, cv_entry_ok env (under dir name)) (cv_order env (entries_in t dir)))
       else DirMissing.

Definition read_to_string (env : CronEnv) (t : tree) (path : str) : option str :=
  if cv_read_ok env path then t !! path else None.

(** ** The engine *)

Record FireRequest := MkFireRequest {
  fr_spec_name : str;
  fr_spec : CronSpec;
  fr_theoretical_ts : Z;
}.

Inductive CronEngineError :=
  | CronsDirRead
  | ThreadWrite (path : str)
  | GitCommit.

(** One entry of the loop of [latest_fire_in_dir]. *)
Definition later_fire (latest : option Z) (fname : str) : option Z :=
  match strip_suffix (lit ".thread") fname with
  | None => latest
  | Some stem =>
      match parse_thread_filename_ts stem with
      | None => latest
      | Some ts => Some (match latest with Some cur => Z.max cur ts | None => ts end)
      end
  end.

Definition latest_fire_in_dir (env : CronEnv) (t : tree) (spec_dir : str) : option Z :=
  match read_dir env t spec_dir with
  | DirEntries names => fold_left later_fire names None
  | _ => None
  end.

Definition dest_already_exists (t : tree) (spec_dir : str) (theoretical_ts : Z) : bool :=
  path_exists t (under spec_dir (thread_name theoretical_ts)).

Definition scan_one (env : CronEnv) (t : tree) (spec_dir spec_name : str) (self_handler : Handler) (now : Z)
  : option FireRequest :=
  body ← read_to_string env t (spec_of spec_dir);
  spec ← res_ok (from_yaml body);
  if negb (is_active spec) then None else
  if negb (handler_str (cs_target spec) =?? handler_str self_handler) then None else
  raw_anchor ← match latest_fire_in_dir env t spec_dir with
               | Some ts => Some ts
               | None => res_ok (parse_from_rfc3339 (cs_created_at spec))
               end;
  let cutoff := (now - GRACE_WINDOW)%Z in
  let anchor := if (raw_anchor <? cutoff)%Z then cutoff else raw_anchor in
  next_due ← res_ok (next_fire_after spec anchor);
  if (now <? next_due)%Z then None else
  if dest_already_exists t spec_dir next_due then None else
  Some (MkFireRequest spec_name spec next_due).

Definition scan_due (env : CronEnv) (t : tree) (self_handler : Handler) (now : Z) : res (list FireRequest) CronEngineError :=
  match read_dir env t CRONS with
  | DirMissing => Ok []
  | DirError => Err CronsDirRead
  | DirEntries names =>
      Ok (omap (λ spec_name, if negb (is_dir t (under CRONS spec_name)) then None
                             else scan_one env t (under CRONS spec_name) spec_name self_handler now) names)
  end.

Definition format_cron_body (spec_name prompt : str) (theoretical_ts : Z) : str :=
  let ts_compact := format_compact theoretical_ts in
  let body_text := lit "cron(" ++ spec_name ++ lit "): " ++ prompt in
  format_message 1 0 Handler_system ts_compact body_text.

(** [std::fs::remove_file]. *)
Definition remove_work (ok : bool) (path : str) (r : Repo) : Repo :=
  if ok then MkRepo (delete path (r_work r)) (r_index r) (r_head r) else r.

(** The three ways [fire] returns [Ok(())]. *)
Inductive FireOutcome := SpecDeleted | AlreadyFired | Fired.

Definition fire_dest (request : FireRequest) : str :=
  under (cron_dir (fr_spec_name request)) (thread_name (fr_theoretical_ts request)).

Definition fire_body (request : FireRequest) : str :=
  format_cron_body (fr_spec_name request) (cs_prompt (fr_spec request)) (fr_theoretical_ts request).

Definition fire (env : CronEnv) (r : Repo) (request : FireRequest) : Repo * res FireOutcome CronEngineError :=
  let spec_dir := cron_dir (fr_spec_name request) in
  let dest_path := fire_dest request in
  let body := fire_body request in
  if negb (path_exists (r_work r) (spec_of spec_dir)) then (r, Ok SpecDeleted)
  else if path_exists (r_work r) dest_path then (r, Ok AlreadyFired)
  else if negb (cv_mkdir_ok env) then (r, Err (ThreadWrite dest_path))
  else if negb (cv_write_ok env) then (r, Err (ThreadWrite dest_path))
  else
    let '(r2, committed) := add_and_commit_as (cv_commit env) [dest_path] (write_work dest_path body r) in
    if negb committed then (remove_work (cv_remove_ok env) dest_path r2, Err GitCommit)
    else (r2, Ok Fired).

(** ** The handlers *)

Inductive CronReqError :=
  | CronInvalidName (e : CronNameError)
  | CronInvalidAuthor (e : HandlerError)
  | CronSelfDeparted (h : str)
  | CronInvalidTarget (e : HandlerError)
  | CronTargetNotFound (h : str)
  | CronExists (name : str)
  | CronInArchive (name : str)
  | CronSpecInvalid (e : CronSpecError)
  | CronSerialize (e : CronSpecError)
  | CronMkdir
  | CronWrite
  | CronCommit
  | CronNotFound (name : str)
  | CronSpecUnreadable (name : str) (e : option CronSpecError)
  | CronYamlUnreadable (name : str)
  | CronArchiveConflict (name : str)
  | CronGitMv.

(** The [error_code] of a response. *)
Definition cron_error_code (e : CronReqError) : str :=
  match e with
  | CronInvalidName _ => lit "invalid_name"
  | CronInvalidAuthor _ => lit "invalid_author"
  | CronSelfDeparted _ => lit "self_departed"
  | CronInvalidTarget _ => lit "invalid_target"
  | CronTargetNotFound _ => lit "target_not_found"
  | CronExists _ | CronInArchive _ => lit "name_conflict"
  | CronSpecInvalid e =>
      match e with
      | InvalidSchedule _ => lit "invalid_schedule"
      | InvalidTimezone _ => lit "invalid_timezone"
      | EmptyPrompt => lit "prompt_empty"
      | OversizedPrompt _ => lit "prompt_too_large"
      | InvalidVersion _ => lit "invalid_version"
      | InvalidCreatedAt _ | CreatedAtNotUtc _ => lit "invalid_created_at"
      | SpecYaml => lit "invalid_spec"
      end
  | CronSerialize _ => lit "serialize_failed"
  | CronMkdir | CronWrite => lit "fs_error"
  | CronCommit => lit "commit_failed"
  | CronNotFound _ => lit "not_found"
  | CronSpecUnreadable _ _ | CronYamlUnreadable _ => lit "spec_unreadable"
  | CronArchiveConflict _ => lit "archive_conflict"
  | CronGitMv => lit "git_error"
  end.

Record CreateCronResponse := MkCreateCronResponse { ccr_name : str; ccr_created_by : str; ccr_target : str }.
Record ToggleCronResponse := MkToggleCronResponse { tcr_name : str; tcr_enabled : bool; tcr_changed : bool }.
Record DeleteCronResponse := MkDeleteCronResponse { dcr_name : str; dcr_deleted_by : str }.

(** The name, author and departed checks the writing handlers share. *)
Definition check_author (d : GDaemon) (name author : str) : res Handler CronReqError :=
  try? map_err CronInvalidName (validate_cron_name name) then
  let? author_handler := map_err CronInvalidAuthor (Handler_new author) in
  try? map_err (λ _, CronSelfDeparted (handler_str author_handler))
         (ensure_author_not_departed (as_daemon d) (handler_str author_handler)) then
  Ok author_handler.

(** [@self] or the handler of a known user. *)
Definition resolve_target (d : GDaemon) (author_handler : Handler) (target : str) : res Handler CronReqError :=
  let stripped_at := unwrap_or (strip_prefix (lit "@") target) target in
  if eq_ignore_ascii_case stripped_at (lit "self") then Ok author_handler
  else
    let? h := map_err CronInvalidTarget (Handler_new stripped_at) in
    try? guard_err (negb (path_exists (r_work (g_repo d)) (meta_path (lit "users") (handler_str h))))
           (CronTargetNotFound (handler_str h)) then
    Ok h.

(** What [handle_create_cron] does before it takes the lock: the specification and its text. *)
Definition check_create_cron (env : CronEnv) (d : GDaemon) (name schedule : str) (timezone : option str)
  (target prompt author : str) : res (CronSpec * str) CronReqError :=
  let? author_handler := check_author d name author in
  let? resolved_target := resolve_target d author_handler target in
  try? guard_err (path_exists (r_work (g_repo d)) (spec_of (cron_dir name))) (CronExists name) then
  try? guard_err (path_exists (r_work (g_repo d)) (spec_of (archive_dir name))) (CronInArchive name) then
  let spec := MkCronSpec CURRENT_VERSION schedule timezone resolved_target prompt true author_handler
                (to_rfc3339_secs (cv_now env)) [] in
  try? map_err CronSpecInvalid (validate spec) then
  let? spec_yaml := map_err CronSerialize (to_yaml spec) in
  Ok (spec, spec_yaml).

(** What it does under the lock.  Removing the directory again has no effect on the files. *)
Definition create_locked (env : CronEnv) (name spec_yaml : str) (r : Repo) : Repo * res unit CronReqError :=
  let active_spec := spec_of (cron_dir name) in
  if path_exists (r_work r) active_spec then (r, Err (CronExists name))
  else if negb (cv_mkdir_ok env) then (r, Err CronMkdir)
  else if negb (cv_write_ok env) then (r, Err CronWrite)
  else
    let '(r2, committed) := add_and_commit_as (cv_commit env) [active_spec] (write_work active_spec spec_yaml r) in
    if negb committed then (remove_work (cv_remove_ok env) active_spec r2, Err CronCommit)
    else (r2, Ok tt).

Definition handle_create_cron (env : CronEnv) (d : GDaemon) (name schedule : str) (timezone : option str)
  (target prompt author : str) : GDaemon * res CreateCronResponse CronReqError :=
  match check_create_cron env d name schedule timezone target prompt author with
  | Err e => (d, Err e)
  | Panicked => (d, Panicked)
  | Ok (spec, spec_yaml) =>
      let '(r, created) := create_locked env name spec_yaml (g_repo d) in
      (with_repo d r,
       try? created then
       Ok (MkCreateCronResponse name (handler_str (cs_created_by spec)) (handler_str (cs_target spec))))
  end.

Definition read_spec (text : option str) : res CronSpec (option CronSpecError) :=
  let? body := ok_or text None in
  map_err Some (from_yaml body).

(** The locked part of [toggle_enabled]: the text was made from an earlier read. *)
Definition toggle_locked (env : CronEnv) (name : str) (target : bool) (new_yaml : str) (r : Repo)
  : Repo * res bool CronReqError :=
  let spec_path := spec_of (cron_dir name) in
  match read_spec (if cv_reread_ok env then r_work r !! spec_path else None) with
  | Err e => (r, Err (CronSpecUnreadable name e))
  | Panicked => (r, Panicked)
  | Ok cur =>
      if eqb (cs_enabled cur) target then (r, Ok false)
      else if negb (cv_write_ok env) then (r, Err CronWrite)
      else
        let '(r2, committed) := add_and_commit_as (cv_commit env) [spec_path] (write_work spec_path new_yaml r) in
        if negb committed then
          (match to_yaml cur with
           | Ok y => if cv_restore_ok env then write_work spec_path y r2 else r2
           | _ => r2
           end, Err CronCommit)
        else (r2, Ok true)
  end.

Definition toggle_enabled (env : CronEnv) (d : GDaemon) (name author : str) (target : bool)
  : GDaemon * res ToggleCronResponse CronReqError :=
  let spec_path := spec_of (cron_dir name) in
  let checked :=
    try? check_author d name author then
    try? guard_err (negb (path_exists (r_work (g_repo d)) spec_path)) (CronNotFound name) then
    let? spec := map_err (CronSpecUnreadable name) (read_spec (read_to_string env (r_work (g_repo d)) spec_path)) in
    if eqb (cs_enabled spec) target then Ok None
    else let? new_yaml := map_err CronSerialize (to_yaml (set_enabled target spec)) in Ok (Some new_yaml) in
  match checked with
  | Err e => (d, Err e)
  | Panicked => (d, Panicked)
  | Ok None => (d, Ok (MkToggleCronResponse name target false))
  | Ok (Some new_yaml) =>
      let '(r, changed) := toggle_locked env name target new_yaml (g_repo d) in
      (with_repo d r, let? changed := changed in Ok (MkToggleCronResponse name target changed))
  end.

Definition handle_enable_cron (env : CronEnv) (d : GDaemon) (name author : str) := toggle_enabled env d name author true.
Definition handle_disable_cron (env : CronEnv) (d : GDaemon) (name author : str) := toggle_enabled env d name author false.

(** The locked part of [handle_delete_cron]. *)
Definition delete_locked (env : CronEnv) (name : str) (r : Repo) : Repo * res unit CronReqError :=
  if negb (path_exists (r_work r) (spec_of (cron_dir name))) then (r, Err (CronNotFound name))
  else
    let from_rel := cron_dir name in
    let to_rel := archive_dir name in
    let '(r1, moved) := mv (cv_mv env) from_rel to_rel r in
    if negb moved then (r1, Err CronGitMv)
    else
      let '(r2, committed) := add_and_commit_as (cv_commit env) [to_rel] r1 in
      if negb committed then ((mv (cv_rollback env) to_rel from_rel r2).1, Err CronCommit)
      else (r2, Ok tt).

Definition handle_delete_cron (env : CronEnv) (d : GDaemon) (name author : str)
  : GDaemon * res DeleteCronResponse CronReqError :=
  let checked :=
    let? author_handler := check_author d name author in
    try? guard_err (negb (path_exists (r_work (g_repo d)) (spec_of (cron_dir name)))) (CronNotFound name) then
    try? guard_err (path_exists (r_work (g_repo d)) (archive_dir name)) (CronArchiveConflict name) then
    try? guard_err (negb (cv_mkdir_ok env)) CronMkdir then
    Ok author_handler in
  match checked with
  | Err e => (d, Err e)
  | Panicked => (d, Panicked)
  | Ok author_handler =>
      let '(r, deleted) := delete_locked env name (g_repo d) in
      (with_repo d r, try? deleted then Ok (MkDeleteCronResponse name (handler_str author_handler)))
  end.

(** ** Listing *)

Definition DEFAULT_HISTORY_LIMIT : N := 50.
Definition MAX_HISTORY_LIMIT : N := 1000.
Definition SHOW_RECENT_RUNS : nat := 5.

Record CronRunEntry := MkCronRunEntry { cre_ts : str; cre_filename : str }.

Record CronSummary := MkCronSummary {
  sum_name : str;
  sum_schedule : str;
  sum_timezone : option str;
  sum_target : str;
  sum_enabled : bool;
  sum_created_by : str;
  sum_created_at : str;
  sum_next_fire : option str;
}.

Definition summary_of (name : str) (spec : CronSpec) (next_fire : option str) : CronSummary :=
  MkCronSummary name (cs_schedule spec) (cs_timezone spec) (handler_str (cs_target spec)) (cs_enabled spec)
    (handler_str (cs_created_by spec)) (cs_created_at spec) next_fire.

Record CronDetail := MkCronDetail {
  det_name : str;
  det_spec : yaml_value;
  det_recent_runs : list CronRunEntry;
  det_next_fire : option str;
}.

Definition list_thread_runs (env : CronEnv) (t : tree) (dir : str) (limit : option nat) : list CronRunEntry :=
  match read_dir env t dir with
  | DirEntries names =>
      let entries := omap (λ fname, stem ← strip_suffix (lit ".thread") fname;
                                    if is_none (parse_thread_filename_ts stem) then None
                                    else Some (MkCronRunEntry stem fname)) names in
      let sorted := sort_by_key (λ a b, str_leb (cre_ts b) (cre_ts a)) entries in
      match limit with Some n => take n sorted | None => sorted end
  | _ => []
  end.

(** The next firing as the listing shows it; the window is written out again in the source. *)
Definition compute_next_fire (env : CronEnv) (t : tree) (dir : str) (spec : CronSpec) (now : Z) : option str :=
  let latest := match read_dir env t dir with
                | DirEntries names =>
                    fold_left (λ latest fname,
                      match strip_suffix (lit ".thread") fname with
                      | None => latest
                      | Some stem =>
                          match parse_thread_filename_ts stem with
                          | None => latest
                          | Some ts => Some (match latest with Some cur => Z.max cur ts | None => ts end)
                          end
                      end) names None
                | _ => None
                end in
  raw_anchor ← match latest with
               | Some ts => Some ts
               | None => res_ok (parse_from_rfc3339 (cs_created_at spec))
               end;
  let cutoff := (now - seconds 120)%Z in
  let anchor := if (raw_anchor <? cutoff)%Z then cutoff else raw_anchor in
  to_rfc3339_secs <$> res_ok (next_fire_after spec anchor).

Definition handle_list_crons (env : CronEnv) (t : tree) : list CronSummary :=
  match read_dir env t CRONS with
  | DirEntries names =>
      omap (λ name,
        spec ← res_ok (read_spec (read_to_string env t (spec_of (under CRONS name))));
        Some (summary_of name spec (compute_next_fire env t (under CRONS name) spec (cv_now env))))
      (sort_by_key str_leb (List.filter (λ name, is_dir t (under CRONS name)) names))
  | _ => []
  end.

Definition handle_show_cron (env : CronEnv) (t : tree) (name : str) : res CronDetail CronReqError :=
  try? map_err CronInvalidName (validate_cron_name name) then
  let spec_path := spec_of (cron_dir name) in
  try? guard_err (negb (path_exists t spec_path)) (CronNotFound name) then
  let? spec := map_err (CronSpecUnreadable name) (read_spec (read_to_string env t spec_path)) in
  let raw_yaml := unwrap_or (if cv_reread_ok env then t !! spec_path else None) [] in
  let? spec_value := ok_or (yaml_value_from_str raw_yaml) (CronYamlUnreadable name) in
  Ok (MkCronDetail name spec_value (list_thread_runs env t (cron_dir name) (Some SHOW_RECENT_RUNS))
        (compute_next_fire env t (cron_dir name) spec (cv_now env))).

Definition handle_history_cron (env : CronEnv) (t : tree) (name : str) (limit : option N)
  : res (list CronRunEntry) CronReqError :=
  try? map_err CronInvalidName (validate_cron_name name) then
  try? guard_err (negb (is_dir t (cron_dir name))) (CronNotFound name) then
  try? guard_err (negb (path_exists t (spec_of (cron_dir name)))) (CronNotFound name) then
  let limit_u := N.to_nat (N.min (unwrap_or limit DEFAULT_HISTORY_LIMIT) MAX_HISTORY_LIMIT) in
  Ok (list_thread_runs env t (cron_dir name) (Some limit_u)).

(** ** Facts about paths and names *)

Lemma replace_char_notin a b s : a ∉ s → replace_char a b s = s.
Proof.
  induction s as [|c s IH]; [done|]. rewrite not_elem_of_cons. intros [Hc Hs]. simpl. fold (replace_char a b s).
  rewrite (IH Hs). destruct (N.eqb_spec c a); [congruence|done].
Qed.

Lemma replace_char_back a b s : b ∉ s → replace_char b a (replace_char a b s) = s.
Proof.
  induction s as [|c s IH]; [done|]. rewrite not_elem_of_cons. intros [Hc Hs]. simpl.
  fold (replace_char a b s). fold (replace_char b a (replace_char a b s)). rewrite (IH Hs). f_equal.
  destruct (N.eqb_spec c a) as [->|Hca]; [by rewrite N.eqb_refl|]. destruct (N.eqb_spec c b); [congruence|done].
Qed.

Lemma replace_char_elem a b c s : c ∈ replace_char a b s → c = b ∨ (c ∈ s ∧ c ≠ a).
Proof.
  unfold replace_char. rewrite list_elem_of_fmap. intros (x & -> & Hx). destruct (N.eqb_spec x a); [by left|by right].
Qed.

Lemma filename_stem ts :
  rfc3339_range ts →
  ∃ date time, to_rfc3339_secs ts = date ++ ch "T" :: time ∧ (ch "T" ∉ date) ∧ (dash ∉ time)
    ∧ format_thread_filename_ts ts = date ++ ch "T" :: replace_char colon dash time
    ∧ (slash ∉ format_thread_filename_ts ts).
Proof.
  intros Hr. destruct (rfc3339_form ts Hr) as (date & time & Ht & HT & Hc & Hd & Hs).
  assert (format_thread_filename_ts ts = date ++ ch "T" :: replace_char colon dash time) as Hf.
  { unfold format_thread_filename_ts. rewrite Ht. unfold replace_char. rewrite map_app. simpl.
    fold (replace_char colon dash date). by rewrite replace_char_notin. }
  exists date, time. split_and!; try done. rewrite Hf. rewrite not_elem_of_app in Hs. destruct Hs as [Hs1 Hs2].
  rewrite not_elem_of_app, not_elem_of_cons. split_and!; [done|done|]. intros [?|[? _]]%replace_char_elem; done.
Qed.

Lemma filename_ts_inverse ts :
  rfc3339_range ts → whole_second ts → parse_thread_filename_ts (format_thread_filename_ts ts) = Some ts.
Proof.
  intros Hr Hw. destruct (filename_stem ts Hr) as (date & time & Ht & HT & Hd & Hf & _).
  unfold parse_thread_filename_ts. rewrite Hf, split_once_char by done. simpl.
  rewrite replace_char_back by done. change (84 :: time) with (ch "T" :: time). rewrite <-Ht.
  by rewrite rfc3339_roundtrip.
Qed.

Lemma thread_name_no_slash ts : rfc3339_range ts → slash ∉ thread_name ts.
Proof.
  intros Hr. destruct (filename_stem ts Hr) as (_ & _ & _ & _ & _ & _ & H). unfold thread_name.
  rewrite not_elem_of_app. split; [done|]. by vm_compute; set_solver.
Qed.

(** ** What a scan finds *)

(** Directory listings, reads and metadata queries succeed; the order is arbitrary. *)
Record sees_all (env : CronEnv) : Prop := {
  sa_dir : ∀ dir, cv_read_dir_ok env dir = true;
  sa_entry : ∀ path, cv_entry_ok env path = true;
  sa_order : ∀ names, cv_order env names ≡ₚ names;
  sa_read : ∀ path, cv_read_ok env path = true;
}.

(** No file lies below another file. *)
Definition proper_tree (t : tree) : Prop :=
  ∀ k k' rest, is_Some (t !! k) → is_Some (t !! k') → strip_dir k k' = Some rest → rest = [].

(** The time a file name stands for. *)
Definition fire_ts (fname : str) : option Z := stem ← strip_suffix (lit ".thread") fname; parse_thread_filename_ts stem.

(** A directory has a thread file for the time. *)
Definition fired_at (t : tree) (dir : str) (ts : Z) : Prop :=
  ∃ fname, (slash ∉ fname) ∧ path_exists t (under dir fname) = true ∧ fire_ts fname = Some ts.

(** The newest of them, if there is one. *)
Definition last_fire (t : tree) (dir : str) (last : option Z) : Prop :=
  match last with
  | Some m => fired_at t dir m ∧ ∀ ts, fired_at t dir ts → (ts ≤ m)%Z
  | None => ∀ ts, ¬ fired_at t dir ts
  end.

(** What the engine counts from: the newest firing, or the creation. *)
Definition counts_from (t : tree) (dir : str) (spec : CronSpec) (anchor : Z) : Prop :=
  ∃ last, last_fire t dir last ∧
  match last with Some m => anchor = m | None => parse_from_rfc3339 (cs_created_at spec) = Ok anchor end.

(** A request is due: its specification is stored, valid, enabled and addressed to this
    clone, and its time is the first occurrence after the last firing and within the
    grace window, has come, and has no file. *)
Definition due (t : tree) (self : Handler) (now : Z) (req : FireRequest) : Prop :=
  let dir := cron_dir (fr_spec_name req) in
  (slash ∉ fr_spec_name req)
  ∧ (∃ text, t !! spec_of dir = Some text ∧ from_yaml text = Ok (fr_spec req))
  ∧ cs_enabled (fr_spec req) = true
  ∧ cs_target (fr_spec req) = self
  ∧ (∃ anchor, counts_from t dir (fr_spec req) anchor
       ∧ next_fire_after (fr_spec req) (Z.max anchor (now - GRACE_WINDOW)) = Ok (fr_theoretical_ts req))
  ∧ (fr_theoretical_ts req ≤ now)%Z
  ∧ path_exists t (fire_dest req) = false.

Lemma next_fire_later spec a t : next_fire_after spec a = Ok t → (a < t)%Z ∧ whole_second t.
Proof.
  unfold next_fire_after. intros H. run_ok H. split; [by eapply next_is_later|by eapply next_is_whole].
Qed.

Lemma later_fire_ts latest fname :
  later_fire latest fname =
  match fire_ts fname with
  | Some ts => Some (match latest with Some cur => Z.max cur ts | None => ts end)
  | None => latest
  end.
Proof. unfold later_fire, fire_ts. destruct (strip_suffix _ fname) as [stem|]; [|done]. simpl. by destruct (parse_thread_filename_ts stem). Qed.

(** The loop computes the maximum. *)
Lemma latest_fold names acc :
  match fold_left later_fire names acc with
  | Some m => (acc = Some m ∨ ∃ f, f ∈ names ∧ fire_ts f = Some m)
              ∧ (∀ c, acc = Some c → (c ≤ m)%Z) ∧ (∀ f ts, f ∈ names → fire_ts f = Some ts → (ts ≤ m)%Z)
  | None => acc = None ∧ ∀ f ts, f ∈ names → fire_ts f ≠ Some ts
  end.
Proof.
  revert acc. induction names as [|f names IH]; intros acc; simpl.
  - destruct acc as [c|]; split_and!; try done; [by left|intros c' [= <-]; lia|intros ? ? []%not_elem_of_nil|intros ? ? []%not_elem_of_nil].
  - specialize (IH (later_fire acc f)). rewrite later_fire_ts in IH |- *.
    destruct (fire_ts f) as [ts|] eqn:Ef.
    + destruct (fold_left _ names _) as [m|] eqn:E; [|by destruct IH as [? _]].
      destruct IH as (H1 & H2 & H3). specialize (H2 _ eq_refl). split_and!.
      * destruct H1 as [[= <-]|(g & Hg & Hm)]; [|right; exists g; by split; [right|]].
        destruct acc as [c|]; [|right; exists f; by split; [left|]].
        destruct (Z.max_spec c ts) as [[_ ->]|[_ ->]]; [right; exists f; by split; [left|]|by left].
      * intros c ->. lia.
      * intros g ts' [->|Hg]%elem_of_cons Hts; [|by eapply H3]. rewrite Ef in Hts. injection Hts as <-.
        destruct acc; lia.
    + destruct (fold_left _ names acc) as [m|].
      * destruct IH as (H1 & H2 & H3). split_and!; [destruct H1 as [?|(g & ? & ?)]; [by left|right; exists g; by split; [right|]]|done|].
        intros g ts' [->|Hg]%elem_of_cons Hts; [congruence|by eapply H3].
      * destruct IH as [-> H]. split; [done|]. intros g ts' [->|Hg]%elem_of_cons; [congruence|by apply H].
Qed.

Lemma list_filter_true {A} (f : A → bool) l : (∀ x, f x = true) → List.filter f l = l.
Proof. intros H. induction l as [|x l IH]; simpl; [done|]. by rewrite H, IH. Qed.

Lemma read_dir_all env t dir :
  sees_all env → t !! dir = None →
  read_dir env t dir = if path_exists t dir then DirEntries (cv_order env (entries_in t dir)) else DirMissing.
Proof.
  intros [Hd He _ _] Ht. unfold read_dir. rewrite Hd, Ht. simpl.
  rewrite list_filter_true by (intros; apply He). done.
Qed.

Lemma latest_fire_spec env t dir : sees_all env → t !! dir = None → last_fire t dir (latest_fire_in_dir env t dir).
Proof.
  intros Hs Ht. unfold latest_fire_in_dir. rewrite (read_dir_all _ _ _ Hs Ht).
  destruct (path_exists t dir) eqn:Ep.
  - pose proof (latest_fold (cv_order env (entries_in t dir)) None) as H.
    assert (∀ f, f ∈ cv_order env (entries_in t dir) ↔ (slash ∉ f) ∧ path_exists t (under dir f) = true) as Hin.
    { intros f. rewrite (sa_order _ Hs). apply entries_in_elem. }
    destruct (fold_left _ _ None) as [m|]; simpl.
    + destruct H as ([?|(f & Hf & Hm)] & _ & Hmax); [done|]. split.
      * exists f. apply Hin in Hf. naive_solver.
      * intros ts (g & Hg1 & Hg2 & Hg3). apply (Hmax g); [by apply Hin|done].
    + destruct H as [_ H]. intros ts (g & Hg1 & Hg2 & Hg3). apply (H g ts); [by apply Hin|done].
  - intros ts (g & Hg1 & (k & v & rest & Hk & [-> Hr]%strip_dir_Some)%path_exists_true & _).
    rewrite path_exists_false in Ep. specialize (Ep _ (ex_intro _ v Hk)). unfold under in Ep.
    rewrite <-app_assoc in Ep. rewrite strip_dir_app in Ep; [done|]. right. by eexists.
Qed.

Lemma last_fire_unique t dir l1 l2 : last_fire t dir l1 → last_fire t dir l2 → l1 = l2.
Proof.
  destruct l1 as [m1|], l2 as [m2|]; simpl; [|naive_solver|naive_solver|done].
  intros [H1 H2] [H3 H4]. f_equal. specialize (H2 _ H3). specialize (H4 _ H1). lia.
Qed.

Lemma handler_eq (h1 h2 : Handler) : handler_str h1 = handler_str h2 ↔ h1 = h2.
Proof. destruct h1, h2. simpl. naive_solver. Qed.

Lemma anchor_max raw cutoff : (if (raw <? cutoff)%Z then cutoff else raw) = Z.max raw cutoff.
Proof. destruct (Z.ltb_spec raw cutoff); lia. Qed.

Lemma under_below dir name rest : rest = [] ∨ (∃ s, rest = slash :: s) → strip_dir dir (under dir name ++ rest) = Some (slash :: name ++ rest).
Proof. intros _. apply strip_dir_Some. unfold under. rewrite <-app_assoc. split; [done|]. right. by eexists. Qed.

(** A directory of a proper tree is no file. *)
Lemma proper_dir t dir name : proper_tree t → path_exists t (under dir name) = true → t !! dir = None.
Proof.
  intros Hp (k & v & rest & Hk & [-> Hr]%strip_dir_Some)%path_exists_true.
  apply eq_None_not_Some. intros Hd. pose proof (Hp dir _ _ Hd (ex_intro _ v Hk) (under_below _ _ _ Hr)). done.
Qed.

Lemma counts_from_spec env t dir spec :
  sees_all env → t !! dir = None →
  ∀ anchor, counts_from t dir spec anchor ↔
  match latest_fire_in_dir env t dir with
  | Some ts => Some ts
  | None => res_ok (parse_from_rfc3339 (cs_created_at spec))
  end = Some anchor.
Proof.
  intros Hs Ht anchor. pose proof (latest_fire_spec env t dir Hs Ht) as Hl. split.
  - intros (last & Hlast & Ha). rewrite (last_fire_unique _ _ _ _ Hl Hlast). destruct last; [by subst|by rewrite Ha].
  - intros H. eexists. split; [exact Hl|]. destruct (latest_fire_in_dir env t dir); [by simplify_eq|].
    by destruct (parse_from_rfc3339 _); simplify_eq/=.
Qed.

Lemma scan_one_iff env t name self now req :
  sees_all env → proper_tree t → slash ∉ name →
  scan_one env t (cron_dir name) name self now = Some req ↔ fr_spec_name req = name ∧ due t self now req.
Proof.
  intros Hs Hp Hn. unfold scan_one, due, read_to_string. rewrite (sa_read _ Hs).
  split.
  - intros H. destruct (t !! spec_of (cron_dir name)) as [text|] eqn:Et; [|done]. simpl in H.
    assert (t !! cron_dir name = None) as Hd.
    { apply (proper_dir t _ (lit "spec.yaml") Hp). apply lookup_path_exists. by eexists. }
    pose proof (counts_from_spec env t (cron_dir name)) as Hc.
    destruct (from_yaml text) as [spec| |] eqn:Ey; simpl in H; [|done|done]. unfold is_active in H.
    destruct (cs_enabled spec) eqn:Een; [simpl in H|done].
    case_bool_decide as Ht; [simpl in H|done].
    destruct (match latest_fire_in_dir env t (cron_dir name) with Some ts => _ | None => _ end) as [raw|] eqn:Er;
      [simpl in H|done].
    rewrite anchor_max in H. destruct (next_fire_after spec _) as [next| |] eqn:En; simpl in H; [|done|done].
    destruct (Z.ltb_spec now next); [done|]. destruct (dest_already_exists t (cron_dir name) next) eqn:Ex; [done|].
    injection H as <-. simpl. split_and!; try done; [by exists text|by apply handler_eq| ].
    exists raw. split; [|done]. by apply (Hc spec Hs Hd).
  - destruct req as [n spec ts]. cbn [fr_spec_name fr_spec fr_theoretical_ts].
    intros (-> & _ & (text & Et & Ey) & Een & <- & (raw & Hraw & En) & Hle & Hex).
    assert (t !! cron_dir name = None) as Hd.
    { apply (proper_dir t _ (lit "spec.yaml") Hp). apply lookup_path_exists. by eexists. }
    rewrite (counts_from_spec env t _ _ Hs Hd) in Hraw.
    rewrite Et. simpl. rewrite Ey. simpl. unfold is_active. rewrite Een. simpl.
    rewrite bool_decide_true by done. simpl. rewrite Hraw. simpl. rewrite anchor_max, En. simpl.
    destruct (Z.ltb_spec now ts); [lia|]. unfold dest_already_exists. unfold fire_dest in Hex. simpl in Hex.
    by rewrite Hex.
Qed.

Lemma cron_dir_below dir name v t : t !! spec_of (under dir name) = Some v → path_exists t dir = true ∧ path_exists t (under dir name) = true.
Proof.
  intros H. split; apply path_exists_true; eexists _, v, _; (split; [exact H|]).
  - unfold spec_of, under. rewrite <-app_assoc. apply strip_dir_Some. split; [done|]. right. by eexists.
  - apply strip_dir_Some. split; [done|]. right. by eexists.
Qed.

Lemma due_dir t self now req :
  proper_tree t → due t self now req →
  path_exists t CRONS = true ∧ is_dir t (cron_dir (fr_spec_name req)) = true
  ∧ fr_spec_name req ∈ entries_in t CRONS.
Proof.
  intros Hp (Hn & (text & Ht & _) & _). destruct (cron_dir_below _ _ _ _ Ht) as [H1 H2]. split_and!; [done| |].
  - unfold is_dir. fold (cron_dir (fr_spec_name req)) in H2. rewrite H2.
    rewrite (proper_dir t _ (lit "spec.yaml") Hp); [done|]. apply lookup_path_exists. by eexists.
  - by apply entries_in_elem.
Qed.

Lemma omap_keys_sublist {A B} (f : A → option B) (key : B → A) l :
  (∀ x y, f x = Some y → key y = x) → sublist (map key (omap f l)) l.
Proof.
  intros H. induction l as [|x l IH]; simpl; [done|]. destruct (f x) as [y|] eqn:E; simpl; [|by constructor].
  rewrite (H _ _ E). by constructor.
Qed.

(** A scan finds what is due. *)
Lemma scan_due_elem env t self now :
  sees_all env → proper_tree t → t !! CRONS = None →
  ∃ reqs, scan_due env t self now = Ok reqs ∧ NoDup (map fr_spec_name reqs) ∧ ∀ req, req ∈ reqs ↔ due t self now req.
Proof.
  intros Hs Hp Hc. unfold scan_due. rewrite (read_dir_all _ _ _ Hs Hc).
  destruct (path_exists t CRONS) eqn:Ep.
  - eexists. split; [done|]. split.
    + assert (NoDup (cv_order env (entries_in t CRONS))) as Hnd.
      { rewrite (sa_order _ Hs). apply NoDup_remove_dups. }
      refine (sublist_NoDup _ _ Hnd _). apply omap_keys_sublist. intros n req H.
      destruct (is_dir t (under CRONS n)); [simpl in H|done]. unfold scan_one in H.
      repeat (case_match || (apply bind_Some in H as (? & ? & H))); by simplify_eq/=.
    + intros req. rewrite list_elem_of_omap. split.
      * intros (n & Hn & H). rewrite (sa_order _ Hs) in Hn. apply entries_in_elem in Hn as [Hn _].
        destruct (is_dir t (under CRONS n)); [simpl in H|done].
        by apply scan_one_iff in H as [_ H].
      * intros Hd. destruct (due_dir _ _ _ _ Hp Hd) as (_ & Hdir & Hin). exists (fr_spec_name req).
        rewrite (sa_order _ Hs). split; [done|]. fold (cron_dir (fr_spec_name req)). rewrite Hdir. simpl.
        apply scan_one_iff; try done. apply Hd.
  - exists []. split_and!; [done|constructor|]. intros req. split; [intros H; by apply elem_of_nil in H|].
    intros Hd. destruct (due_dir _ _ _ _ Hp Hd). congruence.
Qed.

Lemma due_window t self now req :
  due t self now req →
  (now - GRACE_WINDOW < fr_theoretical_ts req ≤ now)%Z ∧ whole_second (fr_theoretical_ts req)
  ∧ ∀ ts, fired_at t (cron_dir (fr_spec_name req)) ts → (ts < fr_theoretical_ts req)%Z.
Proof.
  intros (_ & _ & _ & _ & (anchor & (last & Hl & Ha) & Hn) & Hle & _).
  destruct (next_fire_later _ _ _ Hn) as [Hlt Hw]. split_and!; [lia|done|done|].
  intros ts Hts. destruct last as [m|]; [|by apply Hl in Hts]. destruct Hl as [_ Hmax]. specialize (Hmax _ Hts). lia.
Qed.

Lemma compute_next_fire_engine env t name spec self now :
  res_ok (read_spec (read_to_string env t (spec_of (cron_dir name)))) = Some spec →
  cs_enabled spec = true → cs_target spec = self →
  ∃ next, compute_next_fire env t (cron_dir name) spec now = to_rfc3339_secs <$> next
          ∧ scan_one env t (cron_dir name) name self now =
            (ts ← next; if (now <? ts)%Z || dest_already_exists t (cron_dir name) ts then None
                        else Some (MkFireRequest name spec ts)).
Proof.
  intros Hr He Ht. unfold compute_next_fire, scan_one, read_spec in *.
  destruct (read_to_string env t _) as [body|]; [simpl in Hr |- *|done].
  destruct (from_yaml body) as [spec'| |]; simpl in Hr |- *; [|done|done]. injection Hr as ->.
  unfold is_active. rewrite He. simpl. rewrite bool_decide_true by by rewrite Ht. simpl.
  fold later_fire. change (match read_dir env t (cron_dir name) with DirEntries names => fold_left later_fire names None | _ => None end)
    with (latest_fire_in_dir env t (cron_dir name)).
  destruct (match latest_fire_in_dir env t (cron_dir name) with Some ts => _ | None => _ end) as [raw|];
    [simpl|by exists None].
  destruct (next_fire_after spec _) as [next| |]; simpl; [|by exists None|by exists None].
  exists (Some next). split; [done|]. simpl. by destruct (now <? next)%Z.
Qed.

(** ** Claims *)

(** A scan is exact.  When the file system answers, in whatever order, the requests
    the engine collects are those that are due, at most one per trigger: the stored
    specification is valid, enabled and addressed to this clone, and the time is the
    first occurrence after the newest firing (or, before any, the creation), not
    counting what lies more than two minutes back.  The time lies in that window, is a
    whole second, and is later than that of every firing the trigger has on disk. *)
Theorem scan_due_exact (env : CronEnv) (t : tree) (self : Handler) (now : Z)
    (Henv : sees_all env) (Htree : proper_tree t) (Hdir : t !! CRONS = None) :
  ∃ reqs, scan_due env t self now = Ok reqs
    ∧ NoDup (map fr_spec_name reqs)
    ∧ (∀ req, req ∈ reqs ↔ due t self now req)
    ∧ ∀ req, req ∈ reqs →
        (now - GRACE_WINDOW < fr_theoretical_ts req ≤ now)%Z ∧ whole_second (fr_theoretical_ts req)
        ∧ ∀ ts, fired_at t (cron_dir (fr_spec_name req)) ts → (ts < fr_theoretical_ts req)%Z.
Proof.
  destruct (scan_due_elem env t self now Henv Htree Hdir) as (reqs & H1 & H2 & H3). exists reqs. split_and!; try done.
  intros req Hr. eapply due_window. by apply H3.
Qed.

(** The listing and the engine agree.  For every listed trigger of this clone that is
    enabled there is one next time: the listing shows it, and the engine, scanning at the
    same instant, requests a firing for exactly that time unless it is still to come or
    has its file. *)
Theorem listing_agrees_with_engine (env : CronEnv) (t : tree) (self : Handler) (item : CronSummary)
    (Hitem : item ∈ handle_list_crons env t) (Hon : sum_enabled item = true) (Hown : sum_target item = handler_str self) :
  let name := sum_name item in
  ∃ spec next,
    read_spec (read_to_string env t (spec_of (cron_dir name))) = Ok spec
    ∧ item = summary_of name spec (to_rfc3339_secs <$> next)
    ∧ scan_one env t (cron_dir name) name self (cv_now env) =
      (ts ← next; if (cv_now env <? ts)%Z || dest_already_exists t (cron_dir name) ts then None
                  else Some (MkFireRequest name spec ts)).
Proof.
  unfold handle_list_crons in Hitem. destruct (read_dir env t CRONS) as [names| |]; [|by apply elem_of_nil in Hitem..].
  apply list_elem_of_omap in Hitem as (name & _ & H).
  destruct (res_ok _) as [spec|] eqn:Er; [|done]. cbn [mbind option_bind] in H. apply (inj Some) in H as <-.
  cbn [summary_of sum_name sum_enabled sum_target] in Hon, Hown |- *. apply handler_eq in Hown.
  destruct (compute_next_fire_engine env t name spec self (cv_now env) Er Hon Hown) as (next & Hn & Hs).
  exists spec, next. unfold cron_dir in *. rewrite Hn. split_and!; [|done|done].
  by destruct (read_spec _); simplify_eq/=.
Qed.

(** File names stand for times.  The name of a thread file is read back as the second
    it was made from, for every time RFC 3339 can write, and contains neither a colon nor
    a slash. *)
Theorem filename_ts_roundtrip (ts : Z) (Hrange : rfc3339_range ts) (Hwhole : whole_second ts) :
  parse_thread_filename_ts (format_thread_filename_ts ts) = Some ts
  ∧ (colon ∉ format_thread_filename_ts ts) ∧ (slash ∉ format_thread_filename_ts ts).
Proof.
  split; [by apply filename_ts_inverse|]. split; [|by destruct (filename_stem ts Hrange) as (_ & _ & _ & _ & _ & _ & H)].
  unfold format_thread_filename_ts. by intros [?|[_ ?]]%replace_char_elem.
Qed.

End cron.
