(* ===== verification/CronClock.v ===== *)
(** * A calendar and a schedule for cron triggers

    The proleptic Gregorian calendar as an instance of [Chrono]: RFC 3339 in UTC, read
    back by comparing with what would be written.  With a few schedules and a text form
    of specifications it lets the engine and the handlers be run. *)

From S2P Require Import Prelude RustStr StrFacts Names QuickSession Asset Links Thread Compliance Meta Git Daemon Cards Cron.
From stdpp Require Import options.
Open Scope Z_scope.
Open Scope list_scope.

(** ** Days *)

(** Year of the 400-year era, day of the year (from March), month (from March). *)
Definition year_of_era (doe : Z) : Z := (doe - doe / 1460 + doe / 36524 - doe / 146096) / 365.
Definition day_of_year (doe : Z) : Z := let yoe := year_of_era doe in doe - (365 * yoe + yoe / 4 - yoe / 100).
Definition march_month (doe : Z) : Z := (5 * day_of_year doe + 2) / 153.

(** The date of a day counted from 1970-01-01. *)
Definition civil (days : Z) : Z * Z * Z :=
  let z := days + 719468 in
  let era := z / 146097 in
  let doe := z mod 146097 in
  let mp := march_month doe in
  let d := day_of_year doe - (153 * mp + 2) / 5 + 1 in
  let m := if mp <? 10 then mp + 3 else mp - 9 in
  (year_of_era doe + era * 400 + (if m <=? 2 then 1 else 0), m, d).

Definition days_of (y m d : Z) : Z :=
  let y' := if m <=? 2 then y - 1 else y in
  let yoe := y' mod 400 in
  let mp := if m <=? 2 then m + 9 else m - 3 in
  (y' / 400) * 146097 + (365 * yoe + yoe / 4 - yoe / 100) + ((153 * mp + 2) / 5 + d - 1) - 719468.

Lemma year_of_era_bounds doe : 0 ≤ doe < 146097 → 0 ≤ year_of_era doe < 400.
Proof. unfold year_of_era. intros H. Z.to_euclidean_division_equations. lia. Qed.

Lemma day_of_year_bounds doe : 0 ≤ doe < 146097 → 0 ≤ day_of_year doe ≤ 365.
Proof.
  intros H. unfold day_of_year, year_of_era. Z.to_euclidean_division_equations. nia.
Qed.

Lemma march_month_bounds doe : 0 ≤ doe < 146097 → 0 ≤ march_month doe ≤ 11.
Proof. intros H%day_of_year_bounds. unfold march_month. Z.to_euclidean_division_equations. lia. Qed.

(** The date determines the day. *)
Lemma days_of_civil days : let '(y, m, d) := civil days in days_of y m d = days.
Proof.
  unfold civil, days_of. cbv zeta. set (z := days + 719468). set (doe := z mod 146097).
  assert (0 ≤ doe < 146097) as Hdoe by (apply Z.mod_pos_bound; lia).
  pose proof (year_of_era_bounds _ Hdoe) as Hy. pose proof (march_month_bounds _ Hdoe) as Hm.
  set (mp := march_month doe) in *. set (m := if mp <? 10 then mp + 3 else mp - 9).
  assert ((if m <=? 2 then m + 9 else m - 3) = mp) as ->.
  { unfold m. destruct (Z.ltb_spec mp 10); case_match; lia. }
  assert ((if m <=? 2 then year_of_era doe + z / 146097 * 400 + (if m <=? 2 then 1 else 0) - 1
           else year_of_era doe + z / 146097 * 400 + (if m <=? 2 then 1 else 0)) = year_of_era doe + z / 146097 * 400) as ->.
  { destruct (m <=? 2); lia. }
  rewrite Z.mod_add, Z.mod_small by lia. rewrite Z.div_add, Z.div_small by lia.
  assert (doe = 365 * year_of_era doe + year_of_era doe / 4 - year_of_era doe / 100 + day_of_year doe) as Hd by (unfold day_of_year; lia).
  assert (z = 146097 * (z / 146097) + doe) as Hz by (apply Z.div_mod; lia).
  unfold z in Hz at 1. lia.
Qed.

(** Months and days have two digits, and the years of RFC 3339 four. *)
Lemma civil_bounds days :
  -719528 ≤ days < 2932897 → let '(y, m, d) := civil days in 0 ≤ y < 10000 ∧ 0 ≤ m < 100 ∧ 0 ≤ d < 100.
Proof.
  intros Hdays. unfold civil. cbv zeta. set (z := days + 719468). set (doe := z mod 146097).
  assert (0 ≤ doe < 146097) as Hdoe by (apply Z.mod_pos_bound; lia).
  pose proof (year_of_era_bounds _ Hdoe) as Hy. pose proof (march_month_bounds _ Hdoe) as Hm.
  pose proof (day_of_year_bounds _ Hdoe) as Hd.
  assert (z = 146097 * (z / 146097) + doe) as Hz by (apply Z.div_mod; lia).
  assert (-60 ≤ z < 3652365) as Hzb by (unfold z; lia).
  assert (-1 ≤ z / 146097 ≤ 24) as He by lia.
  split_and!; try (destruct (Z.ltb_spec (march_month doe) 10); lia);
    try (unfold march_month; Z.to_euclidean_division_equations; lia).
  - destruct (decide (z / 146097 = -1)) as [E|]; [|repeat case_match; lia].
    assert (146037 ≤ doe) as Hl by lia.
    assert (year_of_era doe = 399) as Hye by (unfold year_of_era; Z.to_euclidean_division_equations; lia).
    assert (10 ≤ march_month doe) as Hmm.
    { unfold march_month, day_of_year. rewrite Hye. change (365 * 399 + 399 / 4 - 399 / 100) with 145731.
      Z.to_euclidean_division_equations; lia. }
    rewrite Hye, E. destruct (Z.ltb_spec (march_month doe) 10); [lia|].
    destruct (Z.leb_spec (march_month doe - 9) 2); lia.
  - destruct (decide (z / 146097 = 24 ∧ year_of_era doe = 399)) as [[E Hye]|]; [|repeat case_match; lia].
    assert (doe ≤ 146036) as Hl by lia.
    assert (march_month doe < 10) as Hmm.
    { unfold march_month, day_of_year. rewrite Hye. change (365 * 399 + 399 / 4 - 399 / 100) with 145731.
      Z.to_euclidean_division_equations; lia. }
    rewrite Hye, E. destruct (Z.ltb_spec (march_month doe) 10); [|lia].
    destruct (Z.leb_spec (march_month doe + 3) 2); lia.
Qed.

(** ** Digits *)

Fixpoint digits (k : nat) (n : N) : str :=
  match k with
  | O => []
  | S k' => digits k' (n / 10) ++ [48 + n mod 10]%N
  end.

Lemma digits_length k n : length (digits k n) = k.
Proof. revert n. induction k as [|k IH]; intros n; simpl; [done|]. rewrite length_app, IH. simpl. lia. Qed.

Lemma digits_all k n : all_digits (digits k n).
Proof.
  revert n. induction k as [|k IH]; intros n; simpl; [constructor|]. apply Forall_app. split; [apply IH|].
  constructor; [apply is_ascii_digit_mod|constructor].
Qed.

Lemma digits_back k n : (n < 10 ^ N.of_nat k)%N → digits_value 0 (digits k n) = Some n.
Proof.
  revert n. induction k as [|k IH]; intros n Hn; simpl.
  - f_equal. simpl in Hn. lia.
  - rewrite digits_value_app, IH; [|rewrite Nat2N.inj_succ, N.pow_succ_r' in Hn; apply N.Div0.div_lt_upper_bound; lia].
    simpl. rewrite is_ascii_digit_mod. f_equal. pose proof (N.div_mod n 10 ltac:(done)). lia.
Qed.

(** ** Times as text *)

(** Year, month, day, hour, minute and second of an instant. *)
Definition clock_fields (t : Z) : list N :=
  let secs := t / seconds 1 in
  let '(y, m, d) := civil (secs / 86400) in
  let sod := secs mod 86400 in
  [Z.to_N y; Z.to_N m; Z.to_N d; Z.to_N (sod / 3600); Z.to_N (sod / 60 mod 60); Z.to_N (sod mod 60)].

Definition clock_text (date_sep time_sep : str) (t : Z) : str :=
  match clock_fields t with
  | [y; m; d; h; mi; s] =>
      digits 4 y ++ date_sep ++ digits 2 m ++ date_sep ++ digits 2 d ++ lit "T"
      ++ digits 2 h ++ time_sep ++ digits 2 mi ++ time_sep ++ digits 2 s ++ lit "Z"
  | _ => lit "Z"
  end.

Definition rfc3339_text : Z → str := clock_text (lit "-") (lit ":").
Definition compact_text : Z → str := clock_text [] [].

Definition text_field (i k : nat) (s : str) : option Z := Z.of_N <$> digits_value 0 (take k (drop i s)).

(** The instant whose text this is. *)
Definition rfc3339_read (s : str) : res Z str :=
  match text_field 0 4 s, text_field 5 2 s, text_field 8 2 s, text_field 11 2 s, text_field 14 2 s, text_field 17 2 s with
  | Some y, Some m, Some d, Some h, Some mi, Some sec =>
      let t := seconds (days_of y m d * 86400 + h * 3600 + mi * 60 + sec) in
      if rfc3339_text t =?? s then Ok t else Err (lit "input is out of range")
  | _, _, _, _, _, _ => Err (lit "input contains invalid characters")
  end.

Lemma digits2_form n :
  (n < 100)%N → ∃ a b, digits 2 n = [a; b] ∧ digits_value 0 [a; b] = Some n ∧ all_digits [a; b].
Proof.
  intros Hn. pose proof (digits_back 2 n Hn) as Hb. pose proof (digits_all 2 n) as Ha.
  destruct (digits 2 n) as [|a [|b [|]]] eqn:E; try (pose proof (digits_length 2 n) as Hl; rewrite E in Hl; done).
  by exists a, b.
Qed.

Lemma digits4_form n :
  (n < 10000)%N → ∃ a b c d, digits 4 n = [a; b; c; d] ∧ digits_value 0 [a; b; c; d] = Some n ∧ all_digits [a; b; c; d].
Proof.
  intros Hn. pose proof (digits_back 4 n Hn) as Hb. pose proof (digits_all 4 n) as Ha.
  destruct (digits 4 n) as [|a [|b [|c [|d [|]]]]] eqn:E; try (pose proof (digits_length 4 n) as Hl; rewrite E in Hl; done).
  by exists a, b, c, d.
Qed.

Lemma clock_fields_range t :
  rfc3339_range t →
  ∃ y m d h mi s, clock_fields t = [Z.to_N y; Z.to_N m; Z.to_N d; Z.to_N h; Z.to_N mi; Z.to_N s]
    ∧ 0 ≤ y < 10000 ∧ 0 ≤ m < 100 ∧ 0 ≤ d < 100 ∧ 0 ≤ h < 100 ∧ 0 ≤ mi < 100 ∧ 0 ≤ s < 100
    ∧ days_of y m d * 86400 + h * 3600 + mi * 60 + s = t / seconds 1.
Proof.
  intros Hr. unfold rfc3339_range in Hr. unfold clock_fields. fold (seconds 1).
  set (secs := t / seconds 1). assert (-62167219200 ≤ secs < 253402300800) as Hs by (unfold secs, seconds in *; Z.to_euclidean_division_equations; lia).
  set (days := secs / 86400). assert (-719528 ≤ days < 2932897) as Hd by (unfold days; Z.to_euclidean_division_equations; lia).
  pose proof (civil_bounds days Hd) as Hb. pose proof (days_of_civil days) as Hc.
  destruct (civil days) as [[y m] d]. destruct Hb as (Hy & Hm & Hdd).
  set (sod := secs mod 86400). assert (0 ≤ sod < 86400) as Hsod by (apply Z.mod_pos_bound; lia).
  exists y, m, d, (sod / 3600), (sod / 60 mod 60), (sod mod 60). split_and!; try done; try (Z.to_euclidean_division_equations; lia).
Qed.

Lemma rfc3339_read_text t : rfc3339_range t → whole_second t → rfc3339_read (rfc3339_text t) = Ok t.
Proof.
  intros Hr Hw. destruct (clock_fields_range t Hr) as (y & m & d & h & mi & s & Hf & Hy & Hm & Hd & Hh & Hmi & Hs & Ht).
  destruct (digits4_form (Z.to_N y)) as (y1 & y2 & y3 & y4 & Ey & Vy & _); [lia|].
  destruct (digits2_form (Z.to_N m)) as (m1 & m2 & Em & Vm & _); [lia|].
  destruct (digits2_form (Z.to_N d)) as (d1 & d2 & Ed & Vd & _); [lia|].
  destruct (digits2_form (Z.to_N h)) as (h1 & h2 & Eh & Vh & _); [lia|].
  destruct (digits2_form (Z.to_N mi)) as (i1 & i2 & Ei & Vi & _); [lia|].
  destruct (digits2_form (Z.to_N s)) as (s1 & s2 & Es & Vs & _); [lia|].
  assert (rfc3339_text t = [y1; y2; y3; y4] ++ lit "-" ++ [m1; m2] ++ lit "-" ++ [d1; d2] ++ lit "T"
            ++ [h1; h2] ++ lit ":" ++ [i1; i2] ++ lit ":" ++ [s1; s2] ++ lit "Z") as Etext.
  { unfold rfc3339_text, clock_text. by rewrite Hf, Ey, Em, Ed, Eh, Ei, Es. }
  unfold rfc3339_read. rewrite Etext. unfold text_field. cbn [app take drop].
  rewrite Vy, Vm, Vd, Vh, Vi, Vs. cbn [fmap option_fmap option_map]. rewrite !Z2N.id by lia. rewrite Ht.
  assert (seconds (t / seconds 1) = t) as ->.
  { unfold whole_second in Hw. pose proof (Z.div_mod t (seconds 1) ltac:(done)) as Hdm. rewrite Hw in Hdm.
    unfold seconds in *. lia. }
  rewrite bool_decide_true; [done|exact Etext].
Qed.

Definition utc_chrono : Chrono.
Proof.
  refine {| parse_from_rfc3339 := rfc3339_read; to_rfc3339_secs := rfc3339_text; format_compact := compact_text |}.
  - intros t Hr. destruct (clock_fields_range t Hr) as (y & m & d & h & mi & s & Hf & Hy & Hm & Hd & Hh & Hmi & Hs & _).
    exists (digits 4 (Z.to_N y) ++ lit "-" ++ digits 2 (Z.to_N m) ++ lit "-" ++ digits 2 (Z.to_N d)),
           (digits 2 (Z.to_N h) ++ lit ":" ++ digits 2 (Z.to_N mi) ++ lit ":" ++ digits 2 (Z.to_N s) ++ lit "Z").
    split; [unfold rfc3339_text, clock_text; rewrite Hf; by rewrite <-!app_assoc|].
    rewrite !not_elem_of_app, !list_elem_of_singleton.
    split_and!; try (by apply (all_digits_no _ _ (digits_all _ _))); done.
  - intros t. apply rfc3339_read_text.
  - intros t. apply ends_with_true. unfold rfc3339_text, clock_text, clock_fields.
    destruct (civil _) as [[y m] d]. eexists. by rewrite !app_assoc.
  - intros t Hr. destruct (clock_fields_range t Hr) as (y & m & d & h & mi & s & Hf & _).
    exists (digits 4 (Z.to_N y) ++ digits 2 (Z.to_N m) ++ digits 2 (Z.to_N d)),
           (digits 2 (Z.to_N h) ++ digits 2 (Z.to_N mi) ++ digits 2 (Z.to_N s)).
    split; [unfold compact_text, clock_text; rewrite Hf; by rewrite <-!app_assoc|].
    rewrite !length_app, !digits_length. split_and!; [done|done| |]; repeat first [apply digits_all|apply Forall_app; split].
Defined.

(** ** Schedules

    Every minute, every hour, every day, in UTC. *)

Definition period_of (s : str) : res Z str :=
  if s =?? lit "* * * * *" then Ok 60
  else if s =?? lit "0 * * * *" then Ok 3600
  else if s =?? lit "0 0 * * *" then Ok 86400
  else Err (lit "unsupported pattern").

Definition next_multiple (p a : Z) : res Z str :=
  if 0 <? p then Ok ((a / seconds p + 1) * seconds p) else Err (lit "no occurrence").

Definition periodic_croner : Croner.
Proof.
  refine {| schedule := Z; zone := unit; Cron_from_str := period_of;
            Tz_from_str := λ s, if s =?? lit "UTC" then Ok tt else Err (lit "unknown zone");
            Tz_UTC := tt; find_next_occurrence := λ p _ a, next_multiple p a |}.
  - intros p _ a t. unfold next_multiple. destruct (Z.ltb_spec 0 p); [|done]. intros [= <-].
    assert (0 < seconds p) as Hp by (unfold seconds; lia).
    pose proof (Z.div_mod a (seconds p) ltac:(lia)). pose proof (Z.mod_pos_bound a (seconds p) Hp). nia.
  - intros p _ a t. unfold next_multiple. destruct (0 <? p); [|done]. intros [= <-]. unfold whole_second.
    assert (seconds p = p * seconds 1) as -> by (unfold seconds; lia). rewrite Z.mul_assoc. by rewrite Z_mod_mult.
Defined.

(** ** Specifications as text *)

Section text.
Context `{SJ : !SerdeJson}.

Definition plain_fields (s : CronSpec) : list (list str) :=
  [[[cs_version s]]; [cs_schedule s]; option_list (cs_timezone s); [handler_str (cs_target s)]; [cs_prompt s];
   (if cs_enabled s then [[]] else []); [handler_str (cs_created_by s)]; [cs_created_at s]].

Definition plain_build (fs : list (list str)) : option CronSpec :=
  match fs with
  | [[[v]]; [sch]; tz; [target]; [prompt]; on; [by_]; [at_]] =>
      Some (MkCronSpec v sch (head tz) (MkHandler target) prompt (negb (is_empty on)) (MkHandler by_) at_ [])
  | _ => None
  end.

Lemma plain_build_fields s : cs_extra s = [] → plain_build (plain_fields s) = Some s.
Proof. destruct s as [v sch [tz|] [target] prompt [] [by_] at_ extra]; simpl; by intros ->. Qed.

Definition plain_cron_yaml : CronYaml.
Proof.
  refine {| spec_to_string := λ s, if is_empty (cs_extra s) then Some (print_fields (plain_fields s)) else None;
            spec_from_str := λ t, plain_build (read_fields (length t) t);
            spec_exact := λ s, cs_extra s = [];
            yaml_value := str; yaml_value_from_str := Some |}.
  - intros t s b. unfold plain_build. intros H. case_hyp H.
  - done.
  - intros s t He H. rewrite He in H. cbn [is_empty] in H. apply (inj Some) in H as <-. rewrite read_print_fields by apply print_fields_length.
    by apply plain_build_fields.
Defined.

End text.

(** ** A workspace with triggers *)

Definition proper_tree_b (t : tree) : bool :=
  forallb (λ kv : str * str,
    forallb (λ kv' : str * str, match strip_dir kv.1 kv'.1 with Some (_ :: _) => false | _ => true end) (map_to_list t))
    (map_to_list t).

Lemma proper_tree_true t : proper_tree_b t = true → proper_tree t.
Proof.
  unfold proper_tree_b. intros H k k' rest [v Hv] [v' Hv'] Hs. apply forallb_Forall in H. rewrite Forall_forall in H.
  specialize (H (k, v)). rewrite elem_of_map_to_list, forallb_Forall, Forall_forall in H. specialize (H Hv (k', v')).
  rewrite elem_of_map_to_list in H. specialize (H Hv'). cbn [fst] in H. rewrite Hs in H. by destruct rest.
Qed.

Section sample.
#[local] Existing Instance ascii_unicode.
#[local] Existing Instance std_percent_encoding.
#[local] Existing Instance keyword_json.
#[local] Existing Instance utc_chrono.
#[local] Existing Instance periodic_croner.
#[local] Existing Instance plain_cron_yaml.
#[local] Existing Instance plain_git.

(** 2026-05-11, nine o'clock, and a minute later. *)
Definition nine : Z := seconds 1778490000.

Lemma nine_text : to_rfc3339_secs nine = lit "2026-05-11T09:00:00Z".
Proof. by vm_compute. Qed.

Lemma filename_ts_roundtrip_witness :
  format_thread_filename_ts nine = lit "2026-05-11T09-00-00Z"
  ∧ parse_thread_filename_ts (lit "2026-05-11T09-00-00Z") = Some nine.
Proof.
  assert (rfc3339_range nine ∧ whole_second nine) as [Hr Hw] by (vm_compute; split; [split; [intros H; discriminate H|reflexivity]|reflexivity]).
  split; [by vm_compute|]. destruct (filename_ts_roundtrip nine Hr Hw) as [H _].
  change (lit "2026-05-11T09-00-00Z") with (format_thread_filename_ts nine). exact H.
Defined.

Definition cron_env (now : Z) (commit_ok : bool) : CronEnv :=
  let commit := if commit_ok then works else breaks in
  MkCronEnv now (λ _, true) (λ _, true) (λ l, l) (λ _, true) true true true true true (works, commit) works works.

Lemma cron_env_sees now ok : sees_all (cron_env now ok).
Proof. by split. Qed.

Definition users_tree : tree := {[ lit "users/alice.meta.yaml" := lit "alice"; lit "users/bob.meta.yaml" := lit "bob" ]}.
Definition users_daemon : GDaemon := MkGDaemon (MkRepo users_tree users_tree users_tree) [lit "alice"; lit "bob"] [] false.

Definition alice : Handler := MkHandler (lit "alice").

(** Alice makes a trigger for every minute at half past eight. *)
Definition with_trigger := handle_create_cron (cron_env (nine - seconds 1800) true) users_daemon
  (lit "standup") (lit "* * * * *") None (lit "@self") (lit "what is next?") (lit "alice").

Example with_trigger_ok : is_ok with_trigger.2 = true.
Proof. by vm_compute. Qed.

Definition trigger_tree : tree := r_work (g_repo with_trigger.1).

Definition standup_spec : CronSpec :=
  MkCronSpec 1 (lit "* * * * *") None alice (lit "what is next?") true alice (lit "2026-05-11T08:30:00Z") [].

Definition standup_at (ts : Z) : FireRequest := MkFireRequest (lit "standup") standup_spec ts.

(** At nine the first occurrence within two minutes back is due. *)
Example scan_at_nine : scan_due (cron_env nine true) trigger_tree alice nine = Ok [standup_at (nine - seconds 60)].
Proof. by vm_compute. Qed.

Lemma scan_due_exact_witness : due trigger_tree alice nine (standup_at (nine - seconds 60)).
Proof.
  destruct (scan_due_exact (cron_env nine true) trigger_tree alice nine (cron_env_sees nine true)) as (reqs & Hs & _ & Hin & _);
    [apply proper_tree_true; vm_compute; reflexivity|vm_compute; reflexivity|].
  apply Hin. rewrite scan_at_nine in Hs. injection Hs as <-. left.
Defined.

Definition standup_item : CronSummary := summary_of (lit "standup") standup_spec (Some (lit "2026-05-11T08:59:00Z")).

Example list_at_nine : handle_list_crons (cron_env nine true) trigger_tree = [standup_item].
Proof. by vm_compute. Qed.

Lemma listing_agrees_with_engine_witness :
  ∃ spec next,
    read_spec (read_to_string (cron_env nine true) trigger_tree (spec_of (cron_dir (lit "standup")))) = Ok spec
    ∧ standup_item = summary_of (lit "standup") spec (to_rfc3339_secs <$> next)
    ∧ scan_one (cron_env nine true) trigger_tree (cron_dir (lit "standup")) (lit "standup") alice nine =
      (ts ← next; if (nine <? ts) || dest_already_exists trigger_tree (cron_dir (lit "standup")) ts then None
                  else Some (MkFireRequest (lit "standup") spec ts)).
Proof.
  apply (listing_agrees_with_engine (cron_env nine true) trigger_tree alice standup_item);
    [rewrite list_at_nine; left|reflexivity|reflexivity].
Defined.

End sample.
