(* ===== verification/CronRuns.v ===== *)
(** * Runs of the cron engine

    The engine's loop ([gitim-daemon/src/state.rs] [spawn_cron_engine]) beside the
    handlers: a firing happens after its scan, and requests come in between.  What the
    clone stores stays valid, and no firing happens twice. *)

From S2P Require Import Prelude RustStr StrFacts Names QuickSession Asset Links Thread Compliance Meta Git Daemon Cards Cron CronClock.
From stdpp Require Import options.
Open Scope N_scope.
Open Scope list_scope.

(** ** Facts about trees *)

Lemma under_app dir x : under dir x = dir ++ slash :: x.
Proof. done. Qed.

Lemma below_under dir x k : below (under dir x) k = true → below dir k = true.
Proof. apply below_app. right. by eexists. Qed.

Lemma apart_under p q x : apart p q → apart (under p x) q.
Proof.
  intros Ha k. destruct (strip_dir (under p x) k) eqn:E; [right|by left].
  apply strip_dir_None_below. apply (apart_not_below p); [done|]. apply (below_under p x).
  apply below_true. by eexists.
Qed.

Lemma path_exists_move_to from to t x :
  path_exists t to = false → path_exists t (under from x) = true →
  path_exists (move_tree from to t) (under to x) = true.
Proof.
  intros Hto (k & v & rest & Hk & [-> Hr]%strip_dir_Some)%path_exists_true. unfold under in *.
  apply path_exists_true. exists ((to ++ slash :: x) ++ rest), v, rest. split; [|by apply strip_dir_app].
  rewrite <-app_assoc in Hk |- *. rewrite lookup_move_to; [done|right; by eexists|done].
Qed.

Lemma path_exists_move_from from to t x :
  apart from to → path_exists (move_tree from to t) (under from x) = false.
Proof.
  intros Ha. apply path_exists_false. intros k [v Hk]. apply strip_dir_None_below.
  destruct (below (under from x) k) eqn:Hb; [|done]. rewrite lookup_move_from in Hk; [done|done|].
  by eapply below_under.
Qed.

(** ** The places of a trigger *)

Lemma name_split (a b x y : str) : slash ∉ a → slash ∉ b → a ++ slash :: x = b ++ slash :: y → a = b ∧ x = y.
Proof. intros Ha Hb H%(f_equal (split_once [slash])). rewrite !split_once_char in H by done. by simplify_eq. Qed.

Lemma under_under_inj dir a b x y :
  slash ∉ a → slash ∉ b → under (under dir a) x = under (under dir b) y → a = b ∧ x = y.
Proof.
  intros Ha Hb. unfold under. rewrite <-!app_assoc. intros H%app_inv_head. simpl in H. injection H as H.
  by apply name_split.
Qed.

Lemma apart_dirs dir a b : slash ∉ a → slash ∉ b → a ≠ b → apart (under dir a) (under dir b).
Proof.
  intros Ha Hb Hne. unfold under.
  assert (∀ n, dir ++ slash :: n = (dir ++ [slash]) ++ n) as E by (intros n; by rewrite <-app_assoc).
  rewrite (E a), (E b). apply apart_prefix. by apply apart_names.
Qed.

Lemma apart_active_archive a b : apart (cron_dir a) (archive_dir b).
Proof. by apply apart_head. Qed.

Lemma thread_not_spec `{CH : !Chrono} ts : thread_name ts ≠ lit "spec.yaml".
Proof.
  unfold thread_name. intros H. symmetry in H. apply strip_suffix_Some in H. vm_compute in H. done.
Qed.

Section runs.
Context `{UC : !Unicode} `{PE : !PercentEncoding} `{SJ : !SerdeJson} `{CH : !Chrono} `{CR : !Croner} `{GI : !Git}
        `{CY : !CronYaml}.

(** ** What the operations do to the work tree *)

Inductive cron_change : tree → tree → Prop :=
  | change_nothing t : cron_change t t
  | change_created t name yaml spec :
      slash ∉ name →
      path_exists t (spec_of (cron_dir name)) = false → path_exists t (spec_of (archive_dir name)) = false →
      from_yaml yaml = Ok spec →
      cron_change t (<[spec_of (cron_dir name) := yaml]> t)
  | change_rewritten t name yaml spec :
      slash ∉ name → is_Some (t !! spec_of (cron_dir name)) → from_yaml yaml = Ok spec →
      cron_change t (<[spec_of (cron_dir name) := yaml]> t)
  | change_archived t name :
      slash ∉ name →
      path_exists t (spec_of (cron_dir name)) = true → path_exists t (archive_dir name) = false →
      cron_change t (move_tree (cron_dir name) (archive_dir name) t)
  | change_fired t req :
      slash ∉ fr_spec_name req →
      path_exists t (spec_of (cron_dir (fr_spec_name req))) = true → path_exists t (fire_dest req) = false →
      cron_change t (<[fire_dest req := fire_body req]> t).

Lemma cron_name_no_slash name u : validate_cron_name name = Ok u → slash ∉ name.
Proof.
  intros H. unfold validate_cron_name in H. run_ok H. destruct name as [|c name]; [done|]. run_ok H.
  assert (Forall (λ c, is_slug_char c = true) (c :: name)) as Hall by by constructor.
  intros Hin. rewrite Forall_forall in Hall. specialize (Hall _ Hin). by vm_compute in Hall.
Qed.

Lemma from_to_yaml spec text : spec_exact spec → validate spec = Ok tt → to_yaml spec = Ok text → from_yaml text = Ok spec.
Proof.
  intros He Hv H. unfold to_yaml in H. run_ok H. unfold from_yaml. erewrite spec_roundtrip by done. simpl. by rewrite Hv.
Qed.

Lemma check_author_name d name author h : check_author d name author = Ok h → (slash ∉ name) ∧ Handler_new author = Ok h.
Proof. unfold check_author. intros H. run_ok H. split; [by eapply cron_name_no_slash|done]. Qed.

Lemma resolve_target_new d h target h' :
  (∃ a, Handler_new a = Ok h) → resolve_target d h target = Ok h' → ∃ a, Handler_new a = Ok h'.
Proof.
  intros Ha. unfold resolve_target. destruct (eq_ignore_ascii_case _ _); [by intros [= <-]|].
  intros H. run_ok H. by eexists.
Qed.

Lemma check_author_no_panic d name author : no_panic (check_author d name author).
Proof.
  unfold check_author, ensure_author_not_departed. pose proof (Handler_new_no_panic author) as Hh.
  apply res_bind_no_panic; [apply map_err_no_panic; unfold validate_cron_name; solve_no_panic|]. intros _.
  apply res_bind_no_panic; [by apply map_err_no_panic|]. solve_no_panic.
Qed.

(** A written file that is taken away again leaves the tree as it was. *)
Lemma written_committed env (path text : str) r r2 ok :
  path_exists (r_work r) path = false →
  add_and_commit_as (cv_commit env) [path] (write_work path text r) = (r2, ok) →
  r_work r2 = <[path := text]> (r_work r) ∧ r_work (remove_work true path r2) = r_work r.
Proof.
  intros Hp H%add_and_commit_spec.
  assert (r_work r2 = <[path := text]> (r_work r)) as E by (destruct ok; [by rewrite H|destruct H as [->| ->]; done]).
  split; [done|]. cbn. rewrite E. rewrite delete_insert_id; [done|]. by apply path_exists_lookup.
Qed.

Lemma with_repo_work d r : r_work (g_repo (with_repo d r)) = r_work r.
Proof. done. Qed.

Lemma create_change env d name sch tz target prompt author :
  cron_change (r_work (g_repo d)) (r_work (g_repo (handle_create_cron env d name sch tz target prompt author).1)).
Proof.
  unfold handle_create_cron. destruct (check_create_cron _ _ _ _ _ _ _ _) as [[spec yaml]| |] eqn:Ec; [|constructor..].
  unfold check_create_cron in Ec. run_ok Ec.
  destruct (check_author_name _ _ _ _ E) as [Hn Hnew].
  destruct (resolve_target_new _ _ _ _ (ex_intro _ _ Hnew) E0) as [a Ha].
  destruct (create_locked env name yaml (g_repo d)) as [r created] eqn:El. cbn [fst]. rewrite with_repo_work.
  unfold create_locked in El. rewrite E1 in El.
  destruct (cv_mkdir_ok env); [simpl in El|injection El as <- <-; constructor].
  destruct (cv_write_ok env); [simpl in El|injection El as <- <-; constructor].
  destruct (add_and_commit_as _ _ _) as [r2 ok] eqn:Ea. destruct (written_committed _ _ _ _ _ _ E1 Ea) as [Hw Hr].
  assert (cron_change (r_work (g_repo d)) (r_work r2)) as Hch.
  { rewrite Hw. eapply change_created; [done..|]. destruct v3. eapply from_to_yaml; [|exact E3|exact E4].
    by eapply spec_new_exact. }
  destruct ok; [by injection El as <- <-|]. injection El as <- <-.
  destruct (cv_remove_ok env); [|done]. rewrite Hr. constructor.
Qed.

Lemma set_enabled_same s : set_enabled (cs_enabled s) s = s.
Proof. by destruct s. Qed.

Lemma from_yaml_read text spec : from_yaml text = Ok spec → spec_from_str text = Some spec ∧ validate spec = Ok tt.
Proof. unfold from_yaml. intros H. run_ok H. by destruct v0. Qed.

Lemma toggled_yaml text spec b text' :
  from_yaml text = Ok spec → to_yaml (set_enabled b spec) = Ok text' → from_yaml text' = Ok (set_enabled b spec).
Proof. intros [Hs Hv]%from_yaml_read Ht. eapply from_to_yaml; [by eapply spec_read_exact|done|done]. Qed.

Lemma toggle_change env d name author b :
  cron_change (r_work (g_repo d)) (r_work (g_repo (toggle_enabled env d name author b).1)).
Proof.
  unfold toggle_enabled. destruct (res_bind _ _) as [[new_yaml|]| |] eqn:Ec; [|constructor..].
  run_ok Ec. destruct (check_author_name _ _ _ _ E) as [Hn _]. destruct (eqb _ b); [done|]. run_ok Ec.
  unfold read_spec in E1. run_ok E1.
  destruct (toggle_locked env name b new_yaml (g_repo d)) as [r changed] eqn:El. cbn [fst]. rewrite with_repo_work.
  unfold toggle_locked in El. destruct (read_spec _) as [cur| |] eqn:Er; [|injection El as <- <-; constructor..].
  destruct (eqb (cs_enabled cur) b); [injection El as <- <-; constructor|].
  destruct (cv_write_ok env); [simpl in El|injection El as <- <-; constructor].
  destruct (add_and_commit_as _ _ _) as [r2 ok] eqn:Ea.
  assert (r_work r2 = <[spec_of (cron_dir name) := new_yaml]> (r_work (g_repo d))) as Hw.
  { apply add_and_commit_spec in Ea. destruct ok; [by rewrite Ea|destruct Ea as [->| ->]; done]. }
  unfold read_spec in Er. run_ok Er. destruct (cv_reread_ok env); [|done].
  assert (is_Some (r_work (g_repo d) !! spec_of (cron_dir name))) as Hsome by by eexists.
  assert (cron_change (r_work (g_repo d)) (r_work r2)) as Hch.
  { rewrite Hw. eapply change_rewritten; [done|done|]. eapply toggled_yaml; [|done]. done. }
  destruct ok; [by injection El as <- <-|]. injection El as <- <-.
  destruct (to_yaml cur) as [y| |] eqn:Ey; [|done..]. destruct (cv_restore_ok env); [|done].
  cbn [write_work r_work]. rewrite Hw, insert_insert_eq.
  eapply change_rewritten; [done|done|]. rewrite <-(set_enabled_same cur) in Ey. by eapply toggled_yaml.
Qed.

Lemma delete_change env d name author :
  cron_change (r_work (g_repo d)) (r_work (g_repo (handle_delete_cron env d name author).1)).
Proof.
  unfold handle_delete_cron. destruct (res_bind _ _) as [h| |] eqn:Ec; [|constructor..].
  run_ok Ec. destruct (check_author_name _ _ _ _ E) as [Hn _].
  destruct (delete_locked env name (g_repo d)) as [r deleted] eqn:El. cbn [fst]. rewrite with_repo_work.
  unfold delete_locked in El. rewrite E0 in El. simpl in El.
  destruct (mv _ _ _ _) as [r1 ok1] eqn:Em.
  destruct ok1; [|injection El as <- <-; apply mv_fail in Em as ->; constructor].
  pose proof (mv_spec _ _ _ _ _ Em E1) as ->. simpl in El.
  destruct (add_and_commit_as _ _ _) as [r2 ok2] eqn:Ea.
  assert (r_work r2 = move_tree (cron_dir name) (archive_dir name) (r_work (g_repo d))) as Hw.
  { apply add_and_commit_spec in Ea. destruct ok2; [by rewrite Ea|destruct Ea as [->| ->]; done]. }
  assert (cron_change (r_work (g_repo d)) (r_work r2)) as Hch by (rewrite Hw; by constructor).
  destruct ok2; [by injection El as <- <-|]. injection El as <- <-.
  destruct (mv (cv_rollback env) _ _ r2) as [r3 ok3] eqn:Eb. cbn [fst].
  destruct ok3; [|apply mv_fail in Eb as ->; done].
  apply mv_spec in Eb as ->; [|rewrite Hw; apply path_exists_moved, apart_active_archive].
  cbn [moved r_work]. rewrite Hw, move_tree_back; [constructor|apply apart_active_archive|done].
Qed.

Lemma fire_change env r req r' out :
  slash ∉ fr_spec_name req → fire env r req = (r', out) →
  cron_change (r_work r) (r_work r')
  ∧ (out = Ok Fired → path_exists (r_work r) (spec_of (cron_dir (fr_spec_name req))) = true
       ∧ path_exists (r_work r) (fire_dest req) = false ∧ r_work r' = <[fire_dest req := fire_body req]> (r_work r)).
Proof.
  intros Hn H. unfold fire in H. cbv zeta in H.
  destruct (path_exists (r_work r) (spec_of _)) eqn:Es; [simpl in H|injection H as <- <-; by split; [constructor|]].
  destruct (path_exists (r_work r) (fire_dest req)) eqn:Ed; [injection H as <- <-; by split; [constructor|]|].
  destruct (cv_mkdir_ok env); [simpl in H|injection H as <- <-; by split; [constructor|]].
  destruct (cv_write_ok env); [simpl in H|injection H as <- <-; by split; [constructor|]].
  destruct (add_and_commit_as _ _ _) as [r2 ok] eqn:Ea. destruct (written_committed _ _ _ _ _ _ Ed Ea) as [Hw Hr].
  assert (cron_change (r_work r) (r_work r2)) as Hch by (rewrite Hw; by constructor).
  destruct ok; injection H as <- <-; [done|]. split; [|done].
  destruct (cv_remove_ok env); [rewrite Hr; constructor|done].
Qed.

(** ** Changes keep what was fired and what is valid *)

Definition archived_dest (req : FireRequest) : str :=
  under (archive_dir (fr_spec_name req)) (thread_name (fr_theoretical_ts req)).

(** The message of the firing is stored, with the trigger or in the archive; an archived
    trigger is not active. *)
Definition fired_mark (t : tree) (req : FireRequest) : Prop :=
  t !! fire_dest req = Some (fire_body req)
  ∨ t !! archived_dest req = Some (fire_body req)
    ∧ path_exists t (spec_of (archive_dir (fr_spec_name req))) = true
    ∧ path_exists t (spec_of (cron_dir (fr_spec_name req))) = false.

Definition specs_valid (t : tree) : Prop :=
  ∀ dir name text, dir = CRONS ∨ dir = ARCHIVE_CRONS → slash ∉ name →
  t !! spec_of (under dir name) = Some text → ∃ spec, from_yaml text = Ok spec.

Lemma not_below_other dir a b x y :
  slash ∉ a → slash ∉ b → a ≠ b → below (under (under dir a) x) (under (under dir b) y) = false.
Proof.
  intros Ha Hb Hne. apply (apart_not_below (under dir b)).
  - symmetry. apply apart_under. by apply apart_dirs.
  - apply below_true. exists (slash :: y). apply strip_dir_Some. split; [done|]. right. by eexists.
Qed.

(** A new file in the directory of a trigger that is not archived keeps the mark. *)
Lemma mark_insert t req name x v :
  slash ∉ name → slash ∉ fr_spec_name req →
  path_exists t (spec_of (cron_dir name)) = true ∨ path_exists t (spec_of (archive_dir name)) = false →
  (x = lit "spec.yaml" ∨ path_exists t (under (cron_dir name) x) = false) →
  fired_mark t req → fired_mark (<[under (cron_dir name) x := v]> t) req.
Proof.
  intros Hn Hr Hor Hx [H|(H1 & H2 & H3)]; [left|right].
  - rewrite lookup_insert_ne; [done|]. intros E. destruct Hx as [-> |Hx].
    + apply under_under_inj in E as [_ E]; [|done..]. by apply (thread_not_spec (fr_theoretical_ts req)).
    + apply path_exists_lookup in Hx. congruence.
  - split_and!; [rewrite lookup_insert_ne; done|by apply path_exists_insert_mono|].
    rewrite path_exists_insert; [done|]. apply not_below_other; [done..|]. intros <-. destruct Hor; congruence.
Qed.

Lemma below_dir dir x : below dir (under dir x) = true.
Proof. apply below_true. eexists. apply strip_dir_Some. split; [done|]. right. by eexists. Qed.

(** Moving a directory changes nothing in a directory apart from both places. *)
Lemma move_elsewhere from to dir x t :
  apart dir from → apart dir to →
  move_tree from to t !! under dir x = t !! under dir x
  ∧ path_exists (move_tree from to t) (under dir x) = path_exists t (under dir x).
Proof.
  intros Hf Ht. split.
  - apply lookup_move_other; (eapply apart_not_below; [|apply below_dir]); done.
  - apply path_exists_move_other; by apply apart_under.
Qed.

Lemma other_dirs_apart a b :
  slash ∉ a → slash ∉ b → a ≠ b →
  apart (cron_dir a) (cron_dir b) ∧ apart (cron_dir a) (archive_dir b)
  ∧ apart (archive_dir a) (cron_dir b) ∧ apart (archive_dir a) (archive_dir b).
Proof.
  intros Ha Hb Hne. split_and!; [by apply apart_dirs|apply apart_active_archive|symmetry; apply apart_active_archive|by apply apart_dirs].
Qed.

Lemma mark_move t req name :
  slash ∉ name → slash ∉ fr_spec_name req →
  path_exists t (spec_of (cron_dir name)) = true → path_exists t (archive_dir name) = false →
  fired_mark t req → fired_mark (move_tree (cron_dir name) (archive_dir name) t) req.
Proof.
  intros Hn Hr Hs Ha H. pose proof (apart_active_archive name name) as Hap.
  destruct (decide (fr_spec_name req = name)) as [E|Hne].
  - destruct H as [H|(_ & _ & H)]; [right|rewrite E in H; congruence].
    unfold archived_dest, fire_dest in *. rewrite E in *. unfold spec_of.
    split_and!; [|by apply path_exists_move_to|by apply path_exists_move_from].
    rewrite (under_app (archive_dir name)), lookup_move_to; [done|right; by eexists|done].
  - destruct (other_dirs_apart _ _ Hr Hn Hne) as (A1 & A2 & A3 & A4).
    unfold fired_mark, archived_dest, fire_dest, spec_of in *.
    rewrite !(proj1 (move_elsewhere _ _ _ _ _ A1 A2)), !(proj2 (move_elsewhere _ _ _ _ _ A1 A2)).
    by rewrite !(proj1 (move_elsewhere _ _ _ _ _ A3 A4)), !(proj2 (move_elsewhere _ _ _ _ _ A3 A4)).
Qed.

Lemma mark_change t t' req :
  slash ∉ fr_spec_name req → cron_change t t' → fired_mark t req → fired_mark t' req.
Proof.
  intros Hr Hch H. destruct Hch as [|t name yaml spec Hn ? ?|t name yaml spec Hn [v Hv] ?|t name Hn ? ?|t req' Hn ? ?]; [done| | | |].
  - apply mark_insert; auto.
  - apply mark_insert; auto. left. apply lookup_path_exists. by eexists.
  - by apply mark_move.
  - apply mark_insert; auto.
Qed.

Lemma valid_insert t k v :
  (∀ dir name, dir = CRONS ∨ dir = ARCHIVE_CRONS → slash ∉ name → spec_of (under dir name) = k →
     ∃ spec, from_yaml v = Ok spec) →
  specs_valid t → specs_valid (<[k := v]> t).
Proof.
  intros Hk Ht dir name text Hd Hn. destruct (decide (spec_of (under dir name) = k)) as [E|Hne].
  - rewrite E, lookup_insert_eq. intros [= <-]. by eapply Hk.
  - rewrite lookup_insert_ne by done. by apply Ht.
Qed.

Lemma valid_change t t' : cron_change t t' → specs_valid t → specs_valid t'.
Proof.
  intros Hch Ht. destruct Hch as [|t name yaml spec Hn ? ? ?|t name yaml spec Hn ? ?|t name Hn Hs Ha|t req Hn ? ?]; [done| | | |].
  - apply valid_insert; [by eexists|done].
  - apply valid_insert; [by eexists|done].
  - intros dir name' text Hd Hn'. destruct (decide (name' = name)) as [->|Hne].
    + destruct Hd as [-> | ->].
      * rewrite lookup_move_from; [done|apply apart_active_archive|apply below_dir].
      * change (under ARCHIVE_CRONS name) with (archive_dir name). unfold spec_of. rewrite (under_app (archive_dir name)).
        rewrite lookup_move_to; [|right; by eexists|done]. apply (Ht CRONS name); auto.
    + destruct (other_dirs_apart _ _ Hn' Hn Hne) as (A1 & A2 & A3 & A4). destruct Hd as [-> | ->]; unfold spec_of.
      * rewrite (proj1 (move_elsewhere _ _ _ _ _ A1 A2)). apply Ht; auto.
      * rewrite (proj1 (move_elsewhere _ _ _ _ _ A3 A4)). apply Ht; auto.
  - apply valid_insert; [|done]. intros dir name Hd Hn' E. exfalso. destruct Hd as [-> | ->]; [|done].
    unfold spec_of, fire_dest, cron_dir in E. apply under_under_inj in E as [_ E]; [|done..].
    by apply (thread_not_spec (fr_theoretical_ts req)).
Qed.

(** ** Runs *)

Record CronSys := MkCronSys {
  sys_daemon : GDaemon;
  sys_pending : list FireRequest;
  sys_fired : list FireRequest;
}.

Definition sys_work (s : CronSys) : tree := r_work (g_repo (sys_daemon s)).

(** One firing of the engine's loop. *)
Definition fire_step (env : CronEnv) (req : FireRequest) (d : GDaemon) : GDaemon * bool :=
  let '(r, out) := fire env (g_repo d) req in
  (with_repo d r, match out with Ok Fired => true | _ => false end).

(** The loop body of [spawn_cron_engine]: a scan, then its requests in order; errors are
    only logged.  The result names the requests that were fired. *)
Definition engine_tick (env : CronEnv) (fire_env : nat → CronEnv) (self : Handler) (d : GDaemon)
  : GDaemon * list FireRequest :=
  match scan_due env (r_work (g_repo d)) self (cv_now env) with
  | Ok requests =>
      foldl (λ '(d, fired) '(i, req),
               let '(d', done) := fire_step (fire_env (N.to_nat i)) req d in
               (d', if done : bool then req :: fired else fired))
        (d, []) (enumerate_from 0 requests)
  | _ => (d, [])
  end.

(** What can happen between two instants of the engine: a request is served, the engine
    scans or fires, the process restarts, or something else changes the clone outside
    the triggers' directories. *)
Inductive cron_step (self : Handler) : CronSys → CronSys → Prop :=
  | step_create env d q f name sch tz target prompt author :
      cron_step self (MkCronSys d q f)
        (MkCronSys (handle_create_cron env d name sch tz target prompt author).1 q f)
  | step_toggle env d q f name author b :
      cron_step self (MkCronSys d q f) (MkCronSys (toggle_enabled env d name author b).1 q f)
  | step_delete env d q f name author :
      cron_step self (MkCronSys d q f) (MkCronSys (handle_delete_cron env d name author).1 q f)
  | step_scan env d f reqs :
      (∀ names, cv_order env names ≡ₚ names) →
      scan_due env (r_work (g_repo d)) self (cv_now env) = Ok reqs →
      cron_step self (MkCronSys d [] f) (MkCronSys d reqs f)
  | step_fire env d req q f d' done :
      fire_step env req d = (d', done) →
      cron_step self (MkCronSys d (req :: q) f) (MkCronSys d' q (if done : bool then req :: f else f))
  | step_restart d q f : cron_step self (MkCronSys d q f) (MkCronSys d [] f)
  | step_other d q f d' :
      (∀ k, below CRONS k = true ∨ below ARCHIVE_CRONS k = true →
            r_work (g_repo d') !! k = r_work (g_repo d) !! k) →
      cron_step self (MkCronSys d q f) (MkCronSys d' q f).

(** The firings of this clone: named by a directory, valid, enabled and its own when scanned. *)
Definition own_request (self : Handler) (req : FireRequest) : Prop :=
  (slash ∉ fr_spec_name req) ∧ validate (fr_spec req) = Ok tt ∧ cs_enabled (fr_spec req) = true
  ∧ cs_target (fr_spec req) = self.

Definition fire_key (req : FireRequest) : str * Z := (fr_spec_name req, fr_theoretical_ts req).

Record cron_inv (self : Handler) (s : CronSys) : Prop := {
  ci_pending : Forall (own_request self) (sys_pending s);
  ci_fired : Forall (own_request self) (sys_fired s);
  ci_marks : Forall (fired_mark (sys_work s)) (sys_fired s);
  ci_once : NoDup (map fire_key (sys_fired s));
}.

Lemma scan_one_own env t dir name self now req :
  scan_one env t dir name self now = Some req →
  fr_spec_name req = name ∧ validate (fr_spec req) = Ok tt ∧ cs_enabled (fr_spec req) = true ∧ cs_target (fr_spec req) = self.
Proof.
  unfold scan_one. intros H. apply bind_Some in H as (text & _ & H). apply bind_Some in H as (spec & Hs & H).
  destruct (from_yaml text) as [spec'| |] eqn:Ey; [|done..]. injection Hs as ->. apply from_yaml_read in Ey as [_ Ey].
  unfold is_active in H. destruct (cs_enabled spec) eqn:Een; [simpl in H|done].
  case_bool_decide as Ht; [simpl in H|done]. apply handler_eq in Ht.
  apply bind_Some in H as (raw & _ & H). apply bind_Some in H as (next & _ & H).
  destruct (now <? next)%Z; [done|]. destruct (dest_already_exists _ _ _); [done|]. by injection H as <-.
Qed.

Lemma scan_due_own env t self now reqs :
  (∀ names, cv_order env names ≡ₚ names) → scan_due env t self now = Ok reqs → Forall (own_request self) reqs.
Proof.
  intros Ho. unfold scan_due, read_dir. destruct (_ || _); [done|]. destruct (path_exists t CRONS); [|by intros [= <-]].
  intros [= <-]. apply Forall_forall. intros req (name & Hn & H)%list_elem_of_omap.
  apply list_elem_of_In, filter_In in Hn as [Hn _]. apply list_elem_of_In in Hn. rewrite Ho in Hn.
  apply entries_in_elem in Hn as [Hn _]. destruct (is_dir _ _); [simpl in H|done].
  apply scan_one_own in H as (<- & H). by split.
Qed.

Lemma agree_below (t t' : tree) root n x :
  (∀ k, below root k = true → t' !! k = t !! k) →
  t' !! under (under root n) x = t !! under (under root n) x
  ∧ path_exists t' (under (under root n) x) = path_exists t (under (under root n) x).
Proof.
  intros H. split; [apply H, (below_under root n), below_dir|].
  apply path_exists_agree. intros k Hk. apply H, (below_under root n), (below_under _ x), Hk.
Qed.

Lemma mark_agree t t' req :
  (∀ k, below CRONS k = true ∨ below ARCHIVE_CRONS k = true → t' !! k = t !! k) → fired_mark t req → fired_mark t' req.
Proof.
  intros Hag. unfold fired_mark, fire_dest, archived_dest, spec_of, cron_dir, archive_dir.
  destruct (agree_below t t' CRONS (fr_spec_name req) (thread_name (fr_theoretical_ts req))) as [-> _]; [auto|].
  destruct (agree_below t t' CRONS (fr_spec_name req) (lit "spec.yaml")) as [_ ->]; [auto|].
  destruct (agree_below t t' ARCHIVE_CRONS (fr_spec_name req) (thread_name (fr_theoretical_ts req))) as [-> _]; [auto|].
  by destruct (agree_below t t' ARCHIVE_CRONS (fr_spec_name req) (lit "spec.yaml")) as [_ ->]; [auto|].
Qed.

Lemma valid_agree t t' :
  (∀ k, below CRONS k = true ∨ below ARCHIVE_CRONS k = true → t' !! k = t !! k) → specs_valid t → specs_valid t'.
Proof.
  intros Hag Ht dir name text Hd Hn. unfold spec_of.
  destruct (agree_below t t' dir name (lit "spec.yaml")) as [-> _]; [|by apply Ht].
  destruct Hd as [-> | ->]; auto.
Qed.

Lemma fire_step_change env req d d' done :
  slash ∉ fr_spec_name req → fire_step env req d = (d', done) →
  cron_change (r_work (g_repo d)) (r_work (g_repo d'))
  ∧ (done = true → path_exists (r_work (g_repo d)) (spec_of (cron_dir (fr_spec_name req))) = true
       ∧ path_exists (r_work (g_repo d)) (fire_dest req) = false
       ∧ r_work (g_repo d') !! fire_dest req = Some (fire_body req)).
Proof.
  intros Hn. unfold fire_step. destruct (fire env (g_repo d) req) as [r out] eqn:Ef. intros [= <- <-].
  destruct (fire_change _ _ _ _ _ Hn Ef) as [Hch Hf]. rewrite with_repo_work. split; [done|].
  intros Hd. destruct out as [[]| |]; try done. destruct (Hf eq_refl) as (H1 & H2 & ->).
  split_and!; [done..|]. by rewrite lookup_insert_eq.
Qed.

(** A firing that has its mark does not happen again. *)
Lemma marked_not_refired t req req' :
  fired_mark t req' → fire_key req' = fire_key req →
  path_exists t (spec_of (cron_dir (fr_spec_name req))) = true → path_exists t (fire_dest req) = true.
Proof.
  intros H [= En Et] Hs. unfold fired_mark, fire_dest in *. rewrite En, Et in H.
  destruct H as [H|(_ & _ & H)]; [|congruence]. apply lookup_path_exists. by eexists.
Qed.

Lemma inv_change self d d' q f :
  cron_change (r_work (g_repo d)) (r_work (g_repo d')) →
  cron_inv self (MkCronSys d q f) → cron_inv self (MkCronSys d' q f).
Proof.
  intros Hch [H1 H2 H3 H4]. split; try done. simpl in *. unfold sys_work in *. simpl in *.
  rewrite Forall_forall in H2, H3 |- *. intros req Hr. eapply mark_change; [apply H2, Hr|done|by apply H3].
Qed.

Lemma cron_step_inv self s s' : cron_step self s s' → cron_inv self s → cron_inv self s'.
Proof.
  intros [env d q f name sch tz target prompt author|env d q f name author b|env d q f name author
         |env d f reqs Ho Hs|env d req q f d' done Hf|d q f|d q f d' Hag] Hinv.
  - eapply inv_change; [apply create_change|done].
  - eapply inv_change; [apply toggle_change|done].
  - eapply inv_change; [apply delete_change|done].
  - destruct Hinv. split; try done. by eapply scan_due_own.
  - destruct Hinv as [Hp Ho Hm Hnd]. simpl in *. inversion Hp as [|? ? Hreq Hq]; subst.
    destruct (fire_step_change _ _ _ _ _ (proj1 Hreq) Hf) as [Hch Hdone].
    assert (cron_inv self (MkCronSys d' q f)) as [H1 H2 H3 H4] by by apply (inv_change self d).
    destruct done; [|done]. destruct (Hdone eq_refl) as (E1 & E2 & E3).
    split; try done; simpl; constructor; try done; [by left|].
    intros (req' & Hk & Hin)%list_elem_of_fmap. rewrite Forall_forall in Hm. specialize (Hm _ Hin).
    pose proof (marked_not_refired _ _ _ Hm (eq_sym Hk) E1) as Hx. unfold sys_work in Hx. simpl in Hx. congruence.
  - destruct Hinv. by split.
  - destruct Hinv as [H1 H2 H3 H4]. split; try done. simpl in *. eapply Forall_impl; [exact H3|].
    intros req. by apply mark_agree.
Qed.

Lemma cron_run_inv self d s : rtc (cron_step self) (MkCronSys d [] []) s → cron_inv self s.
Proof.
  intros H. assert (cron_inv self (MkCronSys d [] [])) as H0 by by split; constructor.
  induction H as [|x y z Hxy _ IH]; [done|]. apply IH. by eapply cron_step_inv.
Qed.

Lemma cron_step_valid self s s' : cron_step self s s' → cron_inv self s → specs_valid (sys_work s) → specs_valid (sys_work s').
Proof.
  intros [env d q f name sch tz target prompt author|env d q f name author b|env d q f name author
         |env d f reqs Ho Hs|env d req q f d' done Hf|d q f|d q f d' Hag] Hinv; unfold sys_work; simpl; intros Hv; try exact Hv.
  - eapply valid_change; [apply create_change|done].
  - eapply valid_change; [apply toggle_change|done].
  - eapply valid_change; [apply delete_change|done].
  - pose proof (ci_pending _ _ Hinv) as Hp. simpl in Hp. inversion Hp as [|? ? Hreq Hq]; subst.
    eapply valid_change; [|exact Hv]. by destruct (fire_step_change _ _ _ _ _ (proj1 Hreq) Hf).
  - by eapply valid_agree.
Qed.

(** The engine's loop is a run. *)
Lemma tick_fires_run self fire_env reqs i d f f0 d' f' :
  foldl (λ '(d, fired) '(i, req),
           let '(d', done) := fire_step (fire_env (N.to_nat i)) req d in
           (d', if done : bool then req :: fired else fired)) (d, f) (enumerate_from i reqs) = (d', f') →
  rtc (cron_step self) (MkCronSys d reqs (f ++ f0)) (MkCronSys d' [] (f' ++ f0)).
Proof.
  revert i d f. induction reqs as [|req reqs IH]; intros i d f; simpl; [by intros [= <- <-]|].
  destruct (fire_step _ req d) as [d1 done] eqn:Ef. intros H.
  eapply rtc_l; [by eapply step_fire|]. specialize (IH _ _ _ H). by destruct done.
Qed.

Lemma tick_run self env fire_env d f d' fired :
  (∀ names, cv_order env names ≡ₚ names) →
  engine_tick env fire_env self d = (d', fired) →
  rtc (cron_step self) (MkCronSys d [] f) (MkCronSys d' [] (fired ++ f)).
Proof.
  intros Ho. unfold engine_tick. destruct (scan_due _ _ _ _) as [reqs| |] eqn:Es; [|by intros [= <- <-]..].
  intros H. eapply rtc_l; [by eapply step_scan|]. by apply (tick_fires_run self fire_env reqs 0 d []).
Qed.

Lemma first_line_head c s : c ≠ nl → c ≠ cr → ∃ s', body_first_line (c :: s) = c :: s'.
Proof.
  intros Hnl Hcr. unfold body_first_line, lines. simpl. destruct (N.eqb_spec c nl); [done|].
  assert (∀ h, ∃ s', line_of_chunk (c :: h) = c :: s') as Hl.
  { intros h. unfold line_of_chunk. destruct (strip_suffix [nl] (c :: h)) as [l|] eqn:E; [|by eexists].
    apply strip_suffix_Some in E. destruct l as [|x l]; simplify_eq/=.
    destruct (strip_suffix [cr] (x :: l)) as [l'|] eqn:E'; simpl; [|by eexists].
    apply strip_suffix_Some in E'. destruct l' as [|y l']; simplify_eq/=. by eexists. }
  destruct (split_inclusive nl s) as [|h t]; simpl; apply Hl.
Qed.

Lemma compact_timestamp ts : rfc3339_range ts → is_timestamp (format_compact ts) = true.
Proof.
  intros (date & time & -> & Hd & Ht & Hdd & Hdt)%compact_form. unfold is_timestamp.
  assert (∀ s, all_digits s → forallb is_nd s = true) as Hnd.
  { intros s Hs. apply forallb_Forall. by apply all_digits_nd. }
  rewrite !length_app, Hd, Ht. rewrite take_app_length' by done. rewrite drop_app_length' by done.
  rewrite (Hnd _ Hdd). rewrite drop_app_ge by lia. rewrite Hd. cbn [length drop take app Nat.sub Nat.add Nat.eqb andb].
  rewrite take_0, drop_0, take_app_length' by done. rewrite (Hnd _ Hdt). rewrite drop_app_ge by lia. rewrite Hd.
  cbn [Nat.sub drop]. rewrite drop_app_length' by done. done.
Qed.

(** What a firing writes: one message of the system, with the time it was due. *)
Lemma fire_body_parses req :
  rfc3339_range (fr_theoretical_ts req) →
  parse_thread (fire_body req) =
  Ok (MkThreadFile [EntryMessage (stored_message 1 0 Handler_system (format_compact (fr_theoretical_ts req))
        (lit "cron(" ++ fr_spec_name req ++ lit "): " ++ cs_prompt (fr_spec req)))]).
Proof.
  intros Hr. unfold fire_body, format_cron_body. rewrite message_exact; [|done|done|by left|by apply compact_timestamp].
  cbn [app]. destruct (first_line_head (ch "c") (lit "ron(" ++ fr_spec_name req ++ lit "): " ++ cs_prompt (fr_spec req)))
    as [s' Hs]; [done..|]. cbn [app] in Hs. rewrite Hs.
  destruct (reread_line _) eqn:E; [|done]. exfalso. apply reread_line_nil in E. by inversion E.
Qed.

(** A commit that fails after staging leaves the file in the index. *)
Lemma failed_fire_staged env r req r1 ps g r2 :
  path_exists (r_work r) (spec_of (cron_dir (fr_spec_name req))) = true →
  path_exists (r_work r) (fire_dest req) = false →
  cv_mkdir_ok env = true → cv_write_ok env = true →
  git_add (cv_commit env).1 [fire_dest req] (write_work (fire_dest req) (fire_body req) r) = Some r1 →
  git_commit (cv_commit env).2 r1 = None →
  in_paths ps (fire_dest req) = false →
  add_and_commit_as g ps (fire env r req).1 = (r2, true) →
  (fire env r req).2 = Err GitCommit ∧ r_head r2 !! fire_dest req = Some (fire_body req)
  ∧ (cv_remove_ok env = true → r_work r2 !! fire_dest req = None).
Proof.
  intros Hs Hd Hm Hw Ha Hc Hps. unfold fire. cbv zeta. rewrite Hs, Hd, Hm, Hw. simpl. unfold add_and_commit_as at 1 2 3.
  rewrite Ha, Hc. simpl. destruct (git_add_stages _ _ _ _ Ha) as [_ ->]. intros ->%add_and_commit_spec.
  split; [done|]. unfold stage. cbn [r_head r_index r_work].
  rewrite lookup_sync_paths, Hps. split.
  - destruct (cv_remove_ok env); cbn [remove_work r_index]; rewrite lookup_sync_paths; simpl;
      rewrite below_refl; cbn; by rewrite lookup_insert_eq.
  - intros ->. cbn. by rewrite lookup_delete_eq.
Qed.

(** ** Claims *)

(** C32: a firing happens at most once.  Whatever requests come in between a scan and its
    firings, whichever of their steps fail, and however often the engine restarts, no
    trigger is fired twice for the same time; every firing was of a trigger that was
    valid, enabled and addressed to this clone; and the message of every firing is still
    stored as it was written, with its trigger or, once that is deleted, in the archive.
    Fired is what the engine reported as success; other work, a pull among it, is taken to
    leave the triggers of the clone alone. *)
Theorem cron_fires_at_most_once (self : Handler) (d : GDaemon) (s : CronSys)
    (Hrun : rtc (cron_step self) (MkCronSys d [] []) s) :
  NoDup (map fire_key (sys_fired s))
  ∧ Forall (λ req, own_request self req
            ∧ (sys_work s !! fire_dest req = Some (fire_body req) ∨ sys_work s !! archived_dest req = Some (fire_body req)))
      (sys_fired s).
Proof.
  destruct (cron_run_inv _ _ _ Hrun) as [_ H2 H3 H4]. split; [done|]. rewrite Forall_forall in H2, H3 |- *.
  intros req Hr. split; [by apply H2|]. destruct (H3 _ Hr) as [?|(? & _)]; auto.
Qed.

(** Stored triggers are valid.  If every specification in the clone, active or
    archived, can be read and passes validation, then so does every one after any run
    of the engine and the handlers. *)
Theorem stored_crons_valid (self : Handler) (d : GDaemon) (s : CronSys)
    (Hinit : specs_valid (r_work (g_repo d))) (Hrun : rtc (cron_step self) (MkCronSys d [] []) s) :
  specs_valid (sys_work s).
Proof.
  assert (cron_inv self (MkCronSys d [] [])) as H0 by by split; constructor.
  change (r_work (g_repo d)) with (sys_work (MkCronSys d [] [])) in Hinit. revert Hinit H0.
  induction Hrun as [|x y z Hxy _ IH]; [done|]. intros Hv Hi. apply IH; [by eapply cron_step_valid|by eapply cron_step_inv].
Qed.

(** What a firing does.  It fires exactly when the trigger still has its specification
    and the time no file; then the commit records the file, and the file is a thread of
    one message from the system with the due time and the prompt.  In every other case the
    work tree is as it was, provided that the file could be removed after a failed commit. *)
Theorem fire_exact (env : CronEnv) (r : Repo) (req : FireRequest)
    (Hrange : rfc3339_range (fr_theoretical_ts req)) :
  let t := r_work r in
  let has_spec := path_exists t (spec_of (cron_dir (fr_spec_name req))) in
  let '(r', out) := fire env r req in
  match out with
  | Ok Fired =>
      has_spec = true ∧ path_exists t (fire_dest req) = false
      ∧ r_work r' = <[fire_dest req := fire_body req]> t ∧ r_head r' !! fire_dest req = Some (fire_body req)
      ∧ parse_thread (fire_body req) =
        Ok (MkThreadFile [EntryMessage (stored_message 1 0 Handler_system (format_compact (fr_theoretical_ts req))
              (lit "cron(" ++ fr_spec_name req ++ lit "): " ++ cs_prompt (fr_spec req)))])
  | Ok SpecDeleted => has_spec = false ∧ r' = r
  | Ok AlreadyFired => has_spec = true ∧ path_exists t (fire_dest req) = true ∧ r' = r
  | Err (ThreadWrite path) => path = fire_dest req ∧ r' = r
  | Err GitCommit => r_head r' = r_head r ∧ (cv_remove_ok env = true → r_work r' = t)
  | Err CronsDirRead | Panicked => False
  end.
Proof.
  cbv zeta. destruct (fire env r req) as [r' out] eqn:Ef.
  unfold fire in Ef. cbv zeta in Ef.
  destruct (path_exists (r_work r) (spec_of _)) eqn:Es; [simpl in Ef|by injection Ef as <- <-].
  destruct (path_exists (r_work r) (fire_dest req)) eqn:Ed; [by injection Ef as <- <-|].
  destruct (cv_mkdir_ok env); [simpl in Ef|by injection Ef as <- <-].
  destruct (cv_write_ok env); [simpl in Ef|by injection Ef as <- <-].
  destruct (add_and_commit_as _ _ _) as [r2 ok] eqn:Ea. destruct (written_committed _ _ _ _ _ _ Ed Ea) as [Hw Hr].
  apply add_and_commit_spec in Ea. destruct ok; injection Ef as <- <-.
  - split_and!; [done|done|done| |by apply fire_body_parses].
    rewrite Ea. cbn. rewrite lookup_sync_paths. simpl. rewrite below_refl. cbn. by rewrite lookup_insert_eq.
  - split; [destruct (cv_remove_ok env); destruct Ea as [->| ->]; done|]. by intros ->.
Qed.

(** Deleting a trigger is all or nothing.  On a clone without uncommitted changes a
    deletion that is answered with success has moved the whole directory, firings
    included, to the archive in the work tree, the index and the commit; one that is
    answered with an error leaves all three as they were, unless the move back fails. *)
Theorem delete_cron_atomic (env : CronEnv) (d : GDaemon) (name author : str) (t : tree)
    (Hclean : g_repo d = MkRepo t t t) :
  let '(d', response) := handle_delete_cron env d name author in
  match response with
  | Ok _ => let t' := move_tree (cron_dir name) (archive_dir name) t in
            path_exists t (spec_of (cron_dir name)) = true ∧ path_exists t (archive_dir name) = false
            ∧ g_repo d' = MkRepo t' t' t'
  | Err e => g_repo d' = g_repo d
             ∨ e = CronCommit ∧ git_mv (cv_rollback env) (archive_dir name) (cron_dir name)
                                  (moved (cron_dir name) (archive_dir name) (g_repo d)) = None
  | Panicked => False
  end.
Proof.
  unfold handle_delete_cron. destruct (res_bind _ _) as [h|e|] eqn:Ec; [|by left|].
  - run_ok Ec. rewrite Hclean in E0, E1. cbn [r_work] in E0, E1. unfold delete_locked. rewrite Hclean. cbn [r_work].
    rewrite E0. cbn [negb].
    destruct (mv _ _ _ _) as [r1 ok1] eqn:Em.
    destruct ok1; cbn [negb]; [|apply mv_fail in Em as ->; by left].
    pose proof (mv_spec _ _ _ _ _ Em E1) as ->.
    set (t' := move_tree (cron_dir name) (archive_dir name) t).
    assert (stage [archive_dir name] (moved (cron_dir name) (archive_dir name) (MkRepo t t t)) = MkRepo t' t' t) as Hst.
    { unfold stage, moved. cbn. fold t'. by rewrite sync_paths_same. }
    destruct (add_and_commit_as _ _ _) as [r2 ok2] eqn:Ea. apply add_and_commit_spec in Ea. rewrite Hst in Ea.
    destruct ok2; cbn [negb].
    + cbn. split_and!; [done..|]. by rewrite Ea.
    + assert (r2 = MkRepo t' t' t) as -> by (destruct Ea as [->| ->]; done). cbn [res_bind].
      unfold mv. destruct (git_mv (cv_rollback env) _ _ _) as [r3|] eqn:Eb; [left|by right].
      destruct (git_mv_moves _ _ _ _ _ Eb) as [_ ->]. cbn [r_work r_index r_head fst].
      unfold t'. rewrite path_exists_moved by apply apart_active_archive. cbn.
      by rewrite move_tree_back by (apply apart_active_archive || done).
  - revert Ec. apply res_bind_no_panic; [apply check_author_no_panic|]. intros a. solve_no_panic.
Qed.

End runs.

(** ** A run *)

Section sample.
#[local] Existing Instance ascii_unicode.
#[local] Existing Instance std_percent_encoding.
#[local] Existing Instance keyword_json.
#[local] Existing Instance utc_chrono.
#[local] Existing Instance periodic_croner.
#[local] Existing Instance plain_cron_yaml.
#[local] Existing Instance plain_git.

Definition tick_at (now : Z) (d : GDaemon) : GDaemon * list FireRequest :=
  engine_tick (cron_env now true) (λ _, cron_env now true) alice d.

(** The trigger is made, two ticks fire it, and it is deleted. *)
Definition after_first : GDaemon := (tick_at nine with_trigger.1).1.
Definition after_second : GDaemon := (tick_at nine after_first).1.
Definition after_delete : GDaemon := (handle_delete_cron (cron_env nine true) after_second (lit "standup") (lit "alice")).1.

Definition both_fired : list FireRequest := [standup_at nine; standup_at (nine - seconds 60)].

Lemma first_tick : tick_at nine with_trigger.1 = (after_first, [standup_at (nine - seconds 60)]).
Proof.
  rewrite (surjective_pairing (tick_at nine with_trigger.1)). apply (f_equal (pair after_first)). vm_compute. reflexivity.
Qed.
Lemma second_tick : tick_at nine after_first = (after_second, [standup_at nine]).
Proof.
  rewrite (surjective_pairing (tick_at nine after_first)). apply (f_equal (pair after_second)). vm_compute. reflexivity.
Qed.

Lemma made_run : cron_step alice (MkCronSys users_daemon [] []) (MkCronSys with_trigger.1 [] []).
Proof.
  exact (step_create alice (cron_env (nine - seconds 1800) true) users_daemon [] []
           (lit "standup") (lit "* * * * *") None (lit "@self") (lit "what is next?") (lit "alice")).
Qed.

Lemma deleted_run : cron_step alice (MkCronSys after_second [] both_fired) (MkCronSys after_delete [] both_fired).
Proof. exact (step_delete alice (cron_env nine true) after_second [] both_fired (lit "standup") (lit "alice")). Qed.

Lemma nine_order names : cv_order (cron_env nine true) names ≡ₚ names.
Proof. done. Qed.

Lemma sample_run : rtc (cron_step alice) (MkCronSys users_daemon [] []) (MkCronSys after_delete [] both_fired).
Proof.
  refine (rtc_l _ _ _ _ made_run _).
  etransitivity; [exact (tick_run alice _ _ _ [] _ _ nine_order first_tick)|].
  etransitivity; [exact (tick_run alice _ _ _ _ _ _ nine_order second_tick)|].
  exact (rtc_once _ _ deleted_run).
Qed.

Lemma cron_fires_at_most_once_witness : NoDup (map fire_key both_fired).
Proof. exact (proj1 (cron_fires_at_most_once alice users_daemon (MkCronSys after_delete [] both_fired) sample_run)). Defined.

Lemma stored_crons_valid_witness : specs_valid (r_work (g_repo after_delete)).
Proof.
  refine (stored_crons_valid alice users_daemon (MkCronSys after_delete [] both_fired) _ sample_run).
  intros dir name text [-> | ->] _ H; apply elem_of_map_to_list in H; vm_compute in H; set_solver.
Defined.

Lemma nine_range : rfc3339_range nine.
Proof. by vm_compute. Qed.

Lemma fire_exact_witness :
  r_head (fire (cron_env nine true) (g_repo after_first) (standup_at nine)).1 !! fire_dest (standup_at nine)
  = Some (fire_body (standup_at nine)).
Proof.
  pose proof (fire_exact (cron_env nine true) (g_repo after_first) (standup_at nine) nine_range) as H.
  assert (match (fire (cron_env nine true) (g_repo after_first) (standup_at nine)).2 with Ok Fired => true | _ => false end = true)
    as Ho by (vm_compute; reflexivity).
  cbv zeta in H. destruct (fire (cron_env nine true) (g_repo after_first) (standup_at nine)) as [r' [[]|e|]];
    try discriminate Ho.
  exact (proj1 (proj2 (proj2 (proj2 H)))).
Defined.

Lemma delete_cron_atomic_witness :
  let d := with_trigger.1 in
  let t := r_work (g_repo d) in
  g_repo (handle_delete_cron (cron_env nine false) d (lit "standup") (lit "alice")).1 = g_repo d
  ∨ git_mv works (archive_dir (lit "standup")) (cron_dir (lit "standup"))
      (moved (cron_dir (lit "standup")) (archive_dir (lit "standup")) (g_repo d)) = None.
Proof.
  cbv zeta. pose proof (delete_cron_atomic (cron_env nine false) with_trigger.1 (lit "standup") (lit "alice")
                (r_work (g_repo with_trigger.1)) ltac:(vm_compute; reflexivity)) as H.
  assert (is_err (handle_delete_cron (cron_env nine false) with_trigger.1 (lit "standup") (lit "alice")).2 = true) as He
    by (vm_compute; reflexivity).
  destruct (handle_delete_cron (cron_env nine false) with_trigger.1 (lit "standup") (lit "alice")) as [d' [x|e|]];
    [discriminate He| |discriminate He].
  destruct H as [H|[_ H]]; [by left|by right].
Defined.

End sample.
