(* ===== verification/FetchCache.v ===== *)
(** * The shared fetch cache

    [gitim-sync/src/fetch_cache.rs]: the daemons of one workspace share what one of them
    fetched.  A lock file serialises them; a state file names the active generation, its
    refs and when the attempt that made it ended; a bare repository holds the refs of the
    generations, each under a namespace of its own.  The one that finds the state stale is
    the leader: it fetches into a shadow namespace of its clone, publishes a generation,
    replaces the state file, and imports the generation; the others import only.

    [fetch_for_pull] is a program over the git commands and file operations it runs; what
    these do to the shared cache and to the clone is the relation [effect].  Refs are maps
    from branches, by their shadow ref names, to object ids. *)

From S2P Require Import Prelude Prog RustStr StrFacts GitText.
From stdpp Require Import options.
Open Scope N_scope.
Open Scope list_scope.

(** ** Identities *)

Section identity.
Context `{UC : !Unicode} `{LC : !Lowercase}.

(** [str::split_at_checked(8)] and [eq_ignore_ascii_case]. *)
Definition strip_https_scheme (raw : str) : option str :=
  if map ascii_lower (take 8 raw) =?? lit "https://" then Some (drop 8 raw) else None.

Definition normalize_github_repository (raw : str) : option str :=
  match split_char (ch "/") raw with
  | [host; owner; repository] =>
      if negb (map ascii_lower host =?? lit "github.com") || is_empty owner || is_empty repository then None
      else
        let repository := unwrap_or (strip_suffix (lit ".git") repository) repository in
        if is_empty repository then None
        else Some (lit "github.com/" ++ to_lowercase owner ++ lit "/" ++ to_lowercase repository)
  | _ => None
  end.

Definition normalize_config_remote (raw : str) : option str :=
  let raw := trim raw in
  if contains raw (lit "?") || contains raw (lit "#") || contains raw (lit "@") then None
  else remainder ← strip_https_scheme raw; normalize_github_repository remainder.

(** [str::rsplit_once] at a character. *)
Definition rsplit_once (c : char) (s : str) : option (str * str) :=
  '(after, before) ← split_once [c] (reverse s); Some (reverse before, reverse after).

Definition parse_credentialed_origin (raw : str) : option (str * str) :=
  let raw := trim raw in
  if contains raw (lit "?") || contains raw (lit "#") then None
  else
    remainder ← strip_https_scheme raw;
    '(credentials, repository) ← rsplit_once (ch "@") remainder;
    if contains credentials (lit "/") then None
    else
      '(username, token) ← split_once (lit ":") credentials;
      if is_empty username || is_empty token then None
      else identity ← normalize_github_repository repository; Some (identity, token).

(** The remote configured for the workspace and the one of the clone are the same. *)
Definition matching_identity (configured_remote configured_token raw_origin : str) (fetch_refspecs : list str) : option str :=
  let configured_remote := trim configured_remote in
  if is_empty configured_remote || is_empty configured_token then None
  else
    remote_identity ← normalize_config_remote configured_remote;
    '(origin_identity, origin_token) ← parse_credentialed_origin raw_origin;
    if negb (origin_identity =?? remote_identity) || negb (origin_token =?? configured_token) then None
    else if bool_decide (fetch_refspecs = [lit "+refs/heads/*:refs/remotes/origin/*"]) then Some remote_identity else None.

(** The two ways to write one remote have one identity: the workspace's configuration
    without credentials, the clone's origin with them. *)
Lemma credentialed_origin_matches (username token repository : str) :
  let plain := lit "https://" ++ repository in
  let origin := lit "https://" ++ (username ++ ch ":" :: token) ++ ch "@" :: repository in
  trim plain = plain → trim origin = origin → ch "@" ∉ repository →
  contains (username ++ ch ":" :: token) (lit "?") = false → contains (username ++ ch ":" :: token) (lit "#") = false →
  ch "/" ∉ username ++ token → ch ":" ∉ username → username ≠ [] → token ≠ [] →
  parse_credentialed_origin origin = (identity ← normalize_config_remote plain; Some (identity, token)).
Proof.
  cbv zeta. set (plain := _ ++ repository). set (origin := _ ++ _ ++ _). intros Hp Ho Hat Hq Hh Hs Hc Hu Ht.
  assert (∀ c, c ∉ lit "https://" → c ≠ ch "@" → contains (username ++ ch ":" :: token) [c] = false →
               contains origin [c] = contains plain [c]) as Hcon.
  { intros c Hc1 Hc2 Hc3. apply eq_true_iff_eq. rewrite !contains_char_true.
    assert (c ∉ username ++ ch ":" :: token) by (intros Hin; apply contains_char_true in Hin; congruence).
    unfold origin, plain. set_solver. }
  assert (strip_https_scheme origin = Some ((username ++ ch ":" :: token) ++ ch "@" :: repository)) as E1 by reflexivity.
  assert (strip_https_scheme plain = Some repository) as E2 by reflexivity.
  assert (rsplit_once (ch "@") ((username ++ ch ":" :: token) ++ ch "@" :: repository) = Some (username ++ ch ":" :: token, repository)) as E3.
  { unfold rsplit_once. rewrite reverse_app, reverse_cons, <-app_assoc. cbn [app].
    rewrite split_once_char by (by rewrite elem_of_reverse). cbn. by rewrite !reverse_involutive. }
  assert (contains plain [ch "@"] = false) as E4.
  { apply not_true_iff_false. rewrite contains_char_true. unfold plain. intros Hin. apply elem_of_app in Hin as [Hin|Hin]; [|done].
    revert Hin. apply (bool_decide_eq_true_1 (ch "@" ∉ lit "https://")). by vm_compute. }
  unfold parse_credentialed_origin, normalize_config_remote. rewrite Hp, Ho.
  change (lit "?") with [ch "?"] in *. change (lit "#") with [ch "#"] in *. change (lit "@") with [ch "@"]. change (lit "/") with [ch "/"].
  change (lit ":") with [ch ":"].
  rewrite !Hcon, E1, E2, E4, orb_false_r by (done || (apply (bool_decide_eq_true_1 _); by vm_compute)).
  destruct (_ || _); [done|]. cbn [mbind option_bind]. rewrite E3. cbn [mbind option_bind].
  assert (contains (username ++ ch ":" :: token) [ch "/"] = false) as ->.
  { apply not_true_iff_false. rewrite contains_char_true. set_unfold. intros [Hin|[Hin|Hin]]; [naive_solver|done|naive_solver]. }
  rewrite split_once_char by done. cbn [mbind option_bind]. by destruct username, token.
Qed.

End identity.

(** ** State *)

Notation Manifest := (gmap str str).

Definition CACHE_SCHEMA_VERSION : N := 1.
Definition MAX_CONTENTION_SHORT_RETRIES : N := 3.
Definition RATE_LIMIT_COOLDOWN : N := 120000.
Definition MIN_TRANSIENT_COOLDOWN : N := 3000.
Definition AUTH_FAILURE_COOLDOWN : N := 300000.

Inductive CacheNeutralHint := PreserveSchedule | RetryContention.
Inductive PullFetchResult := Ready | NeutralSkip (hint : CacheNeutralHint) | RemoteError (error : GitError).

Record SyncCacheProgress := MkProgress {
  interval : N;
  applied_generation : option N;
  disabled : bool;
  contention_short_retries : N;
}.

Definition new_progress (interval_ms : N) : SyncCacheProgress := MkProgress interval_ms None false 0.
Definition reset_contention_retries (p : SyncCacheProgress) : SyncCacheProgress :=
  MkProgress (interval p) (applied_generation p) (disabled p) 0.
Definition set_applied (g : N) (p : SyncCacheProgress) : SyncCacheProgress :=
  MkProgress (interval p) (Some g) (disabled p) (contention_short_retries p).
Definition set_disabled (p : SyncCacheProgress) : SyncCacheProgress :=
  MkProgress (interval p) (applied_generation p) true (contention_short_retries p).

Definition contention_neutral_hint (p : SyncCacheProgress) : SyncCacheProgress * CacheNeutralHint :=
  if contention_short_retries p <? MAX_CONTENTION_SHORT_RETRIES
  then (MkProgress (interval p) (applied_generation p) (disabled p) (contention_short_retries p + 1), RetryContention)
  else (reset_contention_retries p, PreserveSchedule).

Record ConfigRevision := MkConfigRevision { modified_unix_nanos : N; rev_length : N }.
#[export] Instance ConfigRevision_eq_dec : EqDecision ConfigRevision.
Proof. solve_decision. Defined.

Inductive AttemptClass := ClassSuccess | ClassAuthFailed | ClassRateLimited | ClassTransientFailure.
#[export] Instance AttemptClass_eq_dec : EqDecision AttemptClass.
Proof. solve_decision. Defined.

Record CacheState := MkCacheState {
  schema_version : N;
  remote_identity : str;
  config_revision : ConfigRevision;
  generation : N;
  manifest : Manifest;
  completed_at_unix_ms : N;
  attempt : AttemptClass;
  retry_after_unix_ms : option N;
}.

(** What [discover] finds out about the workspace. *)
Record CacheContext := MkCacheContext { cx_identity : str; cx_revision : ConfigRevision }.

Definition success_is_fresh (st : CacheState) (now_ms interval : N) : bool :=
  bool_decide (attempt st = ClassSuccess) && (completed_at_unix_ms st <=? now_ms)
  && (now_ms - completed_at_unix_ms st <? interval).

Definition failure_cooldown_active (st : CacheState) (now_ms : N) (revision : ConfigRevision) : bool :=
  bool_decide (attempt st ≠ ClassSuccess) && bool_decide (config_revision st = revision)
  && (completed_at_unix_ms st <=? now_ms) && is_some_and (retry_after_unix_ms st) (λ retry_after, now_ms <? retry_after).

Definition valid_ref (kv : str * str) : bool :=
  is_some_and (strip_prefix shadow_prefix kv.1) (λ branch, negb (is_empty branch))
  && ((len kv.2 =? 40) || (len kv.2 =? 64)) && forallb is_ascii_hexdigit kv.2.

Definition state_is_semantically_valid (st : CacheState) : bool :=
  (match attempt st with
   | ClassSuccess => negb (is_some (retry_after_unix_ms st))
   | _ => is_some (retry_after_unix_ms st)
   end)
  && (negb (generation st =? 0) || bool_decide (manifest st = ∅))
  && forallb valid_ref (map_to_list (manifest st)).

Definition retry_after (error : GitError) (now_ms interval : N) : N :=
  let cooldown := match error with
                  | AuthFailed _ => AUTH_FAILURE_COOLDOWN
                  | RateLimited => RATE_LIMIT_COOLDOWN
                  | _ => N.max interval MIN_TRANSIENT_COOLDOWN
                  end in
  N.min (now_ms + cooldown) (2 ^ 64 - 1).

Definition attempt_class (error : GitError) : AttemptClass :=
  match error with
  | AuthFailed _ => ClassAuthFailed
  | RateLimited => ClassRateLimited
  | _ => ClassTransientFailure
  end.

(** ** Operations *)

Inductive LockAttempt := Acquired | Contended | LockFailed.

Inductive CacheOp : Type → Type :=
  | Discover : CacheOp (option CacheContext)
  | AcquireLock : CacheOp LockAttempt
  | ReadClock : CacheOp N
  | ReadState : CacheOp (option (option CacheState))
  | RepositoryIsValid : CacheOp bool
  | GenerationManifest (g : N) : CacheOp (option Manifest)
  | TipsAreReadable (m : Manifest) : CacheOp bool
  | ImportGeneration (g : N) : CacheOp bool
  | CleanupGenerations (g : N) : CacheOp bool
  | DirectFetch : CacheOp (option GitError)
  | FetchShadow : CacheOp (option GitError)
  | ShadowManifest : CacheOp (option Manifest)
  | RebuildCache : CacheOp bool
  | EnsureCache : CacheOp bool
  | PublishGeneration (g : N) : CacheOp bool
  | WriteState (st : CacheState) : CacheOp bool.

Local Notation Prog := (Prog.Prog CacheOp).

Definition slot_error (e : GitError) : bool :=
  match e with
  | RemoteSlotBusy | RemoteSlotUnavailable _ => true
  | _ => false
  end.

Definition Answer : Type := SyncCacheProgress * PullFetchResult.

Definition direct_fallback (p : SyncCacheProgress) (trustworthy_generation : option N) : Prog Answer :=
  let p := reset_contention_retries p in
  ask! r := DirectFetch in
  Ret match r with
      | None => (match trustworthy_generation with Some g => set_applied g p | None => set_disabled p end, Ready)
      | Some e => (p, if slot_error e then NeutralSkip PreserveSchedule else RemoteError e)
      end.

Definition cleanup_inactive_generations (g : N) : Prog unit :=
  ask! valid := RepositoryIsValid in
  if negb valid then Ret tt else ask! _ := CleanupGenerations g in Ret tt.

(** True where the active generation is in the cache with the refs of the state. *)
Definition validate_active_generation (st : CacheState) : Prog bool :=
  ask! valid := RepositoryIsValid in
  if negb valid then Ret false else
  ask! m := GenerationManifest (generation st) in
  match m with
  | None => Ret false
  | Some m => if negb (bool_decide (m = manifest st)) then Ret false else ask! ok := TipsAreReadable m in Ret ok
  end.

Definition publish_failure (cx : CacheContext) (previous : option CacheState) (error : GitError) (interval now_ms : N)
  : Prog unit :=
  ask! _ := WriteState (MkCacheState CACHE_SCHEMA_VERSION (cx_identity cx) (cx_revision cx)
      (match previous with Some st => generation st | None => 0 end)
      (match previous with Some st => manifest st | None => ∅ end)
      now_ms (attempt_class error) (Some (retry_after error now_ms interval))) in
  Ret tt.

(** The generation the leader's refs belong to; [None] where the counter is exhausted. *)
Definition next_generation (previous : option CacheState) (m : Manifest) (needs_publication : bool) : option N :=
  match previous with
  | None => Some (if bool_decide (m = ∅) then 0 else 1)
  | Some st => if negb needs_publication then Some (generation st)
               else if generation st <? 2 ^ 64 - 1 then Some (generation st + 1) else None
  end.

Definition publish (g : N) (m : Manifest) (repair : bool) : Prog bool :=
  ask! ready := (if repair then RebuildCache else EnsureCache) in
  if negb ready then Ret false
  else if bool_decide (m = ∅) then Ret true
  else ask! published := PublishGeneration g in Ret published.

(** The end of a refresh, once the state names the generation. *)
Definition apply_published (p : SyncCacheProgress) (st : CacheState) : Prog Answer :=
  let g := generation st in
  let finish := (run! _ := (if 0 <? g then cleanup_inactive_generations g else Ret tt) in Ret (set_applied g p, Ready)) in
  if negb (bool_decide (manifest st = ∅)) && negb (bool_decide (applied_generation p = Some g)) then
    run! valid := validate_active_generation st in
    if negb valid then direct_fallback p None else
    ask! imported := ImportGeneration g in
    if negb imported then direct_fallback p None else finish
  else finish.

Definition publish_refs (cx : CacheContext) (previous : option CacheState) (p : SyncCacheProgress)
    (repair : bool) (trustworthy : option N) (m : Manifest) : Prog Answer :=
  let needs_publication := negb (is_some_and previous (λ st, bool_decide (manifest st = m))) || repair in
  match next_generation previous m needs_publication with
  | None => direct_fallback p trustworthy
  | Some g =>
      run! published := (if needs_publication then publish g m repair else Ret true) in
      if negb published then direct_fallback p trustworthy else
      ask! completed_at := ReadClock in
      let st := MkCacheState CACHE_SCHEMA_VERSION (cx_identity cx) (cx_revision cx) g m completed_at ClassSuccess None in
      run! valid := (if needs_publication && (0 <? g) then validate_active_generation st else Ret true) in
      if negb valid then direct_fallback p trustworthy else
      ask! written := WriteState st in
      if negb written then direct_fallback p trustworthy
      else apply_published p st
  end.

Definition refresh_as_leader (cx : CacheContext) (previous : option CacheState) (p : SyncCacheProgress) (force_repair : bool)
  : Prog Answer :=
  run! intact := match previous with
                 | Some st => if 0 <? generation st then validate_active_generation st else Ret true
                 | None => Ret true
                 end in
  let repair := negb intact || force_repair in
  let trustworthy := if repair then None else generation <$> previous in
  ask! fetched := FetchShadow in
  match fetched with
  | Some error =>
      if slot_error error then Ret (reset_contention_retries p, NeutralSkip PreserveSchedule)
      else
        ask! completed_at := ReadClock in
        run! _ := publish_failure cx previous error (interval p) completed_at in
        Ret (p, RemoteError error)
  | None =>
      ask! shadow := ShadowManifest in
      match shadow with
      | None => direct_fallback p trustworthy
      | Some m => publish_refs cx previous p repair trustworthy m
      end
  end.

(** A success that is still fresh is imported, unless it was before. *)
Definition reuse_fresh (cx : CacheContext) (st : CacheState) (p : SyncCacheProgress) : Prog Answer :=
  if is_some_and (applied_generation p) (λ a, generation st <=? a) then Ret (p, Ready)
  else
    run! intact := (if 0 <? generation st then validate_active_generation st else Ret true) in
    if negb intact then refresh_as_leader cx (Some st) p false
    else if bool_decide (manifest st = ∅) then Ret (set_applied (generation st) p, Ready)
    else
      ask! imported := ImportGeneration (generation st) in
      if negb imported then refresh_as_leader cx (Some st) p true
      else run! _ := cleanup_inactive_generations (generation st) in Ret (set_applied (generation st) p, Ready).

Definition usable_state (cx : CacheContext) (st : CacheState) : bool :=
  (schema_version st =? CACHE_SCHEMA_VERSION) && (remote_identity st =?? cx_identity cx) && state_is_semantically_valid st.

(** What the lock holder decides. *)
Definition decide_under_lock (cx : CacheContext) (p : SyncCacheProgress) : Prog Answer :=
  ask! now := ReadClock in
  ask! state := ReadState in
  match state with
  | None => direct_fallback p None
  | Some None => refresh_as_leader cx None p false
  | Some (Some st) =>
      if negb (usable_state cx st) then direct_fallback p None
      else if failure_cooldown_active st now (cx_revision cx) then Ret (reset_contention_retries p, NeutralSkip PreserveSchedule)
      else if success_is_fresh st now (interval p) then reuse_fresh cx st p
      else refresh_as_leader cx (Some st) p false
  end.

Definition fetch_for_pull (p : SyncCacheProgress) : Prog Answer :=
  if disabled p then direct_fallback p None else
  ask! context := Discover in
  match context with
  | None => direct_fallback p None
  | Some cx =>
      ask! lock := AcquireLock in
      match lock with
      | Acquired => decide_under_lock cx (reset_contention_retries p)
      | Contended => let '(p, hint) := contention_neutral_hint p in Ret (p, NeutralSkip hint)
      | LockFailed => direct_fallback p None
      end
  end.

(** ** What the operations do *)

(** The state file is missing, unreadable, or holds a state; the repository is not a valid
    one, or holds generations.  [ws_fetches] are the times the remote was asked, newest
    first, with the refs it answered; the shadow and tracking refs are those of one clone. *)
Inductive StateFile := StateMissing | StateBroken | StateHolds (st : CacheState).

Record Workspace := MkWorkspace {
  ws_state : StateFile;
  ws_repository : option (gmap N Manifest);
  ws_remote : Manifest;
  ws_clock : N;
  ws_fetches : list (N * option Manifest);
  ws_shadow : Manifest;
  ws_tracking : Manifest;
}.

Definition set_state (s : StateFile) (w : Workspace) : Workspace :=
  MkWorkspace s (ws_repository w) (ws_remote w) (ws_clock w) (ws_fetches w) (ws_shadow w) (ws_tracking w).
Definition set_repository (r : option (gmap N Manifest)) (w : Workspace) : Workspace :=
  MkWorkspace (ws_state w) r (ws_remote w) (ws_clock w) (ws_fetches w) (ws_shadow w) (ws_tracking w).
Definition set_clock (now : N) (w : Workspace) : Workspace :=
  MkWorkspace (ws_state w) (ws_repository w) (ws_remote w) now (ws_fetches w) (ws_shadow w) (ws_tracking w).
Definition set_tracking (t : Manifest) (w : Workspace) : Workspace :=
  MkWorkspace (ws_state w) (ws_repository w) (ws_remote w) (ws_clock w) (ws_fetches w) (ws_shadow w) t.
Definition set_remote (r : Manifest) (w : Workspace) : Workspace :=
  MkWorkspace (ws_state w) (ws_repository w) r (ws_clock w) (ws_fetches w) (ws_shadow w) (ws_tracking w).
Definition set_shadow (s : Manifest) (w : Workspace) : Workspace :=
  MkWorkspace (ws_state w) (ws_repository w) (ws_remote w) (ws_clock w) (ws_fetches w) s (ws_tracking w).

(** The remote was asked, and answered with its refs; a busy slot is found before it is
    asked. *)
Definition asked (now : N) (r : option GitError) (answer : Manifest) (w : Workspace) : Workspace :=
  if is_some_and r slot_error then set_clock now w
  else MkWorkspace (ws_state w) (ws_repository w) (ws_remote w) now
         ((now, match r with None => Some answer | Some _ => None end) :: ws_fetches w) (ws_shadow w) (ws_tracking w).

(** [git for-each-ref] on the namespace of a generation. *)
Definition generation_refs (gens : gmap N Manifest) (g : N) : Manifest := default ∅ (gens !! g).

Section cache.
#[local] Set Default Proof Using "Type*".
(** [newer a b]: commit [a] is [b] or has it among its ancestors. *)
Context (newer : str → str → Prop) `{!PreOrder newer}.

(** Every branch of [m] is in [t], at the same commit or a later one. *)
Definition covers (t m : Manifest) : Prop := ∀ k v, m !! k = Some v → ∃ w, t !! k = Some w ∧ newer w v.

#[local] Instance covers_refl : Reflexive covers.
Proof. intros m k v H. by exists v. Qed.
#[local] Instance covers_trans : Transitive covers.
Proof. intros a b c Hab Hbc k v H. destruct (Hbc k v H) as (w & Hw & Hn). destruct (Hab k w Hw) as (x & Hx & Hn'). exists x. split; [done|by etrans]. Qed.

(** The answers an operation can give and the state it leaves.  Branches of the remote
    only move forward; what it has is what a fetch brings, and a fetch that fails brings
    nothing.  A command on the cache repository that fails may have left it in one of the
    states the source passes through. *)
Definition effect (X : Type) (op : CacheOp X) : Workspace → X → Workspace → Prop :=
  match op in CacheOp X return Workspace → X → Workspace → Prop with
  | Discover => λ w _ w', w' = w
  | AcquireLock => λ w _ w', w' = w
  | ReadClock => λ w now w', ws_clock w ≤ now ∧ w' = set_clock now w
  | ReadState => λ w x w', w' = w ∧
      match x with
      | None => True
      | Some None => ws_state w = StateMissing
      | Some (Some st) => ws_state w = StateHolds st
      end
  | RepositoryIsValid => λ w b w', w' = w ∧ b = is_some (ws_repository w)
  | GenerationManifest g => λ w x w', w' = w ∧
      match x with
      | None => True
      | Some m => 0 < g ∧ ∃ gens, ws_repository w = Some gens ∧ m = generation_refs gens g
      end
  | TipsAreReadable _ => λ w _ w', w' = w
  | ImportGeneration g => λ w ok w',
      if ok : bool
      then ∃ gens, 0 < g ∧ ws_repository w = Some gens ∧ w' = set_tracking (generation_refs gens g ∪ ws_tracking w) w
      else w' = w
  | CleanupGenerations g => λ w ok w',
      if ok : bool
      then ∃ gens, ws_repository w = Some gens ∧ w' = set_repository (Some (filter (λ kv : N * Manifest, kv.1 = g) gens)) w
      else w' = w
  | DirectFetch => λ w r w', ∃ now m, ws_clock w ≤ now ∧ covers m (ws_remote w) ∧
      w' = asked now r m (if is_some r then w else set_tracking (m ∪ ws_tracking w) (set_remote m w))
  | FetchShadow => λ w r w', ∃ now m, ws_clock w ≤ now ∧ covers m (ws_remote w) ∧
      w' = asked now r m (if is_some r then w else set_shadow m (set_remote m w))
  | ShadowManifest => λ w x w', w' = w ∧ match x with Some m => m = ws_shadow w | None => True end
  | RebuildCache => λ w ok w',
      if ok : bool then w' = set_repository (Some ∅) w
      else w' = w ∨ w' = set_repository None w ∨ w' = set_repository (Some ∅) w
  | EnsureCache => λ w ok w',
      match ws_repository w with
      | Some _ => ok = true ∧ w' = w
      | None => if ok : bool then w' = set_repository (Some ∅) w
                else w' = w ∨ w' = set_repository (Some ∅) w
      end
  | PublishGeneration g => λ w ok w',
      if ok : bool
      then ∃ gens, 0 < g ∧ ws_repository w = Some gens ∧ w' = set_repository (Some (<[g := ws_shadow w]> gens)) w
      else w' = w ∨ ∃ gens, ws_repository w = Some gens ∧ w' = set_repository (Some (delete g gens)) w
  | WriteState st => λ w ok w', w' = if ok : bool then set_state (StateHolds st) w else w
  end.

(** ** One call *)

(** The state file is only replaced by a later generation, or by the same one with the same
    refs. *)
Definition state_le (s s' : StateFile) : Prop :=
  match s with
  | StateHolds st => ∃ st', s' = StateHolds st' ∧ generation st ≤ generation st'
                            ∧ (generation st' = generation st → manifest st' = manifest st)
  | _ => True
  end.

(** What the state names was fetched from the remote. *)
Definition state_fetched (w : Workspace) : Prop := ∀ st, ws_state w = StateHolds st → covers (ws_remote w) (manifest st).

(** The clone has the refs of the generation it applied. *)
Definition applied_ok (p : SyncCacheProgress) (s : StateFile) (t : Manifest) : Prop :=
  ∀ g, applied_generation p = Some g →
    ∃ st, s = StateHolds st ∧ g ≤ generation st ∧ (g = generation st → covers t (manifest st)).

(** The clone has what the remote has, or what a fetch found that ended less than the
    interval ago. *)
Definition up_to_date (interval : N) (w : Workspace) : Prop :=
  covers (ws_tracking w) (ws_remote w)
  ∨ ∃ st, ws_state w = StateHolds st ∧ success_is_fresh st (ws_clock w) interval = true
          ∧ covers (ws_tracking w) (manifest st).

(** A success written since [w0] records refs the remote answered in between. *)
Definition stamped (w0 w : Workspace) : Prop :=
  ws_state w = ws_state w0 ∨
  ∀ st, ws_state w = StateHolds st → attempt st = ClassSuccess →
    ∃ t, (t, Some (manifest st)) ∈ ws_fetches w ∧ ws_clock w0 ≤ t ∧ t ≤ completed_at_unix_ms st ∧ completed_at_unix_ms st ≤ ws_clock w.

(** What holds since [w0], whatever was done. *)
Definition keeps (w0 w : Workspace) : Prop :=
  state_le (ws_state w0) (ws_state w) ∧ state_fetched w ∧ stamped w0 w ∧ ws_clock w0 ≤ ws_clock w
  ∧ covers (ws_remote w) (ws_remote w0) ∧ (∃ l, ws_fetches w = l ++ ws_fetches w0).

Definition settled (interval : N) (w0 w : Workspace) (a : Answer) : Prop :=
  keeps w0 w ∧ applied_ok a.1 (ws_state w) (ws_tracking w) ∧ (a.2 = Ready → up_to_date interval w).

(** What every operation but the write of the state does. *)
Definition later (w w' : Workspace) : Prop :=
  ws_state w' = ws_state w ∧ ws_clock w ≤ ws_clock w' ∧ covers (ws_remote w') (ws_remote w)
  ∧ (∃ l, ws_fetches w' = l ++ ws_fetches w).

Lemma covers_union (m t : Manifest) : covers (m ∪ t) m.
Proof. intros k v H. exists v. split; [by apply lookup_union_Some_l|done]. Qed.

Lemma covers_empty (t : Manifest) : covers t (∅ : gmap str str).
Proof. intros k v H. by rewrite lookup_empty in H. Qed.

Lemma applied_same p q s t : applied_generation q = applied_generation p → applied_ok p s t → applied_ok q s t.
Proof. unfold applied_ok. by intros ->. Qed.

Lemma later_refl w : later w w.
Proof. repeat split; [lia|reflexivity|by exists []]. Qed.

Lemma later_same w w' :
  ws_state w' = ws_state w → ws_clock w' = ws_clock w → ws_remote w' = ws_remote w → ws_fetches w' = ws_fetches w → later w w'.
Proof. intros Hs Hc Hr Hf. split; [done|]. rewrite Hc, Hr, Hf. split; [lia|]. split; [reflexivity|by exists []]. Qed.

Lemma later_asked now r m w w' :
  ws_clock w ≤ now → covers m (ws_remote w) →
  w' = (if is_some r then w else set_tracking (m ∪ ws_tracking w) (set_remote m w)) ∨ w' = (if is_some r then w else set_shadow m (set_remote m w)) →
  later w (asked now r m w').
Proof.
  intros Hc Hm Hw. unfold asked. destruct r as [e|]; cbn in *.
  - destruct (slot_error e); destruct Hw as [-> | ->]; (split; [done|]); (split; [done|]); (split; [reflexivity|]); first [by eexists [] | by eexists [_]].
  - destruct Hw as [-> | ->]; (split; [done|]); (split; [done|]); (split; [done|]); by eexists [_].
Qed.

Definition not_write {X} (op : CacheOp X) : Prop := match op with WriteState _ => False | _ => True end.

Lemma effect_later X (op : CacheOp X) w x w' : not_write op → effect X op w x w' → later w w'.
Proof.
  destruct op; cbn; intros Hop He; try done;
    try (subst; apply later_refl); try (destruct He as [-> _]; apply later_refl);
    try (destruct He as (now & m & Hc & Hm & ->); eapply later_asked; eauto; fail).
  - destruct He as [Hc ->]. repeat split; [done|reflexivity|by exists []].
  - destruct x; naive_solver eauto using later_same.
  - destruct x; naive_solver eauto using later_same.
  - destruct x; naive_solver eauto using later_same.
  - destruct (ws_repository w); destruct x; naive_solver eauto using later_same.
  - destruct x; naive_solver eauto using later_same.
Qed.

Lemma keeps_refl w : state_fetched w → keeps w w.
Proof.
  intros Hf. split; [|split; [done|split; [by left|split; [lia|split; [reflexivity|by exists []]]]]].
  unfold state_le. destruct (ws_state w) as [| |st]; [done|done|]. by exists st.
Qed.

Lemma keeps_later w0 w w' : keeps w0 w → later w w' → keeps w0 w'.
Proof.
  intros (Hle & Hf & Hs & Hc & Hr & l & Hl) (Es & Hc' & Hr' & l' & Hl'). split; [by rewrite Es|]. split.
  { intros st Hst. etrans; [exact Hr'|]. apply Hf. congruence. }
  split.
  { destruct Hs as [Hs|Hs]; [left; congruence|right]. intros st Hst Ha. destruct (Hs st ltac:(congruence) Ha) as (t & Ht & ? & ? & ?).
    exists t. rewrite Hl'. split; [set_solver|]. lia. }
  split; [lia|]. split; [by etrans|]. exists (l' ++ l). by rewrite Hl', Hl, app_assoc.
Qed.

Lemma keeps_effect X (op : CacheOp X) w0 w x w' : keeps w0 w → not_write op → effect X op w x w' → keeps w0 w'.
Proof. intros Hk Hop He. eapply keeps_later; [done|]. by eapply effect_later. Qed.

Lemma wp_direct_fallback i w0 w p trustworthy :
  keeps w0 w → applied_ok p (ws_state w) (ws_tracking w) →
  (∀ g, trustworthy = Some g → ∃ st, ws_state w = StateHolds st ∧ g = generation st) →
  wp effect (keeps w0) (direct_fallback p trustworthy) w (settled i w0).
Proof.
  intros Hk Ha Ht. unfold direct_fallback. cbn [wp]. intros r w' He.
  assert (keeps w0 w') as Hk' by by eapply (keeps_effect _ DirectFetch). split; [done|]. split; [done|].
  destruct Hk as (_ & Hf & _). destruct He as (now & m & Hc & Hm & ->). unfold asked. destruct r as [e|]; cbn.
  - split; [|by destruct (slot_error e)]. eapply (applied_same p); [done|]. by destruct (slot_error e).
  - split; [|intros _; left; apply covers_union].
    intros g Hg. cbn in *. destruct trustworthy as [g'|].
    + injection Hg as <-. destruct (Ht g' eq_refl) as (st & Hst & ->). exists st. split; [done|]. split; [lia|]. intros _.
      etrans; [apply covers_union|]. etrans; [exact Hm|by apply Hf].
    + destruct (Ha g Hg) as (st & Hst & Hle' & _). exists st. split; [done|]. split; [done|]. intros _.
      etrans; [apply covers_union|]. etrans; [exact Hm|by apply Hf].
Qed.

(** Validation reads only, and finds the refs of the state in the cache. *)
Lemma wp_validate inv st w (Q : Workspace → bool → Prop) :
  inv w → Q w false →
  ((∃ gens, 0 < generation st ∧ ws_repository w = Some gens ∧ generation_refs gens (generation st) = manifest st) → Q w true) →
  wp effect inv (validate_active_generation st) w Q.
Proof.
  intros Hi Hf Ht. unfold validate_active_generation. cbn [wp]. intros b w' [-> ->]. split; [done|].
  destruct (is_some (ws_repository w)); cbn [negb wp]; [|done]. intros m w' [-> Hm]. split; [done|].
  destruct m as [m|]; [|done]. destruct Hm as (Hg & gens & Hr & ->). case_bool_decide; cbn [negb wp]; [|done].
  intros ok w' ->. split; [done|]. destruct ok; [|done]. apply Ht. by exists gens.
Qed.

Lemma wp_cleanup inv g w (Q : Workspace → unit → Prop) :
  inv w → Q w tt →
  (∀ gens, ws_repository w = Some gens → let w' := set_repository (Some (filter (λ kv : N * Manifest, kv.1 = g) gens)) w in inv w' ∧ Q w' tt) →
  wp effect inv (cleanup_inactive_generations g) w Q.
Proof.
  intros Hi HQ Hc. unfold cleanup_inactive_generations. cbn [wp]. intros b w' [-> ->]. split; [done|].
  destruct (is_some _); cbn [negb wp]; [|done]. intros ok w' He. destruct ok; cbn in He; [|by subst].
  destruct He as (gens & Hr & ->). by apply Hc.
Qed.

(** Publishing touches the repository only. *)
Lemma wp_publish w0 g m repair w (Q : Workspace → bool → Prop) :
  keeps w0 w → (∀ r b, Q (set_repository r w) b) → Q w false → Q w true → wp effect (keeps w0) (publish g m repair) w Q.
Proof.
  intros Hk HQ Hf Ht. unfold publish.
  assert (∀ w' b, (w' = w ∨ ∃ r, w' = set_repository r w) → Q w' b) as HQ' by (intros w' [|] [->|[r ->]]; auto).
  assert (∀ w', (w' = w ∨ ∃ r, w' = set_repository r w) → keeps w0 w') as Hk' by (intros w' [->|[r ->]]; done).
  assert (∀ w' w'', (w' = w ∨ ∃ r, w' = set_repository r w) → (w'' = w' ∨ ∃ r, w'' = set_repository r w') →
                    (w'' = w ∨ ∃ r, w'' = set_repository r w)) as Htr.
  { intros w' w'' [->|[r ->]] [->|[r' ->]]; [by left|right; by eexists|right; by eexists|right; by exists r']. }
  assert (∀ w' ok, (w' = w ∨ ∃ r, w' = set_repository r w) →
    wp effect (keeps w0) (if negb ok then Ret false else if bool_decide (m = ∅) then Ret true
                          else ask! published := PublishGeneration g in Ret published) w' Q) as Hrest.
  { intros w' [|] Hw; cbn [negb wp]; [|by apply HQ']. case_bool_decide; cbn [wp]; [by apply HQ'|].
    intros ok w'' He. assert (w'' = w' ∨ ∃ r, w'' = set_repository r w') as Hw'.
    { cbn in He. destruct ok; [destruct He as (gens & _ & _ & ->); right; by eexists|].
      destruct He as [->|(gens & _ & ->)]; [by left|right; by eexists]. }
    pose proof (Htr _ _ Hw Hw'). split; [by apply Hk'|by apply HQ']. }
  destruct repair; cbn [wp]; intros ok w' He.
  - assert (w' = w ∨ ∃ r, w' = set_repository r w) as Hw.
    { cbn in He. destruct ok; [subst; right; by eexists|]. destruct He as [->|[->| ->]]; [by left|right; by eexists|right; by eexists]. }
    split; [by apply Hk'|by apply Hrest].
  - assert (w' = w ∨ ∃ r, w' = set_repository r w) as Hw.
    { cbn in He. destruct (ws_repository w); [destruct He as [_ ->]; by left|]. destruct ok; [subst; right; by eexists|].
      destruct He as [->| ->]; [by left|right; by eexists]. }
    split; [by apply Hk'|by apply Hrest].
Qed.

(** The state that was just written, or its refs, reach the clone. *)
Lemma wp_apply_published i w0 w p st :
  keeps w0 w → ws_state w = StateHolds st → covers (manifest st) (ws_remote w) →
  (∀ g, applied_generation p = Some g → g ≤ generation st ∧ (g = generation st → covers (ws_tracking w) (manifest st))) →
  wp effect (keeps w0) (apply_published p st) w (settled i w0).
Proof.
  intros Hk Hst Hm Ha. unfold apply_published.
  assert (applied_ok p (ws_state w) (ws_tracking w)) as Hap.
  { intros g Hg. exists st. split; [done|]. by apply Ha. }
  assert (∀ w', keeps w0 w' → ws_state w' = StateHolds st → ws_remote w' = ws_remote w → covers (ws_tracking w') (manifest st) →
    wp effect (keeps w0) (run! _ := (if 0 <? generation st then cleanup_inactive_generations (generation st) else Ret tt) in
                          Ret (set_applied (generation st) p, Ready)) w' (settled i w0)) as Hfin.
  { intros w' Hk' Hst' Hr' Hc. apply wp_bind.
    assert (∀ w2, ws_state w2 = ws_state w' → ws_tracking w2 = ws_tracking w' → ws_remote w2 = ws_remote w' → keeps w0 w2 →
                  settled i w0 w2 (set_applied (generation st) p, Ready)) as Hset.
    { intros w2 Hs Ht Hr Hk2. split; [done|]. split.
      - intros g [= <-]. exists st. rewrite Hs, Hst', Ht. split; [done|]. split; [lia|done].
      - intros _. left. rewrite Ht, Hr, Hr'. by etrans. }
    destruct (0 <? generation st); [|by apply Hset].
    apply wp_cleanup; [done|by apply Hset|]. intros gens Hgens. split; [done|]. by apply Hset. }
  case_bool_decide as He; cbn [negb andb].
  { apply Hfin; [done|done|done|]. rewrite He. apply covers_empty. }
  case_bool_decide as Hg; cbn [negb]; [apply Hfin; [done|done|done|by eapply Ha]|].
  apply wp_bind, wp_validate; [done|by apply wp_direct_fallback|].
  intros (gens & Hpos & Hrepo & Hrefs). cbn [negb wp]. intros ok w' Hi. destruct ok; cbn in Hi.
  - destruct Hi as (gens' & _ & Hrepo' & ->). split; [done|]. cbn [negb]. apply Hfin; [done|done|done|].
    cbn. rewrite Hrepo in Hrepo'. injection Hrepo' as <-. rewrite Hrefs. apply covers_union.
  - subst w'. split; [done|]. by apply wp_direct_fallback.
Qed.

(** The previous state is the one in the file. *)
Definition previous_is (previous : option CacheState) (s : StateFile) : Prop :=
  match previous with Some st => s = StateHolds st | None => s = StateMissing end.

Lemma trustworthy_is previous s (repair : bool) g :
  previous_is previous s → (if repair then None else generation <$> previous) = Some g → ∃ st, s = StateHolds st ∧ g = generation st.
Proof. intros Hp. destruct repair; [done|]. destruct previous as [st|]; [|done]. intros [= <-]. by exists st. Qed.

(** A state written over the previous one, with a generation that belongs to its refs. *)
Lemma state_le_next previous s m needs g st' :
  previous_is previous s → next_generation previous m needs = Some g → generation st' = g → manifest st' = m →
  (needs = false → ∃ st, previous = Some st ∧ manifest st = m) →
  state_le s (StateHolds st').
Proof.
  intros Hp Hn Hg Hm Hneeds. destruct previous as [st|]; cbn in Hp; subst s; [|done]. cbn in *. exists st'. split; [done|].
  destruct needs; cbn in Hn.
  - destruct (_ <? _); [|done]. injection Hn as <-. split; lia.
  - injection Hn as <-. destruct (Hneeds eq_refl) as (st0 & [= <-] & Hm'). split; [lia|]. intros _. congruence.
Qed.

(** The leader holds the refs [m] the remote answered since [w0]. *)
Lemma wp_publish_refs i w0 w cx previous p repair m :
  keeps w0 w → ws_state w = ws_state w0 → previous_is previous (ws_state w0) → applied_ok p (ws_state w) (ws_tracking w) →
  m = ws_remote w → (∃ t, (t, Some m) ∈ ws_fetches w ∧ ws_clock w0 ≤ t ∧ t ≤ ws_clock w) →
  wp effect (keeps w0) (publish_refs cx previous p repair (if repair then None else generation <$> previous) m) w (settled i w0).
Proof.
  intros Hk Hs0 Hp Ha Hm (t & Ht & Ht0 & Ht1). unfold publish_refs. set (needs := negb _ || repair).
  assert (∀ w', keeps w0 w' → ws_state w' = ws_state w0 → ws_tracking w' = ws_tracking w →
            wp effect (keeps w0) (direct_fallback p (if repair then None else generation <$> previous)) w' (settled i w0)) as Hfb.
  { intros w' Hk' Hs Htr. apply wp_direct_fallback; [done|by rewrite Hs, Htr, <-Hs0|]. intros g Hg. rewrite Hs. by eapply trustworthy_is. }
  destruct (next_generation previous m needs) as [g|] eqn:Eg; [|by apply Hfb].
  assert (needs = false → ∃ st, previous = Some st ∧ manifest st = m) as Hneeds.
  { intros Hn. unfold needs in Hn. apply orb_false_iff in Hn as [Hn _]. apply negb_false_iff in Hn.
    destruct previous as [st|]; [|done]. cbn in Hn. apply bool_decide_eq_true in Hn. by exists st. }
  assert (∀ w', keeps w0 w' → ws_state w' = ws_state w0 → ws_tracking w' = ws_tracking w → ws_remote w' = ws_remote w →
      ws_fetches w' = ws_fetches w → ws_clock w' = ws_clock w → ∀ published : bool,
    wp effect (keeps w0)
      (if negb published then direct_fallback p (if repair then None else generation <$> previous) else
       ask! completed_at := ReadClock in
       let st := MkCacheState CACHE_SCHEMA_VERSION (cx_identity cx) (cx_revision cx) g m completed_at ClassSuccess None in
       run! valid := (if needs && (0 <? g) then validate_active_generation st else Ret true) in
       if negb valid then direct_fallback p (if repair then None else generation <$> previous) else
       ask! written := WriteState st in
       if negb written then direct_fallback p (if repair then None else generation <$> previous)
       else apply_published p st) w' (settled i w0)) as Hrest.
  { intros w' Hk' Hs Htr Hr Hfe Hcl published. destruct published; cbn [negb wp]; [|by apply Hfb].
    intros now w1 Heff. assert (keeps w0 w1) as Hk1 by by eapply (keeps_effect _ ReadClock).
    destruct Heff as [Hnow ->]. split; [done|]. cbv zeta. set (st := MkCacheState _ _ _ _ _ _ _ _). apply wp_bind.
    assert (wp effect (keeps w0)
      (ask! written := WriteState st in
       if negb written then direct_fallback p (if repair then None else generation <$> previous) else apply_published p st)
      (set_clock now w') (settled i w0)) as Hwrite.
    { cbn [wp]. intros written w2 ->. destruct written; cbn [negb]; [|split; [done|by apply Hfb]].
      assert (state_le (ws_state w0) (StateHolds st)) as Hle by by eapply (state_le_next previous _ m needs g).
      assert (keeps w0 (set_state (StateHolds st) (set_clock now w'))) as Hk2.
      { destruct Hk1 as (_ & _ & _ & Hrest). split; [exact Hle|]. split; [intros st' [= <-]; cbn; by rewrite Hm, Hr|].
        split; [|exact Hrest]. right. intros st' [= <-] _. exists t. cbn. rewrite Hfe. split; [done|]. lia. }
      split; [done|]. apply wp_apply_published; [done|done|cbn; rewrite Hr, Hm; reflexivity|].
      intros g' Hg'. destruct (Ha g' Hg') as (st0 & Hst0 & Hle0 & Hc0). rewrite <-Hs0, Hst0 in Hle. destruct Hle as (st1 & [= <-] & Hle1 & Hm1).
      split; [lia|]. intros ->. cbn in *. rewrite Htr. assert (g = generation st0) as -> by lia. rewrite (Hm1 eq_refl). by apply Hc0. }
    destruct (needs && (0 <? g)); [|exact Hwrite].
    apply wp_validate; [done|by apply Hfb|intros _; exact Hwrite]. }
  apply wp_bind. destruct needs; [|by apply Hrest].
  apply wp_publish; [done|intros r b; by apply Hrest|by apply Hrest|by apply Hrest].
Qed.

(** A failed attempt is recorded with the generation and the refs of the previous state. *)
Lemma wp_publish_failure w0 w cx previous p error now (Q : Workspace → unit → Prop) :
  keeps w0 w → previous_is previous (ws_state w) → ws_state w = ws_state w0 → applied_ok p (ws_state w) (ws_tracking w) →
  (∀ w', keeps w0 w' → applied_ok p (ws_state w') (ws_tracking w') → Q w' tt) →
  wp effect (keeps w0) (publish_failure cx previous error (interval p) now) w Q.
Proof.
  intros Hk Hp Hs0 Ha HQ. unfold publish_failure. cbn [wp]. intros ok w' ->. set (st := MkCacheState _ _ _ _ _ _ _ _).
  destruct ok; [|split; [done|by apply HQ]].
  assert (keeps w0 (set_state (StateHolds st) w)) as Hk'.
  { destruct Hk as (_ & Hf & _ & Hrest). split; [|split; [|split; [|exact Hrest]]].
    - rewrite <-Hs0. destruct previous as [st0|]; cbn in Hp; rewrite Hp; [|done]. exists st. split; [done|]. cbn. split; [lia|done].
    - intros st' [= <-]. cbn. destruct previous as [st0|]; cbn in Hp |- *; [by apply Hf|apply covers_empty].
    - right. intros st' [= <-]. by destruct error. }
  split; [done|]. apply HQ; [done|]. intros g Hg. destruct (Ha g Hg) as (st0 & Hst0 & Hle & Hc). exists st. split; [done|].
  destruct previous as [st1|]; cbn in Hp |- *; rewrite Hp in Hst0; [|done]. injection Hst0 as ->. done.
Qed.

Lemma wp_refresh i w0 w cx previous p force_repair :
  keeps w0 w → ws_state w = ws_state w0 → previous_is previous (ws_state w) → applied_ok p (ws_state w) (ws_tracking w) →
  wp effect (keeps w0) (refresh_as_leader cx previous p force_repair) w (settled i w0).
Proof.
  intros Hk Hs0 Hp Ha. unfold refresh_as_leader. apply wp_bind.
  assert (∀ intact, wp effect (keeps w0)
    (let repair := negb intact || force_repair in
     let trustworthy := if repair then None else generation <$> previous in
     ask! fetched := FetchShadow in
     match fetched with
     | Some error =>
         if slot_error error then Ret (reset_contention_retries p, NeutralSkip PreserveSchedule)
         else
           ask! completed_at := ReadClock in
           run! _ := publish_failure cx previous error (interval p) completed_at in
           Ret (p, RemoteError error)
     | None =>
         ask! shadow := ShadowManifest in
         match shadow with
         | None => direct_fallback p trustworthy
         | Some m => publish_refs cx previous p repair trustworthy m
         end
     end) w (settled i w0)) as Hmain.
  { intros intact. cbv zeta. set (repair := negb intact || force_repair). cbn [wp]. intros r w1 He.
    assert (keeps w0 w1) as Hk1 by by eapply (keeps_effect _ FetchShadow).
    assert (ws_state w1 = ws_state w0 ∧ ws_tracking w1 = ws_tracking w) as [Hs1 Ht1].
    { destruct He as (now & m & _ & _ & ->). unfold asked. destruct r as [e|]; [by destruct (is_some_and _ _)|done]. }
    rewrite Hs0, <-Hs1 in Hp. rewrite <-Ht1, Hs0, <-Hs1 in Ha. split; [done|].
    destruct r as [e|].
    - destruct (slot_error e); [split; [done|by split; [apply (applied_same p)|]]|].
      cbn [wp]. intros now w2 He2. assert (keeps w0 w2) as Hk2 by by eapply (keeps_effect _ ReadClock). split; [done|].
      destruct He2 as [_ ->]. apply wp_bind. apply wp_publish_failure; [done|done|done|done|]. intros w' Hk' Ha'. by split.
    - destruct He as (now & m & Hnow & Hm & ->). cbn in *. intros x w2 [-> Hx]. split; [done|].
      destruct x as [m'|]; [subst m'|].
      + apply wp_publish_refs; [done|done|by rewrite <-Hs1|done|done|]. exists now. cbn. split; [set_solver|].
        destruct Hk as (_ & _ & _ & Hc & _). lia.
      + apply wp_direct_fallback; [done|done|]. intros g Hg. by eapply trustworthy_is. }
  destruct previous as [st|]; [|apply (Hmain true)]. destruct (0 <? generation st); [|apply (Hmain true)].
  apply wp_validate; [done|apply (Hmain false)|intros _; apply (Hmain true)].
Qed.

Lemma wp_reuse_fresh w0 w cx st p :
  keeps w0 w → ws_state w = ws_state w0 → ws_state w = StateHolds st → applied_ok p (ws_state w) (ws_tracking w) →
  success_is_fresh st (ws_clock w) (interval p) = true →
  wp effect (keeps w0) (reuse_fresh cx st p) w (settled (interval p) w0).
Proof.
  intros Hk Hs0 Hst Ha Hfresh. unfold reuse_fresh.
  destruct (is_some_and (applied_generation p) _) eqn:Eapp.
  { destruct (applied_generation p) as [g|] eqn:Eg; [|done]. cbn in Eapp. apply N.leb_le in Eapp.
    destruct (Ha g Eg) as (st' & Hst' & Hle & Hc). rewrite Hst in Hst'. injection Hst' as <-.
    split; [done|]. split; [done|]. intros _. right. exists st. split; [done|]. split; [done|]. apply Hc. lia. }
  assert (∀ w', ws_state w' = StateHolds st → ws_remote w' = ws_remote w → ws_clock w' = ws_clock w →
                ws_fetches w' = ws_fetches w → covers (ws_tracking w') (manifest st) →
                keeps w0 w' ∧ settled (interval p) w0 w' (set_applied (generation st) p, Ready)) as Hset.
  { intros w' Hs Hr Hclk Hfe Hc. assert (keeps w0 w') as Hk'.
    { eapply keeps_later; [done|]. apply later_same; congruence. }
    split; [done|]. split; [done|]. split.
    - intros g [= <-]. exists st. split; [done|]. by split.
    - intros _. right. exists st. by rewrite Hclk. }
  assert ((∀ gens, 0 < generation st → ws_repository w = Some gens → generation_refs gens (generation st) = manifest st) →
    wp effect (keeps w0)
      (if bool_decide (manifest st = ∅) then Ret (set_applied (generation st) p, Ready)
       else ask! imported := ImportGeneration (generation st) in
            if negb imported then refresh_as_leader cx (Some st) p true
            else run! _ := cleanup_inactive_generations (generation st) in Ret (set_applied (generation st) p, Ready))
      w (settled (interval p) w0)) as Himport.
  { intros Hrefs. case_bool_decide as He; [apply Hset; [done|done|done|done|]; rewrite He; apply covers_empty|].
    cbn [wp]. intros ok w' Hi. destruct ok; cbn in Hi; cbn [negb].
    - destruct Hi as (gens & Hg & Hrepo & ->). rewrite (Hrefs gens Hg Hrepo).
      pose proof (covers_union (manifest st) (ws_tracking w)) as Hc.
      split; [by apply Hset|]. apply wp_bind, wp_cleanup; [by apply Hset|by apply Hset|].
      intros gens' Hgens. by apply Hset.
    - subst w'. split; [done|]. by apply wp_refresh. }
  apply wp_bind. destruct (N.ltb_spec 0 (generation st)) as [Hpos|Hz].
  - apply wp_validate; [done|by apply wp_refresh|]. intros (gens & _ & Hrepo & Hrefs). apply Himport.
    intros gens' _ Hrepo'. congruence.
  - apply Himport. intros gens Hg. lia.
Qed.

(** What [decide_under_lock] does keeps the cache and the clone consistent. *)
Lemma wp_decide_under_lock w0 w cx p :
  keeps w0 w → ws_state w = ws_state w0 → applied_ok p (ws_state w) (ws_tracking w) →
  wp effect (keeps w0) (decide_under_lock cx p) w (settled (interval p) w0).
Proof.
  intros Hk Hs0 Ha. unfold decide_under_lock. cbn [wp].
  intros now w1 He. assert (keeps w0 w1) as Hk1 by by eapply (keeps_effect _ ReadClock). destruct He as [Hclock ->].
  split; [done|]. intros s w2 [-> Hs]. split; [done|].
  destruct s as [[st|]|]; [| |by apply wp_direct_fallback].
  - destruct (usable_state cx st); cbn [negb]; [|by apply wp_direct_fallback].
    destruct (failure_cooldown_active st now (cx_revision cx)).
    { split; [done|]. split; [by apply (applied_same p)|done]. }
    destruct (success_is_fresh st now (interval p)) eqn:Efresh; [by apply wp_reuse_fresh|by apply wp_refresh].
  - by apply wp_refresh.
Qed.

Lemma wp_fetch_for_pull w p :
  state_fetched w → applied_ok p (ws_state w) (ws_tracking w) →
  wp effect (keeps w) (fetch_for_pull p) w (settled (interval p) w).
Proof.
  intros Hf Ha. pose proof (keeps_refl w Hf) as Hk.
  assert (wp effect (keeps w) (direct_fallback p None) w (settled (interval p) w)) as Hfb by by apply wp_direct_fallback.
  unfold fetch_for_pull. destruct (disabled p); [done|]. cbn [wp]. intros cx w1 ->. split; [done|].
  destruct cx as [cx|]; [|done]. cbn [wp]. intros l w1 ->. split; [done|]. destruct l; [| |done].
  - by apply (wp_decide_under_lock w w cx (reset_contention_retries p)).
  - unfold contention_neutral_hint. destruct (_ <? _); (split; [done|]); (split; [by apply (applied_same p)|done]).
Qed.

(** ** All the daemons of a workspace

    A call holds the lock while it works on what is shared, and without it works on its own
    clone only, so calls follow one another.  A call ends, or its daemon dies in between
    and starts again; between calls the remote moves forward, a clone gets newer refs by
    other ways, time passes, and the cache repository is damaged or removed. *)

Record DaemonClone := MkDaemonClone { d_progress : SyncCacheProgress; d_shadow : Manifest; d_tracking : Manifest }.

Record Site := MkSite {
  s_state : StateFile;
  s_repository : option (gmap N Manifest);
  s_remote : Manifest;
  s_clock : N;
  s_fetches : list (N * option Manifest);
  s_daemons : gmap N DaemonClone;
}.

Definition site_start (remote : Manifest) (now : N) : Site := MkSite StateMissing None remote now [] ∅.

Definition view (s : Site) (d : DaemonClone) : Workspace :=
  MkWorkspace (s_state s) (s_repository s) (s_remote s) (s_clock s) (s_fetches s) (d_shadow d) (d_tracking d).

Definition put (i : N) (p : SyncCacheProgress) (w : Workspace) (s : Site) : Site :=
  MkSite (ws_state w) (ws_repository w) (ws_remote w) (ws_clock w) (ws_fetches w)
    (<[i := MkDaemonClone p (ws_shadow w) (ws_tracking w)]> (s_daemons s)).

Definition with_daemon (i : N) (d : DaemonClone) (s : Site) : Site :=
  MkSite (s_state s) (s_repository s) (s_remote s) (s_clock s) (s_fetches s) (<[i := d]> (s_daemons s)).

Inductive site_step (s : Site) : Site → Prop :=
  | step_call i d p r w : s_daemons s !! i = Some d →
      ends effect (fetch_for_pull (d_progress d)) (view s d) (Some (p, r)) w → site_step s (put i p w s)
  | step_die i d w ms : s_daemons s !! i = Some d →
      ends effect (fetch_for_pull (d_progress d)) (view s d) None w → site_step s (put i (new_progress ms) w s)
  | step_start i ms shadow tracking : site_step s (with_daemon i (MkDaemonClone (new_progress ms) shadow tracking) s)
  | step_clone i d t : s_daemons s !! i = Some d → covers t (d_tracking d) →
      site_step s (with_daemon i (MkDaemonClone (d_progress d) (d_shadow d) t) s)
  | step_remote m : covers m (s_remote s) →
      site_step s (MkSite (s_state s) (s_repository s) m (s_clock s) (s_fetches s) (s_daemons s))
  | step_clock now : s_clock s ≤ now →
      site_step s (MkSite (s_state s) (s_repository s) (s_remote s) now (s_fetches s) (s_daemons s))
  | step_damage r : site_step s (MkSite (s_state s) r (s_remote s) (s_clock s) (s_fetches s) (s_daemons s)).

Definition recorded (s : StateFile) (fetches : list (N * option Manifest)) : Prop :=
  ∀ st, s = StateHolds st → attempt st = ClassSuccess → ∃ t, (t, Some (manifest st)) ∈ fetches ∧ t ≤ completed_at_unix_ms st.

Definition site_ok (s : Site) : Prop :=
  (∀ st, s_state s = StateHolds st → covers (s_remote s) (manifest st)) ∧ recorded (s_state s) (s_fetches s)
  ∧ (∀ i d, s_daemons s !! i = Some d → applied_ok (d_progress d) (s_state s) (d_tracking d)).

Lemma applied_le p s s' t : applied_ok p s t → state_le s s' → applied_ok p s' t.
Proof.
  intros Ha Hle g Hg. destruct (Ha g Hg) as (st & -> & Hgen & Hc). destruct Hle as (st' & -> & Hle & Hm). exists st'.
  split; [done|]. split; [lia|]. intros Heq. rewrite (Hm ltac:(lia)). apply Hc. lia.
Qed.

Lemma keeps_recorded w0 w : keeps w0 w → recorded (ws_state w0) (ws_fetches w0) → recorded (ws_state w) (ws_fetches w).
Proof.
  intros (_ & _ & [Hs|Hs] & _ & _ & l & Hl) Hrec st Hst Ha.
  - destruct (Hrec st ltac:(congruence) Ha) as (t & Ht & Hle). exists t. split; [rewrite Hl; set_solver|done].
  - destruct (Hs st Hst Ha) as (t & Ht & _ & Hle & _). by exists t.
Qed.

(** A call from a consistent site, ended or not. *)
Lemma call_ends s i d out w :
  site_ok s → s_daemons s !! i = Some d → ends effect (fetch_for_pull (d_progress d)) (view s d) out w →
  keeps (view s d) w
  ∧ match out with
    | Some (p, r) => applied_ok p (ws_state w) (ws_tracking w) ∧ (r = Ready → up_to_date (interval (d_progress d)) w)
    | None => True
    end.
Proof.
  intros (Hf & Hrec & Ha) Hd Hends.
  destruct (wp_ends effect (keeps (view s d)) (fetch_for_pull (d_progress d)) (view s d) (settled (interval (d_progress d)) (view s d)) out w)
    as [[-> Hk]|([p r] & -> & Hk & Hp & Hr)]; [by apply keeps_refl|apply wp_fetch_for_pull; [done|by eapply Ha]|done|done|done].
Qed.

Lemma put_ok s i d p w :
  site_ok s → s_daemons s !! i = Some d → keeps (view s d) w → applied_ok p (ws_state w) (ws_tracking w) → site_ok (put i p w s).
Proof.
  intros (Hf & Hrec & Ha) Hd Hk Hp. split; [apply Hk|]. split; [by eapply keeps_recorded|].
  intros j e Hj. cbn in *. destruct (decide (i = j)) as [->|Hne].
  - rewrite lookup_insert_eq in Hj. by injection Hj as <-.
  - rewrite lookup_insert_ne in Hj by done. eapply applied_le; [by eapply Ha|]. apply Hk.
Qed.

Lemma with_daemon_ok s i d : site_ok s → applied_ok (d_progress d) (s_state s) (d_tracking d) → site_ok (with_daemon i d s).
Proof.
  intros (Hf & Hrec & Ha) Hd. split; [done|]. split; [done|]. intros j e Hj. cbn in *. destruct (decide (i = j)) as [->|Hne].
  - rewrite lookup_insert_eq in Hj. by injection Hj as <-.
  - rewrite lookup_insert_ne in Hj by done. by eapply Ha.
Qed.

Lemma site_step_ok s s' : site_ok s → site_step s s' → site_ok s'.
Proof.
  intros Hok Hstep. pose proof Hok as (Hf & Hrec & Ha).
  destruct Hstep as [i d p r w Hd He|i d w ms Hd He|i ms sh t|i d t Hd Ht|m Hm|now Hnow|r].
  - destruct (call_ends s i d (Some (p, r)) w Hok Hd He) as [Hk [Hp _]]. by eapply put_ok.
  - destruct (call_ends s i d None w Hok Hd He) as [Hk _]. by eapply put_ok.
  - by apply with_daemon_ok.
  - apply with_daemon_ok; [done|]. intros g Hg. destruct (Ha i d Hd g Hg) as (st & Hst & Hle & Hc). exists st. split; [done|].
    split; [done|]. intros Heq. etrans; [exact Ht|by apply Hc].
  - split; [|done]. intros st Hst. cbn. etrans; [exact Hm|by apply Hf].
  - done.
  - done.
Qed.

Lemma site_start_ok remote now : site_ok (site_start remote now).
Proof. split; [done|]. split; [done|]. intros i d H. cbn in H. by rewrite lookup_empty in H. Qed.

Lemma site_reach_ok remote now s : rtc site_step (site_start remote now) s → site_ok s.
Proof.
  intros H. assert (∀ a b, rtc site_step a b → site_ok a → site_ok b) as Hind.
  { induction 1 as [|a b c Hs _ IH]; [done|]. intros Ha. apply IH. by eapply site_step_ok. }
  eapply Hind; [done|apply site_start_ok].
Qed.

(** C23: In a workspace whose state file only the daemons write, whatever they did before,
    with daemons dying inside calls, commands failing and the cache repository damaged: a
    call of [fetch_for_pull] that answers [Ready] leaves its clone either with every branch
    of the remote, at the remote's commit or a later one, or with those a shared fetch
    found: the state file records that success, it ended less than this daemon's interval
    ago, and the remote answered exactly these refs before it ended.  And whether the call
    ends or its daemon dies inside it: where the call replaced the state file by a
    success, the remote answered the refs it records during this call. *)
Theorem ready_is_fresh remote start s i d out w :
  rtc site_step (site_start remote start) s → s_daemons s !! i = Some d →
  ends effect (fetch_for_pull (d_progress d)) (view s d) out w →
  (ws_state w = s_state s
   ∨ ∀ st, ws_state w = StateHolds st → attempt st = ClassSuccess →
       ∃ t, (t, Some (manifest st)) ∈ ws_fetches w ∧ s_clock s ≤ t ∧ t ≤ completed_at_unix_ms st ∧ completed_at_unix_ms st ≤ ws_clock w)
  ∧ (∀ p, out = Some (p, Ready) →
       covers (ws_tracking w) (ws_remote w)
       ∨ ∃ st t, ws_state w = StateHolds st ∧ success_is_fresh st (ws_clock w) (interval (d_progress d)) = true
           ∧ (t, Some (manifest st)) ∈ ws_fetches w ∧ t ≤ completed_at_unix_ms st ∧ covers (ws_tracking w) (manifest st)).
Proof.
  intros Hreach Hd He. pose proof (site_reach_ok _ _ _ Hreach) as Hok. destruct (call_ends s i d out w Hok Hd He) as [Hk Hout].
  split; [apply Hk|]. intros p ->. destruct Hout as [_ Hr]. destruct (Hr eq_refl) as [Hc|(st & Hst & Hfresh & Hc)]; [by left|right].
  assert (attempt st = ClassSuccess) as Ha.
  { unfold success_is_fresh in Hfresh. apply andb_prop in Hfresh as [Hfresh _]. apply andb_prop in Hfresh as [Hfresh _].
    by apply bool_decide_eq_true in Hfresh. }
  destruct (keeps_recorded _ _ Hk ltac:(apply Hok) st Hst Ha) as (t & Ht & Hle). by exists st, t.
Qed.

(** ** A healthy workspace

    The workspace is managed and its configuration fixed, what is on disk can be read and
    written, the remote has a branch, and the clock and the generation counter are not at
    their ends.  The remote may fail in any way, and the lock may be contended. *)

Section healthy.
Context (cx : CacheContext).

Definition healthy (X : Type) (op : CacheOp X) : Workspace → X → Prop :=
  match op in CacheOp X return Workspace → X → Prop with
  | Discover => λ _ x, x = Some cx
  | AcquireLock => λ _ x, x ≠ LockFailed
  | ReadClock => λ _ now, now + AUTH_FAILURE_COOLDOWN < 2 ^ 64
  | ReadState => λ w x, match x with
                        | None => False
                        | Some None => True
                        | Some (Some st) => generation st < 2 ^ 64 - 1
                        end
  | GenerationManifest g => λ w x, 0 < g → is_some (ws_repository w) = true → is_some x = true
  | TipsAreReadable _ => λ _ ok, ok = true
  | ImportGeneration g => λ w ok, 0 < g → is_some (ws_repository w) = true → ok = true
  | ShadowManifest => λ _ x, is_some_and x (λ m, negb (bool_decide (m = ∅)) && forallb valid_ref (map_to_list m)) = true
  | RebuildCache | EnsureCache => λ _ ok, ok = true
  | PublishGeneration g => λ w ok, 0 < g → is_some (ws_repository w) = true → ok = true
  | WriteState _ => λ _ ok, ok = true
  | _ => λ _ _, True
  end.

Definition healthy_effect (X : Type) (op : CacheOp X) (w : Workspace) (x : X) (w' : Workspace) : Prop :=
  effect X op w x w' ∧ healthy X op w x.

(** The cache has the generation of a state with its refs. *)
Definition has_generation (w : Workspace) (st : CacheState) : Prop :=
  0 < generation st → ∃ gens, ws_repository w = Some gens ∧ generation_refs gens (generation st) = manifest st.

Definition cache_intact (w : Workspace) : Prop := ∀ st, ws_state w = StateHolds st → usable_state cx st = true ∧ has_generation w st.

Lemma hwp_validate inv st w (Q : Workspace → bool → Prop) :
  0 < generation st → has_generation w st → inv w → Q w true → wp healthy_effect inv (validate_active_generation st) w Q.
Proof.
  intros Hg Hhas Hi HQ. destruct (Hhas Hg) as (gens & Hrepo & Hrefs). unfold validate_active_generation. cbn [wp].
  intros b w' [[-> ->] _]. split; [done|]. rewrite Hrepo. cbn [is_some negb wp]. intros x w' [[-> Hx] Hh]. split; [done|].
  cbn in Hh. rewrite Hrepo in Hh. specialize (Hh Hg eq_refl). destruct x as [m|]; [|done].
  destruct Hx as (_ & gens' & Hrepo' & ->). rewrite Hrepo in Hrepo'. injection Hrepo' as <-.
  rewrite bool_decide_true by done. cbn [negb wp]. by intros ok w' [-> ->].
Qed.

Lemma filter_refs gens g : generation_refs (filter (λ kv : N * Manifest, kv.1 = g) gens) g = generation_refs gens g.
Proof.
  unfold generation_refs. destruct (gens !! g) as [m|] eqn:E.
  - by rewrite (map_lookup_filter_Some_2 _ _ _ m).
  - rewrite map_lookup_filter_None_2; [done|]. by left.
Qed.

(** Cleaning up keeps the active generation. *)
Lemma hwp_cleanup st w (Q : Workspace → unit → Prop) :
  ws_state w = StateHolds st → cache_intact w →
  (∀ r, cache_intact (set_repository r w) → Q (set_repository r w) tt) →
  wp healthy_effect cache_intact (cleanup_inactive_generations (generation st)) w Q.
Proof.
  intros Hst Hi HQ. assert (Q w tt) as HQ' by (destruct w; apply (HQ _ Hi)).
  unfold cleanup_inactive_generations. cbn [wp]. intros b w' [[-> ->] _]. split; [done|].
  destruct (is_some _); cbn [negb wp]; [|done]. intros ok w' [He _]. destruct ok; cbn in He; [|by subst].
  destruct He as (gens & Hrepo & ->).
  assert (cache_intact (set_repository (Some (filter (λ kv : N * Manifest, kv.1 = generation st) gens)) w)) as Hi'.
  { intros st' Hst'. cbn in *. rewrite Hst in Hst'. injection Hst' as <-. destruct (Hi st Hst) as [Hu Hhas]. split; [done|].
    intros Hg. destruct (Hhas Hg) as (gens' & Hrepo' & Hrefs). rewrite Hrepo in Hrepo'. injection Hrepo' as <-. eexists. split; [done|]. by rewrite filter_refs. }
  split; [done|by apply HQ].
Qed.

(** The same but for the repository and the refs of the clone. *)
Definition alike (w w' : Workspace) : Prop :=
  ws_state w' = ws_state w ∧ ws_clock w' = ws_clock w ∧ ws_fetches w' = ws_fetches w ∧ ws_shadow w' = ws_shadow w.

(** Publishing adds a generation beside the active one. *)
Lemma hwp_publish g m w (Q : Workspace → bool → Prop) :
  cache_intact w → m ≠ ∅ → 0 < g → (∀ st, ws_state w = StateHolds st → generation st < g) →
  (∀ gens, cache_intact (set_repository (Some (<[g := ws_shadow w]> gens)) w) → Q (set_repository (Some (<[g := ws_shadow w]> gens)) w) true) →
  wp healthy_effect cache_intact (publish g m false) w Q.
Proof.
  intros Hi Hm Hg Hnew HQ. unfold publish. cbn [wp]. intros ok w' [He ->].
  assert (∃ gens, w' = set_repository (Some gens) w ∧ cache_intact w') as (gens & Hw' & Hi').
  { cbn in He. destruct (ws_repository w) as [gens|] eqn:Er.
    - destruct He as [_ ->]. exists gens. split; [|done]. destruct w; cbn in *; by subst.
    - subst w'. exists ∅. split; [done|]. intros st Hst. destruct (Hi st Hst) as [Hu Hhas]. split; [done|].
      intros Hgen. destruct (Hhas Hgen) as (? & ? & _). congruence. }
  split; [done|]. cbn [negb]. rewrite bool_decide_false by done. cbn [wp]. intros ok w'' [He' Hh].
  subst w'. rewrite (Hh Hg eq_refl) in He'. destruct He' as (gens' & _ & [= <-] & ->). cbn in *.
  assert (cache_intact (set_repository (Some (<[g:=ws_shadow w]> gens)) w)) as Hi''.
  { intros st Hst. destruct (Hi' st Hst) as [Hu Hhas]. split; [done|]. intros Hgen.
    destruct (Hhas Hgen) as (gens' & [= <-] & Hrefs). eexists. split; [done|].
    unfold generation_refs in *. rewrite lookup_insert_ne; [done|]. specialize (Hnew st Hst). lia. }
  rewrite (Hh Hg eq_refl). split; [exact Hi''|]. by apply HQ.
Qed.

Lemma hwp_apply_published p st w (Q : Workspace → Answer → Prop) :
  ws_state w = StateHolds st → cache_intact w → (generation st = 0 → manifest st = ∅) →
  (∀ w', alike w w' → cache_intact w' → Q w' (set_applied (generation st) p, Ready)) →
  wp healthy_effect cache_intact (apply_published p st) w Q.
Proof.
  intros Hst Hi Hz HQ. unfold apply_published.
  assert (∀ w', alike w w' → cache_intact w' →
    wp healthy_effect cache_intact (run! _ := (if 0 <? generation st then cleanup_inactive_generations (generation st) else Ret tt) in
                          Ret (set_applied (generation st) p, Ready)) w' Q) as Hfin.
  { intros w' Ha Hi'. apply wp_bind. destruct (0 <? generation st); [|by apply HQ].
    apply hwp_cleanup; [destruct Ha; congruence|done|]. intros r Hr. by apply HQ. }
  case_bool_decide as He; [by apply Hfin|]. case_bool_decide; [by apply Hfin|]. cbn [negb andb].
  assert (0 < generation st) as Hpos by (destruct (N.eq_0_gt_0_cases (generation st)) as [Hg|]; [by specialize (Hz Hg)|done]).
  apply wp_bind, hwp_validate; [done|by apply Hi|done|]. cbn [negb wp]. intros ok w' [He' Hh].
  destruct (proj2 (Hi st Hst) Hpos) as (gens & Hrepo & _). cbn in Hh. rewrite Hrepo in Hh. rewrite (Hh Hpos eq_refl) in He' |- *.
  destruct He' as (gens' & _ & _ & ->). cbn [negb]. split; [exact Hi|]. by apply Hfin.
Qed.

(** The state a refresh leaves in the file. *)
Definition good_state (st : CacheState) : Prop := usable_state cx st = true ∧ config_revision st = cx_revision cx.

Definition published (p : SyncCacheProgress) (w w' : Workspace) (st : CacheState) : Prop :=
  ws_state w' = StateHolds st ∧ good_state st ∧ ws_clock w ≤ completed_at_unix_ms st ∧ completed_at_unix_ms st ≤ ws_clock w'
  ∧ (attempt st = ClassSuccess
     ∨ ∃ r, retry_after_unix_ms st = Some r ∧ completed_at_unix_ms st + N.min (interval p) RATE_LIMIT_COOLDOWN ≤ r).

Definition same_settings (p q : SyncCacheProgress) : Prop := interval q = interval p ∧ disabled q = disabled p.

Lemma hwp_publish_refs w previous p m (Q : Workspace → Answer → Prop) :
  cache_intact w → previous_is previous (ws_state w) → m = ws_shadow w → m ≠ ∅ → forallb valid_ref (map_to_list m) = true →
  (∀ st, previous = Some st → generation st < 2 ^ 64 - 1 ∧ (generation st = 0 → manifest st = ∅)) →
  (∀ w' st q, cache_intact w' → published p w w' st → ws_fetches w' = ws_fetches w → same_settings p q → Q w' (q, Ready)) →
  wp healthy_effect cache_intact (publish_refs cx previous p false (generation <$> previous) m) w Q.
Proof.
  intros Hi Hp Hm Hne Hval Hgen HQ. unfold publish_refs. set (needs := negb _ || false).
  assert (∃ g, next_generation previous m needs = Some g ∧ 0 < g
    ∧ (needs = true → ∀ st, ws_state w = StateHolds st → generation st < g)
    ∧ (needs = false → ∃ st, ws_state w = StateHolds st ∧ generation st = g ∧ manifest st = m)) as (g & -> & Hg & Hnew & Hold).
  { unfold needs, next_generation. rewrite orb_false_r. destruct previous as [st|]; cbn in *.
    - destruct (Hgen st eq_refl) as [Hlt Hz]. case_bool_decide as Hmm; cbn.
      + exists (generation st). split; [done|]. split; [|split; [done|intros _; by exists st]].
        destruct (N.eq_0_gt_0_cases (generation st)) as [E|]; [|done]. specialize (Hz E). congruence.
      + rewrite (proj2 (N.ltb_lt _ _) Hlt). eexists. split; [done|]. split; [lia|]. split; [|done].
        intros _ st' Hst'. rewrite Hp in Hst'. injection Hst' as <-. lia.
    - rewrite bool_decide_false by done. exists 1. split; [done|]. split; [lia|]. split; [|done]. intros _ st Hst. congruence. }
  set (rest := λ published : bool, _).
  assert (∀ w', alike w w' → cache_intact w' → (∃ gens, ws_repository w' = Some gens ∧ generation_refs gens g = m) →
            wp healthy_effect cache_intact (rest true) w' Q) as Hrest.
  { intros w' (Hs & Hc & Hfe & _) Hi' (gens & Hrepo & Hrefs). unfold rest. cbn [negb wp].
    intros now w1 [[Hnow ->] _]. split; [exact Hi'|]. cbv zeta. set (st := MkCacheState _ _ _ _ _ _ _ _).
    assert (has_generation (set_clock now w') st) as Hhas by (intros _; by exists gens).
    assert (usable_state cx st = true) as Hust.
    { unfold usable_state, state_is_semantically_valid. cbn. rewrite bool_decide_true, Hval by done. destruct (N.eqb_spec g 0); [lia|done]. }
    assert (wp healthy_effect cache_intact
      (ask! written := WriteState st in
       if negb written then direct_fallback p (generation <$> previous) else apply_published p st) (set_clock now w') Q) as Hwrite.
    { cbn [wp]. intros ok w2 [-> ->]. cbn [negb].
      assert (cache_intact (set_state (StateHolds st) (set_clock now w'))) as Hi2 by (intros st' [= <-]; split; [exact Hust|exact Hhas]).
      split; [done|]. apply hwp_apply_published; [done|done|cbn; intros ->; lia|]. intros w3 (Hs3 & Hc3 & Hf3 & _) Hi3.
      apply (HQ w3 st); [done| |cbn in Hf3; congruence|done]. split; [done|]. split; [done|].
      cbn in Hc3 |- *. rewrite Hc3. split; [lia|]. split; [lia|by left]. }
    rewrite (proj2 (N.ltb_lt 0 g) Hg), andb_true_r. apply wp_bind.
    destruct needs; [|exact Hwrite]. apply hwp_validate; [done|done|exact Hi'|exact Hwrite]. }
  apply wp_bind. destruct needs.
  - apply hwp_publish; [done|done|done|by apply Hnew|]. intros gens Hi'. apply Hrest; [done|done|]. eexists. split; [done|].
    unfold generation_refs. by rewrite lookup_insert_eq.
  - destruct (Hold eq_refl) as (st & Hst & <- & Hmm). apply Hrest; [done|done|]. rewrite <-Hmm. by apply Hi.
Qed.

(** What a call does to the state and to the log of requests: nothing, or one request whose
    outcome the state records. *)
Definition one_request (p : SyncCacheProgress) (w w' : Workspace) : Prop :=
  (ws_state w' = ws_state w ∧ ws_fetches w' = ws_fetches w ∧ ws_clock w ≤ ws_clock w')
  ∨ ∃ st t answer, published p w w' st ∧ ws_fetches w' = (t, answer) :: ws_fetches w ∧ ws_clock w ≤ t ∧ t ≤ completed_at_unix_ms st.

Lemma failure_state_good previous error now_ms i :
  (∀ st, previous = Some st → usable_state cx st = true) →
  usable_state cx (MkCacheState CACHE_SCHEMA_VERSION (cx_identity cx) (cx_revision cx)
      (match previous with Some st => generation st | None => 0 end)
      (match previous with Some st => manifest st | None => ∅ end)
      now_ms (attempt_class error) (Some (retry_after error now_ms i))) = true.
Proof.
  intros Hu. unfold usable_state, state_is_semantically_valid. cbn. rewrite bool_decide_true by done.
  destruct previous as [st|]; [|by destruct error]. specialize (Hu st eq_refl). unfold usable_state, state_is_semantically_valid in Hu.
  apply andb_prop in Hu as [_ Hu]. apply andb_prop in Hu as [Hu Hv]. apply andb_prop in Hu as [_ Hz].
  rewrite Hz, Hv. by destruct error.
Qed.

Lemma retry_after_bound error now_ms i :
  now_ms + AUTH_FAILURE_COOLDOWN < 2 ^ 64 → now_ms + N.min i RATE_LIMIT_COOLDOWN ≤ retry_after error now_ms i.
Proof. unfold retry_after, AUTH_FAILURE_COOLDOWN, RATE_LIMIT_COOLDOWN, MIN_TRANSIENT_COOLDOWN. intros H. destruct error; lia. Qed.

Lemma usable_zero st : usable_state cx st = true → generation st = 0 → manifest st = ∅.
Proof.
  unfold usable_state, state_is_semantically_valid. intros Hu Hz. rewrite Hz in Hu.
  apply andb_prop in Hu as [_ Hu]. apply andb_prop in Hu as [Hu _]. apply andb_prop in Hu as [_ Hu].
  by apply bool_decide_eq_true in Hu.
Qed.

Lemma hwp_refresh w previous p (Q : Workspace → Answer → Prop) :
  cache_intact w → previous_is previous (ws_state w) →
  (∀ st, previous = Some st → generation st < 2 ^ 64 - 1) →
  (∀ w' a, cache_intact w' → one_request p w w' → same_settings p a.1 → Q w' a) →
  wp healthy_effect cache_intact (refresh_as_leader cx previous p false) w Q.
Proof.
  intros Hi Hp Hgood HQ. unfold refresh_as_leader. apply wp_bind.
  assert (∀ st, previous = Some st → usable_state cx st = true) as Hu by (intros st ->; by apply (Hi st)).
  enough (wp healthy_effect cache_intact
    (ask! fetched := FetchShadow in
     match fetched with
     | Some error =>
         if slot_error error then Ret (reset_contention_retries p, NeutralSkip PreserveSchedule)
         else
           ask! completed_at := ReadClock in
           run! _ := publish_failure cx previous error (interval p) completed_at in
           Ret (p, RemoteError error)
     | None =>
         ask! shadow := ShadowManifest in
         match shadow with
         | None => direct_fallback p (generation <$> previous)
         | Some m => publish_refs cx previous p false (generation <$> previous) m
         end
     end) w Q) as Hmain.
  { destruct previous as [st|]; [|exact Hmain]. destruct (N.ltb_spec 0 (generation st)); [|exact Hmain].
    apply hwp_validate; [done|by apply Hi|done|exact Hmain]. }
  cbn [wp]. intros r w1 [(now & m & Hnow & Hm & ->) _]. unfold asked. destruct r as [e|]; cbn [is_some is_some_and].
  - destruct (slot_error e); [split; [done|]; apply HQ; [done| |done]; by left|].
    split; [exact Hi|]. cbn [wp]. intros completed w2 [[Hc ->] Hh]. split; [exact Hi|]. apply wp_bind.
    unfold publish_failure. cbn [wp]. intros ok w3 [-> ->]. set (st := MkCacheState _ _ _ _ _ _ _ _).
    set (w' := set_state _ _).
    assert (cache_intact w') as Hi'.
    { intros st' [= <-]. split; [by apply failure_state_good|].
      destruct previous as [st0|]; [|intros Hz; cbn in Hz; lia]. intros Hg. apply (Hi st0); done. }
    split; [done|]. apply HQ; [done| |done]. right. exists st, now, None. cbn in Hh, Hc. split; [|cbn; repeat split; lia].
    split; [done|]. split; [split; [by apply failure_state_good|done]|]. cbn. split; [lia|]. split; [lia|]. right.
    eexists. split; [done|]. by apply retry_after_bound.
  - split; [exact Hi|]. cbn [wp]. intros x w2 [[-> Hx] Hh]. split; [exact Hi|]. destruct x as [m'|]; [|done]. subst m'.
    cbn in Hh. apply andb_prop in Hh as [Hne Hval]. apply negb_true_iff, bool_decide_eq_false in Hne.
    apply hwp_publish_refs; [exact Hi|done|done|done|done| |].
    + intros st Hst. split; [by apply Hgood|]. apply usable_zero. by apply Hu.
    + intros w' st q Hi' (Hs & Hg & Hc1 & Hc2 & Hr) Hfe Hq. apply HQ; [done| |done]. right. exists st, now, (Some m).
      cbn in *. split; [split; [done|split; [done|split; [lia|done]]]|]. rewrite Hfe. repeat split; lia.
Qed.

(** Where a state is still good for the daemon, it does not ask the remote. *)
Definition due (p : SyncCacheProgress) (w w' : Workspace) : Prop :=
  ws_fetches w' = ws_fetches w ∨
  ∀ st, ws_state w = StateHolds st →
    ∃ now, ws_clock w ≤ now ∧ success_is_fresh st now (interval p) = false
           ∧ failure_cooldown_active st now (cx_revision cx) = false
           ∧ ∀ t answer, ws_fetches w' = (t, answer) :: ws_fetches w → now ≤ t.

Lemma one_request_after now p w w' :
  ws_clock w ≤ now → one_request (reset_contention_retries p) (set_clock now w) w' →
  one_request p w w' ∧ (ws_fetches w' = ws_fetches w ∨ ∃ t answer, ws_fetches w' = (t, answer) :: ws_fetches w ∧ now ≤ t).
Proof.
  intros Hnow [(Hs & Hfe & Hc)|(st & t & an & (Hs & Hg & Hc1 & Hc2 & Hr) & Hfe & Ht1 & Ht2)]; cbn in *.
  - split; [left; repeat split; [done|done|lia]|by left].
  - split; [right; exists st, t, an; split; [split; [done|split; [done|split; [lia|done]]]|split; [done|split; [lia|done]]]|].
    right. by exists t, an.
Qed.

Lemma hwp_reuse_fresh w st p (Q : Workspace → Answer → Prop) :
  cache_intact w → ws_state w = StateHolds st →
  (∀ w' a, cache_intact w' → alike w w' → same_settings p a.1 → Q w' a) →
  wp healthy_effect cache_intact (reuse_fresh cx st p) w Q.
Proof.
  intros Hi Hst HQ. unfold reuse_fresh. destruct (is_some_and _ _); [by apply HQ|].
  apply wp_bind.
  enough (wp healthy_effect cache_intact
    (if bool_decide (manifest st = ∅) then Ret (set_applied (generation st) p, Ready)
     else ask! imported := ImportGeneration (generation st) in
          if negb imported then refresh_as_leader cx (Some st) p true
          else run! _ := cleanup_inactive_generations (generation st) in Ret (set_applied (generation st) p, Ready)) w Q) as Hmain.
  { destruct (N.ltb_spec 0 (generation st)); [|exact Hmain]. apply hwp_validate; [done|by apply Hi|done|exact Hmain]. }
  case_bool_decide as He; [by apply HQ|]. cbn [wp]. intros ok w' [Hok Hh].
  assert (0 < generation st) as Hpos.
  { destruct (N.eq_0_gt_0_cases (generation st)) as [Hg|]; [|done]. by pose proof (usable_zero st (proj1 (Hi st Hst)) Hg). }
  destruct (proj2 (Hi st Hst) Hpos) as (gens & Hrepo & _). cbn in Hh. rewrite Hrepo in Hh. rewrite (Hh Hpos eq_refl) in Hok |- *.
  destruct Hok as (gens' & _ & _ & ->). cbn [negb]. split; [exact Hi|]. apply wp_bind, hwp_cleanup; [done|exact Hi|].
  intros r Hr. by apply HQ.
Qed.

Lemma hwp_fetch_for_pull w p :
  cache_intact w → disabled p = false →
  wp healthy_effect cache_intact (fetch_for_pull p) w
     (λ w' a, cache_intact w' ∧ one_request p w w' ∧ due p w w' ∧ same_settings p a.1).
Proof.
  intros Hi Hd. unfold fetch_for_pull. rewrite Hd. cbn [wp]. intros c w1 [-> ->]. split; [done|]. cbn [wp].
  intros l w1 [-> Hl]. split; [done|]. destruct l; [| |done].
  2: { unfold contention_neutral_hint. assert (one_request p w w) as Ho by (left; repeat split; lia).
       destruct (_ <? _); (split; [done|]); (split; [done|]); (split; [by left|done]). }
  unfold decide_under_lock. cbn [wp]. intros now w1 [[Hnow ->] _]. split; [exact Hi|].
  intros x w2 [[-> Hx] Hh]. split; [exact Hi|]. cbn in Hx, Hh. destruct x as [[st|]|]; [| |done].
  - rewrite (proj1 (Hi st Hx)). cbn [negb].
    destruct (failure_cooldown_active st now (cx_revision cx)) eqn:Ecool.
    { split; [exact Hi|]. split; [by left|]. split; [by left|done]. }
    cbn [interval reset_contention_retries]. destruct (success_is_fresh st now (interval p)) eqn:Efresh.
    + apply hwp_reuse_fresh; [exact Hi|done|]. intros w' a Hi' (Hs & Hc & Hfe & _) Ha. cbn in *. split; [done|].
      split; [left; rewrite Hc; done|]. split; [by left|done].
    + apply hwp_refresh; [exact Hi|done|by intros st' [= <-]|].
      intros w' a Hi' Ho Ha. destruct (one_request_after now p w w' Hnow Ho) as [Ho' Hfe]. split; [done|]. split; [done|]. split; [|done].
      destruct Hfe as [Hfe|(t & an & Hfe & Hle)]; [by left|right]. intros st0 Hst0. rewrite Hx in Hst0. injection Hst0 as <-.
      exists now. split; [done|]. split; [done|]. split; [done|]. intros t' an' Hfe'. rewrite Hfe in Hfe'. by injection Hfe' as <- _.
  - apply hwp_refresh; [exact Hi|done|done|].
    intros w' a Hi' Ho Ha. destruct (one_request_after now p w w' Hnow Ho) as [Ho' Hfe]. split; [done|]. split; [done|]. split; [|done].
    right. intros st0 Hst0. congruence.
Qed.

(** *** All the daemons of a healthy workspace

    Every daemon has an interval of at least [I]; daemons die inside calls only where
    [deaths] says so. *)

Inductive healthy_step (I : N) (deaths : bool) (s : Site) : Site → Prop :=
  | healthy_call i d p r w : s_daemons s !! i = Some d →
      ends healthy_effect (fetch_for_pull (d_progress d)) (view s d) (Some (p, r)) w → healthy_step I deaths s (put i p w s)
  | healthy_die i d w ms : deaths = true → I ≤ ms → s_daemons s !! i = Some d →
      ends healthy_effect (fetch_for_pull (d_progress d)) (view s d) None w → healthy_step I deaths s (put i (new_progress ms) w s)
  | healthy_start i ms shadow tracking : I ≤ ms →
      healthy_step I deaths s (with_daemon i (MkDaemonClone (new_progress ms) shadow tracking) s)
  | healthy_clone i d t : s_daemons s !! i = Some d →
      healthy_step I deaths s (with_daemon i (MkDaemonClone (d_progress d) (d_shadow d) t) s)
  | healthy_remote m : healthy_step I deaths s (MkSite (s_state s) (s_repository s) m (s_clock s) (s_fetches s) (s_daemons s))
  | healthy_clock now : s_clock s ≤ now →
      healthy_step I deaths s (MkSite (s_state s) (s_repository s) (s_remote s) now (s_fetches s) (s_daemons s)).

(** The cache of the site is intact and every daemon uses it. *)
Definition site_intact (I : N) (s : Site) : Prop :=
  cache_intact (view s (MkDaemonClone (new_progress 0) ∅ ∅))
  ∧ ∀ i d, s_daemons s !! i = Some d → disabled (d_progress d) = false ∧ I ≤ interval (d_progress d).

Lemma healthy_call_ends I s i d out w :
  site_intact I s → s_daemons s !! i = Some d → ends healthy_effect (fetch_for_pull (d_progress d)) (view s d) out w →
  cache_intact w
  ∧ match out with
    | Some (p, _) => one_request (d_progress d) (view s d) w ∧ due (d_progress d) (view s d) w ∧ same_settings (d_progress d) p
    | None => True
    end.
Proof.
  intros [Hi Hds] Hd He. destruct (Hds i d Hd) as [Hdis _].
  destruct (wp_ends healthy_effect cache_intact (fetch_for_pull (d_progress d)) (view s d) _ out w Hi
              (hwp_fetch_for_pull (view s d) (d_progress d) Hi Hdis) He) as [[-> Hk]|([p r] & -> & Hk & Ho & Hdue & Hset)]; done.
Qed.

Lemma site_intact_put I s i p w :
  site_intact I s → cache_intact w → disabled p = false → I ≤ interval p → site_intact I (put i p w s).
Proof.
  intros [_ Hds] Hi Hdis Hint. split; [exact Hi|]. intros j e Hj. cbn in Hj. destruct (decide (i = j)) as [->|Hne].
  - rewrite lookup_insert_eq in Hj. by injection Hj as <-.
  - rewrite lookup_insert_ne in Hj by done. by eapply Hds.
Qed.

Lemma site_intact_daemon I s i d :
  site_intact I s → disabled (d_progress d) = false → I ≤ interval (d_progress d) → site_intact I (with_daemon i d s).
Proof.
  intros [Hi Hds] Hdis Hint. split; [exact Hi|]. intros j e Hj. cbn in Hj. destruct (decide (i = j)) as [->|Hne].
  - rewrite lookup_insert_eq in Hj. by injection Hj as <-.
  - rewrite lookup_insert_ne in Hj by done. by eapply Hds.
Qed.

Lemma site_intact_step I deaths s s' : site_intact I s → healthy_step I deaths s s' → site_intact I s'.
Proof.
  intros Hok Hstep. destruct Hstep as [i d p r w Hd He|i d w ms _ Hms Hd He|i ms sh t Hms|i d t Hd|m|now Hnow].
  - destruct (healthy_call_ends I s i d _ w Hok Hd He) as (Hk & _ & _ & Hint & Hdis). destruct (proj2 Hok i d Hd).
    apply site_intact_put; [done|done|congruence|by rewrite Hint].
  - destruct (healthy_call_ends I s i d _ w Hok Hd He) as [Hk _]. by apply site_intact_put.
  - by apply site_intact_daemon.
  - destruct (proj2 Hok i d Hd). by apply site_intact_daemon.
  - exact Hok.
  - exact Hok.
Qed.

Lemma site_intact_start I remote now : site_intact I (site_start remote now).
Proof. split; [done|]. intros i d H. cbn in H. by rewrite lookup_empty in H. Qed.

Lemma site_intact_reach I deaths remote now s : rtc (healthy_step I deaths) (site_start remote now) s → site_intact I s.
Proof.
  intros H. assert (∀ a b, rtc (healthy_step I deaths) a b → site_intact I a → site_intact I b) as Hind.
  { induction 1 as [|a b c Hs _ IH]; [done|]. intros Ha. apply IH. by eapply site_intact_step. }
  eapply Hind; [done|apply site_intact_start].
Qed.

(** No request comes sooner than [I] after the end of the last one. *)
Definition cooled (I start : N) (s : Site) : Prop :=
  start ≤ s_clock s ∧ Sorted (λ a b, b.1 + I ≤ a.1) (s_fetches s) ∧ Forall (λ a, start ≤ a.1 ∧ a.1 ≤ s_clock s) (s_fetches s)
  ∧ match s_state s with
    | StateHolds st =>
        config_revision st = cx_revision cx ∧ completed_at_unix_ms st ≤ s_clock s
        ∧ (∀ t a l, s_fetches s = (t, a) :: l → t ≤ completed_at_unix_ms st)
        ∧ (attempt st = ClassSuccess ∨ ∃ r, retry_after_unix_ms st = Some r ∧ completed_at_unix_ms st + I ≤ r)
    | _ => s_fetches s = []
    end.

(** A state that is no longer good was completed at least [I] ago. *)
Lemma not_due_before I p st now :
  I ≤ interval p → config_revision st = cx_revision cx → completed_at_unix_ms st ≤ now →
  (attempt st = ClassSuccess ∨ ∃ r, retry_after_unix_ms st = Some r ∧ completed_at_unix_ms st + I ≤ r) →
  success_is_fresh st now (interval p) = false → failure_cooldown_active st now (cx_revision cx) = false →
  completed_at_unix_ms st + I ≤ now.
Proof.
  intros Hint Hrev Hle Hcl Hfresh Hcool. unfold success_is_fresh, failure_cooldown_active in *.
  rewrite Hrev in Hcool. rewrite (bool_decide_true (cx_revision cx = _)) in Hcool by done.
  rewrite (proj2 (N.leb_le _ _) Hle) in Hfresh, Hcool.
  destruct (decide (attempt st = ClassSuccess)) as [Ha|Ha].
  - rewrite bool_decide_true in Hfresh by done. cbn in Hfresh. apply N.ltb_ge in Hfresh. lia.
  - destruct Hcl as [|(r & Hr & Hler)]; [done|]. rewrite bool_decide_true, Hr in Hcool by done. cbn in Hcool. apply N.ltb_ge in Hcool. lia.
Qed.

Lemma cooled_call (I start : N) s i d p w :
  I ≤ RATE_LIMIT_COOLDOWN → I ≤ interval (d_progress d) → cooled I start s →
  one_request (d_progress d) (view s d) w → due (d_progress d) (view s d) w → cooled I start (put i p w s).
Proof.
  intros HI Hint (Hst & Hsort & Hall & Hcl) Ho Hdue. destruct Ho as [(Hs & Hfe & Hc)|(st & t & an & (Hs & [_ Hrev] & Hc1 & Hc2 & Hr) & Hfe & Ht1 & Ht2)]; cbn in *.
  - unfold cooled. cbn. rewrite Hs, Hfe. split; [lia|]. split; [done|]. split; [eapply Forall_impl; [exact Hall|]; intros [? ?] [? ?]; cbn in *; lia|].
    destruct (s_state s) as [| |st]; [done|done|]. destruct Hcl as (? & ? & ? & ?). by repeat split; [|lia| |].
  - unfold cooled. cbn. rewrite Hs, Hfe. split; [lia|]. split; [|split; [|split; [done|split; [done|split]]]].
    + constructor; [done|]. destruct (s_fetches s) as [|[t' a'] l] eqn:Ef; [by constructor|]. constructor. cbn.
      destruct Hdue as [Hd|Hd]; [cbn in Hd; rewrite Hfe, Ef in Hd; apply (f_equal length) in Hd; cbn in Hd; lia|].
      destruct (s_state s) as [| |st0] eqn:Es; [done|done|]. destruct Hcl as (Hrev0 & Hcomp & Hhead & Hcl).
      cbn in Hd. rewrite Es in Hd. destruct (Hd st0 eq_refl) as (now & Hnow & Hfr & Hco & Hle).
      rewrite Ef in Hle. pose proof (Hle t an Hfe). pose proof (Hhead t' a' l eq_refl).
      pose proof (not_due_before I (d_progress d) st0 now Hint Hrev0 ltac:(lia) Hcl Hfr Hco). lia.
    + constructor; [cbn; lia|]. eapply Forall_impl; [exact Hall|]. intros [? ?] [? ?]. cbn in *. lia.
    + intros t' a' l [= <- _ _]. done.
    + destruct Hr as [|(r & Hr & Hler)]; [by left|right]. exists r. split; [done|]. lia.
Qed.

Lemma cooled_step (I start : N) s s' :
  I ≤ RATE_LIMIT_COOLDOWN → site_intact I s → cooled I start s → healthy_step I false s s' → cooled I start s'.
Proof.
  intros HI Hok Hcl Hstep. destruct Hstep as [i d p r w Hd He|i d w ms Hf Hms Hd He|i ms sh t Hms|i d t Hd|m|now Hnow]; try done.
  - destruct (healthy_call_ends I s i d _ w Hok Hd He) as (_ & Ho & Hdue & _). destruct (proj2 Hok i d Hd). by eapply cooled_call.
  - destruct Hcl as (Hst & Hsort & Hall & Hcl). unfold cooled. cbn. split; [lia|]. split; [done|].
    split; [eapply Forall_impl; [exact Hall|]; intros [? ?] [? ?]; cbn in *; lia|]. destruct (s_state s) as [| |st]; [done|done|].
    destruct Hcl as (? & ? & ? & ?). by repeat split; [|lia| |].
Qed.

Lemma cooled_reach (I : N) remote (start : N) s :
  I ≤ RATE_LIMIT_COOLDOWN → rtc (healthy_step I false) (site_start remote start) s → cooled I start s.
Proof.
  intros HI H. assert (∀ a b, rtc (healthy_step I false) a b → site_intact I a ∧ cooled I start a → cooled I start b) as Hind.
  { induction 1 as [|a b c Hs _ IH]; [by intros [_ ?]|]. intros [Ha Hc]. apply IH. split; [by eapply site_intact_step|by eapply cooled_step]. }
  eapply Hind; [done|]. split; [apply site_intact_start|]. split; [cbn; lia|]. split; [constructor|]. split; [constructor|done].
Qed.

Lemma spaced_count (I start : N) (l : list (N * option Manifest)) t a :
  Sorted (λ a b : N * option Manifest, b.1 + I ≤ a.1) ((t, a) :: l) → Forall (λ a : N * option Manifest, start ≤ a.1) ((t, a) :: l) → N.of_nat (length l) * I + start ≤ t.
Proof.
  revert t a. induction l as [|[t' a'] l IH]; intros t a Hs Hall; [inversion Hall; cbn in *; lia|].
  apply Sorted_inv in Hs as [Hs Hhd]. apply HdRel_inv in Hhd. cbn in Hhd. apply Forall_cons in Hall as [_ Hall].
  specialize (IH t' a' Hs Hall). cbn [length]. lia.
Qed.

(** C24: In a healthy workspace in which no daemon dies inside a call, whatever number of
    daemons poll and however often, with intervals of at least [I] (up to the two minutes of
    the rate limit cooldown): two requests to the remote are at least [I] apart, successful
    or not, so that there are at most one more than the [I] that passed. *)
Theorem requests_are_spaced I remote start s :
  I ≤ RATE_LIMIT_COOLDOWN → rtc (healthy_step I false) (site_start remote start) s →
  Sorted (λ a b, b.1 + I ≤ a.1) (s_fetches s) ∧ N.of_nat (length (s_fetches s)) * I ≤ (s_clock s - start) + I.
Proof.
  intros HI Hreach. destruct (cooled_reach I remote start s HI Hreach) as (Hst & Hsort & Hall & _). split; [done|].
  destruct (s_fetches s) as [|[t a] l]; [cbn; lia|].
  pose proof (spaced_count I start l t a Hsort ltac:(eapply Forall_impl; [exact Hall|]; intros [? ?] [? ?]; cbn in *; lia)) as Hc.
  apply Forall_cons in Hall as [Ht _]. cbn in *. lia.
Qed.

(** C25: In a healthy workspace, at every moment of every call, also after any number of
    daemons that died inside theirs: the state file is missing or names a state every daemon
    accepts, whose generation is in the cache repository with exactly the refs it records. *)
Theorem generation_survives I remote start s i d out w st :
  rtc (healthy_step I true) (site_start remote start) s → s_daemons s !! i = Some d →
  ends healthy_effect (fetch_for_pull (d_progress d)) (view s d) out w → ws_state w = StateHolds st →
  usable_state cx st = true
  ∧ (0 < generation st → ∃ gens, ws_repository w = Some gens ∧ generation_refs gens (generation st) = manifest st).
Proof.
  intros Hreach Hd He Hst. pose proof (site_intact_reach I true remote start s Hreach) as Hok.
  destruct (healthy_call_ends I s i d out w Hok Hd He) as [Hi _]. by apply Hi.
Qed.

End healthy.

End cache.

(** ** Runs *)

(** A world in which everything works, for runs that are evaluated. *)
Definition model_world (cx : CacheContext) : World CacheOp Workspace := λ X op,
  match op in CacheOp X return Workspace → Workspace * X with
  | Discover => λ w, (w, Some cx)
  | AcquireLock => λ w, (w, Acquired)
  | ReadClock => λ w, (w, ws_clock w)
  | ReadState => λ w, (w, match ws_state w with StateMissing => Some None | StateBroken => None | StateHolds st => Some (Some st) end)
  | RepositoryIsValid => λ w, (w, is_some (ws_repository w))
  | GenerationManifest g => λ w,
      (w, if 0 <? g then gens ← ws_repository w; Some (generation_refs gens g) else None)
  | TipsAreReadable _ => λ w, (w, true)
  | ImportGeneration g => λ w,
      match ws_repository w with
      | Some gens => if 0 <? g then (set_tracking (generation_refs gens g ∪ ws_tracking w) w, true) else (w, false)
      | None => (w, false)
      end
  | CleanupGenerations g => λ w,
      match ws_repository w with
      | Some gens => (set_repository (Some (filter (λ kv : N * Manifest, kv.1 = g) gens)) w, true)
      | None => (w, false)
      end
  | DirectFetch => λ w, (asked (ws_clock w) None (ws_remote w) (set_tracking (ws_remote w ∪ ws_tracking w) w), None)
  | FetchShadow => λ w, (asked (ws_clock w) None (ws_remote w) (set_shadow (ws_remote w) w), None)
  | ShadowManifest => λ w, (w, Some (ws_shadow w))
  | RebuildCache => λ w, (set_repository (Some ∅) w, true)
  | EnsureCache => λ w, (match ws_repository w with Some _ => w | None => set_repository (Some ∅) w end, true)
  | PublishGeneration g => λ w,
      match ws_repository w with
      | Some gens => if 0 <? g then (set_repository (Some (<[g := ws_shadow w]> gens)) w, true) else (w, false)
      | None => (w, false)
      end
  | WriteState st => λ w, (set_state (StateHolds st) w, true)
  end.

(** The conditions under which the answers of [model_world] are healthy. *)
Definition model_ok (X : Type) (op : CacheOp X) (w : Workspace) : bool :=
  match op with
  | ReadClock => ws_clock w + AUTH_FAILURE_COOLDOWN <? 2 ^ 64
  | ReadState => match ws_state w with
                 | StateMissing => true
                 | StateBroken => false
                 | StateHolds st => generation st <? 2 ^ 64 - 1
                 end
  | ShadowManifest => negb (bool_decide (ws_shadow w = ∅)) && forallb valid_ref (map_to_list (ws_shadow w))
  | _ => true
  end.

Lemma model_world_healthy cx X (op : CacheOp X) w :
  model_ok X op w = true → healthy_effect eq cx X op w (model_world cx X op w).2 (model_world cx X op w).1.
Proof.
  assert (covers eq (ws_remote w) (ws_remote w)) as Hc by (intros k v H; by exists v).
  intros Hok. split; destruct op; cbn in *; try done.
  - split; [lia|]. by destruct w.
  - by destruct (ws_state w).
  - split; [done|]. destruct (N.ltb_spec 0 g); [|done]. destruct (ws_repository w) as [gens|]; [|done]. cbn. split; [done|]. by exists gens.
  - destruct (ws_repository w) as [gens|]; [|done]. destruct (N.ltb_spec 0 g); [|done]. cbn. by exists gens.
  - destruct (ws_repository w) as [gens|]; [|done]. cbn. by exists gens.
  - exists (ws_clock w), (ws_remote w). split; [lia|]. split; [done|]. by destruct w.
  - exists (ws_clock w), (ws_remote w). split; [lia|]. split; [done|]. by destruct w.
  - by destruct (ws_repository w).
  - destruct (ws_repository w) as [gens|]; [|by left]. destruct (N.ltb_spec 0 g); [|by left]. cbn. by exists gens.
  - by apply N.ltb_lt in Hok.
  - destruct (ws_state w); [done|done|]. by apply N.ltb_lt in Hok.
  - intros Hg Hr. destruct (ws_repository w); [|done]. by rewrite (proj2 (N.ltb_lt 0 g) Hg).
  - intros Hg Hr. destruct (ws_repository w); [|done]. by rewrite (proj2 (N.ltb_lt 0 g) Hg).
  - intros Hg Hr. destruct (ws_repository w); [|done]. by rewrite (proj2 (N.ltb_lt 0 g) Hg).
Qed.

(** A call in this world, from a site. *)
Definition model_call (cx : CacheContext) (i : N) (s : Site) : Site * option PullFetchResult :=
  match s_daemons s !! i with
  | Some d => let '(w, _, (p, r)) := run (model_world cx) (fetch_for_pull (d_progress d)) (view s d) in (put i p w s, Some r)
  | None => (s, None)
  end.

Definition model_checks (cx : CacheContext) (i : N) (s : Site) : bool :=
  is_some_and (s_daemons s !! i) (λ d, checked (model_world cx) model_ok (fetch_for_pull (d_progress d)) (view s d)).

Lemma model_call_ends cx i s d :
  s_daemons s !! i = Some d → model_checks cx i s = true →
  ends (healthy_effect eq cx) (fetch_for_pull (d_progress d)) (view s d)
    (Some (run (model_world cx) (fetch_for_pull (d_progress d)) (view s d)).2)
    (run (model_world cx) (fetch_for_pull (d_progress d)) (view s d)).1.1.
Proof.
  intros Hd Hc. unfold model_checks in Hc. rewrite Hd in Hc. eapply run_ends; [|exact Hc]. intros X op w Hok. by apply model_world_healthy.
Qed.

Lemma model_call_healthy cx I deaths i s :
  model_checks cx i s = true → healthy_step eq cx I deaths s (model_call cx i s).1.
Proof.
  intros Hc. pose proof Hc as Hc'. unfold model_checks in Hc'. destruct (s_daemons s !! i) as [d|] eqn:Hd; [|done].
  pose proof (model_call_ends cx i s d Hd Hc) as He. unfold model_call. rewrite Hd.
  destruct (run (model_world cx) (fetch_for_pull (d_progress d)) (view s d)) as [[w tr] [p r]]. by eapply healthy_call.
Qed.

Lemma model_call_step cx i s : model_checks cx i s = true → site_step eq s (model_call cx i s).1.
Proof.
  intros Hc. pose proof Hc as Hc'. unfold model_checks in Hc'. destruct (s_daemons s !! i) as [d|] eqn:Hd; [|done].
  pose proof (model_call_ends cx i s d Hd Hc) as He. unfold model_call. rewrite Hd.
  destruct (run (model_world cx) (fetch_for_pull (d_progress d)) (view s d)) as [[w tr] [p r]].
  eapply step_call; [done|]. eapply ends_mono; [|exact He]. by intros X op w1 x w2 [? _].
Qed.

(** Two daemons that poll every thirty seconds: the first fetches and publishes, the second
    imports what the first fetched; later the second fetches. *)
Definition demo_context : CacheContext := MkCacheContext (lit "github.com/acme/chat") (MkConfigRevision 1 2).
Definition demo_remote : Manifest := {[shadow_prefix ++ lit "main" := replicate 40 (ch "a")]}.
Definition demo_daemon : DaemonClone := MkDaemonClone (new_progress 30000) ∅ ∅.
Definition demo_start : Site := with_daemon 2 demo_daemon (with_daemon 1 demo_daemon (site_start demo_remote 1000)).
Definition demo_led : Site := (model_call demo_context 1 demo_start).1.
Definition demo_followed : Site := (model_call demo_context 2 demo_led).1.
Definition demo_waited : Site :=
  MkSite (s_state demo_followed) (s_repository demo_followed) (s_remote demo_followed) 40000 (s_fetches demo_followed) (s_daemons demo_followed).
Definition demo_again : Site := (model_call demo_context 2 demo_waited).1.

Lemma demo_start_reached I deaths : I ≤ 30000 → rtc (healthy_step eq demo_context I deaths) (site_start demo_remote 1000) demo_start.
Proof. intros HI. eapply rtc_l; [by apply (healthy_start eq demo_context I deaths _ 1 30000 ∅ ∅)|]. by apply rtc_once, (healthy_start eq demo_context I deaths _ 2 30000 ∅ ∅). Qed.

Lemma demo_led_step I deaths : healthy_step eq demo_context I deaths demo_start demo_led.
Proof. unfold demo_led. apply model_call_healthy. by vm_compute. Qed.

Lemma demo_followed_step I deaths : healthy_step eq demo_context I deaths demo_led demo_followed.
Proof. unfold demo_followed. apply model_call_healthy. by vm_compute. Qed.

Lemma demo_waited_step I deaths : healthy_step eq demo_context I deaths demo_followed demo_waited.
Proof. unfold demo_waited. apply healthy_clock. by vm_compute. Qed.

Lemma demo_again_step I deaths : healthy_step eq demo_context I deaths demo_waited demo_again.
Proof. unfold demo_again. apply model_call_healthy. by vm_compute. Qed.

Lemma demo_again_reached : rtc (healthy_step eq demo_context 30000 false) (site_start demo_remote 1000) demo_again.
Proof.
  etrans; [by apply demo_start_reached|]. eapply rtc_l; [apply demo_led_step|]. eapply rtc_l; [apply demo_followed_step|].
  eapply rtc_l; [apply demo_waited_step|]. apply rtc_once, demo_again_step.
Qed.

Lemma requests_are_spaced_witness :
  length (s_fetches demo_again) = 2%nat ∧ (model_call demo_context 2 demo_led).2 = Some Ready
  ∧ Sorted (λ a b : N * option Manifest, b.1 + 30000 ≤ a.1) (s_fetches demo_again).
Proof.
  split; [by vm_compute|]. split; [by vm_compute|].
  by apply (requests_are_spaced eq demo_context 30000 demo_remote 1000 demo_again ltac:(done) demo_again_reached).
Defined.

Lemma demo_led_healthy : rtc (healthy_step eq demo_context 30000 true) (site_start demo_remote 1000) demo_led.
Proof. etrans; [by apply demo_start_reached|]. apply rtc_once, demo_led_step. Qed.

Lemma demo_led_reached : rtc (site_step eq) (site_start demo_remote 1000) demo_led.
Proof.
  eapply rtc_l; [apply (step_start eq _ 1 30000 ∅ ∅)|]. eapply rtc_l; [apply (step_start eq _ 2 30000 ∅ ∅)|].
  apply rtc_once. unfold demo_led. apply model_call_step. by vm_compute.
Qed.

Definition demo_call : Workspace * list (Event CacheOp) * Answer := run (model_world demo_context) (fetch_for_pull (new_progress 30000)) (view demo_led demo_daemon).

Lemma demo_call_ends : ends (healthy_effect eq demo_context) (fetch_for_pull (d_progress demo_daemon)) (view demo_led demo_daemon) (Some demo_call.2) demo_call.1.1.
Proof. unfold demo_call. apply (model_call_ends demo_context 2 demo_led demo_daemon); by vm_compute. Qed.

Lemma demo_call_effect : ends (effect eq) (fetch_for_pull (d_progress demo_daemon)) (view demo_led demo_daemon) (Some demo_call.2) demo_call.1.1.
Proof. eapply ends_mono; [|exact demo_call_ends]. by intros X op w1 x w2 [? _]. Qed.

Definition demo_state : CacheState :=
  MkCacheState CACHE_SCHEMA_VERSION (cx_identity demo_context) (cx_revision demo_context) 1 demo_remote 1000 ClassSuccess None.

Lemma demo_call_state : ws_state demo_call.1.1 = StateHolds demo_state.
Proof. by vm_compute. Qed.

Lemma demo_led_daemon : s_daemons demo_led !! 2 = Some demo_daemon.
Proof. by vm_compute. Qed.

Lemma demo_call_ready : Some demo_call.2 = Some (demo_call.2.1, Ready).
Proof. by vm_compute. Qed.

Lemma generation_survives_witness :
  ∃ st, ws_state demo_call.1.1 = StateHolds st ∧ generation st = 1
        ∧ ∃ gens, ws_repository demo_call.1.1 = Some gens ∧ generation_refs gens (generation st) = manifest st.
Proof.
  exists demo_state. split; [exact demo_call_state|]. split; [done|].
  exact (proj2 (generation_survives eq demo_context 30000 demo_remote 1000 demo_led 2 demo_daemon (Some demo_call.2) demo_call.1.1 demo_state
                   demo_led_healthy demo_led_daemon demo_call_ends demo_call_state) eq_refl).
Defined.

Lemma ready_is_fresh_witness :
  demo_call.2.2 = Ready
  ∧ (covers eq (ws_tracking demo_call.1.1) (ws_remote demo_call.1.1)
     ∨ ∃ st t, ws_state demo_call.1.1 = StateHolds st ∧ success_is_fresh st (ws_clock demo_call.1.1) (interval (d_progress demo_daemon)) = true
         ∧ (t, Some (manifest st)) ∈ ws_fetches demo_call.1.1 ∧ t ≤ completed_at_unix_ms st ∧ covers eq (ws_tracking demo_call.1.1) (manifest st)).
Proof.
  split; [by vm_compute|].
  exact (proj2 (ready_is_fresh eq demo_remote 1000 demo_led 2 demo_daemon (Some demo_call.2) demo_call.1.1
                  demo_led_reached demo_led_daemon demo_call_effect) demo_call.2.1 demo_call_ready).
Defined.

(** Where the cache is deleted under a running daemon, the generations start again: the
    first daemon has applied generation 3, the second publishes generation 1 of the new
    cache with what the remote has by then, and the first answers [Ready] without it. *)
Definition ahead : DaemonClone := MkDaemonClone (set_applied 3 (new_progress 30000)) ∅ ∅.

Example restarted_generations_ignored :
  let s := with_daemon 1 ahead demo_start in
  let s := (model_call demo_context 2 s).1 in
  (model_call demo_context 1 s).2 = Some Ready
  ∧ d_tracking <$> s_daemons (model_call demo_context 1 s).1 !! 1 = Some ∅
  ∧ s_remote s ≠ ∅.
Proof. split; [by vm_compute|]. split; [by vm_compute|done]. Qed.
