(* ===== verification/SyncReplay.v ===== *)
(** * Replaying local work after a conflicting rebase

    What [sync_with_push] ([gitim-sync/src/sync_loop.rs]) does when the rebase of the
    local commits onto the fetched branch stops at a conflict and has been aborted: the
    local changes are captured, the clone is reset to the remote side, and the changes
    are written again through the resolvers for threads, metadata, boards and quick
    sessions, in one commit.  Whatever fails on the way, the clone is reset to the
    commit it had.

    The local branch, the remote branch and their merge base are trees; what differs
    between two of them is what [git diff --name-only --no-renames] lists. *)

From S2P Require Import Prelude RustStr StrFacts Names QuickSession Asset Links Thread Compliance Meta Git Daemon Cards.
From S2P Require Import Conflict GitText Additions SessionHandlers SessionStore.
From stdpp Require Import options.
Open Scope N_scope.
Open Scope list_scope.

(** ** Kinds of paths *)

Definition is_quick_session_path (path : str) : bool :=
  starts_with path (lit "quick-sessions/") || starts_with path (lit "archive/quick-sessions/").

Definition is_channel_meta_path (rel_path : str) : bool :=
  match strip_prefix (lit "channels/") rel_path with
  | None => false
  | Some name =>
      negb (contains name (lit "/")) && ends_with name (lit ".meta.yaml") && (len (lit ".meta.yaml") <? len name)
  end.

(** The path is one that the resolvers below can replay. *)
Definition is_resolvable (path : str) : bool :=
  let is_board := starts_with path (lit "showboards/") && ends_with path (lit "/board.md") in
  ends_with path (lit ".thread") || ends_with path (lit ".meta.yaml") || is_board.

(** The pathspecs [*.meta.yaml] and [showboards/*/board.md]; a star matches slashes too. *)
Definition matches_meta (path : str) : bool := ends_with path (lit ".meta.yaml").
Definition matches_board (path : str) : bool :=
  match strip_prefix (lit "showboards/") path with
  | Some rest => ends_with rest (lit "/board.md")
  | None => false
  end.

(** [git diff --name-only --no-renames from..to]. *)
Definition changed_files (from to : tree) : list str :=
  filter (λ k, from !! k ≠ to !! k) (elements (dom from ∪ dom to)).

(** Files of the work tree that git does not know. *)
Definition untracked (r : Repo) : tree := filter (λ kv : str * str, r_index r !! kv.1 = None) (r_work r).

(** [git reset --hard]. *)
Definition reset_hard (target : tree) (r : Repo) : Repo := MkRepo (target ∪ untracked r) target target.

(** ** Quick sessions *)

Record QuickSessionResolutions := MkResolutions {
  qr_writes : gmap str str;
  qr_removals : list str;
  qr_mappings : list RenumberMapping;
}.

Inductive Side := LocalSide | RemoteSide | BaseSide.

Section replay.
Context `{UC : !Unicode} `{PE : !PercentEncoding} `{SJ : !SerdeJson}
        `{YC : !Yaml ChannelMeta} `{YQ : !Yaml QuickSessionMeta} `{GI : !Git}.

Inductive ReplayError :=
  | QuickPathInvalid
  | QuickFileUnknown
  | QuickRead (path : str)
  | QuickShow
  | QuickIncomplete (id : str) (side : Side) (archived : bool)
  | QuickAmbiguous (id : str) (side : Side)
  | QuickCreateConflict (id : str)
  | QuickNotAppendOnly (id : str) (side : Side)
  | QuickConflict (e : ConflictError)
  | QuickNotResolved (id : str)
  | QuickMetaParse (id : str) (side : Side)
  | QuickSerialize.

(** What the environment answers: reads of the work tree, [git show] at the remote side
    and at the merge base, the two resets, directories, writes, removals, the commit. *)
Record ReplayEnv := MkReplayEnv {
  rp_diff : option str;
  rp_list_metas_ok : bool;
  rp_list_all_ok : bool;
  rp_list_boards_ok : bool;
  rp_read_ok : str → bool;
  rp_show_ok : str → bool;
  rp_show_base_ok : str → bool;
  rp_discard_ok : bool;
  rp_restore_ok : bool;
  rp_mkdir_ok : str → bool;
  rp_write_ok : str → bool;
  rp_remove_ok : str → bool;
  rp_commit : CommitEnv;
}.

Definition complete_quick_session_pair (meta thread : option str) (incomplete : ReplayError)
  : res (option (str * str)) ReplayError :=
  match meta, thread with
  | Some meta, Some thread => Ok (Some (meta, thread))
  | None, None => Ok None
  | _, _ => Err incomplete
  end.

(** The session a changed path belongs to. *)
Definition quick_session_of (path : str) : res str ReplayError :=
  let? rest := ok_or (match strip_prefix (lit "quick-sessions/") path with
                      | Some rest => Some rest
                      | None => strip_prefix (lit "archive/quick-sessions/") path
                      end) QuickPathInvalid in
  let? parts := ok_or (split_once (lit "/") rest) QuickPathInvalid in
  let '(session_id, file) := parts in
  try? guard_err (contains file (lit "/")) QuickPathInvalid then
  try? guard_err (negb ((file =?? lit "session.meta.yaml") || (file =?? lit "discussion.thread"))) QuickFileUnknown then
  Ok session_id.

Definition read_working (env : ReplayEnv) (t : tree) (path : str) : res (option str) ReplayError :=
  if negb (path_exists t path) then Ok None
  else match (if rp_read_ok env path then t !! path else None) with
       | Some text => Ok (Some text)
       | None => Err (QuickRead path)
       end.

Definition read_shown (ok : str → bool) (t : tree) (path : str) : res (option str) ReplayError :=
  if ok path then Ok (t !! path) else Err QuickShow.

(** The metadata and the thread of one side of a session, and whether they are archived. *)
Definition read_side (read : str → res (option str) ReplayError) (id : str) (side : Side) (archived : bool)
  : res (option (str * str)) ReplayError :=
  let dir := session_dir archived id in
  let? meta := read (session_meta_of dir) in
  let? thread := read (session_thread_of dir) in
  complete_quick_session_pair meta thread (QuickIncomplete id side archived).

Definition one_place (active archived : option (str * str)) (e : ReplayError) : res (str * str * bool) ReplayError :=
  match active, archived with
  | Some p, None => Ok (p, false)
  | None, Some p => Ok (p, true)
  | _, _ => Err e
  end.

(** The files written for a session whose place is [archived], and those removed. *)
Definition placed (id : str) (archived : bool) (meta thread : str) (mappings : list RenumberMapping) (r : QuickSessionResolutions)
  : QuickSessionResolutions :=
  let target := session_dir archived id in
  let other := session_dir (negb archived) id in
  MkResolutions (<[session_thread_of target := thread]> (<[session_meta_of target := meta]> (qr_writes r)))
    (qr_removals r ++ [session_meta_of other; session_thread_of other]) (qr_mappings r ++ mappings).

(** The thread of both sides: the remote one, followed by what was added locally. *)
Definition merge_session_thread (id target_thread local_addition remote_thread : str)
  : res (str * list RenumberMapping) ReplayError :=
  if is_empty local_addition then Ok (remote_thread, [])
  else
    let? resolved := map_err QuickConflict
      (resolve_content_pure {[target_thread := local_addition]} {[target_thread := remote_thread]}) in
    let '(resolved_files, mappings) := resolved in
    let? merged_file := ok_or (head resolved_files) (QuickNotResolved id) in
    Ok (rf_content merged_file, mappings).

Definition resolve_session (env : ReplayEnv) (work upstream base : tree) (id : str) (acc : QuickSessionResolutions)
  : res QuickSessionResolutions ReplayError :=
  let local := read_side (read_working env work) id LocalSide in
  let remote := read_side (read_shown (rp_show_ok env) upstream) id RemoteSide in
  let merge_base := read_side (read_shown (rp_show_base_ok env) base) id BaseSide in
  let? local_active := local false in
  let? local_archived := local true in
  let? remote_active := remote false in
  let? remote_archived := remote true in
  let? base_active := merge_base false in
  let? base_archived := merge_base true in
  let? l := one_place local_active local_archived (QuickAmbiguous id LocalSide) in
  let? r := one_place remote_active remote_archived (QuickAmbiguous id RemoteSide) in
  let? b := one_place base_active base_archived (QuickCreateConflict id) in
  let '(local_meta_yaml, local_thread_content, local_is_archived) := l in
  let '(remote_meta_yaml, remote_thread_content, remote_is_archived) := r in
  let '(base_meta_yaml, base_thread_content, base_is_archived) := b in
  if negb (eqb local_is_archived base_is_archived) && eqb remote_is_archived base_is_archived
     && (remote_meta_yaml =?? base_meta_yaml) && (remote_thread_content =?? base_thread_content)
  then Ok (placed id local_is_archived local_meta_yaml local_thread_content [] acc)
  else
    let? local_addition := ok_or (strip_prefix base_thread_content local_thread_content) (QuickNotAppendOnly id LocalSide) in
    try? guard_err (negb (starts_with remote_thread_content base_thread_content)) (QuickNotAppendOnly id RemoteSide) then
    let archive_wins := local_is_archived || remote_is_archived in
    let target_thread := session_thread_of (session_dir archive_wins id) in
    let? merged := merge_session_thread id target_thread local_addition remote_thread_content in
    let '(merged_thread, mappings) := merged in
    let? local_meta := ok_or (yaml_from_str local_meta_yaml) (QuickMetaParse id LocalSide) in
    let? remote_meta := ok_or (yaml_from_str remote_meta_yaml) (QuickMetaParse id RemoteSide) in
    let? merged_meta := map_err QuickConflict
      (merge_quick_session_meta local_meta remote_meta merged_thread mappings target_thread) in
    let? yaml := ok_or (yaml_to_string merged_meta) QuickSerialize in
    Ok (placed id archive_wins yaml merged_thread mappings acc).

(** The sessions are visited in some order. *)
Definition prepare_quick_session_resolutions (env : ReplayEnv) (work upstream base : tree) (all_unpushed : list str)
  : res QuickSessionResolutions ReplayError :=
  let quick_paths := List.filter is_quick_session_path all_unpushed in
  let? sessions := for_fold quick_paths [] (λ acc path, let? id := quick_session_of path in Ok (acc ++ [id])) in
  for_fold (remove_dups sessions) (MkResolutions ∅ [] []) (λ acc id, resolve_session env work upstream base id acc).

(** ** Writing the changes again

    A step works on the clone and either gives a value or makes [sync_with_push] return. *)

Definition Step (A : Type) : Type := Repo → Repo * option A.

Definition step_ret {A} (a : A) : Step A := λ r, (r, Some a).
Definition step_bind {A B} (m : Step A) (k : A → Step B) : Step B :=
  λ r, let '(r', a) := m r in match a with Some a => k a r' | None => (r', None) end.

(** [for x in l { .. }] with the list of modified paths. *)
Fixpoint step_each {A B} (l : list A) (body : A → Step B) : Step (list B) :=
  match l with
  | [] => step_ret []
  | x :: l' => step_bind (body x) (λ b, step_bind (step_each l' body) (λ bs, step_ret (b :: bs)))
  end.

(** [std::fs::write], after [create_dir_all] on the parent where the code calls it. *)
Definition write_step (env : ReplayEnv) (mkdir : bool) (path content : str) : Step str :=
  λ r, if (mkdir && negb (rp_mkdir_ok env path)) || negb (rp_write_ok env path) then (r, None)
       else (write_work path content r, Some path).

(** [conflict::resolve_content]: the remote text of every file with additions. *)
Definition resolve_content (env : ReplayEnv) (t : tree) (local_additions : gmap str str)
  : res (list ResolvedFile * list RenumberMapping) (option ConflictError) :=
  let? remote_contents := for_fold (map_to_list local_additions) ∅ (λ acc '(rel_path, _),
    if path_exists t rel_path then
      let? text := ok_or (if rp_read_ok env rel_path then t !! rel_path else None) None in
      Ok (<[rel_path := text]> acc)
    else if rp_mkdir_ok env rel_path then Ok acc else Err None) in
  map_err Some (resolve_content_pure local_additions remote_contents).

Definition replay_threads (env : ReplayEnv) (local_additions : gmap str str) : Step (list str * list RenumberMapping) :=
  λ r, if bool_decide (local_additions = ∅) then (r, Some ([], []))
       else match resolve_content env (r_work r) local_additions with
            | Ok (resolved_files, mappings) =>
                step_bind (step_each resolved_files (λ f, write_step env false (rf_path f) (rf_content f)))
                  (λ paths, step_ret (paths, mappings)) r
            | _ => (r, None)
            end.

(** Channel metadata is merged with the remote text, other metadata is written back. *)
Definition replay_meta (env : ReplayEnv) (entry : str * str) : Step str :=
  let '(rel_path, local_content) := entry in
  if is_channel_meta_path rel_path then
    λ r, match (if rp_read_ok env rel_path then r_work r !! rel_path else None) with
         | None => (r, None)
         | Some remote_content =>
             match yaml_from_str local_content, yaml_from_str remote_content with
             | Some local_meta, Some remote_meta =>
                 match yaml_to_string (merge_channel_meta local_meta remote_meta) with
                 | Some yaml => write_step env false rel_path yaml r
                 | None => (r, None)
                 end
             | _, _ => (r, None)
             end
         end
  else write_step env true rel_path local_content.

Definition remove_step (env : ReplayEnv) (path : str) : Step (list str) :=
  λ r, if negb (path_exists (r_work r) path) then (r, Some [])
       else if negb (rp_remove_ok env path) || bool_decide (r_work r !! path = None) then (r, None)
       else (MkRepo (delete path (r_work r)) (r_index r) (r_head r), Some [path]).

Definition commit_step (env : ReplayEnv) (paths : list str) : Step unit :=
  λ r, if is_empty paths then (r, None)
       else let '(r', ok) := add_and_commit_as (rp_commit env) paths r in
            (r', if ok : bool then Some tt else None).

(** What is captured of the local side before the rebase. *)
Record Captured := MkCaptured {
  cp_additions : gmap str str;
  cp_metas : gmap str str;
  cp_boards : gmap str str;
  cp_unpushed : list str;
}.

(** The changed files that match, with their text where it can be read. *)
Definition read_changed (env : ReplayEnv) (t : tree) (paths : list str) : gmap str str :=
  list_to_map (omap (λ p, text ← (if rp_read_ok env p then t !! p else None); Some (p, text)) paths).

Definition capture (env : ReplayEnv) (r : Repo) (base : tree) : option Captured :=
  stdout ← rp_diff env;
  let changed := changed_files base (r_head r) in
  let metas := if rp_list_metas_ok env then List.filter matches_meta changed else [] in
  let boards := if rp_list_boards_ok env then List.filter matches_board changed else [] in
  if negb (rp_list_all_ok env) then None
  else Some (MkCaptured (parse_diff_output stdout) (read_changed env (r_work r) metas)
               (read_changed env (r_work r) boards) changed).

(** The writing between the reset to the remote side and the commit: the modified paths
    and the renumbered lines. *)
Definition replay_files (env : ReplayEnv) (cap : Captured) (quick : QuickSessionResolutions)
  : Step (list str * list RenumberMapping) :=
  step_bind (replay_threads env (cp_additions cap)) (λ '(thread_paths, thread_mappings),
  step_bind (step_each (map_to_list (cp_boards cap)) (λ '(p, text), write_step env true p text)) (λ board_paths,
  step_bind (step_each (map_to_list (cp_metas cap)) (replay_meta env)) (λ meta_paths,
  step_bind (step_each (qr_removals quick) (remove_step env)) (λ removed,
  step_bind (step_each (map_to_list (qr_writes quick)) (λ '(p, text), write_step env true p text)) (λ written,
  step_ret (thread_paths ++ board_paths ++ meta_paths ++ concat removed ++ written,
            thread_mappings ++ qr_mappings quick)))))).

Definition replay_changes (env : ReplayEnv) (cap : Captured) (quick : QuickSessionResolutions) : Step (list RenumberMapping) :=
  step_bind (replay_files env cap quick) (λ '(paths, mappings),
  step_bind (commit_step env paths) (λ _, step_ret mappings)).

(** [ConflictReplayRollback]: armed once the local commits are discarded, it resets the
    clone to them on every way out but the successful one. *)
Definition replay (env : ReplayEnv) (upstream local_head : tree) (cap : Captured) (quick : QuickSessionResolutions)
  : Step (list RenumberMapping) :=
  λ r, if negb (rp_discard_ok env) then (r, None)
       else match replay_changes env cap quick (reset_hard upstream r) with
            | (r', Some mappings) => (r', Some mappings)
            | (r', None) => (if rp_restore_ok env then reset_hard local_head r' else r', None)
            end.

(** Quick sessions are replayed apart from the other threads and metadata. *)
Definition outside_sessions (cap : Captured) : Captured :=
  MkCaptured (filter (λ kv : str * str, is_quick_session_path kv.1 = false) (cp_additions cap))
    (filter (λ kv : str * str, is_quick_session_path kv.1 = false) (cp_metas cap)) (cp_boards cap) (cp_unpushed cap).

(** The way through the branch of [sync_with_push] for a conflicting rebase; [None] is a
    return that leaves the conflict for the next cycle. *)
Definition resolve_conflict (env : ReplayEnv) (upstream base : tree) : Step (list RenumberMapping) :=
  λ r, match capture env r base with
       | None => (r, None)
       | Some cap =>
           match prepare_quick_session_resolutions env (r_work r) upstream base (cp_unpushed cap) with
           | Ok quick =>
               let cap := outside_sessions cap in
               if existsb (λ p, negb (is_resolvable p)) (cp_unpushed cap) then (r, None)
               else if bool_decide (cp_additions cap = ∅) && bool_decide (cp_metas cap = ∅)
                       && bool_decide (cp_boards cap = ∅) && bool_decide (qr_writes quick = ∅) then (r, None)
               else replay env upstream (r_head r) cap quick r
           | _ => (r, None)
           end
       end.

(** ** What steps do to a clone *)

(** From [r] to [r'] only work tree files at [ps] changed, and new ones only where [K] allows. *)
Record wrote (K : str → Prop) (r r' : Repo) (ps : list str) : Prop := {
  wr_index : r_index r' = r_index r;
  wr_head : r_head r' = r_head r;
  wr_other : ∀ k, k ∉ ps → r_work r' !! k = r_work r !! k;
  wr_keys : ∀ k, is_Some (r_work r' !! k) → is_Some (r_work r !! k) ∨ K k;
}.

Lemma wrote_refl K r : wrote K r r [].
Proof. split; auto. Qed.

Lemma wrote_trans K r1 r2 r3 ps qs : wrote K r1 r2 ps → wrote K r2 r3 qs → wrote K r1 r3 (ps ++ qs).
Proof.
  intros [A1 A2 A3 A4] [B1 B2 B3 B4]. split; [congruence|congruence| |].
  - intros k [Hp Hq]%not_elem_of_app. by rewrite B3, A3.
  - intros k [H|H]%B4; [by apply A4|by right].
Qed.

Lemma wrote_write (K : str → Prop) r p text : K p → wrote K r (write_work p text r) [p].
Proof.
  intros Hp. split; try done; cbn [write_work r_work].
  - intros k Hk. apply lookup_insert_ne. set_solver.
  - intros k Hk. destruct (decide (k = p)) as [->|Hne]; [by right|]. rewrite lookup_insert_ne in Hk by done. by left.
Qed.

(** A step writes at the paths its value names, also when it stops. *)
Definition writes {A} (K : str → Prop) (m : Step A) (paths : A → list str) : Prop :=
  ∀ r, match m r with
       | (r', Some a) => wrote K r r' (paths a)
       | (r', None) => ∃ ps, wrote K r r' ps
       end.

Lemma writes_each {A B} K (l : list A) (body : A → Step B) (paths : B → list str) :
  (∀ x, x ∈ l → writes K (body x) paths) → writes K (step_each l body) (λ bs, concat (map paths bs)).
Proof.
  induction l as [|x l IH]; intros H r; simpl; [apply wrote_refl|].
  unfold step_bind. pose proof (H x ltac:(by left) r) as Hx. destruct (body x r) as [r1 [b|]]; [|done].
  specialize (IH (λ y Hy, H y ltac:(by right)) r1). destruct (step_each l body r1) as [r2 [bs|]]; simpl.
  - by eapply wrote_trans.
  - destruct IH as [ps IH]. exists (paths b ++ ps). by eapply wrote_trans.
Qed.

Lemma writes_bind {A B} K (m : Step A) (k : A → Step B) (f : A → list str) (g : A → B → list str) (h : B → list str) :
  writes K m f → (∀ a, writes K (k a) (g a)) → (∀ a b r, (k a r).2 = Some b → h b = f a ++ g a b) →
  writes K (step_bind m k) h.
Proof.
  intros Hm Hk Hh r. unfold step_bind. specialize (Hm r). destruct (m r) as [r1 [a|]]; [|done].
  specialize (Hk a r1). specialize (Hh a). destruct (k a r1) as [r2 [b|]] eqn:E.
  - rewrite (Hh b r1) by by rewrite E. by eapply wrote_trans.
  - destruct Hk as [ps Hk]. exists (f a ++ ps). by eapply wrote_trans.
Qed.

Lemma writes_write_step (K : str → Prop) env mkdir p text : K p → writes K (write_step env mkdir p text) (λ p, [p]).
Proof.
  intros Hp r. unfold write_step. destruct (_ || _); [exists []; apply wrote_refl|by apply wrote_write].
Qed.

Lemma writes_weaken {A} (K K' : str → Prop) (m : Step A) f : (∀ k, K k → K' k) → writes K m f → writes K' m f.
Proof.
  intros HK Hm r. specialize (Hm r). assert (∀ r1 r2 ps, wrote K r1 r2 ps → wrote K' r1 r2 ps) as Hw.
  { intros r1 r2 ps [A1 A2 A3 A4]. split; try done. intros k [H|H]%A4; auto. }
  destruct (m r) as [r' [a|]]; [by apply Hw|]. destruct Hm as [ps Hm]. exists ps. by apply Hw.
Qed.

Lemma writes_meta (K : str → Prop) env entry : K entry.1 → writes K (replay_meta env entry) (λ p, [p]).
Proof.
  destruct entry as [p text]. simpl. intros Hp. destruct (is_channel_meta_path p); [|by apply writes_write_step].
  intros r. destruct (if rp_read_ok env p then _ else _) as [s|]; [|exists []; apply wrote_refl].
  destruct (@yaml_from_str _ YC text), (@yaml_from_str _ YC s); try (exists []; apply wrote_refl).
  destruct (yaml_to_string _); [by apply (writes_write_step K env false p _ Hp)|exists []; apply wrote_refl].
Qed.

Lemma writes_remove (K : str → Prop) env p : writes K (remove_step env p) id.
Proof.
  intros r. unfold remove_step. destruct (negb _); [apply wrote_refl|]. destruct (_ || _); [exists []; apply wrote_refl|].
  split; try done; cbn [r_work].
  - intros k Hk. apply lookup_delete_ne. set_solver.
  - intros k [v Hk]. apply lookup_delete_Some in Hk as [_ Hk]. left. by eexists.
Qed.

(** The file resolved for an addition. *)
Definition resolved_of (remote : gmap str str) (item : str * str) (f : ResolvedFile) : Prop :=
  rf_path f = item.1 ∧ ∃ mappings, resolve_file item.1 item.2 (unwrap_or (remote !! item.1) []) = Ok (f, mappings).

Lemma resolve_loop_files (remote : gmap str str) l acc r :
  for_fold l acc (λ acc item,
      let '(resolved_files, all_mappings) := acc in
      let '(rel_path, local_content) := item in
      let? r := resolve_file rel_path local_content (unwrap_or (remote !! rel_path) []) in
      Ok (resolved_files ++ [r.1], all_mappings ++ r.2)) = Ok r →
  ∃ files, r.1 = acc.1 ++ files ∧ Forall2 (resolved_of remote) l files.
Proof.
  revert acc. induction l as [|[p t] l IH]; intros [fs ms] H; cbn [for_fold] in H.
  - injection H as <-. exists []. by rewrite app_nil_r.
  - destruct (resolve_file p t _) as [[f m]| |] eqn:E; simpl in H; [|done..].
    apply IH in H as (files & -> & Hf). exists (f :: files). cbn. rewrite <-app_assoc. split; [done|].
    constructor; [|done]. split; [|by exists m]. unfold resolve_file in E. by run_ok E.
Qed.

Lemma resolve_content_files additions remote files mappings :
  resolve_content_pure additions remote = Ok (files, mappings) →
  ∃ items, items ≡ₚ map_to_list additions ∧ Forall2 (resolved_of remote) items files.
Proof.
  intros (fs & H & Hf)%resolve_loop_files. cbn in H. subst fs. eexists. split; [|done]. by rewrite sort_by_key_perm.
Qed.

Lemma resolve_content_known additions remote files mappings f :
  resolve_content_pure additions remote = Ok (files, mappings) → f ∈ files → is_Some (additions !! rf_path f).
Proof.
  intros (items & Hp & Hf)%resolve_content_files Hin.
  apply list_elem_of_lookup in Hin as [i Hi]. destruct (Forall2_lookup_r _ _ _ _ _ Hf Hi) as ([p t] & Ht & [-> _]).
  apply list_elem_of_lookup_2 in Ht. rewrite Hp in Ht. apply elem_of_map_to_list in Ht. by eexists.
Qed.

Lemma writes_threads (K : str → Prop) env additions :
  (∀ k, is_Some (additions !! k) → K k) → writes K (replay_threads env additions) fst.
Proof.
  intros HK r. unfold replay_threads. case_bool_decide; [apply wrote_refl|].
  destruct (resolve_content env _ _) as [[files mappings]| |] eqn:E; [|exists []; apply wrote_refl..].
  unfold resolve_content in E. run_ok E.
  assert (writes K (step_each files (λ f, write_step env false (rf_path f) (rf_content f))) (λ bs, concat (map (λ p, [p]) bs))) as Hw.
  { apply writes_each. intros f Hf. by eapply writes_write_step, HK, resolve_content_known. }
  specialize (Hw r). unfold step_bind. destruct (step_each _ _ r) as [r' [ps|]]; [|done].
  simpl. assert (concat (map (λ p, [p]) ps) = ps) as Hc by (clear; induction ps; simpl; congruence). by rewrite Hc in Hw.
Qed.

(** ** Where quick sessions are written *)

Lemma read_working_Some env t p text : read_working env t p = Ok (Some text) → t !! p = Some text.
Proof.
  unfold read_working. destruct (path_exists t p); [simpl|done]. destruct (rp_read_ok env p); [|done].
  destruct (t !! p); [|done]. by intros [= <-].
Qed.

Lemma read_shown_Some ok t p text : read_shown ok t p = Ok (Some text) → t !! p = Some text.
Proof. unfold read_shown. destruct (ok p); [|done]. by intros [=]. Qed.

Lemma read_side_Some read (t : tree) id side archived m th :
  (∀ p text, read p = Ok (Some text) → t !! p = Some text) →
  read_side read id side archived = Ok (Some (m, th)) →
  t !! session_meta_of (session_dir archived id) = Some m ∧ t !! session_thread_of (session_dir archived id) = Some th.
Proof.
  intros Hread H. unfold read_side in H. run_ok H. unfold complete_quick_session_pair in H.
  destruct v as [m'|], v0 as [th'|]; simplify_eq. auto.
Qed.

Lemma one_place_Ok active archived e p a :
  one_place active archived e = Ok (p, a) → (if a : bool then archived else active) = Some p.
Proof. destruct active, archived; simpl; by intros [= <- <-]. Qed.

(** The files of a side, at the place it has. *)
Lemma side_place read (t : tree) id side active archived e m th a :
  (∀ p text, read p = Ok (Some text) → t !! p = Some text) →
  read_side read id side false = Ok active → read_side read id side true = Ok archived →
  one_place active archived e = Ok (m, th, a) →
  is_Some (t !! session_meta_of (session_dir a id)) ∧ is_Some (t !! session_thread_of (session_dir a id)).
Proof.
  intros Hr Ha Hb Ho%one_place_Ok. destruct a; subst.
  - destruct (read_side_Some _ _ _ _ _ _ _ Hr Hb) as [-> ->]. split; by eexists.
  - destruct (read_side_Some _ _ _ _ _ _ _ Hr Ha) as [-> ->]. split; by eexists.
Qed.

Definition session_files (id k : str) : Prop :=
  ∃ archived, k = session_meta_of (session_dir archived id) ∨ k = session_thread_of (session_dir archived id).

Lemma placed_spec id a meta thread mappings q k :
  is_Some (qr_writes (placed id a meta thread mappings q) !! k) →
  is_Some (qr_writes q !! k) ∨ k = session_meta_of (session_dir a id) ∨ k = session_thread_of (session_dir a id).
Proof.
  simpl. destruct (decide (k = session_thread_of (session_dir a id))); [auto|]. rewrite lookup_insert_ne by done.
  destruct (decide (k = session_meta_of (session_dir a id))); [auto|]. rewrite lookup_insert_ne by done. auto.
Qed.

Lemma resolve_session_placed env work upstream base id acc q :
  resolve_session env work upstream base id acc = Ok q →
  ∃ a meta thread mappings, q = placed id a meta thread mappings acc
    ∧ ∀ k, k = session_meta_of (session_dir a id) ∨ k = session_thread_of (session_dir a id) →
           is_Some (work !! k) ∨ is_Some (upstream !! k).
Proof.
  unfold resolve_session. intros H. run_ok H.
  destruct v5 as [[lm lt] la], v6 as [[rm rt] ra], v7 as [[bm bt] ba].
  destruct (side_place _ work id LocalSide _ _ _ _ _ _ (read_working_Some env work) E E0 E5) as [Hl1 Hl2].
  destruct (side_place _ upstream id RemoteSide _ _ _ _ _ _ (read_shown_Some (rp_show_ok env) upstream) E1 E2 E6) as [Hr1 Hr2].
  destruct (_ && _).
  - injection H as <-. exists la, lm, lt, []. split; [done|]. intros k [->| ->]; by left.
  - run_ok H. destruct v7 as [merged mappings]. run_ok H. do 4 eexists. split; [done|].
    destruct la; [intros k [->| ->]; by left|]. destruct ra; [intros k [->| ->]; by right|intros k [->| ->]; by left].
Qed.

Lemma sessions_placed env work upstream base ids acc q :
  for_fold ids acc (λ acc id, resolve_session env work upstream base id acc) = Ok q →
  (∀ k, is_Some (qr_writes q !! k) → is_Some (qr_writes acc !! k) ∨ is_Some (work !! k) ∨ is_Some (upstream !! k))
  ∧ (∀ k, is_Some (qr_writes q !! k) → is_Some (qr_writes acc !! k) ∨ ∃ id, id ∈ ids ∧ session_files id k)
  ∧ (∀ k, k ∈ qr_removals q → k ∈ qr_removals acc ∨ ∃ id, id ∈ ids ∧ session_files id k).
Proof.
  revert acc. induction ids as [|id ids IH]; intros acc H; cbn [for_fold] in H; [injection H as <-; auto|].
  destruct (resolve_session _ _ _ _ id acc) as [acc'| |] eqn:E; cbn [res_bind] in H; [|done..].
  destruct (resolve_session_placed _ _ _ _ _ _ _ E) as (a & meta & thread & mappings & -> & Hk).
  destruct (IH _ H) as (H1 & H2 & H3). split_and!.
  - intros k [Hin|Hin]%H1; [|by right]. apply placed_spec in Hin as [?|?]; [by left|]. right. by apply Hk.
  - intros k [Hin|(id' & Hid & Hf)]%H2; [|right; exists id'; split; [by right|done]].
    apply placed_spec in Hin as [?|Hf]; [by left|]. right. exists id. split; [by left|]. by exists a.
  - intros k [Hin|(id' & Hid & Hf)]%H3; [|right; exists id'; split; [by right|done]].
    simpl in Hin. apply elem_of_app in Hin as [?|Hf]; [by left|]. right. exists id. split; [by left|].
    exists (negb a). set_solver.
Qed.

Lemma prepare_spec env work upstream base paths q :
  prepare_quick_session_resolutions env work upstream base paths = Ok q →
  (∀ k, is_Some (qr_writes q !! k) → is_Some (work !! k) ∨ is_Some (upstream !! k))
  ∧ (∀ k, is_Some (qr_writes q !! k) ∨ k ∈ qr_removals q → is_quick_session_path k = true).
Proof.
  unfold prepare_quick_session_resolutions. intros H. run_ok H. apply sessions_placed in H as (H1 & H2 & H3). cbn in H1, H2, H3.
  assert (∀ id k, session_files id k → is_quick_session_path k = true) as Hq.
  { intros id k ([] & [-> | ->]); unfold is_quick_session_path, session_meta_of, session_thread_of, session_dir;
      apply orb_true_iff; [right|right|left|left]; apply starts_with_true; rewrite <-app_assoc; by eexists. }
  split.
  - intros k [Hk|?]%H1; [|done]. rewrite lookup_empty in Hk. by destruct Hk.
  - intros k [[Hk|(id & _ & Hf)]%H2|[Hk|(id & _ & Hf)]%H3]; [rewrite lookup_empty in Hk; by destruct Hk|by eapply Hq| |by eapply Hq].
    by apply elem_of_nil in Hk.
Qed.

(** ** The replay as a whole *)

Lemma concat_singletons {A} (l : list A) : concat (map (λ x, [x]) l) = l.
Proof. induction l; simpl; congruence. Qed.

Lemma writes_pairs (K : str → Prop) (env : ReplayEnv) (mkdir : bool) (m : gmap str str) :
  (∀ k, is_Some (m !! k) → K k) →
  writes K (step_each (map_to_list m) (λ '(p, text), write_step env mkdir p text)) id.
Proof.
  intros HK r. pose proof (writes_each K (map_to_list m) (λ '(p, text), write_step env mkdir p text) (λ p, [p])) as H.
  specialize (H ltac:(intros [p t] Hp%elem_of_map_to_list; apply writes_write_step, HK; by eexists) r).
  destruct (step_each _ _ r) as [r' [ps|]]; [|done]. by rewrite concat_singletons in H.
Qed.

Lemma writes_metas (K : str → Prop) (env : ReplayEnv) (m : gmap str str) :
  (∀ k, is_Some (m !! k) → K k) → writes K (step_each (map_to_list m) (replay_meta env)) id.
Proof.
  intros HK r. pose proof (writes_each K (map_to_list m) (replay_meta env) (λ p, [p])) as H.
  specialize (H ltac:(intros [p t] Hp%elem_of_map_to_list; apply writes_meta, HK; by eexists) r).
  destruct (step_each _ _ r) as [r' [ps|]]; [|done]. by rewrite concat_singletons in H.
Qed.

Lemma writes_removals (K : str → Prop) (env : ReplayEnv) (ps : list str) : writes K (step_each ps (remove_step env)) (@concat str).
Proof.
  intros r. pose proof (writes_each K ps (remove_step env) id (λ p _, writes_remove K env p) r) as H.
  destruct (step_each _ _ r) as [r' [l|]]; [|done]. by rewrite list_fmap_id in H.
Qed.

(** The paths of a captured change are known to one of the sides. *)
Definition within (K : str → Prop) (cap : Captured) (quick : QuickSessionResolutions) : Prop :=
  (∀ k, is_Some (cp_additions cap !! k) → K k) ∧ (∀ k, is_Some (cp_boards cap !! k) → K k)
  ∧ (∀ k, is_Some (cp_metas cap !! k) → K k) ∧ (∀ k, is_Some (qr_writes quick !! k) → K k).

Lemma writes_files (K : str → Prop) (env : ReplayEnv) cap quick :
  within K cap quick → writes K (replay_files env cap quick) fst.
Proof.
  intros (Ha & Hb & Hm & Hq) r. unfold replay_files, step_bind at 1.
  pose proof (writes_threads K env _ Ha r) as H1. destruct (replay_threads _ _ r) as [r1 [[ps1 ms]|]]; [|done].
  unfold step_bind at 1. pose proof (writes_pairs K env true _ Hb r1) as H2.
  destruct (step_each (map_to_list (cp_boards cap)) _ r1) as [r2 [ps2|]];
    [|destruct H2 as [ps H2]; eexists; by eapply wrote_trans].
  pose proof (wrote_trans _ _ _ _ _ _ H1 H2) as H12. clear H1 H2.
  unfold step_bind at 1. pose proof (writes_metas K env _ Hm r2) as H3.
  destruct (step_each _ (replay_meta env) r2) as [r3 [ps3|]]; [|destruct H3 as [ps H3]; eexists; by eapply wrote_trans].
  pose proof (wrote_trans _ _ _ _ _ _ H12 H3) as H13. clear H12 H3.
  unfold step_bind at 1. pose proof (writes_removals K env (qr_removals quick) r3) as H4.
  destruct (step_each _ (remove_step env) r3) as [r4 [ps4|]]; [|destruct H4 as [ps H4]; eexists; by eapply wrote_trans].
  pose proof (wrote_trans _ _ _ _ _ _ H13 H4) as H14. clear H13 H4.
  unfold step_bind at 1. pose proof (writes_pairs K env true _ Hq r4) as H5.
  destruct (step_each (map_to_list (qr_writes quick)) _ r4) as [r5 [ps5|]]; [|destruct H5 as [ps H5]; eexists; by eapply wrote_trans].
  pose proof (wrote_trans _ _ _ _ _ _ H14 H5) as H15. simpl. by rewrite <-!app_assoc in H15.
Qed.

(** ** A failed replay *)

(** Resetting to [local] undoes writes at paths of [local] and of the tree the clone was
    reset to, staged or not. *)
Lemma reset_restores (local upstream work : tree) (ps : list str) index :
  (∀ k, is_Some (work !! k) → is_Some (local !! k) ∨ is_Some (upstream !! k)) →
  index = upstream ∨ index = sync_paths ps work upstream →
  ∀ head, reset_hard local (MkRepo work index head) = MkRepo local local local.
Proof.
  intros Hk Hi head. unfold reset_hard. f_equal. apply map_eq. intros k. rewrite lookup_union.
  destruct (local !! k) as [v|] eqn:El; [by destruct (untracked _ !! k)|]. rewrite (left_id None _).
  apply map_lookup_filter_None. cbn [r_index r_work fst].
  destruct (work !! k) as [w|] eqn:Ew; [right|by left]. intros ? [= <-] Hn.
  destruct (Hk k ltac:(by eexists)) as [Hl|[u Hu]]; [rewrite El in Hl; by destruct Hl|].
  destruct Hi as [->| ->]; [congruence|]. rewrite lookup_sync_paths in Hn. destruct (in_paths ps k); congruence.
Qed.

Lemma replay_changes_shape (K : str → Prop) (env : ReplayEnv) cap quick upstream r' out :
  within K cap quick →
  replay_changes env cap quick (MkRepo upstream upstream upstream) = (r', out) →
  (∀ k, is_Some (r_work r' !! k) → is_Some (upstream !! k) ∨ K k)
  ∧ match out with
    | None => ∃ ps, r_index r' = upstream ∨ r_index r' = sync_paths ps (r_work r') upstream
    | Some mappings => ∃ ps, replay_files env cap quick (MkRepo upstream upstream upstream)
                               = (MkRepo (r_work r') upstream upstream, Some (ps, mappings))
                             ∧ r' = MkRepo (r_work r') (r_work r') (r_work r')
    end.
Proof.
  intros HK. unfold replay_changes, step_bind at 1.
  pose proof (writes_files K env cap quick HK (MkRepo upstream upstream upstream)) as H1.
  destruct (replay_files _ _ _ _) as [r1 [[ps ms]|]].
  - destruct H1 as [Hi Hh Ho Hk]. cbn in *. unfold step_bind, commit_step.
    destruct (is_empty ps); [intros [= <- <-]; split; [done|]; exists []; by left|].
    destruct (add_and_commit_as _ ps r1) as [r2 ok] eqn:Ec. apply add_and_commit_spec in Ec. destruct ok.
    + rewrite Ec. intros [= <- <-]. cbn in *. split; [done|]. exists ps. split.
      * f_equal. destruct r1. simpl in *. congruence.
      * rewrite Hi, sync_paths_same; [done|]. intros k Hin. apply Ho. intros Hps.
        assert (in_paths ps k = true) by (apply existsb_exists; exists k; split; [by apply list_elem_of_In|apply below_refl]).
        congruence.
    + intros [= <- <-]. destruct Ec as [->| ->]; simpl; (split; [done|]); exists ps; [by left|right; by rewrite Hi].
  - destruct H1 as [ps [Hi Hh Ho Hk]]. intros [= <- <-]. split; [done|]. exists []. by left.
Qed.

(** The diff names files of the local branch with the suffix it was asked for. *)
Definition diff_of (local : tree) (env : ReplayEnv) : Prop :=
  ∀ stdout k, rp_diff env = Some stdout → is_Some (parse_diff_output stdout !! k) →
              is_Some (local !! k) ∧ ends_with k (lit ".thread") = true.

Lemma read_changed_Some (env : ReplayEnv) t paths k text :
  read_changed env t paths !! k = Some text → k ∈ paths ∧ t !! k = Some text.
Proof.
  intros H%elem_of_list_to_map_2. apply list_elem_of_omap in H as (p & Hp & H).
  destruct (rp_read_ok env p); [|done]. destruct (t !! p) eqn:E; simplify_option_eq. auto.
Qed.

Definition known (local upstream : tree) (k : str) : Prop := is_Some (local !! k) ∨ is_Some (upstream !! k).

Lemma captured_within (env : ReplayEnv) local upstream base r cap quick :
  diff_of local env → r_work r = local → capture env r base = Some cap →
  prepare_quick_session_resolutions env local upstream base (cp_unpushed cap) = Ok quick →
  within (known local upstream) (outside_sessions cap) quick.
Proof.
  intros Hd Hw Hc Hq. unfold capture in Hc. destruct (rp_diff env) as [stdout|] eqn:Ed; [|done]. cbn in Hc.
  destruct (negb _); [done|]. injection Hc as <-. cbn in *. rewrite Hw. split_and!; cbn.
  - intros k [v [Hk _]%map_lookup_filter_Some]. left. by apply (Hd stdout k).
  - intros k [v [_ Hk]%read_changed_Some]. left. by eexists.
  - intros k [v [[_ Hk]%read_changed_Some _]%map_lookup_filter_Some]. left. by eexists.
  - intros k Hk. by apply (proj1 (prepare_spec _ _ _ _ _ _ Hq)).
Qed.

Lemma reset_hard_clean (local upstream : tree) :
  reset_hard upstream (MkRepo local local local) = MkRepo upstream upstream upstream.
Proof.
  unfold reset_hard, untracked. f_equal. apply map_eq. intros k. rewrite lookup_union.
  rewrite (proj2 (map_lookup_filter_None _ _ k)); [by rewrite (right_id None _)|].
  cbn. destruct (local !! k); [right; by intros|by left].
Qed.

(** Every way through the branch: nothing was touched, the replay failed, or it succeeded. *)
Lemma resolve_conflict_cases (env : ReplayEnv) local upstream base r' out :
  diff_of local env →
  resolve_conflict env upstream base (MkRepo local local local) = (r', out) →
  (r' = MkRepo local local local ∧ out = None)
  ∨ ∃ cap quick r1 out1,
      capture env (MkRepo local local local) base = Some cap
      ∧ prepare_quick_session_resolutions env local upstream base (cp_unpushed cap) = Ok quick
      ∧ within (known local upstream) (outside_sessions cap) quick
      ∧ replay_changes env (outside_sessions cap) quick (MkRepo upstream upstream upstream) = (r1, out1)
      ∧ match out1 with
        | Some mappings => r' = r1 ∧ out = Some mappings
        | None => r' = (if rp_restore_ok env then reset_hard local r1 else r1) ∧ out = None
        end.
Proof.
  intros Hd. unfold resolve_conflict. destruct (capture _ _ base) as [cap|] eqn:Ec; [|by intros [= <- <-]; left].
  cbn [r_work r_head].
  destruct (prepare_quick_session_resolutions _ _ _ _ _) as [quick| |] eqn:Eq; [|by intros [= <- <-]; left..].
  destruct (existsb _ _); [by intros [= <- <-]; left|]. destruct (_ && _); [by intros [= <- <-]; left|].
  unfold replay. destruct (negb (rp_discard_ok env)); [by intros [= <- <-]; left|].
  rewrite reset_hard_clean.
  pose proof (captured_within env local upstream base (MkRepo local local local) cap quick Hd eq_refl Ec Eq) as HK.
  destruct (replay_changes _ _ _ _) as [r1 out1] eqn:Er. intros H. right. exists cap, quick, r1, out1.
  split_and!; try done. destruct out1; injection H as <- <-; done.
Qed.

(** C19: a conflict that could not be resolved leaves the clone exactly as it was: after the
    rebase has been aborted, the whole replay, wherever it stops (capturing, resolving a
    quick session, discarding, writing any of the files, staging, committing), ends with
    the local commit, a clean index and a clean work tree, as long as the last
    [git reset --hard] of the rollback succeeds. *)
Theorem failed_replay_restores (env : ReplayEnv) (local upstream base : tree) (r' : Repo) :
  diff_of local env → rp_restore_ok env = true →
  resolve_conflict env upstream base (MkRepo local local local) = (r', None) →
  r' = MkRepo local local local.
Proof.
  intros Hd Hr H. apply resolve_conflict_cases in H as [[-> _]|(cap & quick & r1 & out1 & Hc & Hq & HK & Hch & H)]; [done| |done].
  destruct out1 as [mappings|]; [by destruct H|]. destruct H as [-> _]. rewrite Hr.
  apply replay_changes_shape with (1 := HK) in Hch as [Hkeys [ps Hidx]].
  destruct r1 as [work index head]. apply (reset_restores local upstream work ps); [|done].
  intros k Hk. destruct (Hkeys k Hk) as [?|[?|?]]; auto.
Qed.

(** ** A successful replay *)

Lemma write_step_Some (env : ReplayEnv) (mkdir : bool) p text r r' q :
  write_step env mkdir p text r = (r', Some q) → r' = write_work p text r.
Proof. unfold write_step. destruct (_ || _); [done|]. by intros [= <- _]. Qed.

(** Writing the files of a map puts the map over the work tree. *)
Lemma write_all_Some (env : ReplayEnv) (mkdir : bool) (m : gmap str str) r r' ps :
  step_each (map_to_list m) (λ '(p, text), write_step env mkdir p text) r = (r', Some ps) →
  ∀ k, r_work r' !! k = (m ∪ r_work r) !! k.
Proof.
  revert r r' ps. induction m as [|p text m Hp Hf IH] using map_first_key_ind; intros r r' ps H k.
  - rewrite map_to_list_empty in H. injection H as <- _. by rewrite (left_id_L ∅ (∪)).
  - rewrite map_to_list_insert_first_key in H by done. cbn [step_each] in H. unfold step_bind at 1 in H.
    destruct (write_step env mkdir p text r) as [r1 [q|]] eqn:E; [|done]. apply write_step_Some in E as ->.
    unfold step_bind at 1 in H. destruct (step_each _ _ _) as [r2 [qs|]] eqn:Es; [|done]. injection H as <- _.
    rewrite (IH _ _ _ Es k). cbn [write_work r_work]. rewrite !lookup_union.
    destruct (decide (k = p)) as [->|Hne]; [|by rewrite !lookup_insert_ne].
    rewrite !lookup_insert_eq, Hp. by destruct (r_work r !! p).
Qed.

(** The metadata written for a local change when the other side has [remote]. *)
Definition meta_text (path local_content : str) (remote : option str) : option str :=
  if is_channel_meta_path path then
    remote_content ← remote;
    local_meta ← @yaml_from_str _ YC local_content;
    remote_meta ← @yaml_from_str _ YC remote_content;
    yaml_to_string (merge_channel_meta local_meta remote_meta)
  else Some local_content.

Lemma replay_meta_Some (env : ReplayEnv) p local r r' q :
  replay_meta env (p, local) r = (r', Some q) →
  ∃ text, meta_text p local (r_work r !! p) = Some text ∧ r' = write_work p text r.
Proof.
  unfold replay_meta, meta_text. destruct (is_channel_meta_path p).
  - destruct (rp_read_ok env p); [|done]. destruct (r_work r !! p) as [remote|]; [|done]. simpl.
    destruct (@yaml_from_str _ YC local), (@yaml_from_str _ YC remote); try done. simpl.
    destruct (yaml_to_string _) as [yaml|]; [|done]. intros H%write_step_Some. by exists yaml.
  - intros H%write_step_Some. by exists local.
Qed.

Lemma replay_metas_Some (env : ReplayEnv) (m : gmap str str) r r' ps :
  step_each (map_to_list m) (replay_meta env) r = (r', Some ps) →
  ∀ k, match m !! k with
       | Some local => ∃ text, meta_text k local (r_work r !! k) = Some text ∧ r_work r' !! k = Some text
       | None => r_work r' !! k = r_work r !! k
       end.
Proof.
  revert r r' ps. induction m as [|p local m Hp Hf IH] using map_first_key_ind; intros r r' ps H k.
  - rewrite map_to_list_empty in H. injection H as <- _. by rewrite lookup_empty.
  - rewrite map_to_list_insert_first_key in H by done. cbn [step_each] in H. unfold step_bind at 1 in H.
    destruct (replay_meta env (p, local) r) as [r1 [q|]] eqn:E; [|done].
    apply replay_meta_Some in E as (text & Ht & ->).
    unfold step_bind at 1 in H. destruct (step_each _ _ _) as [r2 [qs|]] eqn:Es; [|done]. injection H as <- _.
    specialize (IH _ _ _ Es k). cbn [write_work r_work] in IH.
    destruct (decide (k = p)) as [->|Hne].
    + rewrite lookup_insert_eq. rewrite Hp, lookup_insert_eq in IH. by exists text.
    + rewrite lookup_insert_ne by done. by rewrite lookup_insert_ne in IH.
Qed.

Lemma removals_Some (env : ReplayEnv) ps r r' l :
  step_each ps (remove_step env) r = (r', Some l) →
  ∀ k, r_work r' !! k = if decide (k ∈ ps) then None else r_work r !! k.
Proof.
  revert r r' l. induction ps as [|p ps IH]; intros r r' l H k; cbn [step_each] in H.
  - injection H as <- _. destruct (decide _) as [Hin|]; [by apply elem_of_nil in Hin|done].
  - unfold step_bind at 1 in H. destruct (remove_step env p r) as [r1 [q|]] eqn:E; [|done].
    unfold step_bind at 1 in H. destruct (step_each _ _ _) as [r2 [qs|]] eqn:Es; [|done]. injection H as <- _.
    rewrite (IH _ _ _ Es k). unfold remove_step in E.
    assert (r_work r1 !! k = if decide (k = p) then None else r_work r !! k) as ->.
    { destruct (path_exists (r_work r) p) eqn:Ep; cbn [negb] in E.
      - destruct (_ || _); [done|]. injection E as <- _. cbn. destruct (decide (k = p)) as [->|];
          [apply lookup_delete_eq|by apply lookup_delete_ne].
      - injection E as <- _. destruct (decide (k = p)) as [->|]; [|done].
        destruct (r_work r !! p) eqn:El; [|done]. by rewrite lookup_path_exists in Ep by by eexists. }
    destruct (decide (k ∈ ps)), (decide (k = p)), (decide (k ∈ p :: ps)); set_solver.
Qed.

Lemma read_remotes (env : ReplayEnv) (t : tree) (l : list (str * str)) acc m :
  acc ⊆ t →
  for_fold l acc (λ acc '(rel_path, _),
    if path_exists t rel_path then
      let? text := ok_or (if rp_read_ok env rel_path then t !! rel_path else None) (@None ConflictError) in
      Ok (<[rel_path := text]> acc)
    else if rp_mkdir_ok env rel_path then Ok acc else Err None) = Ok m →
  acc ⊆ m ∧ m ⊆ t ∧ ∀ k, k ∈ l.*1 → m !! k = t !! k.
Proof.
  revert acc. induction l as [|[p x] l IH]; intros acc Ha H; cbn [for_fold] in H.
  { injection H as <-. split_and!; [done|done|]. intros k Hk. by apply elem_of_nil in Hk. }
  destruct (path_exists t p) eqn:Ep.
  - destruct (rp_read_ok env p); [|done]. destruct (t !! p) as [text|] eqn:Et; [|done]. cbn [ok_or res_bind] in H.
    assert (<[p:=text]> acc ⊆ t) as Ha' by by apply insert_subseteq_l.
    destruct (IH _ Ha' H) as (H1 & H2 & H3).
    assert (m !! p = Some text) as Hm by (eapply lookup_weaken; [apply lookup_insert_eq|exact H1]).
    split_and!; [|done|].
    + apply map_subseteq_spec. intros k v Hk. destruct (decide (k = p)) as [->|Hne].
      * rewrite Hm, <-Et. by eapply lookup_weaken.
      * eapply lookup_weaken; [|exact H1]. by rewrite lookup_insert_ne.
    + intros k [->|Hk]%elem_of_cons; [cbn; congruence|by apply H3].
  - destruct (rp_mkdir_ok env p); [|done]. destruct (IH _ Ha H) as (H1 & H2 & H3). split_and!; [done|done|].
    intros k [->|Hk]%elem_of_cons; [|by apply H3]. simpl.
    destruct (t !! p) as [v|] eqn:Et; [by rewrite lookup_path_exists in Ep by by eexists|].
    destruct (m !! p) as [v|] eqn:Em; [|done]. by rewrite (lookup_weaken _ _ _ _ Em H2) in Et.
Qed.

(** Writing files with distinct paths. *)
Lemma write_files_Some (env : ReplayEnv) files r r' ps :
  NoDup (map rf_path files) →
  step_each files (λ f, write_step env false (rf_path f) (rf_content f)) r = (r', Some ps) →
  (∀ f, f ∈ files → r_work r' !! rf_path f = Some (rf_content f))
  ∧ ∀ k, k ∉ map rf_path files → r_work r' !! k = r_work r !! k.
Proof.
  revert r ps. induction files as [|f files IH]; intros r ps Hnd H; cbn [step_each] in H.
  { injection H as <- _. split; [intros f Hf; by apply elem_of_nil in Hf|done]. }
  apply NoDup_cons in Hnd as [Hf Hnd]. unfold step_bind at 1 in H.
  destruct (write_step _ _ _ _ r) as [r1 [q|]] eqn:E; [|done]. apply write_step_Some in E as ->.
  unfold step_bind at 1 in H. destruct (step_each _ _ _) as [r2 [qs|]] eqn:Es; [|done]. injection H as <- _.
  destruct (IH _ _ Hnd Es) as [H1 H2]. split.
  - intros g [->|Hg]%elem_of_cons; [|by apply H1]. rewrite H2 by done. apply lookup_insert_eq.
  - intros k [Hk1 Hk2]%not_elem_of_cons. rewrite H2 by done. by apply lookup_insert_ne.
Qed.

Lemma replay_threads_Some (env : ReplayEnv) (additions : gmap str str) r r' ps ms :
  replay_threads env additions r = (r', Some (ps, ms)) →
  ∀ k, match additions !! k with
       | Some local => ∃ f mappings, resolve_file k local (default [] (r_work r !! k)) = Ok (f, mappings)
                                     ∧ r_work r' !! k = Some (rf_content f)
       | None => r_work r' !! k = r_work r !! k
       end.
Proof.
  unfold replay_threads. case_bool_decide as He; [intros [= <- _ _] k; by rewrite He, lookup_empty|].
  destruct (resolve_content env _ _) as [[files mappings]| |] eqn:E; [|done..].
  unfold resolve_content in E. run_ok E. intros H k.
  destruct (read_remotes _ _ _ _ _ (map_empty_subseteq _) E0) as (_ & _ & Hrem).
  destruct (resolve_content_files _ _ _ _ E) as (items & Hperm & Hfiles).
  assert (map rf_path files = items.*1) as Hpaths.
  { clear -Hfiles. induction Hfiles as [|item f items files [Hp _] _ IH]; [done|]. simpl. by rewrite Hp, IH. }
  assert (NoDup items.*1) as Hnd by (rewrite Hperm; apply NoDup_fst_map_to_list).
  unfold step_bind in H. destruct (step_each _ _ r) as [r1 [qs|]] eqn:Es; [|done]. injection H as <- _ _.
  apply write_files_Some in Es as [H1 H2]; [|by rewrite Hpaths].
  destruct (additions !! k) as [local|] eqn:Ek.
  - assert ((k, local) ∈ items) as [i Hi]%list_elem_of_lookup by by rewrite Hperm, elem_of_map_to_list.
    destruct (Forall2_lookup_l _ _ _ _ _ Hfiles Hi) as (f & Hf%list_elem_of_lookup_2 & Hp & m & Hres). cbn in Hp, Hres.
    exists f, m. rewrite <-Hp at 3. split; [|by apply H1].
    rewrite Hrem in Hres; [done|]. apply list_elem_of_fmap. exists (k, local). split; [done|]. by apply elem_of_map_to_list.
  - apply H2. rewrite Hpaths, Hperm. intros Hin%list_elem_of_fmap. destruct Hin as ([p t] & -> & Hin%elem_of_map_to_list).
    cbn in Ek. congruence.
Qed.

(** The text of a path after the replay: quick sessions as resolved, metadata merged or
    taken over, boards taken over, threads resolved, and the remote side everywhere else. *)
Definition replayed (cap : Captured) (quick : QuickSessionResolutions) (upstream : tree) (k : str) (v : option str) : Prop :=
  match qr_writes quick !! k with
  | Some text => v = Some text
  | None =>
      if decide (k ∈ qr_removals quick) then v = None
      else match cp_metas cap !! k with
      | Some local => is_Some v ∧ v = meta_text k local (upstream !! k)
      | None =>
          match cp_boards cap !! k with
          | Some local => v = Some local
          | None =>
              match cp_additions cap !! k with
              | Some local => ∃ f mappings, resolve_file k local (default [] (upstream !! k)) = Ok (f, mappings)
                                            ∧ v = Some (rf_content f)
              | None => v = upstream !! k
              end
          end
      end
  end.

(** The kinds of files captured do not overlap. *)
Definition kinds_apart (cap : Captured) : Prop :=
  ∀ k, is_Some (cp_metas cap !! k) → cp_boards cap !! k = None ∧ cp_additions cap !! k = None.

Lemma replay_files_Some (env : ReplayEnv) cap quick upstream r' ps ms :
  kinds_apart cap →
  replay_files env cap quick (MkRepo upstream upstream upstream) = (r', Some (ps, ms)) →
  ∀ k, replayed cap quick upstream k (r_work r' !! k).
Proof.
  intros Hap. unfold replay_files, step_bind at 1.
  destruct (replay_threads _ _ _) as [r1 [[ps1 ms1]|]] eqn:E1; [|done].
  unfold step_bind at 1. destruct (step_each (map_to_list (cp_boards cap)) _ r1) as [r2 [ps2|]] eqn:E2; [|done].
  unfold step_bind at 1. destruct (step_each _ (replay_meta env) r2) as [r3 [ps3|]] eqn:E3; [|done].
  unfold step_bind at 1. destruct (step_each _ (remove_step env) r3) as [r4 [ps4|]] eqn:E4; [|done].
  unfold step_bind at 1. destruct (step_each (map_to_list (qr_writes quick)) _ r4) as [r5 [ps5|]] eqn:E5; [|done].
  intros [= <- _ _] k.
  pose proof (replay_threads_Some _ _ _ _ _ _ E1 k) as H1. pose proof (write_all_Some _ _ _ _ _ _ E2 k) as H2.
  pose proof (replay_metas_Some _ _ _ _ _ E3 k) as H3. pose proof (removals_Some _ _ _ _ _ E4 k) as H4.
  pose proof (write_all_Some _ _ _ _ _ _ E5 k) as H5. cbn [r_work] in H1. rewrite lookup_union in H2, H5.
  specialize (Hap k). unfold replayed. rewrite H5.
  destruct (qr_writes quick !! k) as [text|]; [by destruct (r_work r4 !! k)|]. rewrite (left_id_L None (∪)), H4.
  destruct (decide _); [done|]. destruct (cp_metas cap !! k) as [local|].
  - destruct Hap as [Hb Ha]; [by eexists|]. rewrite Hb, (left_id_L None (∪)) in H2. rewrite Ha in H1.
    rewrite H2, H1 in H3. destruct H3 as (text & -> & ->). split; [by eexists|done].
  - rewrite H3. destruct (cp_boards cap !! k) as [local|]; [rewrite H2; by destruct (r_work r1 !! k)|].
    rewrite (left_id_L None (∪)) in H2. by rewrite H2.
Qed.

(** A path has one of two suffixes of the same length only. *)
Lemma ends_with_one (k a b x y : str) :
  ends_with k (a ++ x) = true → ends_with k (b ++ y) = true → length x = length y → x = y.
Proof.
  rewrite !ends_with_true. intros [q ->] [q' H] Hlen. rewrite !app_assoc in H. by apply app_inj_2 in H as [_ H].
Qed.

Lemma matches_board_suffix k : matches_board k = true → ends_with k (lit "/board." ++ lit "md") = true.
Proof.
  unfold matches_board. destruct (strip_prefix _ k) as [rest|] eqn:Es; [|done]. apply strip_prefix_Some in Es as ->.
  rewrite !ends_with_true. intros [q ->]. exists (lit "showboards/" ++ q). by rewrite <-app_assoc.
Qed.

Lemma captured_kinds (env : ReplayEnv) (local : tree) r base cap k :
  diff_of local env → capture env r base = Some cap →
  (is_Some (cp_metas cap !! k) → ends_with k (lit ".meta.ya" ++ lit "ml") = true)
  ∧ (is_Some (cp_boards cap !! k) → ends_with k (lit "/board." ++ lit "md") = true)
  ∧ (is_Some (cp_additions cap !! k) → ends_with k (lit ".thre" ++ lit "ad") = true).
Proof.
  intros Hd Hc. unfold capture in Hc. destruct (rp_diff env) as [stdout|] eqn:Ed; [|done]. cbn in Hc.
  destruct (negb _); [done|]. injection Hc as <-. cbn [cp_metas cp_boards cp_additions]. split_and!.
  - intros [v [Hin _]%read_changed_Some]. destruct (rp_list_metas_ok env); [|by apply elem_of_nil in Hin].
    by apply list_elem_of_In, filter_In in Hin as [_ Hin].
  - intros [v [Hin _]%read_changed_Some]. destruct (rp_list_boards_ok env); [|by apply elem_of_nil in Hin].
    apply list_elem_of_In, filter_In in Hin as [_ Hin]. by apply matches_board_suffix.
  - intros Hk. by apply (Hd stdout k Ed).
Qed.

Lemma captured_apart (env : ReplayEnv) local r base cap :
  diff_of local env → capture env r base = Some cap →
  kinds_apart (outside_sessions cap) ∧ ∀ p, is_Some (cp_boards cap !! p) → cp_additions (outside_sessions cap) !! p = None.
Proof.
  intros Hd Hc. split.
  - intros k [v [Hm _]%map_lookup_filter_Some]. destruct (captured_kinds env local r base cap k Hd Hc) as (H1 & H2 & H3).
    specialize (H1 ltac:(by eexists)). split; [|apply map_lookup_filter_None; left]; apply eq_None_not_Some.
    + intros Hb%H2. by pose proof (ends_with_one _ _ _ _ _ H1 Hb eq_refl).
    + intros Ha%H3. by pose proof (ends_with_one _ _ _ _ _ H1 Ha eq_refl).
  - intros p Hb. destruct (captured_kinds env local r base cap p Hd Hc) as (_ & H2 & H3).
    apply map_lookup_filter_None. left. apply eq_None_not_Some. intros Ha%H3.
    by pose proof (ends_with_one _ _ _ _ _ (H2 Hb) Ha eq_refl).
Qed.

(** C20: the exact outcome of a resolved conflict.  The clone ends clean at one new commit,
    and every path of it is accounted for: quick sessions are what the session merge gave,
    channel metadata is the merge of both sides, other metadata and boards are the local
    ones, each thread is the remote text followed by the renumbered local batch, and every
    other path, changed locally or not, is what the remote side has. *)
Theorem resolved_conflict_exact (env : ReplayEnv) (local upstream base : tree) (r' : Repo) (mappings : list RenumberMapping) :
  diff_of local env →
  resolve_conflict env upstream base (MkRepo local local local) = (r', Some mappings) →
  ∃ t cap quick,
    r' = MkRepo t t t
    ∧ capture env (MkRepo local local local) base = Some cap
    ∧ prepare_quick_session_resolutions env local upstream base (cp_unpushed cap) = Ok quick
    ∧ ∀ k, replayed (outside_sessions cap) quick upstream k (t !! k).
Proof.
  intros Hd H. apply resolve_conflict_cases in H as [[_ [=]]|(cap & quick & r1 & out1 & Hc & Hq & HK & Hch & H)]; [|done].
  destruct out1 as [ms|]; [|by destruct H]. destruct H as [-> [= <-]].
  apply replay_changes_shape with (1 := HK) in Hch as [_ (ps & Hf & Hr)].
  exists (r_work r1), cap, quick. split_and!; [done..|].
  exact (replay_files_Some _ _ _ _ _ _ _ (proj1 (captured_apart _ _ _ _ _ Hd Hc)) Hf).
Qed.

(** ** Conflicts on threads are resolved *)

(** Every command and file operation succeeds where it can: a path can be staged when it
    exists, and a commit can be made when something is staged. *)
Record answers_ok (env : ReplayEnv) : Prop := {
  ok_all : rp_list_all_ok env = true;
  ok_discard : rp_discard_ok env = true;
  ok_read : ∀ p, rp_read_ok env p = true;
  ok_mkdir : ∀ p, rp_mkdir_ok env p = true;
  ok_write : ∀ p, rp_write_ok env p = true;
  ok_add : ∀ ps r, Forall (λ p, path_exists (r_work r) p || path_exists (r_index r) p = true) ps →
                   is_Some (git_add (rp_commit env).1 ps r);
  ok_commit : ∀ r, r_index r ≠ r_head r → is_Some (git_commit (rp_commit env).2 r);
}.

Lemma write_step_ok (env : ReplayEnv) (mkdir : bool) p text r :
  answers_ok env → write_step env mkdir p text r = (write_work p text r, Some p).
Proof. intros H. unfold write_step. rewrite (ok_mkdir _ H), (ok_write _ H). by destruct mkdir. Qed.

Lemma write_all_ok (env : ReplayEnv) (mkdir : bool) (l : list (str * str)) r :
  answers_ok env → ∃ r', step_each l (λ '(p, text), write_step env mkdir p text) r = (r', Some l.*1).
Proof.
  intros H. revert r. induction l as [|[p text] l IH]; intros r; [by eexists|].
  destruct (IH (write_work p text r)) as [r' Hr]. exists r'. cbn [step_each]. unfold step_bind at 1.
  rewrite write_step_ok by done. unfold step_bind. by rewrite Hr.
Qed.

Lemma write_files_ok (env : ReplayEnv) files r :
  answers_ok env →
  ∃ r', step_each files (λ f, write_step env false (rf_path f) (rf_content f)) r = (r', Some (map rf_path files)).
Proof.
  intros H. revert r. induction files as [|f files IH]; intros r; [by eexists|].
  destruct (IH (write_work (rf_path f) (rf_content f) r)) as [r' Hr]. exists r'. cbn [step_each]. unfold step_bind at 1.
  rewrite write_step_ok by done. unfold step_bind. by rewrite Hr.
Qed.

Lemma metas_ok (env : ReplayEnv) (l : list (str * str)) r :
  answers_ok env → NoDup l.*1 →
  (∀ p local, (p, local) ∈ l → is_Some (meta_text p local (r_work r !! p))) →
  ∃ r', step_each l (replay_meta env) r = (r', Some l.*1).
Proof.
  intros H. revert r. induction l as [|[p local] l IH]; intros r Hnd Hm; [by eexists|].
  apply NoDup_cons in Hnd as [Hp Hnd]. destruct (Hm p local ltac:(by left)) as [text Ht].
  destruct (IH (write_work p text r) Hnd) as [r' Hr].
  { intros q t Hq. cbn. rewrite lookup_insert_ne; [apply Hm; by right|].
    intros ->. apply Hp, list_elem_of_fmap. by exists (q, t). }
  exists r'. cbn [step_each]. unfold step_bind at 1.
  assert (replay_meta env (p, local) r = (write_work p text r, Some p)) as ->; [|unfold step_bind; by rewrite Hr].
  unfold replay_meta. unfold meta_text in Ht. destruct (is_channel_meta_path p).
  - rewrite (ok_read _ H). destruct (r_work r !! p) as [remote|]; [|done]. cbn in Ht.
    destruct (@yaml_from_str _ YC local); [|done]. cbn in Ht. destruct (@yaml_from_str _ YC remote); [|done]. cbn in Ht.
    rewrite Ht. by apply write_step_ok.
  - injection Ht as ->. by apply write_step_ok.
Qed.

Lemma read_remotes_ok (env : ReplayEnv) (t : tree) (l : list (str * str)) (acc : gmap str str) :
  answers_ok env → (∀ p, p ∈ l.*1 → path_exists t p = true → is_Some (t !! p)) →
  ∃ m, for_fold l acc (λ acc '(rel_path, _),
    if path_exists t rel_path then
      let? text := ok_or (if rp_read_ok env rel_path then t !! rel_path else None) (@None ConflictError) in
      Ok (<[rel_path := text]> acc)
    else if rp_mkdir_ok env rel_path then Ok acc else Err None) = Ok m.
Proof.
  intros H. revert acc. induction l as [|[p x] l IH]; intros acc Hl; cbn [for_fold]; [by eexists|].
  assert (∀ q, q ∈ l.*1 → path_exists t q = true → is_Some (t !! q)) as Hl' by (intros q Hq; apply Hl; by right).
  rewrite (ok_read _ H), (ok_mkdir _ H). destruct (path_exists t p) eqn:Ep; [|by apply IH].
  destruct (Hl p ltac:(by left) Ep) as [text ->]. by apply IH.
Qed.

Lemma threads_ok (env : ReplayEnv) (users : gset str) (additions : gmap str str) r :
  answers_ok env →
  (∀ p local, additions !! p = Some local →
     diverged users local (default [] (r_work r !! p)) ∧ (path_exists (r_work r) p = true → is_Some (r_work r !! p))) →
  ∃ r' ps ms, replay_threads env additions r = (r', Some (ps, ms)) ∧ ∀ p, p ∈ ps → is_Some (additions !! p).
Proof.
  intros H Hadd. unfold replay_threads. case_bool_decide; [do 3 eexists; split; [done|]; intros p Hp; by apply elem_of_nil in Hp|].
  destruct (read_remotes_ok env (r_work r) (map_to_list additions) ∅ H) as [m Hm].
  { intros p (q & -> & Hin)%list_elem_of_fmap. destruct q as [p local]. apply elem_of_map_to_list in Hin.
    apply (Hadd p local Hin). }
  destruct (read_remotes _ _ _ _ _ (map_empty_subseteq _) Hm) as (_ & _ & Hrem).
  destruct (resolve_loop_clean users m (sort_by_key (λ a b : str * str, path_leb a.1 b.1) (map_to_list additions)) ([], []))
    as (files & mappings & Hrun & _).
  { intros [p local] Hp. rewrite sort_by_key_perm in Hp. apply elem_of_map_to_list in Hp as Hp'. cbn.
    destruct (Hadd p local Hp') as [Hd _]. rewrite Hrem; [exact Hd|]. apply list_elem_of_fmap. by exists (p, local). }
  change (resolve_content_pure additions m = Ok (files, mappings)) in Hrun.
  unfold resolve_content. rewrite Hm. cbn [res_bind]. rewrite Hrun. cbn [map_err].
  destruct (write_files_ok env files r H) as [r' Hr]. unfold step_bind. rewrite Hr.
  do 3 eexists. split; [reflexivity|]. intros p (f & -> & Hf)%list_elem_of_fmap. by eapply resolve_content_known.
Qed.

(** Both sides of the replay agree on what the captured files are. *)
Definition mergeable (users : gset str) (cap : Captured) (upstream : tree) : Prop :=
  (∀ k text, cp_additions cap !! k = Some text →
     diverged users text (default [] (upstream !! k)) ∧ (path_exists upstream k = true → is_Some (upstream !! k)))
  ∧ (∀ k text, cp_metas cap !! k = Some text → is_Some (meta_text k text (upstream !! k))).

Lemma files_ok (env : ReplayEnv) (users : gset str) cap upstream :
  answers_ok env → kinds_apart cap → mergeable users cap upstream →
  ∃ r' ps ms, replay_files env cap (MkResolutions ∅ [] []) (MkRepo upstream upstream upstream) = (r', Some (ps, ms))
              ∧ ∀ p, p ∈ ps → is_Some (r_work r' !! p).
Proof.
  intros H Hap [Ht Hm]. unfold replay_files.
  destruct (threads_ok env users (cp_additions cap) (MkRepo upstream upstream upstream) H Ht) as (r1 & ps1 & ms1 & E1 & Hps1).
  destruct (write_all_ok env true (map_to_list (cp_boards cap)) r1 H) as [r2 E2].
  destruct (metas_ok env (map_to_list (cp_metas cap)) r2 H (NoDup_fst_map_to_list _)) as [r3 E3].
  { intros p local Hp%elem_of_map_to_list. destruct (Hap p) as [Hb Ha]; [by eexists|].
    pose proof (write_all_Some _ _ _ _ _ _ E2 p) as H2. rewrite lookup_union, Hb, (left_id_L None (∪)) in H2.
    pose proof (replay_threads_Some _ _ _ _ _ _ E1 p) as H1. rewrite Ha in H1. rewrite H2, H1. by apply Hm. }
  assert (replay_files env cap (MkResolutions ∅ [] []) (MkRepo upstream upstream upstream)
          = (r3, Some (ps1 ++ (map_to_list (cp_boards cap)).*1 ++ (map_to_list (cp_metas cap)).*1, ms1))) as E.
  { unfold replay_files, step_bind. rewrite E1, E2, E3. cbn. rewrite map_to_list_empty. cbn. unfold step_ret. by rewrite !app_nil_r. }
  exists r3, (ps1 ++ (map_to_list (cp_boards cap)).*1 ++ (map_to_list (cp_metas cap)).*1), ms1. split; [exact E|].
  intros p Hp. pose proof (replay_files_Some _ _ _ _ _ _ _ Hap E p) as Hr. unfold replayed in Hr. cbn in Hr.
  rewrite lookup_empty in Hr. destruct (decide _) as [Hin|_]; [by apply elem_of_nil in Hin|].
  assert (is_Some (cp_additions cap !! p) ∨ is_Some (cp_boards cap !! p) ∨ is_Some (cp_metas cap !! p)) as Hk.
  { apply elem_of_app in Hp as [Hp|Hp]; [left; by apply Hps1|right].
    apply elem_of_app in Hp as [Hp|Hp]; [left|right];
      apply list_elem_of_fmap in Hp as ([q t] & -> & Hp%elem_of_map_to_list); by eexists. }
  destruct (cp_metas cap !! p); [by destruct Hr|]. destruct (cp_boards cap !! p); [by eexists|].
  destruct (cp_additions cap !! p); [destruct Hr as (f & m & _ & ->); by eexists|].
  destruct Hk as [[? Hk]|[[? Hk]|[? Hk]]]; done.
Qed.

(** A thread that was merged is not the remote one. *)
Lemma merged_differs users k local (upstream : tree) f mappings file :
  diverged users local (default [] (upstream !! k)) → parse_thread local = Ok file → entries file ≠ [] →
  resolve_file k local (default [] (upstream !! k)) = Ok (f, mappings) →
  upstream !! k ≠ Some (rf_content f).
Proof.
  intros Hd Hfile Hne Hf Hu.
  destruct (resolve_file_clean users k local _ Hd) as (content & ms & f0 & f1 & g & l' & Hr & H0 & H1 & Hg & He & Hs & _).
  rewrite Hf in Hr. injection Hr as -> ->. rewrite Hu in H0. cbn in H0. rewrite H1 in H0. injection H0 as ->.
  assert (l' = []) as ->.
  { apply (f_equal length) in He. rewrite length_app in He. destruct l'; [done|]. simpl in He. lia. }
  rewrite Hfile in Hg. injection Hg as <-. by apply Forall2_nil_inv_r in Hs.
Qed.

Lemma changes_ok (env : ReplayEnv) (users : gset str) cap upstream k text file :
  answers_ok env → kinds_apart cap → mergeable users cap upstream →
  (∀ p, is_Some (cp_boards cap !! p) → cp_additions cap !! p = None) →
  cp_additions cap !! k = Some text → parse_thread text = Ok file → entries file ≠ [] →
  ∃ r' ms, replay_changes env cap (MkResolutions ∅ [] []) (MkRepo upstream upstream upstream) = (r', Some ms).
Proof.
  intros H Hap Hmg Hb Hk Hfile Hne. destruct (files_ok env users cap upstream H Hap Hmg) as (r1 & ps & ms & E & Hps).
  pose proof (replay_files_Some _ _ _ _ _ _ _ Hap E k) as Hr. unfold replayed in Hr. cbn in Hr.
  rewrite lookup_empty in Hr. destruct (decide _) as [Hin|_]; [by apply elem_of_nil in Hin|].
  destruct (cp_metas cap !! k) eqn:Em; [destruct (Hap k ltac:(by eexists)); congruence|].
  destruct (cp_boards cap !! k) eqn:Eb; [rewrite Hb in Hk; [done|by eexists]|].
  rewrite Hk in Hr. destruct Hr as (f & mp & Hres & Hwork).
  destruct Hmg as [Ht _]. destruct (Ht k text Hk) as [Hd _].
  pose proof (merged_differs _ _ _ _ _ _ _ Hd Hfile Hne Hres) as Hdiff.
  assert (within (λ _, True) cap (MkResolutions ∅ [] [])) as HK by by split_and!.
  pose proof (writes_files _ env cap _ HK (MkRepo upstream upstream upstream)) as Hw. rewrite E in Hw.
  destruct Hw as [Hi Hh Ho _]. cbn in Hi, Hh, Ho.
  assert (k ∈ ps) as Hkps by (destruct (decide (k ∈ ps)); [done|rewrite Ho in Hwork by done; done]).
  unfold replay_changes, step_bind at 1. rewrite E. unfold step_bind, commit_step.
  destruct ps as [|p0 ps0] eqn:Eps; [by apply elem_of_nil in Hkps|]. rewrite <-Eps in *. cbn [is_empty].
  assert (is_empty ps = false) as -> by by rewrite Eps.
  unfold add_and_commit_as. destruct (ok_add _ H ps r1) as [r2 Ha].
  { apply Forall_forall. intros p Hp. by rewrite (lookup_path_exists _ _ (Hps p Hp)). }
  rewrite Ha. apply git_add_stages in Ha as [_ ->].
  destruct (ok_commit _ H (MkRepo (r_work r1) (sync_paths ps (r_work r1) (r_index r1)) (r_head r1))) as [r3 ->]; [|by do 2 eexists].
  cbn. rewrite Hi, Hh. intros Heq. apply (f_equal (lookup k)) in Heq. rewrite lookup_sync_paths in Heq.
  assert (in_paths ps k = true) as Hin by (apply existsb_exists; exists k; split; [by apply list_elem_of_In|apply below_refl]).
  rewrite Hin, Hwork in Heq. by symmetry in Heq.
Qed.

Lemma prepare_none (env : ReplayEnv) (work upstream base : tree) paths :
  Forall (λ p, is_quick_session_path p = false) paths →
  prepare_quick_session_resolutions env work upstream base paths = Ok (MkResolutions ∅ [] []).
Proof.
  intros H. unfold prepare_quick_session_resolutions.
  assert (List.filter is_quick_session_path paths = []) as ->; [|done].
  induction H as [|p paths Hp _ IH]; [done|]. simpl. by rewrite Hp.
Qed.

(** The additions that were captured, put after what the remote side has. *)
Lemma captured_messages_survive (env : ReplayEnv) (users : gset str) (local upstream base : tree) (cap : Captured) :
  diff_of local env → answers_ok env →
  capture env (MkRepo local local local) base = Some cap →
  Forall (λ p, is_resolvable p = true ∧ is_quick_session_path p = false) (cp_unpushed cap) →
  mergeable users (outside_sessions cap) upstream →
  (∃ k text file, cp_additions (outside_sessions cap) !! k = Some text ∧ parse_thread text = Ok file ∧ entries file ≠ []) →
  ∃ t mappings,
    resolve_conflict env upstream base (MkRepo local local local) = (MkRepo t t t, Some mappings)
    ∧ ∀ k text, cp_additions (outside_sessions cap) !! k = Some text →
        ∃ merged theirs ours moved,
          t !! k = Some merged
          ∧ parse_thread (default [] (upstream !! k)) = Ok theirs ∧ parse_thread text = Ok ours
          ∧ parse_thread merged = Ok (MkThreadFile (entries theirs ++ moved))
          ∧ Forall2 same_content (entries ours) moved ∧ log_wf users ∅ 1 (entries theirs ++ moved).
Proof.
  intros Hd Hok Hc Hu Hmg (k0 & text0 & file0 & Hk0 & Hfile & Hne).
  destruct (captured_apart env local _ base cap Hd Hc) as [Hap Hb].
  destruct (changes_ok env users (outside_sessions cap) upstream k0 text0 file0 Hok Hap Hmg Hb Hk0 Hfile Hne) as (r' & ms & Hch).
  assert (prepare_quick_session_resolutions env local upstream base (cp_unpushed cap) = Ok (MkResolutions ∅ [] [])) as Hq
    by by apply prepare_none; eapply Forall_impl; [exact Hu|intros ? [_ ?]].
  assert (resolve_conflict env upstream base (MkRepo local local local) = (r', Some ms)) as Hres.
  { unfold resolve_conflict. rewrite Hc. cbn [r_work r_head]. rewrite Hq.
    assert (existsb (λ p, negb (is_resolvable p)) (cp_unpushed (outside_sessions cap)) = false) as ->.
    { cbn. clear -Hu. induction Hu as [|p ps [Hp _] _ IH]; [done|]. simpl. by rewrite Hp. }
    rewrite (bool_decide_eq_false_2 (cp_additions (outside_sessions cap) = ∅)) by (intros He; by rewrite He in Hk0).
    cbn [andb]. unfold replay. rewrite (ok_discard _ Hok). cbn [negb]. rewrite reset_hard_clean. by rewrite Hch. }
  destruct (replay_changes_shape (known local upstream) env (outside_sessions cap) _ upstream r' (Some ms)
              (captured_within env local upstream base (MkRepo local local local) cap _ Hd eq_refl Hc Hq) Hch) as [_ (ps & Hf & Hr)].
  exists (r_work r'), ms. rewrite Hr in Hres. split; [exact Hres|]. intros k text Hk.
  pose proof (replay_files_Some _ _ _ _ _ _ _ Hap Hf k) as Hrep. unfold replayed in Hrep. cbn [qr_writes qr_removals r_work] in Hrep.
  rewrite lookup_empty in Hrep. destruct (decide _) as [Hin|_]; [by apply elem_of_nil in Hin|].
  destruct (cp_metas (outside_sessions cap) !! k) eqn:Em; [destruct (Hap k ltac:(by eexists)); congruence|].
  destruct (cp_boards (outside_sessions cap) !! k) eqn:Eb; [rewrite Hb in Hk; [done|by eexists]|].
  rewrite Hk in Hrep. destruct Hrep as (f & mp & Hres' & Hwork). destruct (proj1 Hmg k text Hk) as [Hdv _].
  destruct (resolve_file_clean users k text _ Hdv) as (content & ms' & f0 & f1 & g & l' & Hr' & H0 & H1 & Hg & He & Hs & Hl).
  rewrite Hres' in Hr'. injection Hr' as -> ->. destruct f1 as [es]. cbn in He. subst es.
  by exists content, f0, g, l'.
Qed.

Lemma changed_files_spec from to k : k ∈ changed_files from to ↔ from !! k ≠ to !! k.
Proof.
  unfold changed_files. rewrite list_elem_of_filter, elem_of_elements, elem_of_union, !elem_of_dom. split; [by intros [? _]|].
  intros H. split; [done|]. destruct (from !! k) eqn:E1; [by left; eexists|]. right. destruct (to !! k); [by eexists|done].
Qed.

(** The local commits appended entries to the thread [k] that the fetched side continued as
    well: the work tree has the log of the merge base with the entries after it, git's diff
    adds their lines, and the remote log starts with the log of the merge base, which the
    entries continue. *)
Record wrote_offline (users : gset str) (ds : list FileDiff) (base local upstream : tree) (k : str) (es : list ThreadEntry) : Prop := {
  wo_appended : appended ds k es;
  wo_local : local !! k = Some (default [] (base !! k) ++ concat (map render_entry es));
  wo_logs : ∃ b r, parse_thread (default [] (base !! k)) = Ok (MkThreadFile b)
    ∧ complete_file (default [] (upstream !! k)) ∧ parse_thread (default [] (upstream !! k)) = Ok (MkThreadFile (b ++ r))
    ∧ log_wf users ∅ 1 (b ++ r) ∧ log_wf users (log_lines b) (log_next 1 b) es
    ∧ N.of_nat (length b + length r + length es) + 1 < 2 ^ 64;
  wo_file : path_exists upstream k = true → is_Some (upstream !! k);
}.

Lemma offline_text_captured (env : ReplayEnv) users ds local upstream base cap k es :
  rp_diff env = Some (diff_text ds) → diff_ok ds → capture env (MkRepo local local local) base = Some cap →
  is_quick_session_path k = false → wrote_offline users ds base local upstream k es →
  ∃ text, cp_additions (outside_sessions cap) !! k = Some text ∧ parse_thread text = Ok (MkThreadFile es)
          ∧ diverged users text (default [] (upstream !! k)).
Proof.
  intros Hdiff Hds Hc Hq [Hap _ (b & r & _ & H1 & H2 & H3 & H4 & H5) _].
  destruct (appended_text ds k es Hds Hap) as (text & Hl & Ht). destruct Hap as [Hp Hne _ _].
  pose proof (added_entries_parse es text Hp Ht) as Hparse. exists text. split_and!; [|done|by exists b, r, es].
  apply map_lookup_filter_Some. split; [|done]. unfold capture in Hc. rewrite Hdiff in Hc. cbn [mbind option_bind] in Hc.
  destruct (negb _); [done|]. by injection Hc as <-.
Qed.

Lemma offline_path_changed users ds base local upstream k es :
  wrote_offline users ds base local upstream k es → k ∈ changed_files base local.
Proof.
  intros [[Hp Hne _ _] Hl _ _]. apply changed_files_spec. rewrite Hl. destruct (base !! k) as [t|] eqn:E; [|done]. cbn.
  intros [= Heq]. apply (f_equal length) in Heq. rewrite length_app in Heq.
  destruct (rendered_text es Hp Hne) as (text & Ht & _). rewrite <-Ht, length_app in Heq. simpl in Heq. lia.
Qed.

(** C18: messages written on both sides of a conflict all survive.  Let the local commits
    touch only threads, metadata and boards outside quick sessions; let every thread among
    them have the log of the merge base with new entries after it, continue a log that the
    remote side continued as well, and let git's diff print the lines of these entries,
    none of which starts with two plus signs or holds a carriage return; let metadata be
    mergeable and the commands succeed.  Then the conflict is resolved in one pass: each
    such thread is the remote entries followed by the local ones, with their authors, times
    and texts in the order they were written, and is a well-formed log.  (A line that does
    start with two plus signs is dropped by [parse_diff_output], and lost here:
    [plus_line_lost_in_replay].) *)
Theorem conflicting_messages_survive (env : ReplayEnv) (users : gset str) (ds : list FileDiff)
    (local upstream base : tree) (cap : Captured) :
  diff_of local env → answers_ok env → rp_diff env = Some (diff_text ds) → diff_ok ds →
  capture env (MkRepo local local local) base = Some cap →
  Forall (λ p, is_resolvable p = true ∧ is_quick_session_path p = false) (changed_files base local) →
  (∀ k, is_Some (parse_diff_output (diff_text ds) !! k) → ∃ es, wrote_offline users ds base local upstream k es) →
  (∀ k text, cp_metas cap !! k = Some text → is_Some (meta_text k text (upstream !! k))) →
  (∃ k es, wrote_offline users ds base local upstream k es) →
  ∃ t mappings,
    resolve_conflict env upstream base (MkRepo local local local) = (MkRepo t t t, Some mappings)
    ∧ ∀ k es, wrote_offline users ds base local upstream k es →
        ∃ merged theirs moved,
          t !! k = Some merged
          ∧ parse_thread (default [] (upstream !! k)) = Ok theirs
          ∧ parse_thread merged = Ok (MkThreadFile (entries theirs ++ moved))
          ∧ Forall2 same_content es moved ∧ log_wf users ∅ 1 (entries theirs ++ moved).
Proof.
  intros Hd Hok Hdiff Hds Hc Hu Hthreads Hmetas (k0 & es0 & Hk0).
  assert (∀ k es, wrote_offline users ds base local upstream k es → is_quick_session_path k = false) as Hq.
  { intros k es Hk%offline_path_changed. rewrite Forall_forall in Hu. by destruct (Hu k Hk). }
  assert (cp_unpushed cap = changed_files base local ∧ cp_additions cap = parse_diff_output (diff_text ds)) as [Hun Hadd].
  { unfold capture in Hc. rewrite Hdiff in Hc. cbn [mbind option_bind] in Hc. destruct (negb _); [done|]. by injection Hc as <-. }
  assert (mergeable users (outside_sessions cap) upstream) as Hmg.
  { split.
    - intros k text [Hk Hkq]%map_lookup_filter_Some. rewrite Hadd in Hk. destruct (Hthreads k ltac:(by eexists)) as (es & He).
      destruct (offline_text_captured _ _ _ _ _ _ _ _ _ Hdiff Hds Hc Hkq He) as (text' & Ht & _ & Hdv).
      apply map_lookup_filter_Some in Ht as [Ht _]. rewrite Hadd in Ht. pose proof (eq_trans (eq_sym Hk) Ht) as [= <-].
      split; [done|exact (wo_file _ _ _ _ _ _ _ He)].
    - intros k text [Hk _]%map_lookup_filter_Some. by apply Hmetas. }
  destruct (offline_text_captured _ _ _ _ _ _ _ _ _ Hdiff Hds Hc (Hq _ _ Hk0) Hk0) as (text0 & Ht0 & Hp0 & _).
  destruct (captured_messages_survive env users local upstream base cap Hd Hok Hc ltac:(by rewrite Hun) Hmg) as (t & ms & Hres & Hall).
  { exists k0, text0, (MkThreadFile es0). split_and!; [done|done|]. by destruct Hk0 as [[]]. }
  exists t, ms. split; [done|]. intros k es Hk.
  destruct (offline_text_captured _ _ _ _ _ _ _ _ _ Hdiff Hds Hc (Hq _ _ Hk) Hk) as (text & Ht & Hp & _).
  destruct (Hall k text Ht) as (merged & theirs & ours & moved & H1 & H2 & H3 & H4 & H5 & H6).
  exists merged, theirs, moved. rewrite Hp in H3. injection H3 as <-. done.
Qed.

(** ** Conflicts that are not resolved *)

Lemma read_changed_in (env : ReplayEnv) t paths k text :
  k ∈ paths → rp_read_ok env k = true → t !! k = Some text → read_changed env t paths !! k = Some text.
Proof.
  intros Hin Hr Ht. unfold read_changed. set (l := omap _ _).
  assert ((k, text) ∈ l) as Hl by (apply list_elem_of_omap; exists k; split; [done|]; by rewrite Hr, Ht).
  destruct (list_to_map l !! k) as [text'|] eqn:E.
  - apply elem_of_list_to_map_2, list_elem_of_omap in E as (q & _ & E).
    destruct (rp_read_ok env q); [|done]. destruct (t !! q) eqn:Eq; simplify_option_eq. congruence.
  - apply not_elem_of_list_to_map in E. exfalso. apply E, list_elem_of_fmap. by exists (k, text).
Qed.

Lemma channel_meta_kind k :
  is_channel_meta_path k = true → matches_meta k = true ∧ is_quick_session_path k = false.
Proof.
  unfold is_channel_meta_path, matches_meta. destruct (strip_prefix _ k) as [name|] eqn:E; [|done].
  apply strip_prefix_Some in E as ->. intros [[_ H]%andb_true_iff _]%andb_true_iff. split; [|done].
  apply ends_with_true in H as [q ->]. apply ends_with_true. exists (lit "channels/" ++ q). by rewrite <-app_assoc.
Qed.

(** A channel created locally is never replayed: its metadata is merged with a remote text
    that does not exist, so the branch gives up whatever else was changed. *)
Lemma new_channel_never_resolved (env : ReplayEnv) (local upstream base : tree) (k text : str) :
  diff_of local env → rp_list_metas_ok env = true → rp_read_ok env k = true →
  is_channel_meta_path k = true → base !! k = None → local !! k = Some text → upstream !! k = None →
  (resolve_conflict env upstream base (MkRepo local local local)).2 = None.
Proof.
  intros Hd Hlist Hread Hk Hbase Hlocal Hup. destruct (channel_meta_kind k Hk) as [Hm Hq].
  destruct (resolve_conflict _ _ _ _) as [r' [mappings|]] eqn:E; [|done]. exfalso.
  apply resolve_conflict_cases in E as [[_ [=]]|(cap & quick & r1 & out1 & Hc & Hp & HK & Hch & H)]; [|done].
  destruct out1 as [ms|]; [|by destruct H].
  apply replay_changes_shape with (1 := HK) in Hch as [_ (ps & Hf & _)].
  pose proof (replay_files_Some _ _ _ _ _ _ _ (proj1 (captured_apart _ _ _ _ _ Hd Hc)) Hf k) as Hrep.
  destruct (prepare_spec _ _ _ _ _ _ Hp) as [_ Hquick]. unfold replayed in Hrep.
  destruct (qr_writes quick !! k) eqn:Ew; [rewrite Hquick in Hq; [done|left; by eexists]|].
  destruct (decide _); [rewrite Hquick in Hq; [done|by right]|].
  assert (cp_metas (outside_sessions cap) !! k = Some text) as Hmeta.
  { apply map_lookup_filter_Some. split; [|done]. unfold capture in Hc. destruct (rp_diff env); [|done]. cbn in Hc.
    destruct (negb _); [done|]. injection Hc as <-. cbn. rewrite Hlist. apply read_changed_in; [|done..].
    apply list_elem_of_In, filter_In. split; [|done]. apply list_elem_of_In, changed_files_spec. congruence. }
  rewrite Hmeta in Hrep. destruct Hrep as [[v Hv] Heq]. unfold meta_text in Heq. rewrite Hk, Hup in Heq. cbn in Heq, Hv. congruence.
Qed.

(** A merge that gives the remote side is never committed, as git makes no empty commit:
    the local commits come back and the next cycle meets the same conflict. *)
Lemma resolved_conflict_changes (env : ReplayEnv) (local upstream base : tree) (r' : Repo) mappings :
  diff_of local env → (∀ g r, r_index r = r_head r → git_commit g r = None) →
  resolve_conflict env upstream base (MkRepo local local local) = (r', Some mappings) →
  r_head r' ≠ upstream.
Proof.
  intros Hd Hempty E Hsame.
  apply resolve_conflict_cases in E as [[_ [=]]|(cap & quick & r1 & out1 & Hc & Hp & HK & Hch & H)]; [|done].
  destruct out1 as [ms|]; [|by destruct H]. destruct H as [-> _].
  pose proof Hch as Hch'. apply replay_changes_shape with (1 := HK) in Hch' as [_ (ps & Hf & Hr)].
  unfold replay_changes, step_bind at 1 in Hch. rewrite Hf in Hch. unfold step_bind, commit_step in Hch.
  destruct (is_empty ps); [done|]. unfold add_and_commit_as in Hch.
  destruct (git_add _ ps _) as [r2|] eqn:Ea; [|done]. apply git_add_stages in Ea as [_ ->].
  destruct (git_commit _ _) as [r3|] eqn:Ecm; [|done]. pose proof (git_commit_records _ _ _ Ecm) as ->.
  apply (f_equal (λ x, r_head x.1)) in Hch. cbn in Hch. rewrite Hempty in Ecm; [done|]. cbn. congruence.
Qed.

End replay.

(** ** Witnesses *)

Section runs.
#[local] Existing Instance ascii_unicode.
#[local] Existing Instance std_percent_encoding.
#[local] Existing Instance keyword_json.
#[local] Existing Instance channel_meta_yaml.
#[local] Existing Instance session_meta_yaml.
#[local] Existing Instance plain_git.

(** One channel: two messages written offline, one message and a member on the remote side. *)
Definition run_meta : str := lit "channels/ops.meta.yaml".
Definition ops_meta_yaml (members : list str) : str := default [] (yaml_to_string (meta_of members)).

Definition ex_base : tree := <[run_path := sample_file]> {[run_meta := ops_meta_yaml [lit "alice"]]}.
Definition ex_local : tree :=
  <[run_path := sample_file ++ offline_text]> {[run_meta := ops_meta_yaml [lit "alice"; lit "bob"]]}.
Definition ex_upstream : tree := <[run_path := remote_text]> {[run_meta := ops_meta_yaml [lit "alice"; lit "carol"]]}.

Definition offline_diff : list FileDiff :=
  [MkFileDiff [lit "diff --git a/channels/ops.thread b/channels/ops.thread"; lit "index 1111111..2222222 100644"]
     (Some (MkPatch (Some run_path) (Some run_path) [MkHunk (lit "-2,0 +3,2 @@") (map Added (lines offline_text))]))].

Definition replay_env (commit : PlainEnv) : ReplayEnv :=
  MkReplayEnv (Some (diff_text offline_diff)) true true true (λ _, true) (λ _, true) (λ _, true) true true
    (λ _, true) (λ _, true) (λ _, true) (works, commit).

Definition offline_addition : str := join [nl] (lines offline_text).

Lemma offline_diff_parsed : parse_diff_output (diff_text offline_diff) = {[run_path := offline_addition]}.
Proof. apply (bool_decide_unpack _). by vm_compute. Qed.

Lemma replay_env_diff commit : diff_of ex_local (replay_env commit).
Proof.
  intros stdout k [= <-]. rewrite offline_diff_parsed. intros [v [<- _]%lookup_singleton_Some]. split; [|by vm_compute].
  exists (sample_file ++ offline_text). by vm_compute.
Qed.

Lemma failed_replay_restores_witness :
  (resolve_conflict (replay_env breaks) ex_upstream ex_base (MkRepo ex_local ex_local ex_local)).1
  = MkRepo ex_local ex_local ex_local.
Proof.
  destruct (resolve_conflict _ _ _ _) as [r' out] eqn:E.
  assert (out = None) as -> by (apply (f_equal snd) in E; vm_compute in E; by symmetry).
  exact (failed_replay_restores (replay_env breaks) ex_local ex_upstream ex_base r' (replay_env_diff breaks) eq_refl E).
Defined.

Definition ex_captured : Captured :=
  MkCaptured {[run_path := offline_addition]} {[run_meta := ops_meta_yaml [lit "alice"; lit "bob"]]} ∅ (changed_files ex_base ex_local).

Lemma ex_capture commit : capture (replay_env commit) (MkRepo ex_local ex_local ex_local) ex_base = Some ex_captured.
Proof.
  unfold capture, replay_env, ex_captured. cbn [rp_diff mbind option_bind rp_list_all_ok negb r_work r_head].
  rewrite offline_diff_parsed. vm_compute. reflexivity.
Qed.

Definition ex_resolved : tree :=
  (resolve_conflict (replay_env works) ex_upstream ex_base (MkRepo ex_local ex_local ex_local)).1.(r_head).

(** Both members are kept, and the offline messages follow the remote one. *)
Example ex_resolved_files :
  (ex_resolved !! run_meta, ex_resolved !! run_path)
  = (Some (ops_meta_yaml [lit "alice"; lit "bob"; lit "carol"]),
     Some (remote_text ++ lit "[L000004][P000001][@bob][20260101T000200Z] one
[L000005][P000004][@bob][20260101T000200Z] two
")).
Proof. by vm_compute. Qed.

Lemma resolved_conflict_exact_witness :
  ∃ t cap quick, r_head (resolve_conflict (replay_env works) ex_upstream ex_base (MkRepo ex_local ex_local ex_local)).1 = t
    ∧ replayed (outside_sessions cap) quick ex_upstream run_path (t !! run_path).
Proof.
  destruct (resolve_conflict (replay_env works) ex_upstream ex_base (MkRepo ex_local ex_local ex_local)) as [r' [ms|]] eqn:E.
  - destruct (resolved_conflict_exact (replay_env works) ex_local ex_upstream ex_base r' ms (replay_env_diff works) E)
      as (t & cap & quick & -> & _ & _ & H).
    exists t, cap, quick. split; [reflexivity|exact (H run_path)].
  - apply (f_equal snd) in E. vm_compute in E. discriminate E.
Defined.

Lemma offline_addition_parsed : parse_thread offline_addition = Ok (MkThreadFile offline_batch).
Proof. vm_compute. reflexivity. Qed.

Lemma offline_diff_ok : diff_ok offline_diff.
Proof.
  split.
  - repeat constructor; by apply (bool_decide_unpack _).
  - by repeat constructor.
  - constructor; [|constructor]. intros p [= <-]. split; [done|]. by repeat constructor.
Qed.

Lemma ex_wrote_offline : wrote_offline (list_to_set run_users) offline_diff ex_base ex_local ex_upstream run_path offline_batch.
Proof.
  split.
  - split; [apply offline_batch_printable|done|by vm_compute|by repeat constructor].
  - by vm_compute.
  - replace (default [] (ex_upstream !! run_path)) with remote_text by by vm_compute.
    replace (default [] (ex_base !! run_path)) with sample_file by by vm_compute.
    destruct run_logs as (r & H1 & H2 & H3 & H4 & H5). exists (parsed sample_file), r. by split_and!; [exact sample_file_parsed|..].
  - intros _. exists remote_text. by vm_compute.
Qed.

Lemma conflicting_messages_survive_witness :
  ∃ t mappings,
    resolve_conflict (replay_env works) ex_upstream ex_base (MkRepo ex_local ex_local ex_local) = (MkRepo t t t, Some mappings)
    ∧ ∃ merged theirs moved, t !! run_path = Some merged
        ∧ parse_thread merged = Ok (MkThreadFile (entries theirs ++ moved)) ∧ Forall2 same_content offline_batch moved.
Proof.
  destruct (conflicting_messages_survive (replay_env works) (list_to_set run_users) offline_diff ex_local ex_upstream ex_base ex_captured
              (replay_env_diff works)) as (t & ms & Hr & Hk).
  - constructor; try reflexivity.
    + intros ps r Hps. cbn. unfold plain_add. rewrite (proj2 (forallb_Forall _ _)) by exact Hps. by eexists.
    + intros r _. by eexists.
  - reflexivity.
  - exact offline_diff_ok.
  - apply ex_capture.
  - apply (bool_decide_unpack _). vm_compute. exact I.
  - intros k [v Hv]. rewrite offline_diff_parsed in Hv. apply lookup_singleton_Some in Hv as [<- _].
    exists offline_batch. exact ex_wrote_offline.
  - intros k text Hk. cbn in Hk. apply lookup_singleton_Some in Hk as [<- <-].
    exists (ops_meta_yaml [lit "alice"; lit "bob"; lit "carol"]). by vm_compute.
  - exists run_path, offline_batch. exact ex_wrote_offline.
  - exists t, ms. split; [exact Hr|]. destruct (Hk run_path offline_batch ex_wrote_offline) as (merged & theirs & moved & H1 & _ & H4 & H5 & _).
    exists merged, theirs, moved. split_and!; [exact H1|exact H4|exact H5].
Defined.

(** A message with a line that starts with two plus signs, written offline: after the
    replay it is there without that line. *)
Example plus_line_lost_in_replay :
  let message := lit "[L000003][P000001][@bob][20260101T000200Z] one" in
  let added := [message; lit "++counter;"; lit "two"] in
  let local : tree := <[run_path := sample_file ++ flat_map (λ l, l ++ [nl]) added]> ex_base in
  let upstream : tree := <[run_path := remote_text]> ex_base in
  let diff := [MkFileDiff [lit "diff --git a/channels/ops.thread b/channels/ops.thread"]
                 (Some (MkPatch (Some run_path) (Some run_path) [MkHunk (lit "-2,0 +3,3 @@") (map Added added)]))] in
  let env := MkReplayEnv (Some (diff_text diff)) true true true (λ _, true) (λ _, true) (λ _, true) true true
               (λ _, true) (λ _, true) (λ _, true) (works, works) in
  r_head (resolve_conflict env upstream ex_base (MkRepo local local local)).1 !! run_path
  = Some (remote_text ++ lit "[L000004][P000001][@bob][20260101T000200Z] one
two
").
Proof. by vm_compute. Qed.

(** With a channel created offline beside them, the same messages are not replayed. *)
Example new_channel_blocks :
  let local : tree := <[lit "channels/dev.meta.yaml" := ops_meta_yaml [lit "bob"]]> ex_local in
  let '(r', out) := resolve_conflict (replay_env works) ex_upstream ex_base (MkRepo local local local) in
  bool_decide (r_head r' = local) && negb (is_some out) = true.
Proof. by vm_compute. Qed.

End runs.
