(* ===== verification/SyncLoop.v ===== *)
(** * The sync loop

    The cycle of [gitim-sync/src/sync_loop.rs] that pushes local commits and fetches
    remote ones: the auth circuit breaker, the push path with its fences and retries, the
    pull path, and the delay before the next cycle.

    A cycle is a program that asks its world, the clone, the remote and the clock, for
    one operation after another; a world answers each of them as it likes, so what is
    proved of a cycle holds whatever git, the network and other clones do.  The operations
    are those of [GitStorage], of the fetch cache, the epoch fence, and the replay of
    [SyncReplay] for a rebase that stopped at a conflict. *)

From S2P Require Import Prelude Prog RustStr GitText Conflict.
From S2P Require Import FetchCache.
From stdpp Require Import options.
Open Scope N_scope.
Open Scope list_scope.

(** ** Outcomes *)

Inductive SyncOutcome := Normal | OutRateLimited | AuthCircuitOpen | RebaseFailed.

Record CacheAwareCycleResult := MkCycleResult {
  outcome : SyncOutcome;
  cache_neutral : option CacheNeutralHint;
}.

Definition regular (o : SyncOutcome) : CacheAwareCycleResult := MkCycleResult o None.
Definition neutral (hint : CacheNeutralHint) : CacheAwareCycleResult := MkCycleResult Normal (Some hint).


(** [Result<(), GitError>]: [None] is [Ok(())]. *)
Definition GitResult : Type := option GitError.

(** ** Programs *)

(** What a cycle asks of its world.  [EpochFence] is [epoch_fence_and_follow], true where
    the cycle must not push; [CaptureLocal] stands for the snapshot of the local changes
    and [ReplayConflict] for the replay up to its commit. *)
Inductive Op : Type → Type :=
  | Now : Op N
  | HasStaleRebase : Op bool
  | RecoverStaleRebase : Op GitResult
  | HasUnpushed : Op (bool + GitError)
  | EpochFence : Op bool
  | Push : Op GitResult
  | Fetch : Op GitResult
  | FetchForPull : Op PullFetchResult
  | DivergenceFromUpstream : Op (option (N * N))
  | DiscardUnpushed : Op GitResult
  | RevParseHead : Op (option str)
  | RevParseUpstream : Op (option str)
  | CaptureLocal : Op bool
  | RebaseOntoOrigin : Op GitResult
  | AbortRebase : Op GitResult
  | ReplayConflict : Op (option (list RenumberMapping))
  | OnPushed (pushed included : str) : Op unit
  | OnRenumbered (mapping : RenumberMapping) : Op unit
  | OnSynced (head : str) : Op unit
  | OnCycleDone : Op unit
  | Sleep (ms : N) : Op unit.

Local Notation Prog := (Prog.Prog Op).
Local Notation Event := (Prog.Event Op).
Local Notation World := (Prog.World Op).

(** ** The auth circuit *)

Definition AUTH_FAILURE_TRIP_THRESHOLD : N := 3.
Definition AUTH_PROBE_INTERVAL : N := 300000.

(** Times are milliseconds. *)
Record AuthCircuit := MkAuthCircuit {
  tripped : bool;
  consecutive_failures : N;
  tripped_at : option N;
}.

Definition new_circuit (flag : bool) : AuthCircuit := MkAuthCircuit flag 0 None.

Definition saturating_succ (n : N) : N := N.min (n + 1) (2 ^ 32 - 1).

(** [AuthCircuit::record]; the returned flag, which only steers a log line, is left out. *)
Definition record (c : AuthCircuit) (result : GitResult) : Prog AuthCircuit :=
  match result with
  | None => Ret (MkAuthCircuit false 0 None)
  | Some (AuthFailed _) =>
      let failures := saturating_succ (consecutive_failures c) in
      if (AUTH_FAILURE_TRIP_THRESHOLD <=? failures) && negb (tripped c)
      then ask! now := Now in Ret (MkAuthCircuit true failures (Some now))
      else Ret (MkAuthCircuit (tripped c) failures (tripped_at c))
  | Some _ => Ret c
  end.

Definition should_attempt_probe (c : AuthCircuit) (now : N) : bool :=
  tripped c && match tripped_at c with
               | Some at_ => AUTH_PROBE_INTERVAL <=? now - at_
               | None => true
               end.

Definition mark_probe (c : AuthCircuit) (now : N) : AuthCircuit :=
  MkAuthCircuit (tripped c) (consecutive_failures c) (Some now).

Definition observe_auth (c : AuthCircuit) (result : GitResult) : Prog AuthCircuit := record c result.

(** ** The push path *)

Definition MAX_SYNC_RETRIES : nat := 3.
Definition MAX_BEHIND_BEFORE_HARD_RESET : N := 32.

Definition skip_for_remote_slot (e : GitError) : bool :=
  match e with
  | RemoteSlotBusy | RemoteSlotUnavailable _ => true
  | _ => false
  end.

Definition remote_slot_skip_cycle : CacheAwareCycleResult := neutral PreserveSchedule.

(** An auth failure ends the cycle; the outcome tells whether the circuit is open now. *)
Definition auth_outcome (c : AuthCircuit) : CacheAwareCycleResult :=
  regular (if tripped c then AuthCircuitOpen else Normal).

(** How the errors that end a cycle are answered; [None] for the others. *)
Definition ends_cycle (c : AuthCircuit) (e : GitError) : option CacheAwareCycleResult :=
  match e with
  | RateLimited => Some (regular OutRateLimited)
  | AuthFailed _ => Some (auth_outcome c)
  | _ => if skip_for_remote_slot e then Some remote_slot_skip_cycle else None
  end.

Definition enforce_divergence_threshold (threshold : N) : Prog bool :=
  ask! d := DivergenceFromUpstream in
  match d with
  | None => Ret false
  | Some (behind, _) =>
      if behind <? threshold then Ret false
      else ask! r := DiscardUnpushed in Ret (negb (is_some r))
  end.

Definition enforce_max_divergence : Prog bool := enforce_divergence_threshold MAX_BEHIND_BEFORE_HARD_RESET.

(** The state of the push path between two attempts, or its end. *)
Inductive Attempt :=
  | Return (c : AuthCircuit) (r : CacheAwareCycleResult)
  | Continue (c : AuthCircuit) (included_head_before_rewrite : option str).

(** A push that succeeded is reported with the head it published. *)
Definition report_push (c : AuthCircuit) (included : option str) : Prog Attempt :=
  ask! pushed := RevParseUpstream in
  match pushed with
  | None => Ret (Return c (regular Normal))
  | Some head => tell! OnPushed head (unwrap_or included head) then Ret (Return c (regular Normal))
  end.

(** The push after a rebase or a replay: what it cannot settle is tried again later. *)
Definition push_rewritten (attempt : N) (c : AuthCircuit) (included : option str) : Prog Attempt :=
  ask! result := Push in
  run! c := observe_auth c result in
  match result with
  | None => report_push c included
  | Some e =>
      match ends_cycle c e with
      | Some r => Ret (Return c r)
      | None => tell! Sleep (200 * 2 ^ attempt) then Ret (Continue c included)
      end
  end.

Fixpoint each_mapping (l : list RenumberMapping) {A} (p : Prog A) : Prog A :=
  match l with
  | [] => p
  | m :: l' => tell! OnRenumbered m then each_mapping l' p
  end.

(** Bringing the local commits onto the fetched branch, by a rebase or by replaying them,
    and publishing them. *)
Definition rebase_and_push (attempt : N) (c : AuthCircuit) (included : option str) : Prog Attempt :=
  ask! head := RevParseHead in
  match head with
  | None => Ret (Return c (regular Normal))
  | Some local_head_before_rebase =>
      ask! captured := CaptureLocal in
      if negb captured then Ret (Return c (regular Normal)) else
      ask! rebased := RebaseOntoOrigin in
      let included' := Some (unwrap_or included local_head_before_rebase) in
      match rebased with
      | None =>
          ask! fenced := EpochFence in
          if (fenced : bool) then Ret (Return c (regular Normal))
          else push_rewritten attempt c included'
      | Some _ =>
          ask! aborted := AbortRebase in
          if is_some aborted then Ret (Return c (regular Normal)) else
          ask! replayed := ReplayConflict in
          match replayed with
          | None => Ret (Return c (regular Normal))
          | Some mappings => each_mapping mappings (push_rewritten attempt c included')
          end
      end
  end.

(** The remote side has moved on: fetch it, unless the branch is sealed or too far ahead. *)
Definition fetch_and_rebase (attempt : N) (c : AuthCircuit) (included : option str) : Prog Attempt :=
  ask! fetch_result := Fetch in
  run! c := observe_auth c fetch_result in
  match fetch_result with
  | Some e => Ret (Return c (unwrap_or (ends_cycle c e) (regular Normal)))
  | None =>
      ask! fenced := EpochFence in
      if (fenced : bool) then Ret (Return c (regular Normal)) else
      run! reset := enforce_max_divergence in
      if (reset : bool) then Ret (Return c (regular Normal))
      else rebase_and_push attempt c included
  end.

Definition sync_attempt (attempt : N) (c : AuthCircuit) (included : option str) : Prog Attempt :=
  ask! push_result := Push in
  run! c := observe_auth c push_result in
  match push_result with
  | None => report_push c included
  | Some e =>
      match ends_cycle c e, e with
      | Some r, _ => Ret (Return c r)
      | None, PushConflict => fetch_and_rebase attempt c included
      | None, _ => Ret (Return c (regular Normal))
      end
  end.

(** [for attempt in 1..=MAX_SYNC_RETRIES]. *)
Fixpoint sync_attempts (n : nat) (attempt : N) (c : AuthCircuit) (included : option str)
  : Prog (AuthCircuit * CacheAwareCycleResult) :=
  match n with
  | O => Ret (c, regular Normal)
  | S n' =>
      run! a := sync_attempt attempt c included in
      match a with
      | Return c r => Ret (c, r)
      | Continue c included => sync_attempts n' (attempt + 1) c included
      end
  end.

Definition sync_with_push (c : AuthCircuit) : Prog (AuthCircuit * CacheAwareCycleResult) :=
  ask! fenced := EpochFence in
  if (fenced : bool) then Ret (c, regular Normal)
  else sync_attempts MAX_SYNC_RETRIES 1 c None.

(** ** The pull path *)

(** [cached] is whether the fetch goes through the cache. *)
Definition pull_fetch (cached : bool) : Prog PullFetchResult :=
  if cached then ask! r := FetchForPull in Ret r
  else ask! r := Fetch in Ret match r with None => Ready | Some e => RemoteError e end.

Definition pull_rebase (c : AuthCircuit) : Prog (AuthCircuit * CacheAwareCycleResult) :=
  run! reset := enforce_max_divergence in
  if (reset : bool) then Ret (c, regular Normal) else
  ask! rebased := RebaseOntoOrigin in
  match rebased with
  | None => Ret (c, regular Normal)
  | Some _ => ask! _ := AbortRebase in Ret (c, regular RebaseFailed)
  end.

Definition sync_pull_only (cached : bool) (c : AuthCircuit) : Prog (AuthCircuit * CacheAwareCycleResult) :=
  run! fetch_result := pull_fetch cached in
  match fetch_result with
  | NeutralSkip hint => Ret (c, neutral hint)
  | Ready => run! c := observe_auth c None in pull_rebase c
  | RemoteError error =>
      run! c := observe_auth c (Some error) in
      Ret (c, unwrap_or (ends_cycle c error) (regular Normal))
  end.

(** ** The cycle *)

Definition end_cycle (c : AuthCircuit) (r : CacheAwareCycleResult) : Prog (AuthCircuit * CacheAwareCycleResult) :=
  tell! OnCycleDone then Ret (c, r).

(** The half-open probe: [None] where the cycle only idles. *)
Definition begin_probe (c : AuthCircuit) : Prog (option AuthCircuit) :=
  if negb (tripped c) then Ret (Some c)
  else ask! now := Now in
       if negb (should_attempt_probe c now) then Ret None
       else ask! now := Now in Ret (Some (mark_probe c now)).

Definition recover_stale : Prog bool :=
  ask! stale := HasStaleRebase in
  if negb stale then Ret true
  else ask! r := RecoverStaleRebase in Ret (negb (is_some r)).

(** Whether there are unpushed commits, after one attempt to reattach a detached head. *)
Definition check_unpushed : Prog (option bool) :=
  ask! has_unpushed := HasUnpushed in
  match has_unpushed with
  | inl v => Ret (Some v)
  | inr DetachedHead =>
      ask! r := RecoverStaleRebase in
      if is_some r then Ret None
      else ask! again := HasUnpushed in Ret match again with inl v => Some v | inr _ => None end
  | inr _ => Ret None
  end.

(** The end of a cycle that reached the remote: a neutral one leaves the probe due. *)
Definition conclude (c0 : AuthCircuit) (result : AuthCircuit * CacheAwareCycleResult) : Prog (AuthCircuit * CacheAwareCycleResult) :=
  let '(c, r) := result in
  let c := if is_some (cache_neutral r)
           then MkAuthCircuit (tripped c) (consecutive_failures c) (tripped_at c0) else c in
  ask! head := RevParseHead in
  match head with
  | Some h => tell! OnSynced h then end_cycle c r
  | None => end_cycle c r
  end.

(** The cycle of a circuit that was [c0] and is [c] after the probe was marked. *)
Definition cycle_body (cached : bool) (c0 c : AuthCircuit) : Prog (AuthCircuit * CacheAwareCycleResult) :=
  run! usable := recover_stale in
  if negb usable then end_cycle c (regular Normal) else
  run! has_unpushed := check_unpushed in
  match has_unpushed with
  | None => end_cycle c (regular Normal)
  | Some b =>
      run! result := (if (b : bool) then sync_with_push c else sync_pull_only cached c) in
      conclude c0 result
  end.

Definition run_sync_cycle_with_cache (cached : bool) (c0 : AuthCircuit) : Prog (AuthCircuit * CacheAwareCycleResult) :=
  run! probe := begin_probe c0 in
  match probe with
  | None => end_cycle c0 (regular AuthCircuitOpen)
  | Some c => cycle_body cached c0 c
  end.

(** ** The loop *)

Definition CACHE_CONTENTION_RETRY_DELAY : N := 100.
Definition REBASE_BACKOFF_THRESHOLD : N := 3.
Definition REBASE_MAX_BACKOFF_SECS : N := 120.

Definition schedule_after_cache_neutral (hint : option CacheNeutralHint) (rate_limits rebase_failures : N)
  : option (option N * N * N) :=
  match hint with
  | None => None
  | Some PreserveSchedule => Some (None, rate_limits, rebase_failures)
  | Some RetryContention => Some (Some CACHE_CONTENTION_RETRY_DELAY, rate_limits, rebase_failures)
  end.

Record LoopState := MkLoopState {
  next_delay : N;
  cache_retry_delay : option N;
  consecutive_rate_limits : N;
  consecutive_rebase_failures : N;
  circuit : AuthCircuit;
}.

Definition base_ms (interval_secs : N) : N := interval_secs * 1000.

Definition start_loop (interval_secs : N) (auth_failed : bool) : LoopState :=
  MkLoopState (base_ms interval_secs) None 0 0 (new_circuit auth_failed).

(** How long the loop sleeps, and whether a push notification may end the sleep. *)
Definition cycle_wait (ls : LoopState) : N * bool :=
  (unwrap_or (cache_retry_delay ls) (next_delay ls),
   negb (is_some (cache_retry_delay ls) || (0 <? consecutive_rate_limits ls) || tripped (circuit ls))).

(** [2u64.saturating_pow(k)], and a [u64] product, which wraps. *)
Definition pow2_saturating (k : N) : N := N.min (2 ^ k) (2 ^ 64 - 1).
Definition mul_u64 (a b : N) : N := (a * b) mod 2 ^ 64.

Definition rate_limit_backoff (interval_secs rate_limits : N) : N :=
  N.min (mul_u64 (base_ms interval_secs) (2 ^ N.min rate_limits 5)) 120000.

Definition rebase_backoff (interval_secs rebase_failures : N) : N :=
  if REBASE_BACKOFF_THRESHOLD <=? rebase_failures
  then N.min (mul_u64 (base_ms interval_secs / 1000) (pow2_saturating (rebase_failures - REBASE_BACKOFF_THRESHOLD)))
         REBASE_MAX_BACKOFF_SECS * 1000
  else base_ms interval_secs.

(** The end of one turn of the loop; [rng n] is [random_range(0..n)]. *)
Definition after_cycle (interval_secs : N) (rng : N → N) (ls : LoopState) (c : AuthCircuit) (r : CacheAwareCycleResult)
  : LoopState :=
  match schedule_after_cache_neutral (cache_neutral r) (consecutive_rate_limits ls) (consecutive_rebase_failures ls) with
  | Some (retry, rate_limits, rebase_failures) => MkLoopState (next_delay ls) retry rate_limits rebase_failures c
  | None =>
      let base := base_ms interval_secs in
      match outcome r with
      | Normal =>
          let jitter_range := base / 3 in
          MkLoopState (base + (if 0 <? jitter_range then rng jitter_range else 0)) None 0 0 c
      | OutRateLimited =>
          let n := saturating_succ (consecutive_rate_limits ls) in
          let capped := rate_limit_backoff interval_secs n in
          MkLoopState (capped + rng (capped / 3 + 1)) None n (consecutive_rebase_failures ls) c
      | AuthCircuitOpen => MkLoopState base None (consecutive_rate_limits ls) (consecutive_rebase_failures ls) c
      | RebaseFailed =>
          let n := saturating_succ (consecutive_rebase_failures ls) in
          MkLoopState (rebase_backoff interval_secs n) None (consecutive_rate_limits ls) n c
      end
  end.

(** One turn: the circuit before and after it, what it did, and the state it leaves. *)
Record Turn := MkTurn {
  turn_before : AuthCircuit;
  turn_trace : list Event;
  turn_after : AuthCircuit;
  turn_result : CacheAwareCycleResult;
}.

Fixpoint sync_loop {S} (world : World S) (interval_secs : N) (rng : nat → N → N) (n : nat) (ls : LoopState) (s : S)
  : S * list Turn * LoopState :=
  match n with
  | O => (s, [], ls)
  | S n' =>
      let '(s1, tr, (c, r)) := run world (run_sync_cycle_with_cache true (circuit ls)) s in
      let ls1 := after_cycle interval_secs (rng n') ls c r in
      let '(s2, turns, ls2) := sync_loop world interval_secs rng n' ls1 s1 in
      (s2, MkTurn (circuit ls) tr c r :: turns, ls2)
  end.

(** ** Monitors *)

(** The monitor is not concerned with the clock. *)
Definition clockless {St} (step : ∀ X, Op X → X → St → option St) : Prop := ∀ now st, step N Now now st = Some st.

Lemma monitored_record {St} (step : ∀ X, Op X → X → St → option St) c result st (Q : St → AuthCircuit → Prop) :
  clockless step → (∀ c', Q st c') → monitored step (observe_auth c result) st Q.
Proof.
  intros Hc HQ. unfold observe_auth, record. repeat case_match; cbn [monitored]; try done. intros now. by rewrite Hc.
Qed.

Lemma monitored_mappings {St A} (step : ∀ X, Op X → X → St → option St) l (p : Prog A) st (Q : St → A → Prop) :
  (∀ m x, step unit (OnRenumbered m) x st = Some st) → monitored step p st Q → monitored step (each_mapping l p) st Q.
Proof. intros Hm Hp. induction l as [|m l IH]; cbn [each_mapping monitored]; [done|]. intros x. by rewrite Hm. Qed.

(** Walking through a program: one answer, one case at a time. *)
Ltac walk :=
  repeat first
    [ done
    | apply monitored_bind
    | apply monitored_record; [done|]
    | apply monitored_mappings; [done|]
    | progress cbn [monitored]
    | progress intros
    | progress cbn
    | case_match ].

(** The monitor is only concerned with what the two paths do. *)
Definition path_step {St} (step : ∀ X, Op X → X → St → option St) : Prop :=
  (∀ x st, step _ HasStaleRebase x st = Some st) ∧ (∀ x st, step _ RecoverStaleRebase x st = Some st)
  ∧ (∀ x st, step _ HasUnpushed x st = Some st) ∧ (∀ h x st, step _ (OnSynced h) x st = Some st)
  ∧ (∀ x st, step _ OnCycleDone x st = Some st).

Lemma monitored_end {St} (step : ∀ X, Op X → X → St → option St) c r st (Q : St → AuthCircuit * CacheAwareCycleResult → Prop) :
  path_step step → Q st (c, r) → monitored step (end_cycle c r) st Q.
Proof. intros (_ & _ & _ & _ & Hdone) H. unfold end_cycle. cbn [monitored]. intros x. by rewrite Hdone. Qed.

Lemma monitored_unpushed {St} (step : ∀ X, Op X → X → St → option St) st (Q : St → option bool → Prop) :
  path_step step → (∀ o, Q st o) → monitored step check_unpushed st Q.
Proof.
  intros (_ & Hrec & Hun & _) HQ. unfold check_unpushed. cbn [monitored]. intros x. rewrite Hun.
  destruct x as [v|e]; cbn [monitored]; [done|]. destruct e; cbn [monitored]; try done.
  intros r. rewrite Hrec. destruct (is_some r); cbn [monitored]; [done|]. intros y. by rewrite Hun.
Qed.

Lemma monitored_recover {St} (step : ∀ X, Op X → X → St → option St) st (Q : St → bool → Prop) :
  path_step step → (∀ b, Q st b) → monitored step recover_stale st Q.
Proof.
  intros (Hstale & Hrec & _) HQ. unfold recover_stale. cbn [monitored]. intros stale. rewrite Hstale.
  destruct (negb stale); cbn [monitored]; [done|]. intros r. by rewrite Hrec.
Qed.

(** What holds at the end of either path, with the circuit as it was and as it is then,
    holds at the end of the cycle. *)
Lemma monitored_body {St} (step : ∀ X, Op X → X → St → option St) cached c0 c st
    (Q : St → AuthCircuit * CacheAwareCycleResult → Prop) :
  path_step step → (∀ x st p, Q st p → ∃ st', step _ RevParseHead x st = Some st' ∧ Q st' p) →
  Q st (c, regular Normal) →
  (∀ path, path = sync_with_push c ∨ path = sync_pull_only cached c →
     monitored step path st (λ st' p,
       Q st' (if is_some (cache_neutral p.2) then MkAuthCircuit (tripped p.1) (consecutive_failures p.1) (tripped_at c0) else p.1, p.2))) →
  monitored step (cycle_body cached c0 c) st Q.
Proof.
  intros Hstep Hhead Hnormal Hpath. unfold cycle_body. apply monitored_bind, monitored_recover; [done|].
  intros [|]; cbn [negb]; [|by apply monitored_end]. apply monitored_bind, monitored_unpushed; [done|].
  intros [b|]; [|by apply monitored_end]. apply monitored_bind.
  assert (∀ st' p, Q st' (if is_some (cache_neutral p.2) then MkAuthCircuit (tripped p.1) (consecutive_failures p.1) (tripped_at c0)
                          else p.1, p.2) → monitored step (conclude c0 p) st' Q) as Htail.
  { intros st' [c1 r] H. unfold conclude. cbn [monitored fst snd] in *. intros h. destruct (Hhead h st' _ H) as (st'' & -> & H').
    destruct h as [h|]; cbn [monitored]; [|by apply monitored_end].
    pose proof Hstep as (_ & _ & _ & Hsyn & _). intros x. rewrite Hsyn. by apply monitored_end. }
  destruct b; (eapply monitored_mono; [exact Htail|]); apply Hpath; auto.
Qed.

Lemma monitored_cycle {St} (step : ∀ X, Op X → X → St → option St) cached c0 st
    (Q : St → AuthCircuit * CacheAwareCycleResult → Prop) :
  clockless step → path_step step → (∀ x st p, Q st p → ∃ st', step _ RevParseHead x st = Some st' ∧ Q st' p) →
  (∀ c o, o = AuthCircuitOpen ∨ o = Normal → Q st (c, regular o)) →
  (∀ c path, path = sync_with_push c ∨ path = sync_pull_only cached c →
     monitored step path st (λ st' p, ∀ c', Q st' (c', p.2))) →
  monitored step (run_sync_cycle_with_cache cached c0) st Q.
Proof.
  intros Hnow Hstep Hhead Hidle Hpath. unfold run_sync_cycle_with_cache, begin_probe.
  assert (∀ c, monitored step (cycle_body cached c0 c) st Q) as Hbody.
  { intros c. apply monitored_body; [done|done|by apply Hidle; right|]. intros path Hp.
    eapply monitored_mono; [|by apply (Hpath c)]. auto. }
  apply monitored_bind. destruct (negb (tripped c0)); cbn [monitored]; [apply Hbody|]. intros n. rewrite Hnow.
  destruct (negb _); cbn [monitored]; [apply monitored_end; [done|]; apply Hidle; by left|]. intros m. rewrite Hnow. apply Hbody.
Qed.

(** ** Fences *)

(** The fence was found open and neither a fetch nor a rebase happened since. *)
Definition fence_step (X : Type) (op : Op X) : X → bool → option bool :=
  match op in Op X return X → bool → option bool with
  | EpochFence => λ closed _, Some (negb closed)
  | Fetch => λ _ _, Some false
  | FetchForPull => λ _ _, Some false
  | RebaseOntoOrigin => λ r fence_open, Some (if is_some r then fence_open else false)
  | Push => λ _ fence_open, if fence_open then Some true else None
  | _ => λ _ fence_open, Some fence_open
  end.

Lemma fence_push_rewritten attempt c included :
  monitored fence_step (push_rewritten attempt c included) true
    (λ fence_open a, match a with Return _ _ => True | Continue _ _ => fence_open = true end).
Proof. unfold push_rewritten, report_push. walk. Qed.

Lemma fence_attempt attempt c included :
  monitored fence_step (sync_attempt attempt c included) true
    (λ fence_open a, match a with Return _ _ => True | Continue _ _ => fence_open = true end).
Proof.
  unfold sync_attempt, fetch_and_rebase, rebase_and_push, report_push, enforce_max_divergence, enforce_divergence_threshold.
  repeat first [apply fence_push_rewritten | progress walk].
Qed.

Lemma fence_attempts n attempt c included :
  monitored fence_step (sync_attempts n attempt c included) true (λ _ _, True).
Proof.
  revert attempt c included. induction n as [|n IH]; intros attempt c included; cbn [sync_attempts]; [done|].
  apply monitored_bind. eapply monitored_mono; [|apply fence_attempt]. intros fence_open [c' r|c' i]; [done|]. intros ->. apply IH.
Qed.

Lemma fence_pull cached c : monitored fence_step (sync_pull_only cached c) false (λ _ _, True).
Proof.
  unfold sync_pull_only, pull_fetch, pull_rebase, enforce_max_divergence, enforce_divergence_threshold. walk.
Qed.

Lemma fence_cycle cached c : monitored fence_step (run_sync_cycle_with_cache cached c) false (λ _ _, True).
Proof.
  apply monitored_cycle; [done|done|by eexists|done|]. intros c' path [->| ->].
  - unfold sync_with_push. cbn [monitored]. intros closed. cbn [fence_step]. destruct closed; [done|].
    eapply monitored_mono; [|apply fence_attempts]. done.
  - eapply monitored_mono; [|apply fence_pull]. done.
Qed.

(** C21: no push of a sealed branch.  In every cycle, whatever the clone and the remote
    answer, each push follows a check of the epoch fence that found it open, with no fetch
    and no finished rebase in between; the push after a replayed conflict relies on the
    check after the fetch it resolves. *)
Theorem pushes_are_fenced {S} (world : World S) (cached : bool) (c : AuthCircuit) (s : S) :
  accepts fence_step false (run world (run_sync_cycle_with_cache cached c) s).1.2 ≠ None.
Proof.
  destruct (run world _ s) as [[s' tr] r] eqn:E. destruct (monitored_run _ _ _ _ _ _ _ _ _ (fence_cycle cached c) E) as (st & H & _).
  cbn [fst snd]. by rewrite H.
Qed.

(** ** Reports *)

(** How far a cycle is with publishing, the last local head it looked at, and the one it
    looked at before it first rewrote the local commits. *)
Inductive Phase := Working | Landed | Resolved (head : str) | Reported | Unresolved.
Record Report := MkReport { phase : Phase; snapshot : option str; first_snapshot : option str }.

Definition while_working {A} (st : Report) (v : A) : option A := match phase st with Working => Some v | _ => None end.
Definition rewritten (st : Report) : Report :=
  MkReport (phase st) (snapshot st) (match first_snapshot st with Some h => Some h | None => snapshot st end).

Definition report_step (X : Type) (op : Op X) : X → Report → option Report :=
  match op in Op X return X → Report → option Report with
  | Push => λ r st, while_working st (if is_some r then st else MkReport Landed (snapshot st) (first_snapshot st))
  | Fetch => λ _ st, while_working st st
  | FetchForPull => λ _ st, while_working st st
  | RebaseOntoOrigin => λ r st, while_working st (if is_some r then st else rewritten st)
  | ReplayConflict => λ r st, while_working st (if is_some r then rewritten st else st)
  | DiscardUnpushed => λ _ st, while_working st st
  | RevParseHead => λ h st, Some (MkReport (phase st) h (first_snapshot st))
  | RevParseUpstream => λ h st,
      match phase st with
      | Landed => Some (MkReport (match h with Some h => Resolved h | None => Unresolved end) (snapshot st) (first_snapshot st))
      | _ => None
      end
  | OnPushed pushed included => λ _ st,
      match phase st with
      | Resolved h => if bool_decide (pushed = h ∧ included = unwrap_or (first_snapshot st) h)
                      then Some (MkReport Reported (snapshot st) (first_snapshot st)) else None
      | _ => None
      end
  | _ => λ _ st, Some st
  end.

(** A push that went through was reported, or its head could not be read; either way
    the cycle ended normally. *)
Definition report_done (st : Report) (r : CacheAwareCycleResult) : Prop :=
  phase st = Working ∨ (phase st = Reported ∨ phase st = Unresolved) ∧ r = regular Normal.

Definition report_attempt (st : Report) (a : Attempt) : Prop :=
  match a with
  | Return _ r => report_done st r
  | Continue _ i => phase st = Working ∧ first_snapshot st = i
  end.

Lemma report_report c snap included :
  monitored report_step (report_push c included) (MkReport Landed snap included) report_attempt.
Proof.
  unfold report_push. cbn. intros [h|]; cbn; [|right; auto]. rewrite bool_decide_eq_true_2 by done. intros _. right. auto.
Qed.

Lemma report_push_rewritten attempt c snap included :
  monitored report_step (push_rewritten attempt c (Some included)) (MkReport Working snap (Some included)) report_attempt.
Proof.
  unfold push_rewritten. cbn [monitored]. intros [e|]; cbn [report_step while_working phase is_some].
  - apply monitored_bind, monitored_record; [done|]. intros c'. destruct (ends_cycle c' e); cbn; [by left|done].
  - apply monitored_bind, monitored_record; [done|]. intros c'. apply report_report.
Qed.

Lemma report_rebase attempt c snap included :
  monitored report_step (rebase_and_push attempt c included) (MkReport Working snap included) report_attempt.
Proof.
  unfold rebase_and_push. cbn [monitored]. intros [h|]; cbn [report_step phase first_snapshot monitored]; [|by left].
  intros [|]; cbn [report_step negb monitored]; [|by left].
  assert (match included with Some h' => Some h' | None => Some h end = Some (unwrap_or included h)) as Hinc by by destruct included.
  intros [e|]; cbn [report_step while_working phase is_some monitored].
  - intros [x|]; cbn [report_step is_some monitored]; [by left|]. intros [ms|]; cbn [report_step while_working phase is_some monitored]; [|by left].
    apply monitored_mappings; [done|]. unfold rewritten. cbn [phase snapshot first_snapshot]. rewrite Hinc. apply report_push_rewritten.
  - intros [|]; cbn [report_step monitored]; [by left|]. unfold rewritten. cbn [phase snapshot first_snapshot]. rewrite Hinc.
    apply report_push_rewritten.
Qed.

Lemma report_sync_attempt attempt c snap included :
  monitored report_step (sync_attempt attempt c included) (MkReport Working snap included) report_attempt.
Proof.
  unfold sync_attempt. cbn [monitored]. intros [e|]; cbn [report_step while_working phase is_some].
  2: { apply monitored_bind, monitored_record; [done|]. intros c'. apply report_report. }
  apply monitored_bind, monitored_record; [done|]. intros c1. destruct (ends_cycle c1 e); [by left|].
  destruct e; try by left. unfold fetch_and_rebase. cbn [monitored]. intros fetched. cbn [report_step while_working phase].
  apply monitored_bind, monitored_record; [done|]. intros c2. destruct fetched as [e|]; [by left|].
  cbn [monitored]. intros [|]; cbn [report_step]; [by left|]. apply monitored_bind.
  unfold enforce_max_divergence, enforce_divergence_threshold. cbn [monitored]. intros d. cbn [report_step].
  destruct d as [[behind ahead]|]; cbn [monitored]; [|apply report_rebase].
  destruct (behind <? _); cbn [monitored]; [apply report_rebase|].
  intros [e|]; cbn [report_step while_working phase negb is_some monitored]; [apply report_rebase|by left].
Qed.

Lemma report_attempts n attempt c snap included :
  monitored report_step (sync_attempts n attempt c included) (MkReport Working snap included) (λ st p, report_done st p.2).
Proof.
  revert attempt c snap included. induction n as [|n IH]; intros attempt c snap included; cbn [sync_attempts]; [by left|].
  apply monitored_bind. eapply monitored_mono; [|apply report_sync_attempt].
  intros [ph sn fs] [c' r|c' i]; [done|]. intros [Hp Hf]. cbn in Hp, Hf. subst. apply IH.
Qed.

Lemma report_pull cached c st :
  phase st = Working → monitored report_step (sync_pull_only cached c) st (λ st p, report_done st p.2).
Proof.
  intros Hw. unfold sync_pull_only, pull_fetch, pull_rebase, enforce_max_divergence, enforce_divergence_threshold, report_done.
  destruct st as [ph sn fs]. cbn in Hw. subst ph. walk; auto.
Qed.

Lemma report_cycle cached c :
  monitored report_step (run_sync_cycle_with_cache cached c) (MkReport Working None None) (λ st p, report_done st p.2).
Proof.
  apply monitored_cycle; [done|done| |by left|].
  - intros h st [c' r] H. eexists. split; [reflexivity|]. exact H.
  - intros c' path [->| ->].
    + unfold sync_with_push. cbn [monitored]. intros [|]; cbn [report_step]; [by left|].
      eapply monitored_mono; [|apply report_attempts]. auto.
    + eapply monitored_mono; [|by apply report_pull]. auto.
Qed.

(** What a cycle publishes it reports, once and last.  In every cycle, whatever is
    answered, a push that went through is the last thing asked of the remote and of the
    local commits; it is reported with the head it published and with the local head whose
    commits it contains, which is the one from before the first rewriting; nothing else is
    reported, and a push goes unreported only where the published head cannot be read. *)
Theorem pushes_are_reported {S} (world : World S) (cached : bool) (c : AuthCircuit) (s : S) :
  let '(_, tr, (_, r)) := run world (run_sync_cycle_with_cache cached c) s in
  ∃ st, accepts report_step (MkReport Working None None) tr = Some st ∧ report_done st r.
Proof.
  destruct (run world _ s) as [[s' tr] [c' r]] eqn:E.
  exact (monitored_run _ _ _ _ _ _ _ _ _ (report_cycle cached c) E).
Qed.

(** ** Circuit and effort *)

(** The times a run saw, the results of its remote operations, and how long it slept. *)
Record Log := MkLog { lg_times : list N; lg_results : list GitResult; lg_slept : N }.

Definition log_result (r : GitResult) (lg : Log) : Log := MkLog (lg_times lg) (lg_results lg ++ [r]) (lg_slept lg).

Definition log_step (X : Type) (op : Op X) : X → Log → option Log :=
  match op in Op X return X → Log → option Log with
  | Now => λ now lg, Some (MkLog (lg_times lg ++ [now]) (lg_results lg) (lg_slept lg))
  | Push => λ r lg, Some (log_result r lg)
  | Fetch => λ r lg, Some (log_result r lg)
  | FetchForPull => λ r lg, Some match r with
                                 | Ready => log_result None lg
                                 | RemoteError e => log_result (Some e) lg
                                 | NeutralSkip _ => lg
                                 end
  | Sleep ms => λ _ lg, Some (MkLog (lg_times lg) (lg_results lg) (lg_slept lg + ms))
  | _ => λ _ lg, Some lg
  end.

Definition empty_log : Log := MkLog [] [] 0.
Definition log_of (tr : list Event) : Log := unwrap_or (accepts log_step empty_log tr) empty_log.

Definition is_auth_failure (r : GitResult) : bool := match r with Some (AuthFailed _) => true | _ => false end.

(** The reference: a success closes the circuit, the third failure since opens it. *)
Definition count_auth (st : bool * N) (r : GitResult) : bool * N :=
  match r with
  | None => (false, 0)
  | Some (AuthFailed _) =>
      let failures := saturating_succ st.2 in (st.1 || (AUTH_FAILURE_TRIP_THRESHOLD <=? failures), failures)
  | Some _ => st
  end.

Definition circuit_state (c : AuthCircuit) : bool * N := (tripped c, consecutive_failures c).

(** The circuit has seen the results, and was armed before or at a time the run saw. *)
Definition tracks (c1 c : AuthCircuit) (lg : Log) : Prop :=
  circuit_state c = fold_left count_auth (lg_results lg) (circuit_state c1)
  ∧ (tripped c = true → tripped_at c = tripped_at c1 ∨ ∃ t, t ∈ lg_times lg ∧ tripped_at c = Some t).

Definition no_auth (lg : Log) : Prop := existsb is_auth_failure (lg_results lg) = false.

(** At most [k] more remote operations and [ms] more milliseconds of sleep. *)
Definition effort (k : nat) (ms : N) (lg lg' : Log) : Prop :=
  (length (lg_results lg') ≤ length (lg_results lg) + k)%nat ∧ lg_slept lg' ≤ lg_slept lg + ms.

Lemma effort_trans k1 ms1 k2 ms2 lg1 lg2 lg3 :
  effort k1 ms1 lg1 lg2 → effort k2 ms2 lg2 lg3 → effort (k1 + k2) (ms1 + ms2) lg1 lg3.
Proof. unfold effort. lia. Qed.

Lemma effort_weaken k1 ms1 k2 ms2 lg1 lg2 :
  effort k1 ms1 lg1 lg2 → (k1 ≤ k2)%nat → ms1 ≤ ms2 → effort k2 ms2 lg1 lg2.
Proof. unfold effort. lia. Qed.

Lemma no_auth_snoc lg r : no_auth lg → is_auth_failure r = false → no_auth (log_result r lg).
Proof. unfold no_auth. cbn. rewrite existsb_app. cbn. intros -> ->. done. Qed.

(** Observing a result that was just logged. *)
Lemma tracks_observe c1 c lg r (Q : Log → AuthCircuit → Prop) :
  tracks c1 c lg →
  (∀ lg' c', tracks c1 c' lg' → lg_results lg' = lg_results lg ++ [r] → lg_slept lg' = lg_slept lg → Q lg' c') →
  monitored log_step (observe_auth c r) (log_result r lg) Q.
Proof.
  intros [Hst Hat] HQ. unfold observe_auth, record.
  assert (∀ c', circuit_state c' = count_auth (circuit_state c) r →
                circuit_state c' = fold_left count_auth (lg_results lg ++ [r]) (circuit_state c1)) as Hfold.
  { intros c' ->. by rewrite fold_left_app, <-Hst. }
  destruct r as [e|]; [|cbn; apply HQ; [|done|done]; split; [by apply Hfold|done]].
  destruct e; try (cbn [monitored]; apply HQ; [split; [by apply Hfold|exact Hat]|done|done]). cbn [count_auth] in *.
  destruct (AUTH_FAILURE_TRIP_THRESHOLD <=? saturating_succ (consecutive_failures c)) eqn:E; destruct (tripped c) eqn:Et;
    cbn [andb negb monitored]; try intros now; cbn [log_step];
    (apply HQ; [|done|done]); split; try (apply Hfold; unfold circuit_state; cbn; by rewrite Et, ?E);
    cbn; intros Ht; try done; try (by apply Hat); try (right; exists now; set_solver).
Qed.

(** What an attempt leaves: the circuit has seen its results, and neither a neutral end
    nor another attempt follows an auth failure. *)
Definition attempt_log (c1 : AuthCircuit) (k : nat) (ms : N) (lg lg' : Log) (a : Attempt) : Prop :=
  effort k ms lg lg'
  ∧ match a with
    | Return c r => tracks c1 c lg' ∧ (is_some (cache_neutral r) = true → no_auth lg')
    | Continue c _ => tracks c1 c lg' ∧ no_auth lg'
    end.

Lemma ends_cycle_log c lg lg' e :
  no_auth lg → lg_results lg' = lg_results lg ++ [Some e] →
  is_some (cache_neutral (unwrap_or (ends_cycle c e) (regular Normal))) = true → no_auth lg'.
Proof.
  intros Hn Hr Hneutral. unfold no_auth in *. rewrite Hr, existsb_app, Hn. by destruct e; cbn in *.
Qed.

Lemma log_report c1 c lg lg0 included k ms :
  tracks c1 c lg → no_auth lg → effort k ms lg0 lg →
  monitored log_step (report_push c included) lg (attempt_log c1 k ms lg0).
Proof. intros Ht Hn He. unfold report_push. cbn [monitored]. intros [h|]; cbn; [intros _|]; (split; [done|]); by split. Qed.

Lemma log_push_rewritten c1 attempt c lg included :
  tracks c1 c lg → no_auth lg →
  monitored log_step (push_rewritten attempt c included) lg (attempt_log c1 1 (200 * 2 ^ attempt) lg).
Proof.
  intros Ht Hn. unfold push_rewritten. cbn [monitored log_step]. intros r. apply monitored_bind, (tracks_observe c1); [done|].
  intros lg' c' Ht' Hr Hs.
  assert (∀ ms, effort 1 ms lg lg') as He by (intros ms; unfold effort; rewrite Hr, Hs, length_app; cbn; lia).
  destruct r as [e|].
  - destruct (ends_cycle c' e) as [r|] eqn:Ee; cbn [monitored log_step].
    + split; [done|]. split; [done|]. intros Hneutral. eapply (ends_cycle_log c'); [exact Hn|exact Hr|]. by rewrite Ee.
    + intros _. split.
      * unfold effort in *. cbn. specialize (He 0). lia.
      * split; [exact Ht'|]. unfold no_auth in *. cbn. rewrite Hr, existsb_app, Hn. by destruct e.
  - apply log_report; [done| |done]. unfold no_auth in *. by rewrite Hr, existsb_app, Hn.
Qed.

Lemma log_rebase c1 attempt c lg included :
  tracks c1 c lg → no_auth lg →
  monitored log_step (rebase_and_push attempt c included) lg (attempt_log c1 1 (200 * 2 ^ attempt) lg).
Proof.
  intros Ht Hn. assert (∀ r, cache_neutral r = None → attempt_log c1 1 (200 * 2 ^ attempt) lg lg (Return c r)) as Hret.
  { intros r Hr. split; [unfold effort; lia|]. split; [done|]. by rewrite Hr. }
  unfold rebase_and_push. cbn [monitored log_step]. intros [h|]; [|by apply Hret].
  intros [|]; cbn [negb monitored log_step]; [|by apply Hret]. intros [e|]; cbn [monitored log_step].
  - intros [x|]; cbn [is_some monitored log_step]; [by apply Hret|]. intros [ms|]; [|by apply Hret].
    apply monitored_mappings; [done|]. by apply log_push_rewritten.
  - intros [|]; [by apply Hret|]. by apply log_push_rewritten.
Qed.

Lemma attempt_log_trans c1 k ms k' ms' lg0 lg lg' a :
  effort k ms lg0 lg → attempt_log c1 k' ms' lg lg' a → attempt_log c1 (k + k') (ms + ms') lg0 lg' a.
Proof. intros He [He' Ha]. split; [by eapply effort_trans|done]. Qed.

Lemma log_fetch c1 attempt c lg included :
  tracks c1 c lg → no_auth lg →
  monitored log_step (fetch_and_rebase attempt c included) lg (attempt_log c1 2 (200 * 2 ^ attempt) lg).
Proof.
  intros Ht Hn. unfold fetch_and_rebase. cbn [monitored log_step]. intros r. apply monitored_bind, (tracks_observe c1); [done|].
  intros lg' c' Ht' Hr Hs.
  assert (∀ ms, effort 1 ms lg lg') as He by (intros ms; unfold effort; rewrite Hr, Hs, length_app; cbn; lia).
  assert (∀ r, (is_some (cache_neutral r) = true → no_auth lg') → attempt_log c1 2 (200 * 2 ^ attempt) lg lg' (Return c' r)) as Hret.
  { intros r' Hr'. split; [eapply effort_weaken; [apply (He 0)|lia|lia]|by split]. }
  destruct r as [e|]; [apply Hret; by eapply ends_cycle_log|].
  assert (no_auth lg') as Hn' by (unfold no_auth in *; by rewrite Hr, existsb_app, Hn).
  assert (monitored log_step (rebase_and_push attempt c' included) lg' (attempt_log c1 2 (200 * 2 ^ attempt) lg)) as Hrest.
  { eapply monitored_mono; [|by apply log_rebase]. intros lg'' a Ha. by eapply (attempt_log_trans _ 1 0) in Ha; [|apply He]. }
  cbn [monitored log_step]. intros [|]; [by apply Hret|]. apply monitored_bind.
  unfold enforce_max_divergence, enforce_divergence_threshold. cbn [monitored log_step]. intros d.
  destruct d as [[behind ahead]|]; cbn [monitored]; [|exact Hrest].
  destruct (behind <? _); cbn [monitored]; [exact Hrest|]. intros [e|]; cbn [log_step negb is_some]; [exact Hrest|by apply Hret].
Qed.

Lemma log_attempt c1 attempt c lg included :
  tracks c1 c lg → no_auth lg →
  monitored log_step (sync_attempt attempt c included) lg (attempt_log c1 3 (200 * 2 ^ attempt) lg).
Proof.
  intros Ht Hn. unfold sync_attempt. cbn [monitored log_step]. intros r. apply monitored_bind, (tracks_observe c1); [done|].
  intros lg' c' Ht' Hr Hs.
  assert (∀ ms, effort 1 ms lg lg') as He by (intros ms; unfold effort; rewrite Hr, Hs, length_app; cbn; lia).
  assert (∀ r, (is_some (cache_neutral r) = true → no_auth lg') → attempt_log c1 3 (200 * 2 ^ attempt) lg lg' (Return c' r)) as Hret.
  { intros r' Hr'. split; [eapply effort_weaken; [apply (He 0)|lia|lia]|by split]. }
  destruct r as [e|].
  - destruct (ends_cycle c' e) as [r|] eqn:Ee.
    + apply Hret. intros Hneutral. eapply (ends_cycle_log c'); [exact Hn|exact Hr|]. by rewrite Ee.
    + destruct e; try (by apply Hret). eapply monitored_mono; [|apply log_fetch; [done|]].
      * intros lg'' a Ha. by eapply (attempt_log_trans _ 1 0) in Ha; [|apply He].
      * unfold no_auth in *. by rewrite Hr, existsb_app, Hn.
  - apply log_report; [done| |eapply effort_weaken; [apply (He 0)|lia|lia]]. unfold no_auth in *. by rewrite Hr, existsb_app, Hn.
Qed.

(** The sleeps of attempts [attempt], [attempt + 1], .. *)
Fixpoint total_sleep (n : nat) (attempt : N) : N :=
  match n with O => 0 | S n' => 200 * 2 ^ attempt + total_sleep n' (attempt + 1) end.

Definition path_log (c1 : AuthCircuit) (k : nat) (ms : N) (lg lg' : Log) (p : AuthCircuit * CacheAwareCycleResult) : Prop :=
  effort k ms lg lg' ∧ tracks c1 p.1 lg' ∧ (is_some (cache_neutral p.2) = true → no_auth lg').

Lemma log_attempts c1 n attempt c lg included :
  tracks c1 c lg → no_auth lg →
  monitored log_step (sync_attempts n attempt c included) lg (path_log c1 (3 * n) (total_sleep n attempt) lg).
Proof.
  revert attempt c lg included. induction n as [|n IH]; intros attempt c lg included Ht Hn; cbn [sync_attempts].
  { split; [unfold effort; lia|by split]. }
  apply monitored_bind. eapply monitored_mono; [|by apply log_attempt]. intros lg' a [He Ha].
  destruct a as [c' r|c' i]; destruct Ha as [Ht' Hn'].
  - split; [eapply effort_weaken; [exact He|lia|cbn; lia]|by split].
  - eapply monitored_mono; [|by apply IH]. intros lg'' p (He' & Hp). split; [|done].
    eapply effort_weaken; [by eapply effort_trans|lia|cbn; lia].
Qed.

Lemma log_pull cached c1 c lg :
  tracks c1 c lg → no_auth lg → monitored log_step (sync_pull_only cached c) lg (path_log c1 1 0 lg).
Proof.
  intros Ht Hn. unfold sync_pull_only.
  assert (∀ r, monitored log_step (run! c := observe_auth c r in
            match r with None => pull_rebase c | Some e => Ret (c, unwrap_or (ends_cycle c e) (regular Normal)) end)
            (log_result r lg) (path_log c1 1 0 lg)) as Hseen.
  { intros r. apply monitored_bind, (tracks_observe c1); [done|]. intros lg' c' Ht' Hr Hs.
    assert (effort 1 0 lg lg') as He by (unfold effort; rewrite Hr, Hs, length_app; cbn; lia).
    destruct r as [e|]; [split; [done|]; split; [done|]; intros H; by eapply ends_cycle_log|].
    assert (∀ o, path_log c1 1 0 lg lg' (c', regular o)) as Hret by (intros o; split; [done|by split]).
    unfold pull_rebase, enforce_max_divergence, enforce_divergence_threshold. walk; apply Hret. }
  assert (path_log c1 1 0 lg lg (c, regular Normal)) as Hnone by (split; [unfold effort; lia|by split]).
  destruct cached; unfold pull_fetch; cbn [bind monitored log_step].
  - intros [|hint|e]; [apply (Hseen None)| |apply (Hseen (Some e))]. split; [apply Hnone|by split].
  - intros [e|]; [apply (Hseen (Some e))|apply (Hseen None)].
Qed.

(** A whole cycle.  From an open circuit it goes to the remote only when a probe is due,
    and a probe that ends in an auth failure arms the circuit again. *)
Definition cycle_log (c0 : AuthCircuit) (lg : Log) (p : AuthCircuit * CacheAwareCycleResult) : Prop :=
  effort 9 2800 empty_log lg
  ∧ circuit_state p.1 = fold_left count_auth (lg_results lg) (circuit_state c0)
  ∧ (tripped c0 = true →
       ∃ n ts, lg_times lg = n :: ts
       ∧ if should_attempt_probe c0 n
         then tripped p.1 = true →
              (tripped_at p.1 = tripped_at c0 ∧ no_auth lg) ∨ ∃ t, t ∈ lg_times lg ∧ tripped_at p.1 = Some t
         else p.1 = c0 ∧ lg_results lg = []).

Lemma log_path cached c1 c lg path :
  path = sync_with_push c ∨ path = sync_pull_only cached c →
  tracks c1 c lg → no_auth lg → monitored log_step path lg (path_log c1 9 2800 lg).
Proof.
  intros [->| ->] Ht Hn.
  - unfold sync_with_push. cbn [monitored log_step]. intros [|]; [split; [unfold effort; lia|by split]|]. by apply log_attempts.
  - eapply monitored_mono; [|by apply (log_pull _ c1)]. intros lg' p [He Hp]. split; [|done]. eapply effort_weaken; [exact He|lia|lia].
Qed.

(** Times are only added. *)
Lemma log_times_grow {A} (p : Prog A) lg (Q : Log → A → Prop) :
  monitored log_step p lg Q → monitored log_step p lg (λ lg' a, Q lg' a ∧ lg_times lg `prefix_of` lg_times lg').
Proof.
  assert (∀ X (op : Op X) x lg, ∃ lg', log_step X op x lg = Some lg' ∧ lg_times lg `prefix_of` lg_times lg') as Hstep.
  { intros X op x lg0. destruct op; cbn; try (eexists; split; [reflexivity|done]).
    - eexists. split; [reflexivity|]. by eexists.
    - eexists. split; [reflexivity|]. by destruct x. }
  revert lg. induction p as [a|X op k IH]; intros lg H; cbn [monitored] in *; [by split|].
  intros x. specialize (H x). destruct (Hstep X op x lg) as (lg' & Hs & Hp). rewrite Hs in *.
  eapply monitored_mono; [|by apply IH]. intros lg'' a [HQ Hp']. split; [done|]. by etrans.
Qed.

Lemma log_cycle cached c0 : monitored log_step (run_sync_cycle_with_cache cached c0) empty_log (cycle_log c0).
Proof.
  unfold run_sync_cycle_with_cache, begin_probe. apply monitored_bind. destruct (tripped c0) eqn:Et; cbn [negb monitored].
  - intros n. cbn [log_step]. destruct (should_attempt_probe c0 n) eqn:Ep; cbn [negb monitored].
    + intros m. cbn [log_step]. set (c := mark_probe c0 m). set (lg := MkLog _ _ _).
      assert (tracks c c lg) as Htr by (split; [done|by left]).
      apply monitored_body; [done|by eexists| |].
      * split; [unfold effort; cbn; lia|]. split; [done|]. intros _. exists n, [m]. split; [done|]. rewrite Ep. intros _.
        right. exists m. split; [set_solver|done].
      * intros path Hp. eapply monitored_mono; [|apply log_times_grow; by eapply (log_path cached c)].
        intros lg' [c' r] [(He & [Hst Hat] & Hn) Hpre]. cbn [fst snd] in *. split_and!.
        -- unfold effort in *. cbn in *. lia.
        -- destruct (is_some (cache_neutral r)); exact Hst.
        -- intros _. destruct Hpre as [rest Hpre]. exists n, (m :: rest). split; [exact Hpre|]. rewrite Ep. intros Ht.
           destruct (is_some (cache_neutral r)) eqn:En; cbn in Ht |- *; [left; auto|]. right.
           destruct (Hat Ht) as [->|(t & Hin & ->)]; [|by exists t]. exists m. split; [rewrite Hpre; set_solver|done].
    + intros x. cbn [log_step]. split; [unfold effort; cbn; lia|]. split; [done|]. intros _. exists n, []. split; [done|]. by rewrite Ep.
  - apply monitored_body; [done|by eexists| |].
    + split; [unfold effort; cbn; lia|]. split; [done|]. by rewrite Et.
    + intros path Hp. eapply monitored_mono; [|eapply (log_path cached c0); [exact Hp| |done]; split; [done|by left]].
      intros lg' [c' r] (He & [Hst _] & _). cbn [fst snd] in *. split; [exact He|]. split; [destruct (is_some _); exact Hst|]. by rewrite Et.
Qed.

Lemma cycle_run {S} (world : World S) cached c s s' tr p :
  run world (run_sync_cycle_with_cache cached c) s = (s', tr, p) → cycle_log c (log_of tr) p.
Proof.
  intros H. destruct (monitored_run _ _ _ _ _ _ _ _ _ (log_cycle cached c) H) as (lg & Ha & Hlog).
  unfold log_of. by rewrite Ha.
Qed.

(** The effort of a cycle is bounded.  Whatever is answered, one cycle asks the remote at
    most nine times and sleeps at most 2.8 seconds between its attempts. *)
Theorem cycle_effort {S} (world : World S) (cached : bool) (c : AuthCircuit) (s : S) :
  let lg := log_of (run world (run_sync_cycle_with_cache cached c) s).1.2 in
  (length (lg_results lg) ≤ 9)%nat ∧ lg_slept lg ≤ 2800.
Proof.
  destruct (run world _ s) as [[s' tr] p] eqn:E. destruct (cycle_run _ _ _ _ _ _ _ E) as [He _].
  unfold effort in He. cbn in *. lia.
Qed.

Lemma after_cycle_circuit interval rng ls c r : circuit (after_cycle interval rng ls c r) = c.
Proof.
  unfold after_cycle, schedule_after_cache_neutral. destruct (cache_neutral r) as [[]|]; [done|done|]. by destruct (outcome r).
Qed.

(** The turns of the loop follow each other: the circuit is handed on, each turn is a cycle. *)
Fixpoint linked (c : AuthCircuit) (turns : list Turn) (last : AuthCircuit) : Prop :=
  match turns with
  | [] => last = c
  | t :: turns' =>
      turn_before t = c ∧ cycle_log c (log_of (turn_trace t)) (turn_after t, turn_result t) ∧ linked (turn_after t) turns' last
  end.

Lemma loop_linked {S} (world : World S) interval rng n ls (s s' : S) turns ls' :
  sync_loop world interval rng n ls s = (s', turns, ls') → linked (circuit ls) turns (circuit ls').
Proof.
  revert ls s turns. induction n as [|n IH]; intros ls s turns H; cbn [sync_loop] in H.
  - by injection H as <- <- <-.
  - destruct (run world _ s) as [[s1 tr] [c r]] eqn:E. destruct (sync_loop _ _ _ n _ s1) as [[s2 turns2] ls2] eqn:El.
    injection H as <- <- <-. apply IH in El. rewrite after_cycle_circuit in El.
    cbn. split; [done|]. split; [by eapply cycle_run|done].
Qed.

(** The results the loop saw, over all its turns. *)
Definition all_results (turns : list Turn) : list GitResult := flat_map (λ t, lg_results (log_of (turn_trace t))) turns.

Lemma linked_results c turns last :
  linked c turns last → circuit_state last = fold_left count_auth (all_results turns) (circuit_state c).
Proof.
  revert c. induction turns as [|t turns IH]; intros c H; cbn in *; [by rewrite H|].
  destruct H as (_ & (_ & Hst & _) & Hl). rewrite fold_left_app. cbn in Hst. rewrite <-Hst. by apply IH.
Qed.

(** The results since the last success, newest first. *)
Fixpoint before_success (l : list GitResult) : list GitResult :=
  match l with
  | [] => []
  | None :: _ => []
  | r :: l' => r :: before_success l'
  end.

Definition auth_failures_since_success (rs : list GitResult) : N :=
  N.of_nat (length (List.filter is_auth_failure (before_success (reverse rs)))).

Lemma count_auth_exact rs :
  fold_left count_auth rs (false, 0)
  = (AUTH_FAILURE_TRIP_THRESHOLD <=? auth_failures_since_success rs, N.min (auth_failures_since_success rs) (2 ^ 32 - 1)).
Proof.
  induction rs as [|r rs IH] using rev_ind; [done|]. rewrite fold_left_app, IH. cbn [fold_left].
  unfold auth_failures_since_success. rewrite reverse_app. cbn [reverse rev_append app before_success].
  destruct r as [e|]; [|done]. set (n := N.of_nat _).
  destruct e; cbn [count_auth fst snd]; try done. cbn [before_success List.filter is_auth_failure length].
  replace (N.of_nat (S _)) with (n + 1) by (unfold n; lia). unfold saturating_succ, AUTH_FAILURE_TRIP_THRESHOLD. f_equal; lia.
Qed.

(** C22: the circuit says exactly what the remote said.  After any number of turns of the loop
    with any answers, the circuit is open if and only if at least three auth failures
    occurred since the last remote operation that succeeded, other errors in between not
    counted; the counter is their number. *)
Theorem circuit_exact {S} (world : World S) (interval : N) (rng : nat → N → N) (n : nat) (s : S) :
  let '(_, turns, ls) := sync_loop world interval rng n (start_loop interval false) s in
  let failures := auth_failures_since_success (all_results turns) in
  tripped (circuit ls) = (AUTH_FAILURE_TRIP_THRESHOLD <=? failures)
  ∧ consecutive_failures (circuit ls) = N.min failures (2 ^ 32 - 1).
Proof.
  destruct (sync_loop _ _ _ _ _ _) as [[s' turns] ls] eqn:E. apply loop_linked, linked_results in E.
  cbn in E. rewrite count_auth_exact in E. unfold circuit_state in E. by injection E as -> ->.
Qed.

(** ** Probes *)

Definition turn_log (t : Turn) : Log := log_of (turn_trace t).

(** The circuit stayed open over the turn, and the clock did not run backwards in it. *)
Definition stays_open (t : Turn) : Prop :=
  tripped (turn_after t) = true ∧ StronglySorted N.le (lg_times (turn_log t)).

Lemma sorted_head (n : N) ts t : StronglySorted N.le (n :: ts) → t ∈ n :: ts → n ≤ t.
Proof.
  intros H. apply StronglySorted_inv in H as [_ H]. rewrite Forall_forall in H. intros [->|Hin]%elem_of_cons; [lia|by apply H].
Qed.

(** A turn that starts with an open circuit armed at [a]: it is idle, or it starts when
    the probe is due; it leaves the circuit armed no earlier. *)
Lemma open_turn c a t :
  tripped c = true → tripped_at c = Some a →
  cycle_log c (turn_log t) (turn_after t, turn_result t) →
  (lg_results (turn_log t) ≠ [] → ∃ n, head (lg_times (turn_log t)) = Some n ∧ a + AUTH_PROBE_INTERVAL ≤ n)
  ∧ (stays_open t → ∃ a', tripped_at (turn_after t) = Some a' ∧ a ≤ a').
Proof.
  intros Ht Ha (_ & _ & H). destruct (H Ht) as (n & ts & Htimes & Hcase). cbn in Hcase.
  destruct (should_attempt_probe c n) eqn:Ep.
  - assert (a + AUTH_PROBE_INTERVAL ≤ n) as Hn.
    { unfold should_attempt_probe in Ep. rewrite Ht, Ha in Ep. cbn in Ep. apply N.leb_le in Ep. unfold AUTH_PROBE_INTERVAL in *. lia. }
    split; [intros _; exists n; by rewrite Htimes|]. intros [Ho Hsort]. destruct (Hcase Ho) as [[Hat _]|(t' & Hin & Hat)].
    + exists a. rewrite Hat. split; [done|lia].
    + exists t'. split; [done|]. rewrite Htimes in Hsort, Hin. pose proof (sorted_head _ _ _ Hsort Hin). lia.
  - destruct Hcase as [-> Hres]. split; [by rewrite Hres|]. intros _. exists a. split; [done|lia].
Qed.

Lemma open_turns c a turns last j tj :
  tripped c = true → tripped_at c = Some a → linked c turns last →
  (∀ k t, (k < j)%nat → turns !! k = Some t → stays_open t) →
  turns !! j = Some tj → lg_results (turn_log tj) ≠ [] →
  ∃ n, head (lg_times (turn_log tj)) = Some n ∧ a + AUTH_PROBE_INTERVAL ≤ n.
Proof.
  revert c a j. induction turns as [|t turns IH]; intros c a j Ht Ha Hl Hopen Hj Hres; [done|].
  destruct Hl as (Hb & Hc & Hl). destruct (open_turn c a t Ht Ha Hc) as [H1 H2].
  destruct j as [|j]; [injection Hj as ->; by apply H1|].
  pose proof (Hopen 0%nat t ltac:(lia) eq_refl) as Ho. destruct (H2 Ho) as (a' & Ha' & Hle).
  destruct (IH (turn_after t) a' j (proj1 Ho) Ha' Hl) as (n & Hn & Hn').
  - intros k t' Hk. apply (Hopen (S k)). lia.
  - exact Hj.
  - exact Hres.
  - exists n. split; [done|lia].
Qed.

Lemma linked_drop i c turns last t :
  linked c turns last → turns !! i = Some t → linked (turn_before t) (drop i turns) last.
Proof.
  revert c turns. induction i as [|i IH]; intros c turns Hl Hi; destruct turns as [|t0 turns]; try done; cbn in *.
  - injection Hi as ->. destruct Hl as (-> & Hl). by split.
  - destruct Hl as (_ & _ & Hl). by eapply IH.
Qed.

(** Failed probes are at least five minutes apart.  Take a turn of the loop that began
    with an open circuit and met an auth failure.  As long as the circuit stays open and
    the clock does not run backwards, a later turn goes to the remote only if it began at
    least [AUTH_PROBE_INTERVAL] after that turn. *)
Theorem auth_probes_spaced {W} (world : World W) (interval : N) (rng : nat → N → N) (n : nat) (ls ls' : LoopState) (s s' : W)
    (turns : list Turn) (i j : nat) (ti tj : Turn) :
  sync_loop world interval rng n ls s = (s', turns, ls') →
  (i < j)%nat → turns !! i = Some ti → turns !! j = Some tj →
  tripped (turn_before ti) = true → existsb is_auth_failure (lg_results (turn_log ti)) = true →
  (∀ k t, (i ≤ k < j)%nat → turns !! k = Some t → stays_open t) →
  lg_results (turn_log tj) ≠ [] →
  ∃ ni nj, head (lg_times (turn_log ti)) = Some ni ∧ head (lg_times (turn_log tj)) = Some nj
           ∧ ni + AUTH_PROBE_INTERVAL ≤ nj.
Proof.
  intros Hrun Hij Hi Hj Htrip Hauth Hopen Hres. apply loop_linked in Hrun.
  pose proof (linked_drop i _ _ _ _ Hrun Hi) as Hd.
  destruct (drop i turns) as [|t0 rest] eqn:Ed; [apply lookup_lt_Some in Hi; apply (f_equal length) in Ed; rewrite length_drop in Ed; cbn in Ed; lia|].
  assert (t0 = ti) as -> by (apply (f_equal head) in Ed; cbn in Ed; rewrite head_lookup, lookup_drop, Nat.add_0_r in Ed; congruence).
  destruct Hd as (_ & (_ & _ & Hc) & Hl). destruct (Hc Htrip) as (ni & ts & Htimes & Hcase). cbn in Hcase.
  destruct (Hopen i ti ltac:(lia) Hi) as [Ho Hsort]. fold (turn_log ti) in *.
  destruct (should_attempt_probe (turn_before ti) ni); [|destruct Hcase as [_ Hnone]; rewrite Hnone in Hauth; done].
  destruct (Hcase Ho) as [[_ Hno]|(t' & Hin & Hat)]; [unfold no_auth in Hno; congruence|].
  destruct (open_turns (turn_after ti) t' rest (circuit ls') (j - i - 1) tj Ho Hat Hl) as (nj & Hnj & Hle).
  - intros k t Hk Hlk. apply (Hopen (i + S k)%nat); [lia|]. rewrite <-lookup_drop, Ed. exact Hlk.
  - assert (drop i turns !! (j - i)%nat = Some tj) as Hd by (rewrite lookup_drop; by replace (i + (j - i))%nat with j by lia).
    rewrite Ed in Hd. destruct (j - i)%nat as [|m] eqn:Em; [lia|]. by replace (S m - 1)%nat with m by lia.
  - exact Hres.
  - exists ni, nj. rewrite Htimes. split_and!; [done|done|]. rewrite Htimes in Hsort, Hin.
    pose proof (sorted_head _ _ _ Hsort Hin). lia.
Qed.

(** ** The delay between two cycles *)

(** [random_range(0..n)]. *)
Definition in_range (rng : N → N) : Prop := ∀ n, 0 < n → rng n < n.

Lemma rate_limit_backoff_exact interval n :
  interval < 2 ^ 32 → rate_limit_backoff interval n = N.min (base_ms interval * 2 ^ N.min n 5) 120000.
Proof.
  intros Hi. unfold rate_limit_backoff, mul_u64. f_equal. apply N.mod_small. unfold base_ms.
  assert (2 ^ N.min n 5 ≤ 2 ^ 5) by (apply N.pow_le_mono_r; lia). nia.
Qed.

(** Before the product overflows the rebase backoff doubles up to its cap. *)
Lemma rebase_backoff_exact interval n :
  interval < 2 ^ 32 → n ≤ 34 →
  rebase_backoff interval n
  = if n <? 3 then base_ms interval else N.min (interval * 2 ^ (n - 3)) 120 * 1000.
Proof.
  intros Hi Hn. unfold rebase_backoff, REBASE_BACKOFF_THRESHOLD, REBASE_MAX_BACKOFF_SECS, mul_u64, pow2_saturating, base_ms.
  destruct (N.leb_spec 3 n), (N.ltb_spec n 3); try lia. rewrite N.div_mul by done.
  assert (2 ^ (n - 3) ≤ 2 ^ 31) by (apply N.pow_le_mono_r; lia).
  rewrite (N.min_l (2 ^ (n - 3))) by lia. by rewrite N.mod_small by nia.
Qed.

(** How long the loop waits after a cycle.  For every interval and every jitter: after a
    normal cycle between the interval and four thirds of it; after a rate limit the
    interval doubled once per rate limit in a row, at most 32 times and 120 s, and up to a
    third more; with an open circuit the interval; after failed rebases never more than the
    interval or 120 s; after a neutral cycle the old delay, or 100 ms once. *)
Theorem next_delay_bounds (interval : N) (rng : N → N) (ls : LoopState) (c : AuthCircuit) (r : CacheAwareCycleResult) :
  0 < interval → interval < 2 ^ 32 → in_range rng →
  let ls' := after_cycle interval rng ls c r in
  let d := next_delay ls' in
  let base := base_ms interval in
  match cache_neutral r with
  | Some hint => d = next_delay ls ∧ (cycle_wait ls').1 = match hint with PreserveSchedule => d | RetryContention => 100 end
  | None =>
      (cycle_wait ls').1 = d
      ∧ match outcome r with
        | Normal => base ≤ d < base + base / 3 + 1
        | OutRateLimited =>
            let capped := N.min (base * 2 ^ N.min (consecutive_rate_limits ls') 5) 120000 in capped ≤ d ≤ capped + capped / 3
        | AuthCircuitOpen => d = base
        | RebaseFailed => d ≤ N.max base 120000
        end
  end.
Proof.
  intros Hpos Hi Hrng. unfold after_cycle, schedule_after_cache_neutral. destruct r as [o [[]|]]; cbn [cache_neutral outcome]; [done|done|].
  destruct o; cbn [next_delay cycle_wait cache_retry_delay unwrap_or fst consecutive_rate_limits]; (split; [done|]).
  - destruct (N.ltb_spec 0 (base_ms interval / 3)) as [H|H]; [pose proof (Hrng _ H); lia|lia].
  - rewrite rate_limit_backoff_exact by done. set (capped := N.min _ 120000). pose proof (Hrng (capped / 3 + 1) ltac:(lia)). lia.
  - done.
  - unfold rebase_backoff, REBASE_MAX_BACKOFF_SECS. destruct (_ <=? _); lia.
Qed.

(** ** Witnesses *)

(** The product of the rebase backoff overflows: with an interval of 30 s the 66th failed
    rebase in a row is followed by no delay at all. *)
Example rebase_backoff_wraps : rebase_backoff 30 66 = 0.
Proof. by vm_compute. Qed.

(** For intervals above the cap a rate limit shortens the delay. *)
Example rate_limit_speeds_up : rate_limit_backoff 300 1 < base_ms 300.
Proof. by vm_compute. Qed.

(** A remote that refuses the credentials; two hundred seconds pass after every cycle. *)
Definition refusing_world : World N :=
  λ X op now,
    match op in Op X return N * X with
    | Now => (now, now)
    | HasStaleRebase => (now, false)
    | RecoverStaleRebase => (now, None)
    | HasUnpushed => (now, inl true)
    | EpochFence => (now, false)
    | Push => (now, Some (AuthFailed (lit "401")))
    | Fetch => (now, None)
    | FetchForPull => (now, Ready)
    | DivergenceFromUpstream => (now, None)
    | DiscardUnpushed => (now, None)
    | RevParseHead => (now, Some (lit "abc"))
    | RevParseUpstream => (now, None)
    | CaptureLocal => (now, true)
    | RebaseOntoOrigin => (now, None)
    | AbortRebase => (now, None)
    | ReplayConflict => (now, None)
    | OnPushed _ _ => (now, tt)
    | OnRenumbered _ => (now, tt)
    | OnSynced _ => (now, tt)
    | OnCycleDone => (now + 200000, tt)
    | Sleep _ => (now, tt)
    end.

Definition refused : N * list Turn * LoopState := sync_loop refusing_world 5 (λ _ _, 0) 3 (start_loop 5 true) 0.

Lemma auth_probes_spaced_witness :
  ∃ ti tj ni nj, refused.1.2 !! 0%nat = Some ti ∧ refused.1.2 !! 2%nat = Some tj
    ∧ head (lg_times (turn_log ti)) = Some ni ∧ head (lg_times (turn_log tj)) = Some nj ∧ ni + AUTH_PROBE_INTERVAL ≤ nj.
Proof.
  destruct refused as [[s' turns] ls'] eqn:E. cbn [fst snd].
  destruct turns as [|t0 [|t1 [|t2 turns]]]; [by vm_compute in E..|].
  destruct (auth_probes_spaced refusing_world 5 (λ _ _, 0) 3 (start_loop 5 true) ls' 0 s' (t0 :: t1 :: t2 :: turns) 0 2 t0 t2)
    as (ni & nj & H1 & H2 & H3).
  - exact E.
  - lia.
  - done.
  - done.
  - vm_compute in E. injection E as _ <- _ _ _ _. reflexivity.
  - vm_compute in E. injection E as _ <- _ _ _ _. reflexivity.
  - vm_compute in E. injection E as _ <- <- <- _ _. intros k t Hk Hlk.
    assert (k = 0%nat ∨ k = 1%nat) as [->| ->] by lia; injection Hlk as <-; split; try reflexivity; repeat constructor; lia.
  - vm_compute in E. injection E as _ _ _ <- _ _. discriminate.
  - exists t0, t2, ni, nj. split_and!; [done|done|exact H1|exact H2|exact H3].
Defined.

Lemma next_delay_bounds_witness :
  let d := next_delay (after_cycle 5 (λ n, n / 2) (start_loop 5 false) (new_circuit false) (regular OutRateLimited)) in
  10000 ≤ d ≤ 10000 + 10000 / 3.
Proof.
  assert (in_range (λ n, n / 2)) as Hr by (intros n Hn; apply N.div_lt; lia).
  exact (proj2 (next_delay_bounds 5 (λ n, n / 2) (start_loop 5 false) (new_circuit false) (regular OutRateLimited) ltac:(lia) ltac:(lia) Hr)).
Defined.
